(* ===== verification/_CoqProject ===== *)
-Q . S2P
Prelude.v
Float.v
Serde.v
Rstr.v
Utf8.v
FloatProps.v
FloatText.v
Args.v
Tensor.v
Linear.v
LinearProps.v
Delta.v
DeltaProps.v
Gdn.v
GdnProps.v
Attention.v
AttentionProps.v
Layer.v
LayerProps.v
PyJson.v
PyJsonProps.v
JsonInstance.v
Header.v
HeaderWitness.v
Safetensors.v
SafetensorsProps.v
Plan.v
PlanProps.v
Fuzz.v
FuzzProps.v
Reader.v
ReaderProps.v
LoadPath.v
Cache.v
Selftest.v
UnicodeTables.v
UnicodeGc.v
UnicodeGcProps.v
Pretokenize.v
PretokenizeProps.v
Tokenizer.v
BpeProps.v
TokenizerProps.v
TokenizerWitness.v
Chat.v
ChatParse.v
ChatProps.v
ChatParseProps.v
Sample.v
SampleProps.v
Model.v
ModelProps.v
ModelWitness.v
Real.v
RealProps.v
Bundle.v
BundleProps.v
Loader.v
LoaderProps.v
Exit.v
Compare.v
Deltacheck.v
Gdncheck.v
Bundlecmp.v
Stbench.v
BundleWitness.v
CheckWitness.v
TestKit.v
SampleWitness.v
ChatWitness.v
Qwenrun.v
QwenrunProps.v
Rawrun.v
Samplecheck.v
Tokcheck.v
Chatcheck.v
CorpusWitness.v
TextTests.v
ModelTests.v
UnitTests.v
