(* ===== verification/Prelude.v ===== *)
(** * Siphon: a verification library

    Siphon runs a Qwen3.5 checkpoint: a loader reads safetensors shards with
    io_uring, a tokenizer and a chat template turn a conversation into ids, the
    model produces logits, a sampler draws the next token, and the reply is
    parsed back into text and tool calls.  This library models the Rust code
    that decides what is read, computed, encoded, drawn and parsed, from the
    bytes of a checkpoint to the turns of a conversation, and proves what makes
    it correct.  Paths below are under src/.

    ** Parts and files

    X.v holds the model of a part, XProps.v its theorems, XWitness.v the
    concrete inputs the theorems are applied to; a small part, and a checking
    program, has its theorems in the same file, and a short list of inputs
    stands at the end of XProps.v.

    Shared
    - Prelude.v: this file; results, machine integers, lists, automation.
    - Serde.v: serde_json, third-party, as a class of operations with the laws
      the readers rely on; JsonInstance.v implements it with PyJson.v.
    - Rstr.v, Utf8.v: Rust strings (lists of scalar values), their searches
      and order, UTF-8 both ways.  Float.v, FloatProps.v: IEEE 754 and
      decimals; FloatText.v: which decimals are read as a float.  Tensor.v:
      vectors, slices and loops that may panic, the mathematical library.
    - Args.v: the flags, positional arguments and numbers the programs parse.
      Exit.v: how a program ends, its early returns and panics, and counters
      that decide a verdict.  Compare.v: the largest difference of two vectors
      and the order of logits, as the checking programs compute them.

    rust-qwen-engine/crates/stloader/src
    - Header.v (header.rs): [read_header] from the bytes of a file, shard
      discovery, the index.
    - Plan.v (plan.rs, lib.rs): which byte ranges to read.
    - Reader.v (reader.rs): plan validation, chunking, the submit/complete loop
      as a step relation, and the verification read.
    - Cache.v (cache.rs, aligned.rs): the probe for resident pages, eviction,
      aligned buffers.
    - Fuzz.v (fuzz.rs): the fuzzer, its generator and its safety oracle.
    - Selftest.v (selftest.rs): the loader's own checks, run on the models.
    - Stbench.v (stbench/src/main.rs): list, read, verify, selftest, fuzz.

    shell/crates/shell-text/src
    - PyJson.v (pyjson.rs): JSON with Python's formatting.
    - UnicodeTables.v, UnicodeGc.v (unicode_tables.rs, unicode_gc.rs): general
      categories and NFC.

    qwen35-forward: text
    - Pretokenize.v (gdn/src/tokenizer.rs, the scanner); Tokenizer.v, with
      BpeProps.v (the rest of tokenizer.rs): loading, BPE, encode, decode.
    - Chat.v (chat.rs): the chat template.  ChatParse.v (chatparse.rs): reading
      a reply.  Sample.v (sample.rs): the logits filters and the draw.

    qwen35-forward: the forward pass
    - Linear.v (gdn/src/lib.rs): dot products, the threaded linear layer, norms,
      activations, the convolution with its carried state.
    - Delta.v (delta/src/lib.rs): the gated delta rule.  Gdn.v (gdn/src/lib.rs):
      the gated delta net around it, one call or one chunk of a sequence.
    - Attention.v (attention.rs): rotary embedding, the key-value cache,
      grouped-query attention.
    - Layer.v, Model.v (layer.rs, model.rs): a decoder layer over either mixer,
      the stack, its cache, greedy and sampled decoding.

    qwen35-forward: weights
    - Safetensors.v (safetensors.rs): a checkpoint directory opened twice over,
      entries, decoding of bf16, f16 and f32.
    - Real.v (real.rs): configuration, derived sizes, cross-checks and weights
      of a checkpoint.
    - Bundle.v (bundle/src/lib.rs): recorded tensors, written, read and
      compared.  Loader.v (loader.rs): a model out of a bundle.

    qwen35-forward: the programs
    - Qwenrun.v, Rawrun.v (gdn/src/bin/qwenrun.rs): the arguments and the
      conversation loop, over all of the above; the raw path of main, its
      comparisons with recorded values, and the exit status.
    - Deltacheck.v (delta/src/main.rs), Gdncheck.v (gdn/src/main.rs),
      Bundlecmp.v (bundle/src/main.rs): the rule, the layers and the model, and
      whole bundles compared with recorded tensors.  CheckWitness.v holds the
      recorded bundle their theorems are applied to.
    - Samplecheck.v, Tokcheck.v, Chatcheck.v (gdn/src/bin/*check.rs): sampler,
      tokenizer and template compared with recorded corpora; CorpusWitness.v
      holds small ones.

    The repository's unit tests
    - TestKit.v: assertions, literals, and a mathematical library in fixed
      point, rounded once.
    - SampleWitness.v (module SampleTests), TextTests.v, ModelTests.v and
      UnitTests.v: a module per source file with a [tests] module, a definition
      per test under the test's name, each a boolean the model is evaluated to
      (one, over every kernel, is a proposition).  UnitTests.v ends in
      [unit_tests_pass].

    Calls: the reader executes the planner's ranges over the headers' tensors,
    and the fuzzer drives both; the tokenizer normalises with UnicodeGc, cuts
    with Pretokenize and loads through Serde; the template prints tool
    definitions and arguments with PyJson, and the reply parser inverts it; a
    layer calls Gdn or Attention through the class [SequenceMixer] of
    LayerProps.v, which states what the stack needs of either; Real and Loader
    build the [ModelWeights] that Model runs; the conversation loop renders,
    encodes, decodes with the cache, parses and remembers; the checking
    programs run the same definitions on recorded inputs and end in an [exit].

    ** What the theorems show

    - Forward pass: however a sequence is cut into chunks, the cached pass
      gives bit for bit the logits of one whole pass ([delta_split] is the
      delta rule's part, [gdn_forward_chunk] and [attn_forward_chunk] the
      mixers'), so cached
      decoding, greedy or sampled, is decoding that recomputes everything; it
      never fails on a well-formed model but for non-finite logits or an empty
      draw, and a stop set cuts the unstopped run.  The threaded linear layer
      does not depend on the number of threads.
    - Weights: a checkpoint or a bundle that loads is a well-formed model, a
      checkpoint when every size is positive and below [2^20]; every indexed
      tensor can be read back; half floats decode exactly, but for subnormals.
    - Loader: an accepted header is well formed and complete, and well-formed
      headers are accepted; plans cover every tensor, are aligned, separated
      and minimal; the I/O engine neither loses, repeats nor overlaps a request,
      stops, and can always finish; planner and engine together deliver every
      byte of every tensor exactly once ([load_delivers], LoadPath.v); the
      fuzzer's oracle is sound and accepts every plan, so a fuzzing run reports
      nothing.
    - Text: JSON round trips and the parser always returns; a float is printed
      with the fewest digits that read back as it ([py_repr_shortest]); NFC is
      total, idempotent and decides canonical equivalence; the scanner is its
      regular expression, but for a quote and a long s before a letter; BPE is
      best-first merging; encoding is leftmost-longest segmentation when no
      added token is empty; decode inverts encode up to NFC, and encoding what
      was decoded changes nothing, when the added tokens also decode as the
      characters they are; the loader establishes the rest of what these use.
    - Chat: a rendered conversation is a sequence of closed turns with the
      expected speakers; which conversations fail, with which error; rendering
      and parsing an assistant turn, alone ([parse_render]) and inside a
      conversation ([reparse_exact]): the parts come back without the space
      around them, and the text comes back exactly when the content had none;
      a conversation is never refused because of what the model answered.  End
      to end ([chat_turn_outcome]): with a well-formed model and tokenizer a
      turn renders, encodes, decodes to ids of the vocabulary that are no
      stops, and parses, or fails in one of the ways listed there, the only
      panic being the parser's on a reply that is not ASCII.
    - Sampling: the number drawn lies in [0, 1); penalties apply once per token
      or per occurrence, the n-gram ban is exact, top-k keeps ties, the draw
      inverts the cumulative mass, and a filtered token is never drawn.
    - Bundles: a written tensor reads back; a comparison finds the first
      non-finite value or the largest difference.
    - Programs: what success means.  deltacheck, gdncheck, bundlecmp and
      stbench verify only pass when every comparison they made holds, whatever
      could not be read or was not a number apart ([deltacheck_pass],
      [gdncheck_pass], [compare_pass], [verify_pass]), and samplecheck,
      tokcheck and chatcheck exactly when every case does; checks that cannot
      fire (the tokenizer's stability, draws of masked tokens, the fuzz
      command, a faithful kernel's reads) are proved not to, and when the
      template's reparse fires is decided; the cache changes no verdict; the
      self-test passes; the raw mode decodes greedily; the residency probe
      returns a fraction.

    - Unit tests: the models pass 142 of the 145 tests of the source files
      ([unit_tests_pass]), the assertions of a test one by one.  Most are
      evaluated; the three largest matrix products, NFC over the whole tables,
      the scan of 12,288 characters and the reader's round trip, whose
      assertions are about any kernel, follow from the theorems on them.

    Besides, a few theorems record behaviours a reader of the code would not
    expect (buffers dropped while the kernel owns them, a panic on a malformed
    reply, an empty added token, lenient JSON, subnormal halves, an element
    count that wraps): [engine_error_drops_busy_buffers],
    [parse_assistant_panics], [encode_empty_token_diverges],
    [decode_added_latin1], [parser_is_lenient], [summarize_panics],
    [min_p_masks_everything], [validate_negative_min_p],
    [temperature_zero_draws], [f16_to_f32_spec], [numel_wraps],
    [ck_zero_heads], [diff_not_bitwise], [fp8_is_known], [long_s_diverges],
    [parse_render_space], [tool_first_unopened], [unknown_role_before_query],
    [final_ids_unchecked], [close_three_ulp]; and of the programs, which pass
    where they should not or panic: [probe_first_window_only], [nan_passes],
    [layer_mode_ignores_rope], [missing_logits_pass],
    [copied_manifest_passes], [f32_errors_pass], [list_block_zero],
    [SampleCorpus.runs], [compare_nan], [truncate_panics].

    ** Conventions

    A [u64] is a [Z] with wrapping, checked and saturating operations written
    out.  In the forward pass, where sizes index vectors in memory, a [usize]
    is a [nat]; where sizes come from files (Safetensors, Real, Loader) their
    products wrap.  A panic is [None] in the kernels and [Panic] from the
    layer up, told apart from the errors the code returns.  A float is a
    [spec_float], every operation rounded; a NaN keeps no sign or payload.
    [exp], [ln], [cos], [sin] and [powf], whose results Rust leaves to the
    platform, are the class [Libm].  A file is its bytes and a file system a
    map.

    A string is the list of its scalar values; a byte index into it becomes
    the rest of the string, since the code only stops at character boundaries,
    and where it slices elsewhere the panic is modelled.  Error texts become
    constructors (the template's are kept as text).  The iteration order of a
    hash map, the number of hardware threads and the manifest's derived
    deserialiser are arguments.  Recursion that is not structural takes fuel
    and returns [None] or [OutOfFuel] when it runs out; the bounds used are
    proved enough: JSON values 2n+2 and strings n+1 for n bytes left,
    decomposition 6, the digits of a float 17, chunks the rounded-up quotient,
    the verification read one more than the bytes wanted, BPE one more than
    the symbols, [encode] the characters of the text (when no added token is
    empty), the reply parser the characters left.  [sort_by] is a stable
    insertion sort, and the only stable sort there is ([stable_sort_unique]),
    so it is Rust's.

    GdnProps.v uses functional extensionality for states that are functions.

    ** Not modelled

    System calls, raw allocation and the clock: their results are arguments
    (the io_uring kernel of Reader.v, [mmap] and [mincore] of Cache.v, the
    reads of Stbench.v).  In reader.rs the open flags and the buffers' memory.
    The depth of the machine stack.  Printing, except where it can panic.  The
    three unit tests of sample.rs that draw thousands of numbers, too long to
    evaluate; the tests' temporary directories.  Everything that is not Rust,
    and the parts of the repository outside the three crates' workspaces.*)

From stdpp Require Export prelude list gmap strings sorting.
From Stdlib Require Export ZArith Lia.

#[global] Open Scope Z_scope.

(** ** Fallible code

    A Rust [Result<A, E>].  The error type comes first so that [result E] is
    a monad and stdpp's [x ← m; k] notation reads like the [?] operator. *)
Inductive result (E A : Type) : Type :=
| Ok (a : A)
| Err (e : E).
Arguments Ok {E A} a.
Arguments Err {E A} e.

#[export] Instance result_ret {E} : MRet (result E) := fun A a => Ok a.
#[export] Instance result_bind {E} : MBind (result E) := fun A B f m =>
  match m with Ok a => f a | Err e => Err e end.
#[export] Instance result_fmap {E} : FMap (result E) := fun A B f m =>
  match m with Ok a => Ok (f a) | Err e => Err e end.

(** [o.ok_or(e)] *)
Definition ok_or {E A} (e : E) (o : option A) : result E A :=
  match o with Some a => Ok a | None => Err e end.

(** [iter.map(f).collect::<Result<Vec<_>, _>>()]: stops at the first error. *)
Fixpoint try_map {E A B} (f : A → result E B) (l : list A) : result E (list B) :=
  match l with
  | [] => Ok []
  | x :: l' => y ← f x; ys ← try_map f l'; Ok (y :: ys)
  end.

Section result_lemmas.
Context {E : Type}.

Lemma bind_Ok {A B} (m : result E A) (f : A → result E B) b :
  m ≫= f = Ok b ↔ ∃ a, m = Ok a ∧ f a = Ok b.
Proof. destruct m; cbn; naive_solver. Qed.

Lemma bind_Err {A B} (m : result E A) (f : A → result E B) e :
  m ≫= f = Err e ↔ m = Err e ∨ ∃ a, m = Ok a ∧ f a = Err e.
Proof. destruct m; cbn; naive_solver. Qed.

Lemma ok_or_Ok {A} (e : E) (o : option A) a : ok_or e o = Ok a ↔ o = Some a.
Proof. destruct o; cbn; naive_solver. Qed.

Lemma try_map_Ok {A B} (f : A → result E B) l l' :
  try_map f l = Ok l' ↔ Forall2 (λ x y, f x = Ok y) l l'.
Proof.
  revert l'; induction l as [|x l IH]; intros l'; cbn.
  - split; [intros [= <-]; constructor | inversion 1; done].
  - rewrite bind_Ok. split.
    + intros (y & Hy & H). apply bind_Ok in H as (ys & Hys & [= <-]).
      constructor; [done | by apply IH].
    + inversion 1 as [|? y ? ys Hy Hys]; subst. exists y. split; [done|].
      apply IH in Hys. apply bind_Ok. eauto.
Qed.

Lemma ok_or_Err {A} (e e' : E) (o : option A) : ok_or e o = Err e' ↔ o = None ∧ e = e'.
Proof. destruct o; cbn; naive_solver. Qed.

Lemma try_map_Err {A B} (f : A → result E B) l e :
  try_map f l = Err e → ∃ x, x ∈ l ∧ f x = Err e.
Proof.
  induction l as [|x l IH]; cbn; [done|].
  intros [Hx|(y & Hy & Hr)]%bind_Err; [exists x; split; [left|done]|].
  apply bind_Err in Hr as [Hr|(ys & _ & Hr)]; [|done].
  apply IH in Hr as (z & Hz & He). exists z. split; [by right|done].
Qed.

(** The first element that fails. *)
Lemma try_map_first_Err {A B} (f : A → result E B) l x l' e :
  Forall (λ x, ∃ y, f x = Ok y) l → f x = Err e → try_map f (l ++ x :: l') = Err e.
Proof.
  intros Hl Hx. induction Hl as [|y l [z Hz] _ IH]; cbn; [by rewrite Hx|].
  rewrite Hz. cbn. by rewrite IH.
Qed.

Lemma try_map_ext {A B} (f g : A → result E B) l :
  (∀ x, x ∈ l → f x = g x) → try_map f l = try_map g l.
Proof.
  induction l as [|x l IH]; intros H; cbn; [done|].
  rewrite (H x) by set_solver. destruct (g x); cbn; [|done].
  rewrite IH by set_solver. done.
Qed.
End result_lemmas.

(** Open a chain of binds that returned [Ok]. *)
Ltac inv_ok :=
  repeat match goal with
  | H : Ok _ = Ok _ |- _ => injection H; clear H; intros; try subst
  | H : Err _ = Ok _ |- _ => discriminate H
  | H : Ok _ = Err _ |- _ => discriminate H
  | H : mbind _ _ = Ok _ |- _ =>
      let a := fresh "a" in let Ha := fresh "Ha" in
      apply bind_Ok in H as (a & Ha & H)
  | H : ok_or _ _ = Ok _ |- _ => apply ok_or_Ok in H
  | H : (if decide ?P then _ else _) = Ok _ |- _ =>
      let Hd := fresh "Hd" in destruct (decide P) as [Hd|Hd]
  | H : (if ?b then _ else _) = Ok _ |- _ =>
      let Hb := fresh "Hb" in destruct b eqn:Hb
  end.

(** Open a chain of binds that returned [Err]: one goal per error site. *)
Ltac inv_err :=
  repeat match goal with
  | H : Err _ = Err _ |- _ => injection H; clear H; intros; try subst
  | H : Err _ = Ok _ |- _ => discriminate H
  | H : Ok _ = Err _ |- _ => discriminate H
  | H : ok_or _ _ = Err _ |- _ =>
      let Hn := fresh "Hn" in apply ok_or_Err in H as [Hn H]; try subst
  | H : ok_or _ _ = Ok _ |- _ => apply ok_or_Ok in H
  | H : mbind _ _ = Err _ |- _ =>
      let a := fresh "a" in let Ha := fresh "Ha" in
      apply bind_Err in H as [H|(a & Ha & H)]
  | H : try_map _ _ = Err _ |- _ =>
      let x := fresh "x" in let Hx := fresh "Hx" in
      apply try_map_Err in H as (x & Hx & H)
  | H : (if decide ?P then _ else _) = Err _ |- _ =>
      let Hd := fresh "Hd" in destruct (decide P) as [Hd|Hd]
  end.

(** ** Machine integers

    [u64] and [usize] are [Z]s in [0, 2^64) (the crates target 64-bit hosts).
    Plain [+], [-] and [*] are the wrapping operations of a release build;
    where the code asks for checked or saturating arithmetic the model does. *)
Definition u64_max : Z := 2 ^ 64 - 1.
Definition u64 (x : Z) : Prop := 0 ≤ x ≤ u64_max.

Definition wrap64 (x : Z) : Z := x mod 2 ^ 64.
Definition wadd (x y : Z) : Z := wrap64 (x + y).
Definition wsub (x y : Z) : Z := wrap64 (x - y).
Definition wmul (x y : Z) : Z := wrap64 (x * y).
Definition wrap32 (x : Z) : Z := x mod 2 ^ 32.

Definition checked_add (x y : Z) : option Z :=
  if decide (x + y ≤ u64_max) then Some (x + y) else None.
Definition checked_mul (x y : Z) : option Z :=
  if decide (x * y ≤ u64_max) then Some (x * y) else None.
Definition saturating_add (x y : Z) : Z := (x + y) `min` u64_max.
Definition saturating_mul (x y : Z) : Z := (x * y) `min` u64_max.
Definition saturating_sub (x y : Z) : Z := (x - y) `max` 0.
Definition div_ceil (x b : Z) : Z := x / b + (if decide (x mod b = 0) then 0 else 1).

#[export] Instance u64_dec x : Decision (u64 x).
Proof. unfold u64. apply _. Defined.

Lemma wrap64_small x : u64 x → wrap64 x = x.
Proof. unfold u64, u64_max, wrap64. intros. apply Z.mod_small. lia. Qed.

Lemma wadd_small x y : u64 (x + y) → wadd x y = x + y.
Proof. apply wrap64_small. Qed.

Lemma wsub_small x y : u64 (x - y) → wsub x y = x - y.
Proof. apply wrap64_small. Qed.

Lemma wrap32_small x : 0 ≤ x < 2 ^ 32 → wrap32 x = x.
Proof. apply Z.mod_small. Qed.

Lemma checked_add_Some x y z : checked_add x y = Some z ↔ z = x + y ∧ x + y ≤ u64_max.
Proof. unfold checked_add. case_decide; naive_solver lia. Qed.

Lemma checked_mul_Some x y z : checked_mul x y = Some z ↔ z = x * y ∧ x * y ≤ u64_max.
Proof. unfold checked_mul. case_decide; naive_solver lia. Qed.

Lemma div_ceil_spec x b : 0 < b → x ≤ div_ceil x b * b < x + b.
Proof.
  intros Hb. unfold div_ceil.
  pose proof (Z.div_mod x b ltac:(lia)). pose proof (Z.mod_pos_bound x b Hb).
  case_decide; nia.
Qed.

Lemma div_ceil_nonneg x b : 0 ≤ x → 0 < b → 0 ≤ div_ceil x b.
Proof. intros. pose proof (div_ceil_spec x b ltac:(lia)). nia. Qed.

Lemma div_ceil_mono x y b : 0 < b → x ≤ y → div_ceil x b ≤ div_ceil y b.
Proof.
  intros Hb Hxy. pose proof (div_ceil_spec x b Hb). pose proof (div_ceil_spec y b Hb).
  destruct (Z.le_gt_cases (div_ceil x b) (div_ceil y b)); [done|]. nia.
Qed.

(** ** Lists *)
Definition len {A} (l : list A) : Z := Z.of_nat (length l).

(** The slice [l[a..b]], for [a <= b <= l.len()]. *)
Definition slice {A} (l : list A) (a b : Z) : list A :=
  take (Z.to_nat (b - a)) (drop (Z.to_nat a) l).

Lemma len_nonneg {A} (l : list A) : 0 ≤ len l.
Proof. unfold len. lia. Qed.

Lemma len_app {A} (l k : list A) : len (l ++ k) = len l + len k.
Proof. unfold len. rewrite length_app. lia. Qed.

Lemma len_cons {A} (x : A) l : len (x :: l) = 1 + len l.
Proof. unfold len. cbn [length]. lia. Qed.

Lemma len_nil {A} : len (@nil A) = 0.
Proof. done. Qed.

Lemma len_slice {A} (l : list A) a b : 0 ≤ a ≤ b → b ≤ len l → len (slice l a b) = b - a.
Proof. unfold len, slice. intros. rewrite length_take, length_drop. lia. Qed.

Lemma slice_app {A} (l : list A) a b c :
  0 ≤ a ≤ b → b ≤ c → slice l a b ++ slice l b c = slice l a c.
Proof.
  intros Hab Hbc. unfold slice.
  replace (Z.to_nat b) with (Z.to_nat a + Z.to_nat (b - a))%nat by lia.
  rewrite <- drop_drop.
  replace (Z.to_nat (c - a)) with (Z.to_nat (b - a) + Z.to_nat (c - b))%nat by lia.
  by rewrite take_take_drop.
Qed.

Lemma slice_slice {A} (l : list A) a b c d :
  0 ≤ a ≤ b → 0 ≤ c ≤ d → a + d ≤ b → slice (slice l a b) c d = slice l (a + c) (a + d).
Proof.
  intros. unfold slice. rewrite skipn_firstn_comm, firstn_firstn, skipn_skipn.
  f_equal; [lia|f_equal; lia].
Qed.

Definition zsum (l : list Z) : Z := foldr Z.add 0 l.

Lemma zsum_app l k : zsum (l ++ k) = zsum l + zsum k.
Proof. unfold zsum. induction l as [|x l IH]; cbn [app foldr]; lia. Qed.

Lemma zsum_cons x l : zsum (x :: l) = x + zsum l.
Proof. done. Qed.

Lemma zsum_nonneg l : Forall (Z.le 0) l → 0 ≤ zsum l.
Proof. induction 1; [done|]. rewrite zsum_cons. lia. Qed.

Lemma zsum_reverse l : zsum (reverse l) = zsum l.
Proof.
  induction l as [|x l IH]; [done|]. rewrite reverse_cons, zsum_app, IH, !zsum_cons. change (zsum []) with 0. lia.
Qed.

Lemma StronglySorted_snoc {A} (R : A → A → Prop) l x :
  StronglySorted R l → Forall (λ y, R y x) l → StronglySorted R (l ++ [x]).
Proof.
  induction 1 as [|y l Hl IH Hy]; intros Hx; cbn; [repeat constructor|].
  apply Forall_cons in Hx as [Hyx Hx]. constructor; [by apply IH|].
  apply Forall_app_2; [done|]. by constructor.
Qed.

Lemma StronglySorted_reverse {A} (R : A → A → Prop) l :
  StronglySorted (λ x y, R y x) l → StronglySorted R (reverse l).
Proof.
  induction 1 as [|x l Hl IH Hx]; [constructor|]. rewrite reverse_cons.
  apply StronglySorted_snoc; [done|]. by apply Forall_reverse.
Qed.

(** [sort_by], [sort_by_key], [sort]: Rust's sorts are stable.  (The merge sort of
    stdpp is not: it may swap equivalent elements.) *)
Section sort_by.
Context {A} (R : relation A) `{∀ x y, Decision (R x y)}.

Fixpoint insert_by (x : A) (l : list A) : list A :=
  match l with
  | [] => [x]
  | y :: l => if decide (R x y) then x :: y :: l else y :: insert_by x l
  end.
Definition sort_by (l : list A) : list A := foldr insert_by [] l.

Lemma insert_by_Permutation x l : insert_by x l ≡ₚ x :: l.
Proof. induction l as [|y l IH]; cbn; [done|]. case_decide; [done|]. rewrite IH. apply perm_swap. Qed.

Lemma sort_by_Permutation l : sort_by l ≡ₚ l.
Proof. induction l as [|x l IH]; [done|]. cbn. fold (sort_by l). by rewrite insert_by_Permutation, IH. Qed.

Lemma Sorted_insert_by `{!Total R} x l : Sorted R l → Sorted R (insert_by x l).
Proof.
  induction 1 as [|y l Hl IH Hy]; cbn; [repeat constructor|]. case_decide as Hxy.
  - repeat constructor; done.
  - constructor; [done|]. assert (R y x) by (destruct (total R x y); [done|]; done).
    destruct l as [|z l]; cbn; [by constructor|]. case_decide; constructor; [done|by inversion Hy].
Qed.

Lemma Sorted_sort_by `{!Total R} l : Sorted R (sort_by l).
Proof. induction l as [|x l IH]; [constructor|]. by apply Sorted_insert_by. Qed.

Lemma StronglySorted_sort_by `{!Transitive R, !Total R} l : StronglySorted R (sort_by l).
Proof. apply Sorted_StronglySorted; [|apply Sorted_sort_by]. intros x y z. apply transitivity. Qed.

(** Elements equivalent to [x], in the order they come. *)
Definition ties (x : A) (l : list A) : list A := filter (λ y, R x y ∧ R y x) l.

Lemma ties_insert_by `{!Transitive R} x y l : ties x (insert_by y l) = ties x (y :: l).
Proof.
  induction l as [|z l IH]; [done|]. cbn [insert_by]. case_decide as Hyz; [done|].
  unfold ties in *. rewrite !filter_cons, IH, filter_cons.
  destruct (decide (R x z ∧ R z x)) as [[Hxz Hzx]|]; [|done].
  destruct (decide (R x y ∧ R y x)) as [[Hxy Hyx]|]; [|done].
  destruct Hyz. by trans x.
Qed.

(** Sorting is stable, and a stable sort is determined by its input. *)
Lemma ties_sort_by `{!Transitive R} x l : ties x (sort_by l) = ties x l.
Proof.
  induction l as [|y l IH]; [done|]. change (sort_by (y :: l)) with (insert_by y (sort_by l)).
  rewrite ties_insert_by.
  unfold ties in *. by rewrite !filter_cons, IH.
Qed.

Lemma stable_sort_unique `{!Transitive R, !Total R} l : ∀ k, StronglySorted R l → StronglySorted R k →
  l ≡ₚ k → (∀ x, ties x l = ties x k) → l = k.
Proof.
  assert (∀ x, R x x) as Hrefl by (intros x; by destruct (total R x x)).
  induction l as [|x l IH]; intros k Hl Hk Hp Ht; [by apply Permutation_nil_l in Hp|].
  destruct k as [|y k]; [by apply Permutation_nil_r in Hp|].
  apply StronglySorted_inv in Hl as [Hl Hx]. pose proof Hk as [Hk' Hy]%StronglySorted_inv.
  rewrite Forall_forall in Hx, Hy.
  assert (R x y) as Hxy.
  { assert (y ∈ x :: l) as [->|?]%elem_of_cons by (rewrite Hp; left); [done|by apply Hx]. }
  assert (R y x) as Hyx.
  { assert (x ∈ y :: k) as [->|?]%elem_of_cons by (rewrite <- Hp; left); [done|by apply Hy]. }
  pose proof (Ht x) as Htx. unfold ties in Htx. rewrite !filter_cons, !decide_True in Htx by done.
  injection Htx as <- _. f_equal. apply IH; [done|done|by apply Permutation_cons_inv in Hp|].
  intros z. specialize (Ht z). unfold ties in *. rewrite !filter_cons in Ht. case_decide; [|done].
  by injection Ht.
Qed.
End sort_by.

Lemma forallb_Forall {A} (f : A → bool) l : forallb f l = true ↔ Forall (λ x, f x = true) l.
Proof.
  induction l as [|x l IH]; cbn; [split; [constructor|done]|].
  by rewrite andb_true_iff, IH, Forall_cons.
Qed.

Lemma elem_of_concat_imap {A B} (f : nat → A → list B) l y :
  y ∈ concat (imap f l) ↔ ∃ i x, l !! i = Some x ∧ y ∈ f i x.
Proof.
  rewrite list_elem_of_In, in_concat. setoid_rewrite <- list_elem_of_In.
  split.
  - intros (k & (i & Hi)%list_elem_of_lookup & Hy). rewrite list_lookup_imap in Hi.
    destruct (l !! i) as [x|] eqn:E; [|done]. injection Hi as <-. eauto.
  - intros (i & x & Hi & Hy). exists (f i x). split; [|done].
    apply list_elem_of_lookup. exists i. by rewrite list_lookup_imap, Hi.
Qed.

(** ** Text

    A Rust [str] is the list of its Unicode scalar values.  [lit] embeds the
    (ASCII) literals of the source. *)
Abbreviation char := Z (only parsing).
Abbreviation rstr := (list Z) (only parsing).
Definition lit (s : string) : rstr :=
  map (λ a, Z.of_nat (Ascii.nat_of_ascii a)) (String.list_ascii_of_string s).

(** ** Automation shared by the components *)
Create HintDb siphon.
Create Rewrite HintDb siphon.
#[export] Hint Resolve len_nonneg : siphon.
#[export] Hint Rewrite @len_app @len_cons @len_nil @length_app @length_cons : siphon.

(** Arithmetic over lengths, [u64] ranges and the saturating operations. *)
Ltac zsolve :=
  unfold u64, u64_max, saturating_add, saturating_sub, saturating_mul, len in *;
  repeat match goal with |- context [length (_ ++ _)] => rewrite length_app end;
  cbn [length] in *; try lia; try nia.
