(* ===== verification/Float.v ===== *)
(** * IEEE 754 arithmetic and decimal text

    Rust's [f32] and [f64] are the standard library's [spec_float] at the two
    binary formats, so every operation computes and rounds to nearest even.
    NaN carries no payload.  The second half models how Rust prints and reads
    decimals: [{}] on integers, [{:e}] on floats, [parse]. *)

From Stdlib Require Export SpecFloat.
From S2P Require Import Prelude.

Abbreviation f32 := spec_float (only parsing).
Abbreviation f64 := spec_float (only parsing).

#[export] Instance spec_float_eq_dec : EqDecision spec_float.
Proof. solve_decision. Defined.

Module F32.
Definition prec : Z := 24.
Definition emax : Z := 128.
Definition add := SFadd prec emax.
Definition sub := SFsub prec emax.
Definition mul := SFmul prec emax.
Definition div := SFdiv prec emax.
Definition sqrt := SFsqrt prec emax.
Definition of_Z (n : Z) : f32 := binary_normalize prec emax n 0 false.
End F32.

Module F64.
Definition prec : Z := 53.
Definition emax : Z := 1024.
Definition add := SFadd prec emax.
Definition sub := SFsub prec emax.
Definition mul := SFmul prec emax.
Definition div := SFdiv prec emax.
Definition of_Z (n : Z) : f64 := binary_normalize prec emax n 0 false.
End F64.

Definition fzero : spec_float := S754_zero false.
Definition neg_infinity : spec_float := S754_infinity true.
Definition pos_infinity : spec_float := S754_infinity false.

Definition is_finite (x : spec_float) : bool :=
  match x with S754_zero _ | S754_finite _ _ _ => true | _ => false end.
Definition is_nan (x : spec_float) : bool :=
  match x with S754_nan => true | _ => false end.

(** [x as f64] from [f32], and [x as f32] from [f64]. *)
Definition convert (prec emax : Z) (x : spec_float) : spec_float :=
  match x with
  | S754_finite s m e => binary_round prec emax s m e
  | _ => x
  end.
Definition to_f64 (x : f32) : f64 := convert F64.prec F64.emax x.
Definition to_f32 (x : f64) : f32 := convert F32.prec F32.emax x.

(** [f32::max]: a NaN operand is ignored. *)
Definition fmax (x y : spec_float) : spec_float :=
  if is_nan x then y else if is_nan y then x else if SFltb x y then y else x.

(** ** Decimal integers *)

Definition is_digit (c : Z) : bool := (48 <=? c) && (c <=? 57).

Fixpoint dec_digits (fuel : nat) (n : Z) (acc : list Z) : list Z :=
  match fuel with
  | O => acc
  | S f => if n <? 10 then 48 + n :: acc else dec_digits f (n / 10) (48 + n mod 10 :: acc)
  end.

(** The decimal digits of a natural number; [log2 n + 1] rounds suffice, each
    one divides [n] by ten. *)
Definition show_nat (n : Z) : list Z := dec_digits (S (Z.to_nat (Z.log2 n))) n [].
Definition show_Z (i : Z) : list Z := if i <? 0 then 45 :: show_nat (- i) else show_nat i.

Definition value_of (ds : list Z) : Z := foldl (λ a d, 10 * a + (d - 48)) 0 ds.

(** ** Decimal floats *)

Fixpoint strip_zeros (fuel : nat) (m e : Z) : Z * Z :=
  match fuel with
  | O => (m, e)
  | S f => if decide (m mod 10 = 0) then strip_zeros f (m / 10) (e + 1) else (m, e)
  end.

(** The [f64] nearest to [m * 10^e], ties to even: what [str::parse] returns. *)
Definition round_dec (neg : bool) (m e : Z) : f64 :=
  match m with
  | Zpos p =>
      if decide (0 ≤ e)
      then binary_normalize F64.prec F64.emax (if neg then - (m * 10 ^ e) else m * 10 ^ e) 0 neg
      else let '(q, e', l) := SFdiv_core_binary F64.prec F64.emax m 0 (10 ^ (- e)) 0 in
           binary_round_aux F64.prec F64.emax neg q e' l
  | _ => S754_zero neg
  end.

Definition dec_to_f64 (neg : bool) (m e : Z) : f64 :=
  let '(m', e') := strip_zeros (Z.to_nat (Z.log2 m)) m e in round_dec neg m' e'.

(** [10^k <= m * 2^e] and the like, on exact rationals [num / den]. *)
Definition rat_of (m : positive) (e : Z) : Z * Z :=
  if decide (0 ≤ e) then (Zpos m * 2 ^ e, 1) else (Zpos m, 2 ^ (- e)).
Definition pow10_le (k : Z) (r : Z * Z) : bool :=
  if decide (0 ≤ k) then 10 ^ k * r.2 <=? r.1 else r.2 <=? r.1 * 10 ^ (- k).

(** Decimal exponent of a positive float: the [k] with [10^k <= x < 10^(k+1)],
    estimated from the binary exponent and corrected by at most one step. *)
Definition dec_exp (m : positive) (e : Z) : Z :=
  let k0 := (Z.log2 (Zpos m) + e) * 30103 / 100000 in
  let r := rat_of m e in
  if pow10_le (k0 + 1) r then k0 + 1 else if pow10_le k0 r then k0 else k0 - 1.

(** The two [n]-digit decimals around [m * 2^e], the nearer one first. *)
Definition candidates (m : positive) (e k n : Z) : list Z :=
  let '(num, den) := rat_of m e in
  let s := n - 1 - k in
  let '(num, den) := if decide (0 ≤ s) then (num * 10 ^ s, den) else (num, den * 10 ^ (- s)) in
  let lo := num / den in
  if decide (2 * (num - lo * den) ≤ den) then [lo; lo + 1] else [lo + 1; lo].

Fixpoint shortest (fuel : nat) (n : Z) (x : f64) (m : positive) (e k : Z) : option (Z * Z) :=
  match fuel with
  | O => None
  | S f =>
      match list_find (λ d, dec_to_f64 false d (k - (n - 1)) = x) (candidates m e k n) with
      | Some (_, d) => Some (d, k - (n - 1))
      | None => shortest f (n + 1) x m e k
      end
  end.

(** [{:e}] on a finite float: the sign, the shortest digit string that reads
    back as the same float, and the exponent of its first digit.  Seventeen
    digits determine a binary64, so the search never runs out of them
    ([FloatText.fmt_e_shortest]); what is not a finite float has no digits. *)
Definition fmt_e (x : f64) : option (bool * list Z * Z) :=
  match x with
  | S754_zero s => Some (s, [48], 0)
  | S754_finite s m e =>
      let k := dec_exp m e in
      '(d, e10) ← shortest 17 1 (S754_finite false m e) m e k;
      let '(d, e10) := strip_zeros 20 d e10 in
      let ds := show_nat d in
      Some (s, ds, e10 + len ds - 1)
  | _ => None
  end.

(** [str::parse::<f64>] on the number grammar [-? digits* (. digits+)? (e ...)?]. *)
Definition f64_from_parts (neg : bool) (int frac : list Z) (ex : Z) : option f64 :=
  if decide (int = [] ∧ frac = []) then None
  else Some (dec_to_f64 neg (value_of (int ++ frac)) (ex - len frac)).

Example fmt_tenth : fmt_e (F64.div (F64.of_Z 1) (F64.of_Z 10)) = Some (false, [49], -1).
Proof. vm_compute. reflexivity. Qed.
Example fmt_third :
  fmt_e (F64.div (F64.of_Z 1) (F64.of_Z 3)) = Some (false, lit "3333333333333333", -1).
Proof. vm_compute. reflexivity. Qed.
Example fmt_min : fmt_e (S754_finite false 1 (-1074)) = Some (false, lit "5", -324).
Proof. vm_compute. reflexivity. Qed.
