(* ===== verification/Serde.v ===== *)
(** * The serde_json interface

    [serde_json] is a third-party crate.  The readers only use a few accessors
    of its [Value], so the model takes them as a class: the operations, and in
    a second class the documented facts the theorems rely on.  Any JSON
    implementation that meets the laws can be plugged in; [PyJson.v] supplies
    one, which is what the witnesses run. *)

From S2P Require Import Prelude Float.

Class SerdeJson (J : Type) := {
  (** [serde_json::from_slice::<Value>], with the error text dropped *)
  from_slice : list Z → option J;
  (** [Value::as_object], as the entries in the map's iteration order *)
  as_object : J → option (list (rstr * J));
  as_array : J → option (list J);
  as_str : J → option rstr;
  as_u64 : J → option Z;
  as_bool : J → option bool;
  as_f64 : J → option f64;
}.

(** What serde_json documents about those accessors: a [Map] has one entry per
    key, and [as_u64] returns a [u64]. *)
Class SerdeJsonLaws (J : Type) `{SerdeJson J} := {
  as_object_keys : ∀ j kv, as_object j = Some kv → NoDup kv.*1;
  as_u64_range : ∀ j n, as_u64 j = Some n → u64 n;
}.

Section accessors.
Context `{SerdeJson J}.

(** [Map::get] *)
Definition map_get (kv : list (rstr * J)) (k : rstr) : option J :=
  snd <$> (snd <$> list_find (λ e, e.1 = k) kv).

(** [Value::get] with a string key *)
Definition get (j : J) (k : rstr) : option J :=
  kv ← as_object j; map_get kv k.

Lemma map_get_cons k v kv k' :
  map_get ((k, v) :: kv) k' = if decide (k = k') then Some v else map_get kv k'.
Proof.
  unfold map_get. cbn [list_find]. cbn [fst].
  repeat case_decide; try done. by destruct (list_find _ kv) as [[? [? ?]]|].
Qed.

Lemma map_get_Some_elem kv k v : map_get kv k = Some v → (k, v) ∈ kv.
Proof.
  induction kv as [|[k0 v0] kv IH]; [done|]. rewrite map_get_cons.
  case_decide; [intros [= ->]; subst; left | right; auto].
Qed.

Lemma map_get_elem kv k v : NoDup kv.*1 → (k, v) ∈ kv → map_get kv k = Some v.
Proof.
  induction kv as [|[k0 v0] kv IH]; cbn [fmap list_fmap]; [set_solver|].
  intros [Hn Hd]%NoDup_cons [[= -> ->]|Hin]%elem_of_cons; rewrite map_get_cons.
  - by rewrite decide_True.
  - rewrite decide_False; [auto|]. intros ->. apply Hn.
    apply list_elem_of_fmap. by exists (k, v).
Qed.
End accessors.
