(* ===== verification/Rstr.v ===== *)
(** * Operations of the Rust [str] type

    Strings are lists of scalar values.  Rust compares strings by their UTF-8
    bytes, which is the lexicographic order of the scalar values. *)

From S2P Require Import Prelude.

(** ** Ordering ([BTreeMap], [BTreeSet], [sort]) *)
Fixpoint str_leb (a b : rstr) : bool :=
  match a, b with
  | [], _ => true
  | _ :: _, [] => false
  | x :: a', y :: b' => (x <? y) || ((x =? y) && str_leb a' b')
  end.

Definition str_le (a b : rstr) : Prop := str_leb a b = true.
#[export] Instance str_le_dec a b : Decision (str_le a b).
Proof. unfold str_le. apply _. Defined.

Lemma str_leb_refl a : str_leb a a = true.
Proof. induction a as [|x a IH]; cbn; [done|]. rewrite IH, Z.eqb_refl. by destruct (x <? x). Qed.

#[export] Instance str_le_total : Total str_le.
Proof.
  intros a. induction a as [|x a IH]; intros b; [by left|].
  destruct b as [|y b]; [by right|]. unfold str_le. cbn.
  destruct (Z.lt_trichotomy x y) as [Hlt|[->|Hlt]].
  - left. by rewrite (proj2 (Z.ltb_lt x y)).
  - rewrite Z.ltb_irrefl, Z.eqb_refl. cbn. apply IH.
  - right. by rewrite (proj2 (Z.ltb_lt y x)).
Qed.

#[export] Instance str_le_trans : Transitive str_le.
Proof.
  intros a. induction a as [|x a IH]; intros [|y b] [|z c]; unfold str_le; cbn; try done.
  intros [H1|[H1 H1']%andb_prop]%orb_prop [H2|[H2 H2']%andb_prop]%orb_prop; apply orb_true_iff.
  1,2,3: left; lia.
  right. apply andb_true_iff. split; [lia|]. exact (IH b c H1' H2').
Qed.

#[export] Instance str_le_antisymm : AntiSymm eq str_le.
Proof.
  intros a. induction a as [|x a IH]; intros [|y b]; unfold str_le; cbn; try done.
  intros [H1|[H1 H1']%andb_prop]%orb_prop [H2|[H2 H2']%andb_prop]%orb_prop; try lia.
  f_equal; [lia|]. by apply IH.
Qed.

(** A [BTreeSet<&str>] collected from an iterator, as its ascending elements. *)
Definition btree_set (l : list rstr) : list rstr := sort_by str_le (remove_dups l).

Lemma elem_of_btree_set l s : s ∈ btree_set l ↔ s ∈ l.
Proof. unfold btree_set. rewrite sort_by_Permutation. apply elem_of_remove_dups. Qed.

Lemma NoDup_btree_set l : NoDup (btree_set l).
Proof. unfold btree_set. rewrite sort_by_Permutation. apply NoDup_remove_dups. Qed.

Lemma btree_set_sorted l : StronglySorted str_le (btree_set l).
Proof. apply Sorted_StronglySorted; [apply _|]. apply Sorted_sort_by. apply _. Qed.

Lemma StronglySorted_filter {A} (R : A → A → Prop) (P : A → Prop) `{!∀ x, Decision (P x)} l :
  StronglySorted R l → StronglySorted R (filter P l).
Proof.
  induction 1 as [|x l Hl IH Hx]; [constructor|]. rewrite filter_cons. case_decide; [|done].
  constructor; [done|]. rewrite Forall_forall in *. intros y [_ Hy]%list_elem_of_filter. auto.
Qed.

Lemma remove_dups_id {A} `{!EqDecision A} (l : list A) : NoDup l → remove_dups l = l.
Proof.
  induction 1 as [|x l Hx _ IH]; [done|]. cbn. case_decide; [done|]. by rewrite IH.
Qed.

(** Two duplicate-free lists lose the same elements: their intersection. *)
Lemma count_balance {A} `{!EqDecision A} (p l : list A) : NoDup p → NoDup l →
  len p + len (filter (λ s, s ∉ p) l) = len l + len (filter (λ s, s ∉ l) p).
Proof.
  intros Hp Hl.
  assert (∀ k m : list A, len k = len (filter (λ s, s ∈ m) k) + len (filter (λ s, s ∉ m) k)) as Hs.
  { intros k m. induction k as [|x k IH]; [done|]. rewrite !filter_cons, len_cons.
    destruct (decide (x ∈ m)); [rewrite decide_False by tauto|rewrite decide_True by done];
      rewrite len_cons; lia. }
  rewrite (Hs p l), (Hs l p).
  assert (filter (λ s, s ∈ l) p ≡ₚ filter (λ s, s ∈ p) l) as Hi.
  { apply NoDup_Permutation; [by apply NoDup_filter..|]. intros x.
    rewrite !list_elem_of_filter. tauto. }
  unfold len. rewrite Hi. lia.
Qed.

(** ** Searching *)

(** [s.starts_with(pre)], [s.strip_prefix(pre)] *)
Fixpoint strip_prefix (pre s : list Z) : option (list Z) :=
  match pre, s with
  | [], _ => Some s
  | x :: pre', y :: s' => if x =? y then strip_prefix pre' s' else None
  | _ :: _, [] => None
  end.
Definition starts_with (pre s : list Z) : bool :=
  match strip_prefix pre s with Some _ => true | None => false end.

Definition ends_with (suf s : list Z) : bool := starts_with (reverse suf) (reverse s).
Definition strip_suffix (suf s : list Z) : option (list Z) :=
  reverse <$> strip_prefix (reverse suf) (reverse s).

(** [s.find(pat)] as the text before the first match and the text after it:
    [split_once]. *)
Fixpoint split_once (pat s : list Z) : option (list Z * list Z) :=
  match strip_prefix pat s with
  | Some after => Some ([], after)
  | None =>
      match s with
      | [] => None
      | c :: s' => '(before, after) ← split_once pat s'; Some (c :: before, after)
      end
  end.
Definition contains (pat s : list Z) : bool :=
  match split_once pat s with Some _ => true | None => false end.

Lemma strip_prefix_Some pre s t : strip_prefix pre s = Some t ↔ s = pre ++ t.
Proof.
  revert s; induction pre as [|x pre IH]; intros [|y s]; cbn; try naive_solver.
  case_match eqn:E.
  - apply Z.eqb_eq in E as ->. rewrite IH. naive_solver.
  - apply Z.eqb_neq in E. naive_solver.
Qed.

Lemma strip_prefix_app pre t : strip_prefix pre (pre ++ t) = Some t.
Proof. by apply strip_prefix_Some. Qed.

Lemma starts_with_app pre t : starts_with pre (pre ++ t) = true.
Proof. unfold starts_with. by rewrite strip_prefix_app. Qed.

Lemma starts_with_spec pre s : starts_with pre s = true ↔ ∃ t, s = pre ++ t.
Proof.
  unfold starts_with. destruct (strip_prefix pre s) as [t|] eqn:E.
  - apply strip_prefix_Some in E. naive_solver.
  - split; [done|]. intros [t Ht]. apply strip_prefix_Some in Ht. congruence.
Qed.

Lemma split_once_Some pat s a b : split_once pat s = Some (a, b) → s = a ++ pat ++ b.
Proof.
  revert a; induction s as [|c s IH]; intros a; cbn;
    destruct (strip_prefix pat _) as [t|] eqn:E; try done.
  - apply strip_prefix_Some in E. intros [= <- <-]. done.
  - apply strip_prefix_Some in E. intros [= <- <-]. done.
  - destruct (split_once pat s) as [[x y]|] eqn:Es; cbn; [|done].
    intros [= <- <-]. cbn. f_equal. by apply IH.
Qed.

(** [s.rsplit_once(pat)]: the last match. *)
Definition rsplit_once (pat s : list Z) : option (list Z * list Z) :=
  '(after, before) ← split_once (reverse pat) (reverse s); Some (reverse before, reverse after).

(** [s.split(pat).next()] and [s.rsplit(pat).next()] *)
Definition split_first (pat s : list Z) : list Z :=
  match split_once pat s with Some (before, _) => before | None => s end.
Definition split_last (pat s : list Z) : list Z :=
  match rsplit_once pat s with Some (_, after) => after | None => s end.

(** [trim_start_matches], [trim_end_matches], [trim_matches] of a character class *)
Fixpoint trim_start (p : Z → bool) (s : list Z) : list Z :=
  match s with
  | c :: s' => if p c then trim_start p s' else s
  | [] => []
  end.
Definition trim_end (p : Z → bool) (s : list Z) : list Z := reverse (trim_start p (reverse s)).
Definition trim (p : Z → bool) (s : list Z) : list Z := trim_end p (trim_start p s).

(** ** Where a pattern can occur *)

Definition occurs_at (pat s : list Z) (i : nat) : Prop := ∃ t, drop i s = pat ++ t.

Lemma strip_prefix_None pre s : strip_prefix pre s = None ↔ ¬ ∃ t, s = pre ++ t.
Proof.
  rewrite eq_None_not_Some. split; intros H; contradict H.
  - destruct H as [t Ht]. exists t. by apply strip_prefix_Some.
  - destruct H as [t Ht]. exists t. by apply strip_prefix_Some.
Qed.

(** The first match is where no earlier one is. *)
Lemma split_once_first pat a b : (∀ i, (i < length a)%nat → ¬ occurs_at pat (a ++ pat ++ b) i) →
  split_once pat (a ++ pat ++ b) = Some (a, b).
Proof.
  induction a as [|c a IH]; intros H.
  - cbn [app]. destruct (pat ++ b) eqn:E; cbn [split_once]; rewrite <- E, strip_prefix_app; done.
  - cbn [app split_once]. destruct (strip_prefix pat (c :: a ++ pat ++ b)) as [t|] eqn:E.
    + exfalso. apply (H 0%nat); [cbn; lia|]. exists t. by apply strip_prefix_Some in E.
    + rewrite IH; [done|]. intros i Hi [t Ht]. apply (H (S i)); [cbn; lia|]. by exists t.
Qed.

Lemma split_once_None pat s : split_once pat s = None ↔ ∀ i, (i ≤ length s)%nat → ¬ occurs_at pat s i.
Proof.
  induction s as [|c s IH]; cbn [split_once].
  - destruct (strip_prefix pat []) as [t|] eqn:E.
    + split; [done|]. intros H. exfalso. apply (H 0%nat); [lia|]. exists t. by apply strip_prefix_Some in E.
    + apply strip_prefix_None in E. split; [|done]. intros _ i Hi. assert (i = 0%nat) as -> by (cbn in Hi; lia).
      done.
  - destruct (strip_prefix pat (c :: s)) as [t|] eqn:E.
    + split; [done|]. intros H. exfalso. apply (H 0%nat); [lia|]. exists t. by apply strip_prefix_Some in E.
    + apply strip_prefix_None in E. rewrite bind_None. split.
      * intros [H|([x y] & _ & ?)] i Hi; [|done]. destruct i as [|i]; [done|].
        apply (proj1 IH H i). cbn in Hi. lia.
      * intros H. left. apply IH. intros i Hi. apply (H (S i)). cbn. lia.
Qed.

Lemma contains_false pat s : contains pat s = false ↔ ∀ i, (i ≤ length s)%nat → ¬ occurs_at pat s i.
Proof. unfold contains. rewrite <- split_once_None. by destruct (split_once pat s). Qed.

(** A pattern whose first character occurs nowhere else in it, followed by text
    whose first character is not in the pattern's tail, cannot straddle. *)
Lemma no_straddle h t a k i : contains (h :: t) a = false →
  match k with [] => True | c :: _ => c ∉ t end → (i < length a)%nat → ¬ occurs_at (h :: t) (a ++ k) i.
Proof.
  intros Ha Hk Hi [u Hu]. rewrite drop_app_le in Hu by lia.
  assert (∃ x, drop i a = h :: x) as [x Hx].
  { destruct (drop i a) as [|y x] eqn:E.
    - apply (f_equal length) in E. rewrite length_drop in E. cbn in E. lia.
    - exists x. by injection Hu as -> _. }
  rewrite Hx in Hu. cbn [app] in Hu. injection Hu as Hu.
  destruct (app_eq_inv _ _ _ _ Hu) as [(m & -> & Hm)|(m & Hm & Hk')].
  - apply (proj1 (contains_false _ _) Ha i); [lia|]. exists m. by rewrite Hx.
  - destruct m as [|y m].
    + rewrite app_nil_r in Hm. subst x. apply (proj1 (contains_false _ _) Ha i); [lia|].
      exists []. by rewrite Hx, app_nil_r.
    + subst k. apply Hk. rewrite Hm. set_solver.
Qed.

(** ** Trimming *)

Lemma trim_start_head p s : match trim_start p s with c :: _ => p c = false | [] => True end.
Proof. induction s as [|c s IH]; cbn; [done|]. by destruct (p c) eqn:E. Qed.

Lemma trim_start_id p s : match s with c :: _ => p c = false | [] => True end → trim_start p s = s.
Proof. destruct s as [|c s]; cbn; [done|]. by intros ->. Qed.

Lemma trim_start_app p a s : Forall (λ c, p c = true) a → trim_start p (a ++ s) = trim_start p s.
Proof. induction 1 as [|c a Hc _ IH]; cbn; [done|]. by rewrite Hc. Qed.

Lemma trim_start_suffix p s : ∃ a, s = a ++ trim_start p s ∧ Forall (λ c, p c = true) a.
Proof.
  induction s as [|c s (a & Ha & Hp)]; cbn; [by exists []|]. destruct (p c) eqn:E.
  - exists (c :: a). cbn. split; [by f_equal|by constructor].
  - by exists [].
Qed.

(** First and last character outside the class. *)
Definition trimmed (p : Z → bool) (s : list Z) : Prop :=
  match s with c :: _ => p c = false | [] => True end
  ∧ match reverse s with c :: _ => p c = false | [] => True end.

Lemma trim_id p s : trimmed p s → trim p s = s.
Proof.
  intros [H1 H2]. unfold trim, trim_end. rewrite (trim_start_id p s H1), (trim_start_id _ _ H2).
  apply reverse_involutive.
Qed.

Lemma trim_trimmed p s : trimmed p (trim p s).
Proof.
  unfold trim, trim_end, trimmed. rewrite reverse_involutive. split; [|apply trim_start_head].
  set (u := trim_start p s). pose proof (trim_start_head p s) as Hu. fold u in Hu.
  destruct (trim_start_suffix p (reverse u)) as (a & Ha & _).
  apply (f_equal reverse) in Ha. rewrite reverse_involutive, reverse_app in Ha.
  destruct (reverse (trim_start p (reverse u))) as [|c v]; [done|]. by rewrite Ha in Hu.
Qed.

Lemma trim_surround p a b s : Forall (λ c, p c = true) a → Forall (λ c, p c = true) b → trimmed p s →
  trim p (a ++ s ++ b) = s.
Proof.
  intros Ha Hb [H1 H2]. unfold trim, trim_end. rewrite trim_start_app by done. destruct s as [|c s].
  - cbn [app]. rewrite <- (app_nil_r b), trim_start_app by done. done.
  - rewrite (trim_start_id p ((c :: s) ++ b)) by done.
    rewrite reverse_app, trim_start_app; [|by apply Forall_reverse].
    rewrite (trim_start_id p (reverse (c :: s))) by done. apply reverse_involutive.
Qed.

(** ** Occurrences in concatenations *)

Lemma trim_app_l p a s : Forall (λ c, p c = true) a → trim p (a ++ s) = trim p s.
Proof. intros Ha. unfold trim. by rewrite trim_start_app. Qed.

Lemma trim_app_r p s b : Forall (λ c, p c = true) b → trim p (s ++ b) = trim p s.
Proof.
  intros Hb. destruct (trim_start_suffix p s) as (a & Hs & Ha).
  destruct (trim_start_suffix p (reverse (trim_start p s))) as (d & Hd & Hdp).
  set (u := trim_start p s) in *. apply (f_equal reverse) in Hd. rewrite reverse_involutive, reverse_app in Hd.
  assert (trim p s = reverse (trim_start p (reverse u))) as Ht by done.
  pose proof (trim_trimmed p s) as Htr. rewrite Ht in *. set (k := reverse (trim_start p (reverse u))) in *.
  rewrite Hs, Hd, <- !app_assoc. apply trim_surround; [done| |done].
  apply Forall_app_2; [by apply Forall_reverse|done].
Qed.

Lemma contains_true pat s : contains pat s = true ↔ ∃ a b, s = a ++ pat ++ b.
Proof.
  split.
  - unfold contains. destruct (split_once pat s) as [[a b]|] eqn:E; [|done]. intros _.
    exists a, b. by apply split_once_Some.
  - intros (a & b & ->). apply not_false_is_true. intros H.
    apply (proj1 (contains_false _ _) H (length a)); [rewrite length_app; lia|].
    exists b. apply drop_app_length.
Qed.

Lemma contains_reverse pat s : contains (reverse pat) (reverse s) = contains pat s.
Proof.
  apply eq_true_iff_eq. rewrite !contains_true. split; intros (a & b & Hs); exists (reverse b), (reverse a).
  - apply (f_equal reverse) in Hs. rewrite reverse_involutive in Hs. subst s.
    by rewrite !reverse_app, reverse_involutive, <- app_assoc.
  - subst s. by rewrite !reverse_app, <- app_assoc.
Qed.

(** Nothing new appears in [a ++ k] when no match can straddle the two. *)
Lemma contains_app_false pat a k : contains pat a = false → contains pat k = false →
  (∀ i, (i < length a)%nat → ¬ occurs_at pat (a ++ k) i) → contains pat (a ++ k) = false.
Proof.
  intros Ha Hk H. apply contains_false. intros i Hi Hocc.
  destruct (decide (i < length a)%nat) as [|Hge]; [by apply (H i)|].
  rewrite length_app in Hi. destruct Hocc as [t Ht]. rewrite drop_app_ge in Ht by lia.
  apply (proj1 (contains_false _ _) Hk (i - length a)%nat); [lia|]. by exists t.
Qed.

Lemma contains_app_head h t a k : contains (h :: t) a = false → contains (h :: t) k = false →
  match k with [] => True | c :: _ => c ∉ t end → contains (h :: t) (a ++ k) = false.
Proof. intros Ha Hk Hh. apply contains_app_false; [done..|]. intros i Hi. by apply no_straddle. Qed.

Lemma contains_app_last pat a x k : contains pat (a ++ [x]) = false → contains pat k = false → x ∉ pat →
  contains pat ((a ++ [x]) ++ k) = false.
Proof.
  intros Ha Hk Hx. apply contains_app_false; [done..|]. intros i Hi [t Ht].
  rewrite drop_app_le in Ht by lia.
  destruct (app_eq_inv _ _ _ _ Ht) as [(m & Hm & _)|(m & Hm & _)].
  - apply (proj1 (contains_false _ _) Ha i); [lia|]. by exists m.
  - apply Hx. rewrite Hm. apply elem_of_app. left. rewrite length_app in Hi. cbn in Hi.
    rewrite drop_app_le by lia. set_solver.
Qed.

(** The first match of a pattern after text that does not contain it. *)
Lemma split_once_after h t a b : contains (h :: t) a = false → h ∉ t →
  split_once (h :: t) (a ++ (h :: t) ++ b) = Some (a, b).
Proof. intros Ha Hh. apply split_once_first. intros i Hi. by apply no_straddle. Qed.

Lemma split_once_absent pat s : contains pat s = false → split_once pat s = None.
Proof. unfold contains. by destruct (split_once pat s). Qed.

(** The last match of a pattern before text that does not contain it. *)
Lemma rsplit_once_after pat h t a b : reverse pat = h :: t → h ∉ t → contains pat b = false →
  rsplit_once pat (a ++ pat ++ b) = Some (a, b).
Proof.
  intros Hp Hh Hb. unfold rsplit_once. rewrite !reverse_app, Hp, <- app_assoc.
  rewrite split_once_after; [by cbn; rewrite !reverse_involutive| |done].
  rewrite <- Hp. by rewrite contains_reverse.
Qed.

Lemma split_last_after pat h t a b : reverse pat = h :: t → h ∉ t → contains pat b = false →
  split_last pat (a ++ pat ++ b) = b.
Proof. intros Hp Hh Hb. unfold split_last. by erewrite rsplit_once_after. Qed.

Lemma contains_prefix p q s : contains p s = false → contains (p ++ q) s = false.
Proof.
  intros H. apply not_true_iff_false. intros (a & b & ->)%contains_true.
  apply (proj2 (not_true_iff_false _)) in H. apply H, contains_true. exists a, (q ++ b).
  by rewrite <- app_assoc.
Qed.
