(* ===== verification/Utf8.v ===== *)
(** * UTF-8

    The encoding behind Rust's [str], as the standard library defines it:
    [char::encode_utf8], [str::from_utf8] and [String::from_utf8_lossy]. *)

From S2P Require Import Prelude.

(** A Unicode scalar value: what a Rust [char] can hold. *)
Definition scalar (c : Z) : Prop := 0 ≤ c < 0xD800 ∨ 0xE000 ≤ c ≤ 0x10FFFF.
#[export] Instance scalar_dec c : Decision (scalar c).
Proof. unfold scalar. apply _. Defined.

(** [char::from_u32] *)
Definition from_u32 (c : Z) : option char := if decide (scalar c) then Some c else None.

Definition encode_char (c : char) : list Z :=
  if c <? 0x80 then [c]
  else if c <? 0x800 then [0xC0 + c / 64; 0x80 + c mod 64]
  else if c <? 0x10000 then [0xE0 + c / 4096; 0x80 + c / 64 mod 64; 0x80 + c mod 64]
  else [0xF0 + c / 262144; 0x80 + c / 4096 mod 64; 0x80 + c / 64 mod 64; 0x80 + c mod 64].

(** [str::as_bytes] *)
Definition utf8 (s : rstr) : list Z := concat (encode_char <$> s).

Definition len_utf8 (c : char) : Z :=
  if c <? 0x80 then 1 else if c <? 0x800 then 2 else if c <? 0x10000 then 3 else 4.

Definition in_range (a b x : Z) : bool := (a <=? x) && (x <=? b).
Definition cont (b : Z) : bool := in_range 0x80 0xBF b.

(** The second byte a three- or four-byte sequence may have after its first. *)
Definition second3 (b0 b1 : Z) : bool :=
  if b0 =? 0xE0 then in_range 0xA0 0xBF b1
  else if b0 =? 0xED then in_range 0x80 0x9F b1
  else in_range 0xE1 0xEF b0 && cont b1.

Definition second4 (b0 b1 : Z) : bool :=
  if b0 =? 0xF0 then in_range 0x90 0xBF b1
  else if b0 =? 0xF4 then in_range 0x80 0x8F b1
  else in_range 0xF1 0xF3 b0 && cont b1.

Definition dec2 (b0 b1 : Z) : char := (b0 - 0xC0) * 64 + (b1 - 0x80).
Definition dec3 (b0 b1 b2 : Z) : char := ((b0 - 0xE0) * 64 + (b1 - 0x80)) * 64 + (b2 - 0x80).
Definition dec4 (b0 b1 b2 b3 : Z) : char :=
  (((b0 - 0xF0) * 64 + (b1 - 0x80)) * 64 + (b2 - 0x80)) * 64 + (b3 - 0x80).

(** [str::from_utf8], with the error dropped. *)
Fixpoint from_utf8 (l : list Z) : option rstr :=
  match l with
  | [] => Some []
  | b0 :: l1 =>
      if in_range 0 0x7F b0 then cons b0 <$> from_utf8 l1 else
      match l1 with
      | [] => None
      | b1 :: l2 =>
          if in_range 0xC2 0xDF b0 && cont b1 then cons (dec2 b0 b1) <$> from_utf8 l2 else
          match l2 with
          | [] => None
          | b2 :: l3 =>
              if second3 b0 b1 && cont b2 then cons (dec3 b0 b1 b2) <$> from_utf8 l3 else
              match l3 with
              | [] => None
              | b3 :: l4 =>
                  if second4 b0 b1 && cont b2 && cont b3
                  then cons (dec4 b0 b1 b2 b3) <$> from_utf8 l4 else None
              end
          end
      end
  end.

Definition REPLACEMENT : char := 0xFFFD.

(** [String::from_utf8_lossy]: each maximal prefix of an ill-formed sequence
    becomes one replacement character. *)
Fixpoint from_utf8_lossy (l : list Z) : rstr :=
  match l with
  | [] => []
  | b0 :: l1 =>
      if in_range 0 0x7F b0 then b0 :: from_utf8_lossy l1
      else if in_range 0xC2 0xDF b0 then
        match l1 with
        | b1 :: l2 => if cont b1 then dec2 b0 b1 :: from_utf8_lossy l2
                      else REPLACEMENT :: from_utf8_lossy l1
        | [] => [REPLACEMENT]
        end
      else if in_range 0xE0 0xEF b0 then
        match l1 with
        | b1 :: l2 =>
            if second3 b0 b1 then
              match l2 with
              | b2 :: l3 => if cont b2 then dec3 b0 b1 b2 :: from_utf8_lossy l3
                            else REPLACEMENT :: from_utf8_lossy l2
              | [] => [REPLACEMENT]
              end
            else REPLACEMENT :: from_utf8_lossy l1
        | [] => [REPLACEMENT]
        end
      else if in_range 0xF0 0xF4 b0 then
        match l1 with
        | b1 :: l2 =>
            if second4 b0 b1 then
              match l2 with
              | b2 :: l3 =>
                  if cont b2 then
                    match l3 with
                    | b3 :: l4 => if cont b3 then dec4 b0 b1 b2 b3 :: from_utf8_lossy l4
                                  else REPLACEMENT :: from_utf8_lossy l3
                    | [] => [REPLACEMENT]
                    end
                  else REPLACEMENT :: from_utf8_lossy l2
              | [] => [REPLACEMENT]
              end
            else REPLACEMENT :: from_utf8_lossy l1
        | [] => [REPLACEMENT]
        end
      else REPLACEMENT :: from_utf8_lossy l1
  end.

(** ** Lemmas *)

Ltac zdivmod := Z.to_euclidean_division_equations; lia.

Ltac case_bools :=
  repeat match goal with
  | |- context [if ?b then _ else _] =>
      lazymatch type of b with bool => let Hb := fresh "Hb" in destruct b eqn:Hb end
  end.

Ltac bool_facts :=
  unfold second3, second4, cont, in_range in *;
  repeat match goal with
  | H : context [if ?b then _ else _] |- _ =>
      lazymatch type of b with bool => let Hb := fresh "Hb" in destruct b eqn:Hb end
  end;
  rewrite ?andb_true_iff, ?andb_false_iff, ?Z.leb_le, ?Z.leb_gt, ?Z.eqb_eq, ?Z.eqb_neq,
    ?Z.ltb_lt, ?Z.ltb_ge in *.

Lemma utf8_cons c s : utf8 (c :: s) = encode_char c ++ utf8 s.
Proof. done. Qed.

Lemma utf8_app s t : utf8 (s ++ t) = utf8 s ++ utf8 t.
Proof. unfold utf8. by rewrite fmap_app, concat_app. Qed.

Lemma len_encode_char c : len (encode_char c) = len_utf8 c.
Proof. unfold encode_char, len_utf8. by case_bools. Qed.

Lemma encode_char_bytes c : scalar c → Forall (λ b, 0 ≤ b < 256) (encode_char c).
Proof.
  intros Hc. unfold encode_char, scalar in *. case_bools; bool_facts;
  repeat constructor; try zdivmod.
Qed.

Lemma utf8_bytes s : Forall scalar s → Forall (λ b, 0 ≤ b < 256) (utf8 s).
Proof.
  induction 1 as [|c s Hc _ IH]; [constructor|]. rewrite utf8_cons.
  apply Forall_app. split; [by apply encode_char_bytes|done].
Qed.

Lemma dec_encode2 c : dec2 (0xC0 + c / 64) (0x80 + c mod 64) = c.
Proof. unfold dec2. zdivmod. Qed.
Lemma dec_encode3 c : dec3 (0xE0 + c / 4096) (0x80 + c / 64 mod 64) (0x80 + c mod 64) = c.
Proof. unfold dec3. zdivmod. Qed.
Lemma dec_encode4 c :
  dec4 (0xF0 + c / 262144) (0x80 + c / 4096 mod 64) (0x80 + c / 64 mod 64) (0x80 + c mod 64) = c.
Proof. unfold dec4. zdivmod. Qed.

Lemma from_utf8_encode c l : scalar c → from_utf8 (encode_char c ++ l) = cons c <$> from_utf8 l.
Proof.
  intros Hc. unfold encode_char, scalar in *. case_bools; cbn [app from_utf8].
  all: case_bools; rewrite ?dec_encode2, ?dec_encode3, ?dec_encode4; try done.
  all: bool_facts; zdivmod.
Qed.

Lemma from_utf8_utf8 s : Forall scalar s → from_utf8 (utf8 s) = Some s.
Proof.
  induction 1 as [|c s Hc _ IH]; [done|]. by rewrite utf8_cons, from_utf8_encode, IH.
Qed.

Lemma second3_lead b0 b1 : second3 b0 b1 = true → in_range 0xE0 0xEF b0 = true.
Proof. intros H. bool_facts; lia. Qed.
Lemma second4_lead b0 b1 : second4 b0 b1 = true → in_range 0xF0 0xF4 b0 = true.
Proof. intros H. bool_facts; lia. Qed.
Lemma in_range_disjoint a b c d x : in_range a b x = true → b < c → in_range c d x = false.
Proof. unfold in_range. intros. rewrite andb_true_iff, andb_false_iff in *. lia. Qed.
Lemma second3_not2 b0 b1 : in_range 0xC2 0xDF b0 = true → second3 b0 b1 = false.
Proof.
  intros H. apply not_true_iff_false. intros H3%second3_lead.
  by rewrite (in_range_disjoint _ _ _ _ _ H) in H3.
Qed.
Lemma second4_not b0 b1 lo hi : in_range lo hi b0 = true → hi < 0xF0 → second4 b0 b1 = false.
Proof.
  intros H Hhi. apply not_true_iff_false. intros H4%second4_lead.
  by rewrite (in_range_disjoint _ _ _ _ _ H) in H4.
Qed.

(** On well-formed bytes the lossy decoder is the strict one. *)
Lemma from_utf8_lossy_Some l s : from_utf8 l = Some s → from_utf8_lossy l = s.
Proof.
  revert s. remember (length l) as n eqn:Hn. revert l Hn.
  induction n as [n IH] using lt_wf_ind. intros l -> s.
  assert (∀ l' s', (length l' < length l)%nat → from_utf8 l' = Some s' →
    from_utf8_lossy l' = s') as IH' by eauto. clear IH.
  destruct l as [|b0 l1]; cbn; [congruence|].
  destruct (in_range 0 0x7F b0) eqn:H1.
  { destruct (from_utf8 l1) eqn:E; cbn; [|done]. intros [= <-].
    f_equal. apply IH'; [cbn; lia|done]. }
  destruct l1 as [|b1 l2]; [done|].
  destruct (in_range 0xC2 0xDF b0) eqn:H2; cbn [andb].
  { destruct (cont b1); [|].
    - destruct (from_utf8 l2) eqn:E; cbn; [|done]. intros [= <-].
      f_equal. apply IH'; [cbn; lia|done].
    - destruct l2 as [|b2 l3]; [done|].
      rewrite second3_not2 by done.
      destruct l3 as [|b3 l4]; [done|].
      by rewrite (second4_not _ _ _ _ H2). }
  destruct l2 as [|b2 l3]; [done|].
  destruct (second3 b0 b1) eqn:H3; cbn [andb].
  { rewrite (second3_lead _ _ H3).
    destruct (cont b2).
    - destruct (from_utf8 l3) eqn:E; cbn; [|done]. intros [= <-].
      f_equal. apply IH'; [cbn; lia|done].
    - destruct l3 as [|b3 l4]; [done|].
      by rewrite (second4_not _ _ _ _ (second3_lead _ _ H3)). }
  destruct l3 as [|b3 l4]; [done|].
  destruct (second4 b0 b1) eqn:H4; cbn [andb]; [|done].
  pose proof (second4_lead _ _ H4) as Hl.
  assert (in_range 0xE0 0xEF b0 = false) as -> by (bool_facts; lia).
  rewrite Hl.
  destruct (cont b2), (cont b3); cbn; try done.
  destruct (from_utf8 l4) eqn:E; cbn; [|done]. intros [= <-].
  f_equal. apply IH'; [cbn; lia|done].
Qed.

Lemma from_utf8_lossy_utf8 s : Forall scalar s → from_utf8_lossy (utf8 s) = s.
Proof. intros. by apply from_utf8_lossy_Some, from_utf8_utf8. Qed.

Lemma utf8_inj s t : Forall scalar s → Forall scalar t → utf8 s = utf8 t → s = t.
Proof.
  intros Hs Ht Heq. apply (f_equal from_utf8) in Heq.
  rewrite !from_utf8_utf8 in Heq by done. congruence.
Qed.

Lemma lit_ascii s : Forall (λ c, 0 ≤ c < 256) (lit s).
Proof.
  unfold lit. apply Forall_fmap, Forall_true. intros a. cbn.
  pose proof (Ascii.nat_ascii_bounded a). lia.
Qed.

(** ASCII text is its own encoding. *)
Lemma utf8_ascii s : Forall (λ c, 0 ≤ c < 128) s → utf8 s = s.
Proof.
  induction 1 as [|c s Hc _ IH]; [done|]. rewrite utf8_cons, IH.
  unfold encode_char. by rewrite (proj2 (Z.ltb_lt c _)) by lia.
Qed.

Lemma encode_dec2 b0 b1 : in_range 0xC2 0xDF b0 && cont b1 = true →
  scalar (dec2 b0 b1) ∧ encode_char (dec2 b0 b1) = [b0; b1].
Proof.
  intros H. bool_facts. unfold scalar, encode_char, dec2. split; [lia|].
  case_bools; bool_facts; try lia. repeat f_equal; zdivmod.
Qed.

Lemma encode_dec3 b0 b1 b2 : second3 b0 b1 && cont b2 = true →
  scalar (dec3 b0 b1 b2) ∧ encode_char (dec3 b0 b1 b2) = [b0; b1; b2].
Proof.
  intros H. assert (0xE0 ≤ b0 ≤ 0xEF ∧ 0x80 ≤ b1 ≤ 0xBF ∧ 0x80 ≤ b2 ≤ 0xBF ∧
    (b0 = 0xE0 → 0xA0 ≤ b1) ∧ (b0 = 0xED → b1 ≤ 0x9F)) as (?&?&?&?&?)
    by (bool_facts; lia).
  clear H. unfold scalar, dec3. split; [lia|]. unfold encode_char.
  case_bools; bool_facts; try lia. repeat f_equal; zdivmod.
Qed.

Lemma encode_dec4 b0 b1 b2 b3 : second4 b0 b1 && cont b2 && cont b3 = true →
  scalar (dec4 b0 b1 b2 b3) ∧ encode_char (dec4 b0 b1 b2 b3) = [b0; b1; b2; b3].
Proof.
  intros H. assert (0xF0 ≤ b0 ≤ 0xF4 ∧ 0x80 ≤ b1 ≤ 0xBF ∧ 0x80 ≤ b2 ≤ 0xBF ∧ 0x80 ≤ b3 ≤ 0xBF ∧
    (b0 = 0xF0 → 0x90 ≤ b1) ∧ (b0 = 0xF4 → b1 ≤ 0x8F)) as (?&?&?&?&?&?)
    by (bool_facts; lia).
  clear H. unfold scalar, dec4. split; [lia|]. unfold encode_char.
  case_bools; bool_facts; try lia. repeat f_equal; zdivmod.
Qed.

(** The strict decoder only accepts encodings. *)
Lemma from_utf8_Some l s : from_utf8 l = Some s → Forall scalar s ∧ utf8 s = l.
Proof.
  revert s. induction l as [l IH] using (induction_ltof1 _ length). unfold ltof in IH.
  assert (∀ b c l' s, (length l' < length l)%nat → scalar c → encode_char c ++ l' = b →
    cons c <$> from_utf8 l' = Some s → Forall scalar s ∧ utf8 s = b) as step.
  { intros b c l' s Hl Hc He. destruct (from_utf8 l') as [s'|] eqn:E; cbn; [|done].
    intros [= <-]. apply IH in E as [Hs Hu]; [|done]. rewrite utf8_cons, Hu.
    split; [by constructor|done]. }
  clear IH. intros s.
  destruct l as [|b0 l1]; cbn [from_utf8].
  { intros [= <-]. split; [constructor|done]. }
  destruct (in_range 0 0x7F b0) eqn:H1.
  { apply step; [cbn; lia|unfold scalar; bool_facts; lia|].
    unfold encode_char. case_bools; bool_facts; try lia; done. }
  destruct l1 as [|b1 l2]; [done|].
  destruct (in_range 0xC2 0xDF b0 && cont b1) eqn:H2.
  { apply encode_dec2 in H2 as [Hc He]. apply step; [cbn; lia|done|by rewrite He]. }
  destruct l2 as [|b2 l3]; [done|].
  destruct (second3 b0 b1 && cont b2) eqn:H3.
  { apply encode_dec3 in H3 as [Hc He]. apply step; [cbn; lia|done|by rewrite He]. }
  destruct l3 as [|b3 l4]; [done|].
  destruct (second4 b0 b1 && cont b2 && cont b3) eqn:H4; [|done].
  apply encode_dec4 in H4 as [Hc He]. apply step; [cbn; lia|done|by rewrite He].
Qed.

Lemma from_utf8_app s l : Forall scalar s → from_utf8 (utf8 s ++ l) = app s <$> from_utf8 l.
Proof.
  induction 1 as [|c s Hc _ IH]; [change (utf8 [] ++ l) with l; by destruct (from_utf8 l)|].
  rewrite utf8_cons, <- app_assoc, from_utf8_encode, IH by done. by destruct (from_utf8 l).
Qed.

(** A prefix that ends at a character boundary leaves a boundary. *)
Lemma utf8_split s s1 l : Forall scalar s → Forall scalar s1 → utf8 s = utf8 s1 ++ l →
  ∃ s2, s = s1 ++ s2 ∧ Forall scalar s2 ∧ l = utf8 s2.
Proof.
  intros Hs Hs1 He. pose proof (from_utf8_utf8 s Hs) as Hd.
  rewrite He, from_utf8_app in Hd by done.
  destruct (from_utf8 l) as [s2|] eqn:E; [|done]. cbn in Hd. injection Hd as <-.
  apply from_utf8_Some in E as [??]. by exists s2.
Qed.

Lemma utf8_ascii_head s c l : Forall scalar s → utf8 s = c :: l → 0 ≤ c < 128 →
  ∃ s2, s = c :: s2 ∧ Forall scalar s2 ∧ l = utf8 s2.
Proof.
  intros Hs He Hc. apply (utf8_split s [c]); [done|apply Forall_singleton; left; lia|].
  by rewrite (utf8_ascii [c]) by (apply Forall_singleton; lia).
Qed.
