(* ===== verification/FloatProps.v ===== *)
(** * Decimal text: the lemmas behind number printing and parsing *)

From S2P Require Import Prelude Float.

(** ** Integers *)

Lemma is_digit_spec c : is_digit c = true ↔ 48 ≤ c ≤ 57.
Proof. unfold is_digit. rewrite andb_true_iff, !Z.leb_le. lia. Qed.

Definition digits (ds : list Z) : Prop := Forall (λ c, is_digit c = true) ds.

Lemma foldl_value ds a :
  foldl (λ a d, 10 * a + (d - 48)) a ds = a * 10 ^ len ds + value_of ds.
Proof.
  unfold value_of. revert a. induction ds as [|d ds IH]; intros a; cbn [foldl].
  - rewrite len_nil. lia.
  - rewrite IH, (IH (10 * 0 + (d - 48))), len_cons, Z.pow_add_r by zsolve. lia.
Qed.

Lemma value_of_app ds es : value_of (ds ++ es) = value_of ds * 10 ^ len es + value_of es.
Proof. unfold value_of at 1. rewrite foldl_app. apply foldl_value. Qed.

Lemma value_of_cons d ds : value_of (d :: ds) = (d - 48) * 10 ^ len ds + value_of ds.
Proof. unfold value_of at 1. cbn [foldl]. rewrite foldl_value. lia. Qed.

Lemma value_of_nonneg ds : digits ds → 0 ≤ value_of ds.
Proof.
  induction 1 as [|d ds Hd%is_digit_spec _ IH]; [done|].
  rewrite value_of_cons. pose proof (Z.pow_nonneg 10 (len ds) ltac:(lia)). nia.
Qed.

Lemma value_of_zeros n : value_of (replicate n 48) = 0.
Proof. induction n as [|n IH]; [done|]. cbn [replicate]. rewrite value_of_cons, IH. lia. Qed.

Lemma dec_digits_spec fuel n acc : 0 ≤ n < 2 ^ Z.of_nat fuel → (0 < fuel)%nat →
  ∃ ds, dec_digits fuel n acc = ds ++ acc ∧ digits ds ∧ value_of ds = n ∧
        (n = 0 ∧ ds = [48] ∨ n ≠ 0 ∧ ds ≠ [] ∧ head ds ≠ Some 48).
Proof.
  revert n acc; induction fuel as [|fuel IH]; intros n acc Hn Hf; [lia|].
  cbn [dec_digits]. destruct (n <? 10) eqn:E.
  - apply Z.ltb_lt in E. exists [48 + n]. split; [done|].
    split; [apply Forall_singleton, is_digit_spec; lia|].
    split; [cbn; lia|]. destruct (decide (n = 0)) as [->|]; [by left|right].
    repeat split; try done. cbn. intros [=]. lia.
  - apply Z.ltb_ge in E. rewrite Nat2Z.inj_succ, Z.pow_succ_r in Hn by lia.
    pose proof (Z.div_mod n 10 ltac:(lia)) as Hdm.
    pose proof (Z.mod_pos_bound n 10 ltac:(lia)) as Hm.
    destruct fuel as [|fuel]; [cbn in Hn; lia|].
    destruct (IH (n / 10) (48 + n mod 10 :: acc)) as (ds & -> & Hd & Hv & Hh); [lia|lia|].
    exists (ds ++ [48 + n mod 10]). rewrite <- app_assoc. split; [done|].
    split; [apply Forall_app_2; [done|apply Forall_singleton, is_digit_spec; lia]|].
    rewrite value_of_app, Hv. change (len [48 + n mod 10]) with 1.
    split; [cbn -[Z.div Z.modulo]; lia|]. right.
    destruct Hh as [[??]|(_ & Hne & Hh)]; [lia|].
    destruct ds; [done|]. repeat split; try done. lia.
Qed.

Lemma show_nat_spec n : 0 ≤ n →
  digits (show_nat n) ∧ value_of (show_nat n) = n ∧
  (n = 0 ∧ show_nat n = [48] ∨ n ≠ 0 ∧ show_nat n ≠ [] ∧ head (show_nat n) ≠ Some 48).
Proof.
  intros Hn. unfold show_nat.
  destruct (dec_digits_spec (S (Z.to_nat (Z.log2 n))) n []) as (ds & -> & H).
  - split; [done|]. pose proof (Z.log2_nonneg n).
    rewrite Nat2Z.inj_succ, Z2Nat.id by done.
    destruct (decide (n = 0)) as [->|]; [done|]. apply Z.log2_spec. lia.
  - lia.
  - rewrite app_nil_r. tauto.
Qed.

(** ** Floats *)

Lemma strip_zeros_spec fuel m e : ∃ k, 0 ≤ k ∧
  (strip_zeros fuel m e).2 = e + k ∧ m = (strip_zeros fuel m e).1 * 10 ^ k.
Proof.
  revert m e; induction fuel as [|fuel IH]; intros m e; cbn [strip_zeros].
  - exists 0. cbn. lia.
  - case_decide as Hm; [|exists 0; cbn; lia].
    destruct (IH (m / 10) (e + 1)) as (k & Hk & -> & Hm').
    exists (1 + k). repeat split; [lia..|]. rewrite Z.pow_add_r by lia.
    pose proof (Z.div_mod m 10 ltac:(lia)). lia.
Qed.

Lemma strip_zeros_full fuel m e : 0 < m → Z.log2 m ≤ Z.of_nat fuel →
  (strip_zeros fuel m e).1 mod 10 ≠ 0.
Proof.
  revert m e; induction fuel as [|fuel IH]; intros m e Hm Hl; cbn [strip_zeros].
  - cbn. pose proof (Z.log2_nonneg m). assert (m = 1) as ->; [|done].
    pose proof (Z.log2_spec m Hm). replace (Z.log2 m) with 0 in * by lia. cbn in *. lia.
  - case_decide as Hd; [|done]. apply IH.
    + pose proof (Z.div_mod m 10 ltac:(lia)). lia.
    + assert (Z.log2 (m / 10) < Z.log2 m); [|lia].
      pose proof (Z.div_mod m 10 ltac:(lia)).
      apply Z.log2_lt_pow2; [lia|]. pose proof (Z.log2_spec m Hm) as Hs.
      rewrite Z.pow_succ_r in Hs by apply Z.log2_nonneg. lia.
Qed.

(** Trailing zeros do not matter. *)
Lemma dec_to_f64_shift neg m e z : 0 ≤ z →
  dec_to_f64 neg (m * 10 ^ z) (e - z) = dec_to_f64 neg m e.
Proof.
  intros Hz. pose proof (Z.pow_pos_nonneg 10 z ltac:(lia) Hz) as Hp.
  unfold dec_to_f64. destruct (Z.le_gt_cases m 0) as [Hm|Hm].
  { assert (∀ m, m ≤ 0 → Z.log2 m = 0) as Hl by (intros; by apply Z.log2_nonpos).
    rewrite !Hl by nia. cbn. destruct m as [|p|p]; [done|lia|]. by destruct (10 ^ z). }
  assert (∀ m e m' e' k k', m' mod 10 ≠ 0 → m mod 10 ≠ 0 → 0 ≤ k → 0 ≤ k' →
    m * 10 ^ k = m' * 10 ^ k' → e - k = e' - k' → m = m' ∧ e = e') as Huniq.
  { intros m1 e1 m2 e2 k1 k2 H1 H2 Hk1 Hk2 Heq He.
    assert (∀ a b j, 0 < j → a = b * 10 ^ j → a mod 10 = 0) as Hdiv.
    { intros a b j Hj ->. replace j with (1 + (j - 1)) by lia. rewrite Z.pow_add_r by lia.
      change (10 ^ 1) with 10. replace (b * (10 * 10 ^ (j - 1))) with (b * 10 ^ (j - 1) * 10) by lia.
      apply Z.mod_mul. lia. }
    assert (∀ j, 0 ≤ j → 0 < 10 ^ j) as Hpow by (intros; by apply Z.pow_pos_nonneg).
    destruct (Z.lt_trichotomy k1 k2) as [Hlt|[->|Hlt]].
    - replace k2 with (k1 + (k2 - k1)) in Heq by lia.
      rewrite Z.pow_add_r in Heq by lia. exfalso. apply H2, (Hdiv m1 m2 (k2 - k1)); [lia|].
      pose proof (Hpow k1). nia.
    - pose proof (Hpow k2). split; [nia|lia].
    - replace k1 with (k2 + (k1 - k2)) in Heq by lia.
      rewrite Z.pow_add_r in Heq by lia. exfalso. apply H1, (Hdiv m2 m1 (k1 - k2)); [lia|].
      pose proof (Hpow k2). nia. }
  set (m1 := m * 10 ^ z). assert (0 < m1) as Hm1 by nia.
  pose proof (strip_zeros_full (Z.to_nat (Z.log2 m1)) m1 (e - z) Hm1) as F1.
  pose proof (strip_zeros_full (Z.to_nat (Z.log2 m)) m e Hm) as F2.
  pose proof (Z.log2_nonneg m). pose proof (Z.log2_nonneg m1).
  rewrite !Z2Nat.id in F1, F2 by done.
  destruct (strip_zeros_spec (Z.to_nat (Z.log2 m1)) m1 (e - z)) as (k1 & Hk1 & E1 & V1).
  destruct (strip_zeros_spec (Z.to_nat (Z.log2 m)) m e) as (k2 & Hk2 & E2 & V2).
  destruct (strip_zeros _ m1 _) as [a1 b1]. destruct (strip_zeros _ m _) as [a2 b2].
  cbn [fst snd] in *. specialize (F1 ltac:(lia)). specialize (F2 ltac:(lia)).
  destruct (Huniq a1 b1 a2 b2 k1 (k2 + z)) as [-> ->]; try done; try lia.
  rewrite Z.pow_add_r by lia. nia.
Qed.

Lemma binary_round_aux_opp prec emax m e l :
  binary_round_aux prec emax true m e l = SFopp (binary_round_aux prec emax false m e l).
Proof.
  unfold binary_round_aux. destruct (shr_fexp _ _ _ _ _) as [mrs e'].
  destruct (shr_fexp _ _ _ _ _) as [mrs' e'']. destruct (shr_m mrs'); cbn; try done.
  by destruct (_ <=? _).
Qed.

(** The sign is independent of the magnitude. *)
Lemma dec_to_f64_neg m e : dec_to_f64 true m e = SFopp (dec_to_f64 false m e).
Proof.
  unfold dec_to_f64. destruct (strip_zeros _ m e) as [m' e']. unfold round_dec.
  destruct m' as [|p|p]; try done. case_decide as He.
  - assert (∃ q, Zpos p * 10 ^ e' = Zpos q) as [q ->].
    { assert (0 < Zpos p * 10 ^ e') by (apply Z.mul_pos_pos; [|apply Z.pow_pos_nonneg]; lia).
      destruct (_ * _); try lia. eauto. }
    change (- Z.pos q) with (Zneg q). unfold binary_normalize, binary_round.
    case_match. apply binary_round_aux_opp.
  - destruct (SFdiv_core_binary _ _ _ _ _ _) as [[q e''] l]. apply binary_round_aux_opp.
Qed.

Lemma dec_to_f64_zero s e : dec_to_f64 s 0 e = S754_zero s.
Proof. done. Qed.

Lemma shortest_Some fuel n x m e k d e10 :
  shortest fuel n x m e k = Some (d, e10) → dec_to_f64 false d e10 = x.
Proof.
  revert n; induction fuel as [|fuel IH]; intros n; cbn [shortest]; [done|].
  destruct (list_find _ _) as [[i d']|] eqn:E; [|apply IH].
  intros [= -> <-]. by apply list_find_Some in E as (_ & ? & _).
Qed.

Lemma dec_to_f64_nonpos m e : m ≤ 0 → dec_to_f64 false m e = S754_zero false.
Proof.
  intros Hm. unfold dec_to_f64. rewrite Z.log2_nonpos by done. cbn. by destruct m.
Qed.

(** What the printed digits of a float denote. *)
Lemma fmt_e_spec x s ds k : fmt_e x = Some (s, ds, k) →
  digits ds ∧ ds ≠ [] ∧ (head ds ≠ Some 48 ∨ ds = [48] ∧ k = 0) ∧
  dec_to_f64 s (value_of ds) (k + 1 - len ds) = x.
Proof.
  destruct x as [s'|s'| |s' m e]; try done; cbn [fmt_e].
  { intros [= -> <- <-]. split; [by repeat constructor|]. auto. }
  destruct (shortest 17 1 _ m e _) as [[d e10]|] eqn:Hs; cbn [mbind option_bind]; [|done].
  apply shortest_Some in Hs.
  destruct (strip_zeros_spec 20 d e10) as (z & Hz & He & Hd).
  destruct (strip_zeros 20 d e10) as [d' e'] eqn:Hst. cbn [fst snd] in *.
  intros [= -> <- <-]. assert (0 < d) as Hdpos.
  { destruct (Z.le_gt_cases d 0) as [H0|]; [|done]. by rewrite dec_to_f64_nonpos in Hs. }
  assert (0 < d') as Hd' by (pose proof (Z.pow_pos_nonneg 10 z); nia).
  destruct (show_nat_spec d' ltac:(lia)) as (Hds & Hv & [[? _]|(_ & Hne & Hh)]); [lia|].
  split; [done|]. split; [done|]. split; [by left|].
  rewrite Hv. replace (_ + 1 - _) with e' by lia. subst d e'.
  replace e10 with (e10 + z - z) in Hs by lia. rewrite dec_to_f64_shift in Hs by done.
  destruct s; [by rewrite dec_to_f64_neg, Hs|done].
Qed.

(** ** The order of floats *)

(** [SFcompare] compares these triples lexicographically. *)
Definition fkey (x : spec_float) : Z * Z * Z :=
  match x with
  | S754_nan => (3, 0, 0)
  | S754_infinity true => (-2, 0, 0)
  | S754_finite true m e => (-1, - e, - Zpos m)
  | S754_zero _ => (0, 0, 0)
  | S754_finite false m e => (1, e, Zpos m)
  | S754_infinity false => (2, 0, 0)
  end.

Definition lex (a b : Z * Z * Z) : comparison :=
  match a.1.1 ?= b.1.1 with
  | Eq => match a.1.2 ?= b.1.2 with Eq => a.2 ?= b.2 | c => c end
  | c => c
  end.

Lemma SFcompare_lex x y : is_nan x = false → is_nan y = false → SFcompare x y = Some (lex (fkey x) (fkey y)).
Proof.
  destruct x as [sx|sx| |sx mx ex], y as [sy|sy| |sy my ey]; cbn; try done; intros _ _;
    destruct sx; try destruct sy; try done; unfold lex; cbn [fkey fst snd]; rewrite ?Z.compare_refl; try done.
  - rewrite Z.compare_opp, (Z.compare_antisym ex ey). by destruct (ex ?= ey).
Qed.

Lemma lex_le_spec a b : lex a b ≠ Gt ↔
  a.1.1 < b.1.1 ∨ a.1.1 = b.1.1 ∧ (a.1.2 < b.1.2 ∨ a.1.2 = b.1.2 ∧ a.2 ≤ b.2).
Proof.
  unfold lex. destruct (Z.compare_spec a.1.1 b.1.1), (Z.compare_spec a.1.2 b.1.2), (Z.compare_spec a.2 b.2);
    split; intros; try done; try lia.
Qed.

Lemma lex_lt_spec a b : lex a b = Lt ↔ lex b a = Gt.
Proof.
  unfold lex. rewrite (Z.compare_antisym b.1.1), (Z.compare_antisym b.1.2), (Z.compare_antisym b.2).
  by destruct (b.1.1 ?= a.1.1), (b.1.2 ?= a.1.2), (b.2 ?= a.2).
Qed.

Lemma SFltb_lex x y : is_nan x = false → is_nan y = false → SFltb x y = true ↔ lex (fkey x) (fkey y) = Lt.
Proof. intros Hx Hy. unfold SFltb. rewrite SFcompare_lex by done. by destruct (lex _ _). Qed.

Lemma SFltb_numbers x y : SFltb x y = true → is_nan x = false ∧ is_nan y = false.
Proof. by destruct x as [| | |[]], y as [| | |[]]. Qed.

Lemma SFltb_key x y : SFltb x y = true ↔
  is_nan x = false ∧ is_nan y = false ∧ lex (fkey y) (fkey x) = Gt.
Proof.
  split.
  - intros H. destruct (SFltb_numbers x y H) as [Hx Hy]. rewrite SFltb_lex, lex_lt_spec in H by done. done.
  - intros (Hx & Hy & H). by rewrite SFltb_lex, lex_lt_spec.
Qed.

Lemma lex_gt_spec a b : lex a b = Gt ↔
  b.1.1 < a.1.1 ∨ a.1.1 = b.1.1 ∧ (b.1.2 < a.1.2 ∨ a.1.2 = b.1.2 ∧ b.2 < a.2).
Proof.
  rewrite <- lex_lt_spec. unfold lex.
  destruct (Z.compare_spec b.1.1 a.1.1), (Z.compare_spec b.1.2 a.1.2), (Z.compare_spec b.2 a.2);
    split; intros; try done; try lia.
Qed.

Lemma SFltb_trans x y z : SFltb x y = true → SFltb y z = true → SFltb x z = true.
Proof. rewrite !SFltb_key, !lex_gt_spec. intros (? & ? & ?) (? & ? & ?). split_and!; [done..|lia]. Qed.

Lemma SFltb_irrefl x : SFltb x x = false.
Proof. apply not_true_is_false. rewrite SFltb_key, lex_gt_spec. lia. Qed.

(** What is not above [y] is not above anything [y] is below. *)
Lemma SFltb_le_trans x y z : SFltb y x = false → SFltb y z = true → is_nan x = false → SFltb x z = true.
Proof.
  intros Hxy Hyz Hx. apply not_true_iff_false in Hxy. rewrite SFltb_key, lex_gt_spec in *.
  destruct Hyz as (Hy & Hz & Hyz). rewrite Hy, Hx in Hxy. split_and!; [done..|].
  destruct (fkey x) as [[x1 x2] x3], (fkey y) as [[y1 y2] y3], (fkey z) as [[z1 z2] z3].
  cbn [fst snd] in *. lia.
Qed.

Lemma SFltb_lt_le_trans x y z : SFltb x y = true → SFltb z y = false → is_nan z = false → SFltb x z = true.
Proof.
  intros Hxy Hzy Hz. apply not_true_iff_false in Hzy. rewrite SFltb_key, lex_gt_spec in *.
  destruct Hxy as (Hx & Hy & Hxy). rewrite Hy, Hz in Hzy. split_and!; [done..|].
  destruct (fkey x) as [[x1 x2] x3], (fkey y) as [[y1 y2] y3], (fkey z) as [[z1 z2] z3].
  cbn [fst snd] in *. lia.
Qed.

(** ** Rounding never makes a NaN *)

Lemma shr_1_nonneg r : 0 ≤ shr_m r → 0 ≤ shr_m (shr_1 r).
Proof. destruct r as [m rb sb]. destruct m as [|[]|]; cbn; lia. Qed.

Lemma shr_nonneg r e n : 0 ≤ shr_m r → 0 ≤ shr_m (shr r e n).1.
Proof.
  intros Hr. unfold shr. destruct n as [|p|]; cbn [fst]; try done.
  revert r Hr. induction p as [p IH|p IH|]; intros r Hr; cbn [iter_pos].
  - by apply IH, IH, shr_1_nonneg.
  - by apply IH, IH.
  - by apply shr_1_nonneg.
Qed.

Lemma shr_fexp_nonneg prec emax m e l : 0 ≤ m → 0 ≤ shr_m (shr_fexp prec emax m e l).1.
Proof. intros Hm. unfold shr_fexp. apply shr_nonneg. by destruct l as [|[]]. Qed.

Lemma binary_round_aux_number prec emax s m e l : 0 ≤ m →
  is_nan (binary_round_aux prec emax s m e l) = false.
Proof.
  intros Hm. unfold binary_round_aux.
  pose proof (shr_fexp_nonneg prec emax m e l Hm) as H1. destruct (shr_fexp prec emax m e l) as [r1 e1].
  cbn [fst] in H1.
  assert (0 ≤ round_nearest_even (shr_m r1) (loc_of_shr_record r1)) as H2.
  { unfold round_nearest_even. destruct (loc_of_shr_record r1) as [|[]]; cbn; try destruct (Z.even _); lia. }
  pose proof (shr_fexp_nonneg prec emax _ e1 loc_Exact H2) as H3.
  destruct (shr_fexp prec emax _ e1 loc_Exact) as [r2 e2]. cbn [fst] in H3.
  destruct (shr_m r2); [done| |lia]. by destruct (_ <=? _).
Qed.

Lemma binary_normalize_number prec emax m e s : is_nan (binary_normalize prec emax m e s) = false.
Proof.
  destruct m as [|p|p]; [done|..]; unfold binary_normalize, binary_round;
    destruct (shl_align _ _ _) as [mz ez]; by apply binary_round_aux_number.
Qed.

Lemma sub_self x : is_finite x = true → SFabs (F32.sub x x) = fzero.
Proof.
  destruct x as [[]| | |s m e]; try done. intros _. unfold F32.sub, SFsub. cbv zeta.
  by rewrite Z.sub_diag.
Qed.

Lemma sub_number x y : is_finite x = true → is_finite y = true → is_nan (F32.sub x y) = false.
Proof.
  destruct x as [[]| | |sx mx ex], y as [[]| | |sy my ey]; try done; intros _ _.
  apply binary_normalize_number.
Qed.

Lemma is_nan_abs x : is_nan (SFabs x) = is_nan x.
Proof. by destruct x. Qed.

(** ** Exact operations *)

Lemma digits2_size m : digits2_pos m = Pos.size m.
Proof. induction m as [m IH|m IH|]; cbn; [by rewrite IH..|done]. Qed.

Lemma digits2_bounds m : 2 ^ (Zpos (digits2_pos m) - 1) ≤ Zpos m < 2 ^ Zpos (digits2_pos m).
Proof.
  rewrite digits2_size. split.
  - pose proof (Pos.size_le m) as Hl.
    assert (2 ^ Zpos (Pos.size m) ≤ 2 * Zpos m) as Hz.
    { rewrite <- Pos2Z.inj_pow. lia. }
    rewrite Z.pow_sub_r by lia. apply Z.div_le_upper_bound; lia.
  - pose proof (Pos.size_gt m). rewrite <- Pos2Z.inj_pow. lia.
Qed.

Lemma digits2_unique m d : 2 ^ (d - 1) ≤ Zpos m < 2 ^ d → 1 ≤ d → Zpos (digits2_pos m) = d.
Proof.
  intros Hd H1. pose proof (digits2_bounds m) as Hb. set (c := Zpos (digits2_pos m)) in *.
  destruct (Z.lt_trichotomy c d) as [Hlt|[|Hlt]]; [|done|].
  - pose proof (Z.pow_le_mono_r 2 c (d - 1)). lia.
  - pose proof (Z.pow_le_mono_r 2 d (c - 1)). lia.
Qed.

Lemma shr_1_even m : 0 ≤ m → shr_1 (Build_shr_record (2 * m) false false) = Build_shr_record m false false.
Proof. by destruct m. Qed.

Lemma iter_shr_exact p m : 0 ≤ m →
  iter_pos shr_1 p (Build_shr_record (m * 2 ^ Zpos p) false false) = Build_shr_record m false false.
Proof.
  revert m. induction p as [p IH|p IH|]; intros m Hm; cbn [iter_pos].
  - replace (m * 2 ^ Zpos p~1) with (2 * (m * 2 ^ Zpos p * 2 ^ Zpos p)).
    + assert (0 ≤ 2 ^ Zpos p) by (apply Z.pow_nonneg; lia).
      rewrite shr_1_even by nia. by rewrite !IH by nia.
    + replace (Zpos p~1) with (1 + (Zpos p + Zpos p)) by lia. rewrite !Z.pow_add_r by lia. lia.
  - replace (m * 2 ^ Zpos p~0) with (m * 2 ^ Zpos p * 2 ^ Zpos p).
    + assert (0 ≤ 2 ^ Zpos p) by (apply Z.pow_nonneg; lia). by rewrite !IH by nia.
    + replace (Zpos p~0) with (Zpos p + Zpos p) by lia. rewrite Z.pow_add_r by lia. lia.
  - replace (m * 2 ^ 1) with (2 * m) by lia. by apply shr_1_even.
Qed.

Lemma shr_exact m e k : 0 ≤ m → 0 ≤ k →
  shr (Build_shr_record (m * 2 ^ k) false false) e k = (Build_shr_record m false false, e + k).
Proof.
  intros Hm Hk. destruct k as [|p|p]; [|cbn [shr]; by rewrite iter_shr_exact|lia].
  cbn. by rewrite Z.mul_1_r, Z.add_0_r.
Qed.

(** A product or a conversion whose low [k] bits are zeros rounds to its high
    bits. *)
Lemma round_exact prec emax s p m e k : Zpos p = Zpos m * 2 ^ k → 0 ≤ k →
  SpecFloat.fexp prec emax (Zpos (digits2_pos p) + e) = e + k →
  SpecFloat.fexp prec emax (Zpos (digits2_pos m) + (e + k)) = e + k → e + k ≤ emax - prec →
  binary_round_aux prec emax s (Zpos p) e loc_Exact = S754_finite s m (e + k).
Proof.
  intros Hp Hk H1 H2 He. unfold binary_round_aux, shr_fexp. cbn [Zdigits2 shr_record_of_loc].
  rewrite H1. replace (e + k - e) with k by lia. rewrite Hp, shr_exact by lia.
  cbn [loc_of_shr_record round_nearest_even shr_m Zdigits2]. rewrite H2, Z.sub_diag. cbn [shr shr_m].
  by rewrite (proj2 (Z.leb_le _ _) He).
Qed.

(** [n as f64] is exact below [2^53]: a full significand and an exponent. *)
Lemma of_Z_exact n : 0 < n < 2 ^ 53 → ∃ m d, 1 ≤ d ≤ 53 ∧
  F64.of_Z n = S754_finite false m (d - 53) ∧ 2 ^ 52 ≤ Zpos m < 2 ^ 53 ∧ Zpos m = n * 2 ^ (53 - d).
Proof.
  intros Hn. destruct n as [|p|p]; [lia| |lia]. set (d := Zpos (digits2_pos p)).
  pose proof (digits2_bounds p) as [Hlo Hhi]. fold d in Hlo, Hhi.
  assert (1 ≤ d ≤ 53) as Hd.
  { split; [unfold d; lia|]. destruct (Z.le_gt_cases d 53); [done|].
    pose proof (Z.pow_le_mono_r 2 53 (d - 1)). lia. }
  set (m := Z.to_pos (Zpos p * 2 ^ (53 - d))).
  assert (0 < 2 ^ (53 - d)) as Hpow by (apply Z.pow_pos_nonneg; lia).
  assert (Zpos m = Zpos p * 2 ^ (53 - d)) as Hm by (unfold m; rewrite Z2Pos.id by nia; done).
  assert (2 ^ 52 ≤ Zpos m < 2 ^ 53) as Hb.
  { rewrite Hm. replace 52 with (d - 1 + (53 - d)) by lia. replace 53 with (d + (53 - d)) at 4 by lia.
    rewrite !Z.pow_add_r by lia. nia. }
  exists m, d. split; [done|]. split; [|done].
  unfold F64.of_Z, binary_normalize, binary_round. fold d.
  assert (SpecFloat.fexp F64.prec F64.emax (d + 0) = d - 53) as Hf
    by (unfold SpecFloat.fexp, SpecFloat.emin, F64.prec, F64.emax; lia).
  rewrite Hf. unfold shl_align. rewrite Z.sub_0_r.
  assert (∀ q, Pos.iter xO p q = Z.to_pos (Zpos p * 2 ^ Zpos q)) as Hiter.
  { intros q. induction q as [|q IH] using Pos.peano_ind; [by rewrite Z.mul_comm|].
    rewrite Pos.iter_succ, IH, Pos2Z.inj_succ, Z.pow_succ_r by lia.
    assert (0 < 2 ^ Zpos q) by (apply Z.pow_pos_nonneg; lia).
    replace (Zpos p * (2 * 2 ^ Zpos q)) with (2 * (Zpos p * 2 ^ Zpos q)) by lia.
    destruct (Zpos p * 2 ^ Zpos q) eqn:E; [nia|done|nia]. }
  assert (Zpos (digits2_pos m) = 53) as Hdm by (apply digits2_unique; [done|lia]).
  assert ((match d - 53 with Zneg q => (Pos.iter xO p q, d - 53) | _ => (p, 0) end) = (m, d - 53)) as ->.
  { destruct (d - 53) as [|q|q] eqn:E; [|lia|].
    - f_equal. unfold m. replace (53 - d) with 0 by lia. by rewrite Z.mul_1_r.
    - f_equal. rewrite Hiter. unfold m. do 3 f_equal. lia. }
  replace (S754_finite false m (d - 53)) with (S754_finite false m (d - 53 + 0)) by (f_equal; lia).
  apply round_exact; rewrite ?Hdm; try lia.
  all: unfold SpecFloat.fexp, SpecFloat.emin, F64.prec, F64.emax; lia.
Qed.
