(* ===== verification/FloatText.v ===== *)
(** * Seventeen digits determine a binary64

    [fmt_e] looks for the shortest decimal that reads back as the float it
    prints.  The search is bounded by seventeen digits; this file shows that
    the bound is enough (the nearest seventeen-digit decimal of every finite
    binary64 is read back as that float), so that printing never fails, and
    that the digits found are the fewest: no shorter decimal reads back.

    All quantities are compared as integers.  A float [m * 2^e] counts in
    units of [2^-1074] ([unit64 e] of them to the last place), a decimal
    [d * 10^k] in units of [10^-400] ([tens k] of them). *)

From S2P Require Import Prelude Float FloatProps.

(** ** Rounding a rational *)

(** [N] lies at location [l] of the interval from [m * E] to [(m + 1) * E]. *)
Definition located (N E m : Z) (l : location) : Prop :=
  match l with
  | loc_Exact => N = m * E
  | loc_Inexact c => m * E < N < (m + 1) * E ∧ (2 * N ?= (2 * m + 1) * E) = c
  end.

Lemma located_bounds N E m l : 0 < E → located N E m l → m * E ≤ N < (m + 1) * E.
Proof. destruct l; cbn; nia. Qed.

Lemma located_scale N E m l k : 0 < k → located N E m l → located (k * N) (k * E) m l.
Proof.
  intros Hk. destruct l as [|c]; cbn; [intros ->; lia|].
  intros [Hb Hc]. split; [nia|]. rewrite <- Hc.
  replace (2 * (k * N)) with (k * (2 * N)) by lia.
  replace ((2 * m + 1) * (k * E)) with (k * ((2 * m + 1) * E)) by lia.
  rewrite !(Z.mul_comm k). symmetry. apply Zmult_compare_compat_r. lia.
Qed.

Lemma loc_of_to m l :
  loc_of_shr_record (shr_record_of_loc m l) = l ∧ shr_m (shr_record_of_loc m l) = m.
Proof. by destruct l as [|[]]. Qed.

Ltac compare_cases :=
  repeat match goal with
  | H : (_ ?= _) = Eq |- _ => rewrite Z.compare_eq_iff in H
  | H : (_ ?= _) = Lt |- _ => rewrite Z.compare_lt_iff in H
  | H : (_ ?= _) = Gt |- _ => rewrite Z.compare_gt_iff in H
  | |- (_ ?= _) = Eq => rewrite Z.compare_eq_iff
  | |- (_ ?= _) = Lt => rewrite Z.compare_lt_iff
  | |- (_ ?= _) = Gt => rewrite Z.compare_gt_iff
  end.

(** Dropping the last bit keeps the location, in an interval twice as wide. *)
Lemma shr_1_located N E r : 0 < E → 0 ≤ shr_m r →
  located N E (shr_m r) (loc_of_shr_record r) →
  located N (2 * E) (shr_m (shr_1 r)) (loc_of_shr_record (shr_1 r)).
Proof.
  intros HE Hr. destruct r as [m rb sb]. cbn [shr_m] in *.
  destruct m as [|[p|p|]|]; [| | | |lia];
    destruct rb, sb; cbn -[Z.mul Z.add]; intros H;
    rewrite ?(Pos2Z.inj_xI p), ?(Pos2Z.inj_xO p) in H;
    lazymatch type of H with _ ∧ _ => destruct H | _ => idtac end; compare_cases;
    lazymatch goal with |- _ ∧ _ => split; [|compare_cases] | _ => idtac end; lia.
Qed.

Lemma iter_shr_located p N E r : 0 < E → 0 ≤ shr_m r →
  located N E (shr_m r) (loc_of_shr_record r) →
  0 ≤ shr_m (iter_pos shr_1 p r) ∧
  located N (E * 2 ^ Zpos p) (shr_m (iter_pos shr_1 p r)) (loc_of_shr_record (iter_pos shr_1 p r)).
Proof.
  revert E r. induction p as [p IH|p IH|]; intros E r HE Hr Hl; cbn [iter_pos].
  - assert (0 < 2 ^ Zpos p) by (apply Z.pow_pos_nonneg; lia).
    destruct (IH (2 * E) (shr_1 r)) as [H1 L1]; [lia|by apply shr_1_nonneg|by apply shr_1_located|].
    destruct (IH (2 * E * 2 ^ Zpos p) _ ltac:(nia) H1 L1) as [H2 L2]. split; [done|].
    replace (Zpos p~1) with (1 + (Zpos p + Zpos p)) by lia. rewrite !Z.pow_add_r by lia.
    by replace (E * (2 ^ 1 * _)) with (2 * E * 2 ^ Zpos p * 2 ^ Zpos p) by lia.
  - assert (0 < 2 ^ Zpos p) by (apply Z.pow_pos_nonneg; lia).
    destruct (IH E r) as [H1 L1]; [done..|].
    destruct (IH (E * 2 ^ Zpos p) _ ltac:(nia) H1 L1) as [H2 L2]. split; [done|].
    replace (Zpos p~0) with (Zpos p + Zpos p) by lia. rewrite Z.pow_add_r by lia.
    by rewrite Z.mul_assoc.
  - split; [by apply shr_1_nonneg|]. rewrite Z.mul_comm. by apply shr_1_located.
Qed.

(** Rounding picks the integer less than half a step away. *)
Lemma round_nearest_located N E m l z : 0 < E → located N E m l →
  2 * N < (2 * z + 1) * E → (2 * z - 1) * E < 2 * N → round_nearest_even m l = z.
Proof.
  intros HE Hl H1 H2. destruct l as [|c]; cbn in *; [nia|].
  destruct Hl as [Hb Hc]. assert (m = z ∨ m + 1 = z) as [->| <-] by nia.
  - destruct c; compare_cases; try done; nia.
  - destruct c; compare_cases; try done; nia.
Qed.

(** ** The binary64 grid *)

(** [2^e] in units of [2^-1074]. *)
Definition unit64 (e : Z) : Z := 2 ^ (e + 1074).

Lemma unit64_pos e : -1074 ≤ e → 0 < unit64 e.
Proof. intros. apply Z.pow_pos_nonneg; lia. Qed.

Lemma unit64_add e k : -1074 ≤ e → 0 ≤ k → unit64 (e + k) = unit64 e * 2 ^ k.
Proof. intros. unfold unit64. rewrite <- Z.pow_add_r by lia. f_equal. lia. Qed.

Lemma unit64_lt_inv a b : -1074 ≤ b → unit64 a < unit64 b → a < b.
Proof.
  intros Hb H. destruct (Z.le_gt_cases b a); [|done].
  pose proof (Z.pow_le_mono_r 2 (b + 1074) (a + 1074)). unfold unit64 in H. lia.
Qed.

Lemma fexp64 e : SpecFloat.fexp F64.prec F64.emax e = Z.max (e - 53) (-1074).
Proof. unfold SpecFloat.fexp, SpecFloat.emin, F64.prec, F64.emax. lia. Qed.

Lemma Zdigits2_spec m : 0 ≤ m →
  0 ≤ Zdigits2 m ∧ m < 2 ^ Zdigits2 m ∧ (0 < m → 2 ^ (Zdigits2 m - 1) ≤ m ∧ 0 < Zdigits2 m).
Proof.
  destruct m as [|p|p]; [cbn; lia| |lia]. intros _. pose proof (digits2_bounds p).
  cbn [Zdigits2]. lia.
Qed.

(** The exponents of a valid binary64. *)
Lemma bounded64 m e : bounded F64.prec F64.emax m e = true →
  -1074 ≤ e ≤ 971 ∧ 1 ≤ Zpos m < 2 ^ 53 ∧ (2 ^ 52 ≤ Zpos m ∨ e = -1074) ∧
  SpecFloat.fexp F64.prec F64.emax (Zpos (digits2_pos m) + e) = e.
Proof.
  unfold bounded, canonical_mantissa. rewrite andb_true_iff, Z.eqb_eq, Z.leb_le, fexp64.
  intros [Hf He]. change (F64.emax - F64.prec) with 971 in He.
  pose proof (digits2_bounds m) as [Hlo Hhi]. set (d := Zpos (digits2_pos m)) in *.
  pose proof (Z.pow_le_mono_r 2 d 53). split_and!; try lia.
  destruct (decide (e = -1074)); [by right|left].
  replace (d - 1) with 52 in Hlo by lia. done.
Qed.

(** The first alignment: the exponent of the value's own binade. *)
Lemma shr_fexp_located N D m e l : 0 < D → 0 ≤ m → -1074 ≤ e →
  e ≤ SpecFloat.fexp F64.prec F64.emax (Zdigits2 m + e) →
  located N (unit64 e * D) m l →
  let '(r, e1) := shr_fexp F64.prec F64.emax m e l in
  e1 = SpecFloat.fexp F64.prec F64.emax (Zdigits2 m + e) ∧ 0 ≤ shr_m r ∧
  located N (unit64 e1 * D) (shr_m r) (loc_of_shr_record r).
Proof.
  intros HD Hm He Hf Hl. unfold shr_fexp.
  set (e1 := SpecFloat.fexp _ _ _) in *. destruct (loc_of_to m l) as [Hloc Hshr].
  pose proof (unit64_pos e He).
  destruct (e1 - e) as [|p|p] eqn:E; cbn [shr]; [| |lia].
  - rewrite Hshr, Hloc. replace e1 with e by lia. done.
  - destruct (iter_shr_located p N (unit64 e * D) (shr_record_of_loc m l)) as [H1 H2];
      [nia|by rewrite Hshr|by rewrite Hshr, Hloc|].
    split; [lia|]. split; [done|]. replace e1 with (e + Zpos p) by lia.
    rewrite unit64_add by lia. by replace (_ * D) with (unit64 e * D * 2 ^ Zpos p) by lia.
Qed.

(** Where the value lies tells the exponent it is rounded at. *)
Lemma located_exponent N D m e l : 0 < D → 0 ≤ m → -1074 ≤ e →
  e ≤ SpecFloat.fexp F64.prec F64.emax (Zdigits2 m + e) →
  located N (unit64 e * D) m l →
  let mag := Zdigits2 m + e in
  N < unit64 mag * D ∧ (0 < m → unit64 (mag - 1) * D ≤ N ∧ -1074 < mag) ∧ (m = 0 → e = -1074).
Proof.
  intros HD Hm He Hf Hl mag. pose proof (unit64_pos e He) as Hu.
  apply located_bounds in Hl; [|nia]. destruct (Zdigits2_spec m Hm) as (Hd0 & Hd1 & Hd2).
  split_and!.
  - unfold mag. rewrite Z.add_comm, unit64_add by lia. nia.
  - intros Hpos. destruct (Hd2 Hpos) as [Hd3 Hd4]. split; [|lia].
    replace (mag - 1) with (e + (Zdigits2 m - 1)) by lia. rewrite unit64_add by lia. nia.
  - intros ->. cbn [Zdigits2] in Hf. rewrite fexp64 in Hf. lia.
Qed.

Section Nearest.
Context (N D m e : Z) (l : location) (mx : positive) (ex : Z).
Hypothesis (HD : 0 < D) (Hm : 0 ≤ m) (He : -1074 ≤ e).
Hypothesis Hf : e ≤ SpecFloat.fexp F64.prec F64.emax (Zdigits2 m + e).
Hypothesis Hl : located N (unit64 e * D) m l.
Hypothesis Hb : bounded F64.prec F64.emax mx ex = true.
(** Nearer to [mx * 2^ex] than half its last place, and than a quarter of it
    just below a power of two. *)
Hypothesis Habove : 2 * N < (2 * Zpos mx + 1) * (unit64 ex * D).
Hypothesis Hbelow : (2 * Zpos mx - 1) * (unit64 ex * D) < 2 * N.
Hypothesis Hpower : Zpos mx = 2 ^ 52 → -1074 < ex → (4 * Zpos mx - 1) * (unit64 ex * D) < 4 * N.

Let e1 : Z := SpecFloat.fexp F64.prec F64.emax (Zdigits2 m + e).

Lemma nearest_exponent : e1 = ex ∨
  e1 = ex - 1 ∧ Zpos mx = 2 ^ 52 ∧ -1074 < ex ∧ N < 2 ^ 52 * (unit64 ex * D).
Proof using All.
  destruct (bounded64 mx ex Hb) as (Hex & Hmx & Hn & _).
  destruct (located_exponent N D m e l HD Hm He Hf Hl) as (Hhi & Hlo & H0).
  pose proof (unit64_pos ex ltac:(lia)) as Hu. unfold e1. clear e1. rewrite fexp64.
  set (mag := Zdigits2 m + e) in *. set (UD := unit64 ex * D) in *.
  assert (0 < UD) by (unfold UD; nia).
  assert (∀ a, 0 ≤ a → unit64 (ex + a) * D = 2 ^ a * UD) as Hpow.
  { intros a Ha. rewrite unit64_add by lia. unfold UD. lia. }
  assert (∀ a b, a ≤ b → a * UD ≤ b * UD) as Hmono by (intros; nia).
  assert (∀ a b, unit64 a * D < unit64 b * D → unit64 a < unit64 b) as Hcan by (intros; nia).
  assert (mag - 53 ≤ ex) as Hup.
  { destruct (decide (m = 0)) as [Hz|Hz]; [specialize (H0 Hz); subst m; cbn in mag; lia|].
    destruct (Hlo ltac:(lia)) as [Hl1 _].
    assert (mag - 1 < ex + 53); [|lia]. apply unit64_lt_inv; [lia|]. apply Hcan.
    rewrite (Hpow 53) by lia.
    pose proof (Hmono (2 * Zpos mx + 1) (2 ^ 54 - 1)). lia. }
  destruct (decide (ex = -1074)) as [->|Hne]; [left; lia|].
  assert (2 ^ 52 ≤ Zpos mx) as Hfull by (destruct Hn; lia).
  assert (-1074 < mag) as Hmag.
  { destruct (decide (m = 0)) as [Hz|Hz]; [|by destruct (Hlo ltac:(lia))].
    specialize (H0 Hz). exfalso. assert (mag = -1074) as Em by (subst m; cbn in mag; lia).
    rewrite Em in Hhi. change (unit64 (-1074)) with 1 in Hhi.
    pose proof (Hmono (2 * 2 ^ 52 - 1) (2 * Zpos mx - 1)).
    pose proof (Z.mul_le_mono_nonneg_r 1 (unit64 ex) D ltac:(lia) ltac:(lia)) as HU.
    fold UD in HU. lia. }
  destruct (decide (Zpos mx = 2 ^ 52)) as [Hp|Hp].
  - specialize (Hpower Hp ltac:(lia)).
    assert (ex + 51 < mag) as Hge.
    { apply unit64_lt_inv; [lia|]. apply Hcan. rewrite (Hpow 51), Hp in * by lia. lia. }
    destruct (decide (mag = ex + 52)) as [Em|]; [right|left; lia].
    rewrite Em, (Hpow 52) in Hhi by lia. split_and!; lia.
  - left. assert (ex + 52 < mag); [|lia].
    apply unit64_lt_inv; [lia|]. apply Hcan. rewrite (Hpow 52) by lia.
    pose proof (Hmono (2 * 2 ^ 52 + 1) (2 * Zpos mx - 1)). lia.
Qed.

Lemma round_aux_nearest :
  binary_round_aux F64.prec F64.emax false m e l = S754_finite false mx ex.
Proof using All.
  destruct (bounded64 mx ex Hb) as (Hex & Hmx & Hn & Hfx).
  pose proof nearest_exponent as Hexp.
  pose proof (shr_fexp_located N D m e l HD Hm He Hf Hl) as Hs. fold e1 in Hs.
  unfold binary_round_aux. destruct (shr_fexp _ _ _ _ _) as [r e1'].
  destruct Hs as (-> & Hr & Hlr). pose proof (unit64_pos ex ltac:(lia)) as Hu.
  assert ((ex <=? F64.emax - F64.prec) = true) as Hmax 
    by (apply Z.leb_le; change (F64.emax - F64.prec) with 971; lia).
  destruct Hexp as [E|(E & Hp & Hgt & Hlt)]; rewrite E in Hlr |- *; clear E.
  - rewrite (round_nearest_located N (unit64 ex * D) _ _ (Zpos mx)); [|nia|done..].
    unfold shr_fexp. cbn [Zdigits2 shr_record_of_loc]. rewrite Hfx, Z.sub_diag. cbn [shr shr_m].
    by rewrite Hmax.
  - replace ex with (ex - 1 + 1) in Hu, Habove, Hbelow, Hlt, Hpower by lia.
    rewrite unit64_add in Hu, Habove, Hbelow, Hlt, Hpower by lia. specialize (Hpower Hp ltac:(lia)).
    rewrite (round_nearest_located N (unit64 (ex - 1) * D) _ _ (2 ^ 53)); [|lia|done|lia|lia].
    unfold shr_fexp. change (Zdigits2 (2 ^ 53)) with 54. rewrite fexp64.
    replace (Z.max _ _ - _) with 1 by lia. cbn [shr_record_of_loc].
    change (2 ^ 53) with (2 ^ 52 * 2 ^ 1). rewrite shr_exact by lia. cbn [shr_m]. rewrite <- Hp.
    replace (ex - 1 + 1) with ex by lia. by rewrite Hmax.
Qed.
End Nearest.

Lemma round_nearest_bounds N E q l : 0 < E → located N E q l →
  (2 * round_nearest_even q l - 1) * E ≤ 2 * N ≤ (2 * round_nearest_even q l + 1) * E ∧
  q ≤ round_nearest_even q l ≤ q + 1.
Proof.
  intros HE Hl. destruct l as [|[]]; cbn in *; [lia| | |]; destruct Hl as [Hb Hc]; compare_cases;
    try destruct (Z.even q); lia.
Qed.

(** Conversely, what is read as a float is at most half its last place away
    from it, a quarter just below a power of two. *)
Lemma round_aux_near N D m e l mx ex : 0 < D → 0 ≤ m → -1074 ≤ e →
  e ≤ SpecFloat.fexp F64.prec F64.emax (Zdigits2 m + e) → located N (unit64 e * D) m l →
  binary_round_aux F64.prec F64.emax false m e l = S754_finite false mx ex →
  (2 * Zpos mx - 1) * (unit64 ex * D) ≤ 2 * N ≤ (2 * Zpos mx + 1) * (unit64 ex * D) ∧
  (Zpos mx = 2 ^ 52 → -1074 < ex → (4 * Zpos mx - 1) * (unit64 ex * D) ≤ 4 * N).
Proof.
  intros HD Hm He Hf Hl. destruct (located_exponent N D m e l HD Hm He Hf Hl) as (Hhi & Hlo & H0).
  pose proof (shr_fexp_located N D m e l HD Hm He Hf Hl) as Hs.
  unfold binary_round_aux. destruct (shr_fexp _ _ m _ _) as [r e1]. destruct Hs as (He1 & Hr & Hlr).
  rewrite fexp64 in He1. set (mag := Zdigits2 m + e) in *. assert (-1074 ≤ e1) as Hge by lia.
  pose proof (unit64_pos e1 Hge) as Hu. assert (0 < unit64 e1 * D) as HE by nia.
  pose proof (located_bounds _ _ _ _ HE Hlr) as Hq.
  destruct (round_nearest_bounds _ _ _ _ HE Hlr) as [Hz Hzq].
  set (q := shr_m r) in *. set (z := round_nearest_even q _) in *. set (E1 := unit64 e1 * D) in *.
  assert (q < 2 ^ 53) as Hq53.
  { assert (unit64 mag ≤ unit64 (e1 + 53)) as Hmu.
    { apply Z.pow_le_mono_r; lia. }
    rewrite unit64_add in Hmu by lia. unfold E1 in *. nia. }
  assert (-1074 < e1 → 2 ^ 52 * E1 ≤ N) as Hnormal.
  { intros Hgt. destruct (decide (m = 0)) as [Hz0|Hz0].
    { specialize (H0 Hz0). subst m. cbn in mag. lia. }
    destruct (Hlo ltac:(lia)) as [Hl1 _]. replace (mag - 1) with (e1 + 52) in Hl1 by lia.
    rewrite unit64_add in Hl1 by lia. unfold E1. lia. }
  destruct (decide (z = 2 ^ 53)) as [Ez|Hne].
  - rewrite Ez. unfold shr_fexp. change (Zdigits2 (2 ^ 53)) with 54. rewrite fexp64.
    replace (Z.max _ _ - _) with 1 by lia. cbn [shr_record_of_loc].
    change (2 ^ 53) with (2 ^ 52 * 2 ^ 1) at 1. rewrite shr_exact by lia. cbn [shr_m].
    change (2 ^ 52) with (Zpos 4503599627370496) at 1. cbn match.
    destruct (e1 + 1 <=? _); [|done]. intros [= <- <-].
    rewrite unit64_add by lia. replace (unit64 e1 * 2 ^ 1 * D) with (2 * E1) by (unfold E1; lia). lia.
  - assert (shr_fexp F64.prec F64.emax z e1 loc_Exact = (Build_shr_record z false false, e1)) as ->.
    { unfold shr_fexp. rewrite fexp64. cbn [shr_record_of_loc].
      destruct (Zdigits2_spec z ltac:(lia)) as (Hd0 & _ & Hd2).
      assert (Zdigits2 z ≤ 53) as Hd.
      { destruct (Z.le_gt_cases (Zdigits2 z) 53); [done|]. destruct (decide (z = 0)) as [->|]; [done|].
        destruct (Hd2 ltac:(lia)) as [Hp _]. pose proof (Z.pow_le_mono_r 2 53 (Zdigits2 z - 1)). lia. }
      destruct (Z.max _ _ - e1) eqn:E; cbn [shr]; [done|lia|done]. }
    cbn [shr_m]. destruct z as [|p|p] eqn:Ez; [done| |lia].
    destruct (e1 <=? _); [|done]. intros [= <- <-]. fold E1. lia.
Qed.

(** ** Reading a decimal *)

(** [m * 10^e] as a quotient of integers. *)
Definition dec_num (m e : Z) : Z := if decide (0 ≤ e) then m * 10 ^ e else m.
Definition dec_den (e : Z) : Z := if decide (0 ≤ e) then 1 else 10 ^ (- e).

Lemma dec_den_pos e : 0 < dec_den e.
Proof. unfold dec_den. case_decide; [done|]. apply Z.pow_pos_nonneg; lia. Qed.

Lemma iter_xO p q : Zpos (Pos.iter xO p q) = Zpos p * 2 ^ Zpos q.
Proof.
  induction q as [|q IH] using Pos.peano_ind; [cbn; lia|].
  rewrite Pos.iter_succ, Pos2Z.inj_succ, Z.pow_succ_r by lia. rewrite Pos2Z.inj_xO, IH. lia.
Qed.

Lemma new_location_spec B q r : 0 < B → 0 ≤ r < B → located (q * B + r) B q (new_location B r).
Proof.
  intros HB Hr. unfold new_location.
  assert (∀ c, r ≠ 0 → (2 * r ?= B) = c → located (q * B + r) B q (loc_Inexact c)) as Hc.
  { intros c Hne <-. cbn. split; [nia|].
    replace (2 * (q * B + r)) with (2 * q * B + 2 * r) by lia.
    replace ((2 * q + 1) * B) with (2 * q * B + B) by lia. apply Z.add_compare_mono_l. }
  destruct (Z.even B) eqn:Ev; unfold new_location_even, new_location_odd;
    (destruct (r =? 0) eqn:E; [apply Z.eqb_eq in E; cbn; nia|apply Z.eqb_neq in E]).
  - by apply Hc.
  - apply Hc; [done|]. assert (B ≠ 2 * r) by (intros ->; rewrite Z.even_mul in Ev; done).
    destruct (Z.compare_spec (2 * r + 1) B); compare_cases; lia.
Qed.

(** The inputs of the rounding: an approximation at an exponent not above the
    one the value is rounded at. *)
Definition approximates (N D q e : Z) (l : location) : Prop :=
  0 ≤ q ∧ -1074 ≤ e ∧ e ≤ SpecFloat.fexp F64.prec F64.emax (Zdigits2 q + e) ∧
  located N (unit64 e * D) q l.

Lemma div_core_approximates m B : 0 < m → 0 < B →
  let '(q, e, l) := SFdiv_core_binary F64.prec F64.emax m 0 B 0 in
  approximates (m * unit64 0) B q e l.
Proof.
  intros Hm HB. unfold SFdiv_core_binary. rewrite !Z.add_0_r, Z.sub_diag, fexp64.
  destruct (Zdigits2_spec m ltac:(lia)) as (_ & Hm1 & Hm2). specialize (Hm2 Hm).
  destruct (Zdigits2_spec B ltac:(lia)) as (_ & HB1 & HB2). specialize (HB2 HB).
  set (d1 := Zdigits2 m) in *. set (d2 := Zdigits2 B) in *.
  assert (∀ x, let e := Z.min (Z.max x (-1074)) 0 in
    -1074 ≤ e ∧ e ≤ 0 ∧ e ≤ Z.max x (-1074)) as He by (intros; lia).
  specialize (He (d1 - d2 - 53)). cbv zeta in He. set (e := Z.min _ 0) in *.
  set (m' := match 0 - e with Zpos _ => _ | _ => _ end).
  assert (m' = m * 2 ^ (- e)) as Hm'.
  { unfold m'. replace (0 - e) with (- e) by lia. destruct (- e) as [|p|p] eqn:E; [|by rewrite Z.shiftl_mul_pow2|lia].
    lia. }
  clearbody m' e. pose proof (Z.div_eucl_eq m' B ltac:(lia)) as Hq.
  pose proof (Z.mod_pos_bound m' B HB) as Hr. unfold Z.modulo in Hr.
  destruct (Z.div_eucl m' B) as [q r].
  assert (0 < 2 ^ (- e)) as Hp by (apply Z.pow_pos_nonneg; lia).
  pose proof (unit64_pos e ltac:(lia)) as Hu.
  assert (unit64 0 = unit64 e * 2 ^ (- e)) as Hu0 by (rewrite <- unit64_add by lia; f_equal; lia).
  assert (0 ≤ q) as Hq0 by nia.
  split_and!; [done|lia| |].
  - destruct (Zdigits2_spec q Hq0) as (Hd0 & Hd1 & _). rewrite fexp64.
    assert (d1 - d2 ≤ Zdigits2 q + e); [|lia].
    destruct (Z.le_gt_cases (d1 - d2 - e) 0); [lia|].
    assert (2 ^ (d1 - 1 - e) < 2 ^ (Zdigits2 q + d2)) as Hlt.
    { apply Z.le_lt_trans with m'.
      - rewrite Hm'. replace (d1 - 1 - e) with (d1 - 1 + - e) by lia. rewrite Z.pow_add_r by lia. nia.
      - rewrite Z.pow_add_r by lia. nia. }
    apply Z.pow_lt_mono_r_iff in Hlt; lia.
  - replace (m * unit64 0) with (unit64 e * (q * B + r)) by (rewrite Hu0; nia).
    apply located_scale; [done|]. by apply new_location_spec.
Qed.

Lemma normalize_approximates p :
  ∃ q e, binary_normalize F64.prec F64.emax (Zpos p) 0 false =
           binary_round_aux F64.prec F64.emax false q e loc_Exact ∧
         approximates (Zpos p * unit64 0) 1 q e loc_Exact.
Proof.
  unfold binary_normalize, binary_round, shl_align. rewrite Z.add_0_r, Z.sub_0_r, fexp64.
  destruct (Zdigits2_spec (Zpos p) ltac:(lia)) as (_ & Hd1 & Hd2). cbn [Zdigits2] in *.
  set (d := Zpos (digits2_pos p)) in *. set (f := Z.max _ _).
  destruct f as [|g|g] eqn:Ef.
  1,2: exists (Zpos p), 0; split; [done|]; split_and!; [lia|lia|rewrite fexp64; cbn [Zdigits2]; fold d; lia|cbn; lia].
  exists (Zpos (Pos.iter xO p g)), (Zneg g). split; [done|].
  assert (Zdigits2 (Zpos (Pos.iter xO p g)) = d + Zpos g) as Hdig.
  { cbn [Zdigits2]. apply digits2_unique; [|lia]. rewrite iter_xO.
    replace (d + Zpos g - 1) with (d - 1 + Zpos g) by lia. rewrite !Z.pow_add_r by lia.
    assert (0 < 2 ^ Zpos g) by (apply Z.pow_pos_nonneg; lia). nia. }
  split_and!; [lia|lia|rewrite Hdig, fexp64; lia|]. cbn [located]. rewrite iter_xO.
  replace 0 with (Zneg g + Zpos g) by lia. rewrite unit64_add by lia. lia.
Qed.

(** A decimal is read as the float it is nearest to. *)
Lemma round_dec_approximates m e : 0 < m →
  ∃ q e' l, round_dec false m e = binary_round_aux F64.prec F64.emax false q e' l ∧
            approximates (dec_num m e * unit64 0) (dec_den e) q e' l.
Proof.
  intros Hm. destruct m as [|p|p]; [lia| |lia]. unfold round_dec, dec_num, dec_den. case_decide as He.
  - assert (0 < Zpos p * 10 ^ e) as Hpos by (apply Z.mul_pos_pos; [|apply Z.pow_pos_nonneg]; lia).
    destruct (Zpos p * 10 ^ e) as [|p'|p']; [lia| |lia].
    destruct (normalize_approximates p') as (q & e' & ? & ?). eauto.
  - pose proof (div_core_approximates (Zpos p) (10 ^ (- e)) ltac:(lia)
      ltac:(apply Z.pow_pos_nonneg; lia)) as H.
    destruct (SFdiv_core_binary _ _ _ _ _ _) as [[q e'] l]. eauto.
Qed.

(** ** Decimals and floats on one scale *)

Definition P400 : Z := 10 ^ 400.
(** [10^k] in units of [10^-400]. *)
Definition tens (k : Z) : Z := 10 ^ (k + 400).

Lemma P400_pos : 0 < P400.
Proof. by vm_compute. Qed.
Lemma tens_pos k : -400 ≤ k → 0 < tens k.
Proof. intros. apply Z.pow_pos_nonneg; lia. Qed.
Lemma tens_add k z : -400 ≤ k → 0 ≤ z → tens (k + z) = tens k * 10 ^ z.
Proof. intros. unfold tens. rewrite <- Z.pow_add_r by lia. f_equal. lia. Qed.
Lemma tens_0 : tens 0 = P400.
Proof. done. Qed.
Lemma tens_opp k : -400 ≤ k → k ≤ 0 → tens k * 10 ^ (- k) = P400.
Proof. intros. rewrite <- tens_add by lia. rewrite <- tens_0. f_equal. lia. Qed.
#[local] Opaque P400.

Lemma dec_quotient d k : -400 ≤ k → dec_num d k * P400 = d * tens k * dec_den k.
Proof.
  intros Hk. unfold dec_num, dec_den. case_decide as H.
  - rewrite <- (Z.add_0_l k) at 2. rewrite tens_add, tens_0 by lia. lia.
  - pose proof (tens_opp k ltac:(lia) ltac:(lia)). nia.
Qed.

(** Strict comparisons of two equal fractions with a third. *)
Lemma cross_lt a b N D N' D' : 0 < D → 0 < D' → N * D' = N' * D → a * N < b * D → a * N' < b * D'.
Proof.
  intros HD HD' He H. apply (Z.mul_lt_mono_pos_r D); [done|].
  replace (a * N' * D) with (a * N * D') by (rewrite <- !Z.mul_assoc, He; done).
  replace (b * D' * D) with (b * D * D') by lia. by apply Z.mul_lt_mono_pos_r.
Qed.

Lemma cross_gt a b N D N' D' : 0 < D → 0 < D' → N * D' = N' * D → b * D < a * N → b * D' < a * N'.
Proof.
  intros HD HD' He H. pose proof (cross_lt (- a) (- b) N D N' D' HD HD' He). lia.
Qed.

Lemma cross_le a b N D N' D' : 0 < D → 0 < D' → N * D' = N' * D → a * N ≤ b * D → a * N' ≤ b * D'.
Proof.
  intros HD HD' He H. apply (Z.mul_le_mono_pos_r _ _ D); [done|].
  replace (a * N' * D) with (a * N * D') by (rewrite <- !Z.mul_assoc, He; done).
  replace (b * D' * D) with (b * D * D') by lia. by apply Z.mul_le_mono_pos_r.
Qed.

Lemma cross_ge a b N D N' D' : 0 < D → 0 < D' → N * D' = N' * D → b * D ≤ a * N → b * D' ≤ a * N'.
Proof.
  intros HD HD' He H. pose proof (cross_le (- a) (- b) N D N' D' HD HD' He). lia.
Qed.

(** A decimal within half a last place of a float is read as that float. *)
Lemma dec_to_f64_nearest d k mx ex : 0 < d → -400 ≤ k →
  bounded F64.prec F64.emax mx ex = true →
  let v := d * tens k * unit64 0 in
  let ulp := unit64 ex * P400 in
  2 * v < (2 * Zpos mx + 1) * ulp → (2 * Zpos mx - 1) * ulp < 2 * v →
  (Zpos mx = 2 ^ 52 → -1074 < ex → (4 * Zpos mx - 1) * ulp < 4 * v) →
  dec_to_f64 false d k = S754_finite false mx ex.
Proof.
  intros Hd Hk Hb. cbv zeta. unfold dec_to_f64.
  destruct (strip_zeros_spec (Z.to_nat (Z.log2 d)) d k) as (z & Hz & Ek & Ed).
  destruct (strip_zeros _ d k) as [d' k']. cbn [fst snd] in *. subst k'.
  assert (0 < d') as Hd' by (pose proof (Z.pow_pos_nonneg 10 z); nia).
  replace (d * tens k) with (d' * tens (k + z)) by (rewrite tens_add by lia; rewrite Ed; lia).
  set (k' := k + z) in *. destruct (round_dec_approximates d' k' Hd') as (q & e & l & -> & Hq & He & Hf & Hl).
  pose proof (dec_den_pos k') as HD. pose proof P400_pos as HP.
  assert (d' * tens k' * unit64 0 * dec_den k' = dec_num d' k' * unit64 0 * P400) as Hx.
  { pose proof (dec_quotient d' k' ltac:(unfold k'; lia)) as Hdq.
    replace (_ * _ * _ * _) with (d' * tens k' * dec_den k' * unit64 0) by lia. rewrite <- Hdq. lia. }
  intros H1 H2 H3. apply (round_aux_nearest _ _ q e l mx ex HD Hq He Hf Hl Hb).
  - rewrite (Z.mul_assoc _ (unit64 ex)) in H1 |- *. by apply (cross_lt _ _ _ _ _ _ HP HD Hx).
  - rewrite (Z.mul_assoc _ (unit64 ex)) in H2 |- *. by apply (cross_gt _ _ _ _ _ _ HP HD Hx).
  - intros Hm Hx'. specialize (H3 Hm Hx'). rewrite (Z.mul_assoc _ (unit64 ex)) in H3 |- *. by apply (cross_gt _ _ _ _ _ _ HP HD Hx).
Qed.

(** What is read as a float is near it. *)
Lemma dec_to_f64_near d k mx ex : 0 < d → d < 10 ^ 17 →
  bounded F64.prec F64.emax mx ex = true → dec_to_f64 false d k = S754_finite false mx ex →
  -400 ≤ k ∧
  let v := d * tens k * unit64 0 in
  let ulp := unit64 ex * P400 in
  (2 * Zpos mx - 1) * ulp ≤ 2 * v ≤ (2 * Zpos mx + 1) * ulp ∧
  (Zpos mx = 2 ^ 52 → -1074 < ex → (4 * Zpos mx - 1) * ulp ≤ 4 * v).
Proof.
  intros Hd Hd17 Hb. unfold dec_to_f64.
  destruct (strip_zeros_spec (Z.to_nat (Z.log2 d)) d k) as (z & Hz & Ek & Ed).
  destruct (strip_zeros _ d k) as [d' k']. cbn [fst snd] in *. subst k'.
  pose proof (Z.pow_pos_nonneg 10 z ltac:(lia) Hz) as Hpz.
  assert (0 < d' ≤ d) as Hd' by nia. set (k' := k + z) in *.
  destruct (round_dec_approximates d' k' ltac:(lia)) as (q & e & l & -> & Hq & He & Hf & Hl). intros Hr.
  pose proof (round_aux_near _ _ q e l mx ex (dec_den_pos k') Hq He Hf Hl Hr) as [[H1 H2] H3].
  destruct (bounded64 mx ex Hb) as (Hex & Hmx & _).
  pose proof (unit64_pos ex ltac:(lia)) as Hu. pose proof (dec_den_pos k') as HD.
  assert (-384 ≤ k') as Hk'.
  { destruct (Z.le_gt_cases (-384) k'); [done|exfalso].
    unfold dec_num, dec_den in *. rewrite !decide_False in * by lia.
    pose proof (Z.pow_le_mono_r 10 384 (- k') ltac:(lia) ltac:(lia)) as Hp.
    assert (2 * (10 ^ 17 * unit64 0) < 10 ^ 384) by by apply Z.ltb_lt.
    assert (0 < 10 ^ 384) as HB by by apply Z.ltb_lt. set (B := 10 ^ 384) in *. clearbody B.
    assert (B ≤ (2 * Zpos mx - 1) * (unit64 ex * 10 ^ (- k'))).
    { assert (B ≤ unit64 ex * 10 ^ (- k')) by nia. nia. }
    assert (d' * unit64 0 ≤ 10 ^ 17 * unit64 0); [|lia].
    apply Z.mul_le_mono_nonneg_r; [by apply Z.lt_le_incl, unit64_pos|lia]. }
  assert (z < 17) as Hz17.
  { apply (Z.pow_lt_mono_r_iff 10); [lia|lia|]. nia. }
  split; [lia|]. cbv zeta. pose proof P400_pos as HP.
  assert (d * tens k * unit64 0 * dec_den k' = dec_num d' k' * unit64 0 * P400) as Hx.
  { pose proof (dec_quotient d' k' ltac:(lia)) as Hdq.
    assert (d * tens k = d' * tens k') as -> by (unfold k'; rewrite tens_add by lia; rewrite Ed; lia).
    replace (_ * _ * _ * _) with (d' * tens k' * dec_den k' * unit64 0) by lia. rewrite <- Hdq. lia. }
  symmetry in Hx. rewrite !(Z.mul_assoc _ (unit64 ex)) in *. split_and!.
  - exact (cross_ge _ _ _ _ _ _ HD HP Hx H1).
  - exact (cross_le _ _ _ _ _ _ HD HP Hx H2).
  - intros Hm Hgt. exact (cross_ge _ _ _ _ _ _ HD HP Hx (H3 Hm Hgt)).
Qed.

(** ** The decimal exponent of a float *)

Lemma rat_of_spec m e : -1074 ≤ e →
  0 < (rat_of m e).2 ∧ (rat_of m e).1 * unit64 0 = Zpos m * unit64 e * (rat_of m e).2.
Proof.
  intros He. unfold rat_of. case_decide as H; cbn [fst snd].
  - split; [lia|]. pose proof (unit64_add 0 e ltac:(lia) ltac:(lia)) as Hu.
    rewrite Z.add_0_l in Hu. rewrite Hu. lia.
  - split; [apply Z.pow_pos_nonneg; lia|]. pose proof (unit64_add e (- e) ltac:(lia) ltac:(lia)) as Hu.
    rewrite Z.add_opp_diag_r in Hu. rewrite Hu. lia.
Qed.

Lemma pow10_le_spec k m e : -400 ≤ k → -1074 ≤ e →
  pow10_le k (rat_of m e) = true ↔ tens k * unit64 0 ≤ Zpos m * unit64 e * P400.
Proof.
  intros Hk He. destruct (rat_of_spec m e He) as [Hd Hr]. pose proof P400_pos as HP.
  pose proof (unit64_pos 0 ltac:(lia)) as Hu. pose proof (tens_pos k Hk) as Ht.
  destruct (rat_of m e) as [num den]. cbn [fst snd] in *.
  set (X := Zpos m * unit64 e) in *. set (U := unit64 0) in *.
  assert (tens k * U ≤ X * P400 ↔ tens k * U * den ≤ num * P400 * U) as ->.
  { rewrite (Z.mul_le_mono_pos_r _ _ den Hd). replace (num * P400 * U) with (X * P400 * den) by nia. done. }
  unfold pow10_le. cbn [fst snd]. case_decide as H; rewrite Z.leb_le.
  - replace (tens k) with (P400 * 10 ^ k) by (rewrite <- tens_0, <- tens_add by lia; f_equal; lia).
    replace (P400 * 10 ^ k * U * den) with (10 ^ k * den * (P400 * U)) by lia.
    replace (num * P400 * U) with (num * (P400 * U)) by lia.
    apply Z.mul_le_mono_pos_r. nia.
  - rewrite <- (tens_opp k) by lia.
    replace (tens k * U * den) with (den * (tens k * U)) by lia.
    replace (num * (tens k * 10 ^ (- k)) * U) with (num * 10 ^ (- k) * (tens k * U)) by lia.
    apply Z.mul_le_mono_pos_r. nia.
Qed.

(** [dec_exp]'s first guess for a float with leading bit [2^l]. *)
Definition guess (l : Z) : Z := l * 30103 / 100000.

(** The guess is off by at most one: checked at every binary exponent a
    binary64 can have, the powers carried along from one to the next. *)
Fixpoint guesses_ok (n : nat) (l p2 p10 : Z) : bool :=
  match n with
  | O => true
  | S n =>
      let step := guess (l + 1) - guess l in
      (p10 <=? p2) && (2 * p2 <=? 1000 * p10) && (0 <=? step) && (step <=? 1) &&
      guesses_ok n (l + 1) (2 * p2) (if step =? 0 then p10 else 10 * p10)
  end.

Lemma guesses_ok_spec n l p2 p10 u t : -1074 ≤ l → -400 ≤ guess l - 1 →
  p2 = unit64 l * t → p10 = tens (guess l - 1) * u → guesses_ok n l p2 p10 = true →
  ∀ i, l ≤ i < l + Z.of_nat n →
    tens (guess i - 1) * u ≤ unit64 i * t ∧ unit64 (i + 1) * t ≤ tens (guess i + 2) * u.
Proof.
  revert l p2 p10. induction n as [|n IH]; intros l p2 p10 Hl Hg -> -> H i Hi; [lia|].
  cbn [guesses_ok] in H. rewrite !andb_true_iff, !Z.leb_le in H.
  destruct H as [[[[H1 H2] Hs0] Hs1] H].
  assert (2 * (unit64 l * t) = unit64 (l + 1) * t) as E2 by (rewrite unit64_add by lia; lia).
  destruct (decide (i = l)) as [->|Hne].
  - split; [done|]. replace (guess l + 2) with (guess l - 1 + 3) by lia.
    rewrite tens_add by lia. lia.
  - eapply IH; [..|exact H|]; try lia. destruct (_ =? 0) eqn:Es.
    + apply Z.eqb_eq in Es. do 2 f_equal. lia.
    + apply Z.eqb_neq in Es. replace (guess (l + 1) - 1) with (guess l - 1 + 1) by lia.
      rewrite tens_add by lia. lia.
Qed.

Lemma guesses_checked :
  guesses_ok 2098 (-1074) (unit64 (-1074) * tens 0) (tens (guess (-1074) - 1) * unit64 0) = true.
Proof. vm_compute. reflexivity. Qed.

Lemma guess_spec l : -1074 ≤ l ≤ 1023 →
  tens (guess l - 1) * unit64 0 ≤ unit64 l * P400 ∧ unit64 (l + 1) * P400 ≤ tens (guess l + 2) * unit64 0.
Proof.
  intros Hl. rewrite <- tens_0.
  apply (guesses_ok_spec 2098 (-1074) (unit64 (-1074) * tens 0) (tens (guess (-1074) - 1) * unit64 0));
    [done| |exact eq_refl|exact eq_refl|exact guesses_checked|].
  - by apply Z.leb_le.
  - lia.
Qed.

(** [10^k <= x < 10^(k+1)]. *)
Lemma dec_exp_spec m e : bounded F64.prec F64.emax m e = true →
  let k := dec_exp m e in
  -325 ≤ k ≤ 309 ∧
  tens k * unit64 0 ≤ Zpos m * unit64 e * P400 < tens (k + 1) * unit64 0.
Proof.
  intros Hb. destruct (bounded64 m e Hb) as (He & Hm & _).
  assert (0 ≤ Z.log2 (Zpos m) < 53) as Hlog.
  { split; [apply Z.log2_nonneg|]. apply Z.log2_lt_pow2; lia. }
  pose proof (Z.log2_spec (Zpos m) ltac:(lia)) as [Hlo Hhi].
  unfold dec_exp. fold (guess (Z.log2 (Zpos m) + e)). set (lg := Z.log2 (Zpos m) + e) in *.
  assert (-1074 ≤ lg ≤ 1023) as Hlg by lia.
  assert (unit64 lg ≤ Zpos m * unit64 e < unit64 (lg + 1)) as Hu.
  { unfold lg. rewrite (Z.add_comm _ e), <- Z.add_assoc, !unit64_add by lia.
    pose proof (unit64_pos e ltac:(lia)). rewrite <- Z.add_1_r in Hhi. nia. }
  destruct (guess_spec lg Hlg) as [Hg1 Hg2]. pose proof P400_pos.
  assert (-324 ≤ guess lg ≤ 307) as Hg.
  { unfold guess. split; [apply Z.div_le_lower_bound; lia|].
    apply Z.lt_succ_r, Z.div_lt_upper_bound; lia. }
  set (g := guess lg) in *. clearbody g.
  assert (unit64 lg * P400 ≤ Zpos m * unit64 e * P400 < unit64 (lg + 1) * P400) as HX
    by (split; [apply Z.mul_le_mono_nonneg_r|apply Z.mul_lt_mono_pos_r]; lia).
  destruct (pow10_le (g + 1) _) eqn:E1; [|destruct (pow10_le g _) eqn:E2].
  2,3: apply not_true_iff_false in E1.
  3: apply not_true_iff_false in E2.
  all: rewrite ?pow10_le_spec in * by lia.
  all: split; [lia|]; try replace (g - 1 + 1) with g by lia.
  all: try replace (g + 1 + 1) with (g + 2) by lia; lia.
Qed.

(** ** The search for the shortest digits *)

Section Search.
Context (m : positive) (e : Z).
Hypothesis Hb : bounded F64.prec F64.emax m e = true.

Let k : Z := dec_exp m e.
(** The float and its last place, and the last place of [n] decimal digits. *)
Let x : Z := Zpos m * unit64 e * P400.
Let ulp : Z := unit64 e * P400.
Let place (n : Z) : Z := tens (k - (n - 1)) * unit64 0.

Lemma place_pos n : 1 ≤ n ≤ 17 → 0 < place n.
Proof using Hb.
  intros Hn. destruct (dec_exp_spec m e Hb) as [Hk _]. fold k in Hk.
  apply Z.mul_pos_pos; [apply tens_pos; lia|by apply unit64_pos].
Qed.

(** The candidates are the two [n]-digit decimals around the float. *)
Lemma candidates_spec n : 1 ≤ n ≤ 17 → ∃ lo,
  lo * place n ≤ x < (lo + 1) * place n ∧
  (candidates m e k n = [lo; lo + 1] ∧ 2 * (x - lo * place n) ≤ place n ∨
   candidates m e k n = [lo + 1; lo] ∧ place n ≤ 2 * (x - lo * place n)).
Proof using Hb.
  intros Hn. destruct (bounded64 m e Hb) as (He & _). destruct (dec_exp_spec m e Hb) as [Hk _].
  fold k in Hk. destruct (rat_of_spec m e ltac:(lia)) as [Hden Hr]. pose proof P400_pos as HP.
  unfold candidates. destruct (rat_of m e) as [num den]. cbn [fst snd] in *.
  set (s := n - 1 - k). pose proof (place_pos n Hn) as Hpl.
  assert (∃ num' den', (if decide (0 ≤ s) then (num * 10 ^ s, den) else (num, den * 10 ^ (- s))) = (num', den') ∧
    0 < den' ∧ num' * place n = x * den') as (num' & den' & -> & Hd' & Hx).
  { unfold place. replace (k - (n - 1)) with (- s) by lia. case_decide as Hs; do 2 eexists; (split; [done|]).
    - split; [done|]. pose proof (tens_opp (- s) ltac:(lia) ltac:(lia)) as Ht. rewrite Z.opp_involutive in Ht.
      unfold x. rewrite <- Ht.
      replace (_ * (_ * _)) with (num * unit64 0 * (10 ^ s * tens (- s))) by lia. rewrite Hr. lia.
    - split; [apply Z.mul_pos_pos; [|apply Z.pow_pos_nonneg]; lia|].
      replace (tens (- s)) with (P400 * 10 ^ (- s)) by (rewrite <- tens_0, <- tens_add by lia; f_equal; lia).
      unfold x. replace (num * _) with (num * unit64 0 * (P400 * 10 ^ (- s))) by lia. rewrite Hr. lia. }
  pose proof (Z.div_mod num' den' ltac:(lia)) as Hdm. pose proof (Z.mod_pos_bound num' den' Hd') as Hmod.
  set (lo := num' / den') in *. set (r := num' mod den') in *.
  assert ((x - lo * place n) * den' = r * place n) as Hrem by nia.
  exists lo. split; [split; nia|].
  case_decide as Hc; [left|right]; (split; [done|]); nia.
Qed.

Lemma candidate_bound n c : 1 ≤ n ≤ 17 → c ∈ candidates m e k n → c ≤ 10 ^ n.
Proof using Hb.
  intros Hn Hin. destruct (candidates_spec n Hn) as (lo & Hlo & Hc).
  destruct (dec_exp_spec m e Hb) as [Hk [_ Hup]]. fold k x in Hk, Hup. pose proof (place_pos n Hn) as Hp.
  assert (tens (k + 1) * unit64 0 = 10 ^ n * place n) as Ht.
  { unfold place. replace (k + 1) with (k - (n - 1) + n) by lia. rewrite tens_add by lia. lia. }
  assert (lo < 10 ^ n) by nia.
  destruct Hc as [[Hc _]|[Hc _]]; rewrite Hc in Hin; set_solver by lia.
Qed.

(** Seventeen digits are enough: half a unit of the seventeenth place is less
    than half an ulp, and than a quarter at a power of two. *)
Lemma nearest17 : ∃ d ds, candidates m e k 17 = d :: ds ∧ dec_to_f64 false d (k - 16) = S754_finite false m e.
Proof using Hb.
  destruct (bounded64 m e Hb) as (He & Hm & _). destruct (dec_exp_spec m e Hb) as [Hk [Hlo _]].
  fold k x in Hk, Hlo. destruct (candidates_spec 17 ltac:(lia)) as (lo & Hx & Hc).
  pose proof (place_pos 17 ltac:(lia)) as Hpl.
  assert (tens k * unit64 0 = 10 ^ 16 * place 17) as Hten.
  { unfold place. change (17 - 1) with 16. replace k with (k - 16 + 16) at 1 by lia.
    rewrite tens_add by lia. lia. }
  assert (0 < ulp) as Hulp by (apply Z.mul_pos_pos; [apply unit64_pos; lia|apply P400_pos]).
  assert (x = Zpos m * ulp) as Ex by (unfold x, ulp; lia).
  assert (10 ^ 16 * place 17 ≤ Zpos m * ulp) as Hpu by lia.
  assert (Zpos m * ulp < 2 ^ 53 * ulp) as Hmu by nia.
  assert (∀ d, 2 * (x - d * place 17) ≤ place 17 → 2 * (d * place 17 - x) ≤ place 17 →
    dec_to_f64 false d (k - 16) = S754_finite false m e) as Hnear.
  { intros d H1 H2. assert (0 < d) as Hd by nia.
    assert (d * tens (k - 16) * unit64 0 = d * place 17) as Ev by (unfold place; change (17 - 1) with 16; lia).
    apply dec_to_f64_nearest; [done|lia|done|..]; rewrite ?Ev; fold ulp; lia. }
  destruct Hc as [[Hc H]|[Hc H]]; rewrite Hc; do 2 eexists; (split; [done|]); apply Hnear; lia.
Qed.

(** Decimals on a coarser or the same place are read alike. *)
Lemma dec_to_f64_place d j c n : 1 ≤ n ≤ 17 → -400 ≤ j →
  d * tens j * unit64 0 = c * place n → dec_to_f64 false d j = dec_to_f64 false c (k - (n - 1)).
Proof using Hb.
  intros Hn Hj. destruct (dec_exp_spec m e Hb) as [Hk _]. fold k in Hk. unfold place.
  set (i := k - (n - 1)). pose proof (unit64_pos 0 ltac:(lia)) as Hu. intros Heq.
  assert (d * tens j = c * tens i) as He by nia.
  destruct (Z.le_gt_cases i j) as [Hij|Hij].
  - replace j with (i + (j - i)) in He by lia. rewrite tens_add in He by lia.
    pose proof (tens_pos i ltac:(lia)). assert (c = d * 10 ^ (j - i)) as -> by nia.
    rewrite <- (dec_to_f64_shift false d j (j - i)) by lia. f_equal. lia.
  - replace i with (j + (i - j)) in He by lia. rewrite tens_add in He by lia.
    pose proof (tens_pos j ltac:(lia)). assert (d = c * 10 ^ (i - j)) as -> by nia.
    rewrite <- (dec_to_f64_shift false c i (i - j)) by lia. f_equal. lia.
Qed.

(** A decimal of at most [n] digits has an [n]-digit candidate between the
    float and itself. *)
Lemma between n d j lo : 1 ≤ n ≤ 17 → 0 < d < 10 ^ n → -400 ≤ j →
  lo * place n ≤ x < (lo + 1) * place n →
  d * tens j * unit64 0 ≤ lo * place n ∨ (lo + 1) * place n ≤ d * tens j * unit64 0.
Proof using Hb.
  intros Hn Hd Hj Hlo. destruct (dec_exp_spec m e Hb) as [Hk [Hk1 _]]. fold k x in Hk, Hk1.
  pose proof (place_pos n Hn) as Hp. pose proof (unit64_pos 0 ltac:(lia)) as Hu.
  assert (tens k * unit64 0 = 10 ^ (n - 1) * place n) as Ht.
  { unfold place. replace k with (k - (n - 1) + (n - 1)) at 1 by lia. rewrite tens_add by lia. lia. }
  destruct (Z.le_gt_cases (k - (n - 1)) j) as [Hij|Hij].
  - assert (d * tens j * unit64 0 = d * 10 ^ (j - (k - (n - 1))) * place n) as ->.
    { unfold place. replace j with (k - (n - 1) + (j - (k - (n - 1)))) at 1 by lia.
      rewrite tens_add by lia. lia. }
    destruct (Z.le_gt_cases (d * 10 ^ (j - (k - (n - 1)))) lo); [left|right];
      apply Z.mul_le_mono_nonneg_r; lia.
  - left. assert (d * tens j * unit64 0 ≤ tens k * unit64 0) as Hv.
    { apply Z.mul_le_mono_nonneg_r; [lia|]. apply Z.le_trans with (10 ^ n * tens j).
      - pose proof (tens_pos j Hj). nia.
      - rewrite Z.mul_comm, <- tens_add by lia. apply Z.pow_le_mono_r; lia. }
    assert (10 ^ (n - 1) ≤ lo) by nia. nia.
Qed.

(** If a decimal of at most [n] digits is read as the float, one of the
    candidates is. *)
Lemma shorter_hit n d j : 1 ≤ n ≤ 17 → 0 < d < 10 ^ n →
  dec_to_f64 false d j = S754_finite false m e →
  ∃ c, c ∈ candidates m e k n ∧ dec_to_f64 false c (k - (n - 1)) = S754_finite false m e.
Proof using Hb.
  intros Hn Hd Hr. pose proof (Z.pow_le_mono_r 10 n 17 ltac:(lia) ltac:(lia)).
  destruct (dec_to_f64_near d j m e ltac:(lia) ltac:(lia) Hb Hr) as (Hj & [H1 H2] & H3).
  fold ulp in H1, H2, H3. destruct (dec_exp_spec m e Hb) as [Hk _]. fold k in Hk.
  destruct (candidates_spec n Hn) as (lo & Hlo & Hc). pose proof (place_pos n Hn) as Hp.
  pose proof (between n d j lo Hn Hd Hj Hlo) as Hbet.
  assert (0 < ulp) as Hulp
    by (apply Z.mul_pos_pos; [apply unit64_pos; destruct (bounded64 m e Hb); lia|apply P400_pos]).
  assert (x = Zpos m * ulp) as Ex by (unfold x, ulp; lia).
  assert (lo ∈ candidates m e k n ∧ lo + 1 ∈ candidates m e k n) as [Hin0 Hin1]
    by (destruct Hc as [[-> _]|[-> _]]; set_solver).
  pose proof (tens_pos j Hj). pose proof (unit64_pos 0 ltac:(lia)).
  assert (0 < d * tens j * unit64 0) as Hvpos by nia.
  set (v := d * tens j * unit64 0) in *.
  assert (∀ c, c ∈ candidates m e k n → v ≤ c * place n ≤ x ∨ x < c * place n ≤ v →
    ∃ c, c ∈ candidates m e k n ∧ dec_to_f64 false c (k - (n - 1)) = S754_finite false m e) as Hhit.
  { intros c Hin Hcv. exists c. split; [done|].
    destruct (decide (v = c * place n)) as [Heq|Hne]; [by rewrite <- (dec_to_f64_place d j c n)|].
    assert (0 < c) by nia.
    assert (c * tens (k - (n - 1)) * unit64 0 = c * place n) as Ev by (unfold place; lia).
    apply dec_to_f64_nearest; [done|lia|done|..]; rewrite ?Ev; fold ulp; lia. }
  destruct Hbet; [apply (Hhit lo Hin0)|apply (Hhit (lo + 1) Hin1)]; lia.
Qed.

Lemma shortest_bound fuel n c i : 1 ≤ n → n + Z.of_nat fuel ≤ 18 →
  shortest fuel n (S754_finite false m e) m e k = Some (c, i) → c ≤ 10 ^ 17.
Proof using Hb.
  revert n. induction fuel as [|fuel IH]; intros n Hn Hf; cbn [shortest]; [done|].
  destruct (list_find _ _) as [[i' c']|] eqn:E; [|apply IH; lia]. intros [= -> <-].
  apply list_find_Some in E as (E & _ & _). apply list_elem_of_lookup_2 in E.
  pose proof (candidate_bound n c ltac:(lia) E). pose proof (Z.pow_le_mono_r 10 n 17 ltac:(lia) ltac:(lia)). lia.
Qed.

(** The search stops by the number of digits of any decimal that reads back. *)
Lemma shortest_minimal fuel n d j c i N : 1 ≤ n → n ≤ N ≤ 17 → n + Z.of_nat fuel ≤ 18 → 0 < d < 10 ^ N →
  dec_to_f64 false d j = S754_finite false m e →
  shortest fuel n (S754_finite false m e) m e k = Some (c, i) → c ≤ 10 ^ N.
Proof using Hb.
  intros Hn HN Hf Hd Hr. revert n Hn HN Hf. induction fuel as [|fuel IH]; intros n Hn HN Hf; cbn [shortest]; [done|].
  destruct (list_find _ _) as [[i' c']|] eqn:E.
  - intros [= -> <-]. apply list_find_Some in E as (E & _ & _). apply list_elem_of_lookup_2 in E.
    pose proof (candidate_bound n c ltac:(lia) E). pose proof (Z.pow_le_mono_r 10 n N ltac:(lia) ltac:(lia)). lia.
  - destruct (decide (n = N)) as [->|]; [|apply IH; lia].
    destruct (shorter_hit N d j ltac:(lia) Hd Hr) as (c' & Hin & Hc').
    apply list_find_None in E. rewrite Forall_forall in E. by destruct (E c' Hin).
Qed.

Lemma shortest_total fuel n : 1 ≤ n ≤ 17 → 17 < n + Z.of_nat fuel →
  is_Some (shortest fuel n (S754_finite false m e) m e k).
Proof using Hb.
  revert n. induction fuel as [|fuel IH]; intros n Hn Hf; [lia|]. cbn [shortest].
  destruct (list_find _ _) as [[i d]|] eqn:E; [done|].
  destruct (decide (n = 17)) as [->|]; [|apply IH; lia].
  destruct nearest17 as (d & ds & Hc & Hd). exfalso. rewrite Hc in E. cbn [list_find] in E.
  by rewrite decide_True in E.
Qed.
End Search.

(** ** The printed digits *)

Lemma strip_zeros_mod fuel m e : 0 < m < 10 ^ (Z.of_nat fuel + 1) → (strip_zeros fuel m e).1 mod 10 ≠ 0.
Proof.
  revert m e. induction fuel as [|fuel IH]; intros m e Hm; cbn [strip_zeros fst].
  - rewrite Z.mod_small; lia.
  - case_decide as Hd; [|done]. pose proof (Z.div_mod m 10 ltac:(lia)). apply IH.
    rewrite Nat2Z.inj_succ, <- Z.add_1_l, <- Z.add_assoc, Z.pow_add_r in Hm by lia. lia.
Qed.

Lemma value_of_lower ds : digits ds → ds ≠ [] → head ds ≠ Some 48 → 10 ^ (len ds - 1) ≤ value_of ds.
Proof.
  intros Hds Hne Hh. destruct ds as [|d ds]; [done|]. apply Forall_cons in Hds as [Hd%is_digit_spec Hds].
  rewrite value_of_cons, len_cons. replace (1 + len ds - 1) with (len ds) by lia.
  pose proof (value_of_nonneg ds Hds). pose proof (Z.pow_nonneg 10 (len ds) ltac:(lia)).
  assert (d ≠ 48) by (intros ->; by apply Hh). nia.
Qed.

Lemma value_of_upper ds : digits ds → value_of ds < 10 ^ len ds.
Proof.
  induction 1 as [|d ds Hd%is_digit_spec _ IH]; [by vm_compute|].
  rewrite value_of_cons, len_cons, Z.pow_add_r by zsolve. nia.
Qed.

Lemma value_of_last ds c : value_of (ds ++ [c]) mod 10 = (c - 48) mod 10.
Proof.
  rewrite value_of_app. change (value_of [c]) with (10 * 0 + (c - 48)). change (10 ^ len [c]) with 10.
  rewrite Z.add_comm, Z.mod_add by done. done.
Qed.

(** The decimal of a positive float: canonical digits, at most seventeen. *)
Lemma fmt_e_digits d : 0 < d → d mod 10 ≠ 0 → d ≤ 10 ^ 17 →
  digits (show_nat d) ∧ 1 ≤ len (show_nat d) ≤ 17 ∧ head (show_nat d) ≠ Some 48 ∧ last (show_nat d) ≠ Some 48.
Proof.
  intros Hd Hm Hb. destruct (show_nat_spec d ltac:(lia)) as (Hds & Hv & [[? _]|(_ & Hne & Hh)]); [lia|].
  split_and!; [done| | |done|].
  - destruct (show_nat d); [done|]. rewrite len_cons. zsolve.
  - pose proof (value_of_lower _ Hds Hne Hh) as Hl. rewrite Hv in Hl.
    assert (d ≠ 10 ^ 17) by (intros ->; by apply Hm).
    destruct (Z.le_gt_cases (len (show_nat d)) 17); [done|].
    pose proof (Z.pow_le_mono_r 10 17 (len (show_nat d) - 1)). lia.
  - intros Hl. apply last_Some in Hl as [ds E]. rewrite E in Hv. by rewrite <- Hv, value_of_last in Hm.
Qed.

(** [show_nat] writes as many digits as the number has. *)
Lemma show_nat_digits d n : 0 < d → 0 ≤ n → len (show_nat d) ≤ n ↔ d < 10 ^ n.
Proof.
  intros Hd Hn. destruct (show_nat_spec d ltac:(lia)) as (Hds & Hv & [[? _]|(_ & Hne & Hh)]); [lia|].
  pose proof (value_of_lower _ Hds Hne Hh) as Hl. pose proof (value_of_upper _ Hds) as Hu.
  rewrite Hv in Hl, Hu. split; intros H.
  - pose proof (Z.pow_le_mono_r 10 (len (show_nat d)) n). lia.
  - destruct (Z.le_gt_cases (len (show_nat d)) n); [done|].
    pose proof (Z.pow_le_mono_r 10 n (len (show_nat d) - 1)). lia.
Qed.

(** Printing never fails. *)
Lemma fmt_e_total x : is_finite x = true → valid_binary F64.prec F64.emax x = true → fmt_e x ≠ None.
Proof.
  intros Hfin Hv. destruct x as [| | |s m e]; try done. cbn [valid_binary fmt_e] in *.
  destruct (shortest_total m e Hv 17 1 ltac:(lia) ltac:(lia)) as [[d j] ->].
  cbn [mbind option_bind]. by destruct (strip_zeros 20 d j).
Qed.

(** The decimal of sign [neg], digits [ds] and first digit at [10^k] is read
    as [x], has one to seventeen digits and no zero at either end (a zero has
    the one digit [0]), and no decimal with fewer digits is read as [x]. *)
Definition shortest_decimal (x : f64) (neg : bool) (ds : list Z) (k : Z) : Prop :=
  digits ds ∧ 1 ≤ len ds ≤ 17 ∧
  (head ds ≠ Some 48 ∧ last ds ≠ Some 48 ∨ x = S754_zero neg ∧ ds = [48] ∧ k = 0) ∧
  dec_to_f64 neg (value_of ds) (k + 1 - len ds) = x ∧
  ∀ d j, 0 < d → dec_to_f64 neg d j = x → len ds ≤ len (show_nat d).

(** Every finite binary64 is printed, as a shortest decimal. *)
Theorem fmt_e_shortest x : is_finite x = true → valid_binary F64.prec F64.emax x = true →
  ∃ s ds k, fmt_e x = Some (s, ds, k) ∧ shortest_decimal x s ds k.
Proof.
  unfold shortest_decimal. intros Hfin Hv. destruct x as [s| | |s m e]; try done.
  { exists s, [48], 0. split_and!; try done; [by repeat constructor|by right|].
    intros d j Hd _. destruct (show_nat_spec d ltac:(lia)) as (_ & _ & [[? _]|(_ & Hne & _)]); [lia|].
    destruct (show_nat d); [done|]. rewrite !len_cons. zsolve. }
  cbn [valid_binary] in Hv. destruct (shortest_total m e Hv 17 1 ltac:(lia) ltac:(lia)) as [[d j] Hs].
  assert (fmt_e (S754_finite s m e) =
    let '(d, e10) := strip_zeros 20 d j in Some (s, show_nat d, e10 + len (show_nat d) - 1)) as Hfmt.
  { cbn [fmt_e]. by rewrite Hs. }
  pose proof (shortest_bound m e Hv 17 1 d j ltac:(lia) ltac:(lia) Hs) as Hd.
  pose proof (shortest_Some _ _ _ _ _ _ _ _ Hs) as Hback.
  assert (0 < d) as Hpos.
  { destruct (Z.le_gt_cases d 0) as [H0|]; [|done]. by rewrite dec_to_f64_nonpos in Hback. }
  pose proof (strip_zeros_mod 20 d j ltac:(split; [done|]; apply Z.le_lt_trans with (10 ^ 17); [done|by apply Z.ltb_lt])) as Hmod.
  destruct (strip_zeros_spec 20 d j) as (z & Hz & _ & Ed).
  destruct (strip_zeros 20 d j) as [d' j']. cbn [fst] in *.
  assert (0 < d' ≤ d) as Hd' by (pose proof (Z.pow_pos_nonneg 10 z); nia).
  destruct (fmt_e_digits d' ltac:(lia) Hmod ltac:(lia)) as (H1 & H2 & H3 & H4).
  eexists s, _, _. split; [exact Hfmt|]. split_and!; try done; [lia..|by left| |].
  - by apply fmt_e_spec in Hfmt as (_ & _ & _ & ?).
  - intros d1 j1 Hd1 Hr1. set (N := len (show_nat d1)).
    destruct (Z.le_gt_cases 17 N) as [|HN]; [lia|].
    assert (1 ≤ N) as HN1.
    { destruct (show_nat_spec d1 ltac:(lia)) as (_ & _ & [[? _]|(_ & Hne & _)]); [lia|].
      unfold N. destruct (show_nat d1); [done|]. rewrite len_cons. zsolve. }
    assert (dec_to_f64 false d1 j1 = S754_finite false m e) as Hr2.
    { destruct s; [|done]. rewrite dec_to_f64_neg in Hr1.
      destruct (dec_to_f64 false d1 j1) as [| | |s1 m1 e1]; try done. cbn in Hr1. by destruct s1; simplify_eq. }
    pose proof (shortest_minimal m e Hv 17 1 d1 j1 d j N ltac:(lia) ltac:(lia) ltac:(lia)
      ltac:(split; [done|]; by apply show_nat_digits; [|lia|]) Hr2 Hs) as Hle.
    apply show_nat_digits; [lia|lia|].
    assert (d' ≠ 10 ^ N); [|lia]. intros E. apply Hmod. rewrite E.
    replace N with (1 + (N - 1)) by lia. rewrite Z.pow_add_r by lia. rewrite Z.mul_comm. apply Z.mod_mul. lia.
Qed.

Example fmt_max : fmt_e (S754_finite false (2 ^ 53 - 1)%positive 971) = Some (false, lit "17976931348623157", 308).
Proof. vm_compute. reflexivity. Qed.
