(* ===== verification/Args.v ===== *)
(** * Command line arguments

    What the programs share: the flags, and the standard library's parsing of
    the values they carry.  Models the closures at the top of the programs'
    [main] (gdn/src/bin/qwenrun.rs, gdn/src/main.rs). *)

From S2P Require Import Prelude Rstr Float.

(** What follows the first argument that is [name]. *)
Definition val (args : list rstr) (name : rstr) : option rstr :=
  match list_find (λ a, a = name) args with
  | Some (i, _) => args !! S i
  | None => None
  end.

Definition has (args : list rstr) (name : rstr) : bool := bool_decide (name ∈ args).

(** The first argument after the program's name that is not a flag. *)
Definition first_positional (args : list rstr) : option rstr :=
  snd <$> list_find (λ a, starts_with (lit "--") a = false) (drop 1 args).

(** All of them; the value of a flag is among them. *)
Definition non_flags (args : list rstr) : list rstr :=
  filter (λ a, starts_with (lit "--") a = false) (drop 1 args).

(** The walk over the arguments left: a value flag skips what follows it. *)
Fixpoint positionals_from (value_flags args : list rstr) : list rstr :=
  match args with
  | [] => []
  | a :: rest =>
      if starts_with (lit "--") a then
        if decide (a ∈ value_flags) then
          match rest with [] => [] | _ :: rest => positionals_from value_flags rest end
        else positionals_from value_flags rest
      else a :: positionals_from value_flags rest
  end.

(** What is left of the arguments without the program's name, the subcommand,
    the flags and their values. *)
Definition positionals (value_flags args : list rstr) : list rstr :=
  positionals_from value_flags (drop 2 args).

(** [s.split(sep)] *)
Fixpoint split_on (sep : Z) (s : rstr) : list rstr :=
  match s with
  | [] => [[]]
  | c :: s =>
      if decide (c = sep) then [] :: split_on sep s
      else match split_on sep s with
           | p :: ps => (c :: p) :: ps
           | [] => [[c]]
           end
  end.

(** ** [str::parse::<f64>] and [str::parse::<f32>] *)

Fixpoint take_digits (s : rstr) : rstr * rstr :=
  match s with
  | c :: s' => if is_digit c then let '(ds, r) := take_digits s' in (c :: ds, r) else ([], s)
  | [] => ([], [])
  end.

(** A sign, if there is one. *)
Definition take_sign (s : rstr) : bool * rstr :=
  match s with
  | 45 :: s => (true, s)
  | 43 :: s => (false, s)
  | _ => (false, s)
  end.

Definition lower (s : rstr) : rstr := (λ c, if (65 <=? c) && (c <=? 90) then c + 32 else c) <$> s.

(** The exponent, to the end of the text. *)
Definition take_exponent (s : rstr) : option Z :=
  match s with
  | [] => Some 0
  | c :: s =>
      if decide (c = 101 ∨ c = 69) then
        let '(neg, s) := take_sign s in
        let '(ds, rest) := take_digits s in
        if decide (ds = [] ∨ rest ≠ []) then None
        else Some (if neg then - value_of ds else value_of ds)
      else None
  end.

(** The grammar, over the conversion of sign, digits and exponent. *)
Definition parse_float (of_parts : bool → list Z → list Z → Z → option spec_float) (s : rstr) :
    option spec_float :=
  let '(neg, s) := take_sign s in
  if decide (lower s = lit "nan") then Some S754_nan
  else if decide (lower s = lit "inf" ∨ lower s = lit "infinity") then Some (S754_infinity neg)
  else
    let '(int, s) := take_digits s in
    let '(frac, s) := match s with 46 :: s => take_digits s | _ => ([], s) end in
    ex ← take_exponent s;
    of_parts neg int frac ex.

Definition parse_f64 : rstr → option f64 := parse_float f64_from_parts.

(** The [f32] nearest to [m * 10^e], ties to even. *)
Definition round_dec32 (neg : bool) (m e : Z) : f32 :=
  match m with
  | Zpos p =>
      if decide (0 ≤ e)
      then binary_normalize F32.prec F32.emax (if neg then - (m * 10 ^ e) else m * 10 ^ e) 0 neg
      else let '(q, e', l) := SFdiv_core_binary F32.prec F32.emax m 0 (10 ^ (- e)) 0 in
           binary_round_aux F32.prec F32.emax neg q e' l
  | _ => S754_zero neg
  end.
Definition f32_from_parts (neg : bool) (int frac : list Z) (ex : Z) : option f32 :=
  if decide (int = [] ∧ frac = []) then None
  else Some (round_dec32 neg (value_of (int ++ frac)) (ex - len frac)).

Definition parse_f32 : rstr → option f32 := parse_float f32_from_parts.

Example parse_f32_tenth : parse_f32 (lit "0.1") = Some (F32.div (F32.of_Z 1) (F32.of_Z 10)).
Proof. vm_compute. reflexivity. Qed.
Example parse_f64_forms : parse_f64 <$> (lit <$> ["1e2"; "+.5"; "3."; "-inf"; "."; "1_0"]%string)
  = [Some (F64.of_Z 100); Some (F64.div (F64.of_Z 1) (F64.of_Z 2)); Some (F64.of_Z 3);
     Some (S754_infinity true); None; None].
Proof. vm_compute. reflexivity. Qed.
