(* ===== verification/Tensor.v ===== *)
(** * Flat tensors and the loops over them

    The numeric code keeps every tensor as a flat [Vec<f32>] and addresses it
    by hand-written index arithmetic.  Here a vector is a list, an index out
    of range or a failed [assert!] is the result [None] (the panic), and the
    loops are [loop] over a range with the vector as state.  Sizes are [nat]:
    they are products that fit in memory whenever the vectors they index do.

    The second half relates a flat vector to the function of its coordinates:
    [flat2 n m f] holds [f i j] at index [i * m + j], [flat3] likewise. *)

From stdpp Require Import list.
From S2P Require Import Prelude Float.
#[local] Open Scope nat_scope.

Abbreviation vec := (list f32) (only parsing).

(** Functions of the platform's libm, whose results IEEE 754 leaves open. *)
Class Libm := {
  fexp : f32 → f32;
  fln : f32 → f32;
  fcos : f32 → f32;
  fsin : f32 → f32;
  fpowf : f32 → f32 → f32;
}.

Definition f1 : f32 := F32.of_Z 1.

(** [n as f32], [n as f64] *)
Definition f32_of_nat (n : nat) : f32 := F32.of_Z (Z.of_nat n).
Definition f64_of_nat (n : nat) : f64 := F64.of_Z (Z.of_nat n).

(** ** Panicking primitives *)

Definition assert_ (P : Prop) `{Decision P} : option unit :=
  if decide P then Some () else None.

(** Integer division and remainder, which panic on zero. *)
Definition ndiv (a b : nat) : option nat := if decide (b = 0) then None else Some (a / b).
Definition nmod (a b : nat) : option nat := if decide (b = 0) then None else Some (a mod b).

(** [&l[a..b]] *)
Definition slice_at {A} (l : list A) (a b : nat) : option (list A) :=
  if decide (a ≤ b ∧ b ≤ length l) then Some (take (b - a) (drop a l)) else None.

(** [l[i] = x] *)
Definition store {A} (l : list A) (i : nat) (x : A) : option (list A) :=
  if decide (i < length l) then Some (<[i := x]> l) else None.

(** [l[i..i + src.len()].copy_from_slice(src)] *)
Definition copy_into {A} (l : list A) (i : nat) (src : list A) : option (list A) :=
  if decide (i + length src ≤ length l)
  then Some (take i l ++ src ++ drop (i + length src) l) else None.

(** [for i in l { s = f(i, s) }] *)
Fixpoint loop {I St} (f : I → St → option St) (l : list I) (s : St) : option St :=
  match l with
  | [] => Some s
  | i :: l' => s' ← f i s; loop f l' s'
  end.

(** [for i in 0..n] *)
Definition for_ {St} (n : nat) (f : nat → St → option St) (s : St) : option St :=
  loop f (seq 0 n) s.

(** [(0..n).map(f).collect()], and the loops that fill a fresh vector in the
    order of its indices. *)
Definition collect {A} (n : nat) (f : nat → option A) : option (list A) := mapM f (seq 0 n).

(** Blocks filled in order, as [chunks_mut] or consecutive [copy_from_slice]. *)
Definition collect_rows {A} (n : nat) (f : nat → option (list A)) : option (list A) :=
  rows ← collect n f; Some (concat rows).

(** ** Coordinates *)

Definition tab {A} (n : nat) (f : nat → A) : list A := f <$> seq 0 n.
Definition flat2 {A} (n m : nat) (f : nat → nat → A) : list A :=
  concat (tab n (λ i, tab m (f i))).
Definition flat3 {A} (n m k : nat) (f : nat → nat → nat → A) : list A :=
  concat (tab n (λ i, flat2 m k (f i))).

(** ** Lemmas: primitives *)

Lemma assert_true (P : Prop) `{Decision P} : P → assert_ P = Some ().
Proof. intros. unfold assert_. by rewrite decide_True. Qed.

Lemma assert_Some (P : Prop) `{Decision P} u : assert_ P = Some u → P.
Proof. unfold assert_. by case_decide. Qed.

Lemma ndiv_Some a b : b ≠ 0 → ndiv a b = Some (a / b).
Proof. intros. unfold ndiv. by rewrite decide_False. Qed.

Lemma nmod_Some a b : b ≠ 0 → nmod a b = Some (a mod b).
Proof. intros. unfold nmod. by rewrite decide_False. Qed.

Lemma slice_at_Some {A} (l : list A) a b : a ≤ b → b ≤ length l →
  slice_at l a b = Some (take (b - a) (drop a l)).
Proof. intros. unfold slice_at. by rewrite decide_True. Qed.

Lemma slice_at_lookup {A} (l s : list A) a b i : slice_at l a b = Some s → i < b - a →
  s !! i = l !! (a + i).
Proof.
  unfold slice_at. case_decide; [|done]. intros [= <-] Hi.
  by rewrite lookup_take_lt, lookup_drop by done.
Qed.

Lemma slice_at_length {A} (l s : list A) a b : slice_at l a b = Some s → length s = b - a.
Proof.
  unfold slice_at. case_decide; [|done]. intros [= <-]. rewrite length_take, length_drop. lia.
Qed.

Lemma store_Some {A} (l : list A) i x : i < length l → store l i x = Some (<[i := x]> l).
Proof. intros. unfold store. by rewrite decide_True. Qed.

Lemma loop_app {I St} (f : I → St → option St) l k s :
  loop f (l ++ k) s = (s' ← loop f l s; loop f k s').
Proof.
  revert s; induction l as [|i l IH]; intros s; cbn; [done|].
  destruct (f i s); cbn; [apply IH|done].
Qed.

Lemma loop_bind {I J St} (f : J → St → option St) (g : I → list J) l s :
  loop f (l ≫= g) s = loop (λ i, loop f (g i)) l s.
Proof.
  revert s; induction l as [|i l IH]; intros s; cbn; [done|].
  rewrite loop_app. destruct (loop f (g i) s); cbn; [apply IH|done].
Qed.

Lemma loop_fmap {I J St} (f : J → St → option St) (g : I → J) l s :
  loop f (g <$> l) s = loop (λ i, f (g i)) l s.
Proof.
  revert s; induction l as [|i l IH]; intros s; cbn; [done|].
  destruct (f (g i) s); cbn; [apply IH|done].
Qed.

Lemma loop_ext {I St} (f g : I → St → option St) l s :
  (∀ i s, i ∈ l → f i s = g i s) → loop f l s = loop g l s.
Proof.
  revert s; induction l as [|i l IH]; intros s H; cbn; [done|].
  rewrite H by set_solver. destruct (g i s); cbn; [|done]. apply IH. set_solver.
Qed.

Lemma for_ext {St} n (f g : nat → St → option St) s :
  (∀ i s, i < n → f i s = g i s) → for_ n f s = for_ n g s.
Proof. intros H. apply loop_ext. intros i s' Hi%elem_of_seq. apply H. lia. Qed.

(** A loop whose body never panics is a fold. *)
Lemma loop_foldl {I St} (f : I → St → option St) (g : St → I → St) l s :
  (∀ i s, i ∈ l → f i s = Some (g s i)) → loop f l s = Some (foldl g s l).
Proof.
  revert s; induction l as [|i l IH]; intros s H; cbn; [done|].
  rewrite H by set_solver. cbn. apply IH. set_solver.
Qed.

(** The invariant rule for [for i in 0..n]. *)
Lemma for_inv {St} (P : nat → St → Prop) n f s :
  P 0 s → (∀ i s, i < n → P i s → ∃ s', f i s = Some s' ∧ P (S i) s') →
  ∃ s', for_ n f s = Some s' ∧ P n s'.
Proof.
  intros H0 Hs.
  assert (∀ k a s, a + k = n → P a s →
    ∃ s', loop f (seq a k) s = Some s' ∧ P n s') as Hgen.
  { induction k as [|k IH]; intros a s0 Ha Hp; cbn.
    - replace n with a by lia. eauto.
    - destruct (Hs a s0) as (s1 & -> & Hp1); [lia|done|]. cbn. apply IH; [lia|done]. }
  by apply Hgen.
Qed.

(** The same, for a loop that computes a known sequence of states. *)
Lemma for_states {St} (st : nat → St) n f :
  (∀ i, i < n → f i (st i) = Some (st (S i))) → for_ n f (st 0) = Some (st n).
Proof.
  intros H. destruct (for_inv (λ i s, s = st i) n f (st 0)) as (s & -> & ->); [done| |done].
  intros i s Hi ->. eauto.
Qed.

Lemma collect_tab {A} n (f : nat → option A) (g : nat → A) :
  (∀ i, i < n → f i = Some (g i)) → collect n f = Some (tab n g).
Proof.
  intros H. unfold collect, tab. apply mapM_Some, Forall2_fmap_r, Forall_Forall2_diag.
  apply Forall_seq. intros i Hi. apply H. lia.
Qed.

(** ** Lemmas: coordinates *)

Lemma length_tab {A} n (f : nat → A) : length (tab n f) = n.
Proof. unfold tab. by rewrite length_fmap, length_seq. Qed.

Lemma lookup_tab {A} n (f : nat → A) i : i < n → tab n f !! i = Some (f i).
Proof. intros. unfold tab. by rewrite list_lookup_fmap, lookup_seq_lt. Qed.

Lemma tab_ext {A} n (f g : nat → A) : (∀ i, i < n → f i = g i) → tab n f = tab n g.
Proof.
  intros H. unfold tab. apply list_fmap_ext. intros i x Hx.
  apply lookup_seq in Hx as [-> Hi]. by apply H.
Qed.

Lemma tab_S {A} n (f : nat → A) : tab (S n) f = tab n f ++ [f n].
Proof. unfold tab. by rewrite seq_S, fmap_app. Qed.

Lemma tab_app {A} n m (f : nat → A) : tab (n + m) f = tab n f ++ tab m (λ i, f (n + i)).
Proof.
  unfold tab. rewrite seq_app, fmap_app. f_equal. cbn.
  trans (f <$> (Nat.add n <$> seq 0 m)); [by rewrite fmap_add_seq, Nat.add_0_r|].
  by rewrite <- list_fmap_compose.
Qed.

Lemma list_tab {A} (l : list A) n (f : nat → A) :
  length l = n → (∀ i, i < n → l !! i = Some (f i)) → l = tab n f.
Proof.
  intros Hl H. apply list_eq_same_length with n; [by rewrite length_tab|done|].
  intros i x y Hi Hx Hy. rewrite H in Hx by done. rewrite lookup_tab in Hy by done. congruence.
Qed.

Lemma replicate_tab {A} n (x : A) : replicate n x = tab n (λ _, x).
Proof. apply list_tab; [by rewrite length_replicate|]. intros. by apply lookup_replicate_2. Qed.

Lemma length_concat_tab {A} n m (f : nat → list A) :
  (∀ i, i < n → length (f i) = m) → length (concat (tab n f)) = n * m.
Proof.
  induction n as [|n IH]; intros H; [done|].
  rewrite tab_S, concat_app, length_app, IH by auto. cbn. rewrite length_app, H by lia. cbn. lia.
Qed.

(** Block [i] of a vector of equal blocks. *)
Lemma lookup_concat_tab {A} n m (f : nat → list A) i j :
  (∀ i, i < n → length (f i) = m) → i < n → j < m →
  concat (tab n f) !! (i * m + j) = f i !! j.
Proof.
  intros H Hi Hj. replace n with (i + (1 + (n - i - 1))) by lia.
  rewrite !tab_app, !concat_app.
  assert (length (concat (tab i f)) = i * m) as Hl by (apply length_concat_tab; auto with lia).
  rewrite lookup_app_r, Hl by lia. cbn. replace (i * m + j - i * m) with j by lia.
  rewrite app_nil_r, lookup_app_l; replace (i + 0) with i by lia; [done|]. rewrite H; lia.
Qed.

Lemma length_flat2 {A} n m (f : nat → nat → A) : length (flat2 n m f) = n * m.
Proof. apply length_concat_tab. intros. apply length_tab. Qed.

Lemma lookup_flat2 {A} n m (f : nat → nat → A) i j : i < n → j < m →
  flat2 n m f !! (i * m + j) = Some (f i j).
Proof.
  intros. unfold flat2. rewrite lookup_concat_tab by (done || intros; apply length_tab).
  by apply lookup_tab.
Qed.

Lemma flat2_ext {A} n m (f g : nat → nat → A) :
  (∀ i j, i < n → j < m → f i j = g i j) → flat2 n m f = flat2 n m g.
Proof. intros H. unfold flat2. f_equal. apply tab_ext. intros. apply tab_ext. auto. Qed.

Lemma flat2_app {A} n n' m (f : nat → nat → A) :
  flat2 (n + n') m f = flat2 n m f ++ flat2 n' m (λ i, f (n + i)).
Proof. unfold flat2. by rewrite tab_app, concat_app. Qed.

(** An index below [n * m] has coordinates. *)
Lemma coords n m i : i < n * m → ∃ a b, a < n ∧ b < m ∧ i = a * m + b.
Proof.
  intros H. destruct m as [|m]; [lia|]. exists (i / S m), (i mod S m).
  split; [apply Nat.Div0.div_lt_upper_bound; lia|].
  split; [by apply Nat.mod_upper_bound|]. pose proof (Nat.div_mod i (S m)). lia.
Qed.

Lemma coords_inj m a b a' b' : b < m → b' < m → a * m + b = a' * m + b' → a = a' ∧ b = b'.
Proof.
  intros Hb Hb' H. assert (a = a') as ->; [|lia].
  destruct (Nat.lt_trichotomy a a') as [Hl|[->|Hl]]; [|done|]; nia.
Qed.

Lemma coords_bound n m a b : a < n → b < m → a * m + b < n * m.
Proof. intros. nia. Qed.

Lemma list_flat2 {A} (l : list A) n m (f : nat → nat → A) :
  length l = n * m → (∀ i j, i < n → j < m → l !! (i * m + j) = Some (f i j)) →
  l = flat2 n m f.
Proof.
  intros Hl H. apply list_eq_same_length with (n * m); [by rewrite length_flat2|done|].
  intros i x y Hi Hx Hy. destruct (coords _ _ _ Hi) as (a & b & Ha & Hb & ->).
  rewrite H in Hx by done. rewrite lookup_flat2 in Hy by done. congruence.
Qed.

(** A flat vector always has coordinates, whatever the default. *)
Lemma to_flat2 (l : vec) n m : length l = n * m →
  l = flat2 n m (λ i j, nth (i * m + j) l fzero).
Proof.
  intros Hl. apply list_flat2; [done|]. intros i j Hi Hj.
  destruct (nth_lookup_or_length l (i * m + j) fzero) as [|Hge]; [done|].
  pose proof (coords_bound _ _ _ _ Hi Hj). lia.
Qed.

(** A [flat3] seen as rows. *)
Lemma flat3_rows {A} n m k (f : nat → nat → nat → A) :
  flat3 n m k f = flat2 (n * m) k (λ r, f (r / m) (r mod m)).
Proof.
  apply list_flat2.
  { unfold flat3. rewrite (length_concat_tab _ (m * k)); [lia|]. intros. apply length_flat2. }
  intros r c Hr Hc. destruct (coords _ _ _ Hr) as (i & j & Hi & Hj & ->).
  rewrite Nat.div_add_l, Nat.div_small, Nat.add_0_r by lia.
  rewrite (Nat.add_comm (i * m) j), Nat.Div0.mod_add, Nat.mod_small by done.
  replace ((j + i * m) * k + c) with (i * (m * k) + (j * k + c)) by lia.
  unfold flat3. rewrite (lookup_concat_tab _ (m * k)); [by apply lookup_flat2|..]; try done.
  - intros. apply length_flat2.
  - by apply coords_bound.
Qed.

Lemma length_flat3 {A} n m k (f : nat → nat → nat → A) : length (flat3 n m k f) = n * m * k.
Proof. rewrite flat3_rows. apply length_flat2. Qed.

Lemma row_coords m i j : j < m → (i * m + j) / m = i ∧ (i * m + j) mod m = j.
Proof.
  intros. rewrite Nat.div_add_l, Nat.div_small, Nat.add_0_r by lia.
  by rewrite Nat.add_comm, Nat.Div0.mod_add, Nat.mod_small.
Qed.

Lemma lookup_flat3 {A} n m k (f : nat → nat → nat → A) i j l : i < n → j < m → l < k →
  flat3 n m k f !! ((i * m + j) * k + l) = Some (f i j l).
Proof.
  intros Hi Hj Hl. rewrite flat3_rows, lookup_flat2 by (done || by apply coords_bound).
  by destruct (row_coords m i j Hj) as [-> ->].
Qed.

Lemma list_flat3 {A} (l : list A) n m k (f : nat → nat → nat → A) : length l = n * m * k →
  (∀ i j c, i < n → j < m → c < k → l !! ((i * m + j) * k + c) = Some (f i j c)) →
  l = flat3 n m k f.
Proof.
  intros Hl H. rewrite flat3_rows. apply list_flat2; [done|]. intros r c Hr Hc.
  destruct (coords _ _ _ Hr) as (i & j & Hi & Hj & ->).
  rewrite H by done. by destruct (row_coords m i j Hj) as [-> ->].
Qed.

Lemma flat3_ext {A} n m k (f g : nat → nat → nat → A) :
  (∀ i j l, i < n → j < m → l < k → f i j l = g i j l) → flat3 n m k f = flat3 n m k g.
Proof. intros H. unfold flat3. f_equal. apply tab_ext. intros. apply flat2_ext. auto. Qed.

Lemma flat3_app {A} n n' m k (f : nat → nat → nat → A) :
  flat3 (n + n') m k f = flat3 n m k f ++ flat3 n' m k (λ i, f (n + i)).
Proof. unfold flat3. by rewrite tab_app, concat_app. Qed.

Lemma to_flat3 (l : vec) n m k : length l = n * m * k → ∃ f, l = flat3 n m k f.
Proof.
  intros Hl. exists (λ i j c, nth ((i * m + j) * k + c) l fzero).
  rewrite flat3_rows, (to_flat2 l (n * m) k) at 1 by done. apply flat2_ext. intros r c Hr _.
  destruct (coords _ _ _ Hr) as (i & j & Hi & Hj & ->).
  assert ((i * m + j) / m = i ∧ (i * m + j) mod m = j) as [-> ->]; [|done].
  split; [rewrite Nat.div_add_l, Nat.div_small by lia; lia|].
  rewrite Nat.add_comm, Nat.Div0.mod_add. by apply Nat.mod_small.
Qed.

(** A tensor of tokens given as two pieces. *)
Lemma to_flat3_app (l l' : vec) n n' m k : length l = n * m * k → length l' = n' * m * k →
  ∃ f, l = flat3 n m k f ∧ l' = flat3 n' m k (λ i, f (n + i)) ∧ l ++ l' = flat3 (n + n') m k f.
Proof.
  intros Hl Hl'. destruct (to_flat3 (l ++ l') (n + n') m k) as [f Hf]; [rewrite length_app; lia|].
  exists f. rewrite Hf. rewrite flat3_app in Hf.
  apply app_inj_1 in Hf as [-> ->]; [done|]. rewrite flat3_rows, length_flat2. lia.
Qed.

Lemma to_flat2_app (l l' : vec) n n' m : length l = n * m → length l' = n' * m →
  ∃ f, l = flat2 n m f ∧ l' = flat2 n' m (λ i, f (n + i)) ∧ l ++ l' = flat2 (n + n') m f.
Proof.
  intros Hl Hl'. eexists. pose proof (to_flat2 (l ++ l') (n + n') m) as Hf.
  rewrite Hf at 1 by (rewrite length_app; lia). split; [|split; [|reflexivity]].
  all: rewrite flat2_app in Hf; apply app_inj_1 in Hf as [H1 H2]; try done;
    rewrite ?length_app, ?length_flat2; lia.
Qed.

(** The rows of a [flat2], regrouped. *)
Lemma flat2_rows3 {A} n m k (f : nat → nat → A) :
  flat2 (n * m) k f = flat3 n m k (λ i j, f (i * m + j)).
Proof.
  apply list_flat3; [by rewrite length_flat2|]. intros.
  by rewrite lookup_flat2 by (done || by apply coords_bound).
Qed.

(** ** Lemmas: slices of flat vectors *)

Lemma slice_flat2 {A} n m (f : nat → nat → A) i : i < n →
  slice_at (flat2 n m f) (i * m) (i * m + m) = Some (tab m (f i)).
Proof.
  intros Hi. assert (i * m + m ≤ length (flat2 n m f)) as Hb by (rewrite length_flat2; nia).
  destruct (slice_at (flat2 n m f) (i * m) (i * m + m)) as [s|] eqn:E.
  - f_equal. apply list_tab; [rewrite (slice_at_length _ _ _ _ E); lia|].
    intros j Hj. rewrite (slice_at_lookup _ _ _ _ _ E) by lia. by apply lookup_flat2.
  - unfold slice_at in E. case_decide; [done|]. lia.
Qed.

Lemma slice_flat3 {A} n m k (f : nat → nat → nat → A) i j : i < n → j < m →
  slice_at (flat3 n m k f) ((i * m + j) * k) ((i * m + j) * k + k) = Some (tab k (f i j)).
Proof.
  intros Hi Hj. rewrite flat3_rows, slice_flat2 by (by apply coords_bound).
  by destruct (row_coords m i j Hj) as [-> ->].
Qed.

(** Part of a row. *)
Lemma slice_sub {A} (l s : list A) a b c d : slice_at l a b = Some s → c ≤ d → a + d ≤ b →
  slice_at l (a + c) (a + d) = slice_at s c d.
Proof.
  intros E Hc Hd. assert (length s = b - a) as Hs by (by apply slice_at_length in E).
  unfold slice_at in *. case_decide as H; [|done]. injection E as <-.
  rewrite !decide_True by lia. f_equal.
  rewrite skipn_firstn_comm, firstn_firstn, skipn_skipn.
  replace (a + d - (a + c)) with (d - c) by lia. replace (c + a) with (a + c) by lia.
  f_equal. lia.
Qed.

Lemma slice_tab {A} n (f : nat → A) a b : a ≤ b → b ≤ n →
  slice_at (tab n f) a b = Some (tab (b - a) (λ i, f (a + i))).
Proof.
  intros Ha Hb. destruct (slice_at (tab n f) a b) as [s|] eqn:E.
  - f_equal. apply list_tab; [by apply slice_at_length in E|].
    intros j Hj. rewrite (slice_at_lookup _ _ _ _ _ E) by lia. apply lookup_tab. lia.
  - unfold slice_at in E. rewrite length_tab in E. case_decide; [done|]. lia.
Qed.

(** ** Lemmas: loops that write distinct places *)

(** Each round overwrites its own place from what it holds there. *)
Lemma loop_update {A I} (pos : I → nat) (g : I → A → A) ks l :
  NoDup (pos <$> ks) → Forall (λ k, pos k < length l) ks →
  ∃ l', loop (λ k l, x ← l !! pos k; store l (pos k) (g k x)) ks l = Some l' ∧
    length l' = length l ∧
    (∀ k x, k ∈ ks → l !! pos k = Some x → l' !! pos k = Some (g k x)) ∧
    (∀ i, i ∉ pos <$> ks → l' !! i = l !! i).
Proof.
  revert l; induction ks as [|k ks IH]; intros l Hn Hl; cbn.
  { exists l. split_and!; [done..| |done]. intros k x Hk. by apply not_elem_of_nil in Hk. }
  rewrite fmap_cons in Hn. apply NoDup_cons in Hn as [Hk Hn]. apply Forall_cons in Hl as [Hkl Hl].
  destruct (lookup_lt_is_Some_2 l (pos k) Hkl) as [x Hx]. rewrite Hx. cbn.
  rewrite store_Some by done. cbn.
  destruct (IH (<[pos k:=g k x]> l)) as (l' & -> & Hlen & Hin & Hout);
    [done|eapply Forall_impl; [done|]; intros; by rewrite length_insert|].
  rewrite length_insert in Hlen.
  exists l'. split; [done|]. split; [done|]. split.
  - intros k' x' [->|Hk']%elem_of_cons Hx'.
    + rewrite Hout by done. rewrite list_lookup_insert_eq by done. congruence.
    + apply Hin; [done|]. rewrite list_lookup_insert_ne; [done|].
      intros Heq. apply Hk. rewrite Heq. by apply list_elem_of_fmap_2.
  - intros i [Hne Hi]%not_elem_of_cons. rewrite Hout by done.
    by apply list_lookup_insert_ne.
Qed.

(** ** Loops that fill a vector

    The nested loops that permute or assemble tensors write every place with
    its final content, in some order.  [agrees T l D]: [l] has its final
    content, that of [T], at the places in [D]. *)

Definition agrees {A} (T l : list A) (D : nat → Prop) : Prop :=
  length l = length T ∧ ∀ i, D i → l !! i = T !! i.

Lemma agrees_mono {A} (T l : list A) (D D' : nat → Prop) :
  agrees T l D → (∀ i, D' i → D i) → agrees T l D'.
Proof. intros [Hl H] HD. split; [done|]. auto. Qed.

Lemma agrees_start {A} (T l : list A) : length l = length T → agrees T l (λ _, False).
Proof. intros. by split. Qed.

Lemma agrees_all {A} (T l : list A) (D : nat → Prop) :
  agrees T l D → (∀ i, i < length T → D i) → l = T.
Proof.
  intros [Hl H] HD. apply list_eq. intros i. destruct (decide (i < length T)) as [Hi|Hi].
  - auto.
  - by rewrite !lookup_ge_None_2 by lia.
Qed.

Lemma agrees_store {A} (T l : list A) (D : nat → Prop) p x : agrees T l D →
  T !! p = Some x → ∃ l', store l p x = Some l' ∧ agrees T l' (λ i, D i ∨ i = p).
Proof.
  intros [Hl H] Hx. assert (p < length l) as Hp by (rewrite Hl; by eapply lookup_lt_Some).
  exists (<[p:=x]> l). rewrite store_Some by done. split; [done|].
  split; [by rewrite length_insert|]. intros i Hi. destruct (decide (i = p)) as [->|Hne].
  - by rewrite list_lookup_insert_eq.
  - rewrite list_lookup_insert_ne by done. naive_solver.
Qed.

Lemma agrees_copy {A} (T l : list A) (D : nat → Prop) p b : agrees T l D →
  slice_at T p (p + length b) = Some b →
  ∃ l', copy_into l p b = Some l' ∧ agrees T l' (λ i, D i ∨ p ≤ i < p + length b).
Proof.
  intros [Hl H] Hb. assert (p + length b ≤ length l) as Hp.
  { unfold slice_at in Hb. case_decide; [lia|done]. }
  eexists. unfold copy_into. rewrite decide_True by done. split; [done|].
  split; [rewrite !length_app, length_take, length_drop; lia|]. intros i Hi.
  assert (length (take p l) = p) as Ht by (rewrite length_take; lia).
  destruct (decide (i < p)) as [Hip|Hip].
  { rewrite lookup_app_l, lookup_take_lt by lia. naive_solver lia. }
  rewrite lookup_app_r, Ht by lia. destruct (decide (i < p + length b)) as [Hib|Hib].
  - rewrite lookup_app_l by lia. rewrite (slice_at_lookup _ _ _ _ _ Hb) by lia. f_equal. lia.
  - rewrite lookup_app_r by lia. rewrite lookup_drop.
    replace (p + length b + (i - p - length b)) with i by lia. naive_solver lia.
Qed.

(** A loop whose rounds each complete the places [R k]. *)
Lemma loop_cover {I St} (P : St → (nat → Prop) → Prop) (R : I → nat → Prop) f ks s D :
  (∀ s (D D' : nat → Prop), P s D → (∀ i, D' i → D i) → P s D') →
  (∀ k s D, k ∈ ks → P s D → ∃ s', f k s = Some s' ∧ P s' (λ i, D i ∨ R k i)) →
  P s D → ∃ s', loop f ks s = Some s' ∧ P s' (λ i, D i ∨ ∃ k, k ∈ ks ∧ R k i).
Proof.
  intros Hm. revert s D; induction ks as [|k ks IH]; intros s D Hf Hs; cbn.
  - exists s. split; [done|]. eapply Hm; [done|]. intros i [?|(k & Hk & _)]; [done|].
    by apply not_elem_of_nil in Hk.
  - destruct (Hf k s D) as (s1 & -> & H1); [set_solver|done|]. cbn.
    destruct (IH s1 (λ i, D i ∨ R k i)) as (s2 & -> & H2); [set_solver|done|].
    exists s2. split; [done|]. eapply Hm; [done|]. cbn.
    intros i [?|(k' & [->|Hk']%elem_of_cons & ?)]; eauto.
Qed.

Lemma loop_agrees {A I} (T : list A) (R : I → nat → Prop) f ks l D :
  (∀ k l D, k ∈ ks → agrees T l D → ∃ l', f k l = Some l' ∧ agrees T l' (λ i, D i ∨ R k i)) →
  agrees T l D → ∃ l', loop f ks l = Some l' ∧ agrees T l' (λ i, D i ∨ ∃ k, k ∈ ks ∧ R k i).
Proof. apply loop_cover. intros. by eapply agrees_mono. Qed.

Lemma collect_rows_flat2 {A} n m (f : nat → option (list A)) (g : nat → nat → A) :
  (∀ i, i < n → f i = Some (tab m (g i))) → collect_rows n f = Some (flat2 n m g).
Proof.
  intros H. unfold collect_rows. by rewrite (collect_tab n f (λ i, tab m (g i))) by done.
Qed.

Lemma for_agrees {A} (T : list A) (R : nat → nat → Prop) f n l D :
  (∀ k l D, k < n → agrees T l D → ∃ l', f k l = Some l' ∧ agrees T l' (λ i, D i ∨ R k i)) →
  agrees T l D → ∃ l', for_ n f l = Some l' ∧ agrees T l' (λ i, D i ∨ ∃ k, k < n ∧ R k i).
Proof.
  intros Hf Hl. unfold for_. destruct (loop_agrees T R f (seq 0 n) l D) as (l' & -> & Hl'); [|done|].
  - intros k l0 D0 Hk%elem_of_seq. apply Hf. lia.
  - exists l'. split; [done|]. eapply agrees_mono; [done|]. cbn.
    intros i [?|(k & Hk & ?)]; [by left|]. right. exists k. rewrite elem_of_seq. eauto with lia.
Qed.

(** ** More slices *)

(** A known content at every index of a range is the slice. *)
Lemma slice_tab_intro {A} (l : list A) a n (f : nat → A) : a + n ≤ length l →
  (∀ i, i < n → l !! (a + i) = Some (f i)) → slice_at l a (a + n) = Some (tab n f).
Proof.
  intros Hl H. destruct (slice_at l a (a + n)) as [s|] eqn:E.
  - f_equal. apply list_tab; [rewrite (slice_at_length _ _ _ _ E); lia|].
    intros i Hi. rewrite (slice_at_lookup _ _ _ _ _ E) by lia. auto.
  - unfold slice_at in E. case_decide; [done|lia].
Qed.

(** Part of row [i]. *)
Lemma slice_row {A} n m (f : nat → nat → A) i a k : i < n → a + k ≤ m →
  slice_at (flat2 n m f) (i * m + a) (i * m + a + k) = Some (tab k (λ j, f i (a + j))).
Proof.
  intros Hi Ha. apply slice_tab_intro; [rewrite length_flat2; nia|].
  intros j Hj. rewrite <- Nat.add_assoc. apply lookup_flat2; lia.
Qed.

(** The first [c] rows of block [i]. *)
Lemma slice_block {A} n m k (f : nat → nat → nat → A) i a c : i < n → a + c ≤ m →
  slice_at (flat3 n m k f) ((i * m + a) * k) ((i * m + a) * k + c * k)
  = Some (flat2 c k (λ j, f i (a + j))).
Proof.
  intros Hi Hc.
  assert (i * m + m ≤ n * m) by nia.
  assert (((i * m + a) * k + c * k) ≤ length (flat3 n m k f)) as Hl.
  { rewrite length_flat3. rewrite <- Nat.mul_add_distr_r. apply Nat.mul_le_mono_r. lia. }
  destruct (slice_at (flat3 n m k f) ((i * m + a) * k) ((i * m + a) * k + c * k)) as [s|] eqn:E;
    [|unfold slice_at in E; case_decide; [done|lia]].
  f_equal. apply list_flat2; [apply slice_at_length in E; lia|].
  intros j l Hj Hl'. rewrite (slice_at_lookup _ _ _ _ _ E) by nia.
  replace ((i * m + a) * k + (j * k + l)) with ((i * m + (a + j)) * k + l) by lia.
  apply lookup_flat3; lia.
Qed.

Lemma collect_rows_tab {A} n (f : nat → option (list A)) (g : nat → list A) :
  (∀ i, i < n → f i = Some (g i)) → collect_rows n f = Some (concat (tab n g)).
Proof. intros H. unfold collect_rows. by rewrite (collect_tab n f g) by done. Qed.

Lemma flat3_blocks {A} n h t d (f : nat → nat → nat → nat → A) :
  concat (tab n (λ i, flat3 h t d (f i))) = flat3 (n * h) t d (λ r, f (r / h) (r mod h)).
Proof.
  apply list_flat3.
  { rewrite (length_concat_tab _ (h * t * d)); [lia|]. intros. apply length_flat3. }
  intros r j c Hr Hj Hc. destruct (coords _ _ _ Hr) as (i & hh & Hi & Hhh & ->).
  destruct (row_coords h i hh Hhh) as [-> ->].
  replace (((i * h + hh) * t + j) * d + c) with (i * (h * t * d) + ((hh * t + j) * d + c)) by lia.
  rewrite (lookup_concat_tab _ (h * t * d)); [by apply lookup_flat3| |done|].
  - intros. apply length_flat3.
  - replace ((hh * t + j) * d + c) with (hh * (t * d) + (j * d + c)) by lia.
    rewrite <- Nat.mul_assoc. by apply coords_bound, coords_bound.
Qed.

Lemma collect_list {A} n (f : nat → option A) (l : list A) :
  length l = n → (∀ i, i < n → f i = l !! i) → collect n f = Some l.
Proof.
  intros Hl H. destruct l as [|x0 l'] eqn:E.
  - cbn in Hl. by subst n.
  - rewrite (collect_tab n f (λ i, nth i l x0)).
    + f_equal. symmetry. subst l. apply list_tab; [done|]. intros i Hi.
      destruct (nth_lookup_or_length (x0 :: l') i x0); [done|lia].
    + intros i Hi. rewrite H by done. subst l.
      destruct (nth_lookup_or_length (x0 :: l') i x0); [done|lia].
Qed.
