(* ===== verification/Linear.v ===== *)
(** * The primitives of the forward pass

    Models the first half of qwen35-forward/gdn/src/lib.rs: matrix products
    with their threaded path, the two RMS norms, the activations, the causal
    convolution, and the layout changes. *)

From stdpp Require Import list.
From S2P Require Import Prelude Float Tensor.
#[local] Open Scope nat_scope.

(** ** Matrix products *)

(** The loop of [dot]: products and sum in [f64]. *)
Definition dot (a b : vec) : option f32 :=
  acc ← for_ (length a) (λ i acc,
    x ← a !! i; y ← b !! i; Some (F64.add acc (F64.mul (to_f64 x) (to_f64 y)))) fzero;
  Some (to_f32 acc).

Definition WORK_PER_THREAD : Z := Z.shiftl 1 18.
Definition MAX_THREADS : Z := 16.

(** One output element, the same in both paths. *)
Definition linear_elem (w : vec) (bias : option vec) (xr : vec) (in_dim o : nat) : option f32 :=
  wo ← slice_at w (o * in_dim) (o * in_dim + in_dim);
  acc ← for_ in_dim (λ i acc,
    wi ← wo !! i; xi ← xr !! i; Some (F64.add acc (F64.mul (to_f64 wi) (to_f64 xi)))) fzero;
  acc ← match bias with
        | Some b => bo ← b !! o; Some (F64.add acc (to_f64 bo))
        | None => Some acc
        end;
  Some (to_f32 acc).

(** One thread: [n] consecutive outputs from row [r], column [o] on, with the
    input row [xr] kept until the column wraps. *)
Fixpoint linear_thread (w : vec) (bias : option vec) (x : vec) (rows in_dim out_dim : nat)
    (n r o : nat) (xr : vec) : option vec :=
  match n with
  | O => Some []
  | S n =>
      y ← linear_elem w bias xr in_dim o;
      '(r', o', xr') ←
        (if decide (o + 1 = out_dim) then
           if decide (r + 1 < rows) then
             xr' ← slice_at x ((r + 1) * in_dim) ((r + 1) * in_dim + in_dim);
             Some (r + 1, 0, xr')
           else Some (r + 1, 0, xr)
         else Some (r, o + 1, xr));
      ys ← linear_thread w bias x rows in_dim out_dim n r' o' xr';
      Some (y :: ys)
  end.

(** [hw] is what [available_parallelism] reports. *)
Definition linear_threads (hw : Z) (rows in_dim out_dim : nat) : Z :=
  let work := saturating_mul (saturating_mul (Z.of_nat rows) (Z.of_nat in_dim)) (Z.of_nat out_dim) in
  (((work / WORK_PER_THREAD) `min` hw) `min` MAX_THREADS)%Z.

Definition linear (hw : Z) (w : vec) (bias : option vec) (x : vec)
    (rows in_dim out_dim : nat) : option vec :=
  _ ← assert_ (length w = out_dim * in_dim);
  _ ← assert_ (length x = rows * in_dim);
  if decide (rows = 0 ∨ out_dim = 0) then Some (replicate (rows * out_dim) fzero) else
  let nthreads := linear_threads hw rows in_dim out_dim in
  if decide (nthreads ≤ 1)%Z then
    collect_rows rows (λ r,
      xr ← slice_at x (r * in_dim) (r * in_dim + in_dim);
      collect out_dim (linear_elem w bias xr in_dim))
  else
    let items := rows * out_dim in
    let chunk := Z.to_nat (div_ceil (Z.of_nat items) nthreads `max` 1)%Z in
    (* [y.chunks_mut(chunk)]: the last chunk may be short *)
    collect_rows (Z.to_nat (div_ceil (Z.of_nat items) (Z.of_nat chunk))) (λ ci,
      let base := ci * chunk in
      let r := base / out_dim in
      xr ← slice_at x (r * in_dim) (r * in_dim + in_dim);
      linear_thread w bias x rows in_dim out_dim (chunk `min` (items - base)) r (base mod out_dim) xr).

(** ** Norms and activations *)
Section libm.
Context `{Libm}.

Definition softplus (x : f32) : f32 :=
  if SFltb (F32.of_Z 20) x then x else fln (F32.add f1 (fexp x)).
Definition silu (x : f32) : f32 := F32.div x (F32.add f1 (fexp (SFopp x))).
Definition sigmoid (x : f32) : f32 := F32.div f1 (F32.add f1 (fexp (SFopp x))).

(** The sum of squares in [f64] and the factor both norms apply to a row. *)
Definition rms_inv (xr : vec) (dim : nat) (eps : f32) : f32 :=
  let ss := foldl (λ ss v, F64.add ss (F64.mul (to_f64 v) (to_f64 v))) fzero xr in
  F32.div f1 (F32.sqrt (F32.add (to_f32 (F64.div ss (f64_of_nat dim))) eps)).

Definition rmsnorm_1plus (w x : vec) (rows dim : nat) (eps : f32) : option vec :=
  _ ← assert_ (length w = dim);
  _ ← assert_ (length x = rows * dim);
  collect_rows rows (λ r,
    xr ← slice_at x (r * dim) (r * dim + dim);
    let inv := rms_inv xr dim eps in
    collect dim (λ i,
      xi ← xr !! i; wi ← w !! i;
      Some (F32.mul (F32.mul xi inv) (F32.add f1 wi)))).

Definition rmsnorm_gated (w x z : vec) (rows dim : nat) (eps : f32) : option vec :=
  _ ← assert_ (length w = dim);
  _ ← assert_ (length x = rows * dim);
  _ ← assert_ (length z = rows * dim);
  collect_rows rows (λ r,
    xr ← slice_at x (r * dim) (r * dim + dim);
    zr ← slice_at z (r * dim) (r * dim + dim);
    let inv := rms_inv xr dim eps in
    collect dim (λ i,
      xi ← xr !! i; g ← zr !! i; wi ← w !! i;
      let xhat := F32.mul xi inv in
      let silu := F32.div g (F32.add f1 (fexp (SFopp g))) in
      Some (F32.mul (F32.mul wi xhat) silu))).

(** ** The causal convolution *)

(** One channel of one batch entry: its outputs and its new left context. *)
Definition conv_channel (w : vec) (bias : option vec) (x_bct : vec) (channels t k keep : nat)
    (state_in : option vec) (bi c : nat) : option (vec * vec) :=
  wc ← slice_at w (c * k) (c * k + k);
  let off := (bi * channels + c) * t in
  let so := (bi * channels + c) * keep in
  left ← match state_in with
         | Some st => slice_at st so (so + keep)
         | None => Some (replicate keep fzero)
         end;
  chunk ← slice_at x_bct off (off + t);
  let full := left ++ chunk in
  out ← collect t (λ ti,
    acc ← for_ (length wc) (λ ki acc,
      wk ← wc !! ki; v ← full !! (ti + ki); Some (F32.add acc (F32.mul wk v))) fzero;
    acc ← match bias with
          | Some bb => v ← bb !! c; Some (F32.add acc v)
          | None => Some acc
          end;
    Some (silu acc));
  new_state ← slice_at full t (t + keep);
  Some (out, new_state).

Definition conv_forward (w : vec) (bias : option vec) (x_bct : vec) (b channels t k : nat)
    (state_in : option vec) : option (vec * vec) :=
  _ ← assert_ (length w = channels * k);
  _ ← assert_ (length x_bct = b * channels * t);
  let keep := k - 1 in
  _ ← match state_in with
      | Some st => assert_ (length st = b * channels * keep)
      | None => Some ()
      end;
  rows ← collect_rows b (λ bi,
    collect channels (conv_channel w bias x_bct channels t k keep state_in bi));
  Some (concat rows.*1, concat rows.*2).
End libm.

(** ** Layout *)

Definition repeat_interleave_heads (x : vec) (b t h d ratio : nat) : option vec :=
  if decide (ratio = 1) then Some x else
  let oh := h * ratio in
  for_ b (λ bi, for_ t (λ ti, for_ h (λ hi,
    let src := ((bi * t + ti) * h + hi) * d in
    for_ ratio (λ rep y,
      let dst := ((bi * t + ti) * oh + hi * ratio + rep) * d in
      head ← slice_at x src (src + d);
      copy_into y dst head))))
    (replicate (b * t * oh * d) fzero).

Definition btc_to_bct (x : vec) (b t c : nat) : option vec :=
  _ ← assert_ (length x = b * t * c);
  for_ b (λ bi, for_ t (λ ti, for_ c (λ ci y,
    v ← x !! ((bi * t + ti) * c + ci);
    store y ((bi * c + ci) * t + ti) v)))
    (replicate (b * c * t) fzero).

Definition bct_to_btc (x : vec) (b c t : nat) : option vec :=
  _ ← assert_ (length x = b * c * t);
  for_ b (λ bi, for_ c (λ ci, for_ t (λ ti y,
    v ← x !! ((bi * c + ci) * t + ti);
    store y ((bi * t + ti) * c + ci) v)))
    (replicate (b * t * c) fzero).
