(* ===== verification/LinearProps.v ===== *)
(** * What the primitives compute

    Each operation on flat vectors, given operands of the declared sizes,
    returns the vector of a function of the coordinates.  The matrix product
    does not depend on the number of threads, the layout changes are inverse
    to each other, and the convolution can be cut at any point. *)

From stdpp Require Import list.
From S2P Require Import Prelude Float Tensor Linear.
#[local] Open Scope nat_scope.
#[local] Opaque F64.add F64.mul F64.div F32.add F32.mul F32.div F32.sqrt to_f32 to_f64.

Lemma tab_cons {A} n (f : nat → A) : tab (S n) f = f 0 :: tab n (λ i, f (S i)).
Proof. unfold tab. cbn. f_equal. by rewrite <- fmap_S_seq, <- list_fmap_compose. Qed.

Lemma flat2_tab {A} n m (f : nat → nat → A) :
  flat2 n m f = tab (n * m) (λ i, f (i / m) (i mod m)).
Proof.
  apply list_tab; [by rewrite length_flat2|]. intros i Hi.
  destruct (coords _ _ _ Hi) as (a & c & Ha & Hc & ->).
  rewrite lookup_flat2 by done. by destruct (row_coords m a c Hc) as [-> ->].
Qed.

Lemma for_foldl {St} n (f : nat → St → option St) (g : St → nat → St) s :
  (∀ i s, i < n → f i s = Some (g s i)) → for_ n f s = Some (foldl g s (seq 0 n)).
Proof. intros H. apply loop_foldl. intros i s' Hi%elem_of_seq. apply H. lia. Qed.

Lemma foldl_ext_elem {A B} (f g : A → B → A) l s :
  (∀ a i, i ∈ l → f a i = g a i) → foldl f s l = foldl g s l.
Proof.
  revert s; induction l as [|i l IH]; intros s H; cbn; [done|].
  rewrite H by set_solver. apply IH. set_solver.
Qed.

Lemma foldl_tab {A B} (f : A → B → A) n (h : nat → B) s :
  foldl f s (tab n h) = foldl (λ a i, f a (h i)) s (seq 0 n).
Proof. unfold tab. generalize (seq 0 n) as l. intros l. revert s. induction l; cbn; auto. Qed.

(** ** Matrix products *)

Definition at_ (l : vec) (i : nat) : f32 := nth i l fzero.

Lemma at_lookup l i : i < length l → l !! i = Some (at_ l i).
Proof. intros Hi. destruct (nth_lookup_or_length l i fzero); [done|lia]. Qed.

(** The reference: row [X] against row [o] of [w], summed in order in [f64]. *)
Definition lin (w : vec) (bias : option vec) (in_dim : nat) (X : nat → f32) (o : nat) : f32 :=
  let acc := foldl (λ acc i, F64.add acc (F64.mul (to_f64 (at_ w (o * in_dim + i))) (to_f64 (X i))))
               fzero (seq 0 in_dim) in
  to_f32 (match bias with Some b => F64.add acc (to_f64 (at_ b o)) | None => acc end).

Definition bias_ok (bias : option vec) (n : nat) : Prop :=
  match bias with Some b => length b = n | None => True end.

Lemma lin_ext w bias in_dim X Y o : (∀ i, i < in_dim → X i = Y i) →
  lin w bias in_dim X o = lin w bias in_dim Y o.
Proof.
  intros H. unfold lin.
  rewrite (foldl_ext_elem _ (λ acc i,
    F64.add acc (F64.mul (to_f64 (at_ w (o * in_dim + i))) (to_f64 (Y i))))); [done|].
  intros a i Hi%elem_of_seq. rewrite H by lia. done.
Qed.

Section linear.
Context (w : vec) (bias : option vec) (rows in_dim out_dim : nat) (X : nat → nat → f32).
Context (Hw : length w = out_dim * in_dim) (Hb : bias_ok bias out_dim).
Let x := flat2 rows in_dim X.
Let E i := lin w bias in_dim (X (i / out_dim)) (i mod out_dim).

Lemma linear_elem_spec r o : o < out_dim →
  linear_elem w bias (tab in_dim (X r)) in_dim o = Some (lin w bias in_dim (X r) o).
Proof.
  intros Ho. unfold linear_elem.
  assert (o * in_dim + in_dim ≤ length w) as Hb1 by nia.
  destruct (slice_at w (o * in_dim) (o * in_dim + in_dim)) as [wo|] eqn:Es;
    [|unfold slice_at in Es; case_decide; [done|lia]].
  cbn [mbind option_bind].
  erewrite for_foldl; [cbn [mbind option_bind]|].
  2:{ intros i acc Hi. rewrite (slice_at_lookup _ _ _ _ _ Es) by lia.
      rewrite (at_lookup w), lookup_tab by lia. reflexivity. }
  unfold lin. destruct bias as [b|]; [|done].
  cbn in Hb. rewrite at_lookup by lia. done.
Qed.

Lemma linear_thread_spec n : ∀ r o xr, o < out_dim → r * out_dim + o + n ≤ rows * out_dim →
  (n = 0 ∨ xr = tab in_dim (X r)) →
  linear_thread w bias x rows in_dim out_dim n r o xr = Some (tab n (λ j, E (r * out_dim + o + j))).
Proof.
  induction n as [|n IH]; intros r o xr Ho Hn Hxr; [done|].
  destruct Hxr as [| ->]; [done|]. cbn [linear_thread].
  rewrite linear_elem_spec by done. cbn [mbind option_bind].
  rewrite tab_cons. destruct (row_coords out_dim r o Ho) as [Hr' Ho'].
  assert (E (r * out_dim + o + 0) = lin w bias in_dim (X r) o) as ->.
  { unfold E. by rewrite Nat.add_0_r, Hr', Ho'. }
  assert (∀ r' o' xr', o' < out_dim → r' * out_dim + o' = S (r * out_dim + o) →
    n = 0 ∨ xr' = tab in_dim (X r') →
    linear_thread w bias x rows in_dim out_dim n r' o' xr'
      = Some (tab n (λ i, E (r * out_dim + o + S i)))) as Hnext.
  { intros r' o' xr' Hlt Heq Hx. rewrite IH by (done || lia). f_equal. apply tab_ext.
    intros i Hi. f_equal. lia. }
  case_decide as Hwrap; [case_decide as Hr|].
  - unfold x. rewrite slice_flat2 by done. cbn [mbind option_bind].
    rewrite Hnext by (lia || by right). done.
  - cbn [mbind option_bind]. rewrite Hnext; [done|lia..|]. left. nia.
  - cbn [mbind option_bind]. rewrite Hnext by (lia || by right). done.
Qed.

(** Cutting an index range into chunks and joining them again. *)
Lemma chunks_concat {A} chunk items m (e : nat → A) :
  concat (tab m (λ ci, tab (chunk `min` (items - ci * chunk)) (λ j, e (ci * chunk + j))))
  = tab (items `min` (m * chunk)) e.
Proof.
  induction m as [|m IH]; [by rewrite Nat.min_0_r|].
  rewrite tab_S, concat_app, IH. cbn [concat]. rewrite app_nil_r.
  destruct (Nat.le_gt_cases items (m * chunk)).
  - replace (chunk `min` (items - m * chunk)) with 0 by lia.
    rewrite !Nat.min_l by lia. by rewrite app_nil_r.
  - rewrite (Nat.min_r items) by lia.
    replace (items `min` (S m * chunk)) with (m * chunk + chunk `min` (items - m * chunk)) by lia.
    by rewrite tab_app.
Qed.

Lemma linear_spec_at hw :
  linear hw w bias x rows in_dim out_dim = Some (flat2 rows out_dim (λ r, lin w bias in_dim (X r))).
Proof using Hw Hb.
  unfold linear. rewrite !assert_true by (done || apply length_flat2).
  cbn [mbind option_bind].
  case_decide as Hz.
  { f_equal. rewrite replicate_tab, flat2_tab. apply tab_ext. intros i Hi. nia. }
  case_decide as Ht.
  { apply collect_rows_flat2. intros r Hr. unfold x. rewrite slice_flat2 by done.
    cbn [mbind option_bind]. apply collect_tab. intros. by apply linear_elem_spec. }
  set (items := rows * out_dim). set (nt := linear_threads hw rows in_dim out_dim) in *.
  set (chunk := Z.to_nat (div_ceil (Z.of_nat items) nt `max` 1)%Z). set (m := Z.to_nat (div_ceil _ (Z.of_nat chunk))).
  assert (0 < chunk) as Hc by (unfold chunk; lia).
  pose proof (div_ceil_spec (Z.of_nat items) (Z.of_nat chunk) ltac:(lia)) as Hm.
  pose proof (div_ceil_nonneg (Z.of_nat items) (Z.of_nat chunk) ltac:(lia) ltac:(lia)) as Hm0.
  unfold collect_rows.
  rewrite (collect_tab m _ (λ ci, tab (chunk `min` (items - ci * chunk)) (λ j, E (ci * chunk + j)))).
  - cbn [mbind option_bind]. rewrite chunks_concat, flat2_tab. do 2 f_equal.
    assert (items ≤ m * chunk) by (unfold m; nia). lia.
  - intros ci Hci.
    assert (ci * chunk < items) as Hlt by (unfold m in Hci; nia).
    assert (0 < out_dim) by lia.
    destruct (coords _ _ _ Hlt) as (r & o & Hr & Ho & Heq).
    destruct (row_coords out_dim r o Ho) as [Hr' Ho']. rewrite Heq, Hr', Ho'.
    assert (slice_at x (r * in_dim) (r * in_dim + in_dim) = Some (tab in_dim (X r))) as ->
      by (by apply slice_flat2).
    cbn [mbind option_bind].
    rewrite linear_thread_spec by (by right || done || lia).
    f_equal.
Qed.
End linear.

(** The product of the declared sizes is the reference, row by row, and so the
    same for every number of threads. *)
Lemma linear_spec hw w bias x rows in_dim out_dim X :
  length w = out_dim * in_dim → bias_ok bias out_dim → x = flat2 rows in_dim X →
  linear hw w bias x rows in_dim out_dim = Some (flat2 rows out_dim (λ r, lin w bias in_dim (X r))).
Proof. intros Hw Hb ->. by apply linear_spec_at. Qed.

(** ** Norms *)

Section norms.
Context `{Libm}.

Definition norm1 (w : vec) (dim : nat) (eps : f32) (X : nat → f32) (i : nat) : f32 :=
  F32.mul (F32.mul (X i) (rms_inv (tab dim X) dim eps)) (F32.add f1 (at_ w i)).

Definition norm_gated (w : vec) (dim : nat) (eps : f32) (X Z : nat → f32) (i : nat) : f32 :=
  F32.mul (F32.mul (at_ w i) (F32.mul (X i) (rms_inv (tab dim X) dim eps))) (silu (Z i)).

Lemma rmsnorm_1plus_spec w x rows dim eps X : length w = dim → x = flat2 rows dim X →
  rmsnorm_1plus w x rows dim eps = Some (flat2 rows dim (λ r, norm1 w dim eps (X r))).
Proof.
  intros Hw ->. unfold rmsnorm_1plus. rewrite !assert_true by (done || apply length_flat2).
  cbn [mbind option_bind]. apply collect_rows_flat2. intros r Hr.
  rewrite slice_flat2 by done. cbn [mbind option_bind]. apply collect_tab. intros i Hi.
  by rewrite lookup_tab, at_lookup by lia.
Qed.

Lemma rmsnorm_gated_spec w x z rows dim eps X Z :
  length w = dim → x = flat2 rows dim X → z = flat2 rows dim Z →
  rmsnorm_gated w x z rows dim eps
    = Some (flat2 rows dim (λ r, norm_gated w dim eps (X r) (Z r))).
Proof.
  intros Hw -> ->. unfold rmsnorm_gated. rewrite !assert_true by (done || apply length_flat2).
  cbn [mbind option_bind]. apply collect_rows_flat2. intros r Hr.
  rewrite !slice_flat2 by done. cbn [mbind option_bind]. apply collect_tab. intros i Hi.
  by rewrite !lookup_tab, at_lookup by lia.
Qed.

Lemma norm1_ext w dim eps X Y i : (∀ i, i < dim → X i = Y i) → i < dim →
  norm1 w dim eps X i = norm1 w dim eps Y i.
Proof. intros Hxy Hi. unfold norm1. by rewrite (tab_ext dim X Y), Hxy by done. Qed.

(** ** The causal convolution *)

(** The window a channel slides over: the carried context, then the chunk. *)
Definition window (keep : nat) (left chunk : nat → f32) (i : nat) : f32 :=
  if decide (i < keep) then left i else chunk (i - keep).

Definition conv_at (w : vec) (bias : option vec) (k c : nat) (full : nat → f32) (ti : nat) : f32 :=
  let acc := foldl (λ acc ki, F32.add acc (F32.mul (at_ w (c * k + ki)) (full (ti + ki))))
               fzero (seq 0 k) in
  silu (match bias with Some b => F32.add acc (at_ b c) | None => acc end).

(** A state that may be absent stands for zeros. *)
Definition state_is (st : option vec) (b n m : nat) (S : nat → nat → nat → f32) : Prop :=
  match st with
  | Some l => l = flat3 b n m S
  | None => ∀ i j k, S i j k = fzero
  end.

Section conv.
Context (w : vec) (bias : option vec) (b channels t k : nat) (st : option vec).
Context (X S : nat → nat → nat → f32).
Context (Hw : length w = channels * k) (Hb : bias_ok bias channels).
Context (Hst : state_is st b channels (k - 1) S) (Hk : 0 < k).
Let keep := k - 1.
Let full bi c := window keep (S bi c) (X bi c).

Lemma conv_channel_spec bi c : bi < b → c < channels →
  conv_channel w bias (flat3 b channels t X) channels t k keep st bi c
  = Some (tab t (conv_at w bias k c (full bi c)), tab keep (λ i, full bi c (t + i))).
Proof.
  intros Hbi Hc. unfold conv_channel.
  assert (c * k + k ≤ length w) as Hwk by nia.
  destruct (slice_at w (c * k) (c * k + k)) as [wc|] eqn:Ew;
    [|unfold slice_at in Ew; case_decide; [done|lia]]. cbn [mbind option_bind].
  assert (length wc = k) as Hwc by (rewrite (slice_at_length _ _ _ _ Ew); lia).
  assert (match st with
          | Some st => slice_at st ((bi * channels + c) * keep) ((bi * channels + c) * keep + keep)
          | None => Some (replicate keep fzero)
          end = Some (tab keep (S bi c))) as ->.
  { destruct st as [l|]; cbn in Hst; [subst l; by apply slice_flat3|].
    rewrite replicate_tab. f_equal. apply tab_ext. intros. by rewrite Hst. }
  cbn [mbind option_bind]. rewrite slice_flat3 by done. cbn [mbind option_bind].
  assert (tab keep (S bi c) ++ tab t (X bi c) = tab (keep + t) (full bi c)) as ->.
  { rewrite tab_app. f_equal; apply tab_ext; intros i Hi; unfold full, window.
    - by rewrite decide_True.
    - rewrite decide_False by lia. f_equal. lia. }
  rewrite (collect_tab t _ (conv_at w bias k c (full bi c))).
  - cbn [mbind option_bind]. rewrite slice_tab by lia. cbn [mbind option_bind].
    do 3 f_equal. lia.
  - intros ti Hti. erewrite for_foldl.
    2:{ intros ki acc Hki. rewrite (slice_at_lookup _ _ _ _ _ Ew), (at_lookup w) by lia.
        rewrite lookup_tab by (unfold keep; lia). cbn [mbind option_bind]. reflexivity. }
    cbn [mbind option_bind]. unfold conv_at. rewrite Hwc.
    destruct bias as [bb|]; [|done]. cbn in Hb. rewrite at_lookup by lia. done.
Qed.

Lemma conv_forward_spec :
  conv_forward w bias (flat3 b channels t X) b channels t k st
  = Some (flat3 b channels t (λ bi c, conv_at w bias k c (full bi c)),
          flat3 b channels keep (λ bi c i, full bi c (t + i))).
Proof using Hw Hb Hst Hk.
  unfold conv_forward. rewrite !assert_true by (done || apply length_flat3).
  cbn [mbind option_bind].
  assert (match st with Some st => assert_ (length st = b * channels * (k - 1)) | None => Some () end
    = Some ()) as ->.
  { destruct st as [l|]; [|done]. cbn in Hst. subst l. apply assert_true, length_flat3. }
  cbn [mbind option_bind].
  erewrite (collect_rows_flat2 b channels); [cbn [mbind option_bind]|].
  2:{ intros bi Hbi. apply collect_tab. intros c Hc. by apply conv_channel_spec. }
  assert (∀ {A B} (f : nat → nat → A) (g : A → B),
    g <$> flat2 b channels f = flat2 b channels (λ i j, g (f i j))) as Hmap.
  { intros. rewrite !flat2_tab. unfold tab. by rewrite <- list_fmap_compose. }
  assert (∀ {A} n (f : nat → nat → nat → A),
    concat (flat2 b channels (λ i j, tab n (f i j))) = flat3 b channels n f) as Hcat.
  { intros. rewrite flat3_rows, flat2_tab. done. }
  rewrite !Hmap. cbn [fst snd]. by rewrite !Hcat.
Qed.
End conv.

(** Cutting the sequence: the second chunk, run from the context the first one
    leaves, slides over the rest of the same window. *)
Lemma window_split keep left chunk t i :
  window keep (λ i, window keep left chunk (t + i)) (λ i, chunk (t + i)) i
  = window keep left chunk (t + i).
Proof.
  unfold window. repeat case_decide; try lia; try done; f_equal; lia.
Qed.

Lemma conv_at_ext w bias k c full full' ti ti' :
  (∀ i, i < k → full (ti + i) = full' (ti' + i)) →
  conv_at w bias k c full ti = conv_at w bias k c full' ti'.
Proof.
  intros Hf. unfold conv_at.
  rewrite (foldl_ext_elem _ (λ acc ki,
    F32.add acc (F32.mul (at_ w (c * k + ki)) (full' (ti' + ki))))); [done|].
  intros a i Hi%elem_of_seq. by rewrite Hf by lia.
Qed.
End norms.

(** ** Layout *)

Lemma btc_to_bct_spec b t c (X : nat → nat → nat → f32) :
  btc_to_bct (flat3 b t c X) b t c = Some (flat3 b c t (λ bi ci ti, X bi ti ci)).
Proof.
  unfold btc_to_bct. rewrite assert_true by apply length_flat3. cbn [mbind option_bind].
  set (T := flat3 b c t _).
  edestruct (for_agrees T) as (l & -> & Hl); [|apply agrees_start|].
  - intros bi l D Hbi HD. eapply for_agrees; [|exact HD]. clear l D HD. intros ti l D Hti HD.
    eapply for_agrees; [|exact HD]. clear l D HD. intros ci l D Hci HD. cbn beta.
    rewrite lookup_flat3 by done. cbn [mbind option_bind].
    eapply agrees_store; [exact HD|]. unfold T. by rewrite lookup_flat3.
  - rewrite length_replicate. unfold T. by rewrite length_flat3.
  - f_equal. eapply agrees_all; [exact Hl|]. intros i Hi. right.
    unfold T in Hi. rewrite length_flat3 in Hi.
    destruct (coords _ _ _ Hi) as (r & ti & Hr & Hti & ->).
    destruct (coords _ _ _ Hr) as (bi & ci & Hbi & Hci & ->). eauto 10.
Qed.

Lemma bct_to_btc_spec b c t (X : nat → nat → nat → f32) :
  bct_to_btc (flat3 b c t X) b c t = Some (flat3 b t c (λ bi ti ci, X bi ci ti)).
Proof.
  unfold bct_to_btc. rewrite assert_true by apply length_flat3. cbn [mbind option_bind].
  set (T := flat3 b t c _).
  edestruct (for_agrees T) as (l & -> & Hl); [|apply agrees_start|].
  - intros bi l D Hbi HD. eapply for_agrees; [|exact HD]. clear l D HD. intros ci l D Hci HD.
    eapply for_agrees; [|exact HD]. clear l D HD. intros ti l D Hti HD. cbn beta.
    rewrite lookup_flat3 by done. cbn [mbind option_bind].
    eapply agrees_store; [exact HD|]. unfold T. by rewrite lookup_flat3.
  - rewrite length_replicate. unfold T. by rewrite length_flat3.
  - f_equal. eapply agrees_all; [exact Hl|]. intros i Hi. right.
    unfold T in Hi. rewrite length_flat3 in Hi.
    destruct (coords _ _ _ Hi) as (r & ti & Hr & Hti & ->).
    destruct (coords _ _ _ Hr) as (bi & ci & Hbi & Hci & ->). eauto 10.
Qed.

(** Head [h] becomes the heads [h * ratio .. h * ratio + ratio - 1]. *)
Lemma repeat_interleave_heads_spec b t h d ratio (X : nat → nat → nat → f32) : 0 < ratio →
  repeat_interleave_heads (flat3 (b * t) h d X) b t h d ratio
  = Some (flat3 (b * t) (h * ratio) d (λ r hh, X r (hh / ratio))).
Proof.
  intros Hr. unfold repeat_interleave_heads. case_decide as H1.
  { subst ratio. f_equal. rewrite Nat.mul_1_r. apply flat3_ext. intros. by rewrite Nat.div_1_r. }
  set (T := flat3 (b * t) (h * ratio) d _).
  edestruct (for_agrees T) as (l & -> & Hl); [|apply agrees_start|].
  - intros bi l D Hbi HD. eapply for_agrees; [|exact HD]. clear l D HD. intros ti l D Hti HD.
    eapply for_agrees; [|exact HD]. clear l D HD. intros hi l D Hhi HD.
    eapply for_agrees; [|exact HD]. clear l D HD. intros rep l D Hrep HD. cbn beta.
    assert (bi * t + ti < b * t) by (by apply coords_bound).
    assert (hi * ratio + rep < h * ratio) by (by apply coords_bound).
    rewrite slice_flat3 by done. cbn [mbind option_bind].
    eapply agrees_copy; [exact HD|]. rewrite length_tab. unfold T.
    rewrite <- Nat.add_assoc, slice_flat3 by done.
    by destruct (row_coords ratio hi rep Hrep) as [-> _].
  - rewrite length_replicate. unfold T. rewrite length_flat3. lia.
  - f_equal. eapply agrees_all; [exact Hl|]. intros i Hi. right.
    unfold T in Hi. rewrite length_flat3 in Hi.
    destruct (coords _ _ _ Hi) as (r & j & Hr' & Hj & ->).
    destruct (coords _ _ _ Hr') as (bt & hh & Hbt & Hhh & ->).
    destruct (coords _ _ _ Hbt) as (bi & ti & Hbi & Hti & ->).
    destruct (coords _ _ _ Hhh) as (hi & rep & Hhi & Hrep & ->).
    exists bi. split; [done|]. exists ti. split; [done|]. exists hi. split; [done|].
    exists rep. split; [done|]. rewrite length_tab. lia.
Qed.

(** C33. A matrix product does not depend on the number of threads the machine
    offers: every element is the serial [f64] sum, rounded once. *)
Theorem linear_any_threads hw hw' w bias x rows in_dim out_dim :
  length w = out_dim * in_dim → bias_ok bias out_dim → length x = rows * in_dim →
  linear hw w bias x rows in_dim out_dim = linear hw' w bias x rows in_dim out_dim ∧
  ∃ y, linear hw w bias x rows in_dim out_dim = Some y ∧ length y = rows * out_dim ∧
    ∀ r o, r < rows → o < out_dim →
      y !! (r * out_dim + o) = Some (lin w bias in_dim (λ i, at_ x (r * in_dim + i)) o).
Proof.
  intros Hw Hb Hx. pose proof (to_flat2 x rows in_dim Hx) as E.
  rewrite (linear_spec hw w bias x rows in_dim out_dim _ Hw Hb E).
  rewrite (linear_spec hw' w bias x rows in_dim out_dim _ Hw Hb E).
  split; [done|]. eexists. split; [done|]. split; [apply length_flat2|].
  intros r o Hr Ho. by rewrite lookup_flat2 by done.
Qed.
