(* ===== verification/Delta.v ===== *)
(** * The gated delta rule

    Models qwen35-forward/delta/src/lib.rs: the recurrence over a flat
    [B, H, K, V] state that is updated in place, time step by time step. *)

From stdpp Require Import list.
From S2P Require Import Prelude Float Tensor.
#[local] Open Scope nat_scope.

(** [1e-6f32]; also the crate's [EPS]. *)
Definition EPS : f32 := S754_finite false 8796093 (-43).
Example EPS_rounds : EPS = to_f32 (dec_to_f64 false 1 (-6)).
Proof. vm_compute. reflexivity. Qed.

(** L2-normalise every row of [d] values, in place. *)
Definition l2norm_last_dim (buf : vec) (rows d : nat) (eps : f32) : option vec :=
  for_ rows (λ r buf,
    let base := r * d in
    ss ← for_ d (λ i ss, v ← buf !! (base + i); Some (F32.add ss (F32.mul v v))) fzero;
    let inv := F32.div f1 (F32.sqrt (F32.add ss eps)) in
    for_ d (λ i buf, v ← buf !! (base + i); store buf (base + i) (F32.mul v inv)) buf) buf.

Definition prepare_qk (q k : vec) (b t h d : nat) : option (vec * vec) :=
  let rows := b * t * h in
  q ← l2norm_last_dim q rows d EPS;
  k ← l2norm_last_dim k rows d EPS;
  let scale := F32.div f1 (F32.sqrt (f32_of_nat d)) in
  Some (map (λ v, F32.mul v scale) q, k).

Record Shape := mkShape { sh_b : nat; sh_t : nat; sh_h : nat; sh_k : nat; sh_v : nat }.

Definition idx4 (s : Shape) (bi ti hi d dsz : nat) : nat :=
  ((bi * sh_t s + ti) * sh_h s + hi) * dsz + d.
Definition idx_state (s : Shape) (bi hi ki vi : nat) : nat :=
  ((bi * sh_h s + hi) * sh_k s + ki) * sh_v s + vi.

Definition validate_operands (s : Shape) (q k v g beta : vec) : option unit :=
  let want_qk := sh_b s * sh_t s * sh_h s * sh_k s in
  let want_v := sh_b s * sh_t s * sh_h s * sh_v s in
  let want_gb := sh_b s * sh_t s * sh_h s in
  _ ← assert_ (length q = want_qk);
  _ ← assert_ (length k = want_qk);
  _ ← assert_ (length v = want_v);
  _ ← assert_ (length g = want_gb);
  assert_ (length beta = want_gb).

Section forward.
Context `{Libm} (s : Shape) (q k v g beta : vec).

(** The body of the three loops, for batch entry [bi], time [ti], head [hi]. *)
Definition delta_step (bi ti hi : nat) (st : vec * vec) : option (vec * vec) :=
  let '(out, state) := st in
  g_t ← g !! ((bi * sh_t s + ti) * sh_h s + hi);
  let g_t := fexp g_t in
  beta_t ← beta !! ((bi * sh_t s + ti) * sh_h s + hi);
  (* state = state * g_t *)
  state ← for_ (sh_k s) (λ ki, for_ (sh_v s) (λ vi state,
    let si := idx_state s bi hi ki vi in
    x ← state !! si; store state si (F32.mul x g_t))) state;
  (* kv_mem[vi] = sum_ki state[ki, vi] * k_t[ki] *)
  kv_mem ← for_ (sh_k s) (λ ki kv_mem,
    kkv ← k !! idx4 s bi ti hi ki (sh_k s);
    for_ (sh_v s) (λ vi kv_mem,
      m ← kv_mem !! vi; x ← state !! idx_state s bi hi ki vi;
      store kv_mem vi (F32.add m (F32.mul x kkv))) kv_mem) (replicate (sh_v s) fzero);
  (* delta[vi] = (v_t[vi] - kv_mem[vi]) * beta_t *)
  delta ← collect (sh_v s) (λ vi,
    vv ← v !! idx4 s bi ti hi vi (sh_v s);
    m ← kv_mem !! vi;
    Some (F32.mul (F32.sub vv m) beta_t));
  (* state[ki, vi] += k_t[ki] * delta[vi] *)
  state ← for_ (sh_k s) (λ ki state,
    kkv ← k !! idx4 s bi ti hi ki (sh_k s);
    let sbase := idx_state s bi hi ki 0 in
    for_ (sh_v s) (λ vi state,
      d ← delta !! vi; x ← state !! (sbase + vi);
      store state (sbase + vi) (F32.add x (F32.mul kkv d))) state) state;
  (* out_t[vi] = sum_ki state[ki, vi] * q_t[ki] *)
  out ← for_ (sh_k s) (λ ki out,
    qq ← q !! idx4 s bi ti hi ki (sh_k s);
    for_ (sh_v s) (λ vi out,
      let oi := idx4 s bi ti hi vi (sh_v s) in
      o ← out !! oi; x ← state !! idx_state s bi hi ki vi;
      store out oi (F32.add o (F32.mul x qq))) out) out;
  Some (out, state).

(** Returns the outputs and the final state. *)
Definition delta_forward (state : vec) : option (vec * vec) :=
  _ ← validate_operands s q k v g beta;
  let want_state := sh_b s * sh_h s * sh_k s * sh_v s in
  _ ← assert_ (length state = want_state);
  let out := replicate (sh_b s * sh_t s * sh_h s * sh_v s) fzero in
  for_ (sh_b s) (λ bi, for_ (sh_t s) (λ ti, for_ (sh_h s) (delta_step bi ti))) (out, state).
End forward.

Section prepared.
Context `{Libm}.

Definition forward_prepared_into (s : Shape) (q_in k_in v g beta state : vec) :
    option (vec * vec) :=
  _ ← validate_operands s q_in k_in v g beta;
  let want := sh_b s * sh_h s * sh_k s * sh_v s in
  _ ← assert_ (length state = want);
  '(q, k) ← prepare_qk q_in k_in (sh_b s) (sh_t s) (sh_h s) (sh_k s);
  delta_forward s q k v g beta state.

Definition forward_prepared (s : Shape) (q_in k_in v g beta : vec) : option (vec * vec) :=
  let state := replicate (sh_b s * sh_h s * sh_k s * sh_v s) fzero in
  forward_prepared_into s q_in k_in v g beta state.
End prepared.
