(* ===== verification/DeltaProps.v ===== *)
(** * The delta rule as a recurrence per head

    The loops over the flat state compute, for every head, the recurrence of
    the module comment; running a sequence in two pieces with the state
    carried over computes the same outputs and state as running it once. *)

From stdpp Require Import list.
From S2P Require Import Prelude Float Tensor Linear LinearProps Delta.
#[local] Open Scope nat_scope.
#[local] Opaque F32.add F32.sub F32.mul F32.div F32.sqrt to_f32 to_f64 f32_of_nat.

(** ** Updating flat tensors *)

Lemma store_flat2 {A} n m (f : nat → nat → A) i j x : i < n → j < m →
  store (flat2 n m f) (i * m + j) x
  = Some (flat2 n m (λ i' j', if decide (i' = i ∧ j' = j) then x else f i' j')).
Proof.
  intros Hi Hj. rewrite store_Some by (rewrite length_flat2; by apply coords_bound). f_equal.
  apply list_flat2; [by rewrite length_insert, length_flat2|]. intros i' j' Hi' Hj'.
  case_decide as Hd.
  - destruct Hd as [-> ->]. apply list_lookup_insert_eq. rewrite length_flat2. by apply coords_bound.
  - rewrite list_lookup_insert_ne; [by apply lookup_flat2|].
    intros Heq. apply Hd. destruct (coords_inj m i j i' j' Hj Hj' Heq). done.
Qed.

Lemma store_flat3 {A} n m k (f : nat → nat → nat → A) i j c x : i < n → j < m → c < k →
  store (flat3 n m k f) ((i * m + j) * k + c) x
  = Some (flat3 n m k (λ i' j' c', if decide (i' = i ∧ j' = j ∧ c' = c) then x else f i' j' c')).
Proof.
  intros Hi Hj Hc. rewrite flat3_rows, store_flat2 by (done || by apply coords_bound). f_equal.
  rewrite flat3_rows. apply flat2_ext. intros r c' Hr Hc'.
  destruct (coords _ _ _ Hr) as (i' & j' & Hi' & Hj' & ->).
  destruct (row_coords m i' j' Hj') as [-> ->].
  repeat case_decide; try done; exfalso; [|naive_solver].
  destruct (coords_inj m i' j' i j) as [-> ->]; naive_solver.
Qed.

(** Every entry of block [r] is replaced from what it holds. *)
Lemma block_update n K V r (S : nat → nat → nat → f32) f (F : nat → nat → f32 → f32) : r < n →
  (∀ ki vi l x, ki < K → vi < V → l !! ((r * K + ki) * V + vi) = Some x →
    f ki vi l = store l ((r * K + ki) * V + vi) (F ki vi x)) →
  for_ K (λ ki, for_ V (f ki)) (flat3 n K V S)
  = Some (flat3 n K V (λ r' ki vi, if decide (r' = r) then F ki vi (S r ki vi) else S r' ki vi)).
Proof.
  intros Hr Hf.
  set (st2 := λ ki vi, flat3 n K V (λ r' i j,
    if decide (r' = r ∧ (i < ki ∨ (i = ki ∧ j < vi))) then F i j (S r i j) else S r' i j)).
  assert (∀ ki, ki < K → for_ V (f ki) (st2 ki 0) = Some (st2 ki V)) as Hrow.
  { intros ki Hki. apply (for_states (st2 ki)). intros vi Hvi. unfold st2 at 1.
    rewrite (Hf ki vi _ (S r ki vi)); [|done..|].
    - unfold st2. rewrite store_flat3 by done. f_equal. apply flat3_ext. intros.
      repeat case_decide; try done; try lia; naive_solver lia.
    - rewrite lookup_flat3 by done. by rewrite decide_False by lia. }
  rewrite (flat3_ext _ _ _ S (λ r' i j,
    if decide (r' = r ∧ (i < 0 ∨ (i = 0 ∧ j < 0))) then F i j (S r i j) else S r' i j)).
  2:{ intros. by rewrite decide_False by lia. }
  change (flat3 n K V _) with (st2 0 0) at 1.
  rewrite (for_states (λ ki, st2 ki 0) K); [|intros ki Hki; rewrite Hrow by done].
  - f_equal. unfold st2. apply flat3_ext. intros. repeat case_decide; try done; try lia; naive_solver lia.
  - f_equal. unfold st2. apply flat3_ext. intros. repeat case_decide; try done; lia.
Qed.

(** Row [r] accumulates, round after round. *)
Lemma row_accumulate n K V r (O : nat → nat → f32) f (F : nat → nat → f32 → f32) : r < n →
  (∀ ki vi l x, ki < K → vi < V → l !! (r * V + vi) = Some x →
    f ki vi l = store l (r * V + vi) (F ki vi x)) →
  for_ K (λ ki, for_ V (f ki)) (flat2 n V O)
  = Some (flat2 n V (λ r' vi, if decide (r' = r)
      then foldl (λ m ki, F ki vi m) (O r vi) (seq 0 K) else O r' vi)).
Proof.
  intros Hr Hf.
  set (acc := λ ki vi, foldl (λ m ki, F ki vi m) (O r vi) (seq 0 ki)).
  set (st2 := λ ki vi, flat2 n V (λ r' j,
    if decide (r' = r) then (if decide (j < vi) then acc (S ki) j else acc ki j) else O r' j)).
  assert (∀ ki j, acc (S ki) j = F ki j (acc ki j)) as Hacc.
  { intros. unfold acc. by rewrite seq_S, foldl_app. }
  assert (∀ ki, ki < K → for_ V (f ki) (st2 ki 0) = Some (st2 ki V)) as Hrow.
  { intros ki Hki. apply (for_states (st2 ki)). intros vi Hvi. unfold st2 at 1.
    rewrite (Hf ki vi _ (acc ki vi)); [|done..|].
    - unfold st2. rewrite store_flat2 by done. f_equal. apply flat2_ext. intros i j Hi Hj.
      repeat case_decide; try done; try lia; naive_solver lia.
    - rewrite lookup_flat2 by done. by rewrite decide_True, decide_False by lia. }
  trans (for_ K (λ ki, for_ V (f ki)) (st2 0 0)).
  { f_equal. unfold st2. apply flat2_ext. intros. repeat case_decide; try lia; subst; done. }
  rewrite (for_states (λ ki, st2 ki 0) K); [|intros ki Hki; rewrite Hrow by done].
  - done.
  - f_equal. unfold st2. apply flat2_ext. intros. repeat case_decide; try done; lia.
Qed.

(** ** The recurrence of one head *)

Section head.
Context `{Libm} (K : nat).

(** One time step: key, query and value rows, log decay, rate, state. *)
Record Token := mkToken {
  tk_q : nat → f32; tk_k : nat → f32; tk_v : nat → f32; tk_g : f32; tk_beta : f32 }.
Abbreviation matrix := (nat → nat → f32).

Definition decayed (x : Token) (S : matrix) : matrix := λ ki vi, F32.mul (S ki vi) (fexp (tk_g x)).
Definition recall (x : Token) (S : matrix) (vi : nat) : f32 :=
  foldl (λ m ki, F32.add m (F32.mul (decayed x S ki vi) (tk_k x ki))) fzero (seq 0 K).
Definition correction (x : Token) (S : matrix) (vi : nat) : f32 :=
  F32.mul (F32.sub (tk_v x vi) (recall x S vi)) (tk_beta x).
Definition advance (x : Token) (S : matrix) : matrix := λ ki vi,
  F32.add (decayed x S ki vi) (F32.mul (tk_k x ki) (correction x S vi)).
Definition read_out (x : Token) (S : matrix) (vi : nat) : f32 :=
  foldl (λ m ki, F32.add m (F32.mul (advance x S ki vi) (tk_q x ki))) fzero (seq 0 K).

(** The state before step [n]. *)
Fixpoint state_at (xs : nat → Token) (S : matrix) (n : nat) : matrix :=
  match n with O => S | Datatypes.S n => advance (xs n) (state_at xs S n) end.
Definition out_at (xs : nat → Token) (S : matrix) (n : nat) : nat → f32 :=
  read_out (xs n) (state_at xs S n).

(** Cutting a sequence. *)
Lemma state_at_add xs S n m :
  state_at xs S (n + m) = state_at (λ i, xs (n + i)) (state_at xs S n) m.
Proof. induction m as [|m IH]; [by rewrite Nat.add_0_r|]. rewrite Nat.add_succ_r. cbn. by rewrite IH. Qed.

Lemma out_at_add xs S n m :
  out_at xs S (n + m) = out_at (λ i, xs (n + i)) (state_at xs S n) m.
Proof. unfold out_at. by rewrite state_at_add. Qed.
End head.

(** ** The loops compute it *)

Section forward.
Context `{Libm} (b t h K V : nat).
Context (Q Kk Vv : nat → nat → nat → f32) (G B : nat → nat → f32).
Let s := mkShape b t h K V.
Let q := flat3 (b * t) h K Q.
Let k := flat3 (b * t) h K Kk.
Let v := flat3 (b * t) h V Vv.
Let g := flat2 (b * t) h G.
Let beta := flat2 (b * t) h B.

(** Head [r = bi * h + hi] over time. *)
Definition head_tokens (r ti : nat) : Token :=
  let bt := r / h * t + ti in
  let hi := r mod h in
  mkToken (Q bt hi) (Kk bt hi) (Vv bt hi) (G bt hi) (B bt hi).

Context (S0 : nat → nat → nat → f32).
Definition head_state (r n : nat) : nat → nat → f32 := state_at K (head_tokens r) (S0 r) n.
Definition head_out (r n : nat) : nat → f32 := out_at K (head_tokens r) (S0 r) n.

(** The vectors when head [r] has done [cnt r] steps. *)
Definition outs (cnt : nat → nat) : vec := flat3 (b * t) h V (λ bt hi vi,
  let r := bt / t * h + hi in
  if decide (bt mod t < cnt r) then head_out r (bt mod t) vi else fzero).
Definition states (cnt : nat → nat) : vec := flat3 (b * h) K V (λ r, head_state r (cnt r)).

Lemma delta_step_spec bi ti hi cnt : bi < b → ti < t → hi < h →
  cnt (bi * h + hi) = ti →
  delta_step s q k v g beta bi ti hi (outs cnt, states cnt)
  = Some (outs (λ r, if decide (r = bi * h + hi) then S ti else cnt r),
          states (λ r, if decide (r = bi * h + hi) then S ti else cnt r)).
Proof.
  intros Hbi Hti Hhi Hcnt.
  assert (bi * t + ti < b * t) as Hbt by (by apply coords_bound).
  assert (bi * h + hi < b * h) as Hr by (by apply coords_bound).
  destruct (row_coords h bi hi Hhi) as [Hrd Hrm].
  destruct (row_coords t bi ti Hti) as [Htd Htm].
  unfold delta_step, idx4, idx_state, s. cbn [sh_b sh_t sh_h sh_k sh_v].
  unfold g, beta. rewrite !lookup_flat2 by done. cbn [mbind option_bind].
  set (r := bi * h + hi) in *. set (x := head_tokens r ti).
  set (Sr := head_state r ti).
  assert (states cnt = flat3 (b * h) K V (λ r, head_state r (cnt r))) as -> by done.
  (* decay *)
  erewrite (block_update (b * h) K V r); [|done|].
  2:{ intros ki vi l y Hki Hvi Hy. cbn beta. rewrite Hy. cbn [mbind option_bind].
      instantiate (1 := λ _ _ y, F32.mul y (fexp (tk_g x))). unfold x, head_tokens.
      cbn [tk_g]. by rewrite Hrd, Hrm. }
  cbn [mbind option_bind]. set (st1 := flat3 (b * h) K V _).
  assert (∀ ki vi, ki < K → vi < V → st1 !! ((r * K + ki) * V + vi) = Some (decayed x Sr ki vi)) as Hst1.
  { intros. unfold st1. rewrite lookup_flat3 by done. rewrite decide_True by done. by rewrite Hcnt. }
  assert (∀ ki, ki < K → k !! (((bi * t + ti) * h + hi) * K + ki) = Some (tk_k x ki)) as Hk.
  { intros. unfold k. rewrite lookup_flat3 by done. unfold x, head_tokens. cbn. by rewrite Hrd, Hrm. }
  assert (∀ ki, ki < K → q !! (((bi * t + ti) * h + hi) * K + ki) = Some (tk_q x ki)) as Hq.
  { intros. unfold q. rewrite lookup_flat3 by done. unfold x, head_tokens. cbn. by rewrite Hrd, Hrm. }
  (* recall *)
  assert (for_ K (λ ki kv_mem,
      kkv ← k !! (((bi * t + ti) * h + hi) * K + ki);
      for_ V (λ vi kv_mem, m ← kv_mem !! vi; x0 ← st1 !! ((r * K + ki) * V + vi);
        store kv_mem vi (F32.add m (F32.mul x0 kkv))) kv_mem) (replicate V fzero)
    = Some (tab V (recall K x Sr))) as ->.
  { assert (replicate V fzero = flat2 1 V (λ _ _, fzero)) as ->.
    { rewrite replicate_tab. unfold flat2. cbn. by rewrite app_nil_r. }
    rewrite (for_ext _ _ (λ ki, for_ V (λ vi kv_mem, m ← kv_mem !! (0 * V + vi);
       store kv_mem (0 * V + vi) (F32.add m (F32.mul (decayed x Sr ki vi) (tk_k x ki)))))).
    2:{ intros ki l Hki. rewrite Hk by done. cbn [mbind option_bind].
        apply for_ext. intros vi l' Hvi. cbn [Nat.mul Nat.add].
        destruct (l' !! vi); [|done]. cbn [mbind option_bind]. by rewrite Hst1 by done. }
    rewrite (row_accumulate 1 K V 0 _ _
      (λ ki vi m, F32.add m (F32.mul (decayed x Sr ki vi) (tk_k x ki)))); [|lia|].
    - f_equal. unfold flat2. cbn. by rewrite app_nil_r.
    - intros ki vi l y Hki Hvi Hy. by rewrite Hy. }
  cbn [mbind option_bind].
  (* correction *)
  rewrite (collect_tab V _ (correction K x Sr)).
  2:{ intros vi Hvi. unfold v. rewrite lookup_flat3 by done. rewrite lookup_tab by done.
      cbn [mbind option_bind]. unfold correction, x, head_tokens. cbn [tk_v tk_beta].
      by rewrite Hrd, Hrm. }
  cbn [mbind option_bind].
  (* advance *)
  rewrite (for_ext K _ (λ ki, for_ V (λ vi state,
    y ← state !! ((r * K + ki) * V + vi);
    store state ((r * K + ki) * V + vi) (F32.add y (F32.mul (tk_k x ki) (correction K x Sr vi)))))).
  2:{ intros ki l Hki. rewrite Hk by done. cbn [mbind option_bind]. apply for_ext.
      intros vi l' Hvi. rewrite lookup_tab by done. cbn [mbind option_bind].
      by rewrite Nat.add_0_r. }
  unfold st1. rewrite (block_update (b * h) K V r _ _
    (λ ki vi y, F32.add y (F32.mul (tk_k x ki) (correction K x Sr vi)))); [|done|].
  2:{ intros ki vi l y Hki Hvi Hy. by rewrite Hy. }
  cbn [mbind option_bind]. set (st2 := flat3 (b * h) K V _).
  assert (∀ ki vi, ki < K → vi < V → st2 !! ((r * K + ki) * V + vi) = Some (advance K x Sr ki vi)) as Hst2.
  { intros. unfold st2. rewrite lookup_flat3 by done. rewrite decide_True by done.
    rewrite decide_True by done. by rewrite Hcnt. }
  assert (st2 = states (λ r', if decide (r' = r) then S ti else cnt r')) as <-.
  { unfold st2, states. apply flat3_ext. intros r' ki vi _ _ _.
    destruct (decide (r' = r)) as [->|]; [|done]. rewrite !decide_True by done.
    unfold head_state. cbn [state_at]. by rewrite Hcnt. }
  (* read out *)
  unfold outs at 1. rewrite flat3_rows.
  rewrite (for_ext K _ (λ ki, for_ V (λ vi out,
    o ← out !! (((bi * t + ti) * h + hi) * V + vi);
    store out (((bi * t + ti) * h + hi) * V + vi)
      (F32.add o (F32.mul (advance K x Sr ki vi) (tk_q x ki)))))).
  2:{ intros ki l Hki. rewrite Hq by done. cbn [mbind option_bind]. apply for_ext.
      intros vi l' Hvi. destruct (l' !! _); [|done]. cbn [mbind option_bind]. by rewrite Hst2 by done. }
  rewrite (row_accumulate (b * t * h) K V ((bi * t + ti) * h + hi) _ _
    (λ ki vi o, F32.add o (F32.mul (advance K x Sr ki vi) (tk_q x ki)))); [|by apply coords_bound|].
  2:{ intros ki vi l y Hki Hvi Hy. by rewrite Hy. }
  cbn [mbind option_bind]. do 2 f_equal. unfold outs. rewrite flat3_rows. apply flat2_ext.
  intros row vi Hrow Hvi. destruct (coords _ _ _ Hrow) as (bt & hi' & Hbt' & Hhi' & ->).
  destruct (row_coords h bt hi' Hhi') as [-> ->].
  destruct (row_coords h (bi * t + ti) hi Hhi) as [-> ->].
  destruct (coords _ _ _ Hbt') as (bi' & ti' & Hbi' & Hti' & ->).
  destruct (row_coords t bi' ti' Hti') as [-> ->]. rewrite Htd, Htm. fold r.
  destruct (decide ((bi' * t + ti') * h + hi' = (bi * t + ti) * h + hi)) as [Heq|Hne].
  - destruct (coords_inj h _ _ _ _ Hhi' Hhi Heq) as [Heq' ->].
    destruct (coords_inj t _ _ _ _ Hti' Hti Heq') as [-> ->]. fold r.
    rewrite (decide_True (P := r = r)) by done.
    rewrite (decide_False (P := ti < cnt r)), (decide_True (P := ti < S ti)) by lia. done.
  - destruct (decide (bi' * h + hi' = r)) as [Heq|]; [|done].
    destruct (coords_inj h _ _ _ _ Hhi' Hhi Heq) as [-> ->]. fold r. rewrite Hcnt.
    assert (ti' ≠ ti) by (intros ->; done).
    repeat case_decide; try done; lia.
Qed.

Lemma outs_ext cnt cnt' : (∀ r, r < b * h → cnt r = cnt' r) → outs cnt = outs cnt'.
Proof.
  intros Hc. unfold outs. apply flat3_ext. intros bt hi vi Hbt Hhi _.
  rewrite Hc; [done|]. destruct (coords _ _ _ Hbt) as (bi & ti & Hbi & Hti & ->).
  destruct (row_coords t bi ti Hti) as [-> _]. by apply coords_bound.
Qed.

Lemma states_ext cnt cnt' : (∀ r, r < b * h → cnt r = cnt' r) → states cnt = states cnt'.
Proof. intros Hc. unfold states. apply flat3_ext. intros. by rewrite Hc. Qed.

(** How far each head is when the loops stand at [bi], [ti], [hi]. *)
Definition progress (bi ti hi r : nat) : nat :=
  if decide (r < bi * h) then t else
  if decide (r < bi * h + hi) then S ti else
  if decide (r < bi * h + h) then ti else 0.

Lemma delta_forward_spec :
  delta_forward s q k v g beta (flat3 (b * h) K V S0)
  = Some (flat3 (b * t) h V (λ bt hi, head_out (bt / t * h + hi) (bt mod t)),
          flat3 (b * h) K V (λ r, head_state r t)).
Proof.
  unfold delta_forward, validate_operands, s. cbn [sh_b sh_t sh_h sh_k sh_v].
  rewrite !assert_true by (unfold q, k, v, g, beta; rewrite ?length_flat3, ?length_flat2; lia).
  cbn [mbind option_bind].
  set (at_ := λ bi ti hi, (outs (progress bi ti hi), states (progress bi ti hi))).
  assert ((replicate (b * t * h * V) fzero, flat3 (b * h) K V S0) = at_ 0 0 0) as ->.
  { unfold at_. f_equal.
    - rewrite replicate_tab. unfold outs. rewrite flat3_rows, flat2_tab. apply tab_ext.
      intros i Hi. rewrite decide_False; [done|]. unfold progress. repeat case_decide; lia.
    - unfold states. apply flat3_ext. intros r ki vi _ _ _.
      assert (progress 0 0 0 r = 0) as ->; [|done]. unfold progress. repeat case_decide; lia. }
  assert (∀ p p', (∀ r, r < b * h → p r = p' r) → (outs p, states p) = (outs p', states p')) as Hext.
  { intros p p' Hp. by rewrite (outs_ext p p'), (states_ext p p') by done. }
  rewrite (for_states (λ bi, at_ bi 0 0) b).
  - f_equal. unfold at_. f_equal.
    + unfold outs. apply flat3_ext. intros bt hi vi Hbt Hhi _.
      destruct (coords _ _ _ Hbt) as (bi & ti & Hbi & Hti & ->).
      destruct (row_coords t bi ti Hti) as [-> ->]. rewrite decide_True; [done|].
      unfold progress. rewrite decide_True; [done|]. by apply coords_bound.
    + unfold states. apply flat3_ext. intros r ki vi Hr _ _.
      unfold progress. by rewrite decide_True.
  - intros bi Hbi. rewrite (for_states (λ ti, at_ bi ti 0) t).
    + f_equal. apply Hext. intros r Hr. unfold progress. cbn [Nat.mul].
      repeat case_decide; lia.
    + intros ti Hti. rewrite (for_states (λ hi, at_ bi ti hi) h).
      * f_equal. apply Hext. intros r Hr. unfold progress. repeat case_decide; lia.
      * intros hi Hhi. unfold at_. rewrite delta_step_spec; [|done..|].
        -- f_equal. apply Hext. intros r Hr. unfold progress. repeat case_decide; lia.
        -- unfold progress. repeat case_decide; lia.
Qed.
End forward.

(** ** Normalisation of queries and keys *)

Definition l2norm (d : nat) (eps : f32) (X : nat → f32) (i : nat) : f32 :=
  let ss := foldl (λ ss i, F32.add ss (F32.mul (X i) (X i))) fzero (seq 0 d) in
  F32.mul (X i) (F32.div f1 (F32.sqrt (F32.add ss eps))).

Lemma l2norm_last_dim_spec rows d eps X :
  l2norm_last_dim (flat2 rows d X) rows d eps = Some (flat2 rows d (λ r, l2norm d eps (X r))).
Proof.
  unfold l2norm_last_dim.
  set (st := λ r j, flat2 rows d (λ r' i,
    if decide (r' < r ∨ (r' = r ∧ i < j)) then l2norm d eps (X r') i else X r' i)).
  trans (for_ rows (λ r buf, let base := r * d in
    ss ← for_ d (λ i ss, v ← buf !! (base + i); Some (F32.add ss (F32.mul v v))) fzero;
    let inv := F32.div f1 (F32.sqrt (F32.add ss eps)) in
    for_ d (λ i buf, v ← buf !! (base + i); store buf (base + i) (F32.mul v inv)) buf) (st 0 0)).
  { f_equal. apply flat2_ext. intros. by rewrite decide_False by lia. }
  rewrite (for_states (λ r, st r 0) rows).
  - f_equal. apply flat2_ext. intros. by rewrite decide_True by lia.
  - intros r Hr. cbn zeta.
    rewrite (for_foldl d _ (λ ss i, F32.add ss (F32.mul (X r i) (X r i)))).
    2:{ intros i s Hi. unfold st. rewrite lookup_flat2 by done. by rewrite decide_False by lia. }
    cbn [mbind option_bind]. rewrite (for_states (st r) d).
    + f_equal. apply flat2_ext. intros r' i Hr' Hi. repeat case_decide; try done; lia.
    + intros i Hi. cbn beta.
      assert (st r i !! (r * d + i) = Some (X r i)) as ->.
      { unfold st. rewrite lookup_flat2 by done. by rewrite decide_False by lia. }
      cbn [mbind option_bind]. unfold st. rewrite store_flat2 by done. f_equal.
      apply flat2_ext. intros r' i' Hr' Hi'.
      destruct (decide (r' = r ∧ i' = i)) as [[-> ->]|]; repeat case_decide; try done; lia.
Qed.

Definition q_scale (d : nat) : f32 := F32.div f1 (F32.sqrt (f32_of_nat d)).

Lemma prepare_qk_spec b t h d Q K :
  prepare_qk (flat3 (b * t) h d Q) (flat3 (b * t) h d K) b t h d
  = Some (flat3 (b * t) h d (λ bt hi i, F32.mul (l2norm d EPS (Q bt hi) i) (q_scale d)),
          flat3 (b * t) h d (λ bt hi, l2norm d EPS (K bt hi))).
Proof.
  unfold prepare_qk. rewrite !flat3_rows, !l2norm_last_dim_spec. cbn [mbind option_bind].
  do 2 f_equal. rewrite !flat2_tab. unfold tab. change (map ?f ?l) with (f <$> l).
  by rewrite <- list_fmap_compose.
Qed.

Section prepared.
Context `{Libm} (b t h K V : nat).
Context (Q Kk Vv : nat → nat → nat → f32) (G B : nat → nat → f32).

(** What the recurrence sees of head [r] at time [ti]. *)
Definition prepared_tokens (r ti : nat) : Token :=
  head_tokens t h (λ bt hi i, F32.mul (l2norm K EPS (Q bt hi) i) (q_scale K))
    (λ bt hi, l2norm K EPS (Kk bt hi)) Vv G B r ti.

Lemma forward_prepared_into_spec S0 :
  forward_prepared_into (mkShape b t h K V) (flat3 (b * t) h K Q) (flat3 (b * t) h K Kk)
    (flat3 (b * t) h V Vv) (flat2 (b * t) h G) (flat2 (b * t) h B) (flat3 (b * h) K V S0)
  = Some (flat3 (b * t) h V (λ bt hi,
            out_at K (prepared_tokens (bt / t * h + hi)) (S0 (bt / t * h + hi)) (bt mod t)),
          flat3 (b * h) K V (λ r, state_at K (prepared_tokens r) (S0 r) t)).
Proof.
  unfold forward_prepared_into, validate_operands. cbn [sh_b sh_t sh_h sh_k sh_v].
  rewrite !assert_true by (rewrite ?length_flat3, ?length_flat2; lia).
  cbn [mbind option_bind]. rewrite prepare_qk_spec. cbn [mbind option_bind].
  by rewrite delta_forward_spec.
Qed.

Lemma forward_prepared_spec :
  forward_prepared (mkShape b t h K V) (flat3 (b * t) h K Q) (flat3 (b * t) h K Kk)
    (flat3 (b * t) h V Vv) (flat2 (b * t) h G) (flat2 (b * t) h B)
  = forward_prepared_into (mkShape b t h K V) (flat3 (b * t) h K Q) (flat3 (b * t) h K Kk)
    (flat3 (b * t) h V Vv) (flat2 (b * t) h G) (flat2 (b * t) h B)
    (flat3 (b * h) K V (λ _ _ _, fzero)).
Proof.
  unfold forward_prepared. cbn [sh_b sh_h sh_k sh_v]. f_equal.
  rewrite replicate_tab, flat3_rows, flat2_tab. done.
Qed.
End prepared.

(** ** Cutting a sequence *)

Lemma state_at_ext `{Libm} K xs ys S n : (∀ i, i < n → xs i = ys i) →
  state_at K xs S n = state_at K ys S n.
Proof. induction n as [|n IH]; intros Hx; cbn; [done|]. rewrite IH, Hx by auto with lia. done. Qed.

Lemma out_at_ext `{Libm} K xs ys S n : (∀ i, i ≤ n → xs i = ys i) →
  out_at K xs S n = out_at K ys S n.
Proof. intros Hx. unfold out_at. rewrite Hx by lia. rewrite (state_at_ext K xs ys) by auto with lia. done. Qed.

(** With one sequence the token of head [r] only depends on its position. *)
Lemma prepared_tokens_single `{Libm} t t' h K Q Kk Vv G B r n i : r < h →
  prepared_tokens t h K Q Kk Vv G B r (n + i)
  = prepared_tokens t' h K (λ i, Q (n + i)) (λ i, Kk (n + i)) (λ i, Vv (n + i))
      (λ i, G (n + i)) (λ i, B (n + i)) r i.
Proof. intros Hr. unfold prepared_tokens, head_tokens. by rewrite Nat.div_small. Qed.

(** C31. One sequence run in two pieces, the state of the first handed to the
    second, gives the outputs and the final state of the whole run, bit for bit,
    when every operand has the length its shape demands; none of the three runs
    panics. *)
Theorem delta_split `{Libm} h K V t1 t2 q1 k1 v1 g1 b1 q2 k2 v2 g2 b2 S :
  length q1 = t1 * h * K → length k1 = t1 * h * K → length v1 = t1 * h * V →
  length g1 = t1 * h → length b1 = t1 * h →
  length q2 = t2 * h * K → length k2 = t2 * h * K → length v2 = t2 * h * V →
  length g2 = t2 * h → length b2 = t2 * h → length S = h * K * V →
  ∃ o1 S1 o2 S2,
    forward_prepared_into (mkShape 1 t1 h K V) q1 k1 v1 g1 b1 S = Some (o1, S1) ∧
    forward_prepared_into (mkShape 1 t2 h K V) q2 k2 v2 g2 b2 S1 = Some (o2, S2) ∧
    forward_prepared_into (mkShape 1 (t1 + t2) h K V)
      (q1 ++ q2) (k1 ++ k2) (v1 ++ v2) (g1 ++ g2) (b1 ++ b2) S = Some (o1 ++ o2, S2).
Proof.
  intros Hq1 Hk1 Hv1 Hg1 Hb1 Hq2 Hk2 Hv2 Hg2 Hb2 HS.
  destruct (to_flat3_app q1 q2 t1 t2 h K Hq1 Hq2) as (Q & -> & -> & ->).
  destruct (to_flat3_app k1 k2 t1 t2 h K Hk1 Hk2) as (Kk & -> & -> & ->).
  destruct (to_flat3_app v1 v2 t1 t2 h V Hv1 Hv2) as (Vv & -> & -> & ->).
  destruct (to_flat2_app g1 g2 t1 t2 h Hg1 Hg2) as (G & -> & -> & ->).
  destruct (to_flat2_app b1 b2 t1 t2 h Hb1 Hb2) as (B & -> & -> & ->).
  destruct (to_flat3 S h K V HS) as (S0 & ->).
  pose proof (forward_prepared_into_spec 1 t1 h K V Q Kk Vv G B S0) as E1.
  pose proof (forward_prepared_into_spec 1 (t1 + t2) h K V Q Kk Vv G B S0) as E.
  rewrite !Nat.mul_1_l in E1, E. rewrite E1, E. do 4 eexists. split; [done|].
  pose proof (forward_prepared_into_spec 1 t2 h K V (λ i, Q (t1 + i)) (λ i, Kk (t1 + i))
    (λ i, Vv (t1 + i)) (λ i, G (t1 + i)) (λ i, B (t1 + i))
    (λ r, state_at K (prepared_tokens t1 h K Q Kk Vv G B r) (S0 r) t1)) as E2.
  rewrite !Nat.mul_1_l in E2. rewrite E2. split; [done|].
  assert (∀ r i, r < h → prepared_tokens (t1 + t2) h K Q Kk Vv G B r i
    = prepared_tokens t1 h K Q Kk Vv G B r i) as Htok.
  { intros r i Hr. by apply (prepared_tokens_single _ t1 h K Q Kk Vv G B r 0). }
  f_equal. f_equal.
  - rewrite flat3_app. f_equal; apply flat3_ext; intros i j c Hi Hj _.
    + rewrite !Nat.div_small, !Nat.mod_small by lia. cbn [Nat.mul Nat.add].
      by rewrite (out_at_ext K _ (prepared_tokens t1 h K Q Kk Vv G B j)) by auto.
    + rewrite !Nat.div_small, !Nat.mod_small by lia. cbn [Nat.mul]. rewrite !Nat.add_0_l.
      rewrite out_at_add, (state_at_ext K _ (prepared_tokens t1 h K Q Kk Vv G B j)) by auto.
      erewrite out_at_ext; [done|]. intros n _. by apply prepared_tokens_single.
  - apply flat3_ext. intros r i c Hr _ _. rewrite state_at_add.
    rewrite (state_at_ext K (prepared_tokens (t1 + t2) h K Q Kk Vv G B r)
      (prepared_tokens t1 h K Q Kk Vv G B r)) by auto.
    erewrite state_at_ext; [done|]. intros n _. by apply prepared_tokens_single.
Qed.
