(* ===== verification/Gdn.v ===== *)
(** * The gated delta net block

    Models the second half of qwen35-forward/gdn/src/lib.rs: the mixer of the
    linear-attention layers, with and without a carried state. *)

From stdpp Require Import list.
From S2P Require Import Prelude Float Tensor Linear Delta.
#[local] Open Scope nat_scope.

Record GdnConfig := mkGdnConfig {
  g_hidden : nat;
  num_k_heads : nat;
  num_v_heads : nat;
  head_k_dim : nat;
  head_v_dim : nat;
  conv_kernel : nat;
  g_eps : f32;
}.

Module GdnConfig.
Definition key_dim (c : GdnConfig) : nat := head_k_dim c * num_k_heads c.
Definition value_dim (c : GdnConfig) : nat := head_v_dim c * num_v_heads c.
Definition conv_dim (c : GdnConfig) : nat := key_dim c * 2 + value_dim c.
(** Panics when there are no key heads. *)
Definition kv_ratio (c : GdnConfig) : option nat :=
  ndiv (num_v_heads c) (num_k_heads c).
End GdnConfig.

Record GdnWeights := mkGdnWeights {
  in_proj_qkv : vec;
  in_proj_z : vec;
  in_proj_b : vec;
  in_proj_a : vec;
  conv1d : vec;
  a_log : vec;
  dt_bias : vec;
  g_norm : vec;
  out_proj : vec;
}.

(** Every intermediate of a block. *)
Record GdnTrace := mkGdnTrace {
  gt_in_proj_qkv : vec;
  gt_conv_in : vec;
  gt_conv_out : vec;
  gt_in_proj_z : vec;
  gt_in_proj_b : vec;
  gt_in_proj_a : vec;
  gt_q : vec;
  gt_k : vec;
  gt_v : vec;
  gt_g : vec;
  gt_beta : vec;
  gt_delta_out : vec;
  gt_delta_state : vec;
  gt_norm : vec;
  gt_out_proj : vec;
}.

Record GdnState := mkGdnState { gs_conv : vec; gs_ssm : vec }.

Module GdnState.
Definition new (c : GdnConfig) (b : nat) : GdnState :=
  mkGdnState (replicate (b * GdnConfig.conv_dim c * (conv_kernel c - 1)) fzero)
    (replicate (b * num_v_heads c * head_k_dim c * head_v_dim c) fzero).
Definition bytes (s : GdnState) : nat := (length (gs_conv s) + length (gs_ssm s)) * 4.
End GdnState.

Section gdn.
Context `{Libm} (hw : Z).

(** Columns [a..a + n] of every row of a [rows] by [width] matrix. *)
Definition columns (x : vec) (rows width a n : nat) : option vec :=
  collect_rows rows (λ r,
    src ← slice_at x (r * width) (r * width + width);
    slice_at src a (a + n)).

(** [state] is the carried state, when there is one; the advanced state is
    returned beside the trace. *)
Definition gdn_forward_impl (c : GdnConfig) (w : GdnWeights) (x : vec) (b t : nat)
    (state : option GdnState) : option (GdnTrace * option GdnState) :=
  let h := g_hidden c in
  let rows := b * t in
  let conv_dim := GdnConfig.conv_dim c in
  let nv := num_v_heads c in
  _ ← assert_ (length x = rows * h);
  (* 1. projections *)
  mixed ← linear hw (in_proj_qkv w) None x rows h conv_dim;
  z_full ← linear hw (in_proj_z w) None x rows h (GdnConfig.value_dim c);
  bb ← linear hw (in_proj_b w) None x rows h nv;
  aa ← linear hw (in_proj_a w) None x rows h nv;
  (* 2. convolution, channels first *)
  mixed_bct ← btc_to_bct mixed b t conv_dim;
  '(conv_out, new_conv_state) ←
    conv_forward (conv1d w) None mixed_bct b conv_dim t (conv_kernel c) (gs_conv <$> state);
  conv_btc ← bct_to_btc conv_out b conv_dim t;
  (* 3. q, k, v *)
  let kd := GdnConfig.key_dim c in
  let vd := GdnConfig.value_dim c in
  q_raw ← columns conv_btc rows conv_dim 0 kd;
  k_raw ← columns conv_btc rows conv_dim kd kd;
  v_raw ← columns conv_btc rows conv_dim (2 * kd) vd;
  (* 4. g and beta *)
  beta ← collect_rows rows (λ r, collect nv (λ hh,
    x ← bb !! (r * nv + hh); Some (sigmoid x)));
  g ← collect_rows rows (λ r, collect nv (λ hh,
    al ← a_log w !! hh; x ← aa !! (r * nv + hh); dt ← dt_bias w !! hh;
    Some (F32.mul (SFopp (fexp al)) (softplus (F32.add x dt)))));
  (* 5. GQA expansion *)
  ratio ← GdnConfig.kv_ratio c;
  q ← repeat_interleave_heads q_raw b t (num_k_heads c) (head_k_dim c) ratio;
  k ← repeat_interleave_heads k_raw b t (num_k_heads c) (head_k_dim c) ratio;
  (* 6. the rule *)
  let shape := mkShape b t nv (head_k_dim c) (head_v_dim c) in
  '(delta_out, delta_state, state') ←
    match state with
    | Some st =>
        '(out, ssm) ← forward_prepared_into shape q k v_raw g beta (gs_ssm st);
        Some (out, ssm, Some (mkGdnState new_conv_state ssm))
    | None =>
        '(out, ssm) ← forward_prepared shape q k v_raw g beta;
        Some (out, ssm, None)
    end;
  (* 7. gated norm over [head_v_dim] *)
  let norm_rows := rows * nv in
  norm ← rmsnorm_gated (g_norm w) delta_out z_full norm_rows (head_v_dim c) (g_eps c);
  (* 8. out_proj *)
  out ← linear hw (out_proj w) None norm rows vd h;
  Some (mkGdnTrace mixed mixed_bct conv_out z_full bb aa q k v_raw g beta delta_out delta_state norm out,
        state').

Definition gdn_forward (c : GdnConfig) (w : GdnWeights) (x : vec) (b t : nat) : option GdnTrace :=
  '(tr, _) ← gdn_forward_impl c w x b t None; Some tr.

Definition gdn_forward_with_state (c : GdnConfig) (w : GdnWeights) (x : vec) (b t : nat)
    (state : GdnState) : option (GdnTrace * GdnState) :=
  '(tr, st) ← gdn_forward_impl c w x b t (Some state);
  st ← st; Some (tr, st).
End gdn.
