(* ===== verification/GdnProps.v ===== *)
(** * The gated delta net block, sequence by sequence

    What the block computes for one batch entry as a function of time, without
    layout; that the flat code computes it; and that a sequence can be cut
    anywhere when the state is carried. *)

From Stdlib Require Import FunctionalExtensionality.
From stdpp Require Import list.
From S2P Require Import Prelude Float Tensor Linear LinearProps Delta DeltaProps Gdn.
#[local] Open Scope nat_scope.
#[local] Opaque F32.add F32.sub F32.mul F32.div F32.sqrt to_f32 to_f64 f32_of_nat.

(** The columns of a row, grouped. *)
Lemma flat2_cols3 {A} n m k (f : nat → nat → A) :
  flat2 n (m * k) f = flat3 n m k (λ i j l, f i (j * k + l)).
Proof.
  apply list_flat3; [rewrite length_flat2; lia|]. intros i j l Hi Hj Hl.
  replace ((i * m + j) * k + l) with (i * (m * k) + (j * k + l)) by lia.
  rewrite lookup_flat2; [done..|by apply coords_bound].
Qed.

Lemma flat3_cols {A} n m k (f : nat → nat → nat → A) :
  flat3 n m k f = flat2 n (m * k) (λ i c, f i (c / k) (c mod k)).
Proof.
  rewrite flat2_cols3. apply flat3_ext. intros i j l _ _ Hl.
  by destruct (row_coords k j l Hl) as [-> ->].
Qed.

Lemma bct_to_btc_rows b ch t (X : nat → nat → nat → f32) :
  bct_to_btc (flat3 b ch t X) b ch t = Some (flat2 (b * t) ch (λ r ci, X (r / t) ci (r mod t))).
Proof. by rewrite bct_to_btc_spec, flat3_rows. Qed.

Section gdn.
Context `{Libm} (hw : Z) (c : GdnConfig) (w : GdnWeights).
Let h := g_hidden c.
Let k := conv_kernel c.
Let nk := num_k_heads c.
Let nv := num_v_heads c.
Let K := head_k_dim c.
Let V := head_v_dim c.
Let kd := GdnConfig.key_dim c.
Let vd := GdnConfig.value_dim c.
Let cd := GdnConfig.conv_dim c.
Let ratio := nv / nk.

(** The weights have the sizes the configuration gives them. *)
Record gdn_wf : Prop := {
  wf_qkv : length (in_proj_qkv w) = cd * h;
  wf_z : length (in_proj_z w) = vd * h;
  wf_b : length (in_proj_b w) = nv * h;
  wf_a : length (in_proj_a w) = nv * h;
  wf_conv : length (conv1d w) = cd * k;
  wf_a_log : length (a_log w) = nv;
  wf_dt_bias : length (dt_bias w) = nv;
  wf_norm : length (g_norm w) = V;
  wf_out : length (out_proj w) = h * vd;
  wf_kernel : 0 < k;
  wf_ratio : 0 < ratio;
  wf_heads : nv = nk * ratio;
}.

(** ** One sequence *)
Section sequence.
Context (X : nat → nat → f32) (sc : nat → nat → f32) (ss : nat → nat → nat → f32).

Definition seq_mixed (ci ti : nat) : f32 := lin (in_proj_qkv w) None h (X ti) ci.
Definition seq_window (ci : nat) : nat → f32 := window (k - 1) (sc ci) (seq_mixed ci).
Definition seq_conv (ci ti : nat) : f32 := conv_at (conv1d w) None k ci (seq_window ci) ti.
Definition seq_decay (hh ti : nat) : f32 :=
  F32.mul (SFopp (fexp (at_ (a_log w) hh)))
    (softplus (F32.add (lin (in_proj_a w) None h (X ti) hh) (at_ (dt_bias w) hh))).
Definition seq_token (hh ti : nat) : Token :=
  mkToken
    (λ i, F32.mul (l2norm K EPS (λ i, seq_conv (hh / ratio * K + i) ti) i) (q_scale K))
    (l2norm K EPS (λ i, seq_conv (kd + (hh / ratio * K + i)) ti))
    (λ i, seq_conv (2 * kd + (hh * V + i)) ti)
    (seq_decay hh ti)
    (sigmoid (lin (in_proj_b w) None h (X ti) hh)).
Definition seq_delta (hh ti : nat) : nat → f32 := out_at K (seq_token hh) (ss hh) ti.
Definition seq_norm (ti hh : nat) : nat → f32 :=
  norm_gated (g_norm w) V (g_eps c) (seq_delta hh ti)
    (λ i, lin (in_proj_z w) None h (X ti) (hh * V + i)).
Definition seq_out (ti o : nat) : f32 :=
  lin (out_proj w) None vd (λ j, seq_norm ti (j / V) (j mod V)) o.

(** The state after [t] steps. *)
Definition next_conv (t ci i : nat) : f32 := seq_window ci (t + i).
Definition next_ssm (t hh : nat) : nat → nat → f32 := state_at K (seq_token hh) (ss hh) t.
End sequence.

(** ** The block computes it *)

Lemma columns_spec rows width a n F : a + n ≤ width →
  columns (flat2 rows width F) rows width a n = Some (flat2 rows n (λ r i, F r (a + i))).
Proof.
  intros Ha. unfold columns. apply collect_rows_flat2. intros r Hr.
  rewrite slice_flat2 by done. cbn [mbind option_bind]. rewrite slice_tab by lia.
  f_equal. by replace (a + n - a) with n by lia.
Qed.

Section forward.
Context (b t : nat) (xs : nat → nat → nat → f32) (st : option GdnState).
Context (SC : nat → nat → nat → f32) (SS : nat → nat → nat → nat → f32).
Let X r := xs (r / t) (r mod t).

(** What the state on entry holds; without one, zeros. *)
Definition entry_state : Prop :=
  match st with
  | Some s => gs_conv s = flat3 b cd (k - 1) SC ∧
              gs_ssm s = flat3 (b * nv) K V (λ r, SS (r / nv) (r mod nv))
  | None => (∀ bi ci i, SC bi ci i = fzero) ∧ (∀ bi hh ki vi, SS bi hh ki vi = fzero)
  end.

Definition exit_state : GdnState :=
  mkGdnState (flat3 b cd (k - 1) (λ bi, next_conv (xs bi) (SC bi) t))
    (flat3 (b * nv) K V (λ r, next_ssm (xs (r / nv)) (SC (r / nv)) (SS (r / nv)) t (r mod nv))).

Lemma token_eq bi hh ti : hh < nv → ti < t →
  prepared_tokens t nv K
    (λ r hh i, conv_at (conv1d w) None k (0 + (hh / ratio * K + i)) (seq_window (xs (r / t)) (SC (r / t)) (0 + (hh / ratio * K + i))) (r mod t))
    (λ r hh i, seq_conv (xs (r / t)) (SC (r / t)) (nk * K + (hh / ratio * K + i)) (r mod t))
    (λ r hh i, seq_conv (xs (r / t)) (SC (r / t)) (2 * (nk * K) + (hh * V + i)) (r mod t))
    (λ r hh, seq_decay (λ _, X r) hh 0)
    (λ r hh, sigmoid (lin (in_proj_b w) None h (X r) hh)) (bi * nv + hh) ti
  = seq_token (xs bi) (SC bi) hh ti.
Proof.
  intros Hhh Hti. assert (kd = nk * K) as Hkd by (unfold kd, GdnConfig.key_dim, nk, K; lia).
  unfold prepared_tokens, head_tokens, seq_token. destruct (row_coords nv bi hh Hhh) as [-> ->].
  unfold X. destruct (row_coords t bi ti Hti) as [-> ->]. by rewrite Hkd.
Qed.

Lemma gdn_forward_impl_spec : gdn_wf → entry_state →
  ∃ tr, gdn_forward_impl hw c w (flat2 (b * t) h X) b t st = Some (tr, (λ _, exit_state) <$> st) ∧
    gt_out_proj tr = flat2 (b * t) h (λ r, seq_out (xs (r / t)) (SC (r / t)) (SS (r / t)) (r mod t)).
Proof.
  intros Hwf Hst. pose proof (wf_ratio Hwf) as Hratio. pose proof (wf_heads Hwf) as Hheads.
  assert (nk ≠ 0) as Hnk by (intros Hz; unfold ratio in Hratio; rewrite Hz in Hratio; cbn in Hratio; lia).
  assert (kd = nk * K) as Hkd by (unfold kd, GdnConfig.key_dim, nk, K; lia).
  assert (vd = nv * V) as Hvd by (unfold vd, GdnConfig.value_dim, nv, V; lia).
  assert (cd = 2 * kd + vd) as Hcd by (unfold cd, GdnConfig.conv_dim; fold kd vd; lia).
  unfold gdn_forward_impl. fold h k nk nv K V kd vd cd.
  rewrite assert_true by apply length_flat2. cbn [mbind option_bind].
  rewrite (linear_spec hw (in_proj_qkv w) None _ _ _ _ X) by (done || apply (wf_qkv Hwf)).
  cbn [mbind option_bind].
  rewrite (linear_spec hw (in_proj_z w) None _ _ _ _ X) by (done || apply (wf_z Hwf)).
  cbn [mbind option_bind].
  rewrite (linear_spec hw (in_proj_b w) None _ _ _ _ X) by (done || apply (wf_b Hwf)).
  cbn [mbind option_bind].
  rewrite (linear_spec hw (in_proj_a w) None _ _ _ _ X) by (done || apply (wf_a Hwf)).
  cbn [mbind option_bind].
  change (λ r, lin (in_proj_qkv w) None h (X r))
    with (λ r, lin (in_proj_qkv w) None h (xs (r / t) (r mod t))).
  rewrite <- (flat3_rows b t cd (λ bi ti, lin (in_proj_qkv w) None h (xs bi ti))).
  rewrite btc_to_bct_spec. cbn [mbind option_bind].
  rewrite (conv_forward_spec _ None b cd t k (gs_conv <$> st) _ SC); [|apply (wf_conv Hwf)|done| |apply (wf_kernel Hwf)].
  2:{ unfold entry_state in Hst. destruct st; cbn; naive_solver. }
  cbn [mbind option_bind].
  rewrite bct_to_btc_rows.
  cbn [mbind option_bind].
  rewrite !columns_spec by lia. cbn [mbind option_bind].
  rewrite (collect_rows_flat2 (b * t) nv _ (λ r hh, F32.mul (SFopp (fexp (at_ (a_log w) hh)))
    (softplus (F32.add (lin (in_proj_a w) None h (X r) hh) (at_ (dt_bias w) hh))))).
  2:{ intros r Hr. apply collect_tab. intros hh Hhh. rewrite lookup_flat2 by done.
      rewrite (at_lookup (a_log w)) by (rewrite (wf_a_log Hwf); exact Hhh). cbn [mbind option_bind].
      by rewrite (at_lookup (dt_bias w)) by (rewrite (wf_dt_bias Hwf); exact Hhh). }
  rewrite (collect_rows_flat2 (b * t) nv _ (λ r hh, sigmoid (lin (in_proj_b w) None h (X r) hh))).
  2:{ intros r Hr. apply collect_tab. intros hh Hhh. by rewrite lookup_flat2. }
  cbn [mbind option_bind]. unfold GdnConfig.kv_ratio. fold nk nv. rewrite ndiv_Some by done.
  cbn [mbind option_bind]. fold ratio. rewrite Hkd, !(flat2_cols3 _ nk K).
  rewrite !repeat_interleave_heads_spec by done. cbn [mbind option_bind]. rewrite <- Hheads.
  rewrite Hvd, !(flat2_cols3 _ nv V).
  match goal with
  | |- context [forward_prepared ?sh ?q ?k ?v ?g ?be] =>
      assert (forward_prepared_into sh q k v g be
                (flat3 (b * nv) K V (λ r, SS (r / nv) (r mod nv)))
        = Some (flat3 (b * t) nv V (λ r hh, seq_delta (xs (r / t)) (SC (r / t)) (SS (r / t)) hh (r mod t)),
                gs_ssm exit_state)) as Hdelta
  end.
  { rewrite forward_prepared_into_spec. f_equal. f_equal.
    - apply flat3_ext. intros bt hh vi Hbt Hhh _.
      destruct (coords _ _ _ Hbt) as (bi & ti & Hbi & Hti & ->).
      destruct (row_coords t bi ti Hti) as [-> ->]. destruct (row_coords nv bi hh Hhh) as [-> ->].
      unfold seq_delta. erewrite out_at_ext; [done|]. intros n Hn. by apply token_eq; [|lia].
    - unfold exit_state. cbn [gs_ssm]. apply flat3_ext. intros r ki vi Hr _ _.
      destruct (coords _ _ _ Hr) as (bi & hh & Hbi & Hhh & ->).
      destruct (row_coords nv bi hh Hhh) as [-> ->].
      unfold next_ssm. erewrite state_at_ext; [done|]. intros n Hn. by apply token_eq. }
  match goal with
  | |- context [mbind _ ?m] =>
      assert (m = Some (flat3 (b * t) nv V (λ r hh,
                seq_delta (xs (r / t)) (SC (r / t)) (SS (r / t)) hh (r mod t)),
              gs_ssm exit_state, (λ _, exit_state) <$> st)) as ->
  end.
  { unfold entry_state in Hst. destruct st as [s|].
    - destruct Hst as [_ ->]. by rewrite Hdelta.
    - destruct Hst as [_ HSS]. rewrite forward_prepared_spec.
      rewrite (flat3_ext (b * nv) K V (λ _ _ _, fzero) (λ r, SS (r / nv) (r mod nv))) by done.
      by rewrite Hdelta. }
  cbn [mbind option_bind].
  rewrite !(flat3_rows (b * t) nv V).
  erewrite (rmsnorm_gated_spec (g_norm w)); [|apply (wf_norm Hwf)|done|done].
  cbn [mbind option_bind].
  erewrite (linear_spec hw (out_proj w) None); [|rewrite <- Hvd; apply (wf_out Hwf)|done|].
  2:{ rewrite (flat2_rows3 (b * t) nv V), (flat3_cols (b * t) nv V). reflexivity. }
  cbn [mbind option_bind]. eexists. split; [done|]. cbn [gt_out_proj].
  apply flat2_ext. intros r o Hr Ho. unfold seq_out. rewrite Hvd. apply lin_ext. intros j Hj.
  destruct (coords _ _ _ Hj) as (hh & i & Hhh & Hi & ->).
  destruct (row_coords V hh i Hi) as [-> ->]. destruct (row_coords nv r hh Hhh) as [-> ->].
  destruct (coords _ _ _ Hr) as (bi & ti & Hbi & Hti & ->).
  unfold X. by destruct (row_coords t bi ti Hti) as [-> ->].
Qed.
End forward.

(** ** Cutting a sequence *)
Section cut.
Context (X : nat → nat → f32) (sc : nat → nat → f32) (ss : nat → nat → nat → f32) (n : nat).
Let X' i := X (n + i).
Let sc' := next_conv X sc n.
Let ss' := next_ssm X sc ss n.

Lemma seq_window_cut ci i : seq_window X' sc' ci i = seq_window X sc ci (n + i).
Proof. unfold seq_window, sc', next_conv, seq_window. apply window_split. Qed.

Lemma seq_conv_cut ci ti : seq_conv X' sc' ci ti = seq_conv X sc ci (n + ti).
Proof. apply conv_at_ext. intros i _. rewrite seq_window_cut. f_equal. lia. Qed.

Lemma seq_token_cut hh ti : seq_token X' sc' hh ti = seq_token X sc hh (n + ti).
Proof.
  unfold seq_token. f_equal.
  - extensionality i. do 2 f_equal. extensionality j. apply seq_conv_cut.
  - f_equal. extensionality i. apply seq_conv_cut.
  - extensionality i. apply seq_conv_cut.
Qed.

Lemma seq_out_cut ti o : seq_out X' sc' ss' ti o = seq_out X sc ss (n + ti) o.
Proof.
  assert (∀ hh, seq_delta X' sc' ss' hh ti = seq_delta X sc ss hh (n + ti)) as Hd.
  { intros hh. unfold seq_delta. rewrite out_at_add. unfold ss', next_ssm.
    apply out_at_ext. intros i _. apply seq_token_cut. }
  unfold seq_out, seq_norm. apply lin_ext. intros j _. by rewrite Hd.
Qed.

Lemma next_conv_cut m ci i : next_conv X' sc' m ci i = next_conv X sc (n + m) ci i.
Proof. unfold next_conv at 1. rewrite seq_window_cut. unfold next_conv. f_equal. lia. Qed.

Lemma next_ssm_cut m hh : next_ssm X' sc' ss' m hh = next_ssm X sc ss (n + m) hh.
Proof.
  unfold next_ssm at 1 2. rewrite state_at_add. unfold ss', next_ssm.
  apply state_at_ext. intros i _. apply seq_token_cut.
Qed.
End cut.

(** The mixer of a sequence from its start: the state before position [n] is
    what the first [n] tokens leave, and the output at each position is that
    of the whole sequence. *)
Definition gdn_seq (X : nat → nat → f32) : nat → nat → f32 :=
  seq_out X (λ _ _, fzero) (λ _ _ _, fzero).

Definition gdn_state_at (b : nat) (X : nat → nat → nat → f32) (n : nat) : GdnState :=
  mkGdnState
    (flat3 b cd (k - 1) (λ bi, next_conv (X bi) (λ _ _, fzero) n))
    (flat3 (b * nv) K V (λ r, next_ssm (X (r / nv)) (λ _ _, fzero) (λ _ _ _, fzero) n (r mod nv))).

(** Rows [start .. start + t] of every sequence of the batch. *)
Definition chunk (b t n start : nat) (X : nat → nat → nat → f32) : vec :=
  flat2 (b * t) n (λ r, X (r / t) (start + r mod t)).

Lemma gdn_forward_chunk b t start X : gdn_wf →
  ∃ tr, gdn_forward_with_state hw c w (chunk b t h start X) b t (gdn_state_at b X start)
          = Some (tr, gdn_state_at b X (start + t)) ∧
    gt_out_proj tr = chunk b t h start (λ bi, gdn_seq (X bi)).
Proof.
  intros Hwf.
  destruct (gdn_forward_impl_spec b t (λ bi ti, X bi (start + ti)) (Some (gdn_state_at b X start))
    (λ bi, next_conv (X bi) (λ _ _, fzero) start)
    (λ bi, next_ssm (X bi) (λ _ _, fzero) (λ _ _ _, fzero) start) Hwf) as (tr & Htr & Hout); [done|].
  exists tr. split.
  - unfold gdn_forward_with_state, chunk. rewrite Htr. cbn. do 2 f_equal.
    unfold exit_state, gdn_state_at. f_equal; apply flat3_ext; intros.
    + apply next_conv_cut.
    + by rewrite next_ssm_cut.
  - rewrite Hout. apply flat2_ext. intros. apply seq_out_cut.
Qed.

Lemma gdn_forward_whole b t X : gdn_wf →
  ∃ tr, gdn_forward hw c w (chunk b t h 0 X) b t = Some tr ∧
    gt_out_proj tr = chunk b t h 0 (λ bi, gdn_seq (X bi)).
Proof.
  intros Hwf.
  destruct (gdn_forward_impl_spec b t (λ bi ti, X bi ti) None (λ _ _ _, fzero) (λ _ _ _ _, fzero)
    Hwf) as (tr & Htr & Hout); [done|].
  exists tr. split; [|done]. unfold gdn_forward, chunk. cbn [Nat.add]. by rewrite Htr.
Qed.

(** A new state is the state at the start of any sequence. *)
Lemma gdn_state_new b X : GdnState.new c b = gdn_state_at b X 0.
Proof.
  unfold GdnState.new, gdn_state_at. fold k nv K V cd. f_equal.
  - rewrite replicate_tab, flat3_rows, flat2_tab. apply tab_ext. intros i Hi.
    unfold next_conv, seq_window, window. rewrite decide_True; [done|].
    destruct (coords _ _ _ Hi) as (r & j & _ & Hj & ->).
    by destruct (row_coords (k - 1) r j Hj) as [_ ->].
  - rewrite replicate_tab, flat3_rows, flat2_tab. by apply tab_ext.
Qed.
End gdn.
