(* ===== verification/Attention.v ===== *)
(** * Full attention

    Models qwen35-forward/gdn/src/attention.rs: rotary tables, the growing
    key/value cache, causal grouped-query attention and the output gate. *)

From stdpp Require Import list.
From S2P Require Import Prelude Float Tensor Linear.
#[local] Open Scope nat_scope.

Record AttnConfig := mkAttnConfig {
  at_hidden : nat;
  num_heads : nat;
  num_kv_heads : nat;
  head_dim : nat;
  rotary_dim : nat;
  rope_theta : f32;
  at_eps : f32;
}.

(** [-0.5f32] *)
Definition minus_half : f32 := S754_finite true 8388608 (-24).

Module AttnConfig.
Definition q_out_dim (c : AttnConfig) : nat := num_heads c * head_dim c * 2.
Definition kv_out_dim (c : AttnConfig) : nat := num_kv_heads c * head_dim c.
(** Panics when there are no key-value heads. *)
Definition kv_groups (c : AttnConfig) : option nat := ndiv (num_heads c) (num_kv_heads c).
Definition scaling `{Libm} (c : AttnConfig) : f32 := fpowf (f32_of_nat (head_dim c)) minus_half.
End AttnConfig.

Record AttnWeights := mkAttnWeights {
  q_proj : vec;
  k_proj : vec;
  v_proj : vec;
  o_proj : vec;
  q_norm : vec;
  k_norm : vec;
}.

Record AttnTrace := mkAttnTrace {
  tr_q_proj : vec;
  tr_q_norm : vec;
  tr_k_proj : vec;
  tr_k_norm : vec;
  tr_v_proj : vec;
  tr_gated : vec;
  tr_o_proj : vec;
}.

Record AttnState := mkAttnState { as_k : vec; as_v : vec; as_len : nat }.

Module AttnState.
Definition new : AttnState := mkAttnState [] [] 0.
Definition bytes (s : AttnState) : nat := (length (as_k s) + length (as_v s)) * 4.
End AttnState.

Section attention.
Context `{Libm}.

(** ** Rotary position embedding *)

(** Tables for the positions [start .. start + t]. *)
Definition build_rope (c : AttnConfig) (t start : nat) : option (vec * vec) :=
  let half := rotary_dim c / 2 in
  let inv_freq := tab half (λ i,
    let e := F32.div (f32_of_nat (2 * i)) (f32_of_nat (rotary_dim c)) in
    F32.div f1 (fpowf (rope_theta c) e)) in
  let zeros := replicate (t * rotary_dim c) fzero in
  for_ t (λ pos,
    let p := f32_of_nat (start + pos) in
    for_ half (λ i tables,
      let '(cos, sin) := tables in
      fr ← inv_freq !! i;
      let f := F32.mul p fr in
      cos ← store cos (pos * rotary_dim c + i) (fcos f);
      cos ← store cos (pos * rotary_dim c + i + half) (fcos f);
      sin ← store sin (pos * rotary_dim c + i) (fsin f);
      sin ← store sin (pos * rotary_dim c + i + half) (fsin f);
      Some (cos, sin))) (zeros, zeros).

Definition rotate_half (x : vec) (rotary_dim : nat) : option vec :=
  let half := rotary_dim / 2 in
  for_ half (λ i out,
    x2 ← x !! (i + half);
    out ← store out i (SFopp x2);
    x1 ← x !! i;
    store out (i + half) x1) (replicate rotary_dim fzero).

Definition apply_rope (x : vec) (rows heads head_dim : nat) (cos sin : vec) (t rotary_dim : nat) :
    option vec :=
  for_ rows (λ r out,
    let base := r * head_dim in
    q ← ndiv r heads;
    pos ← nmod q t;
    rot ← slice_at x base (base + rotary_dim);
    rh ← rotate_half rot rotary_dim;
    for_ rotary_dim (λ i out,
      c ← cos !! (pos * rotary_dim + i);
      s ← sin !! (pos * rotary_dim + i);
      a ← rot !! i; b ← rh !! i;
      store out (base + i) (F32.add (F32.mul a c) (F32.mul b s))) out) x.

(** ** Softmax *)

Definition softmax_row (row : vec) : vec :=
  let m := foldl (λ m x, if SFltb m x then x else m) neg_infinity row in
  let es := map (λ x, fexp (F32.sub x m)) row in
  let sum := foldl F32.add fzero es in
  let inv := F32.div f1 sum in
  map (λ x, F32.mul x inv) es.

(** [v.chunks_mut(len)]: the last chunk may be short. *)
Definition softmax_in_place (v : vec) (len : nat) : option vec :=
  n ← ndiv (length v + len - 1) len;
  collect_rows n (λ r,
    row ← slice_at v (r * len) ((r * len + len) `min` length v);
    Some (softmax_row row)).

(** ** The cache *)

(** [B, T, H, D] to [B, H, T, D] *)
Definition to_bhtd (src : vec) (b t heads d : nat) : option vec :=
  for_ b (λ bi, for_ t (λ ti, for_ heads (λ hh out,
    let s := ((bi * t + ti) * heads + hh) * d in
    let dst := ((bi * heads + hh) * t + ti) * d in
    x ← slice_at src s (s + d);
    copy_into out dst x)))
    (replicate (b * heads * t * d) fzero).

Definition append_kv (st : AttnState) (k_rot v_flat : vec) (b t kvh d : nat) : option AttnState :=
  let start := as_len st in
  let total := start + t in
  '(nk, nv) ← for_ b (λ bi, for_ kvh (λ hh tensors,
    let '(nk, nv) := tensors in
    let old := ((bi * kvh + hh) * start) * d in
    let dst := ((bi * kvh + hh) * total) * d in
    tensors ←
      (if decide (0 < start) then
         ok ← slice_at (as_k st) old (old + start * d);
         nk ← copy_into nk dst ok;
         ov ← slice_at (as_v st) old (old + start * d);
         nv ← copy_into nv dst ov;
         Some (nk, nv)
       else Some (nk, nv));
    for_ t (λ ti tensors,
      let '(nk, nv) := tensors in
      let s := ((bi * t + ti) * kvh + hh) * d in
      let dd := dst + (start + ti) * d in
      xk ← slice_at k_rot s (s + d);
      nk ← copy_into nk dd xk;
      xv ← slice_at v_flat s (s + d);
      nv ← copy_into nv dd xv;
      Some (nk, nv)) tensors))
    (replicate (b * kvh * total * d) fzero, replicate (b * kvh * total * d) fzero);
  Some (mkAttnState nk nv total).

(** ** Attention *)

(** The scores of one query: the buffer the code reuses holds, up to the
    query's own position, what this round wrote. *)
Definition query_scores (q keys : vec) (qrow kb p d : nat) (scaling : f32) : option vec :=
  collect (p + 1) (λ tj,
    let krow := kb + tj * d in
    acc ← for_ d (λ i acc,
      x ← q !! (qrow + i); y ← keys !! (krow + i); Some (F32.add acc (F32.mul x y))) fzero;
    Some (F32.mul acc scaling)).

Definition attend (q keys values : vec) (b t start h kvh d : nat) (scaling : f32) : option vec :=
  groups ← ndiv h kvh;
  let total := start + t in
  collect_rows b (λ bi, collect_rows h (λ hh,
    kv ← ndiv hh groups;
    let kb := ((bi * kvh + kv) * total) * d in
    collect_rows t (λ ti,
      let p := start + ti in
      let qrow := ((bi * t + ti) * h + hh) * d in
      scores ← query_scores q keys qrow kb p d scaling;
      scores ← softmax_in_place scores (p + 1);
      collect d (λ i,
        for_ (p + 1) (λ tj acc,
          s ← scores !! tj; v ← values !! (kb + tj * d + i);
          Some (F32.add acc (F32.mul s v))) fzero)))).

(** ** The block *)

Definition attn_forward_impl (hw : Z) (c : AttnConfig) (w : AttnWeights) (x : vec) (b t : nat)
    (cos sin : vec) (state : option AttnState) : option (AttnTrace * option AttnState) :=
  let rows := b * t in
  let h := num_heads c in
  let kvh := num_kv_heads c in
  let d := head_dim c in
  _ ← assert_ (length x = rows * at_hidden c);
  (* 1. projections *)
  q_flat ← linear hw (q_proj w) None x rows (at_hidden c) (AttnConfig.q_out_dim c);
  k_flat ← linear hw (k_proj w) None x rows (at_hidden c) (AttnConfig.kv_out_dim c);
  v_flat ← linear hw (v_proj w) None x rows (at_hidden c) (AttnConfig.kv_out_dim c);
  (* 2. the query and gate of each head *)
  let two_d := 2 * d in
  q ← collect_rows rows (λ r, collect_rows h (λ hh,
    let src := r * (h * two_d) + hh * two_d in slice_at q_flat src (src + d)));
  gate ← collect_rows rows (λ r, collect_rows h (λ hh,
    let src := r * (h * two_d) + hh * two_d in slice_at q_flat (src + d) (src + two_d)));
  (* 3. norms on the head dimension *)
  q_normed ← rmsnorm_1plus (q_norm w) q (rows * h) d (at_eps c);
  k_normed ← rmsnorm_1plus (k_norm w) k_flat (rows * kvh) d (at_eps c);
  (* 4. rope *)
  q_rot ← apply_rope q_normed (rows * h) h d cos sin t (rotary_dim c);
  k_rot ← apply_rope k_normed (rows * kvh) kvh d cos sin t (rotary_dim c);
  (* 5. attention over the chunk, or over the cache and the chunk *)
  let scaling := AttnConfig.scaling c in
  '(out_bhtd, state') ←
    match state with
    | Some st =>
        let start := as_len st in
        st ← append_kv st k_rot v_flat b t kvh d;
        out ← attend q_rot (as_k st) (as_v st) b t start h kvh d scaling;
        Some (out, Some st)
    | None =>
        keys ← to_bhtd k_rot b t kvh d;
        values ← to_bhtd v_flat b t kvh d;
        out ← attend q_rot keys values b t 0 h kvh d scaling;
        Some (out, None)
    end;
  (* 6. back to [B, T, H * D] *)
  attn_out ← for_ b (λ bi, for_ h (λ hh, for_ t (λ ti attn_out,
    let s := ((bi * h + hh) * t + ti) * d in
    let dst := ((bi * t + ti) * h + hh) * d in
    x ← slice_at out_bhtd s (s + d);
    copy_into attn_out dst x)))
    (replicate (rows * h * d) fzero);
  (* 7. the output gate *)
  gated ← collect (rows * h * d) (λ i,
    g ← gate !! i; a ← attn_out !! i;
    Some (F32.mul a (F32.div f1 (F32.add f1 (fexp (SFopp g))))));
  (* 8. o_proj *)
  o ← linear hw (o_proj w) None gated rows (h * d) (at_hidden c);
  Some (mkAttnTrace q_flat q_normed k_flat k_normed v_flat gated o, state').

Definition attn_forward hw (c : AttnConfig) (w : AttnWeights) (x : vec) (b t : nat)
    (cos sin : vec) : option AttnTrace :=
  '(tr, _) ← attn_forward_impl hw c w x b t cos sin None; Some tr.

Definition attn_forward_with_state hw (c : AttnConfig) (w : AttnWeights) (x : vec) (b t : nat)
    (cos sin : vec) (state : AttnState) : option (AttnTrace * AttnState) :=
  '(tr, st) ← attn_forward_impl hw c w x b t cos sin (Some state);
  st ← st; Some (tr, st).
End attention.
