(* ===== verification/AttentionProps.v ===== *)
(** * Full attention, sequence by sequence

    What the block computes for one sequence as a function of the absolute
    position, and that the flat code computes it, from the chunk alone or
    from the cache: attention over the cache is attention over the whole
    sequence. *)

From stdpp Require Import list.
From S2P Require Import Prelude Float Tensor Linear LinearProps Delta DeltaProps Gdn GdnProps Attention.
#[local] Open Scope nat_scope.
#[local] Opaque F32.add F32.sub F32.mul F32.div F32.sqrt to_f32 to_f64 f32_of_nat.

(** ** Rotary embedding *)
Section rope.
Context `{Libm}.

Section tables.
Context (c : AttnConfig).
Let rd := rotary_dim c.
Let half := rd / 2.

Definition rope_freq (i : nat) : f32 :=
  F32.div f1 (fpowf (rope_theta c) (F32.div (f32_of_nat (2 * i)) (f32_of_nat rd))).

(** Entry [i] of the table row of position [p]: slot [i] and slot [i + half]
    carry the same angle. *)
Definition rope_entry (f : f32 → f32) (p i : nat) : f32 :=
  if decide (i < half) then f (F32.mul (f32_of_nat p) (rope_freq i))
  else if decide (i < half + half) then f (F32.mul (f32_of_nat p) (rope_freq (i - half)))
  else fzero.

Definition rope_table (f : f32 → f32) (t start : nat) : vec :=
  flat2 t rd (λ ti, rope_entry f (start + ti)).

Lemma rope_half : half + half ≤ rd.
Proof. pose proof (Nat.div_mod rd 2). unfold half. lia. Qed.

Lemma build_rope_spec t start :
  build_rope c t start = Some (rope_table fcos t start, rope_table fsin t start).
Proof.
  unfold build_rope. fold rd half. pose proof rope_half as Hh.
  set (P := λ (st : vec * vec) D, agrees (rope_table fcos t start) st.1 D ∧
                                  agrees (rope_table fsin t start) st.2 D).
  assert (∀ s (D D' : nat → Prop), P s D → (∀ i, D' i → D i) → P s D') as Hmono.
  { intros s D D' [H1 H2] HD. split; by eapply agrees_mono. }
  set (Q := λ pos i idx, idx = pos * rd + i ∨ idx = pos * rd + i + half).
  set (D0 := λ idx, ∃ pos i, pos < t ∧ half + half ≤ i < rd ∧ idx = pos * rd + i).
  assert (P (replicate (t * rd) fzero, replicate (t * rd) fzero) D0) as H0.
  { split; cbn [fst snd]; (split; [by unfold rope_table; rewrite length_replicate, length_flat2|]);
      intros idx (pos & i & Hp & Hi & ->); unfold rope_table; cbn [fst snd];
      rewrite lookup_flat2 by lia; rewrite lookup_replicate_2 by nia;
      unfold rope_entry; by rewrite !decide_False by lia. }
  destruct (loop_cover P (λ pos idx, ∃ i, i ∈ seq 0 half ∧ Q pos i idx) (λ pos,
    for_ half (λ i (tables : vec * vec),
      let '(cos, sin) := tables in
      fr ← tab half (λ i, F32.div f1 (fpowf (rope_theta c)
             (F32.div (f32_of_nat (2 * i)) (f32_of_nat rd)))) !! i;
      cos ← store cos (pos * rd + i) (fcos (F32.mul (f32_of_nat (start + pos)) fr));
      cos ← store cos (pos * rd + i + half) (fcos (F32.mul (f32_of_nat (start + pos)) fr));
      sin ← store sin (pos * rd + i) (fsin (F32.mul (f32_of_nat (start + pos)) fr));
      sin ← store sin (pos * rd + i + half) (fsin (F32.mul (f32_of_nat (start + pos)) fr));
      Some (cos, sin))) (seq 0 t) (replicate (t * rd) fzero, replicate (t * rd) fzero) D0 Hmono)
    as ([cos sin] & Hl & Hc & Hs); [|exact H0|].
  - intros pos s D Hpos%elem_of_seq HP. unfold for_.
    apply (loop_cover P (Q pos) _ (seq 0 half) s D Hmono); [|done]. clear s D HP.
    intros i [cos sin] D Hi%elem_of_seq [Hc Hs]. cbn [fst snd] in Hc, Hs.
    rewrite lookup_tab by lia. cbn [mbind option_bind].
    assert (∀ f, rope_table f t start !! (pos * rd + i)
      = Some (f (F32.mul (f32_of_nat (start + pos)) (rope_freq i)))) as E1.
    { intros f. unfold rope_table. rewrite lookup_flat2 by lia. unfold rope_entry.
      by rewrite decide_True by lia. }
    assert (∀ f, rope_table f t start !! (pos * rd + i + half)
      = Some (f (F32.mul (f32_of_nat (start + pos)) (rope_freq i)))) as E2.
    { intros f. unfold rope_table. rewrite <- Nat.add_assoc, lookup_flat2 by lia.
      unfold rope_entry. rewrite decide_False, decide_True by lia.
      by replace (i + half - half) with i by lia. }
    destruct (agrees_store _ _ _ _ _ Hc (E1 fcos)) as (cos1 & Hc1 & Hc1').
    destruct (agrees_store _ _ _ _ _ Hc1' (E2 fcos)) as (cos2 & Hc2 & Hc2').
    destruct (agrees_store _ _ _ _ _ Hs (E1 fsin)) as (sin1 & Hs1 & Hs1').
    destruct (agrees_store _ _ _ _ _ Hs1' (E2 fsin)) as (sin2 & Hs2 & Hs2').
    exists (cos2, sin2). split.
    + unfold rope_freq in *. rewrite Hc1. cbn [mbind option_bind]. rewrite Hc2. cbn [mbind option_bind].
      rewrite Hs1. cbn [mbind option_bind]. by rewrite Hs2.
    + split; cbn [fst snd]; eapply agrees_mono; try eassumption; unfold Q; intros; tauto.
  - unfold for_ at 1. cbn [fst snd] in Hc, Hs.
    assert (∀ idx, idx < t * rd → (∃ pos i, pos < t ∧ half + half ≤ i < rd ∧ idx = pos * rd + i) ∨
      ∃ k, k ∈ seq 0 t ∧ ∃ i, i ∈ seq 0 half ∧ Q k i idx) as Hcover.
    { intros idx Hidx. destruct (coords _ _ _ Hidx) as (pos & i & Hp & Hi & ->).
      destruct (decide (half + half ≤ i)); [left; eauto 10|right].
      exists pos. rewrite elem_of_seq. split; [lia|]. unfold Q.
      destruct (decide (i < half)).
      - exists i. rewrite elem_of_seq. lia.
      - exists (i - half). rewrite elem_of_seq. lia. }
    etrans; [exact Hl|]. do 2 f_equal.
    + eapply agrees_all; [exact Hc|]. unfold rope_table. rewrite length_flat2. exact Hcover.
    + eapply agrees_all; [exact Hs|]. unfold rope_table. rewrite length_flat2. exact Hcover.
Qed.
End tables.

(** [rotate_half] and the rotation of one head vector by one table row. *)
Definition half_rotated (rd : nat) (x : nat → f32) (i : nat) : f32 :=
  if decide (i < rd / 2) then SFopp (x (i + rd / 2))
  else if decide (i < rd / 2 + rd / 2) then x (i - rd / 2) else fzero.

Definition rotated (rd : nat) (C S x : nat → f32) (i : nat) : f32 :=
  if decide (i < rd)
  then F32.add (F32.mul (x i) (C i)) (F32.mul (half_rotated rd x i) (S i)) else x i.

Lemma rotate_half_spec rd x :
  rotate_half (tab rd x) rd = Some (tab rd (half_rotated rd x)).
Proof.
  unfold rotate_half. set (half := rd / 2).
  assert (half + half ≤ rd) as Hh by (pose proof (Nat.div_mod rd 2); unfold half; lia).
  set (st := λ k, tab rd (λ i, if decide (i < k) then SFopp (x (i + half))
    else if decide (half ≤ i < half + k) then x (i - half) else fzero)).
  assert (∀ A (f : nat → A) i y, i < rd →
    store (tab rd f) i y = Some (tab rd (λ j, if decide (j = i) then y else f j))) as Hst.
  { intros A f i y Hi. rewrite store_Some by (by rewrite length_tab). f_equal.
    apply list_tab; [by rewrite length_insert, length_tab|]. intros j Hj. case_decide as Hd.
    - subst j. apply list_lookup_insert_eq. by rewrite length_tab.
    - rewrite list_lookup_insert_ne by done. by apply lookup_tab. }
  replace (replicate rd fzero) with (st 0).
  2:{ rewrite replicate_tab. apply tab_ext. intros. by rewrite !decide_False by lia. }
  rewrite (for_states st half).
  - f_equal. apply tab_ext. intros i Hi. unfold half_rotated. fold half.
    repeat case_decide; try done; lia.
  - intros i Hi. cbn beta. rewrite !lookup_tab by lia. cbn [mbind option_bind].
    unfold st. rewrite Hst by lia. cbn [mbind option_bind]. rewrite Hst by lia. f_equal.
    apply tab_ext. intros j Hj. repeat case_decide; try done; try lia; subst; try done; f_equal; lia.
Qed.

Lemma apply_rope_spec bt heads d t rd F C S : 0 < t → rd ≤ d →
  apply_rope (flat3 bt heads d F) (bt * heads) heads d (flat2 t rd C) (flat2 t rd S) t rd
  = Some (flat3 bt heads d (λ r hh, rotated rd (C (r mod t)) (S (r mod t)) (F r hh))).
Proof.
  intros Ht Hrd. unfold apply_rope. rewrite !flat3_rows.
  set (x := λ r, F (r / heads) (r mod heads)).
  set (pos := λ r, (r / heads) mod t).
  set (y := λ r, rotated rd (C (pos r)) (S (pos r)) (x r)).
  set (st := λ r k, flat2 (bt * heads) d (λ r' i,
    if decide (r' < r ∨ (r' = r ∧ i < k)) then y r' i else x r' i)).
  match goal with |- for_ _ ?f ?s = _ => trans (for_ (bt * heads) f (st 0 0)) end.
  { f_equal. apply flat2_ext. intros. by rewrite decide_False by lia. }
  rewrite (for_states (λ r, st r 0) (bt * heads)).
  - f_equal. apply flat2_ext. intros. by rewrite decide_True by lia.
  - intros r Hr. cbn beta zeta.
    rewrite ndiv_Some by lia. cbn [mbind option_bind]. rewrite nmod_Some by lia.
    cbn [mbind option_bind]. fold (pos r).
    assert (pos r < t) as Hpos by (apply Nat.mod_upper_bound; lia).
    assert (slice_at (flat2 (bt * heads) d x) (r * d) (r * d + rd) = Some (tab rd (x r))) as Hsl.
    { pose proof (slice_row (bt * heads) d x r 0 rd Hr Hrd) as Hs.
      by rewrite Nat.add_0_r in Hs. }
    change (λ r, F (r / heads) (r mod heads)) with x. rewrite Hsl. cbn [mbind option_bind].
    rewrite rotate_half_spec. cbn [mbind option_bind].
    rewrite (for_states (st r) rd).
    + f_equal. apply flat2_ext. intros r' i Hr' Hi.
      repeat case_decide; try done; try lia. subst.
      assert (r' = r) as -> by lia. unfold y, rotated. rewrite decide_False by lia. done.
    + intros i Hi. cbn beta. rewrite !lookup_flat2, !lookup_tab by lia.
      cbn [mbind option_bind]. unfold st. rewrite store_flat2 by lia. f_equal.
      apply flat2_ext. intros r' i' Hr' Hi'.
      destruct (decide (r' = r ∧ i' = i)) as [[-> ->]|].
      * rewrite decide_True by lia. unfold y, rotated. by rewrite decide_True by lia.
      * repeat case_decide; try done; lia.
Qed.
End rope.

(** ** Softmax over one row *)

Lemma softmax_one `{Libm} (l : vec) : l ≠ [] →
  softmax_in_place l (length l) = Some (softmax_row l).
Proof.
  intros Hl. assert (length l ≠ 0) as Hn by (by destruct l).
  unfold softmax_in_place. rewrite ndiv_Some by done. cbn [mbind option_bind].
  replace (length l + length l - 1) with (1 * length l + (length l - 1)) by lia.
  rewrite Nat.div_add_l, Nat.div_small by lia. unfold collect_rows, collect. cbn.
  rewrite Nat.min_id. rewrite slice_at_Some by lia. cbn.
  by rewrite Nat.sub_0_r, drop_0, take_ge, app_nil_r by lia.
Qed.

Lemma length_softmax_row `{Libm} l : length (softmax_row l) = length l.
Proof. unfold softmax_row. by rewrite !length_map. Qed.

(** ** Layout and cache *)

Lemma to_bhtd_spec {b t heads d} (F : nat → nat → nat → f32) :
  to_bhtd (flat3 (b * t) heads d F) b t heads d
  = Some (flat3 (b * heads) t d (λ r ti, F (r / heads * t + ti) (r mod heads))).
Proof.
  unfold to_bhtd. set (T := flat3 (b * heads) t d _).
  edestruct (for_agrees T) as (l & -> & Hl); [|apply agrees_start|].
  - intros bi l D Hbi HD. eapply for_agrees; [|exact HD]. clear l D HD. intros ti l D Hti HD.
    eapply for_agrees; [|exact HD]. clear l D HD. intros hh l D Hhh HD. cbn beta zeta.
    rewrite slice_flat3 by (done || by apply coords_bound). cbn [mbind option_bind].
    eapply agrees_copy; [exact HD|]. rewrite length_tab. unfold T.
    rewrite slice_flat3 by (done || by apply coords_bound).
    by destruct (row_coords heads bi hh Hhh) as [-> ->].
  - rewrite length_replicate. unfold T. by rewrite length_flat3.
  - f_equal. eapply agrees_all; [exact Hl|]. intros i Hi. right.
    unfold T in Hi. rewrite length_flat3 in Hi.
    destruct (coords _ _ _ Hi) as (r & j & Hr & Hj & ->).
    destruct (coords _ _ _ Hr) as (r' & ti & Hr' & Hti & ->).
    destruct (coords _ _ _ Hr') as (bi & hh & Hbi & Hhh & ->).
    exists bi. split; [done|]. exists ti. split; [done|]. exists hh. split; [done|].
    rewrite length_tab. lia.
Qed.

(** The cache of the first [len] positions of every sequence. *)
Definition kv_tensor (b kvh d len : nat) (F : nat → nat → nat → nat → f32) : vec :=
  flat3 (b * kvh) len d (λ r p, F (r / kvh) p (r mod kvh)).

Section append.
Context (b t kvh d start : nat).
Let total := start + t.
Let base bi hh := (bi * kvh + hh) * total * d.

Lemma kv_old (F : nat → nat → nat → nat → f32) bi hh : bi < b → hh < kvh →
  ∃ s, slice_at (kv_tensor b kvh d start F) ((bi * kvh + hh) * start * d)
         ((bi * kvh + hh) * start * d + start * d) = Some s ∧
    length s = start * d ∧
    slice_at (kv_tensor b kvh d total F) (base bi hh) (base bi hh + length s) = Some s.
Proof.
  intros Hbi Hhh. assert (bi * kvh + hh < b * kvh) as Hr by (by apply coords_bound).
  pose proof (slice_block (b * kvh) total d (λ r p, F (r / kvh) p (r mod kvh)) (bi * kvh + hh) 0 start Hr) as H1.
  pose proof (slice_block (b * kvh) start d (λ r p, F (r / kvh) p (r mod kvh)) (bi * kvh + hh) 0 start Hr) as H2.
  rewrite Nat.add_0_r in H1, H2. unfold kv_tensor, base. rewrite H2 by lia.
  eexists. split; [done|]. rewrite length_flat2. split; [done|]. apply H1. unfold total. lia.
Qed.

Lemma kv_new (F : nat → nat → nat → nat → f32) bi hh ti : bi < b → hh < kvh → ti < t →
  slice_at (kv_tensor b kvh d total F) (base bi hh + (start + ti) * d)
    (base bi hh + (start + ti) * d + d) = Some (tab d (F bi (start + ti) hh)).
Proof.
  intros Hbi Hhh Hti. unfold base. rewrite <- Nat.mul_add_distr_r. unfold kv_tensor.
  rewrite slice_flat3 by (by apply coords_bound || unfold total; lia).
  by destruct (row_coords kvh bi hh Hhh) as [-> ->].
Qed.

Lemma kv_rows (F : nat → nat → nat → nat → f32) bi hh ti : bi < b → hh < kvh → ti < t →
  slice_at (flat3 (b * t) kvh d (λ r, F (r / t) (start + r mod t)))
    (((bi * t + ti) * kvh + hh) * d) (((bi * t + ti) * kvh + hh) * d + d)
  = Some (tab d (F bi (start + ti) hh)).
Proof.
  intros Hbi Hhh Hti. rewrite slice_flat3 by (done || by apply coords_bound).
  by destruct (row_coords t bi ti Hti) as [-> ->].
Qed.

Context (KF VF : nat → nat → nat → nat → f32).
Let TK := kv_tensor b kvh d total KF.
Let TV := kv_tensor b kvh d total VF.
Let P (st : vec * vec) (D : nat → Prop) := agrees TK st.1 D ∧ agrees TV st.2 D.

Lemma kv_copy nk nv D p xk xv n : P (nk, nv) D → length xk = n → length xv = n →
  slice_at TK p (p + n) = Some xk → slice_at TV p (p + n) = Some xv →
  ∃ nk' nv', copy_into nk p xk = Some nk' ∧ copy_into nv p xv = Some nv' ∧
    P (nk', nv') (λ i, D i ∨ p ≤ i < p + n).
Proof.
  intros [HK HV] Hxk Hxv Hk Hv.
  destruct (agrees_copy TK nk D p xk HK) as (nk' & H1 & H1'); [by rewrite Hxk|].
  destruct (agrees_copy TV nv D p xv HV) as (nv' & H2 & H2'); [by rewrite Hxv|].
  rewrite Hxk in H1'. rewrite Hxv in H2'. exists nk', nv'. done.
Qed.

(** One head of one sequence: the old positions, then the new ones. *)
Lemma append_head bi hh s D : bi < b → hh < kvh → P s D →
  ∃ s', (let '(nk, nv) := s in
    tensors ←
      (if decide (0 < start) then
         ok ← slice_at (kv_tensor b kvh d start KF) ((bi * kvh + hh) * start * d)
                ((bi * kvh + hh) * start * d + start * d);
         nk ← copy_into nk (base bi hh) ok;
         ov ← slice_at (kv_tensor b kvh d start VF) ((bi * kvh + hh) * start * d)
                ((bi * kvh + hh) * start * d + start * d);
         nv ← copy_into nv (base bi hh) ov;
         Some (nk, nv)
       else Some (nk, nv));
    for_ t (λ ti tensors,
      let '(nk, nv) := tensors in
      xk ← slice_at (flat3 (b * t) kvh d (λ r, KF (r / t) (start + r mod t)))
             (((bi * t + ti) * kvh + hh) * d) (((bi * t + ti) * kvh + hh) * d + d);
      nk ← copy_into nk (base bi hh + (start + ti) * d) xk;
      xv ← slice_at (flat3 (b * t) kvh d (λ r, VF (r / t) (start + r mod t)))
             (((bi * t + ti) * kvh + hh) * d) (((bi * t + ti) * kvh + hh) * d + d);
      nv ← copy_into nv (base bi hh + (start + ti) * d) xv;
      Some (nk, nv)) tensors) = Some s' ∧
    P s' (λ i, D i ∨ base bi hh ≤ i < base bi hh + total * d).
Proof.
  intros Hbi Hhh HP. destruct s as [nk nv].
  assert (∃ s1, (if decide (0 < start) then
         ok ← slice_at (kv_tensor b kvh d start KF) ((bi * kvh + hh) * start * d)
                ((bi * kvh + hh) * start * d + start * d);
         nk ← copy_into nk (base bi hh) ok;
         ov ← slice_at (kv_tensor b kvh d start VF) ((bi * kvh + hh) * start * d)
                ((bi * kvh + hh) * start * d + start * d);
         nv ← copy_into nv (base bi hh) ov;
         Some (nk, nv)
       else Some (nk, nv)) = Some s1 ∧
     P s1 (λ i, D i ∨ base bi hh ≤ i < base bi hh + start * d)) as (s1 & -> & HP1).
  { case_decide as Hs.
    - destruct (kv_old KF bi hh Hbi Hhh) as (sk & -> & Hlk & Hsk).
      destruct (kv_old VF bi hh Hbi Hhh) as (sv & -> & Hlv & Hsv).
      rewrite Hlk in Hsk. rewrite Hlv in Hsv.
      destruct (kv_copy nk nv D _ sk sv _ HP Hlk Hlv Hsk Hsv) as (nk' & nv' & H1 & H2 & HP').
      cbn [mbind option_bind]. rewrite H1. cbn [mbind option_bind]. rewrite H2. eauto.
    - exists (nk, nv). split; [done|]. destruct HP as [HK HV].
      split; (eapply agrees_mono; [eassumption|]); intros i [?|Hi]; try done; nia. }
  cbn [mbind option_bind].
  set (R := λ ti i, base bi hh + (start + ti) * d ≤ i < base bi hh + (start + ti) * d + d).
  match goal with |- ∃ s', ?m = _ ∧ _ => assert (∃ s2, m = Some s2 ∧
    P s2 (λ i, (D i ∨ base bi hh ≤ i < base bi hh + start * d) ∨ ∃ ti, ti ∈ seq 0 t ∧ R ti i))
    as (s2 & -> & HP2) end.
  { apply loop_cover; [|clear nk nv HP; intros ti [nk nv] D1 Hti%elem_of_seq HPx|exact HP1].
    - intros s D1 D' [HK HV] HD. split; by eapply agrees_mono.
    - cbn beta. rewrite !kv_rows by lia. cbn [mbind option_bind].
      destruct (kv_copy nk nv D1 (base bi hh + (start + ti) * d)
        (tab d (KF bi (start + ti) hh)) (tab d (VF bi (start + ti) hh)) d HPx)
        as (nk' & nv' & H1 & H2 & HP'); [apply length_tab..|apply kv_new; lia|apply kv_new; lia|].
      rewrite H1. cbn [mbind option_bind]. rewrite H2. exists (nk', nv'). split; [done|]. exact HP'. }
  exists s2. split; [done|]. destruct HP2 as [HK HV].
  {
    split; (eapply agrees_mono; [eassumption|]); intros i [?|Hi]; auto; cbn.
    all: destruct (decide (i < base bi hh + start * d)); [left; right; lia|right].
    all: exists ((i - base bi hh) / d - start); unfold R.
    all: assert (d ≠ 0) as Hd by (intros ->; lia).
    all: pose proof (Nat.div_mod (i - base bi hh) d Hd) as Hm.
    all: pose proof (Nat.mod_upper_bound (i - base bi hh) d Hd) as Hu.
    all: assert (start ≤ (i - base bi hh) / d) by (apply Nat.div_le_lower_bound; lia).
    all: assert ((i - base bi hh) / d < total) by (apply Nat.Div0.div_lt_upper_bound; lia).
    all: rewrite elem_of_seq; replace (start + ((i - base bi hh) / d - start)) with ((i - base bi hh) / d) by lia.
    all: unfold total in *; lia. }
Qed.

(** Appending the rows of the positions [start .. start + t]. *)
Lemma append_kv_spec :
  append_kv (mkAttnState (kv_tensor b kvh d start KF) (kv_tensor b kvh d start VF) start)
    (flat3 (b * t) kvh d (λ r, KF (r / t) (start + r mod t)))
    (flat3 (b * t) kvh d (λ r, VF (r / t) (start + r mod t))) b t kvh d
  = Some (mkAttnState (kv_tensor b kvh d (start + t) KF) (kv_tensor b kvh d (start + t) VF) (start + t)).
Proof.
  unfold append_kv. cbn [as_k as_v as_len]. fold total.
  assert (∀ s (D D' : nat → Prop), P s D → (∀ i, D' i → D i) → P s D') as Hmono.
  { intros s D D' [HK HV] HD. split; by eapply agrees_mono. }
  set (R := λ bi hh i, base bi hh ≤ i < base bi hh + total * d).
  set (zeros := replicate (b * kvh * total * d) fzero).
  assert (P (zeros, zeros) (λ _, False)) as H0.
  { split; apply agrees_start; unfold zeros; cbn [fst snd];
      by rewrite length_replicate; unfold TK, TV, kv_tensor; rewrite length_flat3. }
  match goal with |- (?m ≫= _) = _ => assert (∃ s, m = Some s ∧
    P s (λ i, False ∨ ∃ bi, bi ∈ seq 0 b ∧ ∃ hh, hh ∈ seq 0 kvh ∧ R bi hh i))
    as ([nk nv] & -> & HK & HV) end.
  { apply loop_cover; [exact Hmono| |exact H0]. intros bi s D Hbi%elem_of_seq HPs.
    apply (loop_cover P (R bi)); [exact Hmono| |exact HPs].
    intros hh s1 D1 Hhh%elem_of_seq HP1. apply (append_head bi hh s1 D1); [lia..|exact HP1]. }
  assert (∀ i, i < b * kvh * total * d → ∃ bi, bi ∈ seq 0 b ∧ ∃ hh, hh ∈ seq 0 kvh ∧ R bi hh i) as Hall.
    { intros i Hi. rewrite <- Nat.mul_assoc in Hi. destruct (coords _ _ _ Hi) as (r & j & Hr & Hj & ->).
      destruct (coords _ _ _ Hr) as (bi & hh & Hbi & Hhh & ->).
      exists bi. rewrite elem_of_seq. split; [lia|]. exists hh. rewrite elem_of_seq. split; [lia|].
      unfold R, base. lia. }
    cbn [mbind option_bind fst snd] in *. do 2 f_equal.
    + eapply agrees_all; [exact HK|]. unfold TK, kv_tensor. rewrite length_flat3. intros. right. auto.
    + eapply agrees_all; [exact HV|]. unfold TV, kv_tensor. rewrite length_flat3. intros. right. auto.
Qed.
End append.

(** ** Causal attention of one query *)
Section attend.
Context `{Libm} (d : nat) (scaling : f32).

(** The query row [q], the keys and values [k], [v] of its group by position;
    the query stands at position [p] and sees the positions up to its own. *)
Definition att_score (q : nat → f32) (k : nat → nat → f32) (tj : nat) : f32 :=
  F32.mul (foldl (λ acc i, F32.add acc (F32.mul (q i) (k tj i))) fzero (seq 0 d)) scaling.
Definition att_probs (q : nat → f32) (k : nat → nat → f32) (p : nat) : vec :=
  softmax_row (tab (p + 1) (att_score q k)).
Definition att_out (q : nat → f32) (k v : nat → nat → f32) (p i : nat) : f32 :=
  foldl (λ acc tj, F32.add acc (F32.mul (at_ (att_probs q k p) tj) (v tj i))) fzero (seq 0 (p + 1)).

Lemma attend_spec b t start h kvh (Q KF VF : nat → nat → nat → nat → f32) :
  0 < h / kvh → h = kvh * (h / kvh) →
  attend (flat3 (b * t) h d (λ r, Q (r / t) (start + r mod t)))
    (kv_tensor b kvh d (start + t) KF) (kv_tensor b kvh d (start + t) VF) b t start h kvh d scaling
  = Some (flat3 (b * h) t d (λ r ti,
      let bi := r / h in let hh := r mod h in let kv := hh / (h / kvh) in
      att_out (Q bi (start + ti) hh) (λ p, KF bi p kv) (λ p, VF bi p kv) (start + ti))).
Proof.
  intros Hg Hh. set (groups := h / kvh) in *.
  assert (kvh ≠ 0) as Hkvh by (intros Hz; unfold groups in Hg; rewrite Hz in Hg; cbn in Hg; lia).
  unfold attend. rewrite ndiv_Some by done. fold groups. cbn [mbind option_bind].
  set (O := λ bi hh ti, att_out (Q bi (start + ti) hh) (λ p, KF bi p (hh / groups))
    (λ p, VF bi p (hh / groups)) (start + ti)).
  rewrite (collect_rows_tab b _ (λ bi, flat3 h t d (O bi))); [by rewrite flat3_blocks|].
  intros bi Hbi. apply (collect_rows_tab h _ (λ hh, flat2 t d (O bi hh))). intros hh Hhh.
  rewrite ndiv_Some by lia. cbn [mbind option_bind]. set (kv := hh / groups).
  assert (kv < kvh) as Hkv by (apply Nat.Div0.div_lt_upper_bound; lia).
  assert (bi * kvh + kv < b * kvh) as Hr by (by apply coords_bound).
  destruct (row_coords kvh bi kv Hkv) as [Hd1 Hd2].
  assert (∀ F p i, p < start + t → i < d →
    kv_tensor b kvh d (start + t) F !! ((bi * kvh + kv) * (start + t) * d + p * d + i)
    = Some (F bi p kv i)) as Hkvt.
  { intros F p i Hp Hi. rewrite <- Nat.mul_add_distr_r. unfold kv_tensor.
    rewrite lookup_flat3 by done. by rewrite Hd1, Hd2. }
  apply collect_rows_flat2. intros ti Hti. cbn beta zeta.
  destruct (row_coords t bi ti Hti) as [Ht1 Ht2].
  assert (query_scores (flat3 (b * t) h d (λ r, Q (r / t) (start + r mod t)))
    (kv_tensor b kvh d (start + t) KF) (((bi * t + ti) * h + hh) * d)
    ((bi * kvh + kv) * (start + t) * d) (start + ti) d scaling
    = Some (tab (start + ti + 1) (att_score (Q bi (start + ti) hh) (λ p, KF bi p kv)))) as ->.
  { unfold query_scores. apply collect_tab. intros tj Htj.
    rewrite (for_foldl d _ (λ acc i, F32.add acc (F32.mul (Q bi (start + ti) hh i) (KF bi tj kv i)))).
    - done.
    - intros i acc Hi. rewrite lookup_flat3 by (done || by apply coords_bound).
      rewrite Ht1, Ht2. cbn [mbind option_bind]. by rewrite Hkvt by lia. }
  cbn [mbind option_bind].
  set (l := tab (start + ti + 1) _).
  assert (softmax_in_place l (start + ti + 1) = Some (softmax_row l)) as ->.
  { rewrite <- (length_tab (start + ti + 1) (att_score (Q bi (start + ti) hh) (λ p, KF bi p kv))).
    apply softmax_one. unfold l. by rewrite Nat.add_1_r. }
  cbn [mbind option_bind]. apply collect_tab. intros i Hi.
  apply for_foldl. intros tj acc Htj. rewrite (at_lookup (softmax_row l)).
  - cbn [mbind option_bind]. by rewrite Hkvt by lia.
  - rewrite length_softmax_row. unfold l. by rewrite length_tab.
Qed.
End attend.

(** ** The block *)
Section attn.
Context `{Libm} (hw : Z) (c : AttnConfig) (w : AttnWeights).
Let hid := at_hidden c.
Let h := num_heads c.
Let kvh := num_kv_heads c.
Let d := head_dim c.
Let rd := rotary_dim c.
Let groups := h / kvh.

(** The weights have the sizes the configuration gives them. *)
Record attn_wf : Prop := {
  wf_q : length (q_proj w) = h * d * 2 * hid;
  wf_k : length (k_proj w) = kvh * d * hid;
  wf_v : length (v_proj w) = kvh * d * hid;
  wf_o : length (o_proj w) = hid * (h * d);
  wf_q_norm : length (q_norm w) = d;
  wf_k_norm : length (k_norm w) = d;
  wf_groups : 0 < groups;
  wf_gqa : h = kvh * groups;
  wf_rotary : rd ≤ d;
}.

Section sequence.
Context (X : nat → nat → f32).

Definition seq_q (p hh i : nat) : f32 := lin (q_proj w) None hid (X p) (hh * (2 * d) + i).
Definition seq_gate (p hh i : nat) : f32 := lin (q_proj w) None hid (X p) (hh * (2 * d) + d + i).
Definition rope_at (p : nat) (x : nat → f32) : nat → f32 :=
  rotated rd (rope_entry c fcos p) (rope_entry c fsin p) x.
Definition seq_query (p hh : nat) : nat → f32 :=
  rope_at p (norm1 (q_norm w) d (at_eps c) (seq_q p hh)).
Definition seq_key (p kh : nat) : nat → f32 :=
  rope_at p (norm1 (k_norm w) d (at_eps c) (λ i, lin (k_proj w) None hid (X p) (kh * d + i))).
Definition seq_value (p kh i : nat) : f32 := lin (v_proj w) None hid (X p) (kh * d + i).
Definition seq_attended (p hh : nat) : nat → f32 :=
  att_out d (AttnConfig.scaling c) (seq_query p hh) (λ tj, seq_key tj (hh / groups))
    (λ tj, seq_value tj (hh / groups)) p.
Definition seq_gated (p hh i : nat) : f32 :=
  F32.mul (seq_attended p hh i)
    (F32.div f1 (F32.add f1 (fexp (SFopp (seq_gate p hh i))))).
(** The output of position [p]. *)
Definition attn_seq (p o : nat) : f32 :=
  lin (o_proj w) None (h * d) (λ j, seq_gated p (j / d) (j mod d)) o.
End sequence.

(** The cache after the first [n] positions. *)
Definition attn_state_at (b : nat) (X : nat → nat → nat → f32) (n : nat) : AttnState :=
  mkAttnState (kv_tensor b kvh d n (λ bi, seq_key (X bi))) (kv_tensor b kvh d n (λ bi, seq_value (X bi))) n.

Lemma attn_state_new b X : AttnState.new = attn_state_at b X 0.
Proof.
  unfold AttnState.new, attn_state_at, kv_tensor.
  assert (∀ F : nat → nat → nat → f32, flat3 (b * kvh) 0 d F = []) as Hnil.
  { intros. apply length_zero_iff_nil. rewrite length_flat3. lia. }
  by rewrite !Hnil.
Qed.

(** The heads back in time order. *)
Lemma from_bhtd_spec b t (O : nat → nat → nat → nat → f32) :
  for_ b (λ bi, for_ h (λ hh, for_ t (λ ti attn_out,
    x ← slice_at (flat3 (b * h) t d (λ r ti, O (r / h) ti (r mod h)))
          (((bi * h + hh) * t + ti) * d) (((bi * h + hh) * t + ti) * d + d);
    copy_into attn_out (((bi * t + ti) * h + hh) * d) x))) (replicate (b * t * h * d) fzero)
  = Some (flat3 (b * t) h d (λ r hh, O (r / t) (r mod t) hh)).
Proof.
  set (T := flat3 (b * t) h d _).
  edestruct (for_agrees T) as (l & -> & Hl); [|apply agrees_start|].
  - intros bi l D Hbi HD. eapply for_agrees; [|exact HD]. clear l D HD. intros hh l D Hhh HD.
    eapply for_agrees; [|exact HD]. clear l D HD. intros ti l D Hti HD. cbn beta.
    rewrite slice_flat3 by (done || by apply coords_bound). cbn [mbind option_bind].
    eapply agrees_copy; [exact HD|]. rewrite length_tab. unfold T.
    rewrite slice_flat3 by (done || by apply coords_bound).
    destruct (row_coords h bi hh Hhh) as [-> ->]. by destruct (row_coords t bi ti Hti) as [-> ->].
  - rewrite length_replicate. unfold T. by rewrite length_flat3.
  - f_equal. eapply agrees_all; [exact Hl|]. intros i Hi. right.
    unfold T in Hi. rewrite length_flat3 in Hi.
    destruct (coords _ _ _ Hi) as (r & j & Hr & Hj & ->).
    destruct (coords _ _ _ Hr) as (r' & hh & Hr' & Hhh & ->).
    destruct (coords _ _ _ Hr') as (bi & ti & Hbi & Hti & ->).
    exists bi. split; [done|]. exists hh. split; [done|]. exists ti. split; [done|].
    rewrite length_tab. lia.
Qed.

Section chunk.
Context (b t start : nat) (X : nat → nat → nat → f32).
Let row r := X (r / t) (start + r mod t).
Let at_row {A} (F : (nat → nat → f32) → nat → A) r := F (X (r / t)) (start + r mod t).

(** What the attention of the chunk gives, however keys and values are kept. *)
Let attended : vec := flat3 (b * h) t d (λ r ti, seq_attended (X (r / h)) (start + ti) (r mod h)).

Lemma attn_forward_impl_spec (st : option AttnState) st' : attn_wf → 0 < t →
  (∀ q, q = flat3 (b * t) h d (at_row seq_query) →
   (match st with
    | Some st =>
        st1 ← append_kv st (flat3 (b * t) kvh d (at_row seq_key)) (flat2 (b * t) (kvh * d)
          (λ r, lin (v_proj w) None hid (row r))) b t kvh d;
        out ← attend q (as_k st1) (as_v st1) b t (as_len st) h kvh d (AttnConfig.scaling c);
        Some (out, Some st1)
    | None =>
        keys ← to_bhtd (flat3 (b * t) kvh d (at_row seq_key)) b t kvh d;
        values ← to_bhtd (flat2 (b * t) (kvh * d) (λ r, lin (v_proj w) None hid (row r))) b t kvh d;
        out ← attend q keys values b t 0 h kvh d (AttnConfig.scaling c);
        Some (out, None)
    end) = Some (attended, st')) →
  ∃ tr, attn_forward_impl hw c w (chunk b t hid start X) b t
      (rope_table c fcos t start) (rope_table c fsin t start) st = Some (tr, st') ∧
    tr_o_proj tr = chunk b t hid start (λ bi, attn_seq (X bi)).
Proof.
  intros Hwf Ht Hatt. unfold attn_forward_impl, chunk. fold hid h kvh d rd row.
  rewrite assert_true by apply length_flat2. cbn [mbind option_bind].
  unfold AttnConfig.q_out_dim, AttnConfig.kv_out_dim. fold h kvh d.
  rewrite (linear_spec hw (q_proj w) None _ _ _ _ row) by (done || apply (wf_q Hwf)).
  cbn [mbind option_bind].
  rewrite (linear_spec hw (k_proj w) None _ _ _ _ row) by (done || apply (wf_k Hwf)).
  cbn [mbind option_bind].
  rewrite (linear_spec hw (v_proj w) None _ _ _ _ row) by (done || apply (wf_v Hwf)).
  cbn [mbind option_bind].
  set (qf := λ r, lin (q_proj w) None hid (row r)).
  assert (∀ r hh a k, r < b * t → hh < h → a + k ≤ 2 * d →
    slice_at (flat2 (b * t) (h * d * 2) qf) (r * (h * (2 * d)) + hh * (2 * d) + a)
      (r * (h * (2 * d)) + hh * (2 * d) + a + k)
    = Some (tab k (λ i, qf r (hh * (2 * d) + a + i)))) as Hs.
  { intros r hh a k Hr Hhh Hak. replace (h * d * 2) with (h * (2 * d)) by lia.
    rewrite <- (Nat.add_assoc (r * (h * (2 * d)))). rewrite slice_row; [done..|].
    assert (hh * (2 * d) + 2 * d ≤ h * (2 * d)) by nia. lia. }
  rewrite (collect_rows_tab (b * t) _ (λ r, flat2 h d (λ hh i, qf r (hh * (2 * d) + d + i)))).
  2:{ intros r Hr. apply collect_rows_flat2. intros hh Hhh. cbn beta zeta.
      pose proof (Hs r hh d d Hr Hhh ltac:(lia)) as Hs0. rewrite <- Hs0. f_equal. lia. }
  rewrite (collect_rows_tab (b * t) _ (λ r, flat2 h d (λ hh i, qf r (hh * (2 * d) + i)))).
  2:{ intros r Hr. apply collect_rows_flat2. intros hh Hhh. cbn beta zeta.
      pose proof (Hs r hh 0 d Hr Hhh ltac:(lia)) as Hs0. rewrite !Nat.add_0_r in Hs0. exact Hs0. }
  cbn [mbind option_bind].
  change (concat (tab (b * t) (λ r, flat2 h d (λ hh i, qf r (hh * (2 * d) + i)))))
    with (flat3 (b * t) h d (at_row seq_q)).
  change (concat (tab (b * t) (λ r, flat2 h d (λ hh i, qf r (hh * (2 * d) + d + i)))))
    with (flat3 (b * t) h d (at_row seq_gate)).
  rewrite (rmsnorm_1plus_spec (q_norm w) _ (b * t * h) d _
    (λ r, at_row seq_q (r / h) (r mod h)) (wf_q_norm Hwf)).
  2:{ apply flat3_rows. }
  cbn [mbind option_bind].
  rewrite (rmsnorm_1plus_spec (k_norm w) _ (b * t * kvh) d _
    (λ r i, lin (k_proj w) None hid (row (r / kvh)) (r mod kvh * d + i)) (wf_k_norm Hwf)).
  2:{ by rewrite flat2_cols3, flat3_rows. }
  cbn [mbind option_bind].
  rewrite !(flat2_rows3 (b * t)). unfold rope_table. fold rd.
  rewrite (apply_rope_spec (b * t) h d t rd _ _ _ Ht (wf_rotary Hwf)). cbn [mbind option_bind].
  rewrite (apply_rope_spec (b * t) kvh d t rd _ _ _ Ht (wf_rotary Hwf)). cbn [mbind option_bind].
  assert (flat3 (b * t) h d (λ r hh, rotated rd (rope_entry c fcos (start + r mod t))
      (rope_entry c fsin (start + r mod t)) (norm1 (q_norm w) d (at_eps c)
        (at_row seq_q ((r * h + hh) / h) ((r * h + hh) mod h))))
    = flat3 (b * t) h d (at_row seq_query)) as ->.
  { apply flat3_ext. intros r hh i _ Hhh _. by destruct (row_coords h r hh Hhh) as [-> ->]. }
  assert (flat3 (b * t) kvh d (λ r hh, rotated rd (rope_entry c fcos (start + r mod t))
      (rope_entry c fsin (start + r mod t)) (norm1 (k_norm w) d (at_eps c)
        (λ i, lin (k_proj w) None hid (row ((r * kvh + hh) / kvh)) ((r * kvh + hh) mod kvh * d + i))))
    = flat3 (b * t) kvh d (at_row seq_key)) as ->.
  { apply flat3_ext. intros r hh i _ Hhh _. by destruct (row_coords kvh r hh Hhh) as [-> ->]. }
  rewrite (Hatt _ eq_refl). cbn [mbind option_bind].
  unfold attended at 1. rewrite (from_bhtd_spec b t (λ bi ti hh, seq_attended (X bi) (start + ti) hh)).
  cbn [mbind option_bind].
  rewrite (collect_list _ _ (flat3 (b * t) h d (at_row seq_gated))); [|apply length_flat3|].
  2:{ intros i Hi. destruct (coords _ _ _ Hi) as (r & j & Hr & Hj & ->).
      destruct (coords _ _ _ Hr) as (r' & hh & Hr' & Hhh & ->). by rewrite !lookup_flat3. }
  cbn [mbind option_bind].
  erewrite (linear_spec hw (o_proj w) None); [|apply (wf_o Hwf)|done|apply flat3_cols].
  cbn [mbind option_bind]. eexists. split; [done|]. done.
Qed.

(** Continuing from the cache of the first [start] positions. *)
Lemma attn_forward_chunk : attn_wf → 0 < t →
  ∃ tr, attn_forward_with_state hw c w (chunk b t hid start X) b t
      (rope_table c fcos t start) (rope_table c fsin t start) (attn_state_at b X start)
      = Some (tr, attn_state_at b X (start + t)) ∧
    tr_o_proj tr = chunk b t hid start (λ bi, attn_seq (X bi)).
Proof.
  intros Hwf Ht.
  destruct (attn_forward_impl_spec (Some (attn_state_at b X start))
    (Some (attn_state_at b X (start + t))) Hwf Ht) as (tr & Htr & Ho).
  - intros q ->. rewrite flat2_cols3.
    match goal with |- (?m ≫= _) = _ =>
      assert (m = Some (attn_state_at b X (start + t))) as -> by
        exact (append_kv_spec b t kvh d start (λ bi, seq_key (X bi)) (λ bi, seq_value (X bi)))
    end.
    cbn [mbind option_bind]. unfold attn_state_at. cbn [as_k as_v as_len].
    match goal with |- (?m ≫= _) = _ => assert (m = Some attended) as -> by
      exact (attend_spec d _ b t start h kvh (λ bi p, seq_query (X bi) p)
        (λ bi, seq_key (X bi)) (λ bi, seq_value (X bi)) (wf_groups Hwf) (wf_gqa Hwf))
    end.
    done.
  - exists tr. split; [|done]. unfold attn_forward_with_state. by rewrite Htr.
Qed.
End chunk.

(** From the start, without a cache. *)
Lemma attn_forward_whole b t X : attn_wf → 0 < t →
  ∃ tr, attn_forward hw c w (chunk b t hid 0 X) b t
      (rope_table c fcos t 0) (rope_table c fsin t 0) = Some tr ∧
    tr_o_proj tr = chunk b t hid 0 (λ bi, attn_seq (X bi)).
Proof.
  intros Hwf Ht.
  destruct (attn_forward_impl_spec b t 0 X None None Hwf Ht) as (tr & Htr & Ho).
  - intros q ->. rewrite flat2_cols3, !to_bhtd_spec. cbn [mbind option_bind Nat.add].
    assert (∀ F : nat → nat → nat → nat → f32,
      flat3 (b * kvh) t d (λ r ti, F ((r / kvh * t + ti) / t) ((r / kvh * t + ti) mod t) (r mod kvh))
      = kv_tensor b kvh d (0 + t) F) as Hkv.
    { intros F. apply flat3_ext. intros r ti i _ Hti _.
      by destruct (row_coords t (r / kvh) ti Hti) as [-> ->]. }
    match goal with |- context [attend _ ?k ?v] =>
      replace k with (kv_tensor b kvh d (0 + t) (λ bi, seq_key (X bi)))
        by exact (eq_sym (Hkv (λ bi, seq_key (X bi))));
      replace v with (kv_tensor b kvh d (0 + t) (λ bi, seq_value (X bi)))
        by exact (eq_sym (Hkv (λ bi, seq_value (X bi))))
    end.
    match goal with |- (?m ≫= _) = Some (?a, _) => assert (m = Some a) as -> by
      exact (attend_spec d _ b t 0 h kvh (λ bi p, seq_query (X bi) p)
        (λ bi, seq_key (X bi)) (λ bi, seq_value (X bi)) (wf_groups Hwf) (wf_gqa Hwf))
    end.
    done.
  - exists tr. split; [|done]. unfold attn_forward. by rewrite Htr.
Qed.
End attn.
