(* ===== verification/Layer.v ===== *)
(** * The decoder layer

    Models qwen35-forward/gdn/src/layer.rs: a token mixer and an MLP, each
    behind its norm and added to a residual. *)

From stdpp Require Import list.
From S2P Require Import Prelude Float Tensor Linear Gdn Attention.
#[local] Open Scope nat_scope.

(** A panic, or an error the caller is handed. *)
Inductive err (E : Type) :=
| Panic
| Error (e : E).
Arguments Panic {E}.
Arguments Error {E} e.

(** [r.map_err(f)]: a panic passes through. *)
Definition map_err {E F A} (f : E → F) (r : result (err E) A) : result (err F) A :=
  match r with
  | Ok a => Ok a
  | Err Panic => Err Panic
  | Err (Error e) => Err (Error (f e))
  end.

(** An operation that can only panic. *)
Definition run {E A} (o : option A) : result (err E) A := ok_or Panic o.

Record MlpWeights := mkMlpWeights { gate_proj : vec; up_proj : vec; down_proj : vec }.

Record MlpTrace := mkMlpTrace {
  mt_gate_proj : vec;
  mt_up_proj : vec;
  mt_swiglu_product : vec;
  mt_down_proj : vec;
}.

Inductive Mixer :=
| LinearAttention (cfg : GdnConfig) (w : GdnWeights)
| FullAttention (cfg : AttnConfig) (w : AttnWeights).

Inductive MixerTrace :=
| LinearTrace (t : GdnTrace)
| FullTrace (t : AttnTrace).

(** The tensor that feeds the first residual. *)
Definition output (m : MixerTrace) : vec :=
  match m with
  | LinearTrace t => gt_out_proj t
  | FullTrace t => tr_o_proj t
  end.

Inductive MixerState :=
| LinearState (s : GdnState)
| FullState (s : AttnState).

Definition state_bytes (s : MixerState) : nat :=
  match s with
  | LinearState g => GdnState.bytes g
  | FullState a => AttnState.bytes a
  end.

Record LayerWeights := mkLayerWeights {
  input_layernorm : vec;
  post_attention_layernorm : vec;
  mlp : MlpWeights;
}.

Record LayerTrace := mkLayerTrace {
  lt_input_layernorm : vec;
  lt_mixer : MixerTrace;
  lt_after_first_residual : vec;
  lt_post_attention_layernorm : vec;
  lt_mlp : MlpTrace;
  lt_out : vec;
}.

Inductive layer_error :=
| NeedsRope
| LinearStateForFullAttention
| FullStateForLinearAttention.

Section layer.
Context `{Libm} (hw : Z).

Definition mlp_forward (w : MlpWeights) (x : vec) (rows hidden intermediate : nat) :
    option MlpTrace :=
  gate ← linear hw (gate_proj w) None x rows hidden intermediate;
  up ← linear hw (up_proj w) None x rows hidden intermediate;
  product ← collect (rows * intermediate) (λ i,
    g ← gate !! i; u ← up !! i; Some (F32.mul (silu g) u));
  down ← linear hw (down_proj w) None product rows intermediate hidden;
  Some (mkMlpTrace gate up product down).

(** The dispatch on the mixer and its state, over the normalised input. *)
Definition run_mixer (mixer : Mixer) (ln : vec) (b t : nat) (rope : option (vec * vec))
    (state : option MixerState) : result (err layer_error) (MixerTrace * option MixerState) :=
  match mixer, state with
  | LinearAttention cfg gw, None =>
      tr ← run (gdn_forward hw cfg gw ln b t); Ok (LinearTrace tr, None)
  | LinearAttention cfg gw, Some (LinearState st) =>
      '(tr, st) ← run (gdn_forward_with_state hw cfg gw ln b t st);
      Ok (LinearTrace tr, Some (LinearState st))
  | FullAttention cfg aw, st =>
      match rope with
      | None => Err (Error NeedsRope)
      | Some (cos, sin) =>
          match st with
          | None => tr ← run (attn_forward hw cfg aw ln b t cos sin); Ok (FullTrace tr, None)
          | Some (FullState st) =>
              '(tr, st) ← run (attn_forward_with_state hw cfg aw ln b t cos sin st);
              Ok (FullTrace tr, Some (FullState st))
          | Some (LinearState _) => Err (Error LinearStateForFullAttention)
          end
      end
  | LinearAttention _ _, Some (FullState _) => Err (Error FullStateForLinearAttention)
  end.

Definition layer_forward_from_mixer (lw : LayerWeights) (layer_input input_layernorm_out : vec)
    (mixer : MixerTrace) (rows : nat) (eps : f32) : option LayerTrace :=
  let hidden := length (input_layernorm lw) in
  let mixer_out := output mixer in
  _ ← assert_ (length layer_input = rows * hidden);
  _ ← assert_ (length mixer_out = rows * hidden);
  _ ← assert_ (length input_layernorm_out = rows * hidden);
  after_first ← collect (rows * hidden) (λ i,
    x ← layer_input !! i; y ← mixer_out !! i; Some (F32.add x y));
  post_ln ← rmsnorm_1plus (post_attention_layernorm lw) after_first rows hidden eps;
  intermediate ← ndiv (length (gate_proj (mlp lw))) hidden;
  m ← mlp_forward (mlp lw) post_ln rows hidden intermediate;
  out ← collect (length after_first) (λ i,
    x ← after_first !! i; y ← mt_down_proj m !! i; Some (F32.add x y));
  Some (mkLayerTrace input_layernorm_out mixer after_first post_ln m out).

Definition layer_forward_inner (mixer : Mixer) (lw : LayerWeights) (hidden_in : vec) (b t : nat)
    (eps : f32) (rope : option (vec * vec)) (state : option MixerState) :
    result (err layer_error) (LayerTrace * option MixerState) :=
  let rows := b * t in
  let hidden := length (input_layernorm lw) in
  _ ← run (assert_ (length hidden_in = rows * hidden));
  ln ← run (rmsnorm_1plus (input_layernorm lw) hidden_in rows hidden eps);
  '(trace, state) ← run_mixer mixer ln b t rope state;
  tr ← run (layer_forward_from_mixer lw hidden_in ln trace rows eps);
  Ok (tr, state).

Definition layer_forward (mixer : Mixer) (lw : LayerWeights) (hidden_in : vec) (b t : nat)
    (eps : f32) (rope : option (vec * vec)) : result (err layer_error) LayerTrace :=
  '(tr, _) ← layer_forward_inner mixer lw hidden_in b t eps rope None; Ok tr.

Definition layer_forward_with_state (mixer : Mixer) (lw : LayerWeights) (hidden_in : vec)
    (b t : nat) (eps : f32) (rope : option (vec * vec)) (state : MixerState) :
    result (err layer_error) (LayerTrace * MixerState) :=
  '(tr, st) ← layer_forward_inner mixer lw hidden_in b t eps rope (Some state);
  st ← run st; Ok (tr, st).
End layer.
