(* ===== verification/LayerProps.v ===== *)
(** * A layer over a sequence

    What a mixer owes the layer, as a class: one function of the sequence,
    which the whole pass computes from the start and the stateful pass
    computes from any position on, given the state that position has.  Both
    mixers are instances, and a layer over such a mixer is again a function
    of the sequence. *)

From stdpp Require Import list.
From S2P Require Import Prelude Float Tensor Linear LinearProps Delta DeltaProps Gdn GdnProps.
From S2P Require Import Attention AttentionProps Layer.
#[local] Open Scope nat_scope.
#[local] Opaque F32.add F32.sub F32.mul F32.div F32.sqrt to_f32 to_f64 f32_of_nat.

(** A batch of sequences: the row of sequence [bi] at position [p]. *)
Abbreviation batch := (nat → nat → nat → f32) (only parsing).

Class SequenceMixer `{Libm} (hw : Z) (acfg : AttnConfig) (hid : nat) (m : Mixer) := {
  mix_seq : (nat → nat → f32) → nat → nat → f32;
  mix_state : nat → batch → nat → MixerState;
  mix_whole b t X : 0 < t →
    ∃ tr, run_mixer hw m (chunk b t hid 0 X) b t
        (Some (rope_table acfg fcos t 0, rope_table acfg fsin t 0)) None = Ok (tr, None) ∧
      output tr = chunk b t hid 0 (λ bi, mix_seq (X bi));
  mix_chunk b t start X : 0 < t →
    ∃ tr, run_mixer hw m (chunk b t hid start X) b t
        (Some (rope_table acfg fcos t start, rope_table acfg fsin t start))
        (Some (mix_state b X start)) = Ok (tr, Some (mix_state b X (start + t))) ∧
      output tr = chunk b t hid start (λ bi, mix_seq (X bi));
}.

#[export] Instance gdn_mixer `{Libm} hw acfg cfg w (Hwf : gdn_wf cfg w) :
  SequenceMixer hw acfg (g_hidden cfg) (LinearAttention cfg w).
Proof.
  refine {| mix_seq := gdn_seq cfg w;
            mix_state b X n := LinearState (gdn_state_at cfg w b X n) |}.
  - intros b t X _. destruct (gdn_forward_whole hw cfg w b t X Hwf) as (tr & Htr & Ho).
    exists (LinearTrace tr). split; [|exact Ho]. cbn [run_mixer]. by rewrite Htr.
  - intros b t start X _. destruct (gdn_forward_chunk hw cfg w b t start X Hwf) as (tr & Htr & Ho).
    exists (LinearTrace tr). split; [|exact Ho]. cbn [run_mixer]. by rewrite Htr.
Defined.

#[export] Instance attn_mixer `{Libm} hw cfg w (Hwf : attn_wf cfg w) :
  SequenceMixer hw cfg (at_hidden cfg) (FullAttention cfg w).
Proof.
  refine {| mix_seq := attn_seq cfg w;
            mix_state b X n := FullState (attn_state_at cfg w b X n) |}.
  - intros b t X Ht. destruct (attn_forward_whole hw cfg w b t X Hwf Ht) as (tr & Htr & Ho).
    exists (FullTrace tr). split; [|exact Ho]. cbn [run_mixer]. by rewrite Htr.
  - intros b t start X Ht.
    destruct (attn_forward_chunk hw cfg w b t start X Hwf Ht) as (tr & Htr & Ho).
    exists (FullTrace tr). split; [|exact Ho]. cbn [run_mixer]. by rewrite Htr.
Defined.

(** ** The MLP *)
Section layer.
Context `{Libm} (hw : Z).

Definition inter (lw : LayerWeights) : nat := length (gate_proj (mlp lw)) / length (input_layernorm lw).

Record layer_wf (lw : LayerWeights) (hid : nat) : Prop := {
  wf_in_norm : length (input_layernorm lw) = hid;
  wf_post_norm : length (post_attention_layernorm lw) = hid;
  wf_gate : length (gate_proj (mlp lw)) = inter lw * hid;
  wf_up : length (up_proj (mlp lw)) = inter lw * hid;
  wf_down : length (down_proj (mlp lw)) = hid * inter lw;
  wf_hidden : 0 < hid;
}.

Section row.
Context (lw : LayerWeights) (hid : nat) (eps : f32).

(** The MLP on one row, SwiGLU between its projections. *)
Definition mlp_row (x : nat → f32) : nat → f32 :=
  lin (down_proj (mlp lw)) None (inter lw) (λ j,
    F32.mul (silu (lin (gate_proj (mlp lw)) None hid x j)) (lin (up_proj (mlp lw)) None hid x j)).

Lemma mlp_forward_spec rows X : layer_wf lw hid →
  ∃ tr, mlp_forward hw (mlp lw) (flat2 rows hid X) rows hid (inter lw) = Some tr ∧
    mt_down_proj tr = flat2 rows hid (λ r, mlp_row (X r)).
Proof.
  intros Hwf. unfold mlp_forward.
  rewrite (linear_spec hw (gate_proj (mlp lw)) None _ _ _ _ X) by (done || apply (wf_gate _ _ Hwf)).
  cbn [mbind option_bind].
  rewrite (linear_spec hw (up_proj (mlp lw)) None _ _ _ _ X) by (done || apply (wf_up _ _ Hwf)).
  cbn [mbind option_bind].
  rewrite (collect_list _ _ (flat2 rows (inter lw) (λ r j,
    F32.mul (silu (lin (gate_proj (mlp lw)) None hid (X r) j)) (lin (up_proj (mlp lw)) None hid (X r) j))));
    [|apply length_flat2|].
  2:{ intros i Hi. destruct (coords _ _ _ Hi) as (r & j & Hr & Hj & ->). by rewrite !lookup_flat2. }
  cbn [mbind option_bind].
  erewrite (linear_spec hw (down_proj (mlp lw)) None); [|apply (wf_down _ _ Hwf)|done|done].
  cbn [mbind option_bind]. eexists. split; [done|]. done.
Qed.

(** The layer over a sequence, given its mixer's function. *)
Definition normed (X : nat → nat → f32) (p : nat) : nat → f32 :=
  norm1 (input_layernorm lw) hid eps (X p).
Definition after_mixer (m : nat → nat → f32) (X : nat → nat → f32) (p i : nat) : f32 :=
  F32.add (X p i) (m p i).
Definition after_mlp (Y : nat → nat → f32) (p i : nat) : f32 :=
  F32.add (Y p i) (mlp_row (norm1 (post_attention_layernorm lw) hid eps (Y p)) i).
Definition layer_seq (mix : (nat → nat → f32) → nat → nat → f32) (X : nat → nat → f32) :
    nat → nat → f32 :=
  after_mlp (after_mixer (mix (normed X)) X).

Lemma layer_tail_spec b t start X mix tr : layer_wf lw hid →
  output tr = chunk b t hid start (λ bi, mix (normed (X bi))) →
  ∃ lt, layer_forward_from_mixer hw lw (chunk b t hid start X)
      (chunk b t hid start (λ bi, normed (X bi))) tr (b * t) eps = Some lt ∧
    lt_out lt = chunk b t hid start (λ bi, layer_seq mix (X bi)).
Proof.
  intros Hwf Ho. unfold layer_forward_from_mixer. rewrite Ho, (wf_in_norm _ _ Hwf).
  rewrite !assert_true by apply length_flat2. cbn [mbind option_bind].
  rewrite (collect_list _ _ (chunk b t hid start (λ bi, after_mixer (mix (normed (X bi))) (X bi))));
    [|apply length_flat2|].
  2:{ intros i Hi. destruct (coords _ _ _ Hi) as (r & j & Hr & Hj & ->).
      unfold chunk. by rewrite !lookup_flat2. }
  cbn [mbind option_bind].
  erewrite (rmsnorm_1plus_spec (post_attention_layernorm lw)); [|apply (wf_post_norm _ _ Hwf)|done].
  cbn [mbind option_bind]. pose proof (wf_hidden _ _ Hwf).
  rewrite ndiv_Some by lia. cbn [mbind option_bind].
  assert (length (gate_proj (mlp lw)) / hid = inter lw) as ->.
  { unfold inter. by rewrite (wf_in_norm _ _ Hwf). }
  edestruct (mlp_forward_spec (b * t)) as (mt & -> & Hmt); [done|]. cbn [mbind option_bind].
  rewrite Hmt. assert (∀ Y, length (chunk b t hid start Y) = b * t * hid) as Hlen
    by (intros; apply length_flat2).
  rewrite Hlen.
  rewrite (collect_list _ _ (chunk b t hid start (λ bi, layer_seq mix (X bi)))); [|apply length_flat2|].
  2:{ intros i Hi. destruct (coords _ _ _ Hi) as (r & j & Hr & Hj & ->).
      unfold chunk. by rewrite !lookup_flat2. }
  cbn [mbind option_bind]. eexists. done.
Qed.

Context (acfg : AttnConfig) (m : Mixer) `{!SequenceMixer hw acfg hid m}.

Lemma layer_norm_spec b t start X : layer_wf lw hid →
  rmsnorm_1plus (input_layernorm lw) (chunk b t hid start X) (b * t) hid eps
  = Some (chunk b t hid start (λ bi, normed (X bi))).
Proof. intros Hwf. by erewrite rmsnorm_1plus_spec; [|apply (wf_in_norm _ _ Hwf)|done]. Qed.

(** The state of the layer's mixer before position [n]. *)
Definition layer_state (b : nat) (X : batch) (n : nat) : MixerState :=
  mix_state b (λ bi, normed (X bi)) n.

Lemma layer_forward_spec b t X : layer_wf lw hid → 0 < t →
  ∃ lt, layer_forward hw m lw (chunk b t hid 0 X) b t eps
      (Some (rope_table acfg fcos t 0, rope_table acfg fsin t 0)) = Ok lt ∧
    lt_out lt = chunk b t hid 0 (λ bi, layer_seq mix_seq (X bi)).
Proof.
  intros Hwf Ht. unfold layer_forward, layer_forward_inner. rewrite (wf_in_norm _ _ Hwf).
  rewrite assert_true by apply length_flat2. cbn [run ok_or mbind result_bind].
  rewrite layer_norm_spec by done. cbn [run ok_or mbind result_bind].
  destruct (mix_whole b t (λ bi, normed (X bi)) Ht) as (tr & -> & Ho). cbn [mbind result_bind].
  destruct (layer_tail_spec b t 0 X mix_seq tr Hwf Ho) as (lt & -> & Hlt). eauto.
Qed.

Lemma layer_forward_with_state_spec b t start X : layer_wf lw hid → 0 < t →
  ∃ lt, layer_forward_with_state hw m lw (chunk b t hid start X) b t eps
      (Some (rope_table acfg fcos t start, rope_table acfg fsin t start)) (layer_state b X start)
      = Ok (lt, layer_state b X (start + t)) ∧
    lt_out lt = chunk b t hid start (λ bi, layer_seq mix_seq (X bi)).
Proof.
  intros Hwf Ht. unfold layer_forward_with_state, layer_forward_inner. rewrite (wf_in_norm _ _ Hwf).
  rewrite assert_true by apply length_flat2. cbn [run ok_or mbind result_bind].
  rewrite layer_norm_spec by done. cbn [run ok_or mbind result_bind].
  destruct (mix_chunk b t start (λ bi, normed (X bi)) Ht) as (tr & Htr & Ho).
  unfold layer_state. rewrite Htr. cbn [mbind result_bind].
  destruct (layer_tail_spec b t start X mix_seq tr Hwf Ho) as (lt & -> & Hlt). eauto.
Qed.
End row.
End layer.
