(* ===== verification/PyJson.v ===== *)
(** * shell-text: the Python-compatible JSON reader and writer

    Models shell/crates/shell-text/src/pyjson.rs.  The writer works on scalar
    values; the parser works on the UTF-8 bytes of its input, as the code does.
    A parser state is the unread suffix [b[i..]] with the index [i]. *)

From S2P Require Import Prelude Serde Rstr Utf8 Float.

(** ** Values *)

Inductive Value :=
| Null
| Bool (b : bool)
| Int (i : Z)
| Float (x : f64)
| Str (s : rstr)
| Array (a : list Value)
| Object (kv : list (rstr * Value)).

(** The induction principle that reaches into arrays and objects. *)
Section Value_induction.
Variable P : Value → Prop.
Hypothesis HNull : P Null.
Hypothesis HBool : ∀ b, P (Bool b).
Hypothesis HInt : ∀ i, P (Int i).
Hypothesis HFloat : ∀ x, P (Float x).
Hypothesis HStr : ∀ s, P (Str s).
Hypothesis HArray : ∀ a, Forall P a → P (Array a).
Hypothesis HObject : ∀ kv, Forall (λ e, P e.2) kv → P (Object kv).

Fixpoint Value_nested_ind (v : Value) : P v :=
  match v with
  | Null => HNull
  | Bool b => HBool b
  | Int i => HInt i
  | Float x => HFloat x
  | Str s => HStr s
  | Array a =>
      HArray a ((fix go (l : list Value) : Forall P l :=
        match l with
        | [] => Forall_nil_2 _
        | x :: l' => Forall_cons_2 _ _ _ (Value_nested_ind x) (go l')
        end) a)
  | Object kv =>
      HObject kv ((fix go (l : list (rstr * Value)) : Forall (λ e, P e.2) l :=
        match l with
        | [] => Forall_nil_2 _
        | (k, x) :: l' =>
            Forall_cons_2 (λ e, P e.2) (k, x) l' (Value_nested_ind x) (go l')
        end) kv)
  end.
End Value_induction.

Fixpoint Value_eqb (x y : Value) : bool :=
  match x, y with
  | Null, Null => true
  | Bool b, Bool b' => Bool.eqb b b'
  | Int i, Int i' => bool_decide (i = i')
  | Float x, Float x' => bool_decide (x = x')
  | Str s, Str s' => bool_decide (s = s')
  | Array a, Array a' =>
      (fix go l l' :=
        match l, l' with
        | [], [] => true
        | x :: l, x' :: l' => Value_eqb x x' && go l l'
        | _, _ => false
        end) a a'
  | Object kv, Object kv' =>
      (fix go l l' :=
        match l, l' with
        | [], [] => true
        | (k, x) :: l, (k', x') :: l' => bool_decide (k = k') && Value_eqb x x' && go l l'
        | _, _ => false
        end) kv kv'
  | _, _ => false
  end.

Lemma Value_eqb_eq x y : Value_eqb x y = true ↔ x = y.
Proof.
  revert y. induction x as [|b|i|x|s|a IH|kv IH] using Value_nested_ind;
    intros [|b'|i'|x'|s'|a'|kv']; cbn; rewrite ?bool_decide_eq_true, ?Bool.eqb_true_iff;
    try (split; congruence).
  - trans (a = a'); [|split; congruence].
    revert a'. induction IH as [|x a Hx _ IHa]; intros [|x' a']; try (split; congruence).
    rewrite andb_true_iff, Hx, IHa. split; [intros [-> ->]; done|intros [= -> ->]; done].
  - trans (kv = kv'); [|split; congruence].
    revert kv'. induction IH as [|[k x] a Hx _ IHa]; intros [|[k' x'] a']; try (split; congruence).
    rewrite !andb_true_iff, bool_decide_eq_true, IHa. cbn in Hx. rewrite Hx.
    split; [intros [[-> ->] ->]; done|intros [= -> -> ->]; done].
Qed.

#[export] Instance Value_eq_dec : EqDecision Value.
Proof.
  intros x y. destruct (Value_eqb x y) eqn:E; [left|right].
  - by apply Value_eqb_eq.
  - intros H%Value_eqb_eq. congruence.
Defined.

Module Value.
Definition get (v : Value) (key : rstr) : option Value :=
  match v with
  | Object kv => snd <$> (snd <$> list_find (λ e, e.1 = key) kv)
  | _ => None
  end.

Definition contains_key (v : Value) (key : rstr) : bool :=
  match v with
  | Object kv => existsb (λ e, bool_decide (e.1 = key)) kv
  | Str s => contains key s
  | _ => false
  end.

Definition as_str (v : Value) : option rstr :=
  match v with Str s => Some s | _ => None end.
Definition as_array (v : Value) : option (list Value) :=
  match v with Array a => Some a | _ => None end.
Definition as_f64 (v : Value) : option f64 :=
  match v with Int i => Some (F64.of_Z i) | Float f => Some f | _ => None end.
Definition as_bool (v : Value) : option bool :=
  match v with Bool b => Some b | _ => None end.
Definition as_usize (v : Value) : option Z :=
  match v with Int i => if decide (u64 i) then Some i else None | _ => None end.
Definition as_nonempty_array (v : Value) : option (list Value) :=
  match v with Array (x :: a) => Some (x :: a) | _ => None end.
End Value.

(** ** Writing *)

Definition DQUOTE : char := 34.
Definition SQUOTE : char := 39.
Definition BACKSLASH : char := 92.

(** [zeros n]: the loop that pushes ['0'] [n] times. *)
Definition zeros (n : Z) : rstr := replicate (Z.to_nat n) 48.

(** The layout [py_repr_f64] gives to a digit string and a decimal exponent. *)
Definition py_layout (neg : bool) (digits : rstr) (exp : Z) : rstr :=
  let decpt := exp + 1 in
  (if neg then lit "-" else []) ++
  (if decide (decpt <= -4 ∨ decpt > 16) then
     let e := decpt - 1 in
     take 1 digits ++ (if decide (len digits > 1) then lit "." ++ drop 1 digits else []) ++
     lit "e" ++ (if decide (e < 0) then lit "-" else lit "+") ++
     (if decide (Z.abs e < 10) then lit "0" else []) ++ show_nat (Z.abs e)
   else if decide (decpt <= 0) then lit "0." ++ zeros (- decpt) ++ digits
   else if decide (decpt >= len digits) then digits ++ zeros (decpt - len digits) ++ lit ".0"
   else take (Z.to_nat decpt) digits ++ lit "." ++ drop (Z.to_nat decpt) digits).

Definition py_repr_f64 (x : f64) : rstr :=
  match x with
  | S754_nan => lit "NaN"
  | S754_infinity s => if s then lit "-Infinity" else lit "Infinity"
  | _ => match fmt_e x with
         | Some (neg, digits, exp) => py_layout neg digits exp
         | None => []
         end
  end.

Definition hex_digit (d : Z) : char := if decide (d < 10) then 48 + d else 87 + d.
Definition hex2 (c : Z) : rstr := [hex_digit (c / 16); hex_digit (c mod 16)].

(** The characters [json_escape_into] pushes for one [c]. *)
Definition json_escape_char (c : char) : rstr :=
  if decide (c = DQUOTE) then [BACKSLASH; DQUOTE]
  else if decide (c = BACKSLASH) then [BACKSLASH; BACKSLASH]
  else if decide (c = 10) then BACKSLASH :: lit "n"
  else if decide (c = 13) then BACKSLASH :: lit "r"
  else if decide (c = 9) then BACKSLASH :: lit "t"
  else if decide (c = 8) then BACKSLASH :: lit "b"
  else if decide (c = 12) then BACKSLASH :: lit "f"
  else if decide (c < 0x20) then BACKSLASH :: lit "u00" ++ hex2 c
  else [c].

Definition json_escape_into (s : rstr) (out : rstr) : rstr := out ++ (s ≫= json_escape_char).

(** A quoted, escaped string. *)
Definition json_quote (s : rstr) : rstr := json_escape_into s [DQUOTE] ++ [DQUOTE].

(** The [if i > 0 { out.push_str(", ") }] loops. *)
Fixpoint join (sep : rstr) (l : list rstr) : rstr :=
  match l with
  | [] => []
  | [x] => x
  | x :: l' => x ++ sep ++ join sep l'
  end.

Fixpoint dumps_into (v : Value) (out : rstr) : rstr :=
  out ++
  match v with
  | Null => lit "null"
  | Bool true => lit "true"
  | Bool false => lit "false"
  | Int i => show_Z i
  | Float f => py_repr_f64 f
  | Str s => json_quote s
  | Array a => lit "[" ++ join (lit ", ") (map (λ e, dumps_into e []) a) ++ lit "]"
  | Object kv =>
      lit "{" ++
      join (lit ", ") (map (λ '(k, e), json_quote k ++ lit ": " ++ dumps_into e []) kv) ++
      lit "}"
  end.

Definition dumps (v : Value) : rstr := dumps_into v [].

(** Python's [repr] of a string. *)
Definition py_repr_char (quote : char) (c : char) : rstr :=
  if decide (c = BACKSLASH) then [BACKSLASH; BACKSLASH]
  else if decide (c = 10) then BACKSLASH :: lit "n"
  else if decide (c = 13) then BACKSLASH :: lit "r"
  else if decide (c = 9) then BACKSLASH :: lit "t"
  else if decide (c = quote) then [BACKSLASH; c]
  else if decide (c < 0x20 ∨ c = 0x7f) then BACKSLASH :: lit "x" ++ hex2 c
  else [c].

Definition py_repr_str (s : rstr) : rstr :=
  let quote := if bool_decide (SQUOTE ∈ s) && negb (bool_decide (DQUOTE ∈ s))
               then DQUOTE else SQUOTE in
  [quote] ++ (s ≫= py_repr_char quote) ++ [quote].

(** Python's [str]; [py_repr] differs from it on strings only. *)
Fixpoint py_str (v : Value) : rstr :=
  let py_repr v := match v with Str s => py_repr_str s | other => py_str other end in
  match v with
  | Null => lit "None"
  | Bool true => lit "True"
  | Bool false => lit "False"
  | Int i => show_Z i
  | Float f => py_repr_f64 f
  | Str s => s
  | Array a => lit "[" ++ join (lit ", ") (map py_repr a) ++ lit "]"
  | Object kv =>
      lit "{" ++ join (lit ", ") (map (λ '(k, e), py_repr_str k ++ lit ": " ++ py_repr e) kv)
      ++ lit "}"
  end.

Definition py_repr (v : Value) : rstr :=
  match v with Str s => py_repr_str s | other => py_str other end.

(** ** Parsing *)

(** One constructor per error message, with the byte index it prints.
    [IndexOutOfRange] stands for the panic of an out-of-range slice and
    [OutOfFuel] for a recursion the bound cut short: neither happens. *)
Inductive parse_error :=
| Expected (c : Z) (pos : Z) (found : option Z)
| ExpectedLit (s : rstr) (pos : Z)
| Unexpected (c : Z) (pos : Z)
| UnexpectedEndOfInput
| ExpectedCommaOr (closer : Z) (pos : Z)
| UnterminatedString
| UnterminatedEscape
| HighSurrogateAlone
| BadSurrogatePair
| NotACharacter (hi : Z)
| UnknownEscape (e : Z)
| InvalidUtf8
| TruncatedUEscape
| InvalidUtf8InUEscape
| NotFourHexDigits (s : rstr)
| LeadingZero (pos : Z)
| DotWithoutDigit (pos : Z)
| ExponentWithoutDigits (pos : Z)
| NotANumber (text : list Z)
| NotAFloat (text : list Z)
| NotAnI128 (text : list Z)
| TrailingInput (pos : Z)
| IndexOutOfRange
| OutOfFuel.

Record Parser := mkParser { rest : list Z; pos : Z }.

Abbreviation presult A := (result parse_error (A * Parser)%type).

Module Parser.

Definition adv (n : nat) (p : Parser) : Parser :=
  mkParser (drop n (rest p)) (pos p + Z.of_nat n).

Definition is_ws (c : Z) : bool := (c =? 32) || (c =? 9) || (c =? 10) || (c =? 13).

(** [while self.peek().is_some_and(f) { self.i += 1 }] and what it skipped. *)
Fixpoint take_while (f : Z → bool) (l : list Z) : list Z :=
  match l with
  | c :: l' => if f c then c :: take_while f l' else []
  | [] => []
  end.
Definition skip (f : Z → bool) (p : Parser) : list Z * Parser :=
  let t := take_while f (rest p) in (t, adv (length t) p).

Definition ws (p : Parser) : Parser := (skip is_ws p).2.

Definition peek (p : Parser) : option Z := head (rest p).

Definition eat (c : Z) (p : Parser) : presult unit :=
  if decide (peek p = Some c) then Ok (tt, adv 1 p) else Err (Expected c (pos p) (peek p)).

Definition parse_lit (s : rstr) (p : Parser) : presult unit :=
  if starts_with (utf8 s) (rest p) then Ok (tt, adv (length (utf8 s)) p)
  else Err (ExpectedLit s (pos p)).

(** [u32::from_str_radix(s, 16)]: a leading [+] is allowed by the standard library. *)
Definition hex_val (c : Z) : option Z :=
  if is_digit c then Some (c - 48)
  else if (97 <=? c) && (c <=? 102) then Some (c - 87)
  else if (65 <=? c) && (c <=? 70) then Some (c - 55)
  else None.
Definition from_str_radix16 (s : rstr) : option Z :=
  let ds := match s with 43 :: (_ :: _) as ds => ds | _ => s end in
  match ds with
  | [] => None
  | _ => foldl (λ acc c, a ← acc; d ← hex_val c; Some (16 * a + d)) (Some 0) ds
  end.

Definition hex4 (p : Parser) : presult Z :=
  if decide (len (rest p) < 4) then Err TruncatedUEscape else
  s ← ok_or InvalidUtf8InUEscape (from_utf8 (take 4 (rest p)));
  v ← ok_or (NotFourHexDigits s) (from_str_radix16 s);
  Ok (v, adv 4 p).

Definition utf8_len (b : Z) : nat :=
  if (b <=? 0x7f) then 1%nat
  else if (0xc0 <=? b) && (b <=? 0xdf) then 2%nat
  else if (0xe0 <=? b) && (b <=? 0xef) then 3%nat
  else 4%nat.

(** [let s = &b[i..i + n]; i += n] *)
Definition take_bytes (n : nat) (p : Parser) : presult (list Z) :=
  if decide (length (rest p) < n)%nat then Err IndexOutOfRange
  else Ok (take n (rest p), adv n p).

(** The escape after a backslash. *)
Definition escape (p : Parser) : presult char :=
  e ← ok_or UnterminatedEscape (peek p);
  let p := adv 1 p in
  if decide (e = DQUOTE ∨ e = BACKSLASH ∨ e = 47) then Ok (e, p)
  else if decide (e = 98) then Ok (8, p)
  else if decide (e = 102) then Ok (12, p)
  else if decide (e = 110) then Ok (10, p)
  else if decide (e = 114) then Ok (13, p)
  else if decide (e = 116) then Ok (9, p)
  else if decide (e = 117) then
    '(hi, p) ← hex4 p;
    if decide (0xd800 ≤ hi < 0xdc00) then
      '(_, p) ← parse_lit (BACKSLASH :: lit "u") p;
      '(lo, p) ← hex4 p;
      if decide (0xdc00 ≤ lo < 0xe000) then
        let cp := 0x10000 + (Z.shiftl (hi - 0xd800) 10) + (lo - 0xdc00) in
        c ← ok_or BadSurrogatePair (from_u32 cp); Ok (c, p)
      else Err HighSurrogateAlone
    else c ← ok_or (NotACharacter hi) (from_u32 hi); Ok (c, p)
  else Err (UnknownEscape e).

(** The loop of [string]; it consumes at least a byte per round. *)
Fixpoint string_loop (fuel : nat) (out : rstr) (p : Parser) : presult rstr :=
  match fuel with
  | O => Err OutOfFuel
  | S fuel =>
      c ← ok_or UnterminatedString (peek p);
      if decide (c = DQUOTE) then Ok (out, adv 1 p)
      else if decide (c = BACKSLASH) then
        '(ch, p) ← escape (adv 1 p);
        string_loop fuel (out ++ [ch]) p
      else
        '(bs, p) ← take_bytes (utf8_len c) p;
        s ← ok_or InvalidUtf8 (from_utf8 bs);
        string_loop fuel (out ++ s) p
  end.

Definition string (p : Parser) : presult rstr :=
  '(_, p) ← eat DQUOTE p;
  string_loop (S (length (rest p))) [] p.

Definition i128 (i : Z) : Prop := - 2 ^ 127 ≤ i < 2 ^ 127.
#[export] Instance i128_dec i : Decision (i128 i).
Proof. unfold i128. apply _. Defined.

(** The optional fraction: [None] when there is no point. *)
Definition fraction (p : Parser) : presult (option (list Z)) :=
  if decide (peek p = Some 46) then
    let '(ds, p') := skip is_digit (adv 1 p) in
    if decide (ds = []) then Err (DotWithoutDigit (pos p')) else Ok (Some ds, p')
  else Ok (None, p).

(** The optional exponent, as its sign and digits. *)
Definition exponent (p : Parser) : presult (option (bool * list Z)) :=
  if decide (peek p = Some 101 ∨ peek p = Some 69) then
    let p := adv 1 p in
    let neg := bool_decide (peek p = Some 45) in
    let p := if decide (peek p = Some 43 ∨ peek p = Some 45) then adv 1 p else p in
    let '(ds, p') := skip is_digit p in
    if decide (ds = []) then Err (ExponentWithoutDigits (pos p')) else Ok (Some (neg, ds), p')
  else Ok (None, p).

Definition number (p : Parser) : presult Value :=
  let start := p in
  let neg := bool_decide (peek p = Some 45) in
  let p := if neg then adv 1 p else p in
  let int_start := pos p in
  let '(int_digits, p) := skip is_digit p in
  if decide (len int_digits > 1 ∧ head int_digits = Some 48) then Err (LeadingZero int_start) else
  '(frac, p) ← fraction p;
  '(ex, p) ← exponent p;
  let text := take (Z.to_nat (pos p - pos start)) (rest start) in
  match frac, ex with
  | None, None =>
      if decide (int_digits = []) then Err (NotANumber text) else
      let i := if neg then - value_of int_digits else value_of int_digits in
      if decide (i128 i) then Ok (Int i, p) else Err (NotAnI128 text)
  | _, _ =>
      let e := match ex with
               | Some (true, ds) => - value_of ds
               | Some (false, ds) => value_of ds
               | None => 0
               end in
      x ← ok_or (NotAFloat text) (f64_from_parts neg int_digits (default [] frac) e);
      Ok (Float x, p)
  end.

(** [value], [object] and [array].  Each call and each loop round takes one
    unit of fuel; twice the remaining length is always enough. *)
Fixpoint value (fuel : nat) (p : Parser) : presult Value :=
  match fuel with
  | O => Err OutOfFuel
  | S fuel =>
      match peek p with
      | None => Err UnexpectedEndOfInput
      | Some c =>
          if decide (c = 123) then
            '(_, p) ← eat 123 p;
            let p := ws p in
            if decide (peek p = Some 125) then Ok (Object [], adv 1 p)
            else object_loop fuel [] p
          else if decide (c = 91) then
            '(_, p) ← eat 91 p;
            let p := ws p in
            if decide (peek p = Some 93) then Ok (Array [], adv 1 p)
            else array_loop fuel [] p
          else if decide (c = DQUOTE) then '(s, p) ← string p; Ok (Str s, p)
          else if decide (c = 116) then '(_, p) ← parse_lit (lit "true") p; Ok (Bool true, p)
          else if decide (c = 102) then '(_, p) ← parse_lit (lit "false") p; Ok (Bool false, p)
          else if decide (c = 110) then '(_, p) ← parse_lit (lit "null") p; Ok (Null, p)
          else if decide (c = 45 ∨ is_digit c = true) then number p
          else Err (Unexpected c (pos p))
      end
  end
with object_loop (fuel : nat) (kv : list (rstr * Value)) (p : Parser) : presult Value :=
  match fuel with
  | O => Err OutOfFuel
  | S fuel =>
      '(k, p) ← string (ws p);
      '(_, p) ← eat 58 (ws p);
      '(v, p) ← value fuel (ws p);
      let kv := kv ++ [(k, v)] in
      let p := ws p in
      if decide (peek p = Some 44) then object_loop fuel kv (adv 1 p)
      else if decide (peek p = Some 125) then Ok (Object kv, adv 1 p)
      else Err (ExpectedCommaOr 125 (pos p))
  end
with array_loop (fuel : nat) (a : list Value) (p : Parser) : presult Value :=
  match fuel with
  | O => Err OutOfFuel
  | S fuel =>
      '(v, p) ← value fuel (ws p);
      let a := a ++ [v] in
      let p := ws p in
      if decide (peek p = Some 44) then array_loop fuel a (adv 1 p)
      else if decide (peek p = Some 93) then Ok (Array a, adv 1 p)
      else Err (ExpectedCommaOr 93 (pos p))
  end.

End Parser.
Import Parser.

(** [parse], on the bytes of its argument. *)
Definition parse_bytes (b : list Z) : result parse_error Value :=
  let p := ws (mkParser b 0) in
  '(v, p) ← value (2 * length b + 2) p;
  let p := ws p in
  if decide (rest p = []) then Ok v else Err (TrailingInput (pos p)).

Definition parse (src : rstr) : result parse_error Value := parse_bytes (utf8 src).
