(* ===== verification/PyJsonProps.v ===== *)
(** * Properties of the JSON reader and writer

    Totality of the parser (it neither runs out of its fuel nor indexes out of
    range, and what it returns is well formed) and the round trip of the
    writer through the parser. *)

From S2P Require Import Prelude Serde Rstr Utf8 Float FloatProps FloatText PyJson.
Import PyJson.Parser.

(** ** Specification *)

(** A value a Rust [Value] can hold, with a condition on its floats. *)
Fixpoint wf_value (F : f64 → Prop) (v : Value) : Prop :=
  match v with
  | Null | Bool _ => True
  | Int i => i128 i
  | Float x => F x
  | Str s => Forall scalar s
  | Array a => foldr (λ x P, wf_value F x ∧ P) True a
  | Object kv => foldr (λ e P, (Forall scalar e.1 ∧ wf_value F e.2) ∧ P) True kv
  end.

Lemma foldr_and {A} (P : A → Prop) l : foldr (λ x Q, P x ∧ Q) True l ↔ Forall P l.
Proof.
  induction l as [|x l IH]; cbn; [by rewrite Forall_nil|by rewrite IH, Forall_cons].
Qed.

Lemma wf_Array F a : wf_value F (Array a) ↔ Forall (wf_value F) a.
Proof. apply (foldr_and (wf_value F)). Qed.

Lemma wf_Object F kv :
  wf_value F (Object kv) ↔ Forall (λ e, Forall scalar e.1 ∧ wf_value F e.2) kv.
Proof. apply (foldr_and (λ e : rstr * Value, Forall scalar e.1 ∧ wf_value F e.2)). Qed.

(** ** Totality of the parser *)

(** The cursor is at a character boundary. *)
Definition bnd (p : Parser) : Prop := ∃ s, Forall scalar s ∧ rest p = utf8 s.

(** A parser result that satisfies [Q], stopped at a boundary and consumed at
    least [n] bytes; or an error the code reports. *)
Definition good {A} (Q : A → Prop) (n : nat) (p : Parser) (r : presult A) : Prop :=
  match r with
  | Ok (a, p') => Q a ∧ bnd p' ∧ (n + length (rest p') ≤ length (rest p))%nat
  | Err e => e ≠ OutOfFuel ∧ e ≠ IndexOutOfRange
  end.

Lemma good_bind {A B} (Q : A → Prop) (R : B → Prop) n k p (m : presult A) f :
  good Q n p m →
  (∀ a p', Q a → bnd p' → (n + length (rest p') ≤ length (rest p))%nat → good R k p' (f (a, p'))) →
  good R (n + k) p (m ≫= f).
Proof.
  destruct m as [[a p']|e]; cbn; [|done]. intros (HQ & Hb & Hl) Hf.
  specialize (Hf a p' HQ Hb Hl). destruct (f (a, p')) as [[b p'']|e]; cbn in *; [|done].
  destruct Hf as (?&?&?). repeat split; try done. lia.
Qed.

Lemma good_weaken {A} (Q : A → Prop) n k p (m : presult A) :
  good Q n p m → (k ≤ n)%nat → good Q k p m.
Proof. destruct m as [[a p']|e]; cbn; [|done]. intros (?&?&?) ?. repeat split; try done. lia. Qed.

Lemma good_ok_or {A B} (R : B → Prop) n p e (o : option A) (f : A → presult B) :
  e ≠ OutOfFuel ∧ e ≠ IndexOutOfRange → (∀ a, o = Some a → good R n p (f a)) →
  good R n p (ok_or e o ≫= f).
Proof. destruct o; cbn; auto. Qed.

(** Skipping [n] consumed bytes before the rest of a parser runs. *)
Lemma good_from {A} (R : A → Prop) n k p p' (r : presult A) :
  (k + length (rest p') ≤ length (rest p))%nat → good R n p' r → good R (k + n) p r.
Proof. destruct r as [[a q]|e]; cbn; [|done]. intros ? (?&?&?). repeat split; try done. lia. Qed.

Lemma length_adv n p : length (rest (adv n p)) = (length (rest p) - n)%nat.
Proof. apply length_drop. Qed.

Lemma take_while_spec f l :
  ∃ r, l = take_while f l ++ r ∧ Forall (λ c, f c = true) (take_while f l) ∧
       drop (length (take_while f l)) l = r ∧ (∀ c, head r = Some c → f c = false).
Proof.
  induction l as [|c l (r & IH & Hf & Hd & Hr)]; cbn; [by exists []|].
  destruct (f c) eqn:Hc; cbn.
  - exists r. rewrite <- IH. auto.
  - exists (c :: l). repeat split; [constructor|]. by intros ? [= <-].
Qed.

Lemma bnd_drop p s1 l : bnd p → Forall (λ c, 0 ≤ c < 128) s1 → rest p = s1 ++ l →
  bnd (adv (length s1) p).
Proof.
  intros (s & Hs & He) H1 Hr.
  apply (utf8_split s s1 l) in Hs as (s2 & -> & Hs2 & ->).
  - exists s2. split; [done|]. unfold adv. cbn. rewrite Hr. by rewrite drop_app_length.
  - eapply Forall_impl; [done|]. cbn. left. lia.
  - by rewrite <- He, (utf8_ascii s1).
Qed.

Lemma bnd_skip f p : bnd p → (∀ c, f c = true → 0 ≤ c < 128) → bnd (skip f p).2.
Proof.
  intros Hb Hf. unfold skip. cbn.
  destruct (take_while_spec f (rest p)) as (r & He & Ht & _ & _).
  eapply bnd_drop; [done| |exact He]. eapply Forall_impl; [done|auto].
Qed.

Lemma length_skip f p : (length (rest (skip f p).2) + length (skip f p).1 = length (rest p))%nat.
Proof.
  unfold skip. cbn. destruct (take_while_spec f (rest p)) as (r & He & _).
  apply (f_equal length) in He. rewrite length_app in He. rewrite length_drop. lia.
Qed.

Lemma is_ws_ascii c : is_ws c = true → 0 ≤ c < 128.
Proof. unfold is_ws. rewrite !orb_true_iff, !Z.eqb_eq. lia. Qed.

Lemma is_digit_ascii c : is_digit c = true → 0 ≤ c < 128.
Proof. unfold is_digit. rewrite andb_true_iff, !Z.leb_le. lia. Qed.

Lemma bnd_ws p : bnd p → bnd (ws p).
Proof. intros. apply bnd_skip; [done|apply is_ws_ascii]. Qed.

Lemma length_ws p : (length (rest (ws p)) ≤ length (rest p))%nat.
Proof. pose proof (length_skip is_ws p). unfold ws. lia. Qed.

Lemma peek_Some p c : peek p = Some c → rest p = c :: rest (adv 1 p).
Proof. unfold peek, adv. cbn. destruct (rest p); cbn; [done|]. by intros [= ->]. Qed.

Lemma bnd_adv1 p c : bnd p → peek p = Some c → 0 ≤ c < 128 → bnd (adv 1 p).
Proof.
  intros Hb Hp Hc. apply peek_Some in Hp. eapply (bnd_drop _ [c]); [done| |exact Hp].
  by apply Forall_singleton.
Qed.

Lemma length_adv1 p c : peek p = Some c → length (rest p) = S (length (rest (adv 1 p))).
Proof. intros Hp. apply peek_Some in Hp. by rewrite Hp. Qed.

Lemma eat_good c p : bnd p → 0 ≤ c < 128 → good (λ _, True) 1 p (eat c p).
Proof.
  intros Hb Hc. unfold eat. case_decide as Hp; [|done].
  cbn. split; [done|]. split; [by eapply bnd_adv1|]. rewrite length_drop.
  apply length_adv1 in Hp. lia.
Qed.

Lemma parse_lit_good s p : bnd p → Forall (λ c, 0 ≤ c < 128) s →
  good (λ _, True) (length s) p (parse_lit s p).
Proof.
  intros Hb Hs. unfold parse_lit. rewrite utf8_ascii by done.
  destruct (starts_with s (rest p)) eqn:E; [|done].
  apply starts_with_spec in E as [t Ht]. cbn. split; [done|].
  split; [by eapply bnd_drop|]. rewrite Ht, length_drop, length_app. lia.
Qed.

Lemma hex_val_ascii c d : hex_val c = Some d → 0 ≤ c < 128 ∧ 0 ≤ d < 16.
Proof.
  unfold hex_val. destruct (is_digit c) eqn:E.
  - unfold is_digit in E. rewrite andb_true_iff, !Z.leb_le in E. intros [= <-]. lia.
  - destruct ((97 <=? c) && (c <=? 102)) eqn:E1;
      [|destruct ((65 <=? c) && (c <=? 70)) eqn:E2; [|done]];
      rewrite andb_true_iff, !Z.leb_le in *; intros [= <-]; lia.
Qed.

Lemma foldl_hex_None l : foldl (λ acc c, a ← acc; d ← hex_val c; Some (16 * a + d)) None l = None.
Proof. by induction l. Qed.

Lemma foldl_hex l a v :
  foldl (λ acc c, a ← acc; d ← hex_val c; Some (16 * a + d)) (Some a) l = Some v →
  Forall (λ c, 0 ≤ c < 128) l ∧ (0 ≤ a → 0 ≤ v).
Proof.
  revert a; induction l as [|c l IH]; intros a; cbn; [intros [= ->]; auto|].
  destruct (hex_val c) as [d|] eqn:E; cbn; [|by rewrite foldl_hex_None].
  intros Hf. apply hex_val_ascii in E as [??]. apply IH in Hf as [??].
  split; [by constructor|]. intros. cbn in *. lia.
Qed.

Lemma from_str_radix16_ascii s v : from_str_radix16 s = Some v →
  Forall (λ c, 0 ≤ c < 128) s ∧ 0 ≤ v.
Proof.
  unfold from_str_radix16. intros H.
  destruct (match s with 43 :: (_ :: _) as ds => ds | _ => s end) as [|d ds] eqn:E; [done|].
  apply foldl_hex in H as [Hd Hv]. split; [|apply Hv; lia].
  destruct s as [|c s]; [constructor|].
  destruct (decide (c = 43)) as [->|Hc].
  - destruct s as [|c' s]; [repeat constructor; lia|]. constructor; [lia|]. by rewrite E.
  - assert (c :: s = d :: ds) as ->; [|done]. rewrite <- E.
    destruct c as [|c|c]; try done. repeat (destruct c as [c|c|]; try done).
Qed.

Lemma hex4_good p : bnd p → good (Z.le 0) 4 p (hex4 p).
Proof.
  intros Hb. unfold hex4. case_decide as Hl; [done|].
  apply good_ok_or; [done|]. intros s Hs. apply good_ok_or; [done|]. intros v Hv.
  apply from_utf8_Some in Hs as [_ Hs]. apply from_str_radix16_ascii in Hv as [Ha Hv].
  rewrite utf8_ascii in Hs by done.
  assert (length s = 4%nat) as Hs4 by (rewrite Hs, length_take; zsolve).
  cbn. split; [done|]. split; [|rewrite length_drop; zsolve].
  rewrite <- Hs4. eapply bnd_drop; [done..|]. rewrite Hs. by rewrite take_drop.
Qed.

Lemma from_u32_scalar v c : from_u32 v = Some c → scalar c.
Proof. unfold from_u32. case_decide; [|done]. by intros [= <-]. Qed.

Ltac good_err := split; discriminate.

Lemma escape_good p : bnd p → good scalar 1 p (escape p).
Proof.
  intros Hb. unfold escape. apply good_ok_or; [done|]. intros e He.
  assert (∀ c, 0 ≤ e < 128 → scalar c → good scalar 1 p (Ok (c, adv 1 p))) as Hok.
  { intros c Hc Hsc. cbn. split; [done|]. split; [by eapply bnd_adv1|].
    rewrite length_drop. apply length_adv1 in He. lia. }
  case_decide as H1; [apply Hok; [|left]; unfold DQUOTE, BACKSLASH in *; lia|].
  do 5 (case_decide; [apply Hok; [|left]; lia|]).
  case_decide; [|done].
  apply (good_from _ 0 1 p (adv 1 p)); [apply length_adv1 in He; lia|].
  assert (bnd (adv 1 p)) as Hb1 by (eapply bnd_adv1; [done..|lia]).
  eapply good_weaken; [eapply good_bind; [by apply hex4_good|]|apply Nat.le_0_l].
  intros hi p1 Hhi Hb2 _. cbn -[parse_lit hex4].
  case_decide; cycle 1.
  { apply good_ok_or; [done|]. intros c Hc%from_u32_scalar. instantiate (1 := 0%nat).
    by cbn. }
  eapply good_weaken; [eapply good_bind; [apply parse_lit_good; [done|]|]|apply Nat.le_0_l].
  { repeat constructor; cbn; unfold BACKSLASH; lia. }
  intros _ p2 _ Hb3 _. cbn -[hex4].
  eapply good_bind; [by apply hex4_good|].
  intros lo p3 Hlo Hb4 _. cbn. case_decide; [|done].
  apply good_ok_or; [done|]. intros c Hc%from_u32_scalar. instantiate (1 := 0%nat). by cbn.
Qed.

Lemma utf8_len_encode c : scalar c →
  ∃ b l, encode_char c = b :: l ∧ utf8_len b = length (encode_char c) ∧ (128 ≤ c → 128 ≤ b) ∧
         (c < 128 → b = c).
Proof.
  intros Hc. unfold encode_char, scalar in *.
  case_bools; eexists _, _; (split; [reflexivity|]); unfold utf8_len; cbn [length];
    bool_facts; (split; [|split; intros; try lia; try zdivmod]);
    case_bools; try done; bool_facts; zdivmod.
Qed.

(** One plain character of a string. *)
Lemma take_char p c s : scalar c → Forall scalar s → rest p = utf8 (c :: s) →
  ∃ b, peek p = Some b ∧ (128 ≤ c → 128 ≤ b) ∧ (c < 128 → b = c) ∧
    take_bytes (utf8_len b) p = Ok (encode_char c, adv (length (encode_char c)) p) ∧
    from_utf8 (encode_char c) = Some [c] ∧ rest (adv (length (encode_char c)) p) = utf8 s.
Proof.
  intros Hc Hs Hr. destruct (utf8_len_encode c Hc) as (b & l & He & Hl & Hb1 & Hb2).
  exists b. unfold peek, take_bytes, adv. rewrite Hr, utf8_cons, Hl. cbn.
  rewrite drop_app_length, take_app_length, He. repeat split; try done.
  - rewrite decide_False; [done|]. rewrite length_app. lia.
  - rewrite <- He. pose proof (from_utf8_encode c [] Hc) as H. by rewrite app_nil_r in H.
Qed.

Lemma string_loop_good fuel out p :
  bnd p → Forall scalar out → (length (rest p) < fuel)%nat →
  good (Forall scalar) 1 p (string_loop fuel out p).
Proof.
  revert out p; induction fuel as [|fuel IH]; intros out p Hb Ho Hf; [lia|].
  cbn -[escape take_bytes]. apply good_ok_or; [done|]. intros b Hp.
  pose proof (length_adv1 _ _ Hp) as Hl.
  case_decide as H1.
  { cbn. split; [done|]. split; [|cbn in *; lia].
    eapply bnd_adv1; [done..|]. subst. unfold DQUOTE. lia. }
  case_decide as H2.
  { apply (good_from _ 1 0 p (adv 1 p)); [lia|].
    assert (bnd (adv 1 p)) as Hb1 by (eapply bnd_adv1; [done..|subst; unfold BACKSLASH; lia]).
    eapply good_weaken; [eapply good_bind; [by apply escape_good|]|apply Nat.le_succ_diag_r].
    intros c p' Hc Hb' Hl'. apply IH; [done| |lia].
    apply Forall_app_2; [done|by apply Forall_singleton]. }
  destruct Hb as (s & Hs & He). destruct s as [|c s].
  { apply peek_Some in Hp. by rewrite He in Hp. }
  apply Forall_cons in Hs as [Hc Hs].
  destruct (take_char p c s) as (b' & Hb' & _ & _ & Ht & Hd & Hr); [done..|].
  assert (b' = b) as -> by congruence. rewrite Ht. cbn -[string_loop]. rewrite Hd. cbn -[string_loop].
  assert (1 ≤ length (encode_char c))%nat as H1c.
  { destruct (utf8_len_encode c Hc) as (? & ? & -> & _). cbn. lia. }
  assert (length (encode_char c) ≤ length (rest p))%nat as Hle.
  { rewrite He, utf8_cons, length_app. lia. }
  apply (good_from _ 1 0 p (adv (length (encode_char c)) p)); [rewrite length_adv; lia|].
  apply IH; [by exists s|apply Forall_app_2; [done|by apply Forall_singleton]|].
  rewrite length_adv. lia.
Qed.

Lemma string_good p : bnd p → good (Forall scalar) 2 p (string p).
Proof.
  intros Hb. unfold string. eapply (good_bind _ _ 1 1).
  - apply (eat_good DQUOTE); [done|]. unfold DQUOTE. lia.
  - intros _ p' _ Hb' _. by apply string_loop_good; [..|lia].
Qed.

Lemma fraction_good p : bnd p → good (λ _, True) 0 p (fraction p).
Proof.
  intros Hb. unfold fraction. case_decide as Hp; [|by cbn].
  destruct (skip is_digit (adv 1 p)) as [ds p'] eqn:Hs.
  case_decide; [done|]. cbn. split; [done|].
  assert (bnd (adv 1 p)) as Hb1 by (eapply bnd_adv1; [done..|lia]).
  pose proof (bnd_skip is_digit _ Hb1 is_digit_ascii) as Hb2. rewrite Hs in Hb2.
  pose proof (length_skip is_digit (adv 1 p)) as Hl. rewrite Hs in Hl. cbn in Hl.
  split; [done|]. rewrite length_drop in Hl. lia.
Qed.

Lemma exponent_good p : bnd p → good (λ _, True) 0 p (exponent p).
Proof.
  intros Hb. unfold exponent. case_decide as Hp; [|by cbn].
  assert (bnd (adv 1 p)) as Hb1 by (destruct Hp; eapply bnd_adv1; try done; lia).
  set (p1 := if decide _ then _ else _).
  assert (bnd p1 ∧ (length (rest p1) ≤ length (rest p))%nat) as [Hb2 Hl2].
  { subst p1. case_decide as Hq; rewrite ?length_adv; (split; [|lia]); [|done].
    destruct Hq; eapply bnd_adv1; try done; lia. }
  destruct (skip is_digit p1) as [ds p'] eqn:Hs.
  case_decide; [done|]. cbn. split; [done|].
  pose proof (bnd_skip is_digit _ Hb2 is_digit_ascii) as Hb3. rewrite Hs in Hb3.
  pose proof (length_skip is_digit p1) as Hl. rewrite Hs in Hl. cbn in Hl.
  split; [done|]. lia.
Qed.

Definition any_float (x : f64) : Prop := True.

Lemma number_good p c : bnd p → peek p = Some c → c = 45 ∨ is_digit c = true →
  good (wf_value any_float) 1 p (number p).
Proof.
  intros Hb Hp Hc. unfold number.
  set (p1 := if bool_decide _ then _ else _).
  assert (p1 = adv 1 p ∧ c = 45 ∨ p1 = p ∧ c ≠ 45) as Hp1.
  { subst p1. case_bool_decide; [left|right]; split; congruence. }
  clearbody p1. destruct (skip is_digit p1) as [ds p2] eqn:Hs.
  assert (bnd p1) as Hb1.
  { destruct Hp1 as [[-> ->]|[-> _]]; [|done]. eapply bnd_adv1; [done..|lia]. }
  assert (S (length (rest p2)) ≤ length (rest p))%nat as Hl.
  { pose proof (length_skip is_digit p1) as Hl. rewrite Hs in Hl. cbn [fst snd] in Hl.
    pose proof (length_adv1 _ _ Hp). destruct Hp1 as [[-> ->]|[-> H45]]; [lia|].
    destruct Hc as [->|Hc]; [done|].
    unfold skip in Hs. apply peek_Some in Hp. rewrite Hp in Hs. cbn in Hs.
    rewrite Hc in Hs. injection Hs as <- <-. cbn [length] in Hl. lia. }
  assert (bnd p2) as Hb2.
  { pose proof (bnd_skip is_digit _ Hb1 is_digit_ascii) as Hb2. by rewrite Hs in Hb2. }
  case_decide; [done|].
  apply (good_from _ 0 1 p p2); [lia|].
  apply (good_bind _ _ 0 0 _ _ _ (fraction_good p2 Hb2)). intros frac p3 _ Hb3 _.
  apply (good_bind _ _ 0 0 _ _ _ (exponent_good p3 Hb3)). intros ex p4 _ Hb4 _. cbn.
  assert (∀ x t, good (wf_value any_float) 0 p4 (x ← ok_or (NotAFloat t) x; Ok (Float x, p4))) as Hfl.
  { intros x t. apply good_ok_or; [done|]. intros y _. by cbn. }
  destruct frac as [fr|], ex as [[sg eds]|]; try apply Hfl.
  case_decide; [done|]. case_decide; [|done]. by cbn.
Qed.

#[local] Arguments ws : simpl never.

(** A document needs two units of fuel per byte. *)
Lemma value_good fuel : ∀ p, bnd p →
  ((2 * length (rest p) + 1 ≤ fuel)%nat → good (wf_value any_float) 1 p (value fuel p)) ∧
  (∀ kv, Forall (λ e, Forall scalar e.1 ∧ wf_value any_float e.2) kv →
     (2 * length (rest p) + 2 ≤ fuel)%nat → good (wf_value any_float) 1 p (object_loop fuel kv p)) ∧
  (∀ a, Forall (wf_value any_float) a →
     (2 * length (rest p) + 2 ≤ fuel)%nat → good (wf_value any_float) 1 p (array_loop fuel a p)).
Proof.
  induction fuel as [|fuel IH]; intros p Hb; [repeat split; intros; lia|].
  assert (∀ A (v : A) c q (W : A → Prop), bnd q → peek q = Some c → 0 ≤ c < 128 → W v →
    good W 1 q (Ok (v, adv 1 q))) as Hclose.
  { intros A v c q W Hq Hp Hc Hv. cbn. split; [done|]. split; [by eapply bnd_adv1|].
    rewrite length_drop. apply length_adv1 in Hp. lia. }
  split; [|split].
  - intros Hf. cbn -[eat parse_lit string number].
    destruct (peek p) as [c|] eqn:Hp; [|done].
    case_decide as H1; [|case_decide as H2; [|case_decide as H3;
      [|case_decide as H4; [|case_decide as H5; [|case_decide as H6; [|case_decide as H7; [|done]]]]]]].
    + eapply (good_bind _ _ 1 0); [apply (eat_good 123); [done|lia]|].
      intros _ p' _ Hb' Hl'. cbn -[object_loop]. pose proof (length_ws p') as Hw.
      apply (good_from _ 0 0 p' (ws p')); [lia|]. apply bnd_ws in Hb'.
      case_decide as He; [eapply good_weaken; [eapply Hclose; try done; lia|lia]|].
      destruct (IH _ Hb') as (_ & IHo & _).
      eapply good_weaken; [apply IHo; [constructor|lia]|lia].
    + eapply (good_bind _ _ 1 0); [apply (eat_good 91); [done|lia]|].
      intros _ p' _ Hb' Hl'. cbn -[array_loop]. pose proof (length_ws p') as Hw.
      apply (good_from _ 0 0 p' (ws p')); [lia|]. apply bnd_ws in Hb'.
      case_decide as He; [eapply good_weaken; [eapply Hclose; try done; lia|lia]|].
      destruct (IH _ Hb') as (_ & _ & IHa).
      eapply good_weaken; [apply IHa; [constructor|lia]|lia].
    + eapply good_weaken; [eapply (good_bind _ _ 2 0); [by apply string_good|]|lia].
      intros s p' Hs Hb' _. by cbn.
    + eapply good_weaken; [eapply (good_bind _ _ 4 0); [apply parse_lit_good; [done|]|]|lia].
      { repeat constructor; cbn; lia. } intros ? p' ? Hb' _. by cbn.
    + eapply good_weaken; [eapply (good_bind _ _ 5 0); [apply parse_lit_good; [done|]|]|lia].
      { repeat constructor; cbn; lia. } intros ? p' ? Hb' _. by cbn.
    + eapply good_weaken; [eapply (good_bind _ _ 4 0); [apply parse_lit_good; [done|]|]|lia].
      { repeat constructor; cbn; lia. } intros ? p' ? Hb' _. by cbn.
    + by eapply number_good.
  - intros kv Hkv Hf. cbn -[eat string value]. pose proof (length_ws p) as Hw.
    apply (good_from _ 1 0 p (ws p)); [lia|]. apply bnd_ws in Hb.
    eapply good_weaken; [eapply (good_bind _ _ 2 0); [by apply string_good|]|lia].
    intros k p1 Hk Hb1 Hl1. cbn -[eat value object_loop]. pose proof (length_ws p1) as Hw1.
    apply (good_from _ 0 0 p1 (ws p1)); [lia|]. apply bnd_ws in Hb1.
    eapply good_weaken; [eapply (good_bind _ _ 1 0); [apply (eat_good 58); [done|lia]|]|lia].
    intros _ p2 _ Hb2 Hl2. cbn -[value object_loop]. pose proof (length_ws p2) as Hw2.
    apply (good_from _ 0 0 p2 (ws p2)); [lia|]. apply bnd_ws in Hb2.
    eapply good_weaken; [eapply (good_bind _ _ 1 0)|lia].
    { apply IH; [done|lia]. }
    intros v p3 Hv Hb3 Hl3. cbn -[object_loop]. pose proof (length_ws p3) as Hw3.
    apply (good_from _ 0 0 p3 (ws p3)); [lia|]. apply bnd_ws in Hb3.
    assert (Forall (λ e, Forall scalar e.1 ∧ wf_value any_float e.2) (kv ++ [(k, v)])) as Hkv'.
    { apply Forall_app. split; [done|]. by apply Forall_singleton. }
    case_decide as H44; [|case_decide as H125; [|done]].
    + pose proof (length_adv1 _ _ H44). assert (bnd (adv 1 (ws p3))) as Hb4.
      { eapply bnd_adv1; [done..|lia]. }
      apply (good_from _ 0 0 _ (adv 1 (ws p3))); [lia|].
      eapply good_weaken; [apply (IH _ Hb4); [done|lia]|lia].
    + eapply good_weaken; [eapply Hclose; try done|lia]. by apply wf_Object.
  - intros a Ha Hf. cbn -[value]. pose proof (length_ws p) as Hw.
    apply (good_from _ 1 0 p (ws p)); [lia|]. apply bnd_ws in Hb.
    eapply (good_bind _ _ 1 0).
    { apply IH; [done|lia]. }
    intros v p3 Hv Hb3 Hl3. cbn -[array_loop]. pose proof (length_ws p3) as Hw3.
    apply (good_from _ 0 0 p3 (ws p3)); [lia|]. apply bnd_ws in Hb3.
    assert (Forall (wf_value any_float) (a ++ [v])) as Ha'.
    { apply Forall_app. split; [done|]. by apply Forall_singleton. }
    case_decide as H44; [|case_decide as H125; [|done]].
    + pose proof (length_adv1 _ _ H44). assert (bnd (adv 1 (ws p3))) as Hb4.
      { eapply bnd_adv1; [done..|lia]. }
      apply (good_from _ 0 0 _ (adv 1 (ws p3))); [lia|].
      eapply good_weaken; [apply (IH _ Hb4); [done|lia]|lia].
    + eapply good_weaken; [eapply Hclose; try done|lia]. by apply wf_Array.
Qed.

(** ** Round trip: scanning the pieces the writer emits *)

Lemma ws_id c t i : is_ws c = false → ws (mkParser (c :: t) i) = mkParser (c :: t) (i + 0).
Proof. intros Hc. unfold ws, skip. cbn. by rewrite Hc. Qed.

Lemma ws_nil i : ws (mkParser [] i) = mkParser [] (i + 0).
Proof. done. Qed.

Lemma ws_space c t i : is_ws c = false → ws (mkParser (32 :: c :: t) i) = mkParser (c :: t) (i + 1).
Proof. intros Hc. unfold ws, skip. cbn. by rewrite Hc. Qed.

Lemma take_while_app f l t : Forall (λ c, f c = true) l → (∀ c, head t = Some c → f c = false) →
  take_while f (l ++ t) = l.
Proof.
  intros Hl Ht. induction Hl as [|c l Hc _ IH]; cbn.
  - destruct t as [|c t]; [done|]. cbn. by rewrite Ht.
  - by rewrite Hc, IH.
Qed.

Lemma skip_app f l t i : Forall (λ c, f c = true) l → (∀ c, head t = Some c → f c = false) →
  skip f (mkParser (l ++ t) i) = (l, mkParser t (i + len l)).
Proof.
  intros Hl Ht. unfold skip, adv. cbn. rewrite take_while_app by done. by rewrite drop_app_length.
Qed.

(** *** Strings *)

Lemma hex4_reads a b c d s v r i : from_utf8 [a; b; c; d] = Some s → from_str_radix16 s = Some v →
  hex4 (mkParser (a :: b :: c :: d :: r) i) = Ok (v, mkParser r (i + 4)).
Proof.
  intros Hs Hv. unfold hex4. rewrite decide_False by (unfold len; cbn; lia).
  change (take 4 (rest _)) with [a; b; c; d]. rewrite Hs. cbn. by rewrite Hv.
Qed.

Lemma control_hex c : 0 ≤ c < 32 →
  ∃ h1 h2, hex2 c = [h1; h2] ∧ 0 ≤ h1 < 128 ∧ 0 ≤ h2 < 128 ∧
    from_utf8 [48; 48; h1; h2] = Some [48; 48; h1; h2] ∧
    from_str_radix16 [48; 48; h1; h2] = Some c.
Proof.
  intros Hc. exists (hex_digit (c / 16)), (hex_digit (c mod 16)).
  assert (∃ n, (n < 32)%nat ∧ c = Z.of_nat n) as (n & Hn & ->) by (exists (Z.to_nat c); lia).
  clear Hc. do 32 (destruct n as [|n]; [by vm_compute|]). lia.
Qed.

Lemma escape_u v q q' i j : hex4 (mkParser q (i + 1)) = Ok (v, mkParser q' j) →
  v < 0xd800 → scalar v → escape (mkParser (117 :: q) i) = Ok (v, mkParser q' j).
Proof.
  intros Hh Hv Hs. unfold escape, adv.
  change (peek (mkParser (117 :: q) i)) with (Some 117). cbn [ok_or mbind result_bind rest pos].
  do 6 (rewrite decide_False by (unfold DQUOTE, BACKSLASH; lia)).
  rewrite decide_True by done. change (drop 1 (117 :: q)) with q. change (Z.of_nat 1) with 1.
  rewrite Hh. cbn. rewrite decide_False by lia. unfold from_u32. by rewrite decide_True.
Qed.

(** An escaped character is a backslash and text [escape] reads back. *)
Lemma json_escape_reads c : scalar c →
  json_escape_char c = [c] ∧ c ≠ DQUOTE ∧ c ≠ BACKSLASH ∨
  ∃ e, json_escape_char c = BACKSLASH :: e ∧ Forall (λ x, 0 ≤ x < 128) e ∧
       ∀ r i, ∃ i', escape (mkParser (e ++ r) i) = Ok (c, mkParser r i').
Proof.
  intros Hc. unfold json_escape_char.
  do 7 (case_decide; [right; subst c; eexists; (split; [reflexivity|]);
    (split; [repeat constructor; unfold DQUOTE, BACKSLASH; lia|]);
    intros r i; eexists; reflexivity|]).
  case_decide; [right|by left].
  destruct (control_hex c) as (h1 & h2 & -> & ? & ? & Hu & Hr); [unfold scalar in Hc; lia|].
  exists [117; 48; 48; h1; h2]. split; [done|]. split; [repeat constructor; lia|].
  intros r i. exists (i + 1 + 4). cbn [app].
  apply escape_u; [by erewrite hex4_reads|lia|done].
Qed.

Lemma utf8_escape_cons c s :
  utf8 ((c :: s) ≫= json_escape_char) = utf8 (json_escape_char c) ++ utf8 (s ≫= json_escape_char).
Proof. cbn [mbind list_bind]. apply utf8_app. Qed.

Lemma utf8_singleton c : utf8 [c] = encode_char c.
Proof. apply app_nil_r. Qed.

Lemma string_loop_reads s : ∀ out fuel tl i, Forall scalar s →
  (length (utf8 (s ≫= json_escape_char)) < fuel)%nat →
  ∃ i', string_loop fuel out (mkParser (utf8 (s ≫= json_escape_char) ++ DQUOTE :: tl) i)
        = Ok (out ++ s, mkParser tl i').
Proof.
  induction s as [|c s IH]; intros out fuel tl i Hs Hf; (destruct fuel as [|fuel]; [lia|]).
  { rewrite app_nil_r. by eexists. }
  apply Forall_cons in Hs as [Hc Hs]. rewrite utf8_escape_cons in *. rewrite length_app in Hf.
  destruct (json_escape_reads c Hc) as [(E & H1 & H2)|(e & E & He & Hr)]; rewrite E in *; clear E.
  - rewrite utf8_singleton in Hf |- *. rewrite <- app_assoc.
    destruct (utf8_len_encode c Hc) as (b & l & He & Hl & Hb1 & Hb2).
    assert (b ≠ DQUOTE ∧ b ≠ BACKSLASH) as [Hq Hk].
    { unfold DQUOTE, BACKSLASH in *. destruct (Z.lt_ge_cases c 128); [|lia].
      by rewrite Hb2. }
    assert (∀ r, peek (mkParser (encode_char c ++ r) i) = Some b) as Hpk by (intros; by rewrite He).
    cbn [string_loop]. rewrite Hpk. cbn [ok_or mbind result_bind].
    rewrite !decide_False by done.
    unfold take_bytes. cbn [rest]. rewrite decide_False by (rewrite length_app, Hl; lia).
    cbn [mbind result_bind]. rewrite Hl, take_app_length.
    pose proof (from_utf8_encode c [] Hc) as Hd. rewrite app_nil_r in Hd. rewrite Hd.
    cbn [fmap option_fmap option_map from_utf8 ok_or mbind result_bind].
    unfold adv. cbn [rest pos]. rewrite drop_app_length.
    destruct (IH (out ++ [c]) fuel tl (i + Z.of_nat (length (encode_char c)))) as [i' ->]; [done| |].
    { rewrite He in Hf. cbn in Hf. lia. }
    exists i'. by rewrite <- app_assoc.
  - assert (utf8 (BACKSLASH :: e) = BACKSLASH :: e) as Hue.
    { apply utf8_ascii. constructor; [unfold BACKSLASH; lia|done]. }
    rewrite Hue in *. cbn [app string_loop]. unfold peek. cbn [rest head ok_or mbind result_bind].
    rewrite decide_False by done. rewrite decide_True by done.
    unfold adv. cbn [rest pos drop]. rewrite drop_0, <- app_assoc.
    destruct (Hr (utf8 (s ≫= json_escape_char) ++ DQUOTE :: tl) (i + Z.of_nat 1)) as [j ->].
    cbn [mbind result_bind].
    destruct (IH (out ++ [c]) fuel tl j) as [i' ->]; [done|cbn in Hf; lia|].
    exists i'. by rewrite <- app_assoc.
Qed.

Lemma utf8_json_quote s :
  utf8 (json_quote s) = DQUOTE :: utf8 (s ≫= json_escape_char) ++ [DQUOTE].
Proof. unfold json_quote, json_escape_into. by rewrite <- app_assoc, !utf8_app. Qed.

Lemma string_reads s tl i : Forall scalar s →
  ∃ i', string (mkParser (utf8 (json_quote s) ++ tl) i) = Ok (s, mkParser tl i').
Proof.
  intros Hs. rewrite utf8_json_quote. cbn [app]. rewrite <- app_assoc. cbn [app].
  unfold string, eat. rewrite decide_True by done. cbn [mbind result_bind].
  unfold adv. cbn [rest drop]. rewrite drop_0.
  apply (string_loop_reads s []); [done|]. rewrite length_app. lia.
Qed.

(** *** Numbers *)

Definition frac_text (fr : option (list Z)) : list Z :=
  match fr with Some ds => 46 :: ds | None => [] end.
Definition exp_text (ex : option (bool * list Z)) : list Z :=
  match ex with Some (neg, ds) => 101 :: (if neg then 45 else 43) :: ds | None => [] end.

(** Text that may follow a number inside a document. *)
Definition safe (tl : list Z) : Prop := ∀ c, head tl = Some c → c = 44 ∨ c = 93 ∨ c = 125.

Definition nonempty_digits (ds : list Z) : Prop := digits ds ∧ ds ≠ [].

Lemma not_digit c : ¬ (48 ≤ c ≤ 57) → is_digit c = false.
Proof. intros. apply not_true_iff_false. by rewrite is_digit_spec. Qed.

Lemma safe_not_digit tl c : safe tl → head tl = Some c → is_digit c = false.
Proof. intros Hs Hc%Hs. apply not_digit. lia. Qed.

Lemma fraction_reads fr tl i : (∀ ds, fr = Some ds → nonempty_digits ds) →
  (∀ c, head tl = Some c → is_digit c = false ∧ c ≠ 46) →
  ∃ i', fraction (mkParser (frac_text fr ++ tl) i) = Ok (fr, mkParser tl i').
Proof.
  intros Hfr Ht. unfold fraction. destruct fr as [ds|]; cbn [frac_text app].
  - destruct (Hfr ds) as [Hd Hne]; [done|].
    rewrite decide_True by done. unfold adv. cbn [rest drop]. rewrite drop_0, skip_app;
      [|done|naive_solver]. rewrite decide_False by done. by eexists.
  - rewrite decide_False; [by eexists|]. intros Hp. by destruct (Ht 46).
Qed.

Lemma exponent_reads ex tl i : (∀ s ds, ex = Some (s, ds) → nonempty_digits ds) → safe tl →
  ∃ i', exponent (mkParser (exp_text ex ++ tl) i) = Ok (ex, mkParser tl i').
Proof.
  intros Hex Ht. unfold exponent. destruct ex as [[s ds]|]; cbn [exp_text app].
  - destruct (Hex s ds) as [Hd Hne]; [done|].
    rewrite decide_True by (by left). unfold adv. cbn [rest drop pos].
    rewrite decide_True by (destruct s; unfold peek; cbn; tauto).
    cbn [rest drop]. rewrite drop_0, skip_app; [|done|by eauto using safe_not_digit].
    rewrite decide_False by done. destruct s; by eexists.
  - rewrite decide_False; [by eexists|]. unfold peek. cbn [rest].
    intros [Hp|Hp]; apply Ht in Hp; lia.
Qed.

Definition exp_val (ex : option (bool * list Z)) : Z :=
  match ex with
  | Some (true, ds) => - value_of ds
  | Some (false, ds) => value_of ds
  | None => 0
  end.

Lemma number_reads (neg : bool) ints fr ex tl i :
  nonempty_digits ints → ¬ (len ints > 1 ∧ head ints = Some 48) →
  (∀ ds, fr = Some ds → nonempty_digits ds) →
  (∀ s ds, ex = Some (s, ds) → nonempty_digits ds) → safe tl →
  let p := mkParser ((if neg then [45] else []) ++ ints ++ frac_text fr ++ exp_text ex ++ tl) i in
  match fr, ex with
  | None, None =>
      let n := if neg then - value_of ints else value_of ints in
      i128 n → ∃ i', number p = Ok (Int n, mkParser tl i')
  | _, _ => ∀ x, f64_from_parts neg ints (default [] fr) (exp_val ex) = Some x →
            ∃ i', number p = Ok (Float x, mkParser tl i')
  end.
Proof.
  intros [Hd Hne] Hz Hfr Hex Ht p.
  assert (∃ j, (if bool_decide (peek p = Some 45) then adv 1 p else p) =
    mkParser (ints ++ frac_text fr ++ exp_text ex ++ tl) j ∧ bool_decide (peek p = Some 45) = neg)
    as (j & Hj & Hneg).
  { subst p. destruct neg; cbn [app].
    - eexists. split; [reflexivity|done].
    - rewrite bool_decide_eq_false_2; [eauto|].
      destruct ints as [|c ints]; [done|]. apply Forall_cons in Hd as [Hc%is_digit_spec _].
      unfold peek. cbn. intros [=]. lia. }
  assert (∀ c, head (exp_text ex ++ tl) = Some c → is_digit c = false ∧ c ≠ 46) as Hh2.
  { intros c. destruct ex as [[s ds]|]; cbn; [intros [= <-]; done|].
    intros Hc%Ht. split; [apply not_digit|]; lia. }
  assert (∀ c, head (frac_text fr ++ exp_text ex ++ tl) = Some c → is_digit c = false) as Hh1.
  { intros c. destruct fr as [ds|]; cbn; [by intros [= <-]|]. intros Hc. by apply Hh2. }
  destruct (fraction_reads fr (exp_text ex ++ tl) (j + len ints) Hfr Hh2) as [k Hk].
  destruct (exponent_reads ex tl k Hex Ht) as [l Hl].
  unfold number. rewrite Hj, Hneg, skip_app by done. rewrite decide_False by done.
  rewrite Hk. cbn [mbind result_bind]. rewrite Hl. cbn [mbind result_bind].
  destruct fr as [fs|], ex as [[s es]|];
    try (intros x Hx; unfold exp_val in Hx; rewrite Hx; by eexists).
  intros Hi. rewrite decide_False, decide_True by done. by eexists.
Qed.

Lemma int_reads n tl i : i128 n → safe tl →
  ∃ i', number (mkParser (show_Z n ++ tl) i) = Ok (Int n, mkParser tl i').
Proof.
  intros Hn Ht. unfold show_Z.
  assert (∀ (b : bool) m, 0 ≤ m → n = (if b then - m else m) → ∃ i',
    number (mkParser ((if b then [45] else []) ++ show_nat m ++ tl) i) = Ok (Int n, mkParser tl i')) as H.
  { intros b m Hm ->. destruct (show_nat_spec m Hm) as (Hd & Hv & Hh).
    assert (show_nat m ≠ []) as Hne.
    { destruct Hh as [[_ ->]|(_ & ? & _)]; done. }
    pose proof (number_reads b (show_nat m) None None tl i) as Hr. cbn [frac_text exp_text app] in Hr.
    rewrite Hv in Hr. apply Hr; try done.
    intros [Hl Hz]. destruct Hh as [[_ Hh]|(_ & _ & ?)]; [|done]. rewrite Hh in Hl. by cbn in Hl. }
  destruct (n <? 0) eqn:E.
  - apply Z.ltb_lt in E. apply (H true (- n)); lia.
  - apply Z.ltb_ge in E. by apply (H false n).
Qed.

Lemma value_of_shift ints fs ds z : ints ++ fs = ds ++ replicate (Z.to_nat z) 48 → 0 ≤ z →
  value_of (ints ++ fs) = value_of ds * 10 ^ z.
Proof.
  intros -> Hz. rewrite value_of_app, value_of_zeros. unfold len. rewrite length_replicate.
  rewrite Z2Nat.id by done. lia.
Qed.

Lemma digits_zeros n : digits (zeros n).
Proof. apply Forall_replicate. done. Qed.

(** Every layout is a JSON number with the digits' value. *)
Lemma py_layout_text neg ds k : digits ds → ds ≠ [] → (head ds ≠ Some 48 ∨ ds = [48] ∧ k = 0) →
  ∃ ints fr ex, py_layout neg ds k = (if neg then [45] else []) ++ ints ++ frac_text fr ++ exp_text ex
  ∧ nonempty_digits ints ∧ ¬ (len ints > 1 ∧ head ints = Some 48)
  ∧ (∀ ds, fr = Some ds → nonempty_digits ds) ∧ (∀ s ds, ex = Some (s, ds) → nonempty_digits ds)
  ∧ (is_Some fr ∨ is_Some ex)
  ∧ ∃ z, 0 ≤ z ∧ value_of (ints ++ default [] fr) = value_of ds * 10 ^ z
       ∧ exp_val ex - len (default [] fr) = k + 1 - len ds - z.
Proof.
  intros Hd Hne Hh. unfold py_layout. cbn zeta. change (lit "-") with [45].
  destruct ds as [|d ds']; [done|]. apply Forall_cons in Hd as [Hd0 Hd'].
  set (ds := d :: ds') in *. assert (digits ds) as Hd by by constructor.
  case_decide as H1; [|case_decide as H2; [|case_decide as H3]].
  - set (e := k + 1 - 1). destruct (show_nat_spec (Z.abs e) ltac:(lia)) as (Hs & Hv & Hsh).
    assert (show_nat (Z.abs e) ≠ []) as Hsn by (destruct Hsh as [[_ ->]|(_ & ? & _)]; done).
    set (pad := if decide (Z.abs e < 10) then lit "0" else []).
    assert (digits pad ∧ value_of (pad ++ show_nat (Z.abs e)) = Z.abs e) as [Hp Hpv].
    { subst pad. case_decide; [|by split; [constructor|]]. change (lit "0") with [48].
      split; [by repeat constructor|]. cbn [app]. rewrite value_of_cons, Hv. lia. }
    exists [d], (if decide (ds' = []) then None else Some ds'),
      (Some (bool_decide (e < 0), pad ++ show_nat (Z.abs e))).
    split; [|split; [|split; [|split; [|split; [|split]]]]].
    + f_equal.
      assert ((if decide (e < 0) then [45] else lit "+") = [if bool_decide (e < 0) then 45 else 43])
        as -> by (case_decide; [rewrite bool_decide_eq_true_2|rewrite bool_decide_eq_false_2]; done).
      change (take 1 ds) with [d]. change (drop 1 ds) with ds'. f_equal. cbn [exp_text].
      change (lit "e") with [101]. change (lit ".") with [46].
      replace (len ds) with (1 + len ds') by (subst ds; by rewrite len_cons).
      destruct ds' as [|d1 ds1].
      * rewrite (decide_True (P := [] = [])) by done. by rewrite decide_False by (rewrite len_nil; lia).
      * rewrite (decide_False (P := d1 :: ds1 = [])) by done.
        by rewrite decide_True by (rewrite len_cons; pose proof (len_nonneg ds1); lia).
    + split; [by repeat constructor|done].
    + rewrite len_cons, len_nil. lia.
    + intros fs. case_decide; [done|]. by intros [= <-].
    + intros s es [= _ <-]. split; [by apply Forall_app_2|]. by destruct pad.
    + right. by eexists.
    + exists 0. split; [done|].
      assert (default [] (if decide (ds' = []) then None else Some ds') = ds') as ->
        by (by case_decide).
      change ([d] ++ ds') with ds. split; [lia|]. subst ds. rewrite len_cons. unfold exp_val.
      rewrite Hpv. case_bool_decide; lia.
  - exists [48], (Some (zeros (- (k + 1)) ++ ds)), None.
    split; [by cbn [frac_text exp_text]; rewrite app_nil_r|].
    split; [split; [by repeat constructor|done]|].
    split; [rewrite len_cons, len_nil; lia|].
    split; [|split; [done|split; [left; by eexists|]]].
    { intros ? [= <-]. split; [apply Forall_app_2; [apply digits_zeros|done]|].
      by destruct (zeros (- (k + 1))). }
    exists 0. split; [done|]. cbn [default from_option exp_val id].
    cbn [app]. rewrite value_of_cons, value_of_app. unfold zeros at 2. rewrite value_of_zeros.
    split; [lia|]. rewrite len_app. unfold zeros, len at 1. rewrite length_replicate. lia.
  - exists (ds ++ zeros (k + 1 - len ds)), (Some [48]), None.
    split; [f_equal; by rewrite <- app_assoc|].
    split; [split; [apply Forall_app_2; [done|apply digits_zeros]|done]|].
    split.
    { intros [Hl Hz]. destruct Hh as [Hh|[Hh ->]]; [done|]. rewrite Hh in Hl. by cbn in Hl. }
    split; [intros ? [= <-]; split; [by repeat constructor|done]|].
    split; [done|split; [left; by eexists|]].
    exists (k + 1 - len ds + 1). split; [lia|]. cbn [default from_option exp_val id].
    split; [|change (len [48]) with 1; lia].
    apply value_of_shift; [|lia]. rewrite <- app_assoc. f_equal. unfold zeros.
    replace (Z.to_nat (k + 1 - len ds + 1)) with (Z.to_nat (k + 1 - len ds) + 1)%nat by lia.
    by rewrite replicate_add.
  - set (n := Z.to_nat (k + 1)). assert (0 < n < length ds)%nat as Hn by (unfold len in *; lia).
    exists (take n ds), (Some (drop n ds)), None.
    split; [cbn [exp_text]; by rewrite app_nil_r|].
    split; [split; [by apply Forall_take|]|].
    { intros E%(f_equal length). rewrite length_take in E. cbn [length] in E. lia. }
    split.
    { intros [Hl Hz]. destruct Hh as [Hh|[Hh ->]].
      - apply Hh. subst ds. by destruct n; [lia|].
      - rewrite Hh in Hn. cbn [length] in Hn. lia. }
    split; [|split; [done|split; [left; by eexists|]]].
    { intros ? [= <-]. split; [by apply Forall_drop|].
      intros E%(f_equal length). rewrite length_drop in E. cbn [length] in E. lia. }
    exists 0. split; [done|]. cbn [default from_option exp_val id]. rewrite take_drop.
    split; [lia|]. unfold len. rewrite length_drop. lia.
Qed.

(** A finite binary64. *)
Definition finite64 (x : f64) : Prop :=
  is_finite x = true ∧ valid_binary F64.prec F64.emax x = true.

(** Every one has digits to print. *)
Lemma finite64_prints x : finite64 x → fmt_e x ≠ None.
Proof. intros [Hf Hv]. by apply fmt_e_total. Qed.

Lemma float_reads x tl i : finite64 x → safe tl →
  ∃ i', number (mkParser (py_repr_f64 x ++ tl) i) = Ok (Float x, mkParser tl i').
Proof.
  intros Hx Ht. apply finite64_prints in Hx.
  destruct (fmt_e x) as [[[s ds] k]|] eqn:E; [|done].
  assert (py_repr_f64 x = py_layout s ds k) as ->.
  { unfold py_repr_f64. rewrite E. by destruct x. }
  apply fmt_e_spec in E as (Hd & Hne & Hh & Hv).
  destruct (py_layout_text s ds k Hd Hne Hh) as (ints & fr & ex & -> & Hi & Hz & Hfr & Hex & Hs & z & Hz0 & Hval & He).
  rewrite <- !app_assoc.
  pose proof (number_reads s ints fr ex tl i Hi Hz Hfr Hex Ht) as Hr. cbn zeta in Hr.
  assert (f64_from_parts s ints (default [] fr) (exp_val ex) = Some x) as Hf.
  { unfold f64_from_parts. rewrite decide_False by (intros [-> _]; by destruct Hi).
    rewrite Hval, He, dec_to_f64_shift by done. by rewrite Hv. }
  destruct fr as [?|], ex as [[??]|]; try (by apply Hr). by destruct Hs as [[??]|[??]].
Qed.

(** C21. What [py_repr_f64] writes for a finite float is never empty: it lays out
    a shortest decimal of the float (one to seventeen digits, no zero at either
    end unless the float is a zero, and no decimal with fewer digits is read as
    the float), and the parser reads the text back as the same float, bit for
    bit. *)
Theorem py_repr_shortest x : finite64 x →
  ∃ neg ds k, py_repr_f64 x = py_layout neg ds k ∧ shortest_decimal x neg ds k ∧
    ∃ i, number (mkParser (py_repr_f64 x) 0) = Ok (Float x, mkParser [] i).
Proof.
  intros Hx. destruct Hx as [Hf Hv]. destruct (fmt_e_shortest x Hf Hv) as (s & ds & k & E & Hs).
  exists s, ds, k. split; [|split; [done|]].
  - unfold py_repr_f64. rewrite E. by destruct x.
  - destruct (float_reads x [] 0 (conj Hf Hv)) as [i Hi]; [done|]. rewrite app_nil_r in Hi. by exists i.
Qed.

(** *** Documents *)

Lemma dumps_Array a :
  dumps (Array a) = lit "[" ++ join (lit ", ") (map dumps a) ++ lit "]".
Proof. done. Qed.

Definition dumps_entry (e : rstr * Value) : rstr := json_quote e.1 ++ lit ": " ++ dumps e.2.

Lemma dumps_Object kv :
  dumps (Object kv) = lit "{" ++ join (lit ", ") (map dumps_entry kv) ++ lit "}".
Proof.
  unfold dumps. cbn [dumps_into app]. do 3 f_equal. apply map_ext. by intros [k e].
Qed.

Lemma utf8_lit s : Forall (λ c, c < 128) (lit s) → utf8 (lit s) = lit s.
Proof.
  intros H. apply utf8_ascii. pose proof (lit_ascii s) as Hl.
  eapply Forall_impl; [apply Forall_and; split; [exact H|exact Hl]|].
  cbn. lia.
Qed.

Lemma utf8_join l : utf8 (join (lit ", ") l) = join (lit ", ") (map utf8 l).
Proof.
  induction l as [|x l IH]; [done|]. destruct l as [|y l]; [done|].
  change (join (lit ", ") (x :: y :: l)) with (x ++ lit ", " ++ join (lit ", ") (y :: l)).
  rewrite !utf8_app, IH. done.
Qed.

Lemma show_Z_text n : ∃ c t, show_Z n = c :: t ∧ (c = 45 ∨ is_digit c = true) ∧
  Forall (λ c, 0 ≤ c < 128) (c :: t).
Proof.
  assert (∀ m, 0 ≤ m → ∃ c t, show_nat m = c :: t ∧ is_digit c = true ∧
    Forall (λ c, 0 ≤ c < 128) (c :: t)) as H.
  { intros m Hm. destruct (show_nat_spec m Hm) as (Hd & _ & Hh).
    destruct (show_nat m) as [|c t]; [naive_solver|]. exists c, t. split; [done|].
    split; [by apply Forall_cons in Hd as [? _]|].
    eapply Forall_impl; [exact Hd|]. apply is_digit_ascii. }
  unfold show_Z. destruct (n <? 0) eqn:E.
  - apply Z.ltb_lt in E. destruct (H (- n)) as (c & t & -> & Hc & Ht); [lia|].
    exists 45, (c :: t). split; [done|]. split; [by left|]. constructor; [lia|done].
  - apply Z.ltb_ge in E. destruct (H n) as (c & t & -> & Hc & Ht); [lia|]. eauto 10.
Qed.

Lemma digits_ascii ds : digits ds → Forall (λ c, 0 ≤ c < 128) ds.
Proof. intros H. eapply Forall_impl; [exact H|]. apply is_digit_ascii. Qed.

Lemma py_repr_text x : finite64 x → ∃ c t, py_repr_f64 x = c :: t ∧
  (c = 45 ∨ is_digit c = true) ∧ Forall (λ c, 0 ≤ c < 128) (c :: t).
Proof.
  intros Hx. apply finite64_prints in Hx.
  destruct (fmt_e x) as [[[s ds] k]|] eqn:E; [|done].
  assert (py_repr_f64 x = py_layout s ds k) as ->.
  { unfold py_repr_f64. rewrite E. by destruct x. }
  apply fmt_e_spec in E as (Hd & Hne & Hh & _).
  destruct (py_layout_text s ds k Hd Hne Hh)
    as (ints & fr & ex & -> & [Hi Hin] & _ & Hfr & Hex & _).
  assert (Forall (λ c, 0 ≤ c < 128) (ints ++ frac_text fr ++ exp_text ex)) as Ha.
  { apply Forall_app_2; [by apply digits_ascii|]. apply Forall_app_2.
    - destruct fr as [fs|]; [|constructor]. destruct (Hfr fs); [done|].
      constructor; [lia|]. by apply digits_ascii.
    - destruct ex as [[sg es]|]; [|constructor]. destruct (Hex sg es); [done|].
      constructor; [lia|]. constructor; [by destruct sg|]. by apply digits_ascii. }
  destruct s; cbn [app].
  - eexists _, _. split; [done|]. split; [by left|]. constructor; [lia|done].
  - destruct ints as [|c ints]; [done|]. apply Forall_cons in Hi as [Hc _].
    eexists _, _. split; [done|]. split; [by right|done].
Qed.

(** The first byte of a document decides the parser's branch. *)
Definition starts (c : Z) : Prop :=
  c = 123 ∨ c = 91 ∨ c = DQUOTE ∨ c = 116 ∨ c = 102 ∨ c = 110 ∨ c = 45 ∨ is_digit c = true.

Lemma starts_ws c : starts c → is_ws c = false ∧ c ≠ 93 ∧ c ≠ 125.
Proof.
  unfold starts, is_ws, DQUOTE. rewrite is_digit_spec. intros H.
  rewrite !orb_false_iff, !Z.eqb_neq. lia.
Qed.

Lemma dumps_starts v : wf_value finite64 v → ∃ c t, utf8 (dumps v) = c :: t ∧ starts c.
Proof.
  destruct v as [|b|n|x|s|a|kv]; intros Hv; unfold starts.
  - eexists _, _. split; [reflexivity|]. cbn. tauto.
  - destruct b; (eexists _, _; split; [reflexivity|]; cbn; tauto).
  - destruct (show_Z_text n) as (c & t & E & Hc & Ha).
    unfold dumps. cbn [dumps_into app]. rewrite E, utf8_ascii by done. eexists _, _.
    split; [done|]. tauto.
  - destruct (py_repr_text x Hv) as (c & t & E & Hc & Ha).
    unfold dumps. cbn [dumps_into app]. rewrite E, utf8_ascii by done. eexists _, _.
    split; [done|]. tauto.
  - change (dumps (Str s)) with (json_quote s). rewrite utf8_json_quote.
    eexists _, _. split; [reflexivity|]. tauto.
  - rewrite dumps_Array. eexists _, _. split; [reflexivity|]. cbn. tauto.
  - rewrite dumps_Object. eexists _, _. split; [reflexivity|]. cbn. tauto.
Qed.

(** [v]'s text is read back as [v], whatever (delimiting) text follows it. *)
Definition reads_back (v : Value) : Prop := ∀ fuel tl i, safe tl →
  (2 * length (utf8 (dumps v)) + 1 ≤ fuel)%nat →
  ∃ i', value fuel (mkParser (utf8 (dumps v) ++ tl) i) = Ok (v, mkParser tl i').

Lemma peek_cons c t i : peek (mkParser (c :: t) i) = Some c.
Proof. done. Qed.
Lemma adv1_cons c t i : adv 1 (mkParser (c :: t) i) = mkParser t (i + 1).
Proof. unfold adv. cbn. by rewrite drop_0. Qed.
Lemma eat_cons c t i : eat c (mkParser (c :: t) i) = Ok (tt, mkParser t (i + 1)).
Proof. unfold eat. rewrite peek_cons, decide_True by done. by rewrite adv1_cons. Qed.

Lemma safe_cons c t : c = 44 ∨ c = 93 ∨ c = 125 → safe (c :: t).
Proof. intros H c'. cbn. by intros [= <-]. Qed.

Lemma join_cons_app sep x y (l : list rstr) :
  join sep (x :: y :: l) = x ++ sep ++ join sep (y :: l).
Proof. done. Qed.

Lemma array_loop_reads a : ∀ x acc fuel tl p i,
  Forall (λ v, wf_value finite64 v ∧ reads_back v) (x :: a) →
  ws p = mkParser (utf8 (join (lit ", ") (map dumps (x :: a))) ++ 93 :: tl) i →
  (2 * length (utf8 (join (lit ", ") (map dumps (x :: a)))) + 2 ≤ fuel)%nat →
  ∃ i', array_loop fuel acc p = Ok (Array (acc ++ x :: a), mkParser tl i').
Proof.
  induction a as [|y a IH]; intros x acc fuel tl p i [[Hx Hr] Ha]%Forall_cons Hp Hf;
    (destruct fuel as [|fuel]; [lia|]); cbn [array_loop]; rewrite Hp.
  - cbn [map join] in *. destruct (Hr fuel (93 :: tl) i) as [j ->]; [apply safe_cons; tauto|lia|].
    cbn [mbind result_bind]. rewrite ws_id by done. rewrite peek_cons.
    rewrite decide_False, decide_True by done. rewrite adv1_cons. by eexists.
  - assert (Forall (λ v, wf_value finite64 v ∧ reads_back v) (y :: a)) as Hya by done.
    apply Forall_cons in Ha as [[Hy _] _].
    cbn [map] in Hf |- *. rewrite join_cons_app, !utf8_app in Hf |- *.
    rewrite !length_app in Hf.
    change (utf8 (lit ", ")) with [44; 32] in *. rewrite <- !app_assoc. cbn [app length] in Hf |- *.
    match goal with |- context [mkParser (utf8 (dumps x) ++ ?t) i] => set (t1 := t) in * end.
    destruct (Hr fuel t1 i) as [j ->]; [apply safe_cons; tauto|lia|].
    cbn [mbind result_bind]. subst t1. rewrite ws_id by done. rewrite peek_cons.
    rewrite decide_True by done. rewrite adv1_cons.
    destruct (dumps_starts y Hy) as (c & t & Ec & [Hc _]%starts_ws).
    destruct (IH y (acc ++ [x]) fuel tl (mkParser (32 :: utf8 (join (lit ", ") (map dumps (y :: a))) ++ 93 :: tl) (j + 0 + 1)) (j + 0 + 1 + 1))
      as [i' E]; [done| |cbn [map]; lia|].
    { assert (∃ t', utf8 (join (lit ", ") (map dumps (y :: a))) = c :: t') as [t' ->].
      { cbn [map]. destruct a as [|z a]; [by eexists|]. cbn [map].
        rewrite join_cons_app, utf8_app, Ec. by eexists. }
      cbn [app]. by apply ws_space. }
    rewrite <- app_assoc in E. cbn [app] in E. exists i'. exact E.
Qed.

Lemma object_loop_reads kv : ∀ e acc fuel tl p i,
  Forall (λ e, (Forall scalar e.1 ∧ wf_value finite64 e.2) ∧ reads_back e.2) (e :: kv) →
  ws p = mkParser (utf8 (join (lit ", ") (map dumps_entry (e :: kv))) ++ 125 :: tl) i →
  (2 * length (utf8 (join (lit ", ") (map dumps_entry (e :: kv)))) + 2 ≤ fuel)%nat →
  ∃ i', object_loop fuel acc p = Ok (Object (acc ++ e :: kv), mkParser tl i').
Proof.
  assert (∀ k v acc fuel t i, Forall scalar k → wf_value finite64 v → reads_back v → safe t →
    (2 * length (utf8 (dumps_entry (k, v))) + 1 ≤ S fuel)%nat →
    ∃ j, ('(k, p) ← string (mkParser (utf8 (dumps_entry (k, v)) ++ t) i);
          '(_, p) ← eat 58 (ws p);
          '(v, p) ← value fuel (ws p);
          let kv := acc ++ [(k, v)] in
          let p := ws p in
          if decide (peek p = Some 44) then object_loop fuel kv (adv 1 p)
          else if decide (peek p = Some 125) then Ok (Object kv, adv 1 p)
          else Err (ExpectedCommaOr 125 (pos p)))
         = let kv := acc ++ [(k, v)] in
           let p := ws (mkParser t j) in
           if decide (peek p = Some 44) then object_loop fuel kv (adv 1 p)
           else if decide (peek p = Some 125) then Ok (Object kv, adv 1 p)
           else Err (ExpectedCommaOr 125 (pos p))) as Hentry.
  { intros k v acc fuel t i Hk Hv Hr Ht Hf. unfold dumps_entry in *. cbn [fst snd] in *.
    rewrite !utf8_app in *. rewrite !length_app in Hf. rewrite <- !app_assoc.
    change (utf8 (lit ": ")) with [58; 32] in *. cbn [app length] in *.
    match goal with |- context [mkParser (utf8 (json_quote k) ++ ?t) i] =>
      destruct (string_reads k t i Hk) as [j1 ->] end.
    cbn [mbind result_bind]. rewrite ws_id by done. rewrite eat_cons. cbn [mbind result_bind].
    destruct (dumps_starts v Hv) as (c & t' & Ec & Hc%starts_ws). rewrite Ec. cbn [app].
    rewrite ws_space by apply Hc. change (c :: t' ++ t) with ((c :: t') ++ t). rewrite <- Ec.
    destruct (Hr fuel t (j1 + 0 + 1 + 1) Ht) as [j ->]; [lia|]. by exists j. }
  induction kv as [|[k' v'] kv IH]; intros [k v] acc fuel tl p i
    [[[Hk Hv] Hr] Ha]%Forall_cons Hp Hf; cbn [fst snd] in *;
    (destruct fuel as [|fuel]; [lia|]); cbn [object_loop]; rewrite Hp.
  - cbn [map join] in *. destruct (Hentry k v acc fuel (125 :: tl) i) as [j ->]; try done.
    { apply safe_cons; tauto. } { lia. }
    cbn zeta. rewrite ws_id by done. rewrite peek_cons.
    rewrite decide_False, decide_True by done. rewrite adv1_cons. by eexists.
  - pose proof Ha as Hya. apply Forall_cons in Hya as [[[Hk' _] _] _]. cbn [fst] in Hk'.
    cbn [map] in Hf |- *. rewrite join_cons_app, !utf8_app in Hf |- *.
    rewrite !length_app in Hf.
    change (utf8 (lit ", ")) with [44; 32] in *. rewrite <- !app_assoc. cbn [app length] in Hf |- *.
    match goal with |- context [mkParser (utf8 (dumps_entry (k, v)) ++ ?t) i] =>
      destruct (Hentry k v acc fuel t i) as [j ->]; try done; [apply safe_cons; tauto|lia|] end.
    cbn zeta. rewrite ws_id by done. rewrite peek_cons.
    rewrite decide_True by done. rewrite adv1_cons.
    destruct (IH (k', v') (acc ++ [(k, v)]) fuel tl (mkParser (32 :: utf8 (join (lit ", ") (map dumps_entry ((k', v') :: kv))) ++ 125 :: tl) (j + 0 + 1)) (j + 0 + 1 + 1))
      as [i' E]; [done| |cbn [map]; lia|].
    { assert (∃ t', utf8 (join (lit ", ") (map dumps_entry ((k', v') :: kv))) = DQUOTE :: t') as [t' ->].
      { cbn [map]. assert (∃ t, utf8 (dumps_entry (k', v')) = DQUOTE :: t) as [t Et].
        { unfold dumps_entry. rewrite utf8_app, utf8_json_quote. by eexists. }
        destruct kv as [|z kv]; [by eexists|]. cbn [map].
        rewrite join_cons_app, utf8_app, Et. by eexists. }
      cbn [app]. by apply ws_space. }
    rewrite <- app_assoc in E. cbn [app] in E. exists i'. exact E.
Qed.

Lemma value_number fuel c t i : (c = 45 ∨ is_digit c = true) →
  value (S fuel) (mkParser (c :: t) i) = number (mkParser (c :: t) i).
Proof.
  intros Hc. cbn [value]. rewrite peek_cons.
  assert (c = 45 ∨ 48 ≤ c ≤ 57) as Hc' by (by rewrite <- is_digit_spec).
  do 6 (rewrite decide_False by (unfold DQUOTE; lia)). by rewrite decide_True.
Qed.

Lemma parse_lit_reads s t i : Forall (λ c, 0 ≤ c < 128) s →
  ∃ i', parse_lit s (mkParser (s ++ t) i) = Ok (tt, mkParser t i').
Proof.
  intros Hs. unfold parse_lit. rewrite utf8_ascii by done. cbn [rest].
  rewrite starts_with_app. unfold adv. cbn [rest]. rewrite drop_app_length. by eexists.
Qed.

Lemma value_reads v : wf_value finite64 v → reads_back v.
Proof.
  induction v as [|b|n|x|s|a IH|kv IH] using Value_nested_ind; intros Hv fuel tl i Ht Hf;
    (destruct fuel as [|fuel]; [lia|]).
  - eexists. reflexivity.
  - destruct b; eexists; reflexivity.
  - change (dumps (Int n)) with (show_Z n). destruct (show_Z_text n) as (c & t & E & Hc & Ha).
    rewrite E, utf8_ascii by done. cbn [app]. rewrite value_number by done.
    change (c :: t ++ tl) with ((c :: t) ++ tl). rewrite <- E. by apply int_reads.
  - change (dumps (Float x)) with (py_repr_f64 x).
    destruct (py_repr_text x Hv) as (c & t & E & Hc & Ha).
    rewrite E, utf8_ascii by done. cbn [app]. rewrite value_number by done.
    change (c :: t ++ tl) with ((c :: t) ++ tl). rewrite <- E. by apply float_reads.
  - change (dumps (Str s)) with (json_quote s). destruct (string_reads s tl i Hv) as [j Hj].
    exists j. rewrite utf8_json_quote in Hj |- *. cbn [app value] in Hj |- *. rewrite peek_cons.
    rewrite !decide_False, decide_True by done. by rewrite Hj.
  - apply wf_Array in Hv. rewrite dumps_Array, !utf8_app in *. rewrite !length_app in Hf.
    change (utf8 (lit "[")) with [91] in *. change (utf8 (lit "]")) with [93] in *.
    rewrite <- !app_assoc. cbn [app length value] in Hf |- *. rewrite peek_cons.
    rewrite decide_False, decide_True by done. rewrite eat_cons. cbn [mbind result_bind].
    destruct a as [|x a].
    { cbn [map join]. change (utf8 []) with (@nil Z). cbn [app]. rewrite ws_id by done.
      rewrite peek_cons, decide_True, adv1_cons by done. by eexists. }
    assert (Forall (λ v, wf_value finite64 v ∧ reads_back v) (x :: a)) as Hall.
    { apply Forall_and. split; [done|]. eapply Forall_impl; [|intros v Hr; exact Hr].
      clear -IH Hv. induction Hv; inversion IH; constructor; auto. }
    pose proof Hv as Hx. apply Forall_cons in Hx as [Hx _].
    assert (∃ c t', utf8 (join (lit ", ") (map dumps (x :: a))) ++ 93 :: tl = c :: t' ∧ starts c)
      as (c & t' & Ec & Hc).
    { destruct (dumps_starts x Hx) as (c & t & Ec & Hc). cbn [map].
      destruct a as [|y a]; cbn [map join]; rewrite ?utf8_app, Ec; by eexists _, _. }
    rewrite Ec. destruct (starts_ws _ Hc) as (Hw & H93 & _). rewrite ws_id by done.
    rewrite peek_cons, decide_False by congruence. rewrite <- Ec.
    eapply (array_loop_reads a x [] fuel tl _ _ Hall); [|lia].
    rewrite Ec. by rewrite ws_id.
  - apply wf_Object in Hv. rewrite dumps_Object, !utf8_app in *. rewrite !length_app in Hf.
    change (utf8 (lit "{")) with [123] in *. change (utf8 (lit "}")) with [125] in *.
    rewrite <- !app_assoc. cbn [app length value] in Hf |- *. rewrite peek_cons.
    rewrite decide_True by done. rewrite eat_cons. cbn [mbind result_bind].
    destruct kv as [|[k x] kv].
    { cbn [map join]. change (utf8 []) with (@nil Z). cbn [app]. rewrite ws_id by done.
      rewrite peek_cons, decide_True, adv1_cons by done. by eexists. }
    assert (Forall (λ e, (Forall scalar e.1 ∧ wf_value finite64 e.2) ∧ reads_back e.2) ((k, x) :: kv)) as Hall.
    { apply Forall_and. split; [done|].
      clear -IH Hv. induction Hv as [|? ? []]; inversion IH; constructor; auto. }
    assert (∃ t', utf8 (join (lit ", ") (map dumps_entry ((k, x) :: kv))) ++ 125 :: tl = DQUOTE :: t')
      as (t' & Ec).
    { assert (∃ t, utf8 (dumps_entry (k, x)) = DQUOTE :: t) as [t Et].
      { unfold dumps_entry. rewrite utf8_app, utf8_json_quote. by eexists. }
      cbn [map]. destruct kv as [|y kv]; cbn [map join]; rewrite ?utf8_app, Et; by eexists. }
    rewrite Ec, ws_id by done. rewrite peek_cons, decide_False by done. rewrite <- Ec.
    eapply (object_loop_reads kv (k, x) [] fuel tl _ _ Hall); [|lia].
    rewrite Ec. by rewrite ws_id.
Qed.

(** C12. Parsing what [dumps] writes gives back the value itself, when its strings
    and keys are made of scalar values, its integers fit 128 bits and its floats
    are finite binary64s ([wf_value finite64]): every float to the bit, and
    objects with the order of their entries. *)
Theorem parse_dumps (v : Value) : wf_value finite64 v → parse (dumps v) = Ok v.
Proof.
  intros Hv. unfold parse, parse_bytes.
  destruct (dumps_starts v Hv) as (c & t & Ec & [Hw _]%starts_ws).
  assert (ws (mkParser (utf8 (dumps v)) 0) = mkParser (utf8 (dumps v)) (0 + 0)) as ->
    by (rewrite Ec; by apply ws_id).
  pose proof (value_reads v Hv (2 * length (utf8 (dumps v)) + 2)%nat [] (0 + 0)) as Hr.
  rewrite app_nil_r in Hr. destruct Hr as [j ->]; [done|lia|].
  cbn [mbind result_bind]. by rewrite ws_nil.
Qed.

(** C40. The parser returns on every text: it never runs out of fuel and never
    indexes out of range, and what it builds is well formed (integers fit
    [i128], strings hold scalar values). *)
Theorem parse_total (src : rstr) :
  Forall scalar src →
  match parse src with
  | Ok v => wf_value any_float v
  | Err e => e ≠ OutOfFuel ∧ e ≠ IndexOutOfRange
  end.
Proof.
  intros Hs. unfold parse, parse_bytes.
  set (p := mkParser (utf8 src) 0).
  assert (bnd p) as Hb by by exists src. apply bnd_ws in Hb.
  destruct (value_good (2 * length (utf8 src) + 2) _ Hb) as [Hv _].
  pose proof (length_ws p) as Hl. cbn in Hl. specialize (Hv ltac:(lia)).
  destruct (value _ (ws p)) as [[v p']|e]; cbn in *; [|done].
  destruct Hv as (Hv & _). by case_decide.
Qed.

(** ** Concrete round trips, and where the parser is more lenient than JSON *)

Definition demo_value : Value :=
  Object [(lit "a", Array [Int 1; Float (dec_to_f64 false 25 (-1)); Null]); ([0x4E2D; 34], Str [10; 0x1F600; 92])].

Lemma demo_value_wf : wf_value finite64 demo_value.
Proof.
  cbn. split; [split|split; [split|done]].
  - apply (bool_decide_unpack _). vm_compute. exact I.
  - split; [unfold Parser.i128; lia|]. split; [by vm_compute|]. done.
  - apply (bool_decide_unpack _). vm_compute. exact I.
  - apply (bool_decide_unpack _). vm_compute. exact I.
Qed.

(** The negative float nearest to zero, whose text is [-5e-324]. *)
Lemma py_repr_shortest_witness :
  let x := S754_finite true 1 (-1074) in
  ∃ neg ds k, py_repr_f64 x = py_layout neg ds k ∧ shortest_decimal x neg ds k ∧
    ∃ i, number (mkParser (py_repr_f64 x) 0) = Ok (Float x, mkParser [] i).
Proof. apply (py_repr_shortest (S754_finite true 1 (-1074))). by split. Defined.

Example repr_min : py_repr_f64 (S754_finite true 1 (-1074)) = lit "-5e-324".
Proof. vm_compute. reflexivity. Qed.

Lemma parse_dumps_witness : parse (dumps demo_value) = Ok demo_value.
Proof. apply (parse_dumps demo_value). exact demo_value_wf. Defined.

Lemma parse_total_witness :
  match parse (lit "[1, -2e3, {}]") with
  | Ok v => wf_value any_float v
  | Err e => e ≠ OutOfFuel ∧ e ≠ IndexOutOfRange
  end.
Proof.
  apply (parse_total (lit "[1, -2e3, {}]")). apply (bool_decide_unpack _). vm_compute. exact I.
Defined.

(** Inputs JSON forbids and the parser accepts: a number without an integer
    part, a signed [\u] escape, a raw control character. *)
Theorem parser_is_lenient :
  match parse (lit "-.5") with Ok _ => true | Err _ => false end = true
  ∧ parse ([DQUOTE] ++ lit "\u+041" ++ [DQUOTE]) = Ok (Str [65])
  ∧ parse [DQUOTE; 1; DQUOTE] = Ok (Str [1]).
Proof. vm_compute. done. Qed.
