(* ===== verification/JsonInstance.v ===== *)
(** * A JSON implementation for the readers

    [PyJson]'s parser and values behind the [SerdeJson] interface, so that the
    theorems over that interface have a concrete instance.  A repeated object
    key keeps its last value, as in serde_json's [Map]. *)

From S2P Require Import Prelude Serde Rstr Utf8 Float PyJson.

Fixpoint last_wins (kv : list (rstr * Value)) : list (rstr * Value) :=
  match kv with
  | [] => []
  | (k, v) :: kv' =>
      if decide (k ∈ kv'.*1) then last_wins kv' else (k, v) :: last_wins kv'
  end.

Lemma last_wins_keys kv k : k ∈ (last_wins kv).*1 ↔ k ∈ kv.*1.
Proof.
  induction kv as [|[k0 v0] kv IH]; [done|]. cbn [last_wins fmap list_fmap fst].
  case_decide; cbn [fmap list_fmap fst]; rewrite !elem_of_cons, IH; naive_solver.
Qed.

Lemma last_wins_NoDup kv : NoDup (last_wins kv).*1.
Proof.
  induction kv as [|[k v] kv IH]; [constructor|]. cbn [last_wins].
  case_decide; [done|]. cbn. constructor; [|done]. by rewrite last_wins_keys.
Qed.

#[export] Instance pyjson_serde : SerdeJson Value := {
  from_slice bs := s ← from_utf8 bs; match parse s with Ok v => Some v | Err _ => None end;
  as_object v := match v with Object kv => Some (last_wins kv) | _ => None end;
  as_array := Value.as_array;
  as_str := Value.as_str;
  as_u64 := Value.as_usize;
  as_bool := Value.as_bool;
  as_f64 := Value.as_f64;
}.

#[export] Instance pyjson_serde_laws : SerdeJsonLaws Value.
Proof.
  split.
  - intros [] ents; cbn; try done. intros [= <-]. apply last_wins_NoDup.
  - intros [] n; cbn; try done. case_decide; [|done]. by intros [= <-].
Qed.
