(* ===== verification/Header.v ===== *)
(** * stloader: safetensors header parsing and validation

    Models rust-qwen-engine/crates/stloader/src/header.rs.  A file is its list
    of bytes; a directory is its list of (file name, contents).  Error values
    keep the site that raised them and the data in the message. *)

From S2P Require Import Prelude Serde Rstr.

(** Maximum plausible header size, 256 MiB. *)
Definition MAX_HEADER_BYTES : Z := Z.shiftl 1 28.

Inductive Dtype :=
| F64 | F32 | F16 | Bf16 | I64 | I32 | I16 | I8 | U8 | Bool_ | F8E4M3 | F8E5M2.

#[export] Instance Dtype_eq_dec : EqDecision Dtype.
Proof. solve_decision. Defined.

Module Dtype.
Definition as_str (d : Dtype) : rstr :=
  match d with
  | F64 => lit "F64" | F32 => lit "F32" | F16 => lit "F16" | Bf16 => lit "BF16"
  | I64 => lit "I64" | I32 => lit "I32" | I16 => lit "I16" | I8 => lit "I8"
  | U8 => lit "U8" | Bool_ => lit "BOOL"
  | F8E4M3 => lit "F8_E4M3" | F8E5M2 => lit "F8_E5M2"
  end.

Definition parse (s : rstr) : option Dtype :=
  if decide (s = lit "F64") then Some F64
  else if decide (s = lit "F32") then Some F32
  else if decide (s = lit "F16") then Some F16
  else if decide (s = lit "BF16") then Some Bf16
  else if decide (s = lit "I64") then Some I64
  else if decide (s = lit "I32") then Some I32
  else if decide (s = lit "I16") then Some I16
  else if decide (s = lit "I8") then Some I8
  else if decide (s = lit "U8") then Some U8
  else if decide (s = lit "BOOL") then Some Bool_
  else if decide (s = lit "F8_E4M3") then Some F8E4M3
  else if decide (s = lit "F8_E5M2") then Some F8E5M2
  else None.

Definition size (d : Dtype) : Z :=
  match d with
  | F64 | I64 => 8
  | F32 | I32 => 4
  | F16 | Bf16 | I16 => 2
  | I8 | U8 | Bool_ | F8E4M3 | F8E5M2 => 1
  end.
End Dtype.

Record TensorInfo := mkTensorInfo {
  ti_name : rstr;
  ti_dtype : Dtype;
  ti_shape : list Z;
  ti_start : Z;
  ti_end : Z;
}.

(** Product of a tensor shape, or [None] on overflow. *)
Definition shape_numel (shape : list Z) : option Z :=
  foldl (λ n d, n ← n; checked_mul n d) (Some 1) shape.

Module TensorInfo.
Definition nbytes (t : TensorInfo) : Z := wsub (ti_end t) (ti_start t).
Definition numel (t : TensorInfo) : Z := default 0 (shape_numel (ti_shape t)).
Definition abs_range (t : TensorInfo) (data_start : Z) : Z * Z :=
  (wadd data_start (ti_start t), wadd data_start (ti_end t)).
End TensorInfo.

Record ShardHeader {J : Type} := mkShardHeader {
  sh_file_size : Z;
  sh_header_len : Z;
  sh_data_start : Z;
  sh_metadata : option (list (rstr * J));
  sh_tensors : list TensorInfo;
}.
Arguments ShardHeader : clear implicits.

Module ShardHeader.
Section with_json.
Context {J : Type}.
Definition tensor_bytes (h : ShardHeader J) : Z :=
  wrap64 (zsum (TensorInfo.nbytes <$> sh_tensors h)).
Definition buffer_bytes (h : ShardHeader J) : Z :=
  saturating_sub (sh_file_size h) (sh_data_start h).
End with_json.
End ShardHeader.

(** One constructor per rejection site of [read_header]. *)
Inductive header_error :=
| FileTooShort
| HeaderLengthZero
| HeaderLengthExceeds (header_len : Z)
| HeaderLengthOverflows
| HeaderOverrunsFile (header_len file_size : Z)
| UnexpectedEof
| BadJsonHeader
| HeaderNotAnObject
| MetadataNotAnObject
| EntryNotAnObject (name : rstr)
| MissingDtype (name : rstr)
| UnknownDtype (name dtype : rstr)
| MissingShape (name : rstr)
| NonIntegerDimension (name : rstr)
| MissingDataOffsets (name : rstr)
| DataOffsetsNotAPair (name : rstr)
| DataOffsetNotU64 (name : rstr) (which : Z)
| EndBeforeStart (name : rstr) (start fin : Z)
| EndBeyondBuffer (name : rstr) (fin buffer_size : Z)
| ShapeProductOverflows (name : rstr)
| ByteSizeOverflows (name : rstr)
| SizeMismatch (name : rstr) (declared expected : Z).

Inductive ErrorKind := InvalidData | UnexpectedEofKind.

Definition kind (e : header_error) : ErrorKind :=
  match e with UnexpectedEof => UnexpectedEofKind | _ => InvalidData end.

Abbreviation outcome := (result header_error).

(** ** Little-endian integers *)
Definition from_le_bytes (bs : list Z) : Z := foldr (λ b acc, b + 256 * acc) 0 bs.

Fixpoint to_le_bytes (n : nat) (x : Z) : list Z :=
  match n with
  | O => []
  | S n' => x mod 256 :: to_le_bytes n' (x / 256)
  end.

(** [Read::read_exact] into a buffer of [n] bytes, the cursor at [pos]. *)
Definition read_exact (file : list Z) (pos n : Z) : outcome (list Z) :=
  if decide (pos + n ≤ len file) then Ok (slice file pos (pos + n)) else Err UnexpectedEof.

Definition read_u64_le (file : list Z) (pos : Z) : outcome Z :=
  b ← read_exact file pos 8; Ok (from_le_bytes b).

Section read_header.
Context {J : Type} `{SerdeJson J}.

(** The loop body of [read_header] for one tensor entry. *)
Definition read_entry (buffer_size : Z) (name : rstr) (v : J) : outcome TensorInfo :=
  t ← ok_or (EntryNotAnObject name) (as_object v);
  dtype_str ← ok_or (MissingDtype name) (map_get t (lit "dtype") ≫= as_str);
  dtype ← ok_or (UnknownDtype name dtype_str) (Dtype.parse dtype_str);
  shape_arr ← ok_or (MissingShape name) (map_get t (lit "shape") ≫= as_array);
  shape ← try_map (λ d, ok_or (NonIntegerDimension name) (as_u64 d)) shape_arr;
  offs ← ok_or (MissingDataOffsets name) (map_get t (lit "data_offsets") ≫= as_array);
  match offs with
  | [o0; o1] =>
      start ← ok_or (DataOffsetNotU64 name 0) (as_u64 o0);
      fin ← ok_or (DataOffsetNotU64 name 1) (as_u64 o1);
      if decide (fin < start) then Err (EndBeforeStart name start fin)
      else if decide (fin > buffer_size) then Err (EndBeyondBuffer name fin buffer_size)
      else
        numel ← ok_or (ShapeProductOverflows name) (shape_numel shape);
        expected ← ok_or (ByteSizeOverflows name) (checked_mul numel (Dtype.size dtype));
        if decide (expected ≠ wsub fin start)
        then Err (SizeMismatch name (wsub fin start) expected)
        else Ok (mkTensorInfo name dtype shape start fin)
  | _ => Err (DataOffsetsNotAPair name)
  end.

(** The loop over the header's entries: [__metadata__] is set aside, every
    other entry must be a valid tensor. *)
Fixpoint read_entries (buffer_size : Z) (metadata : option (list (rstr * J)))
    (tensors : list TensorInfo) (obj : list (rstr * J)) :
    outcome (option (list (rstr * J)) * list TensorInfo) :=
  match obj with
  | [] => Ok (metadata, tensors)
  | (name, v) :: obj' =>
      if decide (name = lit "__metadata__") then
        match as_object v with
        | Some m => read_entries buffer_size (Some m) tensors obj'
        | None => Err MetadataNotAnObject
        end
      else
        t ← read_entry buffer_size name v;
        read_entries buffer_size metadata (tensors ++ [t]) obj'
  end.

(** [tensors.sort_by_key(|t| (t.start, t.end))] *)
Definition key_le (t1 t2 : TensorInfo) : Prop :=
  ti_start t1 < ti_start t2 ∨ (ti_start t1 = ti_start t2 ∧ ti_end t1 ≤ ti_end t2).
#[export] Instance key_le_dec t1 t2 : Decision (key_le t1 t2).
Proof. unfold key_le. apply _. Defined.

Definition read_header (file : list Z) : outcome (ShardHeader J) :=
  let file_size := len file in
  if decide (file_size < 8) then Err FileTooShort else
  header_len ← read_u64_le file 0;
  if decide (header_len = 0) then Err HeaderLengthZero else
  if decide (header_len > MAX_HEADER_BYTES) then Err (HeaderLengthExceeds header_len) else
  data_start ← ok_or HeaderLengthOverflows (checked_add 8 header_len);
  if decide (data_start > file_size) then Err (HeaderOverrunsFile header_len file_size) else
  let buffer_size := wsub file_size data_start in
  raw ← read_exact file 8 header_len;
  parsed ← ok_or BadJsonHeader (from_slice raw);
  obj ← ok_or HeaderNotAnObject (as_object parsed);
  '(metadata, tensors) ← read_entries buffer_size None [] obj;
  Ok (mkShardHeader J file_size header_len data_start metadata
        (sort_by key_le tensors)).
End read_header.

(** ** Directories and the weight-map index *)

(** [Path::extension] of a file name: what follows the last dot, unless the
    only dot is the leading one. *)
Definition extension (name : rstr) : option rstr :=
  match list_find (λ c, c = 46) (reverse name) with
  | Some (i, _) =>
      let before := take (length name - S i) name in
      if decide (before = []) then None else Some (drop (length name - i) name)
  | None => None
  end.

Inductive model_error :=
| NoSafetensorsFiles
| InShard (shard : rstr) (e : header_error)
| BadIndexJson.

(** All [*.safetensors] files in a directory, sorted by name. *)
Definition discover_shards (dir : list (rstr * list Z)) :
    result model_error (list (rstr * list Z)) :=
  let out := filter (λ p, extension p.1 = Some (lit "safetensors")) dir in
  let out := sort_by (λ p q, str_le p.1 q.1) out in
  if decide (out = []) then Err NoSafetensorsFiles else Ok out.

Section directory.
Context {J : Type} `{SerdeJson J}.

Definition read_model (dir : list (rstr * list Z)) :
    result model_error (list (ShardHeader J)) :=
  shards ← discover_shards dir;
  try_map (λ p, match read_header p.2 with
                | Ok h => Ok h
                | Err e => Err (InShard p.1 e)
                end) shards.

(** [index] is the contents of [model.safetensors.index.json], when present.
    The [BTreeMap] is its key-value map. *)
Definition read_index (index : option (list Z)) :
    result model_error (option (gmap rstr rstr)) :=
  match index with
  | None => Ok None
  | Some raw =>
      v ← ok_or BadIndexJson (from_slice raw);
      match get v (lit "weight_map") ≫= as_object with
      | None => Ok None
      | Some wm =>
          Ok (Some (foldl (λ out e, match as_str e.2 with
                                    | Some s => <[e.1 := s]> out
                                    | None => out
                                    end) ∅ wm))
      end
  end.

(** [(listed, found, missing_from_shards, not_in_index)] *)
Definition cross_check_index (headers : list (ShardHeader J)) (index : gmap rstr rstr) :
    Z * Z * list rstr * list rstr :=
  let present := btree_set (headers ≫= λ h, ti_name <$> sh_tensors h) in
  let listed := btree_set (map_to_list index).*1 in
  (len listed, len present,
   filter (λ s, s ∉ present) listed, filter (λ s, s ∉ listed) present).
End directory.

(** ** Specification *)

Definition bytes (l : list Z) : Prop := Forall (λ b, 0 ≤ b < 256) l.

Definition zprod (l : list Z) : Z := foldr Z.mul 1 l.

(** What the module promises about one tensor: the byte span is ordered, lies
    in the data buffer, and agrees with shape and dtype. *)
Record wf_tensor (buffer_size : Z) (t : TensorInfo) : Prop := {
  wf_start : 0 ≤ ti_start t;
  wf_order : ti_start t ≤ ti_end t;
  wf_bound : ti_end t ≤ buffer_size;
  wf_shape : Forall u64 (ti_shape t);
  wf_size : zprod (ti_shape t) * Dtype.size (ti_dtype t) = ti_end t - ti_start t;
}.

Record wf_header {J} (h : ShardHeader J) : Prop := {
  wf_file_size : u64 (sh_file_size h);
  wf_header_len : 0 < sh_header_len h ≤ MAX_HEADER_BYTES;
  wf_data_start : sh_data_start h = 8 + sh_header_len h;
  wf_in_file : sh_data_start h ≤ sh_file_size h;
  wf_tensors : Forall (wf_tensor (sh_file_size h - sh_data_start h)) (sh_tensors h);
  wf_sorted : StronglySorted key_le (sh_tensors h);
}.

(** ** Helper lemmas *)

Lemma from_le_bytes_bound l : bytes l → 0 ≤ from_le_bytes l < 256 ^ len l.
Proof.
  induction 1 as [|b l Hb _ IH]; [done|].
  rewrite len_cons, Z.pow_add_r by zsolve. cbn. fold (from_le_bytes l). lia.
Qed.

Lemma from_to_le_bytes n x : 0 ≤ x < 256 ^ Z.of_nat n → from_le_bytes (to_le_bytes n x) = x.
Proof.
  revert x; induction n as [|n IH]; intros x Hx; cbn; [cbn in Hx; lia|].
  fold (from_le_bytes (to_le_bytes n (x / 256))). rewrite IH.
  - pose proof (Z.div_mod x 256 ltac:(lia)). lia.
  - rewrite Nat2Z.inj_succ, Z.pow_succ_r in Hx by lia.
    split; [apply Z.div_pos; lia | apply Z.div_lt_upper_bound; lia].
Qed.

Lemma length_to_le_bytes n x : length (to_le_bytes n x) = n.
Proof. revert x; induction n as [|n IH]; intros; cbn; auto. Qed.

Lemma bytes_to_le_bytes n x : bytes (to_le_bytes n x).
Proof.
  revert x; induction n as [|n IH]; intros; cbn; constructor; [|apply IH].
  apply Z.mod_pos_bound. lia.
Qed.

Lemma bytes_slice l a b : bytes l → bytes (slice l a b).
Proof. intros. by apply Forall_take, Forall_drop. Qed.

Lemma zprod_cons d l : zprod (d :: l) = d * zprod l.
Proof. done. Qed.

Lemma foldl_numel_None l : foldl (λ n d, n ← n; checked_mul n d) None l = None.
Proof. by induction l. Qed.

Lemma foldl_numel_Some l a n :
  foldl (λ n d, n ← n; checked_mul n d) (Some a) l = Some n → n = a * zprod l.
Proof.
  revert a; induction l as [|d l IH]; intros a Hn; cbn in Hn; [|rewrite zprod_cons].
  - injection Hn as <-. cbn. lia.
  - destruct (checked_mul a d) as [b|] eqn:Hb.
    + apply checked_mul_Some in Hb as [-> _]. apply IH in Hn. subst n. lia.
    + by rewrite foldl_numel_None in Hn.
Qed.

Lemma shape_numel_Some shape n : shape_numel shape = Some n → n = zprod shape.
Proof. intros Hn%foldl_numel_Some. lia. Qed.

Lemma Dtype_size_pos d : 0 < Dtype.size d ≤ 8.
Proof. by destruct d. Qed.

Lemma Dtype_parse_as_str d : Dtype.parse (Dtype.as_str d) = Some d.
Proof. by destruct d. Qed.

Lemma zprod_pos_cons d l : 0 ≤ d → Forall u64 l → 0 < zprod (d :: l) → 0 < d ∧ 0 < zprod l.
Proof.
  intros Hd Hl. rewrite zprod_cons. assert (0 ≤ zprod l); [|nia].
  induction Hl as [|x l [Hx _] _ IH]; [done|]. rewrite zprod_cons. nia.
Qed.

Lemma foldl_numel_accept l a : Forall u64 l → 0 < a → 0 < zprod l → a * zprod l ≤ u64_max →
  foldl (λ n d, n ← n; checked_mul n d) (Some a) l = Some (a * zprod l).
Proof.
  intros Hl. revert a. induction Hl as [|d l [Hd _] Hl IH]; intros a Ha Hp Hb; cbn [foldl].
  - cbn. f_equal. lia.
  - destruct (zprod_pos_cons d l Hd Hl Hp). rewrite zprod_cons in *.
    cbn [mbind option_bind]. unfold checked_mul at 2. rewrite decide_True by nia.
    rewrite IH by nia. f_equal. lia.
Qed.

(** The product is computed without an intermediate overflow whenever no
    dimension is zero.  (With a zero, an overflowing prefix is rejected.) *)
Lemma shape_numel_accept l : Forall u64 l → 0 < zprod l → zprod l ≤ u64_max →
  shape_numel l = Some (zprod l).
Proof.
  intros. unfold shape_numel. rewrite foldl_numel_accept by (done || lia). f_equal. lia.
Qed.

#[export] Instance key_le_total : Total key_le.
Proof. intros t1 t2. unfold key_le. lia. Qed.

#[export] Instance key_le_trans : Transitive key_le.
Proof. intros t1 t2 t3. unfold key_le. lia. Qed.

Section read_header_lemmas.
Context `{SerdeJsonLaws J}.
Implicit Types (v : J) (kv obj : list (rstr * J)) (h : ShardHeader J).

(** Inversion of the entry parser: what a tensor it accepts looks like. *)
Lemma read_entry_wf bs name v t :
  u64 bs → read_entry bs name v = Ok t → ti_name t = name ∧ wf_tensor bs t.
Proof.
  unfold read_entry, u64. intros Hbs Hr. inv_ok.
  destruct a4 as [|o0 [|o1 [|]]]; try done. inv_ok.
  apply try_map_Ok in Ha3.
  apply as_u64_range in Ha5, Ha6. unfold u64 in *.
  apply checked_mul_Some in Ha8 as [-> _]. apply shape_numel_Some in Ha7 as ->.
  apply dec_stable in Hd1. rewrite wsub_small in Hd1 by (unfold u64; lia).
  split; [done|]. split; cbn [ti_start ti_end ti_shape ti_dtype]; try lia.
  eapply Forall_forall. intros x Hx.
  apply list_elem_of_lookup in Hx as [i Hi].
  eapply Forall2_lookup_r in Hi as (d & _ & Hd2); [|done].
  cbn in Hd2. inv_ok. by apply as_u64_range in Hd2.
Qed.

Lemma read_entries_Ok bs md acc obj md' ts :
  read_entries bs md acc obj = Ok (md', ts) →
  ∃ ts', ts = acc ++ ts' ∧
    Forall2 (λ e t, read_entry bs e.1 e.2 = Ok t)
      (filter (λ e, e.1 ≠ lit "__metadata__") obj) ts'.
Proof.
  revert md acc; induction obj as [|[name v] obj IH]; intros md acc Hr; cbn in Hr.
  - inv_ok. exists []. rewrite app_nil_r. split; [done|constructor].
  - rewrite filter_cons. cbn [fst]. case_decide as Hm.
    + rewrite decide_False by tauto. destruct (as_object v); [|done]. eauto.
    + rewrite decide_True by done. inv_ok.
      apply IH in Hr as (ts' & -> & Hts). exists (a :: ts').
      rewrite <- app_assoc. split; [done|]. by constructor.
Qed.
(** Inversion of [read_header]. *)
Lemma read_header_Ok file h :
  bytes file → u64 (len file) → read_header file = Ok h →
  ∃ j obj ts,
    let hl := from_le_bytes (slice file 0 8) in
    0 < hl ≤ MAX_HEADER_BYTES ∧ 8 + hl ≤ len file ∧
    from_slice (slice file 8 (8 + hl)) = Some j ∧ as_object j = Some obj ∧
    Forall2 (λ e t, read_entry (len file - (8 + hl)) e.1 e.2 = Ok t)
      (filter (λ e, e.1 ≠ lit "__metadata__") obj) ts ∧
    sh_file_size h = len file ∧ sh_header_len h = hl ∧ sh_data_start h = 8 + hl ∧
    sh_tensors h = sort_by key_le ts.
Proof.
  intros Hb Hlen Hr. unfold read_header, read_u64_le, read_exact in Hr.
  pose proof (from_le_bytes_bound (slice file 0 8) ltac:(by apply bytes_slice)) as Hhl.
  unfold u64, u64_max in *. change (0 + 8) with 8 in Hr. inv_ok.
  match goal with p : option _ * _ |- _ => destruct p as [md ts] end. inv_ok.
  match goal with Hc : checked_add _ _ = Some _ |- _ =>
    apply checked_add_Some in Hc as [-> _] end.
  match goal with Hc : read_entries _ _ _ _ = Ok _ |- _ =>
    apply read_entries_Ok in Hc as (ts' & -> & Hts) end.
  rewrite wsub_small in Hts by (unfold u64, u64_max; lia).
  eexists _, _, _. repeat split; try done; cbn; try lia; done.
Qed.

Lemma read_entry_not_eof bs name v : read_entry bs name v ≠ Err UnexpectedEof.
Proof.
  unfold read_entry. intros Hr. inv_err; try done.
  destruct a4 as [|o0 [|o1 [|]]]; try done. by inv_err.
Qed.

Lemma read_entries_not_eof bs md ts obj : read_entries bs md ts obj ≠ Err UnexpectedEof.
Proof.
  revert md ts; induction obj as [|[k v] obj IH]; intros md ts; cbn; [done|].
  case_decide; [by destruct (as_object v)|].
  intros [Hr|(t & _ & Hr)]%bind_Err; [by apply read_entry_not_eof in Hr|by eapply IH].
Qed.

(** The parser keeps the entry's name. *)
Lemma read_entry_name bs name v t : read_entry bs name v = Ok t → ti_name t = name.
Proof.
  unfold read_entry. intros Hr. inv_ok.
  match goal with Hr : match ?l with _ => _ end = Ok _ |- _ =>
    destruct l as [|o0 [|o1 [|]]]; try done end. by inv_ok.
Qed.

Lemma fst_filter (P : rstr → Prop) `{!∀ k, Decision (P k)} (obj : list (rstr * J)) :
  (filter (λ e, P e.1) obj).*1 = filter P obj.*1.
Proof.
  induction obj as [|[k v] l IH]; [done|].
  cbn [fmap list_fmap fst]. rewrite !filter_cons. cbn [fst].
  case_decide; cbn; by rewrite IH.
Qed.

(** The JSON value of a header entry: what safetensors' own writer emits. *)
Definition describes (v : J) (t : TensorInfo) : Prop :=
  ∃ kv dt sh offs,
    as_object v = Some kv
    ∧ map_get kv (lit "dtype") = Some dt ∧ as_str dt = Some (Dtype.as_str (ti_dtype t))
    ∧ map_get kv (lit "shape") = Some sh
    ∧ (∃ ds, as_array sh = Some ds ∧ Forall2 (λ d n, as_u64 d = Some n) ds (ti_shape t))
    ∧ map_get kv (lit "data_offsets") = Some offs
    ∧ ∃ o0 o1, as_array offs = Some [o0; o1]
        ∧ as_u64 o0 = Some (ti_start t) ∧ as_u64 o1 = Some (ti_end t).

Lemma read_entry_accept bs t v : u64 bs → wf_tensor bs t → shape_numel (ti_shape t) ≠ None →
  describes v t → read_entry bs (ti_name t) v = Ok t.
Proof.
  intros Hbs [Ws Wo Wb Wsh Wsz] Hnum
    (kv & dt & sh & offs & Hkv & Hdt & Hds & Hsh & (ds & Hsa & Hdims) & Hof & o0 & o1 & Hoa & Ho0 & Ho1).
  unfold read_entry. rewrite Hkv. cbn [ok_or mbind result_bind].
  rewrite Hdt. cbn [mbind option_bind]. rewrite Hds. cbn [ok_or mbind result_bind].
  rewrite Dtype_parse_as_str. cbn [ok_or mbind result_bind].
  rewrite Hsh. cbn [mbind option_bind]. rewrite Hsa. cbn [ok_or mbind result_bind].
  assert (try_map (λ d, ok_or (NonIntegerDimension (ti_name t)) (as_u64 d)) ds = Ok (ti_shape t)) as ->.
  { apply try_map_Ok. eapply Forall2_impl; [done|]. intros d n E. cbn. by rewrite E. }
  cbn [mbind result_bind]. rewrite Hof. cbn [mbind option_bind]. rewrite Hoa.
  cbn [ok_or mbind result_bind]. rewrite Ho0, Ho1. cbn [ok_or mbind result_bind].
  unfold u64 in Hbs. rewrite !decide_False by lia.
  pose proof (Dtype_size_pos (ti_dtype t)).
  destruct (shape_numel (ti_shape t)) as [n|] eqn:En; [|done]. apply shape_numel_Some in En as ->.
  cbn [ok_or mbind result_bind].
  unfold checked_mul. rewrite decide_True by nia. cbn [ok_or mbind result_bind].
  rewrite wsub_small by (unfold u64; lia). rewrite decide_False by (intros Hc; by apply Hc).
  by destruct t.
Qed.

Lemma read_entries_accept bs obj ts : u64 bs → NoDup obj.*1 →
  (∀ v, map_get obj (lit "__metadata__") = Some v → is_Some (as_object v)) →
  Forall2 (λ e t, ti_name t = e.1 ∧ wf_tensor bs t ∧ shape_numel (ti_shape t) ≠ None ∧ describes e.2 t)
    (filter (λ e, e.1 ≠ lit "__metadata__") obj) ts →
  ∀ md acc, read_entries bs md acc obj =
    Ok (match map_get obj (lit "__metadata__") with Some v => as_object v | None => md end, acc ++ ts).
Proof.
  intros Hbs. revert ts. induction obj as [|[k v] obj IH]; intros ts Hnd Hm Hts md acc.
  { inversion Hts. by rewrite app_nil_r. }
  cbn [fmap list_fmap fst] in Hnd. apply NoDup_cons in Hnd as [Hk Hnd].
  rewrite map_get_cons in Hm. rewrite filter_cons in Hts. cbn [fst read_entries] in *.
  rewrite map_get_cons. destruct (decide (k = lit "__metadata__")) as [->|E].
  - rewrite decide_False in Hts by (intros Hc; by apply Hc).
    destruct (Hm v eq_refl) as [m ->].
    assert (map_get obj (lit "__metadata__") = None) as Hg.
    { destruct (map_get obj _) as [v'|] eqn:Eg; [|done]. destruct Hk.
      apply map_get_Some_elem in Eg. apply list_elem_of_fmap. by exists (lit "__metadata__", v'). }
    rewrite (IH ts); [by rewrite Hg|done|by rewrite Hg|done].
  - rewrite decide_True in Hts by done. inversion Hts as [|e t es ts' (Hn & Hw & Hp & Hd) Hts']; subst.
    cbn [fst snd] in *. rewrite <- Hn, (read_entry_accept _ t) by done. cbn [mbind result_bind].
    rewrite (IH ts') by done. by rewrite <- app_assoc.
Qed.
End read_header_lemmas.

(** ** Properties *)

Section properties.
Context `{SerdeJsonLaws J}.

Lemma read_header_sound (file : list Z) (h : ShardHeader J) :
  bytes file → u64 (len file) → read_header file = Ok h →
  wf_header h ∧ sh_file_size h = len file
  ∧ sh_header_len h = from_le_bytes (take 8 file).
Proof.
  intros Hb Hlen Hr.
  apply read_header_Ok in Hr as (j & obj & ts & Hhl & Hin & _ & _ & Hts & Hfs & Hhlen & Hds & Hsh);
    [|done..].
  assert (slice file 0 8 = take 8 file) as Hsl by done. rewrite Hsl in *.
  split; [|done]. split; rewrite ?Hfs, ?Hhlen, ?Hds, ?Hsh; try done.
  - rewrite sort_by_Permutation. apply Forall_forall. intros t [i Hi]%list_elem_of_lookup.
    eapply Forall2_lookup_r in Hts as (e & _ & He); [|done].
    apply read_entry_wf in He as [_ Hwf]; [done|]. zsolve.
  - apply Sorted_StronglySorted; [apply _|]. apply Sorted_sort_by. apply _.
Qed.

(** No entry is dropped, duplicated or invented: the tensors of an accepted
    header are, up to order, exactly the non-metadata entries of the JSON
    object, and their names are distinct. *)
Theorem read_header_complete (file : list Z) (h : ShardHeader J) (j : J) obj :
  bytes file → u64 (len file) → read_header file = Ok h →
  from_slice (slice file 8 (8 + sh_header_len h)) = Some j → as_object j = Some obj →
  ti_name <$> sh_tensors h ≡ₚ filter (λ k, k ≠ lit "__metadata__") obj.*1
  ∧ NoDup (ti_name <$> sh_tensors h).
Proof.
  intros Hb Hlen Hr Hj Hobj.
  apply read_header_Ok in Hr as (j' & obj' & ts & _ & _ & Hj' & Hobj' & Hts & _ & Hhlen & _ & ->);
    [|done..].
  rewrite Hhlen in Hj.
  assert (j' = j) as -> by congruence. assert (obj' = obj) as -> by congruence.
  assert (ti_name <$> ts = filter (λ k, k ≠ lit "__metadata__") obj.*1) as Hn.
  { rewrite <- (fst_filter (λ k, k ≠ lit "__metadata__")). symmetry.
    induction Hts as [|e t es ts Ht _ IH]; [done|].
    apply read_entry_name in Ht. cbn. by rewrite IH, Ht. }
  rewrite sort_by_Permutation, Hn. split; [done|].
  apply NoDup_filter. by eapply as_object_keys.
Qed.

(** C22. Every header [read_header] accepts satisfies the invariants the module
    documents: offsets ordered and inside the data buffer, offsets, shape and
    dtype in agreement, [data_start + end <= file_size], tensors in
    (start, end) order.  No entry is dropped, duplicated or invented: the
    tensors are, up to order, exactly the non-metadata entries of the JSON
    object the header is, under distinct names. *)
Theorem read_header_wf (file : list Z) (h : ShardHeader J) :
  bytes file → u64 (len file) → read_header file = Ok h →
  wf_header h ∧ sh_file_size h = len file
  ∧ sh_header_len h = from_le_bytes (take 8 file)
  ∧ ∃ j obj, from_slice (slice file 8 (8 + sh_header_len h)) = Some j ∧ as_object j = Some obj
      ∧ ti_name <$> sh_tensors h ≡ₚ filter (λ k, k ≠ lit "__metadata__") obj.*1
      ∧ NoDup (ti_name <$> sh_tensors h).
Proof.
  intros Hb Hlen Hr. destruct (read_header_sound file h Hb Hlen Hr) as (Hw & Hs & Hl).
  do 3 (split; [done|]).
  destruct (read_header_Ok file h Hb Hlen Hr)
    as (j & obj & ts & _ & _ & Hj & Hobj & _ & _ & Hhlen & _).
  rewrite <- Hhlen in Hj. exists j, obj. do 2 (split; [done|]). by apply (read_header_complete file h j).
Qed.

(** A malformed file is always reported as [InvalidData]: no other error
    kind escapes, because every read is checked against the file size first. *)
Theorem read_header_error_kind (file : list Z) e :
  bytes file → read_header (J:=J) file = Err e → kind e = InvalidData.
Proof.
  intros Hb Hr. destruct e; try done. exfalso.
  pose proof (from_le_bytes_bound (slice file 0 8) ltac:(by apply bytes_slice)) as Hhl.
  unfold read_header, read_u64_le, read_exact in Hr. change (0 + 8) with 8 in Hr.
  inv_err; try done; inv_ok; try done; try lia.
  - match goal with Hc : checked_add _ _ = Some _ |- _ =>
      apply checked_add_Some in Hc as [-> _] end. cbn in *. lia.
  - by eapply read_entries_not_eof.
  - match goal with p : option _ * _ |- _ => by destruct p end.
Qed.

(** C23. Every file with a well-formed header is accepted: eight length bytes, a
    JSON object of at most [MAX_HEADER_BYTES] bytes whose metadata entry, if it
    has one, is an object and whose other entries describe well-formed tensors
    (a product of dimensions, multiplied from the left, that stays within 64
    bits, as it does when it fits and no dimension is zero,
    [shape_numel_accept]), and a data section.  The result has that metadata and lists exactly
    those tensors, in (start, end) order. *)
Theorem read_header_accepts (hdr data : list Z) (j : J) obj (ts : list TensorInfo) :
  0 < len hdr ≤ MAX_HEADER_BYTES → u64 (8 + len hdr + len data) →
  from_slice hdr = Some j → as_object j = Some obj →
  (∀ v, map_get obj (lit "__metadata__") = Some v → is_Some (as_object v)) →
  Forall2 (λ e t, ti_name t = e.1 ∧ wf_tensor (len data) t ∧ shape_numel (ti_shape t) ≠ None ∧ describes e.2 t)
    (filter (λ e, e.1 ≠ lit "__metadata__") obj) ts →
  ∃ h, read_header (to_le_bytes 8 (len hdr) ++ hdr ++ data) = Ok h
    ∧ sh_data_start h = 8 + len hdr ∧ sh_metadata h = map_get obj (lit "__metadata__") ≫= as_object
    ∧ sh_tensors h ≡ₚ ts ∧ StronglySorted key_le (sh_tensors h).
Proof.
  intros Hh Hu Hj Ho Hm Hts. unfold MAX_HEADER_BYTES, u64, u64_max in *.
  change (Z.shiftl 1 28) with 268435456 in *.
  set (file := to_le_bytes 8 (len hdr) ++ hdr ++ data).
  assert (len file = 8 + len hdr + len data) as Hlen.
  { subst file. rewrite !len_app. unfold len at 1. rewrite length_to_le_bytes. lia. }
  assert (slice file 0 (0 + 8) = to_le_bytes 8 (len hdr)) as H8 by done.
  assert (slice file 8 (8 + len hdr) = hdr) as Hs.
  { subst file. unfold slice. rewrite (drop_app_length' _ _ 8) by (by rewrite length_to_le_bytes).
    apply take_app_length'. unfold len. lia. }
  pose proof (len_nonneg data).
  unfold read_header, read_u64_le, read_exact. rewrite Hlen, H8.
  rewrite (decide_False (P := _ < 8)), (decide_True (P := 0 + 8 ≤ _)) by lia.
  cbn [mbind result_bind]. rewrite from_to_le_bytes by (split; [lia|cbn; lia]).
  rewrite !decide_False by (change MAX_HEADER_BYTES with 268435456; lia).
  unfold checked_add. rewrite !decide_True by (unfold u64_max; lia).
  cbn [ok_or mbind result_bind]. rewrite decide_False by lia.
  cbn [mbind result_bind]. rewrite Hs, Hj. cbn [ok_or mbind result_bind]. rewrite Ho.
  cbn [ok_or mbind result_bind]. rewrite wsub_small by (unfold u64, u64_max; lia).
  replace (8 + len hdr + len data - (8 + len hdr)) with (len data) by lia.
  rewrite (read_entries_accept _ _ ts); [|unfold u64, u64_max; lia|by eapply as_object_keys|done..].
  cbn [mbind result_bind]. eexists. split; [reflexivity|]. cbn. split; [done|].
  split; [by destruct (map_get obj _)|]. split; [apply sort_by_Permutation|].
  apply Sorted_StronglySorted; [apply _|]. apply Sorted_sort_by. apply _.
Qed.
End properties.

(** Sharded checkpoints are read in name order: [discover_shards] returns
    exactly the [.safetensors] files, sorted by name, and fails only when there
    is none. *)
Theorem discover_shards_spec (dir : list (rstr * list Z)) :
  match discover_shards dir with
  | Ok shards =>
      shards ≡ₚ filter (λ p, extension p.1 = Some (lit "safetensors")) dir
      ∧ StronglySorted (λ p q, str_le p.1 q.1) shards ∧ shards ≠ []
  | Err e => e = NoSafetensorsFiles ∧
      ∀ p, p ∈ dir → extension p.1 ≠ Some (lit "safetensors")
  end.
Proof.
  unfold discover_shards. case_decide as Hn.
  - split; [done|]. intros p Hp He.
    assert (p ∈ sort_by (λ p q, str_le p.1 q.1)
      (filter (λ p, extension p.1 = Some (lit "safetensors")) dir)) as Hin.
    { rewrite sort_by_Permutation. by apply list_elem_of_filter. }
    rewrite Hn in Hin. by apply not_elem_of_nil in Hin.
  - split; [apply sort_by_Permutation|]. split; [|done].
    apply Sorted_StronglySorted.
    + intros p q r. apply str_le_trans.
    + apply Sorted_sort_by. intros p q. apply str_le_total.
Qed.

(** The weight-map cross check is exact: the missing names are those the
    index lists and no shard holds, the extra names those a shard holds and the
    index does not list, each once and in ascending order. *)
Theorem cross_check_index_spec {J} (headers : list (ShardHeader J)) (index : gmap rstr rstr) :
  let '(nlisted, nfound, missing, extra) := cross_check_index headers index in
  let present s := ∃ h t, h ∈ headers ∧ t ∈ sh_tensors h ∧ ti_name t = s in
  nlisted = Z.of_nat (size index)
  ∧ nfound + len missing = nlisted + len extra
  ∧ (∀ s, s ∈ missing ↔ is_Some (index !! s) ∧ ¬ present s)
  ∧ (∀ s, s ∈ extra ↔ index !! s = None ∧ present s)
  ∧ NoDup missing ∧ NoDup extra
  ∧ StronglySorted str_le missing ∧ StronglySorted str_le extra.
Proof.
  unfold cross_check_index. set (P := btree_set (headers ≫= _)). set (L := btree_set (map_to_list index).*1).
  assert (∀ s, s ∈ P ↔ ∃ h t, h ∈ headers ∧ t ∈ sh_tensors h ∧ ti_name t = s) as HP.
  { intros s. unfold P. rewrite elem_of_btree_set, list_elem_of_bind.
    setoid_rewrite list_elem_of_fmap. naive_solver. }
  assert (∀ s, s ∈ L ↔ is_Some (index !! s)) as HL.
  { intros s. unfold L. rewrite elem_of_btree_set, list_elem_of_fmap. split.
    - intros ([k v] & -> & Hkv). apply elem_of_map_to_list in Hkv. by exists v.
    - intros [v Hv]. exists (s, v). split; [done|]. by apply elem_of_map_to_list. }
  assert (NoDup P ∧ NoDup L) as [HnP HnL] by (split; apply NoDup_btree_set).
  assert (len L = Z.of_nat (size index)) as HLs.
  { unfold L, len, btree_set. rewrite sort_by_Permutation.
    assert (NoDup (map_to_list index).*1) as Hd by apply NoDup_fst_map_to_list.
    rewrite (remove_dups_id _ Hd), length_fmap. by rewrite length_map_to_list. }
  split; [done|]. split; [by apply count_balance|].
  split; [|split; [|split; [|split; [|split]]]].
  - intros s. rewrite list_elem_of_filter, HP, HL. tauto.
  - intros s. rewrite list_elem_of_filter, HP, HL, eq_None_not_Some. done.
  - by apply NoDup_filter.
  - by apply NoDup_filter.
  - apply StronglySorted_filter, btree_set_sorted.
  - apply StronglySorted_filter, btree_set_sorted.
Qed.
