(* ===== verification/HeaderWitness.v ===== *)
(** * Concrete inputs for the theorems of [Header] *)

From S2P Require Import Prelude Serde Rstr Utf8 Float PyJson JsonInstance Header.

(** A checkpoint of two tensors, written out of order, with metadata. *)
Definition demo_entry (dt : string) (shape : list Z) (a b : Z) : Value :=
  Object [(lit "dtype", Str (lit dt)); (lit "shape", Array (Int <$> shape));
          (lit "data_offsets", Array [Int a; Int b])].
Definition demo_obj : list (rstr * Value) :=
  [(lit "b", demo_entry "BF16" [3] 8 14); (lit "a", demo_entry "F32" [2; 1] 0 8)].
Definition demo_hdr : list Z := utf8 (dumps (Object demo_obj)).
Definition demo_data : list Z := replicate 14 7.
Definition demo_file : list Z := to_le_bytes 8 (len demo_hdr) ++ demo_hdr ++ demo_data.
Definition demo_tensors : list TensorInfo :=
  [mkTensorInfo (lit "b") Bf16 [3] 8 14; mkTensorInfo (lit "a") F32 [2; 1] 0 8].
Definition demo_header : ShardHeader Value :=
  mkShardHeader Value (len demo_file) (len demo_hdr) (8 + len demo_hdr) None
    (reverse demo_tensors).

Lemma demo_bytes : bytes demo_file.
Proof. apply (bool_decide_unpack _). by vm_compute. Qed.

Lemma demo_read : read_header demo_file = Ok demo_header.
Proof. by vm_compute. Qed.

Lemma read_header_wf_witness :
  read_header demo_file = Ok demo_header ∧ wf_header demo_header ∧
  NoDup (ti_name <$> sh_tensors demo_header).
Proof.
  split; [apply demo_read|].
  destruct (read_header_wf demo_file demo_header demo_bytes) as (Hw & _ & _ & _ & _ & _ & _ & _ & Hn);
    [by vm_compute|apply demo_read|].
  split; [exact Hw|exact Hn].
Defined.

Lemma read_header_complete_witness :
  ti_name <$> sh_tensors demo_header ≡ₚ [lit "b"; lit "a"].
Proof.
  apply (read_header_complete demo_file demo_header (Object demo_obj) demo_obj demo_bytes);
    [by vm_compute|apply demo_read|by vm_compute|by vm_compute].
Defined.

(** A length prefix that points past the end of the file. *)
Lemma read_header_error_kind_witness :
  kind (HeaderOverrunsFile 1000 10) = InvalidData.
Proof.
  apply (read_header_error_kind (J:=Value) (to_le_bytes 8 1000 ++ [0; 0])); [|by vm_compute].
  apply (bool_decide_unpack _). by vm_compute.
Defined.

Lemma as_u64_Int n : u64 n → as_u64 (Int n) = Some n.
Proof. intros. cbn. by rewrite decide_True. Qed.

Lemma demo_entry_describes name dt d shape a b :
  lit dt = Dtype.as_str d → Forall u64 shape → u64 a → u64 b →
  describes (demo_entry dt shape a b) (mkTensorInfo name d shape a b).
Proof.
  intros Hdt Hs Ha Hb. eexists _, _, _, _. do 2 (split; [reflexivity|]).
  split; [by cbn; rewrite Hdt|]. split; [reflexivity|]. split.
  - eexists. split; [reflexivity|]. cbn. apply Forall2_fmap_l.
    induction Hs; constructor; [by apply as_u64_Int|done].
  - split; [reflexivity|]. eexists _, _. split; [reflexivity|]. split; by apply as_u64_Int.
Qed.

(** With metadata, and a tensor without elements whose second dimension is
    zero. *)
Definition meta_obj : list (rstr * Value) :=
  (lit "__metadata__", Object [(lit "format", Str (lit "pt"))]) :: (lit "e", demo_entry "U8" [5; 0] 3 3) :: demo_obj.
Definition meta_hdr : list Z := utf8 (dumps (Object meta_obj)).
Definition meta_file : list Z := to_le_bytes 8 (len meta_hdr) ++ meta_hdr ++ demo_data.
Definition meta_tensors : list TensorInfo := mkTensorInfo (lit "e") U8 [5; 0] 3 3 :: demo_tensors.

Lemma meta_described :
  Forall2 (λ e t, ti_name t = e.1 ∧ wf_tensor (len demo_data) t ∧ shape_numel (ti_shape t) ≠ None
                  ∧ describes e.2 t) (filter (λ e, e.1 ≠ lit "__metadata__") meta_obj) meta_tensors.
Proof.
  assert (filter (λ e, e.1 ≠ lit "__metadata__") meta_obj = (lit "e", demo_entry "U8" [5; 0] 3 3) :: demo_obj)
    as -> by by vm_compute.
  constructor; [|constructor; [|constructor; [|constructor]]].
  all: split; [done|]; split; [|split; [done|apply demo_entry_describes; try done]].
  all: try (apply (bool_decide_unpack _); by vm_compute).
  all: split; try done; apply (bool_decide_unpack _); by vm_compute.
Qed.

Lemma read_header_accepts_witness : ∃ h, read_header meta_file = Ok h
  ∧ sh_data_start h = 8 + len meta_hdr
  ∧ sh_metadata h = map_get meta_obj (lit "__metadata__") ≫= as_object
  ∧ sh_tensors h ≡ₚ meta_tensors ∧ StronglySorted key_le (sh_tensors h).
Proof.
  apply (read_header_accepts meta_hdr demo_data (Object meta_obj) meta_obj meta_tensors).
  - by vm_compute.
  - by vm_compute.
  - by vm_compute.
  - by vm_compute.
  - intros v. vm_compute. intros [= <-]. by eexists.
  - apply meta_described.
Defined.
