(* ===== verification/Safetensors.v ===== *)
(** * The model's safetensors reader

    Models qwen35-forward/gdn/src/safetensors.rs: element types and their
    decoding to [f32], one shard, a directory of shards, and the index check.
    A file is its bytes; since a shard is read twice, the second reading is a
    list of its own.  Error texts are constructors, one per rejection. *)

From stdpp Require Import gmap.
From S2P Require Import Prelude Float Serde Rstr Header.
#[local] Open Scope Z_scope.

(** ** Bits of a float *)

(** [f32::from_bits]; a NaN keeps no payload. *)
Definition from_bits (b : Z) : f32 :=
  let s := Z.testbit b 31 in
  let e := Z.land (Z.shiftr b 23) 0xff in
  let m := Z.land b 0x7fffff in
  if e =? 0xff then if m =? 0 then S754_infinity s else S754_nan
  else if e =? 0 then match m with Zpos p => S754_finite s p (-149) | _ => S754_zero s end
  else match m + 2 ^ 23 with Zpos p => S754_finite s p (e - 150) | _ => S754_nan end.

(** ** Element types *)

Inductive Dtype := F32 | F16 | Bf16.

#[export] Instance StDtype_eq_dec : EqDecision Dtype.
Proof. solve_decision. Defined.

Module StDtype.
Definition parse (s : rstr) : option Dtype :=
  if decide (s = lit "F32") then Some F32
  else if decide (s = lit "F16") then Some F16
  else if decide (s = lit "BF16") then Some Bf16
  else None.
Definition size (d : Dtype) : Z := match d with F32 => 4 | F16 | Bf16 => 2 end.
Definition as_str (d : Dtype) : rstr :=
  match d with F32 => lit "F32" | F16 => lit "F16" | Bf16 => lit "BF16" end.
End StDtype.

(** The [while f & 0x400 == 0] loop: ten shifts bring any set bit up. *)
Fixpoint normalise (fuel : nat) (f e : Z) : Z * Z :=
  match fuel with
  | O => (f, e)
  | S fuel => if Z.land f 0x400 =? 0 then normalise fuel (Z.shiftl f 1) (e - 1) else (f, e)
  end.

Definition f16_to_f32 (h : Z) : f32 :=
  let sign := Z.shiftr h 15 in
  let exp := Z.land (Z.shiftr h 10) 0x1f in
  let frac := Z.land h 0x3ff in
  let bits :=
    if exp =? 0 then
      if frac =? 0 then Z.shiftl sign 31
      else
        let '(f, e) := normalise 10 frac (127 - 15 - 10) in
        Z.lor (Z.lor (Z.shiftl sign 31) (Z.shiftl (e + 1) 23)) (Z.shiftl (Z.land f 0x3ff) 13)
    else if exp =? 0x1f then
      Z.lor (Z.lor (Z.shiftl sign 31) (Z.shiftl 0xff 23)) (Z.shiftl frac 13)
    else
      Z.lor (Z.lor (Z.shiftl sign 31) (Z.shiftl (exp + 127 - 15) 23)) (Z.shiftl frac 13) in
  from_bits bits.

(** One element from its bytes. *)
Definition decode_elem (d : Dtype) (b : list Z) : f32 :=
  match d with
  | F32 => from_bits (from_le_bytes b)
  | Bf16 => from_bits (Z.shiftl (from_le_bytes b) 16)
  | F16 => f16_to_f32 (from_le_bytes b)
  end.

(** [None] when the bytes are not a whole number of elements. *)
Definition decode (d : Dtype) (bytes : list Z) : option (list f32) :=
  let esz := StDtype.size d in
  if decide (len bytes mod esz ≠ 0) then None else
  let n := Z.to_nat (len bytes / esz) in
  Some ((λ i, decode_elem d (slice bytes (Z.of_nat i * esz) (Z.of_nat i * esz + esz))) <$> seq 0 n).

(** ** Shards *)

Record Entry := mkEntry {
  e_dtype : Dtype;
  e_shape : list Z;
  e_start : Z;
  e_end : Z;
}.

(** [shape.iter().product()]: nothing checks for overflow, so it wraps. *)
Definition numel (e : Entry) : Z := foldl wmul 1 (e_shape e).

Record Shard := mkShard {
  sd_path : rstr;
  sd_file_size : Z;
  sd_data_start : Z;
  sd_tensors : gmap rstr Entry;
}.

Definition shard_get (s : Shard) (name : rstr) : option Entry := sd_tensors s !! name.

Inductive st_error :=
| CannotReadLength
| HeaderLengthOverflow (header_len : Z)
| HeaderBeyondFile (header_len file_size : Z)
| BadJson
| NotAnObject
| NoDtype (name : rstr)
| UnsupportedDtype (name dtype : rstr)
| NoShape (name : rstr)
| BadShape (name : rstr)
| NoDataOffsets (name : rstr)
| OffsetsNotAPair (name : rstr)
| BadOffset (name : rstr)
| Reversed (name : rstr) (start fin : Z)
| NumelOverflow (name : rstr)
| SpanMismatch (name : rstr) (span expected : Z)
| StartOverflow (name : rstr)
| EndOverflow (name : rstr)
| EndsBeyondFile (name : rstr) (fin file_size : Z)
(* over the directory *)
| NoShards
| Duplicate (name first second : rstr)
| FileChanged (path : rstr)
(* reading a tensor *)
| NoTensor (name : rstr)
| DecodeError (name : rstr)
| WrongCount (name : rstr) (got want : Z)
| SliceOutOfRange (* the panic of slicing past the buffer *)
| BadIndex
| NoWeightMap.

Abbreviation outcome := (result st_error).

Definition usize_max : Z := 2 ^ 64 - 1.

Section shard.
Context {J : Type} `{SerdeJson J}.

(** The loop body of [Shard::open] for one tensor. *)
Definition open_entry (data_start file_size : Z) (name : rstr) (v : J) : outcome Entry :=
  dtype_str ← ok_or (NoDtype name) (get v (lit "dtype") ≫= as_str);
  dtype ← ok_or (UnsupportedDtype name dtype_str) (StDtype.parse dtype_str);
  shape_arr ← ok_or (NoShape name) (get v (lit "shape") ≫= as_array);
  let shape := (λ x, default usize_max (as_u64 x)) <$> shape_arr in
  if decide (usize_max ∈ shape) then Err (BadShape name) else
  offs ← ok_or (NoDataOffsets name) (get v (lit "data_offsets") ≫= as_array);
  match offs with
  | [o0; o1] =>
      rel_start ← ok_or (BadOffset name) (as_u64 o0);
      rel_end ← ok_or (BadOffset name) (as_u64 o1);
      if decide (rel_end < rel_start) then Err (Reversed name rel_start rel_end) else
      let span := wsub rel_end rel_start in
      let numel := foldl wmul 1 shape in
      expected ← ok_or (NumelOverflow name) (checked_mul numel (StDtype.size dtype));
      if decide (span ≠ expected) then Err (SpanMismatch name span expected) else
      start ← ok_or (StartOverflow name) (checked_add data_start rel_start);
      fin ← ok_or (EndOverflow name) (checked_add data_start rel_end);
      if decide (fin > file_size) then Err (EndsBeyondFile name fin file_size) else
      Ok (mkEntry dtype shape start fin)
  | _ => Err (OffsetsNotAPair name)
  end.

Fixpoint open_entries (data_start file_size : Z) (obj : list (rstr * J))
    (tensors : gmap rstr Entry) : outcome (gmap rstr Entry) :=
  match obj with
  | [] => Ok tensors
  | (name, v) :: obj =>
      if decide (name = lit "__metadata__") then open_entries data_start file_size obj tensors
      else
        e ← open_entry data_start file_size name v;
        open_entries data_start file_size obj (<[name := e]> tensors)
  end.

Definition shard_open (path : rstr) (file : list Z) : outcome Shard :=
  let file_size := len file in
  if decide (file_size < 8) then Err CannotReadLength else
  let header_len := from_le_bytes (slice file 0 8) in
  data_start ← ok_or (HeaderLengthOverflow header_len) (checked_add 8 header_len);
  if decide (data_start > file_size) then Err (HeaderBeyondFile header_len file_size) else
  let raw := slice file 8 (8 + header_len) in
  doc ← ok_or BadJson (from_slice raw);
  obj ← ok_or NotAnObject (as_object doc);
  tensors ← open_entries data_start file_size obj ∅;
  Ok (mkShard path file_size data_start tensors).

(** ** Directories *)

(** A [.safetensors] file: its name, the bytes [Shard::open] reads, and the
    bytes the later [fs::read] finds. *)
Record File := mkFile { f_name : rstr; f_header_read : list Z; f_data_read : list Z }.

Record Model := mkModel {
  shards : list Shard;
  index : gmap rstr (nat * Entry);
  bufs : list (list Z);
}.

(** A [BTreeMap]'s entries, in key order. *)
Definition btree_entries {A} (m : gmap rstr A) : list (rstr * A) :=
  sort_by (λ x y, str_le x.1 y.1) (map_to_list m).

(** The loop over the tensors of shard [si]. *)
Fixpoint index_shard (shards : list Shard) (path : rstr) (si : nat)
    (entries : list (rstr * Entry)) (index : gmap rstr (nat * Entry)) :
    outcome (gmap rstr (nat * Entry)) :=
  match entries with
  | [] => Ok index
  | (name, entry) :: entries =>
      match index !! name with
      | Some (prev, _) =>
          (* within one shard names are distinct, so [prev] is an earlier shard *)
          Err (Duplicate name (default [] (sd_path <$> shards !! prev)) path)
      | None => index_shard shards path si entries (<[name := (si, entry)]> index)
      end
  end.

Fixpoint open_files (files : list File) (m : Model) : outcome Model :=
  match files with
  | [] => Ok m
  | f :: files =>
      shard ← shard_open (f_name f) (f_header_read f);
      idx ← index_shard (shards m) (f_name f) (length (shards m))
              (btree_entries (sd_tensors shard)) (index m);
      if decide (len (f_data_read f) ≠ sd_file_size shard) then Err (FileChanged (f_name f)) else
      open_files files (mkModel (shards m ++ [shard]) idx (bufs m ++ [f_data_read f]))
  end.

Definition model_open (dir : list File) : outcome Model :=
  let paths := filter (λ f, extension (f_name f) = Some (lit "safetensors")) dir in
  let paths := sort_by (λ f g, str_le (f_name f) (f_name g)) paths in
  if decide (paths = []) then Err NoShards else
  open_files paths (mkModel [] ∅ []).

Definition names (m : Model) : list rstr := (btree_entries (index m)).*1.
Definition contains_name (m : Model) (name : rstr) : bool := bool_decide (is_Some (index m !! name)).
Definition entry (m : Model) (name : rstr) : option Entry := snd <$> index m !! name.

Definition tensor (m : Model) (name : rstr) : outcome (list f32) :=
  '(si, e) ← ok_or (NoTensor name) (index m !! name);
  buf ← ok_or SliceOutOfRange (bufs m !! si);
  if decide (e_start e ≤ e_end e ∧ e_end e ≤ len buf) then
    v ← ok_or (DecodeError name) (decode (e_dtype e) (slice buf (e_start e) (e_end e)));
    if decide (len v ≠ numel e) then Err (WrongCount name (len v) (numel e)) else Ok v
  else Err SliceOutOfRange.

Definition count_containing (m : Model) (needle : rstr) : nat :=
  length (filter (λ k, contains needle k = true) (names m)).

Definition tensor_bytes (m : Model) : Z :=
  wrap64 (zsum ((λ s, wrap64 (zsum ((λ e, wsub (e_end e.2) (e_start e.2)) <$> btree_entries (sd_tensors s))))
    <$> shards m)).

(** [idx]: the contents of [model.safetensors.index.json], when present. *)
Definition index_disagreement (m : Model) (idx : option (list Z)) : outcome (list rstr) :=
  match idx with
  | None => Ok []
  | Some raw =>
      doc ← ok_or BadIndex (from_slice raw);
      map ← ok_or NoWeightMap (get doc (lit "weight_map") ≫= as_object);
      Ok (filter (λ name, contains_name m name = false) map.*1)
  end.
End shard.
