(* ===== verification/SafetensorsProps.v ===== *)
(** * What the safetensors reader guarantees

    The widening of a half; the entries of an opened shard; the index of a
    directory of shards; and reading a tensor out of it. *)

From stdpp Require Import gmap.
From S2P Require Import Prelude Float Serde Rstr Utf8 PyJson JsonInstance Header Safetensors.
#[local] Open Scope Z_scope.

(** ** Half precision *)

(** The float [m * 2 ^ e], signed. *)
Definition scaled (s : bool) (m e : Z) : f32 :=
  binary_normalize F32.prec F32.emax (if s then - m else m) e s.

(** The value the bits of an IEEE binary16 stand for: the significand of a
    normal number has its ten bits at the top of the twenty-four. *)
Definition half_value (h : Z) : f32 :=
  let s := Z.testbit h 15 in
  let e := h / 2 ^ 10 mod 2 ^ 5 in
  let m := h mod 2 ^ 10 in
  if e =? 31 then if m =? 0 then S754_infinity s else S754_nan
  else if e =? 0 then scaled s m (-24)
  else S754_finite s (Z.to_pos ((m + 2 ^ 10) * 2 ^ 13)) (e - 25 - 13).

Definition subnormal_half (h : Z) : Prop := h / 2 ^ 10 mod 2 ^ 5 = 0 ∧ h mod 2 ^ 10 ≠ 0.
#[export] Instance subnormal_half_dec h : Decision (subnormal_half h).
Proof. unfold subnormal_half. apply _. Defined.

(** *** Fields of a word *)

Lemma lor_add a b n : 0 ≤ n → 0 ≤ b < 2 ^ n → Z.lor (a * 2 ^ n) b = a * 2 ^ n + b.
Proof.
  intros Hn Hb. assert (Z.land (a * 2 ^ n) b = 0) as Hd.
  { apply Z.bits_inj'. intros i Hi. rewrite Z.land_spec, Z.bits_0.
    destruct (Z.lt_ge_cases i n); [by rewrite Z.mul_pow2_bits_low|].
    pose proof (Z.pow_le_mono_r 2 n i).
    assert (Z.testbit b i = false) as ->; [|by rewrite andb_false_r].
    apply Z.testbit_false; [lia|]. rewrite Z.div_small by lia. done. }
  rewrite (Z.add_nocarry_lxor _ _ Hd). symmetry. by apply Z.lxor_lor.
Qed.

Lemma from_bits_fields s e m : 0 ≤ e < 2 ^ 8 → 0 ≤ m < 2 ^ 23 →
  from_bits (Z.lor (Z.lor (Z.shiftl (Z.b2z s) 31) (Z.shiftl e 23)) m)
  = if e =? 255 then if m =? 0 then S754_infinity s else S754_nan
    else if e =? 0 then match m with Zpos p => S754_finite s p (-149) | _ => S754_zero s end
    else S754_finite s (Z.to_pos (m + 2 ^ 23)) (e - 150).
Proof.
  intros He Hm. rewrite !Z.shiftl_mul_pow2 by lia.
  rewrite (lor_add (Z.b2z s)) by lia.
  replace (Z.b2z s * 2 ^ 31 + e * 2 ^ 23) with ((Z.b2z s * 2 ^ 8 + e) * 2 ^ 23) by lia.
  rewrite lor_add by lia. set (w := (Z.b2z s * 2 ^ 8 + e) * 2 ^ 23 + m).
  assert (w / 2 ^ 23 = Z.b2z s * 2 ^ 8 + e) as Hw.
  { unfold w. rewrite Z.div_add_l, Z.div_small by lia. lia. }
  assert (Z.testbit w 31 = s) as Hs.
  { rewrite Z.testbit_eqb by lia. change (2 ^ 31) with (2 ^ 23 * 2 ^ 8).
    rewrite <- Z.div_div, Hw, Z.div_add_l, (Z.div_small e) by lia. by destruct s. }
  assert (Z.land (Z.shiftr w 23) 0xff = e) as Hwe.
  { rewrite Z.shiftr_div_pow2, Hw by lia. change 0xff with (Z.ones 8).
    rewrite Z.land_ones, Z.add_comm, Z.mod_add, Z.mod_small by lia. done. }
  assert (Z.land w 0x7fffff = m) as Hwm.
  { change 0x7fffff with (Z.ones 23). unfold w.
    rewrite Z.land_ones, Z.add_comm, Z.mod_add, Z.mod_small by lia. done. }
  unfold from_bits. rewrite Hs, Hwe, Hwm.
  repeat case_match; try done; lia.
Qed.

(** ** The subnormals *)

(** Every significand of a subnormal, from [m] on. *)
Fixpoint check_subnormals (n : nat) (m : Z) : bool :=
  match n with
  | O => true
  | S n => bool_decide (f16_to_f32 m = scaled false m (-34))
           && bool_decide (f16_to_f32 (2 ^ 15 + m) = scaled true m (-34))
           && check_subnormals n (m + 1)
  end.

Lemma check_subnormals_spec n m : check_subnormals n m = true → ∀ i, m ≤ i < m + Z.of_nat n →
  f16_to_f32 i = scaled false i (-34) ∧ f16_to_f32 (2 ^ 15 + i) = scaled true i (-34).
Proof.
  revert m. induction n as [|n IH]; intros m; [lia|]. cbn [check_subnormals].
  rewrite !andb_true_iff, !bool_decide_eq_true. intros [[H1 H2] H3] i Hi.
  destruct (decide (i = m)) as [->|]; [done|]. apply (IH (m + 1)); [done|lia].
Qed.

Lemma subnormals_checked : check_subnormals 1023 1 = true.
Proof. by vm_compute. Qed.

Lemma half_fields h : 0 ≤ h < 2 ^ 16 →
  Z.shiftr h 15 = Z.b2z (Z.testbit h 15) ∧ Z.land (Z.shiftr h 10) 0x1f = h / 2 ^ 10 mod 2 ^ 5 ∧
  Z.land h 0x3ff = h mod 2 ^ 10.
Proof.
  intros Hh. rewrite Z.testbit_eqb, !Z.shiftr_div_pow2 by lia.
  change 0x1f with (Z.ones 5). change 0x3ff with (Z.ones 10). rewrite !Z.land_ones by lia.
  split; [|done]. assert (h / 2 ^ 15 = 0 ∨ h / 2 ^ 15 = 1) as [-> | ->]; [|done..].
  assert (0 ≤ h / 2 ^ 15 < 2); [|lia].
  split; [apply Z.div_pos; lia|apply Z.div_lt_upper_bound; lia].
Qed.

Lemma eqb_scale m k : 0 < k → (m * k =? 0) = (m =? 0).
Proof. intros. destruct (Z.eqb_spec m 0); lia. Qed.

(** C30. Widening a half gives the [f32] of the same value, zeros, infinities and
    NaN included, for every bit pattern that is not a subnormal; a subnormal
    half [m * 2^-24] comes out as [m * 2^-34], 1024 times too small. *)
Theorem f16_to_f32_spec h : 0 ≤ h < 2 ^ 16 →
  f16_to_f32 h = if decide (subnormal_half h) then scaled (Z.testbit h 15) (h mod 2 ^ 10) (-34)
                 else half_value h.
Proof.
  intros Hh. destruct (half_fields h Hh) as (Hs & He & Hm).
  pose proof (Z.mod_pos_bound h (2 ^ 10) ltac:(lia)) as Hmb.
  pose proof (Z.mod_pos_bound (h / 2 ^ 10) (2 ^ 5) ltac:(lia)) as Heb.
  case_decide as Hsub.
  - destruct Hsub as [Hz Hnz]. destruct (check_subnormals_spec _ _ subnormals_checked (h mod 2 ^ 10))
      as [Hp Hn]; [lia|]. rewrite Z.testbit_eqb by lia.
    assert (h = h / 2 ^ 15 * 2 ^ 15 + h mod 2 ^ 10) as Hsplit.
    { pose proof (Z.div_mod h (2 ^ 10) ltac:(lia)) as D1.
      pose proof (Z.div_mod (h / 2 ^ 10) (2 ^ 5) ltac:(lia)) as D2.
      rewrite (Z.div_div h) in D2 by lia. change (2 ^ 10 * 2 ^ 5) with (2 ^ 15) in D2. lia. }
    assert (0 ≤ h / 2 ^ 15 < 2) as Hb.
    { split; [apply Z.div_pos; lia|apply Z.div_lt_upper_bound; lia]. }
    assert (h / 2 ^ 15 = 0 ∨ h / 2 ^ 15 = 1) as [E|E] by lia; rewrite E in Hsplit |- *; cbn [Z.modulo].
    + by rewrite Hsplit at 1.
    + by rewrite Hsplit at 1.
  - unfold f16_to_f32. rewrite Hs, He, Hm. unfold half_value.
    set (m := h mod 2 ^ 10) in *. set (e := h / 2 ^ 10 mod 2 ^ 5) in *.
    destruct (e =? 0) eqn:E0.
    + assert (m = 0) as ->. { apply Z.eqb_eq in E0. unfold subnormal_half in Hsub. fold e m in Hsub. lia. }
      apply Z.eqb_eq in E0 as ->. by destruct (Z.testbit h 15).
    + destruct (e =? 31) eqn:E1.
      * rewrite (Z.shiftl_mul_pow2 m), from_bits_fields by lia. cbn [Z.eqb Pos.eqb].
        rewrite (eqb_scale m) by lia. by destruct (m =? 0).
      * rewrite (Z.shiftl_mul_pow2 m), from_bits_fields by lia.
        rewrite (proj2 (Z.eqb_neq (e + 127 - 15) 255)), (proj2 (Z.eqb_neq (e + 127 - 15) 0)) by lia.
        f_equal; [f_equal; lia|lia].
Qed.

(** ** Decoding *)

Lemma size_pos d : 0 < StDtype.size d.
Proof. by destruct d. Qed.

(** A whole number of elements decodes, to that many values. *)
Lemma decode_length d bs n : len bs = n * StDtype.size d →
  ∃ v, decode d bs = Some v ∧ len v = n.
Proof.
  intros Hl. pose proof (size_pos d) as Hp. pose proof (len_nonneg bs) as H0. unfold decode.
  rewrite Hl, Z.mod_mul, Z.div_mul by lia. rewrite decide_False by tauto.
  eexists. split; [done|]. unfold len. rewrite length_fmap, length_seq. nia.
Qed.

(** ** Shards *)

(** An entry's range lies in the file's data and holds its elements, as the
    code counts them. *)
Record wf_entry (data_start file_size : Z) (e : Entry) : Prop := {
  we_start : data_start ≤ e_start e;
  we_order : e_start e ≤ e_end e;
  we_end : e_end e ≤ file_size;
  we_span : e_end e - e_start e = numel e * StDtype.size (e_dtype e);
  we_shape : Forall (λ d, 0 ≤ d < u64_max) (e_shape e);
}.

Record wf_shard (sd : Shard) : Prop := {
  ws_start : 8 ≤ sd_data_start sd ≤ sd_file_size sd;
  ws_tensors : map_Forall (λ _, wf_entry (sd_data_start sd) (sd_file_size sd)) (sd_tensors sd);
}.

Section shard.
Context `{SerdeJsonLaws J}.

Lemma open_entry_wf data_start file_size name (v : J) e :
  0 ≤ data_start → u64 file_size → open_entry data_start file_size name v = Ok e →
  wf_entry data_start file_size e.
Proof.
  unfold open_entry, u64. intros Hds Hfs Hr. inv_ok.
  match goal with Hr : match ?l with _ => _ end = Ok _ |- _ =>
    destruct l as [|o0 [|o1 [|]]]; try done end.
  inv_ok.
  repeat match goal with
  | Hc : as_u64 _ = Some _ |- _ => apply as_u64_range in Hc
  | Hc : checked_mul _ _ = Some _ |- _ => apply checked_mul_Some in Hc as [-> ?]
  | Hc : checked_add _ _ = Some _ |- _ => apply checked_add_Some in Hc as [-> ?]
  | Hc : ¬ (_ ≠ _) |- _ => apply dec_stable in Hc
  end.
  unfold u64 in *.
  match goal with Hc : wsub _ _ = _ |- _ => rewrite wsub_small in Hc by (unfold u64; lia) end.
  split; cbn [e_start e_end e_shape e_dtype]; unfold numel; cbn [e_shape]; try lia.
  apply Forall_forall. intros d Hin.
  match goal with Hc : usize_max ∉ _ |- _ => assert (d ≠ usize_max) by (by intros ->) end.
  apply list_elem_of_fmap in Hin as (x & -> & _). destruct (as_u64 x) eqn:E; [|done].
  apply as_u64_range in E. cbn in *. unfold usize_max, u64, u64_max in *. lia.
Qed.

Lemma open_entries_wf data_start file_size (obj : list (rstr * J)) tensors tensors' :
  0 ≤ data_start → u64 file_size → open_entries data_start file_size obj tensors = Ok tensors' →
  map_Forall (λ _, wf_entry data_start file_size) tensors →
  map_Forall (λ _, wf_entry data_start file_size) tensors'.
Proof.
  intros Hds Hfs. revert tensors. induction obj as [|[name v] obj IH]; intros tensors Hr Hw;
    cbn [open_entries] in Hr; [by inv_ok|].
  case_decide; [by eapply IH|]. inv_ok. eapply IH; [done|].
  apply map_Forall_insert_2; [|done]. by eapply open_entry_wf.
Qed.

Lemma shard_open_wf path file sd : bytes file → u64 (len file) → shard_open path file = Ok sd →
  wf_shard sd ∧ sd_file_size sd = len file ∧ sd_path sd = path.
Proof.
  intros Hb Hl Hr. unfold shard_open in Hr.
  pose proof (from_le_bytes_bound (slice file 0 8) ltac:(by apply bytes_slice)) as Hhl.
  inv_ok.
  match goal with Hc : checked_add _ _ = Some _ |- _ =>
    apply checked_add_Some in Hc as [-> _] end.
  split; [|done]. split; cbn; [lia|]. eapply open_entries_wf; [..|apply map_Forall_empty]; [|done..].
  lia.
Qed.

(** ** Directories *)

Lemma elem_of_btree_entries {A} (m : gmap rstr A) k v : (k, v) ∈ btree_entries m ↔ m !! k = Some v.
Proof. unfold btree_entries. rewrite sort_by_Permutation. apply elem_of_map_to_list. Qed.

Lemma index_shard_spec shds path si entries idx idx' :
  index_shard shds path si entries idx = Ok idx' →
  ∀ name p, idx' !! name = Some p ↔
    idx !! name = Some p ∨ ∃ e, (name, e) ∈ entries ∧ p = (si, e).
Proof.
  revert idx. induction entries as [|[k e0] entries IH]; intros idx Hr name p; cbn in Hr.
  { inv_ok. set_solver. }
  destruct (idx !! k) as [[? ?]|] eqn:Hk; [done|]. rewrite (IH _ Hr).
  setoid_rewrite elem_of_cons. destruct (decide (name = k)) as [->|Hne].
  - rewrite lookup_insert_eq, Hk. split.
    + intros [[= <-]|(e & ? & ->)]; right; eauto.
    + intros [|(e & [[= ->]|?] & ->)]; [done|by left|right; eauto].
  - rewrite lookup_insert_ne by done. split; [naive_solver|].
    intros [|(e & [[= -> ->]|?] & ->)]; [by left|done|right; eauto].
Qed.

(** The files' contents are bytes, and their sizes are [u64]s. *)
Definition wf_file (f : File) : Prop := bytes (f_header_read f) ∧ u64 (len (f_header_read f)).

Definition wf_buffer (sd : Shard) (buf : list Z) : Prop := wf_shard sd ∧ len buf = sd_file_size sd.

(** Every shard has its buffer, and the index is the union of the shards. *)
Record wf_model (m : Model) : Prop := {
  wm_bufs : Forall2 wf_buffer (shards m) (bufs m);
  wm_index : ∀ name si e, index m !! name = Some (si, e) ↔
    ∃ sd, shards m !! si = Some sd ∧ sd_tensors sd !! name = Some e;
}.

Lemma open_files_wf (files : list File) m m' : Forall wf_file files → wf_model m →
  open_files files m = Ok m' → wf_model m'.
Proof.
  intros Hf. revert m. induction Hf as [|f files [Hb Hl] _ IH]; intros m Hm Hr; cbn in Hr;
    [by inv_ok|].
  inv_ok. apply dec_stable in Hd.
  match goal with Hs : shard_open _ _ = Ok _ |- _ =>
    apply shard_open_wf in Hs as (Hs & _ & _); [|done..] end.
  apply (IH _) in Hr; [done|]. destruct Hm as [Hbufs Hidx]. split; cbn [shards bufs index].
  - apply Forall2_app; [done|]. constructor; [|constructor]. done.
  - intros name si e.
    match goal with Hi : index_shard _ _ _ _ _ = Ok _ |- _ =>
      rewrite (index_shard_spec _ _ _ _ _ _ Hi) end.
    rewrite Hidx. setoid_rewrite elem_of_btree_entries. split.
    + intros [(sd & Hsd & He)|(e' & He & [= -> ->])].
      * exists sd. split; [by apply lookup_app_l_Some|done].
      * exists a. split; [|done]. by rewrite lookup_app_r, Nat.sub_diag.
    + intros (sd & Hsd & He). apply lookup_app_Some in Hsd as [Hsd|[Hge Hsd]]; [left; eauto|].
      apply list_lookup_singleton_Some in Hsd as [Hz <-]. right. exists e. split; [done|].
      f_equal. lia.
Qed.

Lemma model_open_wf (dir : list File) m : Forall wf_file dir → model_open dir = Ok m → wf_model m.
Proof.
  intros Hd Hr. unfold model_open in Hr. case_decide; [done|].
  eapply open_files_wf; [| |exact Hr].
  - rewrite sort_by_Permutation, Forall_forall in *. intros f [_ Hf]%list_elem_of_filter. by apply Hd.
  - split; cbn; [constructor|]. intros name si e. rewrite lookup_empty.
    split; [done|]. by intros (? & ? & _).
Qed.

(** In an opened directory every indexed tensor reads: the range is inside
    the file, it decodes, and the number of values is the shape's.  Any other
    name is an error, and nothing else is. *)
Theorem model_open_tensor (dir : list File) m : Forall wf_file dir → model_open dir = Ok m →
  ∀ name, match index m !! name with
          | None => tensor m name = Err (NoTensor name)
          | Some (si, e) => ∃ buf v, bufs m !! si = Some buf ∧ e_end e ≤ len buf ∧
              decode (e_dtype e) (slice buf (e_start e) (e_end e)) = Some v ∧
              len v = numel e ∧ tensor m name = Ok v
          end.
Proof.
  intros Hd Hr name. destruct (model_open_wf dir m Hd Hr) as [Hbufs Hidx].
  unfold tensor. destruct (index m !! name) as [[si e]|] eqn:E; [|done].
  apply Hidx in E as (sd & Hsd & He).
  destruct (Forall2_lookup_l _ _ _ _ _ Hbufs Hsd) as (buf & Hbuf & [Hst Hte] & Hlen).
  destruct (Hte name e He) as [W1 W2 W3 W4 _].
  destruct (decode_length (e_dtype e) (slice buf (e_start e) (e_end e)) (numel e)) as (v & Hv & Hn).
  { rewrite len_slice by lia. done. }
  exists buf, v. do 4 (split; [done || lia|]). cbn [ok_or mbind result_bind].
  rewrite Hbuf. cbn [ok_or mbind result_bind]. rewrite decide_True by lia.
  rewrite Hv. cbn [ok_or mbind result_bind]. by rewrite decide_False by (intros Hc; by apply Hc).
Qed.

(** The index of an opened directory is the union of its shards, each name
    in the one shard that declares it: a name two shards declare is refused. *)
Theorem model_open_index (dir : list File) m : Forall wf_file dir → model_open dir = Ok m →
  (∀ name si e, index m !! name = Some (si, e) ↔
     ∃ sd, shards m !! si = Some sd ∧ sd_tensors sd !! name = Some e) ∧
  (∀ si sj sd sd' name, shards m !! si = Some sd → shards m !! sj = Some sd' →
     is_Some (sd_tensors sd !! name) → is_Some (sd_tensors sd' !! name) → si = sj).
Proof.
  intros Hd Hr. destruct (model_open_wf dir m Hd Hr) as [_ Hidx]. split; [done|].
  intros si sj sd sd' name Hs Hs' [e He] [e' He'].
  assert (index m !! name = Some (si, e)) as H1 by (apply Hidx; eauto).
  assert (index m !! name = Some (sj, e')) as H2 by (apply Hidx; eauto). congruence.
Qed.
End shard.

(** ** A concrete directory *)

Definition st_entry (dt : string) (shape : list Z) (a b : Z) : Value :=
  Object [(lit "dtype", Str (lit dt)); (lit "shape", Array (Int <$> shape));
          (lit "data_offsets", Array [Int a; Int b])].
(** A shard from its header and data. *)
Definition st_bytes (obj : list (rstr * Value)) (data : list Z) : list Z :=
  let hdr := utf8 (dumps (Object obj)) in to_le_bytes 8 (len hdr) ++ hdr ++ data.
Definition st_file (name : string) (obj : list (rstr * Value)) (data : list Z) : File :=
  let f := st_bytes obj data in mkFile (lit name) f f.

(** Two shards, listed out of order, and a file that is not one. *)
Definition st_dir : list File :=
  [st_file "b.safetensors" [(lit "h", st_entry "F16" [1; 2] 2 6)] [9; 9; 0; 60; 1; 0];
   mkFile (lit "config.json") [] [];
   st_file "a.safetensors" [(lit "w", st_entry "BF16" [2] 0 4); (lit "s", st_entry "F32" [] 4 8)]
     [128; 63; 0; 192; 0; 0; 0; 63]].

Definition st_model : Model :=
  match model_open (J:=Value) st_dir with Ok m => m | Err _ => mkModel [] ∅ [] end.

(** 1.0 and -2.0; 0.5; 1.0 and the smallest subnormal half, read 1024 times
    too small. *)
Example st_values :
  (λ n, match tensor st_model (lit n) with Ok v => v | Err _ => [] end) <$> ["w"; "s"; "h"]%string
  = [[S754_finite false 8388608 (-23); S754_finite true 8388608 (-22)];
     [S754_finite false 8388608 (-24)];
     [S754_finite false 8388608 (-23); S754_finite false 8388608 (-57)]].
Proof. by vm_compute. Qed.

(** The element count of a shape wraps: 2^64 elements in no bytes at all. *)
Example numel_wraps :
  match shard_open (J:=Value) (lit "x") (st_bytes [(lit "t", st_entry "F32" [2^32; 2^32] 0 0)] []) with
  | Ok sd => numel <$> sd_tensors sd !! lit "t"
  | Err _ => None
  end = Some 0.
Proof. by vm_compute. Qed.

(** The same name in both shards. *)
Example duplicate_refused :
  model_open (J:=Value)
    [st_file "b.safetensors" [(lit "t", st_entry "F16" [] 0 2)] [0; 0];
     st_file "a.safetensors" [(lit "t", st_entry "F16" [] 0 2)] [0; 0]]
  = Err (Duplicate (lit "t") (lit "a.safetensors") (lit "b.safetensors")).
Proof. by vm_compute. Qed.

Lemma st_dir_wf : Forall wf_file st_dir.
Proof. repeat constructor; apply (bool_decide_unpack _); by vm_compute. Qed.

Lemma st_open : model_open (J:=Value) st_dir = Ok st_model.
Proof. by vm_compute. Qed.

Lemma f16_to_f32_spec_witness : f16_to_f32 1 = scaled false 1 (-34).
Proof. rewrite (f16_to_f32_spec 1 ltac:(lia)). by vm_compute. Defined.

Lemma model_open_tensor_witness :
  index st_model !! lit "h" = Some (1%nat, mkEntry F16 [1; 2] 74 78) ∧
  ∃ buf v, bufs st_model !! 1%nat = Some buf ∧ 78 ≤ len buf ∧
    decode F16 (slice buf 74 78) = Some v ∧ len v = 2 ∧ tensor st_model (lit "h") = Ok v.
Proof.
  split; [by vm_compute|].
  pose proof (model_open_tensor (J:=Value) st_dir st_model st_dir_wf st_open (lit "h")) as Hm.
  replace (index st_model !! lit "h") with (Some (1%nat, mkEntry F16 [1; 2] 74 78)) in Hm
    by (by vm_compute).
  exact Hm.
Defined.

Lemma model_open_index_witness :
  (∀ si sj sd sd' name, shards st_model !! si = Some sd → shards st_model !! sj = Some sd' →
     is_Some (sd_tensors sd !! name) → is_Some (sd_tensors sd' !! name) → si = sj).
Proof. apply (model_open_index (J:=Value) st_dir st_model st_dir_wf st_open). Defined.
