(* ===== verification/Plan.v ===== *)
(** * stloader: read planning

    Models rust-qwen-engine/crates/stloader/src/plan.rs and the summary of
    lib.rs: tensor byte ranges become block-aligned, merged read requests. *)

From S2P Require Import Prelude Serde Rstr Header.

(** ** Ranges *)

Record Range := mkRange { offset : Z; rlen : Z }.
#[export] Instance Range_eq_dec : EqDecision Range.
Proof. solve_decision. Defined.

Module Range.
(** [Range::end] *)
Definition fin (r : Range) : Z := saturating_add (offset r) (rlen r).
End Range.

Definition floor_to (x b : Z) : Z := let b := b `max` 1 in x / b * b.
Definition ceil_to (x b : Z) : Z :=
  let b := b `max` 1 in saturating_mul (div_ceil x b) b.

(** ** Planning one shard *)

Section plan.
Context {J : Type}.

(** The rounded range of one tensor, or [None] where the loop [continue]s. *)
Definition candidate (h : ShardHeader J) (block : Z) (t : TensorInfo) : option (Z * Z) :=
  let file_ceil := ceil_to (sh_file_size h) block in
  if decide (TensorInfo.nbytes t = 0) then None else
  let '(abs_s, abs_e) := TensorInfo.abs_range t (sh_data_start h) in
  let a0 := floor_to abs_s block `min` file_ceil in
  let a1 := ceil_to abs_e block `min` file_ceil in
  if decide (a1 ≤ a0) then None else Some (a0, a1).

(** One round of [plan_shard]'s loop.  [out] is kept in reverse, so that
    [out.last_mut()] is its head. *)
Definition merge (max_gap : Z) (out : list Range) (c : Z * Z) : list Range :=
  let '(a0, a1) := c in
  match out with
  | last :: out' =>
      if decide (a0 ≤ saturating_add (Range.fin last) max_gap) then
        let new_end := Range.fin last `max` a1 in
        mkRange (offset last) (new_end - offset last) :: out'
      else mkRange a0 (a1 - a0) :: out
  | [] => [mkRange a0 (a1 - a0)]
  end.

Definition plan_shard (h : ShardHeader J) (block max_gap : Z) : list Range :=
  let block := block `max` 1 in
  reverse (foldl (merge max_gap) [] (omap (candidate h block) (sh_tensors h))).

Definition plan_shard_unmerged (h : ShardHeader J) (block : Z) : list Range :=
  let block := block `max` 1 in
  (λ c, mkRange c.1 (c.2 - c.1)) <$> omap (candidate h block) (sh_tensors h).

Definition plan_model (headers : list (ShardHeader J)) (block max_gap : Z) :
    list (nat * Range) :=
  concat (imap (λ i h, pair i <$> plan_shard h block max_gap) headers).

Definition plan_model_unmerged (headers : list (ShardHeader J)) (block : Z) :
    list (nat * Range) :=
  concat (imap (λ i h, pair i <$> plan_shard_unmerged h block) headers).
End plan.

(** ** Specification *)

(** The rounding of a well-formed file never saturates. *)
Definition roundable {J} (h : ShardHeader J) (block : Z) : Prop :=
  1 ≤ block ∧ sh_file_size h + block ≤ u64_max.

Definition aligned (block x : Z) : Prop := x mod block = 0.

Definition abs_start {J} (h : ShardHeader J) (t : TensorInfo) : Z := sh_data_start h + ti_start t.
Definition abs_end {J} (h : ShardHeader J) (t : TensorInfo) : Z := sh_data_start h + ti_end t.

(** Request [r] reads the bytes [a, b). *)
Definition covers (r : Range) (a b : Z) : Prop := offset r ≤ a ∧ b ≤ offset r + rlen r.

(** Requests in file order, more than [gap] bytes apart. *)
Definition separated (gap : Z) (r1 r2 : Range) : Prop := offset r1 + rlen r1 + gap < offset r2.

(** A request the engine may issue: aligned at both ends, non-empty, inside
    the rounded-up file. *)
Record wf_range (block limit : Z) (r : Range) : Prop := {
  wr_offset : 0 ≤ offset r ∧ aligned block (offset r);
  wr_len : 0 < rlen r ∧ aligned block (rlen r);
  wr_end : offset r + rlen r ≤ limit;
}.

(** ** Lemmas *)

Lemma floor_to_spec x b : 0 ≤ x → 1 ≤ b →
  0 ≤ floor_to x b ≤ x ∧ aligned b (floor_to x b) ∧ x - b < floor_to x b.
Proof.
  intros Hx Hb. unfold floor_to, aligned. rewrite Z.max_l by lia.
  pose proof (Z.div_mod x b ltac:(lia)). pose proof (Z.mod_pos_bound x b ltac:(lia)).
  pose proof (Z.div_pos x b Hx ltac:(lia)). rewrite Z.mod_mul by lia. nia.
Qed.

Lemma ceil_to_spec x b : 0 ≤ x → 1 ≤ b → x + b ≤ u64_max →
  x ≤ ceil_to x b < x + b ∧ aligned b (ceil_to x b).
Proof.
  intros Hx Hb Hm. unfold ceil_to, aligned, saturating_mul. rewrite Z.max_l by lia.
  pose proof (div_ceil_spec x b ltac:(lia)).
  rewrite Z.min_l by lia. by rewrite Z.mod_mul by lia.
Qed.

Lemma aligned_sub b x y : aligned b x → aligned b y → aligned b (x - y).
Proof. unfold aligned. intros. rewrite Zminus_mod, H, H0. done. Qed.

Lemma floor_to_mono x y b : 1 ≤ b → x ≤ y → floor_to x b ≤ floor_to y b.
Proof.
  intros. unfold floor_to. rewrite Z.max_l by lia.
  pose proof (Z.div_le_mono x y b ltac:(lia) ltac:(lia)). nia.
Qed.

(** Rounding up to multiples of [b] is the least multiple above. *)
Lemma aligned_le_ceil b x y : 1 ≤ b → aligned b y → x ≤ y → 0 ≤ x → x + b ≤ u64_max →
  ceil_to x b ≤ y.
Proof.
  unfold aligned. intros Hb Hy Hx H0 Hm. destruct (ceil_to_spec x b) as [Hc Hal]; [done..|].
  apply Z.mod_divide in Hy as [q ->]; [|lia]. apply Z.mod_divide in Hal as [p Hp]; [|lia].
  rewrite Hp in *. assert (p < q + 1) by (apply (Z.mul_lt_mono_pos_r b); lia). nia.
Qed.

Section plan_lemmas.
Context {J : Type} (h : ShardHeader J) (block : Z).
Hypotheses (Hwf : wf_header h) (Hround : roundable h block).

Definition limit : Z := ceil_to (sh_file_size h) block.

(** On a well-formed header nothing wraps, saturates or is clamped. *)
Lemma candidate_spec t : t ∈ sh_tensors h →
  match candidate h block t with
  | None => ti_start t = ti_end t
  | Some (a0, a1) =>
      a0 = floor_to (abs_start h t) block ∧ a1 = ceil_to (abs_end h t) block
      ∧ ti_start t < ti_end t
      ∧ 0 ≤ a0 ≤ abs_start h t ∧ abs_end h t ≤ a1 ≤ limit ∧ a0 < a1
      ∧ aligned block a0 ∧ aligned block a1
  end.
Proof.
  intros Ht. destruct Hround as [Hb Hm]. destruct Hwf as [Hfs Hhl Hds Hif Hts _].
  eapply Forall_forall in Ht; [|exact Hts]. destruct Ht as [H0 Ho Hbd _ _].
  unfold u64, u64_max in *. unfold candidate, TensorInfo.nbytes, TensorInfo.abs_range.
  rewrite wsub_small by (unfold u64, u64_max; lia).
  case_decide; [lia|]. rewrite !wadd_small by (unfold u64, u64_max; lia).
  fold (abs_start h t). fold (abs_end h t). fold limit.
  assert (0 ≤ abs_start h t ∧ abs_start h t < abs_end h t ∧ abs_end h t ≤ sh_file_size h) as (?&?&?)
    by (unfold abs_start, abs_end; lia).
  destruct (floor_to_spec (abs_start h t) block) as (?&?&?); [done..|].
  destruct (ceil_to_spec (abs_end h t) block) as (?&?); [unfold u64_max; lia..|].
  destruct (ceil_to_spec (sh_file_size h) block) as (?&?); [unfold u64_max; lia..|].
  assert (ceil_to (abs_end h t) block ≤ limit).
  { apply aligned_le_ceil; unfold limit; try done; unfold u64_max; lia. }
  rewrite !Z.min_l by (unfold limit in *; lia). rewrite decide_False by lia.
  repeat split; try done; lia.
Qed.

(** The candidates, in loop order. *)
Definition candidates : list (Z * Z) := omap (candidate h block) (sh_tensors h).

Lemma candidates_elem a0 a1 : (a0, a1) ∈ candidates →
  ∃ t, t ∈ sh_tensors h ∧ candidate h block t = Some (a0, a1).
Proof. unfold candidates. rewrite list_elem_of_omap. naive_solver. Qed.

Lemma candidates_sorted : StronglySorted (λ c1 c2, c1.1 ≤ c2.1) candidates.
Proof.
  pose proof (wf_sorted _ Hwf) as Hs. pose proof candidate_spec as Hc.
  unfold candidates. induction Hs as [|t ts Hts IH Ht]; [constructor|].
  cbn [omap list_omap]. specialize (IH ltac:(intros; apply Hc; by right)).
  destruct (candidate h block t) as [[a0 a1]|] eqn:E; [|done].
  constructor; [done|]. apply Forall_forall. intros [b0 b1] Hin.
  apply list_elem_of_omap in Hin as (t' & Ht' & E').
  pose proof (Hc t ltac:(by left)) as S1. rewrite E in S1.
  pose proof (Hc t' ltac:(by right)) as S2. rewrite E' in S2. cbn.
  destruct S1 as (-> & _), S2 as (-> & _). apply floor_to_mono; [apply Hround|].
  eapply Forall_forall in Ht; [|exact Ht']. unfold key_le in Ht. unfold abs_start. lia.
Qed.

Lemma candidates_ok : Forall (λ c, 0 ≤ c.1 < c.2 ∧ c.2 ≤ limit ∧ aligned block c.1 ∧ aligned block c.2)
  candidates.
Proof.
  apply Forall_forall. intros [a0 a1] (t & Ht & E)%candidates_elem.
  pose proof (candidate_spec t Ht) as S. rewrite E in S. cbn. naive_solver lia.
Qed.

Lemma limit_max : limit ≤ u64_max.
Proof. unfold limit, ceil_to, saturating_mul. lia. Qed.

Lemma fin_wf r : wf_range block limit r → Range.fin r = offset r + rlen r.
Proof.
  intros [_ _ He]. pose proof limit_max. unfold Range.fin, saturating_add. lia.
Qed.

(** What the loop maintains; [out] is in reverse order. *)
Definition plan_inv (gap : Z) (out : list Range) : Prop :=
  Forall (wf_range block limit) out ∧ StronglySorted (λ r2 r1, separated gap r1 r2) out.

Definition candidate_ok (c : Z * Z) : Prop :=
  0 ≤ c.1 < c.2 ∧ c.2 ≤ limit ∧ aligned block c.1 ∧ aligned block c.2.

Lemma merge_inv gap out c : 0 ≤ gap → plan_inv gap out → candidate_ok c →
  (∀ r, head out = Some r → offset r ≤ c.1) →
  plan_inv gap (merge gap out c)
  ∧ (∃ r, head (merge gap out c) = Some r ∧ offset r ≤ c.1 ∧ covers r c.1 c.2)
  ∧ (∀ r, r ∈ out → ∃ r', r' ∈ merge gap out c ∧ covers r' (offset r) (offset r + rlen r)).
Proof.
  intros Hg [Hw Hs] (Hc & Hl & Ha0 & Ha1) Hh. destruct c as [a0 a1]. cbn in *.
  assert (wf_range block limit (mkRange a0 (a1 - a0))) as Hnew.
  { split; cbn; [split; [lia|done]|split; [lia|by apply aligned_sub]|lia]. }
  destruct out as [|l out]; cbn.
  { split; [split; constructor; (done || constructor)|]. split; [|set_solver].
    eexists. split; [done|]. unfold covers. cbn. lia. }
  apply Forall_cons in Hw as [Hl1 Hw]. apply StronglySorted_inv in Hs as [Hs Hf].
  specialize (Hh l eq_refl). pose proof (fin_wf l Hl1) as Hfin.
  pose proof limit_max. destruct Hl1 as [[Ho1 Ho2] [Hn1 Hn2] Hend].
  case_decide as Hd.
  - split; [split|split].
    + constructor; [|done]. split; cbn; [done| |lia]. split; [lia|].
      apply aligned_sub; [|done]. rewrite Hfin. destruct (Z.max_spec (offset l + rlen l) a1) as [[_ ->]|[_ ->]]; [done|].
      unfold aligned in *. rewrite Z.add_mod, Ho2, Hn2; [done|]. destruct Hround. lia.
    + constructor; [done|]. eapply Forall_impl; [done|]. by unfold separated.
    + eexists. split; [done|]. unfold covers. cbn. lia.
    + intros r [->|Hr]%elem_of_cons.
      * eexists. split; [by left|]. unfold covers. cbn. lia.
      * exists r. split; [by right|]. unfold covers. lia.
  - assert (separated gap l (mkRange a0 (a1 - a0))) as Hsep.
    { unfold separated. cbn. rewrite Hfin in Hd. unfold saturating_add in Hd.
      assert (a0 ≤ u64_max) by lia. lia. }
    split; [split|split].
    + constructor; [done|]. constructor; [done|done].
    + constructor; [by constructor|]. constructor; [done|].
      eapply Forall_impl; [done|]. intros r Hr. unfold separated in *. cbn in *. lia.
    + eexists. split; [done|]. unfold covers. cbn. lia.
    + intros r Hr. exists r. split; [by right|]. unfold covers. lia.
Qed.

Lemma merge_all gap cs : ∀ out, 0 ≤ gap → plan_inv gap out →
  Forall candidate_ok cs → StronglySorted (λ c1 c2, c1.1 ≤ c2.1) cs →
  (∀ r c, head out = Some r → c ∈ cs → offset r ≤ c.1) →
  let res := foldl (merge gap) out cs in
  plan_inv gap res
  ∧ (∀ r, r ∈ out → ∃ r', r' ∈ res ∧ covers r' (offset r) (offset r + rlen r))
  ∧ (∀ c, c ∈ cs → ∃ r, r ∈ res ∧ covers r c.1 c.2).
Proof.
  induction cs as [|c cs IH]; intros out Hg Hi Hok Hs Hh; cbn.
  - split; [done|]. split; [|set_solver]. intros r Hr. exists r. unfold covers. split; [done|lia].
  - apply Forall_cons in Hok as [Hc Hok]. apply StronglySorted_inv in Hs as [Hs Hf].
    destruct (merge_inv gap out c) as (Hi' & (r & Hr & Hr1 & Hr2) & Hkeep);
      [done..|intros; eapply Hh; [done|by left]|].
    destruct (IH (merge gap out c)) as (Hres & Hold & Hnew); [done..| |].
    { intros r' c' Hr' Hc'. rewrite Hr in Hr'. injection Hr' as <-.
      eapply Forall_forall in Hf; [|done]. cbn in Hf. lia. }
    assert (∀ r1 r2 a b, covers r1 a b → covers r2 (offset r1) (offset r1 + rlen r1) → covers r2 a b)
      as Htrans by (unfold covers; intros; lia).
    split; [done|]. split.
    + intros q Hq. destruct (Hkeep q Hq) as (q1 & Hq1 & Hc1).
      destruct (Hold q1 Hq1) as (q2 & Hq2 & Hc2). exists q2. split; [done|]. by eapply Htrans.
    + intros c' [->|Hc']%elem_of_cons; [|by apply Hnew].
      destruct (Hold r) as (q & Hq & Hcq).
      { destruct (merge gap out c); [done|]. injection Hr as ->. by left. }
      exists q. split; [done|]. by eapply Htrans.
Qed.

Lemma plan_shard_inv gap : 0 ≤ gap →
  plan_inv gap (reverse (plan_shard h block gap))
  ∧ ∀ t, t ∈ sh_tensors h → ti_start t < ti_end t →
      ∃ r, r ∈ plan_shard h block gap ∧ covers r (abs_start h t) (abs_end h t).
Proof.
  intros Hg. unfold plan_shard. cbn zeta. rewrite reverse_involutive.
  destruct Hround as [Hb _]. rewrite Z.max_l by lia. fold candidates.
  destruct (merge_all gap candidates []) as (Hi & _ & Hc).
  - done.
  - split; constructor.
  - apply candidates_ok.
  - apply candidates_sorted.
  - done.
  - split; [done|]. intros t Ht Hne. pose proof (candidate_spec t Ht) as S.
    destruct (candidate h block t) as [[a0 a1]|] eqn:E; [|lia].
    destruct (Hc (a0, a1)) as (r & Hr & Hcr).
    { unfold candidates. apply list_elem_of_omap. eauto. }
    exists r. split; [by rewrite elem_of_reverse|]. unfold covers in *. cbn in Hcr. lia.
Qed.
End plan_lemmas.

(** With no gap allowed, merging never reads a byte outside the candidates. *)
Lemma merge_bytes_from gap cs : ∀ out x r, Forall (λ c, c.1 < c.2) cs →
  r ∈ foldl (merge gap) out cs → offset r ≤ x < offset r + rlen r →
  gap = 0 →
  (∃ r', r' ∈ out ∧ offset r' ≤ x < offset r' + rlen r') ∨ (∃ c, c ∈ cs ∧ c.1 ≤ x < c.2).
Proof.
  induction cs as [|[a0 a1] cs IH]; intros out x r Hcs Hr Hx ->; cbn in Hr; [eauto|].
  apply Forall_cons in Hcs as [Hlt Hcs].
  destruct (IH _ _ _ Hcs Hr Hx eq_refl) as [(r' & Hr' & Hx')|(c & Hc & Hx')].
  - assert (r' = mkRange a0 (a1 - a0) ∨ r' ∈ out ∨
      ∃ l, l ∈ out ∧ r' = mkRange (offset l) (Range.fin l `max` a1 - offset l) ∧ a0 ≤ Range.fin l)
      as [->|[?|(l & Hl & -> & Hle)]].
    { unfold merge in Hr'. destruct out as [|l out]; [set_solver|].
      unfold saturating_add in Hr'. case_decide; [|set_solver].
      apply elem_of_cons in Hr' as [->|?]; [|set_solver]. right. right. exists l.
      split; [by left|]. split; [done|]. lia. }
    + right. exists (a0, a1). split; [by left|]. cbn in *. lia.
    + left. eauto.
    + cbn in Hx'. assert (Range.fin l ≤ offset l + rlen l) by (unfold Range.fin, saturating_add; lia).
      destruct (decide (x < offset l + rlen l)); [left; exists l; split; [done|lia]|].
      right. exists (a0, a1). split; [by left|]. cbn. lia.
  - right. exists c. split; [by right|done].
Qed.

Lemma plan_shard_touched {J : Type} (h : ShardHeader J) block r x :
  wf_header h → roundable h block → r ∈ plan_shard h block 0 →
  offset r ≤ x < offset r + rlen r →
  ∃ t, t ∈ sh_tensors h ∧ ti_start t < ti_end t
    ∧ floor_to (abs_start h t) block ≤ x < ceil_to (abs_end h t) block.
Proof.
  intros Hw Hr Hin Hx. unfold plan_shard in Hin. cbn zeta in Hin.
  rewrite elem_of_reverse, Z.max_l in Hin by apply Hr.
  destruct (merge_bytes_from 0 (candidates h block) [] x r) as [(r' & Hr' & _)|([a0 a1] & Hc & Hxc)];
    [|done|done|done|by apply not_elem_of_nil in Hr'|].
  - eapply Forall_impl; [by apply candidates_ok|]. cbn. lia.
  - apply candidates_elem in Hc as (t & Ht & E). exists t.
    pose proof (candidate_spec h block Hw Hr t Ht) as S. rewrite E in S.
    destruct S as (-> & -> & Hlt & _). done.
Qed.

Definition planned (l : list Range) : Z := zsum (rlen <$> l).

Lemma planned_cons r l : planned (r :: l) = rlen r + planned l.
Proof. done. Qed.

Lemma merge_planned gap cs : ∀ out, 0 ≤ gap → Forall (λ c, c.1 < c.2) cs →
  planned (foldl (merge gap) out cs) ≤
  planned out + zsum ((λ c, c.2 - c.1) <$> cs) + gap * len cs.
Proof.
  induction cs as [|[a0 a1] cs IH]; intros out Hg Hcs; cbn [foldl].
  - cbn. unfold len. cbn. lia.
  - apply Forall_cons in Hcs as [Hlt Hcs]. etransitivity; [by apply IH|].
    rewrite len_cons. cbn [fmap list_fmap fst snd]. rewrite zsum_cons.
    assert (planned (merge gap out (a0, a1)) ≤ planned out + (a1 - a0) + gap); [|lia].
    unfold merge. cbn in Hlt. destruct out as [|l out]; [cbn; lia|].
    case_decide as Hd; rewrite !planned_cons; cbn [rlen offset]; [|lia].
    unfold Range.fin, saturating_add in *. lia.
Qed.

Lemma merge_length gap cs : ∀ out,
  (length (foldl (merge gap) out cs) ≤ length out + length cs)%nat.
Proof.
  induction cs as [|[a0 a1] cs IH]; intros out; cbn [foldl length]; [lia|].
  etransitivity; [apply IH|].
  assert (length (merge gap out (a0, a1)) ≤ S (length out))%nat; [|lia].
  unfold merge. destruct out; [done|]. case_decide; cbn; lia.
Qed.

(** ** Summary (lib.rs) *)

Record ModelSummary := mkModelSummary {
  shards : Z;
  tensors : Z;
  file_bytes : Z;
  header_bytes : Z;
  tensor_bytes : Z;
  planned_bytes : Z;
  planned_requests : Z;
  unaligned_offsets : Z;
  unaligned_sizes : Z;
}.

Inductive panic := RemainderByZero.

Section summary.
Context {J : Type}.

(** The inner loop over one shard's tensors; [x % 0] panics. *)
Fixpoint count_unaligned (h : ShardHeader J) (block : Z) (ts : list TensorInfo)
    (offs sizes : Z) : result panic (Z * Z) :=
  match ts with
  | [] => Ok (offs, sizes)
  | t :: ts =>
      let '(abs_s, abs_e) := TensorInfo.abs_range t (sh_data_start h) in
      if decide (block = 0) then Err RemainderByZero else
      let offs := if decide (abs_s mod block ≠ 0) then offs + 1 else offs in
      let sizes := if decide (wsub abs_e abs_s mod block ≠ 0) then sizes + 1 else sizes in
      count_unaligned h block ts offs sizes
  end.

Fixpoint summarize_shards (block : Z) (headers : list (ShardHeader J)) (s : ModelSummary) :
    result panic ModelSummary :=
  match headers with
  | [] => Ok s
  | h :: headers =>
      '(offs, sizes) ← count_unaligned h block (sh_tensors h) (unaligned_offsets s) (unaligned_sizes s);
      summarize_shards block headers
        (mkModelSummary (shards s) (tensors s + len (sh_tensors h))
           (wadd (file_bytes s) (sh_file_size h)) (wadd (header_bytes s) (sh_header_len h))
           (wadd (tensor_bytes s) (ShardHeader.tensor_bytes h))
           (planned_bytes s) (planned_requests s) offs sizes)
  end.

Definition summarize_plan (headers : list (ShardHeader J)) (block : Z)
    (plan : list (nat * Range)) : result panic ModelSummary :=
  s ← summarize_shards block headers
        (mkModelSummary (len headers) 0 0 0 0 0 (len plan) 0 0);
  Ok (mkModelSummary (shards s) (tensors s) (file_bytes s) (header_bytes s) (tensor_bytes s)
        (wrap64 (zsum ((λ p, rlen p.2) <$> plan))) (planned_requests s)
        (unaligned_offsets s) (unaligned_sizes s)).

Definition summarize (headers : list (ShardHeader J)) (block max_gap : Z) :
    result panic ModelSummary :=
  summarize_plan headers block (plan_model headers block max_gap).
End summary.

Lemma count_unaligned_Err {J} (h : ShardHeader J) block ts : ∀ offs sizes e,
  count_unaligned h block ts offs sizes = Err e ↔ block = 0 ∧ ts ≠ [] ∧ e = RemainderByZero.
Proof.
  induction ts as [|t ts IH]; intros offs sizes e; cbn.
  - split; [done|]. by intros (_ & ? & _).
  - case_decide; [split; intros _; [by destruct e|by destruct e]|].
    rewrite IH. split; by intros (? & _).
Qed.

Lemma summarize_shards_Err {J} block (headers : list (ShardHeader J)) : ∀ s,
  summarize_shards block headers s = Err RemainderByZero ↔
  block = 0 ∧ ∃ h, h ∈ headers ∧ sh_tensors h ≠ [].
Proof.
  induction headers as [|h hs IH]; intros s; cbn [summarize_shards].
  - split; [done|]. intros (_ & h & Hh & _). by apply not_elem_of_nil in Hh.
  - rewrite bind_Err, count_unaligned_Err. split.
    + intros [(-> & Hne & _)|([offs sizes] & Hok & Hr)].
      * split; [done|]. exists h. split; [by left|done].
      * apply IH in Hr as (-> & h' & Hh' & Hne). split; [done|]. exists h'. split; [by right|done].
    + intros (-> & h' & [->|Hh']%elem_of_cons & Hne); [by left|].
      destruct (count_unaligned h 0 _ _ _) as [[offs sizes]|e] eqn:E.
      * right. eexists. split; [done|]. cbn. apply IH. eauto.
      * left. apply count_unaligned_Err in E as (_ & ? & _). by split_and!.
Qed.
