(* ===== verification/PlanProps.v ===== *)
(** * Correctness of the read plan

    Alignment and separation of the requests, coverage of every tensor,
    exactness without a merge gap, the cost of merging, and the summary. *)

From S2P Require Import Prelude Serde Rstr Utf8 Float PyJson JsonInstance Header HeaderWitness Plan.

Section properties.
Context {J : Type}.
Implicit Types (h : ShardHeader J).

(** C19. Every planned request is one [O_DIRECT] accepts: offset and length are
    multiples of the block, the length is positive, and the request ends
    within the rounded-up file.  The requests of a shard come in file order,
    disjoint and more than [max_gap] bytes apart. *)
Theorem plan_shard_wf h block max_gap :
  wf_header h → roundable h block → 0 ≤ max_gap →
  Forall (wf_range block (ceil_to (sh_file_size h) block)) (plan_shard h block max_gap)
  ∧ StronglySorted (separated max_gap) (plan_shard h block max_gap).
Proof.
  intros Hw Hr Hg. destruct (plan_shard_inv h block Hw Hr max_gap Hg) as [[Hf Hs] _].
  rewrite <- (reverse_involutive (plan_shard h block max_gap)).
  split; [by apply Forall_reverse|by apply StronglySorted_reverse].
Qed.

(** No tensor is left unread: the byte span of every non-empty tensor
    lies inside a single planned request. *)
Theorem plan_shard_covers h block max_gap t :
  wf_header h → roundable h block → 0 ≤ max_gap →
  t ∈ sh_tensors h → TensorInfo.nbytes t ≠ 0 →
  ∃ r, r ∈ plan_shard h block max_gap ∧ covers r (abs_start h t) (abs_end h t).
Proof.
  intros Hw Hr Hg Ht Hn. destruct (plan_shard_inv h block Hw Hr max_gap Hg) as [_ Hc].
  apply Hc; [done|]. destruct (Z.eq_dec (ti_start t) (ti_end t)) as [E|]; [|].
  - unfold TensorInfo.nbytes, wsub in Hn. by rewrite E, Z.sub_diag in Hn.
  - pose proof (wf_tensors _ Hw) as Hts. eapply Forall_forall in Hts; [|exact Ht].
    destruct Hts. lia.
Qed.

(** With [max_gap = 0] nothing is read needlessly: every byte of every
    request lies in a block that some non-empty tensor touches. *)
Theorem plan_shard_exact h block r x :
  wf_header h → roundable h block → r ∈ plan_shard h block 0 →
  offset r ≤ x < offset r + rlen r →
  ∃ t, t ∈ sh_tensors h ∧ ti_start t < ti_end t
    ∧ floor_to (abs_start h t) block ≤ x < ceil_to (abs_end h t) block.
Proof. apply plan_shard_touched. Qed.

(** Merging is never worse than one request per tensor: the planned
    bytes exceed the unmerged plan's by at most [max_gap] per tensor, so with
    no gap they do not exceed it at all, and there are no more requests. *)
Theorem plan_shard_vs_unmerged h block max_gap :
  wf_header h → roundable h block → 0 ≤ max_gap →
  planned (plan_shard h block max_gap) ≤
    planned (plan_shard_unmerged h block) + max_gap * len (plan_shard_unmerged h block)
  ∧ len (plan_shard h block max_gap) ≤ len (plan_shard_unmerged h block).
Proof.
  intros Hw Hr Hg. unfold plan_shard, plan_shard_unmerged. cbn zeta.
  rewrite Z.max_l by apply Hr. fold (candidates h block).
  pose proof (merge_planned max_gap (candidates h block) [] Hg) as Hm.
  pose proof (merge_length max_gap (candidates h block) []) as Hl.
  assert (Forall (λ c, c.1 < c.2) (candidates h block)) as Hlt.
  { eapply Forall_impl; [by apply candidates_ok|]. cbn. lia. }
  specialize (Hm Hlt). unfold planned, len in *. rewrite length_reverse, length_fmap.
  cbn [length] in Hl. split; [|lia].
  rewrite fmap_reverse, zsum_reverse, <- list_fmap_compose.
  change (rlen ∘ _) with (λ c : Z * Z, c.2 - c.1).
  change (zsum (rlen <$> [])) with 0 in Hm. lia.
Qed.

(** A model plan pairs each request with a valid shard index, and holds
    exactly the requests of that shard's own plan. *)
Theorem plan_model_spec (headers : list (ShardHeader J)) block max_gap i r :
  (i, r) ∈ plan_model headers block max_gap ↔
  ∃ h, headers !! i = Some h ∧ r ∈ plan_shard h block max_gap.
Proof.
  unfold plan_model. rewrite elem_of_concat_imap. split.
  - intros (j & h & Hj & Hin). apply list_elem_of_fmap in Hin as (r' & [= <- <-] & Hr). eauto.
  - intros (h & Hi & Hr). exists i, h. split; [done|]. apply list_elem_of_fmap. eauto.
Qed.

(** [summarize] divides by the block size without the [max(1)] guard the
    planner has: with a zero block it panics exactly when some shard holds a
    tensor, and with any other block it never does. *)
Theorem summarize_panics (headers : list (ShardHeader J)) block max_gap :
  summarize headers block max_gap = Err RemainderByZero ↔
  block = 0 ∧ ∃ h, h ∈ headers ∧ sh_tensors h ≠ [].
Proof.
  unfold summarize, summarize_plan. rewrite bind_Err.
  trans (summarize_shards block headers
    (mkModelSummary (len headers) 0 0 0 0 0 (len (plan_model headers block max_gap)) 0 0)
    = Err RemainderByZero); [|apply summarize_shards_Err].
  split; [intros [?|(s & _ & ?)]; done|by left].
Qed.
End properties.

(** ** Concrete inputs *)

Lemma demo_wf : wf_header demo_header.
Proof.
  split; try (by vm_compute).
  - assert (sh_file_size demo_header - sh_data_start demo_header = 14) as -> by by vm_compute.
    change (sh_tensors demo_header) with [mkTensorInfo (lit "a") F32 [2; 1] 0 8;
      mkTensorInfo (lit "b") Bf16 [3] 8 14].
    apply Forall_cons; split; [|apply Forall_singleton].
    all: split; cbn; try lia; apply (bool_decide_unpack _); by vm_compute.
  - change (sh_tensors demo_header) with [mkTensorInfo (lit "a") F32 [2; 1] 0 8;
      mkTensorInfo (lit "b") Bf16 [3] 8 14].
    apply SSorted_cons; [apply SSorted_cons; constructor|].
    apply Forall_singleton. left. cbn. lia.
Qed.

Lemma demo_roundable : roundable demo_header 16.
Proof. by vm_compute. Qed.

Definition demo_plan : list Range := Eval vm_compute in plan_shard demo_header 16 0.

Lemma demo_planned : plan_shard demo_header 16 0 = demo_plan.
Proof. by vm_compute. Qed.

Lemma plan_shard_wf_witness :
  StronglySorted (separated 0) (plan_shard demo_header 16 0).
Proof. apply (plan_shard_wf demo_header 16 0 demo_wf demo_roundable). done. Defined.

Lemma plan_shard_covers_witness : ∃ r, r ∈ plan_shard demo_header 16 0
  ∧ covers r (abs_start demo_header (mkTensorInfo (lit "b") Bf16 [3] 8 14))
             (abs_end demo_header (mkTensorInfo (lit "b") Bf16 [3] 8 14)).
Proof.
  apply (plan_shard_covers demo_header 16 0 _ demo_wf demo_roundable); [done| |done].
  right. left.
Defined.

Lemma plan_shard_exact_witness : ∃ t, t ∈ sh_tensors demo_header ∧ ti_start t < ti_end t
  ∧ floor_to (abs_start demo_header t) 16 ≤ 150 < ceil_to (abs_end demo_header t) 16.
Proof.
  apply (plan_shard_exact demo_header 16 (mkRange 128 32) 150 demo_wf demo_roundable).
  - rewrite demo_planned. left.
  - by vm_compute.
Defined.

Lemma plan_shard_vs_unmerged_witness :
  len (plan_shard demo_header 16 0) ≤ len (plan_shard_unmerged demo_header 16).
Proof. apply (plan_shard_vs_unmerged demo_header 16 0 demo_wf demo_roundable). done. Defined.
