(* ===== verification/Fuzz.v ===== *)
(** * stloader: the fuzzer

    Models rust-qwen-engine/crates/stloader/src/fuzz.rs: the generator of
    malformed files, the mutations, the safety oracle over a parsed header and
    the loop that counts what happened.  Running [read_files] is an argument:
    whether a read succeeds depends on the kernel (Reader.v). *)

From S2P Require Import Prelude Serde Rstr Utf8 Float Header Plan.

(** ** The generator's random numbers: xorshift64* without the multiplication *)

(** A computation that draws from the generator: a state monad on its [u64]. *)
Definition gen (A : Type) : Type := Z → A * Z.

#[export] Instance gen_ret : MRet gen := λ A x s, (x, s).
#[export] Instance gen_bind : MBind gen := λ A B f m s, let '(x, s) := m s in f x s.

Module Rng.
(** [Rng::new] *)
Definition new (seed : Z) : Z := Z.lor seed 1.

Definition next_u64 : gen Z := λ x,
  let x := Z.lxor x (wrap64 (Z.shiftl x 13)) in
  let x := Z.lxor x (Z.shiftr x 7) in
  let x := Z.lxor x (wrap64 (Z.shiftl x 17)) in
  (x, x).

Definition below (n : Z) : gen Z :=
  if decide (n ≤ 1) then mret 0 else x ← next_u64; mret (x mod n).

Definition pick {A} `{Inhabited A} (xs : list A) : gen A :=
  i ← below (len xs); mret (xs !!! Z.to_nat i).
End Rng.
Import Rng.

(** A [for] loop of [n] rounds that draws, collecting its results. *)
Fixpoint repeat_gen {A} (n : nat) (i : Z) (f : Z → gen A) : gen (list A) :=
  match n with
  | O => mret []
  | S n => x ← f i; xs ← repeat_gen n (i + 1) f; mret (x :: xs)
  end.

(** ** Generated cases *)

(** A raw string literal, with an apostrophe for each quotation mark. *)
Definition jlit (s : string) : rstr := (λ c, if c =? 39 then 34 else c) <$> lit s.

Definition DTYPES : list rstr :=
  lit <$> ["F64"; "F32"; "F16"; "BF16"; "I64"; "I32"; "I16"; "I8"; "U8"; "BOOL";
           "F8_E4M3"; "F8_E5M2"; "F7"; ""%string; "f32"; "F32 "; "FLOAT32"; "U16"; "I4"]%string.

Definition WEIRD_NUMBERS : list Z :=
  [0; 1; 2; 7; 8; 15; 16; 4095; 4096; 4097; 8192; 65535; 65536;
   2 ^ 32 - 1; 2 ^ 32; Z.shiftl 1 40; Z.shiftl 1 48; u64_max - 1; u64_max].

(** [xs.join(",")] *)
Fixpoint join_commas (xs : list rstr) : rstr :=
  match xs with
  | [] => []
  | [x] => x
  | x :: xs => x ++ lit "," ++ join_commas xs
  end.

Definition rand_dim : gen rstr :=
  k ← below 8;
  if decide (k = 0) then x ← pick WEIRD_NUMBERS; mret (show_nat x)
  else if decide (k = 1) then mret (lit "-1")
  else if decide (k = 2) then mret (lit "1.5")
  else if decide (k = 3) then mret (lit "null")
  else if decide (k = 4) then mret (jlit "'3'")
  else if decide (k = 5) then mret (lit "18446744073709551615")
  else if decide (k = 6) then x ← below (Z.shiftl 1 20); mret (show_nat x)
  else x ← below 64; mret (show_nat x).

Definition rand_shape : gen rstr :=
  n ← below 4;
  dims ← repeat_gen (Z.to_nat n) 0 (λ _, rand_dim);
  mret (lit "[" ++ join_commas dims ++ lit "]").

Definition rand_name (i : Z) : gen rstr :=
  k ← below 6;
  mret (if decide (k = 0) then lit "t" ++ show_nat i
        else if decide (k = 1) then lit "__metadata__"
        else if decide (k = 2) then []
        else if decide (k = 3) then lit "layer." ++ show_nat i ++ lit ".weight"
        else if decide (k = 4) then [0x1F600]
        else lit "dup").

(** The data offsets of an entry: usually coherent, sometimes not. *)
Definition rand_offsets (cursor : Z) : gen (Z * Z) :=
  k ← below 10;
  if decide (k = 0) then a ← pick WEIRD_NUMBERS; b ← pick WEIRD_NUMBERS; mret (a, b)
  else if decide (k = 1) then a ← below 4096; mret (a, saturating_sub a 1)
  else if decide (k = 2) then n ← below 4096; mret (cursor, wadd cursor n)
  else if decide (k = 3) then mret (0, u64_max)
  else n ← below 1024; mret (cursor, wadd cursor n).

(** The text of an entry, deliberately malformed for the first [kind]s. *)
Definition entry_text (k : Z) (name dtype shape : rstr) (start fin : Z) : rstr :=
  let key := jlit "'" ++ name ++ jlit "':" in
  let d := jlit "'dtype':'" ++ dtype ++ jlit "'" in
  let s := jlit "'shape':" ++ shape in
  let o := jlit "'data_offsets':[" ++ show_nat start in
  let close := lit "]}" in
  if decide (k = 0) then key ++ lit "42"
  else if decide (k = 1) then key ++ lit "{" ++ d ++ lit "," ++ s ++ lit "}"
  else if decide (k = 2) then
    key ++ lit "{" ++ d ++ lit "," ++ o ++ lit "," ++ show_nat fin ++ close
  else if decide (k = 3) then
    key ++ lit "{" ++ s ++ lit "," ++ o ++ lit "," ++ show_nat fin ++ close
  else if decide (k = 4) then
    key ++ lit "{" ++ d ++ lit "," ++ s ++ lit "," ++ o ++ close
  else if decide (k = 5) then
    key ++ lit "{" ++ d ++ lit "," ++ s ++ lit "," ++ o ++ lit "," ++ show_nat fin ++ lit ",3" ++ close
  else key ++ lit "{" ++ d ++ lit "," ++ s ++ lit "," ++ o ++ lit "," ++ show_nat fin ++ close.

(** The loop of [gen_case] over its entries; [cursor] is where the last ended. *)
Fixpoint gen_entries (n : nat) (i cursor : Z) : gen (list rstr) :=
  match n with
  | O => mret []
  | S n =>
      name ← rand_name i;
      dtype ← pick DTYPES;
      shape ← rand_shape;
      '(start, fin) ← rand_offsets cursor;
      k ← below 12;
      rest ← gen_entries n (i + 1) ((cursor `max` fin) `min` Z.shiftl 1 22);
      mret (entry_text k name dtype shape start fin :: rest)
  end.

Definition braces (s : rstr) : rstr := lit "{" ++ s ++ lit "}".

(** The header text, sometimes not JSON at all. *)
Definition gen_json (entries : list rstr) : gen rstr :=
  k ← below 16;
  if decide (k = 0) then
    j ← below 4;
    mret (if decide (j = 0) then lit "{"
          else if decide (j = 1) then braces (join_commas entries)
          else if decide (j = 2) then lit "[" ++ join_commas entries ++ lit "]"
          else lit "{not json at all")
  else mret (braces (join_commas entries)).

Definition payload_byte (i : Z) : gen Z :=
  b ← below 256; mret ((i mod 256 * 31 + b) mod 256).

(** [(header_json, payload, forced_header_len)] *)
Definition gen_case : gen (rstr * list Z * option Z) :=
  n_entries ← below 5;
  entries ← gen_entries (Z.to_nat n_entries) 0 0;
  json ← gen_json entries;
  payload_len ← below (Z.shiftl 1 16);
  payload ← repeat_gen (Z.to_nat payload_len) 0 payload_byte;
  k ← below 8;
  forced ← (if decide (k = 0) then x ← pick WEIRD_NUMBERS; mret (Some x) else mret None);
  mret (json, payload, forced).

Definition assemble (json : rstr) (payload : list Z) (forced_len : option Z) : list Z :=
  let declared := default (len (utf8 json)) forced_len in
  to_le_bytes 8 declared ++ utf8 json ++ payload.

(** ** Mutation of a file *)

Definition mutate_once (v : list Z) : gen (list Z) :=
  k ← below 6;
  if decide (k = 0) then
    i ← below (len v); b ← below 8;
    mret (alter (λ x, Z.lxor x (Z.shiftl 1 b)) (Z.to_nat i) v)
  else if decide (k = 1) then
    i ← below (len v); b ← below 256; mret (<[Z.to_nat i := b]> v)
  else if decide (k = 2) then
    if decide (8 ≤ len v) then x ← pick WEIRD_NUMBERS; mret (to_le_bytes 8 x ++ drop 8 v)
    else mret v
  else if decide (k = 3) then
    if decide (len v > 1) then n ← below (len v); mret (take (Z.to_nat n) v) else mret v
  else if decide (k = 4) then
    i ← below (len v); b ← below 256;
    mret (take (Z.to_nat i) v ++ b :: drop (Z.to_nat i) v)
  else
    if decide (len v > 1) then i ← below (len v); mret (delete (Z.to_nat i) v) else mret v.

Fixpoint mutate_ops (ops : nat) (v : list Z) : gen (list Z) :=
  match ops with
  | O => mret v
  | S ops => if decide (v = []) then mret v else v ← mutate_once v; mutate_ops ops v
  end.

Definition mutate (base : list Z) : gen (list Z) :=
  if decide (base = []) then mret base else
  ops ← below 4; mutate_ops (Z.to_nat (1 + ops)) base.

(** ** The safety oracle *)

(** Why [check_plan] objects. *)
Inductive violation :=
| ZeroLength (offset : Z)
| OffsetUnaligned (offset : Z)
| LenUnaligned (rlen : Z)
| PastCeil (offset fin file_ceil : Z)
| RangesOverlap (offset0 fin0 offset1 fin1 : Z)
| TensorPastFile (name : rstr) (fin file_size : Z)
| NoCoveringRange (name : rstr) (start fin : Z)
| NotContained (name : rstr) (start fin offset rfin : Z)
| WastedRead (offset fin : Z).

(** [u64::is_multiple_of] *)
Definition is_multiple_of (x b : Z) : bool :=
  if decide (b = 0) then bool_decide (x = 0) else bool_decide (x mod b = 0).

(** The first violation a list of checks finds. *)
Fixpoint first_violation {A} (f : A → option violation) (l : list A) : option violation :=
  match l with
  | [] => None
  | x :: l => match f x with Some v => Some v | None => first_violation f l end
  end.

Definition check_range (file_ceil block : Z) (r : Range) : option violation :=
  if decide (rlen r = 0) then Some (ZeroLength (offset r))
  else if negb (is_multiple_of (offset r) block) then Some (OffsetUnaligned (offset r))
  else if negb (is_multiple_of (rlen r) block) then Some (LenUnaligned (rlen r))
  else if decide (Range.fin r > file_ceil)
    then Some (PastCeil (offset r) (Range.fin r) file_ceil)
  else None.

(** One of [plan.windows(2)]. *)
Definition check_window (w : Range * Range) : option violation :=
  let '(r0, r1) := w in
  if decide (Range.fin r0 > offset r1)
  then Some (RangesOverlap (offset r0) (Range.fin r0) (offset r1) (Range.fin r1)) else None.

(** [while ri < plan.len() && plan[ri].end() <= s]: what is left of the plan. *)
Fixpoint skip_ranges (s : Z) (rest : list Range) : list Range :=
  match rest with
  | [] => []
  | r :: rest' => if decide (Range.fin r ≤ s) then skip_ranges s rest' else rest
  end.

Section oracle.
Context {J : Type}.
Implicit Types (h : ShardHeader J).

(** Every tensor inside one range; [rest] is the plan from [ri] on. *)
Fixpoint check_tensors h (rest : list Range) (ts : list TensorInfo) : option violation :=
  match ts with
  | [] => None
  | t :: ts =>
      if decide (TensorInfo.nbytes t = 0) then check_tensors h rest ts else
      let '(s, e) := TensorInfo.abs_range t (sh_data_start h) in
      if decide (e > sh_file_size h) then Some (TensorPastFile (ti_name t) e (sh_file_size h)) else
      let rest := skip_ranges s rest in
      match rest with
      | [] => Some (NoCoveringRange (ti_name t) s e)
      | r :: _ =>
          if decide (offset r > s ∨ Range.fin r < e)
          then Some (NotContained (ti_name t) s e (offset r) (Range.fin r))
          else check_tensors h rest ts
      end
  end.

(** The [while] of the converse check: whether range [r] covers something, and
    the tensors from [ti] on. *)
Fixpoint covers_something h (block : Z) (r : Range) (ts : list TensorInfo) :
    bool * list TensorInfo :=
  match ts with
  | [] => (false, [])
  | t :: ts' =>
      if decide (TensorInfo.nbytes t = 0) then covers_something h block r ts' else
      let '(s, e) := TensorInfo.abs_range t (sh_data_start h) in
      if decide (ceil_to e block ≤ offset r) then covers_something h block r ts'
      else (bool_decide (floor_to s block < Range.fin r), ts)
  end.

(** Every range covers some tensor byte. *)
Fixpoint check_useful h (block : Z) (plan : list Range) (ts : list TensorInfo) : option violation :=
  match plan with
  | [] => None
  | r :: plan =>
      let '(useful, ts) := covers_something h block r ts in
      if useful then check_useful h block plan ts
      else Some (WastedRead (offset r) (Range.fin r))
  end.

Definition check_plan h (block : Z) : option violation :=
  let file_ceil := ceil_to (sh_file_size h) block in
  let plan := plan_shard h block 0 in
  match first_violation (check_range file_ceil block) plan with
  | Some v => Some v
  | None =>
  match first_violation check_window (zip plan (tail plan)) with
  | Some v => Some v
  | None =>
  match check_tensors h plan (sh_tensors h) with
  | Some v => Some v
  | None => check_useful h block plan (sh_tensors h)
  end end end.
End oracle.

(** ** Running *)

(** A panic of [run_case], caught by its caller. *)
Inductive case_panic := PlanInvariantViolated (v : violation).

Record FuzzReport := mkFuzzReport {
  iterations : nat;
  parsed_ok : nat;
  rejected : nat;
  reads_executed : nat;
  (** the iteration, the bytes of the case and the panic *)
  panics : list (nat * Z * case_panic);
  invariant_failures : list rstr;
}.

Definition report_ok (r : FuzzReport) : bool :=
  bool_decide (panics r = []) && bool_decide (length (invariant_failures r) = 0%nat).

Definition seed_corpus : list (list Z) :=
  (λ c : string * nat, assemble (jlit c.1) (replicate c.2 0x5A) None) <$>
  [("{'a':{'dtype':'F32','shape':[4],'data_offsets':[0,16]}}"%string, 16%nat);
   ("{'a':{'dtype':'F32','shape':[1024],'data_offsets':[0,4096]},'b':{'dtype':'F16','shape':[8],'data_offsets':[4096,4112]}}"%string, 4112%nat);
   ("{'__metadata__':{'format':'pt'},'w':{'dtype':'BF16','shape':[2,2],'data_offsets':[0,8]}}"%string, 8%nat);
   ("{'z':{'dtype':'U8','shape':[0],'data_offsets':[0,0]}}"%string, 0%nat);
   ("{'s':{'dtype':'F64','shape':[],'data_offsets':[0,8]}}"%string, 8%nat)].

(** The bytes of one iteration of [run]. *)
Definition next_case : gen (list Z) :=
  k ← below 10;
  if decide (k ≤ 4) then
    '(json, payload, forced) ← gen_case; mret (assemble json payload forced)
  else if decide (k ≤ 6) then base ← pick seed_corpus; mutate base
  else if decide (k ≤ 8) then pick seed_corpus
  else
    j ← below 2;
    if decide (j = 0) then
      n ← below 4096; repeat_gen (Z.to_nat n) 0 (λ _, below 256)
    else
      n ← below 256;
      s ← repeat_gen (Z.to_nat n) 0 (λ _, b ← below 95; mret (32 + b));
      mret (assemble s (replicate 32 0) None).

Section run.
Context {J : Type} `{SerdeJson J}.
(** Whether [read_files] returns [Ok] on a file and a plan. *)
Variable read_files : list Z → list (nat * Range) → bool.

(** [(parsed, read_ok)] *)
Definition run_case (bytes : list Z) (block : Z) (do_read : bool) :
    result case_panic (bool * bool) :=
  match read_header bytes with
  | Err _ => Ok (false, false)
  | Ok h =>
      match check_plan (J:=J) h block with
      | Some msg => Err (PlanInvariantViolated msg)
      | None =>
          if do_read && bool_decide (sh_file_size h > 0)
             && bool_decide (sh_file_size h ≤ Z.shiftl 1 20)
          then Ok (true, read_files bytes (pair 0%nat <$> plan_shard h block 0))
          else Ok (true, false)
      end
  end.

(** What [run] does with the result of the case it ran as number [i]. *)
Definition record_case (i : nat) (bytes : list Z) (r : result case_panic (bool * bool))
    (report : FuzzReport) : FuzzReport :=
  let '(mkFuzzReport iters ok rej reads ps inv) := report in
  match r with
  | Err e => mkFuzzReport (S iters) ok rej reads (ps ++ [(i, len bytes, e)]) inv
  | Ok (parsed, read_ok) =>
      mkFuzzReport (S iters) (if parsed then S ok else ok) (if parsed then rej else S rej)
        (if read_ok then S reads else reads) ps inv
  end.

(** The loop of [run], [n] iterations from number [i] on. *)
Fixpoint run_loop (n i : nat) (do_reads : bool) (rng : Z) (report : FuzzReport) : FuzzReport :=
  match n with
  | O => report
  | S n =>
      let '(bytes, rng) := next_case rng in
      run_loop n (S i) do_reads rng (record_case i bytes (run_case bytes 4096 do_reads) report)
  end.

Definition run (iterations : nat) (seed : Z) (do_reads : bool) : FuzzReport :=
  run_loop iterations 0 do_reads (Rng.new seed) (mkFuzzReport 0 0 0 0 [] []).
End run.

(** [dtype_table_is_consistent] *)
Definition dtype_table_is_consistent : bool :=
  forallb (λ d, bool_decide (Dtype.parse (Dtype.as_str d) = Some d)) (omap Dtype.parse DTYPES).
