(* ===== verification/FuzzProps.v ===== *)
(** * The fuzzer finds nothing

    The safety oracle is sound, it accepts the plan of every header the reader
    accepts, and so a run of the fuzzer reports no failure. *)

From S2P Require Import Prelude Serde Rstr Utf8 Float FloatProps PyJson JsonInstance Header.
From S2P Require Import HeaderWitness Plan PlanProps Fuzz.
Import Rng.

(** ** The oracle's loops *)

Lemma first_violation_None {A} (f : A → option violation) l :
  first_violation f l = None ↔ Forall (λ x, f x = None) l.
Proof.
  induction l as [|x l IH]; cbn; [split; [constructor|done]|].
  rewrite Forall_cons, <- IH. destruct (f x); naive_solver.
Qed.

Lemma is_multiple_of_aligned x b : 1 ≤ b → is_multiple_of x b = true ↔ aligned b x.
Proof. intros Hb. unfold is_multiple_of. rewrite decide_False by lia. apply bool_decide_eq_true. Qed.

Lemma check_range_None file_ceil block r : 1 ≤ block →
  check_range file_ceil block r = None ↔
  rlen r ≠ 0 ∧ aligned block (offset r) ∧ aligned block (rlen r) ∧ Range.fin r ≤ file_ceil.
Proof.
  intros Hb. unfold check_range. case_decide; [naive_solver|].
  rewrite <- !is_multiple_of_aligned by done.
  destruct (is_multiple_of (offset r) block); [|naive_solver].
  destruct (is_multiple_of (rlen r) block); cbn; [|naive_solver].
  case_decide; [|naive_solver lia]. split; [done|]. lia.
Qed.

Lemma check_window_None r0 r1 : check_window (r0, r1) = None ↔ Range.fin r0 ≤ offset r1.
Proof. unfold check_window. case_decide; [split; [done|lia]|split; [lia|done]]. Qed.

(** Two neighbours of a list. *)
Lemma windows_sorted {A} (R : A → A → Prop) l :
  Forall (λ w, R w.1 w.2) (zip l (tail l)) ↔ Sorted R l.
Proof.
  induction l as [|x [|y l] IH]; [split; intros _; repeat constructor..|].
  cbn [tail zip zip_with] in *. rewrite Forall_cons, IH. cbn. split.
  - intros [Hxy Hs]. constructor; [done|by constructor].
  - intros Hs. apply Sorted_inv in Hs as [Hs Hh]. split; [by inversion Hh|done].
Qed.

Lemma skip_ranges_suffix s rest : ∃ k, skip_ranges s rest = drop k rest.
Proof.
  induction rest as [|r rest [k IH]]; [by exists 0%nat|]. cbn.
  case_decide; [by exists (S k)|by exists 0%nat].
Qed.

Lemma skip_ranges_keeps s rest r : r ∈ rest → s < Range.fin r → r ∈ skip_ranges s rest.
Proof.
  intros Hr Hs. induction rest as [|r' rest IH]; [by apply not_elem_of_nil in Hr|]. cbn.
  case_decide; [|done]. apply elem_of_cons in Hr as [->|Hr]; [lia|by apply IH].
Qed.

Lemma skip_ranges_head s rest r l : skip_ranges s rest = r :: l → s < Range.fin r.
Proof.
  induction rest as [|r' rest IH]; [done|]. cbn. case_decide; [done|].
  intros [= <- _]. lia.
Qed.

(** ** The oracle accepts every plan of a well-formed header *)

Section accepts.
Context {J : Type} (h : ShardHeader J) (block : Z).
Hypotheses (Hwf : wf_header h) (Hround : roundable h block).

(** A tensor of the header, in file coordinates. *)
Lemma tensor_span t : t ∈ sh_tensors h →
  TensorInfo.abs_range t (sh_data_start h) = (abs_start h t, abs_end h t)
  ∧ (TensorInfo.nbytes t = 0 ↔ abs_start h t = abs_end h t)
  ∧ 0 ≤ abs_start h t ≤ abs_end h t ∧ abs_end h t ≤ sh_file_size h.
Proof.
  intros Ht. destruct Hwf as [Hfs Hhl Hds Hif Hts _]. destruct Hround as [Hb Hm].
  eapply Forall_forall in Ht; [|exact Hts]. destruct Ht as [H0 Ho Hbd _ _].
  unfold u64, u64_max in *. unfold TensorInfo.abs_range, TensorInfo.nbytes, abs_start, abs_end.
  rewrite !wadd_small, wsub_small by (unfold u64, u64_max; lia).
  split; [done|]. split; [|lia]. split; lia.
Qed.

Lemma tensors_by_start : StronglySorted (λ t1 t2, abs_start h t1 ≤ abs_start h t2) (sh_tensors h).
Proof.
  pose proof (wf_sorted _ Hwf) as Hs. induction Hs as [|t ts _ IH Ht]; constructor; [done|].
  eapply Forall_impl; [exact Ht|]. unfold key_le, abs_start. intros; cbn in *; lia.
Qed.

Lemma fin_sum r : wf_range block (limit h block) r → Range.fin r = offset r + rlen r.
Proof. apply fin_wf. Qed.

(** What [check_tensors] relies on, for the tensors and the requests left. *)
Lemma check_tensors_accepts ts : ∀ rest,
  Forall (wf_range block (limit h block)) rest → StronglySorted (separated 0) rest →
  StronglySorted (λ t1 t2, abs_start h t1 ≤ abs_start h t2) ts →
  Forall (λ t, t ∈ sh_tensors h) ts →
  Forall (λ t, abs_start h t < abs_end h t → ∃ r, r ∈ rest ∧ covers r (abs_start h t) (abs_end h t)) ts →
  check_tensors h rest ts = None.
Proof.
  induction ts as [|t ts IH]; intros rest Hw Hs Ht Hin Hc; [done|].
  apply StronglySorted_inv in Ht as [Ht Hle].
  apply Forall_cons in Hin as [Hin Hins], Hc as [Hc Hcs].
  destruct (tensor_span t Hin) as (Hr & Hn & Hord & Hend). cbn [check_tensors].
  case_decide as Hd; [by apply IH|]. rewrite Hr, decide_False by lia.
  destruct Hc as (r & Hrr & Hcov); [lia|].
  assert (Forall (λ r, Range.fin r = offset r + rlen r) rest) as Hf
    by (eapply Forall_impl; [exact Hw|]; apply fin_sum).
  unfold covers in Hcov.
  assert (r ∈ skip_ranges (abs_start h t) rest) as Hr'.
  { apply skip_ranges_keeps; [done|]. rewrite Forall_forall in Hf. rewrite (Hf r) by done. lia. }
  destruct (skip_ranges_suffix (abs_start h t) rest) as [k Hk].
  assert (Forall (wf_range block (limit h block)) (skip_ranges (abs_start h t) rest)) as Hw'
    by (rewrite Hk; by apply Forall_drop).
  assert (StronglySorted (separated 0) (skip_ranges (abs_start h t) rest)) as Hs'.
  { rewrite Hk. rewrite <- (take_drop k rest) in Hs. by apply StronglySorted_app_1_r in Hs. }
  assert (Forall (λ t', abs_start h t' < abs_end h t' →
      ∃ r, r ∈ skip_ranges (abs_start h t) rest ∧ covers r (abs_start h t') (abs_end h t')) ts) as Hc'.
  { apply Forall_forall. intros t' Ht' Hne. rewrite Forall_forall in Hcs; rewrite Forall_forall in Hle; rewrite Forall_forall in Hf.
    destruct (Hcs t' Ht' Hne) as (r' & Hin' & Hcov'). exists r'. split; [|done].
    apply skip_ranges_keeps; [done|]. specialize (Hle t' Ht'). rewrite (Hf r') by done.
    unfold covers in Hcov'. cbn in Hle. lia. }
  destruct (skip_ranges (abs_start h t) rest) as [|r0 l] eqn:E; [by apply not_elem_of_nil in Hr'|].
  apply skip_ranges_head in E as Hhead.
  assert (r0 = r) as ->.
  { apply elem_of_cons in Hr' as [->|Hl]; [done|]. apply StronglySorted_inv in Hs' as [_ Hsep].
    rewrite Forall_forall in Hsep. specialize (Hsep r Hl). unfold separated in Hsep.
    apply Forall_cons in Hw' as [Hw0 _]. rewrite (fin_sum r0 Hw0) in Hhead. lia. }
  rewrite Forall_forall in Hf. rewrite decide_False by (rewrite (Hf r) by done; lia).
  by apply IH.
Qed.

(** A non-empty tensor touches the block that starts at [x]. *)
Definition touches (t : TensorInfo) (x : Z) : Prop :=
  abs_start h t < abs_end h t ∧ floor_to (abs_start h t) block ≤ x < ceil_to (abs_end h t) block.

Lemma covers_something_finds r ts :
  offset r < Range.fin r →
  StronglySorted (λ t1 t2, abs_start h t1 ≤ abs_start h t2) ts →
  Forall (λ t, t ∈ sh_tensors h) ts →
  (∃ t, t ∈ ts ∧ touches t (offset r)) →
  ∃ k, covers_something h block r ts = (true, drop k ts)
    ∧ ∀ t x, t ∈ ts → touches t x → offset r ≤ x → t ∈ drop k ts.
Proof.
  intros Hr. induction ts as [|t ts IH]; intros Hs Hin (t0 & Ht0 & Hto); [by apply not_elem_of_nil in Ht0|].
  apply StronglySorted_inv in Hs as [Hs Hle]. apply Forall_cons in Hin as [Hin Hins].
  destruct (tensor_span t Hin) as (Hrg & Hn & Hord & Hend). cbn [covers_something]. rewrite Hrg.
  assert ((∀ x, touches t x → ¬ offset r ≤ x) → ∃ k, covers_something h block r ts = (true, drop k ts)
    ∧ ∀ t' x, t' ∈ t :: ts → touches t' x → offset r ≤ x → t' ∈ drop k ts) as Hskip.
  { intros Hno. destruct (IH Hs Hins) as (k & Hk & Hkeep).
    - exists t0. split; [|done]. apply elem_of_cons in Ht0 as [->|?]; [|done].
      exfalso. by apply (Hno (offset r)).
    - exists k. split; [done|]. intros t' x [->|Ht']%elem_of_cons Hx Hle'; [by destruct (Hno x)|by eapply Hkeep]. }
  case_decide as Hd.
  { destruct Hskip as (k & ? & ?); [intros x [Hx _]; lia|by exists (S k)]. }
  case_decide as Hce.
  { destruct Hskip as (k & ? & ?); [intros x (_ & _ & Hx); lia|by exists (S k)]. }
  exists 0%nat. split; [|by intros]. f_equal. apply bool_decide_eq_true.
  destruct Hto as (_ & Hfl & _).
  assert (abs_start h t ≤ abs_start h t0).
  { apply elem_of_cons in Ht0 as [->|Ht0]; [lia|]. rewrite Forall_forall in Hle. by apply Hle. }
  pose proof (floor_to_mono (abs_start h t) (abs_start h t0) block (proj1 Hround) ltac:(done)). lia.
Qed.

Lemma check_useful_accepts plan : ∀ ts,
  Forall (wf_range block (limit h block)) plan → StronglySorted (separated 0) plan →
  StronglySorted (λ t1 t2, abs_start h t1 ≤ abs_start h t2) ts →
  Forall (λ t, t ∈ sh_tensors h) ts →
  Forall (λ r, ∃ t, t ∈ ts ∧ touches t (offset r)) plan →
  check_useful h block plan ts = None.
Proof.
  induction plan as [|r plan IH]; intros ts Hw Hs Ht Hin Hto; [done|].
  apply Forall_cons in Hw as [Hwr Hw], Hto as [Hr Hto]. apply StronglySorted_inv in Hs as [Hs Hsep].
  destruct (covers_something_finds r ts) as (k & Hk & Hkeep); [|done..|].
  { rewrite (fin_sum r Hwr). destruct Hwr as [_ [? _] _]. lia. }
  cbn [check_useful]. rewrite Hk. apply IH; [done..| |by apply Forall_drop|].
  - rewrite <- (take_drop k ts) in Ht. by apply StronglySorted_app_1_r in Ht.
  - apply Forall_forall. intros r' Hr'. rewrite Forall_forall in Hto; rewrite Forall_forall in Hsep.
    destruct (Hto r' Hr') as (t & Hin' & Htt). exists t. split; [|done].
    eapply Hkeep; [done..|]. specialize (Hsep r' Hr'). unfold separated in Hsep.
    destruct Hwr as [_ [? _] _]. lia.
Qed.

Lemma check_plan_accepts : check_plan h block = None.
Proof.
  destruct (plan_shard_inv h block Hwf Hround 0 ltac:(done)) as [[Hf Hs] Hc].
  apply Forall_reverse in Hf. rewrite reverse_involutive in Hf.
  apply StronglySorted_reverse in Hs. rewrite reverse_involutive in Hs.
  pose proof tensors_by_start as Ht.
  assert (Forall (λ t, t ∈ sh_tensors h) (sh_tensors h)) as Hin by by apply Forall_forall.
  unfold check_plan.
  replace (first_violation (check_range _ _) _) with (@None violation).
  2:{ symmetry. apply first_violation_None. eapply Forall_impl; [exact Hf|]. intros r Hr.
      apply check_range_None; [apply Hround|]. rewrite (fin_sum r Hr).
      destruct Hr as [[_ ?] [? ?] ?]. repeat split; try done. lia. }
  replace (first_violation check_window _) with (@None violation).
  2:{ symmetry. apply first_violation_None, (Forall_impl (λ w, Range.fin w.1 ≤ offset w.2)).
      - apply (windows_sorted (λ r0 r1, Range.fin r0 ≤ offset r1)).
        apply StronglySorted_Sorted. clear -Hf Hs Hwf Hround.
        induction Hs as [|r l _ IH Hsep]; constructor; apply Forall_cons in Hf as [Hr Hf]; [by apply IH|].
        eapply Forall_impl; [exact Hsep|]. intros r1. unfold separated. rewrite (fin_sum r Hr). lia.
      - intros [r0 r1]. apply check_window_None. }
  rewrite check_tensors_accepts; [|done..|].
  - apply check_useful_accepts; [done..|]. apply Forall_forall. intros r Hr.
    rewrite Forall_forall in Hf. destruct (Hf r Hr) as [_ [Hl _] _].
    destruct (plan_shard_touched h block r (offset r) Hwf Hround Hr) as (t & Htt & Hlt & Hx); [lia|].
    exists t. split; [done|]. split; [unfold abs_start, abs_end; lia|done].
  - apply Forall_forall. intros t Htt Hlt. apply Hc; [done|]. unfold abs_start, abs_end in Hlt. lia.
Qed.
End accepts.

(** ** The oracle is sound *)

(** What a plan must satisfy for a read to be safe and useful. *)
Record safe_plan {J} (h : ShardHeader J) (block : Z) (plan : list Range) : Prop := {
  sp_ranges : Forall (λ r, rlen r ≠ 0 ∧ aligned block (offset r) ∧ aligned block (rlen r)
    ∧ Range.fin r ≤ ceil_to (sh_file_size h) block) plan;
  sp_disjoint : Sorted (λ r0 r1, Range.fin r0 ≤ offset r1) plan;
  sp_covered : Forall (λ t, TensorInfo.nbytes t ≠ 0 →
    let '(s, e) := TensorInfo.abs_range t (sh_data_start h) in
    e ≤ sh_file_size h ∧ ∃ r, r ∈ plan ∧ offset r ≤ s ∧ e ≤ Range.fin r) (sh_tensors h);
  sp_useful : Forall (λ r, ∃ t, t ∈ sh_tensors h ∧ TensorInfo.nbytes t ≠ 0 ∧
    let '(s, e) := TensorInfo.abs_range t (sh_data_start h) in
    floor_to s block < Range.fin r ∧ offset r < ceil_to e block) plan;
}.

Lemma check_tensors_sound {J} (h : ShardHeader J) ts : ∀ rest, check_tensors h rest ts = None →
  Forall (λ t, TensorInfo.nbytes t ≠ 0 →
    let '(s, e) := TensorInfo.abs_range t (sh_data_start h) in
    e ≤ sh_file_size h ∧ ∃ r, r ∈ rest ∧ offset r ≤ s ∧ e ≤ Range.fin r) ts.
Proof.
  induction ts as [|t ts IH]; intros rest Hc; [constructor|].
  cbn [check_tensors] in Hc. case_decide as Hn; [constructor; [done|by apply IH]|].
  destruct (TensorInfo.abs_range t (sh_data_start h)) as [s e] eqn:E. case_decide; [done|].
  destruct (skip_ranges_suffix s rest) as [k Hk].
  destruct (skip_ranges s rest) as [|r l] eqn:El; [done|]. case_decide; [done|].
  assert (∀ r', r' ∈ r :: l → r' ∈ rest) as Hsub.
  { intros r' Hr'. rewrite Hk in Hr'. by apply (subseteq_drop k rest). }
  constructor.
  - intros _. rewrite E. split; [lia|]. exists r. split; [apply Hsub; by left|lia].
  - eapply Forall_impl; [by apply (IH (r :: l))|]. intros t' Ht' Hn'. specialize (Ht' Hn').
    destruct (TensorInfo.abs_range t' (sh_data_start h)). naive_solver.
Qed.

Lemma covers_something_sound {J} (h : ShardHeader J) block r ts ts' :
  covers_something h block r ts = (true, ts') →
  (∃ k, ts' = drop k ts) ∧ ∃ t, t ∈ ts ∧ TensorInfo.nbytes t ≠ 0 ∧
    let '(s, e) := TensorInfo.abs_range t (sh_data_start h) in
    floor_to s block < Range.fin r ∧ offset r < ceil_to e block.
Proof.
  induction ts as [|t ts IH]; [done|]. cbn [covers_something]. intros Hc.
  assert (covers_something h block r ts = (true, ts') → (∃ k, ts' = drop k (t :: ts))
    ∧ ∃ t', t' ∈ t :: ts ∧ TensorInfo.nbytes t' ≠ 0 ∧
      let '(s, e) := TensorInfo.abs_range t' (sh_data_start h) in
      floor_to s block < Range.fin r ∧ offset r < ceil_to e block) as Hskip.
  { intros Hc'. destruct (IH Hc') as ((k & ->) & t' & Ht' & Hp).
    split; [by exists (S k)|]. exists t'. split; [by right|done]. }
  case_decide as Hn; [by apply Hskip|].
  destruct (TensorInfo.abs_range t (sh_data_start h)) as [s e] eqn:E.
  case_decide; [by apply Hskip|]. injection Hc as Hb <-. apply bool_decide_eq_true in Hb.
  split; [by exists 0%nat|]. exists t. rewrite E. repeat split; [by left|done|done|lia].
Qed.

Lemma check_useful_sound {J} (h : ShardHeader J) block plan : ∀ ts,
  check_useful h block plan ts = None →
  Forall (λ r, ∃ t, t ∈ ts ∧ TensorInfo.nbytes t ≠ 0 ∧
    let '(s, e) := TensorInfo.abs_range t (sh_data_start h) in
    floor_to s block < Range.fin r ∧ offset r < ceil_to e block) plan.
Proof.
  induction plan as [|r plan IH]; intros ts Hc; [constructor|]. cbn [check_useful] in Hc.
  destruct (covers_something h block r ts) as [[|] ts'] eqn:E; [|done].
  apply covers_something_sound in E as [(k & ->) Ht]. constructor; [done|].
  eapply Forall_impl; [by apply (IH (drop k ts))|]. cbn. intros r' (t & Hin & Hp).
  exists t. split; [by apply (subseteq_drop k ts)|done].
Qed.

(** The safety oracle can be trusted on any header, well formed or not: when
    it has no objection, the requests are non-empty, aligned, inside the
    rounded file and disjoint, every tensor's bytes lie in one request, and
    no request is wasted. *)
Theorem check_plan_sound {J} (h : ShardHeader J) block : 1 ≤ block →
  check_plan h block = None → safe_plan h block (plan_shard h block 0).
Proof.
  intros Hb. unfold check_plan.
  destruct (first_violation (check_range _ _) _) eqn:E1; [done|].
  destruct (first_violation check_window _) eqn:E2; [done|].
  destruct (check_tensors _ _ _) eqn:E3; [done|]. intros E4.
  apply first_violation_None in E1, E2. split.
  - eapply Forall_impl; [exact E1|]. intros r. by apply check_range_None.
  - apply (windows_sorted (λ r0 r1, Range.fin r0 ≤ offset r1)).
    eapply Forall_impl; [exact E2|]. intros [r0 r1]. apply check_window_None.
  - by apply check_tensors_sound.
  - by apply check_useful_sound.
Qed.

(** ** What the generator can draw *)

(** Every result of the generator satisfies [P], whatever its state. *)
Definition always {A} (P : A → Prop) (m : gen A) : Prop := ∀ s, P (m s).1.

Lemma always_ret {A} (P : A → Prop) x : P x → always P (mret x).
Proof. by intros ? s. Qed.

Lemma always_bind {A B} (P : A → Prop) (Q : B → Prop) (m : gen A) (f : A → gen B) :
  always P m → (∀ x, P x → always Q (f x)) → always Q (m ≫= f).
Proof.
  intros Hm Hf s. specialize (Hm s). unfold mbind, gen_bind. destruct (m s) as [x s'].
  by apply Hf.
Qed.

Lemma always_below n : always (λ x, x = 0 ∨ 0 ≤ x < n) (below n).
Proof.
  unfold below. case_decide as Hn; [by left|]. apply (always_bind (λ _, True)); [done|].
  intros x _ s. right. apply Z.mod_pos_bound. lia.
Qed.

Lemma always_pick {A} `{Inhabited A} (P : A → Prop) xs :
  xs ≠ [] → Forall P xs → always P (pick xs).
Proof.
  intros Hne Hxs. unfold pick. eapply always_bind; [apply always_below|].
  intros i Hi s. cbn. rewrite Forall_forall in Hxs. apply Hxs.
  apply list_elem_of_lookup_total_2. destruct xs; [done|]. unfold len in Hi. cbn [length] in *. lia.
Qed.

Lemma always_repeat {A} (P : A → Prop) n f : (∀ i, always P (f i)) →
  ∀ i, always (λ l, length l = n ∧ Forall P l) (repeat_gen n i f).
Proof.
  intros Hf. induction n as [|n IH]; intros i; cbn [repeat_gen]; [by apply always_ret|].
  eapply always_bind; [apply Hf|]. intros x Hx. eapply always_bind; [apply IH|].
  intros l [Hl Hll]. apply always_ret. cbn. auto.
Qed.

(** ** The generated files are small *)

(** Text whose encoding takes at most [4 * n] bytes. *)
Definition text (n : Z) (s : rstr) : Prop := Forall scalar s ∧ len s ≤ n.

Definition file_of (n : Z) (l : list Z) : Prop := bytes l ∧ len l ≤ n.

Lemma len_utf8_le s : len (utf8 s) ≤ 4 * len s.
Proof.
  induction s as [|c s IH]; [done|]. rewrite utf8_cons, len_app, len_encode_char, len_cons.
  unfold len_utf8. repeat case_match; lia.
Qed.

Lemma text_app n m s t : text n s → text m t → text (n + m) (s ++ t).
Proof. intros [? ?] [? ?]. split; [by apply Forall_app_2|]. rewrite len_app. lia. Qed.

Lemma text_le n m s : text n s → n ≤ m → text m s.
Proof. intros [? ?] ?. split; [done|lia]. Qed.

Lemma text_dec n s : bool_decide (Forall scalar s) && (len s <=? n) = true → text n s.
Proof. intros [H1 H2]%andb_true_iff. split; [by eapply bool_decide_eq_true_1|lia]. Qed.

Lemma length_dec_digits fuel : ∀ n acc, (length (dec_digits fuel n acc) ≤ fuel + length acc)%nat.
Proof.
  induction fuel as [|f IH]; intros n acc; cbn [dec_digits]; [done|].
  case_match; [cbn; lia|]. etransitivity; [apply IH|]. cbn. lia.
Qed.

Lemma text_show_nat x : u64 x → text 64 (show_nat x).
Proof.
  intros Hx. split.
  - destruct (show_nat_spec x) as [Hd _]; [apply Hx|]. eapply Forall_impl; [exact Hd|].
    intros c. unfold scalar, is_digit. cbn. intros [? ?]%andb_true_iff. lia.
  - unfold show_nat, len. pose proof (length_dec_digits (S (Z.to_nat (Z.log2 x))) x []) as H.
    cbn [length] in H. assert (Z.log2 x ≤ 63); [|lia].
    destruct Hx as [H0 Hx]. unfold u64_max in Hx. destruct (Z.eq_dec x 0) as [->|]; [done|].
    apply Z.lt_succ_r, Z.log2_lt_pow2; lia.
Qed.

Lemma text_self s : bool_decide (Forall scalar s) = true → text (len s) s.
Proof. intros Hs. split; [by apply bool_decide_eq_true_1 in Hs|done]. Qed.

Lemma always_weird : always u64 (pick WEIRD_NUMBERS).
Proof. apply always_pick; [done|]. apply (bool_decide_unpack _). by vm_compute. Qed.

Lemma always_dtype : always (text 10) (pick DTYPES).
Proof.
  apply always_pick; [done|]. unfold DTYPES.
  repeat (apply Forall_cons; split; [apply text_dec; by vm_compute|]). constructor.
Qed.

(** Step through a generator: draws, tests and returns. *)
Ltac draw :=
  repeat first
    [ case_decide
    | apply always_ret
    | eapply always_bind; [apply always_below|]; intros ? ?
    | eapply always_bind; [apply always_weird|]; intros ? ? ].

Lemma always_dim : always (text 64) rand_dim.
Proof.
  unfold rand_dim. change (Z.shiftl 1 20) with 1048576.
  draw; first [apply text_show_nat; first [done|zsolve] | apply text_dec; by vm_compute].
Qed.

Lemma text_join n l : 0 ≤ n → Forall (text n) l → text ((n + 1) * len l) (join_commas l).
Proof.
  intros Hn. induction 1 as [|x l Hx Hl IH]; [split; [constructor|unfold len; cbn; lia]|].
  rewrite len_cons. destruct l as [|y l].
  { eapply text_le; [exact Hx|]. rewrite len_nil. lia. }
  change (join_commas (x :: y :: l)) with (x ++ lit "," ++ join_commas (y :: l)).
  eapply text_le; [apply text_app; [exact Hx|apply text_app; [by apply text_self|exact IH]]|].
  change (len (lit ",")) with 1. lia.
Qed.

(** A concatenation of literals and bounded pieces. *)
Ltac text_parts :=
  eapply text_le;
  [repeat first [apply text_app | eassumption | by apply text_show_nat | by apply text_self] |].

Lemma always_shape : always (text 200) rand_shape.
Proof.
  unfold rand_shape. eapply always_bind; [apply always_below|]. intros n Hn.
  eapply always_bind; [apply (always_repeat (text 64)); intros; apply always_dim|].
  intros dims [Hl Hd]. apply always_ret. apply text_join in Hd; [|lia]. cbn beta in Hn.
  text_parts. change (len (lit "[")) with 1. change (len (lit "]")) with 1. unfold len. lia.
Qed.

Lemma always_name i : u64 i → always (text 80) (rand_name i).
Proof.
  intros Hi. unfold rand_name. eapply always_bind; [apply always_below|]. intros k _.
  apply always_ret. repeat case_decide; text_parts; by vm_compute.
Qed.

Lemma always_offsets cursor : 0 ≤ cursor ≤ Z.shiftl 1 22 →
  always (λ p, u64 p.1 ∧ u64 p.2) (rand_offsets cursor).
Proof.
  change (Z.shiftl 1 22) with 4194304. intros Hc. unfold rand_offsets.
  assert (∀ n, 0 ≤ n < 4096 → u64 cursor ∧ u64 (wadd cursor n)) as Hn.
  { intros n Hn. rewrite wadd_small; zsolve. }
  draw; cbn in *; first [by split|by apply Hn; lia|zsolve].
Qed.

Lemma text_entry k name dtype shape start fin :
  text 80 name → text 10 dtype → text 200 shape → u64 start → u64 fin →
  text 500 (entry_text k name dtype shape start fin).
Proof.
  intros Hn Hd Hs Ha Hb. unfold entry_text. cbn zeta.
  repeat case_decide; text_parts; by vm_compute.
Qed.

Lemma always_entries n : ∀ i cursor, 0 ≤ i < 1000 - Z.of_nat n → 0 ≤ cursor ≤ Z.shiftl 1 22 →
  always (λ l, length l = n ∧ Forall (text 500) l) (gen_entries n i cursor).
Proof.
  induction n as [|n IH]; intros i cursor Hi Hc; cbn [gen_entries]; [by apply always_ret|].
  eapply always_bind; [apply always_name; zsolve|]. intros name Hname.
  eapply always_bind; [apply always_dtype|]. intros dtype Hdtype.
  eapply always_bind; [apply always_shape|]. intros shape Hshape.
  eapply always_bind; [by apply always_offsets|]. intros [start fin] [Hs Hf].
  eapply always_bind; [apply always_below|]. intros k _.
  eapply always_bind; [apply IH; [lia|]|].
  { change (Z.shiftl 1 22) with 4194304 in *. destruct Hf. cbn in *. lia. }
  intros rest [Hl Hr]. apply always_ret. split; [cbn; lia|].
  constructor; [by apply text_entry|done].
Qed.

Lemma always_json entries : (length entries ≤ 4)%nat → Forall (text 500) entries →
  always (text 2010) (gen_json entries).
Proof.
  intros Hl He%text_join; [|lia]. assert (text 2004 (join_commas entries)) as Hj.
  { eapply text_le; [exact He|]. unfold len. lia. }
  unfold gen_json, braces. draw; repeat case_decide; text_parts; by vm_compute.
Qed.

Lemma always_payload n : always (λ l, length l = n ∧ bytes l) (repeat_gen n 0 payload_byte).
Proof.
  apply (always_repeat (λ b, 0 ≤ b < 256)). intros i. unfold payload_byte.
  eapply always_bind; [apply always_below|]. intros b _. apply always_ret.
  apply Z.mod_pos_bound. lia.
Qed.

Lemma file_assemble n m json payload forced : text n json → file_of m payload →
  file_of (8 + 4 * n + m) (assemble json payload forced).
Proof.
  intros [Hs Hn] [Hb Hm]. unfold assemble. split.
  - apply Forall_app_2; [apply bytes_to_le_bytes|]. by apply Forall_app_2; [apply utf8_bytes|].
  - rewrite !len_app. unfold len at 1. rewrite length_to_le_bytes. pose proof (len_utf8_le json). lia.
Qed.

Lemma always_case : always (λ c, text 2010 c.1.1 ∧ file_of 65536 c.1.2) gen_case.
Proof.
  unfold gen_case. eapply always_bind; [apply always_below|]. intros n Hn. cbn beta in Hn.
  eapply always_bind; [apply always_entries; [lia|by vm_compute]|]. intros entries [Hl He].
  eapply always_bind; [apply always_json; [lia|done]|]. intros json Hj.
  eapply always_bind; [apply always_below|]. intros m Hm. cbn beta in Hm.
  eapply always_bind; [apply always_payload|]. intros payload [Hp Hb].
  change (Z.shiftl 1 16) with 65536 in Hm.
  eapply always_bind; [apply always_below|]. intros k _.
  apply (always_bind (λ _, True)); [done|]. intros forced _. apply always_ret. cbn.
  split; [done|]. split; [done|]. unfold len. lia.
Qed.

Lemma file_le n m l : file_of n l → n ≤ m → file_of m l.
Proof. intros [? ?] ?. split; [done|lia]. Qed.

Lemma lxor_byte x b : 0 ≤ x < 256 → 0 ≤ b < 8 → 0 ≤ Z.lxor x (Z.shiftl 1 b) < 256.
Proof.
  intros Hx Hb. rewrite Z.shiftl_1_l.
  assert (0 ≤ 2 ^ b < 256) by (split; [lia|]; change 256 with (2 ^ 8); apply Z.pow_lt_mono_r; lia).
  assert (∀ y, 0 ≤ y < 256 → Z.log2 y < 8) as Hlog.
  { intros y Hy. destruct (Z.eq_dec y 0) as [->|]; [done|]. apply Z.log2_lt_pow2; lia. }
  split; [apply Z.lxor_nonneg; lia|]. destruct (Z.eq_dec (Z.lxor x (2 ^ b)) 0) as [->|Hne]; [done|].
  assert (0 ≤ Z.lxor x (2 ^ b)) by (apply Z.lxor_nonneg; lia).
  change 256 with (2 ^ 8). apply Z.log2_lt_pow2; [lia|].
  pose proof (Z.log2_lxor x (2 ^ b) ltac:(lia) ltac:(lia)).
  pose proof (Hlog x Hx). pose proof (Hlog (2 ^ b) ltac:(done)). lia.
Qed.

Lemma length_delete_le {A} i (l : list A) : (length (delete i l) ≤ length l)%nat.
Proof. revert i. induction l as [|x l IH]; intros [|i]; cbn; [lia..|]. by apply le_n_S. Qed.

Lemma always_mutate_once n v : file_of n v → always (file_of (n + 1)) (mutate_once v).
Proof.
  intros [Hb Hn]. pose proof (λ i, length_delete_le i v) as Hdel.
  unfold mutate_once, file_of, bytes, len in *. draw; cbn beta in *; split.
  all: try (first [rewrite length_alter|rewrite length_insert
    |rewrite length_app, length_to_le_bytes, length_drop
    |rewrite length_app, length_cons, length_take, length_drop|rewrite length_take
    |specialize (Hdel (Z.to_nat x0))|idtac]; lia).
  all: first
    [ done
    | by apply Forall_take | by apply Forall_delete
    | apply Forall_alter; [done|]; intros y _ Hy; apply lxor_byte; [done|lia]
    | apply Forall_insert; [done|lia]
    | apply Forall_app_2; [apply bytes_to_le_bytes|by apply Forall_drop]
    | apply Forall_app_2; [by apply Forall_take|]; constructor; [lia|by apply Forall_drop] ].
Qed.

Lemma always_mutate_ops ops : ∀ n v, file_of n v →
  always (file_of (n + Z.of_nat ops)) (mutate_ops ops v).
Proof.
  induction ops as [|ops IH]; intros n v Hv; cbn [mutate_ops].
  { apply always_ret. eapply file_le; [done|lia]. }
  case_decide; [apply always_ret; eapply file_le; [done|lia]|].
  eapply always_bind; [by apply always_mutate_once|]. intros v' Hv'.
  replace (n + Z.of_nat (S ops)) with (n + 1 + Z.of_nat ops) by lia. by apply IH.
Qed.

Lemma always_mutate n v : file_of n v → always (file_of (n + 4)) (mutate v).
Proof.
  intros Hv. unfold mutate. case_decide; [apply always_ret; eapply file_le; [done|lia]|].
  eapply always_bind; [apply always_below|]. intros ops Hops s. cbn beta in Hops.
  eapply file_le; [by apply always_mutate_ops|lia].
Qed.

Lemma seed_corpus_small : Forall (file_of 5000) seed_corpus.
Proof.
  eapply Forall_impl; [apply (bool_decide_unpack (Forall (λ l, bytes l ∧ len l ≤ 5000) seed_corpus))|done].
  by vm_compute.
Qed.

Lemma always_next : always (file_of 80000) next_case.
Proof.
  assert (always (file_of 5000) (pick seed_corpus)) as Hseed
    by (apply always_pick; [done|apply seed_corpus_small]).
  unfold next_case. eapply always_bind; [apply always_below|]. intros k _.
  case_decide; [|case_decide; [|case_decide]].
  - eapply always_bind; [apply always_case|]. intros [[json payload] forced] [Hj Hp].
    apply always_ret. eapply file_le; [by eapply file_assemble|lia].
  - eapply always_bind; [exact Hseed|]. intros base Hb s.
    eapply file_le; [by apply always_mutate|lia].
  - intros s. eapply file_le; [apply Hseed|lia].
  - eapply always_bind; [apply always_below|]. intros j _. case_decide.
    + eapply always_bind; [apply always_below|]. intros n Hn s. cbn beta in Hn.
      destruct (always_repeat (λ b, 0 ≤ b < 256) (Z.to_nat n) (λ _, below 256)
        ltac:(intros i s'; destruct (always_below 256 s'); lia) 0 s) as [Hl Hb].
      split; [done|]. unfold len. lia.
    + eapply always_bind; [apply always_below|]. intros n Hn. cbn beta in Hn.
      eapply always_bind.
      { apply (always_repeat (λ c, 32 ≤ c < 127)). intros i. eapply always_bind; [apply always_below|].
        intros b Hb. apply always_ret. cbn beta in Hb. lia. }
      intros s [Hl Hs]. apply always_ret.
      eapply file_le; [apply (file_assemble 256 32)|lia].
      * split; [eapply Forall_impl; [exact Hs|]; unfold scalar; intros; cbn in *; lia|unfold len; lia].
      * split; [by apply Forall_replicate|]. by vm_compute.
Qed.

(** ** A run reports no failure *)

Section run.
Context `{SerdeJsonLaws J} (read_files : list Z → list (nat * Range) → bool).

(** What a case does: the header decides, and the oracle never objects. *)
Lemma run_case_ok bytes do_read : file_of 80000 bytes →
  ∃ parsed read_ok, run_case (J:=J) read_files bytes 4096 do_read = Ok (parsed, read_ok)
    ∧ (read_ok = true → parsed = true).
Proof.
  intros [Hb Hl]. unfold run_case.
  destruct (read_header bytes) as [h|e] eqn:Hr; [|by exists false, false].
  assert (u64 (len bytes)) as Hu by zsolve.
  destruct (read_header_sound bytes h Hb Hu Hr) as (Hwf & Hfs & _).
  rewrite check_plan_accepts; [|done|split; [done|rewrite Hfs; unfold u64_max; lia]].
  case_match; eauto.
Qed.

(** The counters of a report, with no failure among them. *)
Definition consistent (n : nat) (r : FuzzReport) : Prop :=
  iterations r = n ∧ (parsed_ok r + rejected r = n)%nat ∧ (reads_executed r ≤ parsed_ok r)%nat
  ∧ panics r = [] ∧ invariant_failures r = [].

Lemma record_case_consistent n i bytes parsed read_ok r :
  (read_ok = true → parsed = true) → consistent n r →
  consistent (S n) (record_case i bytes (Ok (parsed, read_ok)) r).
Proof.
  intros Hi (Hn & Hs & Hr & Hp & Hv). destruct r. cbn in *. unfold consistent. cbn.
  destruct parsed, read_ok; try (by specialize (Hi eq_refl)); repeat split; (done || lia).
Qed.

Lemma run_loop_consistent do_reads n : ∀ i rng m r, consistent m r →
  consistent (m + n) (run_loop (J:=J) read_files n i do_reads rng r).
Proof.
  induction n as [|n IH]; intros i rng m r Hr; cbn [run_loop]; [by rewrite Nat.add_0_r|].
  pose proof (always_next rng) as Hf. destruct (next_case rng) as [bytes rng'].
  destruct (run_case_ok bytes do_reads Hf) as (parsed & read_ok & -> & Hi).
  rewrite <- Nat.add_succ_comm. by apply IH, record_case_consistent.
Qed.

(** C20. The fuzzer cannot fail: whatever the seed, the number of iterations
    and the outcome of the reads, no case panics and no plan violates the
    safety oracle; every case is counted as parsed or rejected, and only
    parsed ones are read. *)
Theorem fuzz_run_ok n seed do_reads :
  let r := run (J:=J) read_files n seed do_reads in
  report_ok r = true ∧ iterations r = n ∧ (parsed_ok r + rejected r = n)%nat
  ∧ (reads_executed r ≤ parsed_ok r)%nat.
Proof.
  assert (consistent n (run (J:=J) read_files n seed do_reads)) as (? & ? & ? & Hp & Hi).
  { unfold run. apply (run_loop_consistent do_reads n 0 _ 0). repeat split; cbn; lia. }
  cbn zeta. unfold report_ok. by rewrite Hp, Hi.
Qed.
End run.

(** ** The generator never gets stuck *)

Lemma testbit_wrap64 x i : 0 ≤ i → Z.testbit (wrap64 x) i = (i <? 64) && Z.testbit x i.
Proof.
  intros Hi. unfold wrap64. destruct (Z.ltb_spec i 64).
  - by rewrite Z.mod_pow2_bits_low.
  - rewrite Z.mod_pow2_bits_high; [done|lia].
Qed.

(** A number that equals its own shift is zero: each bit repeats the one [k]
    places away, and the chain leaves the word. *)
Lemma xor_shift_left_zero x k : 0 ≤ x < 2 ^ 64 → 0 < k →
  Z.lxor x (wrap64 (Z.shiftl x k)) = 0 → x = 0.
Proof.
  intros Hx Hk He%Z.lxor_eq. apply Z.bits_inj'. intros i Hi. rewrite Z.bits_0.
  revert i Hi. apply (Z_lt_induction (λ i, Z.testbit x i = false)). intros i IH.
  destruct (Z.le_gt_cases 0 i) as [Hi|]; [|by apply Z.testbit_neg_r].
  rewrite He, testbit_wrap64 by done. destruct (Z.ltb_spec i 64); [|done]. cbn [andb].
  destruct (Z.le_gt_cases k i); [|by rewrite Z.shiftl_spec_low].
  rewrite Z.shiftl_spec by done. apply IH; lia.
Qed.

Lemma xor_shift_right_zero x k : 0 ≤ x → 0 < k → Z.lxor x (Z.shiftr x k) = 0 → x = 0.
Proof.
  intros Hx Hk He%Z.lxor_eq. destruct (Z.eq_dec x 0) as [|Hne]; [done|].
  rewrite Z.shiftr_div_pow2 in He by lia.
  pose proof (Z.pow_gt_1 2 k ltac:(lia)) as [Hp _]. specialize (Hp ltac:(lia)).
  pose proof (Z.div_lt x (2 ^ k) ltac:(lia) ltac:(lia)). lia.
Qed.

Lemma lxor_word x y : 0 ≤ x < 2 ^ 64 → 0 ≤ y < 2 ^ 64 → 0 ≤ Z.lxor x y < 2 ^ 64.
Proof.
  intros Hx Hy. split; [apply Z.lxor_nonneg; lia|].
  assert (Z.lxor x y = Z.lxor x y mod 2 ^ 64) as ->.
  { apply Z.bits_inj'. intros i Hi. destruct (Z.lt_ge_cases i 64).
    - by rewrite Z.mod_pow2_bits_low.
    - rewrite Z.mod_pow2_bits_high by lia. rewrite Z.lxor_spec.
      rewrite <- (Z.mod_small x (2 ^ 64)), <- (Z.mod_small y (2 ^ 64)) by done.
      by rewrite !Z.mod_pow2_bits_high by lia. }
  apply Z.mod_pos_bound. lia.
Qed.

(** The state of the generator is a non-zero word and stays one: xorshift
    would never leave zero, and the forced low bit of the seed keeps it out. *)
Theorem rng_never_zero seed : u64 seed →
  (0 < Rng.new seed < 2 ^ 64) ∧
  ∀ s, 0 < s < 2 ^ 64 → 0 < (next_u64 s).2 < 2 ^ 64.
Proof.
  intros Hs. split.
  - unfold u64, u64_max in Hs. unfold Rng.new. rewrite Z.lor_comm.
    assert (Z.lor 1 seed ≠ 0) by (intros [? ?]%Z.lor_eq_0_iff; lia).
    assert (0 ≤ Z.lor 1 seed) by (apply Z.lor_nonneg; lia).
    split; [lia|]. apply Z.log2_lt_pow2; [lia|]. rewrite Z.log2_lor by lia.
    change (Z.log2 1) with 0. destruct (Z.eq_dec seed 0) as [->|]; [done|].
    assert (Z.log2 seed < 64) by (apply Z.log2_lt_pow2; lia). lia.
  - intros s Hs'. unfold next_u64. cbn [snd].
    set (a := Z.lxor s (wrap64 (Z.shiftl s 13))).
    assert (∀ z, 0 ≤ wrap64 z < 2 ^ 64) as Hw by (intros; apply Z.mod_pos_bound; lia).
    assert (0 ≤ a < 2 ^ 64) as Ha by (apply lxor_word; [lia|apply Hw]).
    assert (a ≠ 0) by (intros Hc; apply xor_shift_left_zero in Hc; lia).
    set (b := Z.lxor a (Z.shiftr a 7)).
    assert (0 ≤ Z.shiftr a 7 < 2 ^ 64) as Hsr.
    { rewrite Z.shiftr_div_pow2 by lia. pose proof (Z.div_le_upper_bound a (2 ^ 7) a ltac:(lia) ltac:(lia)).
      pose proof (Z.div_pos a (2 ^ 7) ltac:(lia) ltac:(lia)). lia. }
    assert (0 ≤ b < 2 ^ 64) as Hb by (apply lxor_word; [lia|done]).
    assert (b ≠ 0) by (intros Hc; apply xor_shift_right_zero in Hc; lia).
    assert (0 ≤ Z.lxor b (wrap64 (Z.shiftl b 17)) < 2 ^ 64) by (apply lxor_word; [lia|apply Hw]).
    assert (Z.lxor b (wrap64 (Z.shiftl b 17)) ≠ 0)
      by (intros Hc; apply xor_shift_left_zero in Hc; lia).
    lia.
Qed.

(** ** Concrete inputs *)

Lemma fuzz_run_ok_witness :
  report_ok (run (J:=Value) (λ _ _, true) 1000 42 true) = true.
Proof. apply (fuzz_run_ok (λ _ _, true) 1000 42 true). Defined.

(** The seeds parse, pass the oracle and are read. *)
Lemma seeds_pass : (λ b, run_case (J:=Value) (λ _ _, true) b 4096 true) <$> seed_corpus
  = replicate 5 (Ok (true, true)).
Proof. by vm_compute. Qed.

(** The name table of the generator says that [F8_E4M3] and [F8_E5M2] are
    not in the loader's table; they are. *)
Lemma fp8_is_known : is_Some (Dtype.parse (lit "F8_E4M3")) ∧ is_Some (Dtype.parse (lit "F8_E5M2")).
Proof. split; eexists; by vm_compute. Qed.

Lemma rng_never_zero_witness : ∀ s, 0 < s < 2 ^ 64 → 0 < (next_u64 s).2 < 2 ^ 64.
Proof. apply (rng_never_zero 42). by vm_compute. Defined.

Lemma check_plan_sound_witness : safe_plan demo_header 16 (plan_shard demo_header 16 0).
Proof. apply (check_plan_sound demo_header 16); [done|by vm_compute]. Defined.
