(* ===== verification/Reader.v ===== *)
(** * stloader: the read engine

    Models rust-qwen-engine/crates/stloader/src/reader.rs.  The pure parts
    (plan validation, chunking, the verification read) are functions.  The
    completion loop talks to the kernel, so it is a step relation: the kernel
    may complete any requests it holds, in any order and in batches, may
    interrupt the wait, and may fail. *)

From S2P Require Import Prelude Float Plan.

Record ReadConfig := mkReadConfig {
  depth : Z;
  chunk_bytes : Z;
  direct : bool;
  cfg_block : Z;
}.

Definition ReadConfig_default : ReadConfig := mkReadConfig 32 (Z.shiftl 1 20) true 4096.

Record ReadStats := mkReadStats {
  bytes : Z;
  requests : Z;
  short_reads : Z;
}.
Definition ReadStats_default : ReadStats := mkReadStats 0 0 0.

Definition gib (st : ReadStats) : f64 := F64.div (F64.of_Z (bytes st)) (F64.of_Z (2 ^ 30)).

(** The elapsed time is the clock's. *)
Definition gbps (st : ReadStats) (seconds : f64) : f64 :=
  if SFltb fzero seconds
  then F64.div (F64.div (F64.of_Z (bytes st)) (F64.of_Z (10 ^ 9))) seconds
  else fzero.

Inductive io_error :=
| PlanReferencesShard (fi : nat) (files : nat)
| ZeroLengthRange (off : Z)
| Os (errno : Z)
| UnexpectedEofError (wanted at_ got : Z).

(** ** Validation and chunking *)

(** The checks before anything is opened. *)
Fixpoint validate_plan (nfiles : nat) (plan : list (nat * Range)) : result io_error unit :=
  match plan with
  | [] => Ok tt
  | (fi, r) :: plan' =>
      if decide (nfiles ≤ fi)%nat then Err (PlanReferencesShard fi nfiles)
      else if decide (rlen r = 0) then Err (ZeroLengthRange (offset r))
      else validate_plan nfiles plan'
  end.

Definition chunk_of (cfg : ReadConfig) : Z :=
  ceil_to (((chunk_bytes cfg) `max` (cfg_block cfg)) `max` 1) (cfg_block cfg `max` 1).

Record Job := mkJob { job_file : nat; job_off : Z; job_len : Z }.

(** The [while off < end] loop for one range.  Every round but the last
    advances by [chunk], so the rounds are bounded by the number of chunks. *)
Fixpoint expand_range (fuel : nat) (chunk block : Z) (fi : nat) (off fin : Z) : list Job :=
  match fuel with
  | O => []
  | S fuel =>
      if decide (off < fin) then
        let want := chunk `min` (fin - off) in
        mkJob fi off (ceil_to want block) :: expand_range fuel chunk block fi (off + want) fin
      else []
  end.

Definition expand (chunk block : Z) (p : nat * Range) : list Job :=
  let '(fi, r) := p in
  let fin := wadd (offset r) (rlen r) in
  expand_range (Z.to_nat (div_ceil (fin - offset r) chunk)) chunk block fi (offset r) fin.

Definition jobs_of (cfg : ReadConfig) (plan : list (nat * Range)) : list Job :=
  plan ≫= expand (chunk_of cfg) (cfg_block cfg `max` 1).

(** ** The completion loop *)

(** A submission queue entry: buffer slot, file, offset and the [u32] length. *)
Record Sqe := mkSqe { user_data : nat; sqe_file : nat; sqe_off : Z; sqe_len : Z }.

Inductive Phase := Fill | Wait | Reap | Finished | Failed (errno : Z).

Record Engine := mkEngine {
  phase : Phase;
  next : nat;                  (* jobs handed out so far *)
  free : list nat;             (* the free-slot stack, top last *)
  expect : list Z;             (* per slot, the length asked for *)
  inflight : Z;
  sq : list Sqe;               (* pushed, not yet submitted *)
  kernel : list Sqe;           (* submitted, owned by the kernel *)
  cq : list (Sqe * Z);         (* completions being reaped, with their results *)
  stats : ReadStats;
  reaped : list (Sqe * Z);     (* history: every completion accounted for *)
}.

Definition next_power_of_two (n : Z) : Z := 2 ^ Z.log2_up n.

Definition depth_of (cfg : ReadConfig) : nat := Z.to_nat (depth cfg `max` 1).
Definition entries (cfg : ReadConfig) : Z := next_power_of_two (depth cfg `max` 1) `max` 2.

Definition initial (cfg : ReadConfig) : Engine :=
  mkEngine Fill 0 (reverse (seq 0 (depth_of cfg))) (replicate (depth_of cfg) 0) 0 [] [] []
    ReadStats_default [].

Definition sqe_of (slot : nat) (j : Job) : Sqe :=
  mkSqe slot (job_file j) (job_off j) (wrap32 (job_len j)).

(** The guard of the fill loop. *)
Definition can_push (cfg : ReadConfig) (jobs : list Job) (s : Engine) : Prop :=
  (next s < length jobs)%nat ∧ free s ≠ [] ∧ len (sq s) < entries cfg.

(** One completion: [for cqe in cq.by_ref()]. *)
Definition reap_one (s : Engine) (e : Sqe) (res : Z) (cq' : list (Sqe * Z)) : Engine :=
  let short := if decide (res < expect s !!! user_data e) then 1 else 0 in
  mkEngine Reap (next s) (free s ++ [user_data e]) (expect s) (inflight s - 1) (sq s) (kernel s) cq'
    (mkReadStats (bytes (stats s) + res) (requests (stats s) + 1) (short_reads (stats s) + short))
    (reaped s ++ [(e, res)]).

Definition with_phase (p : Phase) (s : Engine) : Engine :=
  mkEngine p (next s) (free s) (expect s) (inflight s) (sq s) (kernel s) (cq s) (stats s) (reaped s).

Inductive label := Internal | Interrupted.

Inductive step (cfg : ReadConfig) (jobs : list Job) : label → Engine → Engine → Prop :=
| step_push s slot fr j :
    phase s = Fill → can_push cfg jobs s → free s = fr ++ [slot] → jobs !! next s = Some j →
    step cfg jobs Internal s
      (mkEngine Fill (S (next s)) fr (<[slot := job_len j]> (expect s)) (inflight s + 1)
         (sq s ++ [sqe_of slot j]) (kernel s) (cq s) (stats s) (reaped s))
| step_drained s :
    phase s = Fill → ¬ can_push cfg jobs s → inflight s = 0 →
    step cfg jobs Internal s (with_phase Finished s)
| step_wait s :
    phase s = Fill → ¬ can_push cfg jobs s → inflight s ≠ 0 →
    step cfg jobs Internal s (with_phase Wait s)
(* [EINTR]: the kernel may already have taken some of the entries *)
| step_interrupted s taken left_ :
    phase s = Wait → sq s = taken ++ left_ →
    step cfg jobs Interrupted s
      (mkEngine Wait (next s) (free s) (expect s) (inflight s) left_ (kernel s ++ taken)
         (cq s) (stats s) (reaped s))
| step_submit_error s errno :
    phase s = Wait → step cfg jobs Internal s (with_phase (Failed errno) s)
(* at least one completion, in any order *)
| step_completions s batch kernel' :
    phase s = Wait → batch ≠ [] → kernel s ++ sq s ≡ₚ batch.*1 ++ kernel' →
    step cfg jobs Internal s
      (mkEngine Reap (next s) (free s) (expect s) (inflight s) [] kernel' batch
         (stats s) (reaped s))
| step_reap s e res cq' :
    phase s = Reap → cq s = (e, res) :: cq' → 0 ≤ res →
    step cfg jobs Internal s (reap_one s e res cq')
| step_read_error s e res cq' :
    phase s = Reap → cq s = (e, res) :: cq' → res < 0 →
    step cfg jobs Internal s (with_phase (Failed (- res)) s)
| step_reaped_all s :
    phase s = Reap → cq s = [] → step cfg jobs Internal s (with_phase Fill s).

Inductive reachable (cfg : ReadConfig) (jobs : list Job) : Engine → Prop :=
| reach_initial : reachable cfg jobs (initial cfg)
| reach_step l s s' : reachable cfg jobs s → step cfg jobs l s s' → reachable cfg jobs s'.

(** [read_files]: [opened i] is the [errno] of opening file [i] with the
    configured flags, if any, and [ring n] that of [IoUring::new(n)]. *)
Inductive read_files (nfiles : nat) (opened : nat → option Z) (ring : Z → option Z)
    (plan : list (nat * Range)) (cfg : ReadConfig) : result io_error ReadStats → Prop :=
| read_invalid e :
    validate_plan nfiles plan = Err e → read_files nfiles opened ring plan cfg (Err e)
| read_empty : plan = [] → read_files nfiles opened ring plan cfg (Ok ReadStats_default)
| read_open_error i e :
    validate_plan nfiles plan = Ok tt → plan ≠ [] → (i < nfiles)%nat → opened i = Some e →
    (∀ k, (k < i)%nat → opened k = None) → read_files nfiles opened ring plan cfg (Err (Os e))
| read_ring_error e :
    validate_plan nfiles plan = Ok tt → plan ≠ [] → (∀ i, (i < nfiles)%nat → opened i = None) →
    ring (wrap32 (entries cfg)) = Some e → read_files nfiles opened ring plan cfg (Err (Os e))
| read_done s :
    validate_plan nfiles plan = Ok tt → plan ≠ [] → (∀ i, (i < nfiles)%nat → opened i = None) →
    ring (wrap32 (entries cfg)) = None →
    reachable cfg (jobs_of cfg plan) s → phase s = Finished →
    read_files nfiles opened ring plan cfg (Ok (stats s))
| read_failed s e :
    validate_plan nfiles plan = Ok tt → plan ≠ [] → (∀ i, (i < nfiles)%nat → opened i = None) →
    ring (wrap32 (entries cfg)) = None →
    reachable cfg (jobs_of cfg plan) s → phase s = Failed e →
    read_files nfiles opened ring plan cfg (Err (Os e)).

(** ** The verification read *)

(** [pread] call number [k], at most [n] bytes at [off]: the bytes, or errno. *)
Abbreviation pread_oracle := (nat → Z → Z → result Z (list Z)).

Section read_small.
Variable pread : pread_oracle.

(** The [while done < total] loop; [None] when the fuel runs out. *)
Fixpoint read_loop (fuel : nat) (k : nat) (a0 total : Z) (buf : list Z) :
    option (result io_error (list Z)) :=
  match fuel with
  | O => None
  | S fuel =>
      if decide (len buf < total) then
        match pread k (total - len buf) (a0 + len buf) with
        | Err errno => Some (Err (Os errno))
        | Ok [] => Some (Ok buf)
        | Ok bs => read_loop fuel (S k) a0 total (buf ++ bs)
        end
      else Some (Ok buf)
  end.

(** [buf] is what the calls delivered; the code's buffer has [total] bytes of
    which these are the first. *)
Definition read_small_range (offset len_ block : Z) : option (result io_error (list Z)) :=
  let block := block `max` 1 in
  let a0 := floor_to offset block in
  let pad := offset - a0 in
  let total := ceil_to (pad + len_) block in
  r ← read_loop (S (Z.to_nat total)) 0 a0 total [];
  Some (buf ← r;
        if decide (len buf < pad + len_)
        then Err (UnexpectedEofError len_ offset (saturating_sub (len buf) pad))
        else Ok (slice buf pad (pad + len_))).
End read_small.
