(* ===== verification/ReaderProps.v ===== *)
(** * Correctness of the read engine

    Chunking covers the plan; buffer slots are never shared; a finished run
    has performed every job once and its statistics are exact; runs terminate
    and do not get stuck; the verification read returns the file's bytes. *)

From S2P Require Import Prelude Plan Reader.

(** ** Chunking *)

(** Consecutive jobs that read [off, fin) of file [fi] in block-aligned pieces. *)
Fixpoint tiles (chunk block : Z) (fi : nat) (off fin : Z) (js : list Job) : Prop :=
  match js with
  | [] => off = fin
  | j :: js =>
      job_file j = fi ∧ job_off j = off ∧ aligned block (job_off j) ∧ aligned block (job_len j)
      ∧ 0 < job_len j ≤ chunk
      ∧ ∃ want, 0 < want ≤ job_len j ∧ want ≤ fin - off
          ∧ tiles chunk block fi (off + want) fin js
  end.

Lemma aligned_add b x y : aligned b x → aligned b y → aligned b (x + y).
Proof. unfold aligned. intros Hx Hy. rewrite Zplus_mod, Hx, Hy. done. Qed.

Lemma ceil_to_aligned x b : 1 ≤ b → 0 ≤ x → aligned b x → x + b ≤ u64_max → ceil_to x b = x.
Proof.
  intros Hb Hx Ha Hm. pose proof (ceil_to_spec x b Hx Hb Hm) as [[H1 _] _].
  pose proof (aligned_le_ceil b x x Hb Ha). lia.
Qed.

Lemma expand_range_tiles chunk block fi fuel : ∀ off fin,
  1 ≤ block → aligned block chunk → block ≤ chunk → chunk + block ≤ u64_max →
  aligned block off → 0 ≤ off ≤ fin → fin - off ≤ Z.of_nat fuel * chunk →
  tiles chunk block fi off fin (expand_range fuel chunk block fi off fin).
Proof.
  induction fuel as [|fuel IH]; intros off fin Hb Hac Hc Hm Ha Hof Hf; cbn [expand_range tiles]; [lia|].
  case_decide; cbn [tiles job_file job_off job_len]; [|lia].
  set (want := chunk `min` (fin - off)).
  assert (0 < want ≤ chunk ∧ want ≤ fin - off) as [Hw1 Hw2] by lia.
  destruct (ceil_to_spec want block) as [[Hc1 Hc2] Hc3]; [lia..|].
  assert (ceil_to want block ≤ chunk) as Hc4 by (apply aligned_le_ceil; (done || lia)).
  do 4 (split; [done|]). split; [lia|]. exists want. split; [lia|]. split; [lia|].
  destruct (Z.min_spec chunk (fin - off)) as [[Hlt E]|[Hge E]]; fold want in E.
  - apply IH; try done; [rewrite E; by apply aligned_add|lia|].
    rewrite E. rewrite Nat2Z.inj_succ in Hf. lia.
  - rewrite E. replace (off + (fin - off)) with fin by lia.
    destruct fuel; cbn [expand_range tiles]; [done|]. by rewrite decide_False by lia.
Qed.

(** Sane engine parameters: nothing saturates or is truncated to [u32]. *)
Definition sane (cfg : ReadConfig) : Prop :=
  1 ≤ cfg_block cfg ∧ 0 ≤ chunk_bytes cfg
  ∧ chunk_bytes cfg + cfg_block cfg < 2 ^ 32 ∧ 2 * cfg_block cfg < 2 ^ 32.

Lemma chunk_of_spec cfg : sane cfg →
  aligned (cfg_block cfg) (chunk_of cfg) ∧ cfg_block cfg ≤ chunk_of cfg < 2 ^ 32
  ∧ chunk_bytes cfg ≤ chunk_of cfg.
Proof.
  intros (Hb & Hc & H1 & H2). unfold chunk_of. rewrite (Z.max_l (cfg_block cfg)) by lia.
  destruct (ceil_to_spec ((chunk_bytes cfg `max` cfg_block cfg) `max` 1) (cfg_block cfg))
    as [[Ha1 Ha2] Ha3]; [lia|lia|unfold u64_max; lia|].
  split; [done|]. lia.
Qed.

Lemma expand_tiles cfg fi r : sane cfg →
  0 ≤ offset r → aligned (cfg_block cfg) (offset r) → 0 ≤ rlen r →
  offset r + rlen r ≤ u64_max →
  tiles (chunk_of cfg) (cfg_block cfg) fi (offset r) (offset r + rlen r)
    (expand (chunk_of cfg) (cfg_block cfg `max` 1) (fi, r)).
Proof.
  intros Hs H0 Ha Hl Hm. pose proof (chunk_of_spec cfg Hs) as (Hc1 & Hc2 & _).
  destruct Hs as (Hb & _). unfold expand. rewrite Z.max_l, wadd_small by (try unfold u64; lia).
  pose proof (div_ceil_spec (offset r + rlen r - offset r) (chunk_of cfg) ltac:(lia)).
  pose proof (div_ceil_nonneg (offset r + rlen r - offset r) (chunk_of cfg) ltac:(lia) ltac:(lia)).
  apply expand_range_tiles; try done; rewrite ?Z2Nat.id by done; unfold u64_max in *; lia.
Qed.

Lemma expand_range_len chunk block fi fin j fuel : 1 ≤ block → 0 ≤ chunk → ∀ off,
  j ∈ expand_range fuel chunk block fi off fin → 0 ≤ job_len j ≤ ceil_to chunk block.
Proof.
  intros Hb Hch. induction fuel as [|fuel IH]; intros off; cbn [expand_range].
  - intros H. by apply not_elem_of_nil in H.
  - case_decide; [|intros H'; by apply not_elem_of_nil in H'].
    intros [->|Hj]%elem_of_cons; [|by apply (IH _ Hj)]. cbn [job_len].
    unfold ceil_to, saturating_mul. rewrite Z.max_l by lia.
    assert (div_ceil (chunk `min` (fin - off)) block ≤ div_ceil chunk block) by (apply div_ceil_mono; lia).
    pose proof (div_ceil_nonneg (chunk `min` (fin - off)) block ltac:(lia) ltac:(lia)).
    unfold u64_max. nia.
Qed.

(** Every job fits the buffer of its slot. *)
Lemma jobs_fit cfg plan j : sane cfg → j ∈ jobs_of cfg plan → 0 ≤ job_len j ≤ chunk_of cfg.
Proof.
  intros Hs. pose proof (chunk_of_spec cfg Hs) as (Ha & Hc & _). destruct Hs as (Hb & _ & H1 & H2).
  unfold jobs_of. rewrite Z.max_l by lia. rewrite list_elem_of_bind.
  intros ([fi r] & Hj & _). apply expand_range_len in Hj; [|lia..].
  rewrite ceil_to_aligned in Hj; [done|lia|lia|done|unfold u64_max; lia].
Qed.

(** ** The engine invariant *)

(** Requests that own a buffer: unreaped, in the kernel, or queued. *)
Definition owned (s : Engine) : list Sqe := (cq s).*1 ++ kernel s ++ sq s.

Definition key (e : Sqe) : nat * Z * Z := (sqe_file e, sqe_off e, sqe_len e).
Definition job_key (j : Job) : nat * Z * Z := (job_file j, job_off j, wrap32 (job_len j)).

Definition short_count (h : list (Sqe * Z)) : Z := len (filter (λ p, p.2 < sqe_len p.1) h).

Record inv (cfg : ReadConfig) (jobs : list Job) (s : Engine) : Prop := {
  inv_slots : (user_data <$> owned s) ++ free s ≡ₚ seq 0 (depth_of cfg);
  inv_inflight : inflight s = len (owned s);
  inv_next : (next s ≤ length jobs)%nat;
  inv_jobs : (key <$> (reaped s).*1 ++ owned s) ≡ₚ job_key <$> take (next s) jobs;
  inv_expect_len : length (expect s) = depth_of cfg;
  inv_expect : ∀ e, e ∈ owned s → ∃ j, j ∈ jobs ∧ e = sqe_of (user_data e) j
                 ∧ expect s !! user_data e = Some (job_len j);
  inv_cq : match phase s with Reap | Failed _ => True | _ => cq s = [] end;
  inv_wait : phase s = Wait → inflight s ≠ 0;
  inv_finished : phase s = Finished → inflight s = 0 ∧ ¬ can_push cfg jobs s;
  inv_bytes : bytes (stats s) = zsum (reaped s).*2;
  inv_requests : requests (stats s) = len (reaped s);
  inv_short : Forall (λ j, 0 ≤ job_len j < 2 ^ 32) jobs →
              short_reads (stats s) = short_count (reaped s);
}.

Lemma inv_transfer cfg jobs s s' :
  inv cfg jobs s → owned s ≡ₚ owned s' → free s = free s' → inflight s = inflight s' →
  next s = next s' → expect s = expect s' → stats s = stats s' → reaped s = reaped s' →
  match phase s' with Reap | Failed _ => True | _ => cq s' = [] end →
  (phase s' = Wait → inflight s' ≠ 0) →
  (phase s' = Finished → inflight s' = 0 ∧ ¬ can_push cfg jobs s') →
  inv cfg jobs s'.
Proof.
  intros [I1 I2 I3 I4 I5 I6 _ _ _ I9 I10 I11] Ho Hf Hi Hn He Hst Hr Hc Hw Hfin.
  split; rewrite <- ?Hf, <- ?Hi, <- ?Hn, <- ?He, <- ?Hst, <- ?Hr; try done.
  - by rewrite <- Ho.
  - rewrite I2. unfold len. by rewrite Ho.
  - by rewrite <- Ho.
  - intros e Hin. apply I6. by rewrite Ho.
  - by rewrite Hi.
  - by rewrite Hi.
Qed.

Lemma inv_initial cfg jobs : inv cfg jobs (initial cfg).
Proof.
  split; cbn; try done; try lia.
  - by rewrite reverse_Permutation.
  - apply length_replicate.
  - intros e He. by apply not_elem_of_nil in He.
Qed.

Lemma short_count_snoc h e res :
  short_count (h ++ [(e, res)]) = short_count h + (if decide (res < sqe_len e) then 1 else 0).
Proof.
  unfold short_count. rewrite filter_app, len_app, filter_cons. cbn [fst snd].
  by case_decide.
Qed.

Lemma step_inv cfg jobs l s s' : inv cfg jobs s → step cfg jobs l s s' → inv cfg jobs s'.
Proof.
  intros Hi Hstep. destruct Hstep as
    [s slot fr j Hp Hcan Hfree Hj|s Hp Hn H0|s Hp Hn H0|s taken left_ Hp Hsq|s errno Hp
    |s batch kernel' Hp Hne Hperm|s e res cq' Hp Hcq Hres|s e res cq' Hp Hcq Hres|s Hp Hcq].
  - destruct Hi as [I1 I2 I3 I4 I5 I6 I7 _ _ I9 I10 I11]. rewrite Hp in I7.
    pose proof (lookup_lt_Some _ _ _ Hj) as Hlt.
    assert (owned (mkEngine Fill (S (next s)) fr (<[slot := job_len j]> (expect s)) (inflight s + 1)
         (sq s ++ [sqe_of slot j]) (kernel s) (cq s) (stats s) (reaped s)) = owned s ++ [sqe_of slot j]) as Ho.
    { unfold owned. cbn. by rewrite !app_assoc. }
    assert (slot ∉ user_data <$> owned s) as Hfresh.
    { rewrite Hfree in I1. assert (NoDup ((user_data <$> owned s) ++ fr ++ [slot])) as Hd.
      { rewrite I1. apply NoDup_seq. }
      apply NoDup_app in Hd as (_ & Hd & _). intros Hin. apply (Hd _ Hin). set_solver. }
    split; rewrite ?Ho; cbn [free inflight next expect phase cq stats reaped].
    + rewrite fmap_app. cbn. rewrite <- app_assoc, (Permutation_app_comm _ fr), <- I1, Hfree.
      by rewrite app_assoc.
    + rewrite I2, len_app. done.
    + lia.
    + rewrite (take_S_r _ _ j) by done. rewrite app_assoc, !fmap_app, <- I4, fmap_app. done.
    + by rewrite length_insert.
    + intros e [He|E%list_elem_of_singleton]%elem_of_app; [|subst e].
      * destruct (I6 e He) as (j' & Hj' & Ee & Hx). exists j'. split; [done|]. split; [done|].
        rewrite list_lookup_insert_ne; [done|]. intros E. apply Hfresh. rewrite E.
        apply list_elem_of_fmap. by exists e.
      * exists j. split; [by eapply list_elem_of_lookup_2|]. split; [done|]. cbn.
        apply list_lookup_insert_eq. rewrite I5.
        assert (slot ∈ seq 0 (depth_of cfg)) as Hs by (rewrite <- I1, Hfree; set_solver).
        apply elem_of_seq in Hs. lia.
    + done.
    + done.
    + done.
    + done.
    + done.
    + done.
  - eapply inv_transfer; [exact Hi|done..| |done|done]. pose proof (inv_cq _ _ _ Hi) as Hc. by rewrite Hp in Hc.
  - eapply inv_transfer; [exact Hi|done..| |done|done]. pose proof (inv_cq _ _ _ Hi) as Hc. by rewrite Hp in Hc.
  - pose proof (inv_cq _ _ _ Hi) as Hc. rewrite Hp in Hc.
    pose proof (inv_wait _ _ _ Hi Hp).
    eapply inv_transfer; [exact Hi| |done..]. unfold owned. cbn. rewrite Hsq. by rewrite <- app_assoc.
  - eapply inv_transfer; [exact Hi|done..].
  - pose proof (inv_cq _ _ _ Hi) as Hc. rewrite Hp in Hc.
    eapply inv_transfer; [exact Hi| |done..]. unfold owned. cbn. rewrite Hc, app_nil_r. exact Hperm.
  - destruct Hi as [I1 I2 I3 I4 I5 I6 _ _ _ I9 I10 I11].
    assert (owned s = e :: owned (reap_one s e res cq')) as Ho.
    { unfold owned, reap_one. rewrite Hcq. done. }
    rewrite Ho in I1, I2, I4.
    destruct (I6 e) as (j & Hj & He & Hx); [rewrite Ho; by left|].
    split; cbn [reap_one free inflight next expect phase cq stats reaped bytes requests short_reads].
    + rewrite <- I1. cbn. rewrite (Permutation_app_comm (free s)). cbn.
      by rewrite Permutation_middle.
    + rewrite I2, len_cons. lia.
    + done.
    + rewrite <- I4, (fmap_app fst). cbn [fmap list_fmap fst]. by rewrite <- app_assoc.
    + done.
    + intros e' He'. apply I6. rewrite Ho. by right.
    + done.
    + done.
    + done.
    + rewrite fmap_app, zsum_app, I9. cbn [fmap list_fmap snd]. rewrite zsum_cons.
      change (zsum []) with 0. lia.
    + rewrite len_app, I10. done.
    + intros Hall. rewrite short_count_snoc, (I11 Hall). f_equal.
      rewrite (list_lookup_total_correct _ _ _ Hx). rewrite He. cbn [sqe_of sqe_len].
      eapply Forall_forall in Hall; [|exact Hj]. by rewrite wrap32_small.
  - eapply inv_transfer; [exact Hi|done..].
  - eapply inv_transfer; [exact Hi|done..].
Qed.

Lemma reachable_inv cfg jobs s : reachable cfg jobs s → inv cfg jobs s.
Proof. induction 1 as [|l s s' _ IH Hs]; [apply inv_initial|by eapply step_inv]. Qed.

(** ** Progress and termination *)

Definition phase_rank (s : Engine) : nat :=
  match phase s with
  | Finished | Failed _ => 0
  | Fill => 3
  | Wait => 2
  | Reap => match cq s with [] => 4 | _ => 1 end
  end.

(** Decreases with every step except an interrupted wait. *)
Definition measure (jobs : list Job) (s : Engine) : nat :=
  4 * (2 * (length jobs - next s) + length (owned s)) + phase_rank s.

Definition terminal (s : Engine) : Prop :=
  match phase s with Finished | Failed _ => True | _ => False end.

Lemma step_measure cfg jobs s s' : inv cfg jobs s → step cfg jobs Internal s s' →
  (measure jobs s' < measure jobs s)%nat.
Proof.
  intros Hi Hs. pose proof (inv_cq _ _ _ Hi) as Hc. unfold measure, phase_rank, owned.
  inversion Hs as [? slot fr j Hp Hcan Hfree Hj|? Hp Hn H0|? Hp Hn H0| |? errno Hp
    |? batch kernel' Hp Hne Hperm|? e res cq' Hp Hcq Hres|? e res cq' Hp Hcq Hres|? Hp Hcq]; subst;
    rewrite Hp in *; cbn.
  - rewrite Hc. pose proof (lookup_lt_Some _ _ _ Hj). cbn. rewrite !length_app. cbn. lia.
  - lia.
  - lia.
  - lia.
  - rewrite Hc. apply Permutation_length in Hperm.
    cbn. rewrite !length_app, ?length_fmap in *. destruct batch; [done|]. cbn in *. lia.
  - rewrite Hcq. cbn. rewrite !length_app. destruct cq'; lia.
  - rewrite Hcq. lia.
  - rewrite Hcq. lia.
Qed.

(** A completion that is not an error. *)
Definition succeeded (c : Sqe * Z) : Prop := 0 ≤ c.2.

Lemma step_progress cfg jobs s : inv cfg jobs s → ¬ terminal s →
  (∀ e res cq', cq s = (e, res) :: cq' → 0 ≤ res) →
  ∃ s', step cfg jobs Internal s s' ∧ (∀ errno, phase s' ≠ Failed errno) ∧
    (Forall succeeded (cq s) → Forall succeeded (cq s')).
Proof.
  intros Hi Ht Hres. pose proof (inv_cq _ _ _ Hi) as Hc. unfold terminal in Ht.
  destruct (phase s) eqn:Hp; [| | |tauto|tauto].
  - destruct (decide ((next s < length jobs)%nat ∧ free s ≠ [] ∧ len (sq s) < entries cfg)) as [Hcan|Hn].
    + destruct (exists_last (proj1 (proj2 Hcan))) as (fr & slot & Hf).
      destruct (lookup_lt_is_Some_2 jobs (next s)) as [j Hj]; [apply Hcan|].
      eexists. split; [by eapply step_push|by split].
    + destruct (decide (inflight s = 0)); eexists;
        (split; [first [by apply step_drained|by apply step_wait]|by split]).
  - pose proof (inv_wait _ _ _ Hi Hp) as Hw. rewrite (inv_inflight _ _ _ Hi) in Hw.
    unfold owned in Hw. rewrite Hc in Hw. cbn in Hw.
    destruct (kernel s ++ sq s) as [|e l] eqn:E; [done|].
    eexists. split; [apply (step_completions _ _ _ [(e, 0)] l); [done|done|by rewrite E]|].
      split; [done|]. intros _. by repeat constructor.
  - destruct (cq s) as [|[e res] cq'] eqn:Hcq.
    + eexists. split; [by apply step_reaped_all|]. split; [done|]. intros _. cbn. rewrite Hcq. constructor.
    + eexists. split; [eapply step_reap; [done..|by eapply Hres]|]. split; [done|].
      by intros [_ Hf]%Forall_cons.
Qed.

(** With nothing in flight the fill loop only stops when every job is out. *)
Lemma drained_all cfg jobs s : inv cfg jobs s → inflight s = 0 → ¬ can_push cfg jobs s →
  owned s = [] ∧ next s = length jobs.
Proof.
  intros Hi H0 Hn. pose proof (inv_next _ _ _ Hi). pose proof (inv_slots _ _ _ Hi) as Hs.
  rewrite (inv_inflight _ _ _ Hi) in H0.
  assert (owned s = []) as Ho by (destruct (owned s) as [|e l]; [done|]; rewrite len_cons in H0; pose proof (len_nonneg l); lia).
  split; [done|]. destruct (decide (next s < length jobs)%nat); [|lia].
  exfalso. apply Hn. split; [done|]. rewrite Ho in Hs. split.
  - intros E. rewrite E in Hs. apply Permutation_length in Hs. rewrite length_seq in Hs.
    cbn in Hs. unfold depth_of in Hs. lia.
  - unfold owned in Ho. apply app_nil in Ho as [_ [_ ->]%app_nil]. unfold entries. rewrite len_nil. lia.
Qed.

Lemma finished_all cfg jobs s : reachable cfg jobs s → phase s = Finished →
  owned s = [] ∧ (key <$> (reaped s).*1) ≡ₚ (job_key <$> jobs).
Proof.
  intros Hr%reachable_inv Hp. destruct (inv_finished _ _ _ Hr Hp) as [H0 Hn].
  destruct (drained_all _ _ _ Hr H0 Hn) as [Ho Hnx].
  pose proof (inv_jobs _ _ _ Hr) as Hj. rewrite Ho, app_nil_r, Hnx, firstn_all in Hj. done.
Qed.

(** ** Properties *)

(** [read_files] rejects a plan that names a missing shard or holds an
    empty range, and nothing else, before opening any file. *)
Theorem validate_plan_spec nfiles plan :
  match validate_plan nfiles plan with
  | Ok _ => ∀ fi r, (fi, r) ∈ plan → (fi < nfiles)%nat ∧ rlen r ≠ 0
  | Err e => ∃ fi r, (fi, r) ∈ plan ∧
      (e = PlanReferencesShard fi nfiles ∧ (nfiles ≤ fi)%nat ∨ e = ZeroLengthRange (offset r) ∧ rlen r = 0)
  end.
Proof.
  induction plan as [|[fi r] plan IH]; cbn [validate_plan].
  - intros fi r Hin. by apply not_elem_of_nil in Hin.
  - case_decide; [exists fi, r; split; [left|by left]|].
    case_decide; [exists fi, r; split; [left|by right]|].
    destruct (validate_plan nfiles plan).
    + intros fi' r' [[= -> ->]|Hin]%elem_of_cons; [|by apply IH]. split; [lia|done].
    + destruct IH as (fi' & r' & Hin & Hor). exists fi', r'. split; [by right|done].
Qed.

(** Chunking covers each planned range exactly: consecutive jobs start
    where the previous one's data ended, from the first byte to the last, each
    aligned at both ends and no longer than a buffer. *)
Theorem expand_covers cfg fi r :
  sane cfg → 0 ≤ offset r → aligned (cfg_block cfg) (offset r) → 0 ≤ rlen r →
  offset r + rlen r ≤ u64_max →
  tiles (chunk_of cfg) (cfg_block cfg) fi (offset r) (offset r + rlen r)
    (expand (chunk_of cfg) (cfg_block cfg `max` 1) (fi, r)).
Proof. intros. by apply expand_tiles. Qed.

(** C24. Buffer safety: in every reachable state of the loop each buffer slot is
    either on the free list or owned by exactly one request, every request's
    slot exists, and the request is no longer than that slot's buffer. *)
Theorem engine_slots cfg plan s :
  sane cfg → reachable cfg (jobs_of cfg plan) s →
  (user_data <$> owned s) ++ free s ≡ₚ seq 0 (depth_of cfg)
  ∧ NoDup ((user_data <$> owned s) ++ free s)
  ∧ ∀ e, e ∈ owned s → (user_data e < depth_of cfg)%nat ∧ sqe_len e ≤ chunk_of cfg.
Proof.
  intros Hs Hr%reachable_inv. pose proof (inv_slots _ _ _ Hr) as Hp.
  split; [done|]. split; [rewrite Hp; apply NoDup_seq|]. intros e He. split.
  - assert (user_data e ∈ seq 0 (depth_of cfg)) as Hin; [|apply elem_of_seq in Hin; lia].
    rewrite <- Hp. apply elem_of_app. left. apply list_elem_of_fmap. by exists e.
  - destruct (inv_expect _ _ _ Hr e He) as (j & Hj & -> & _). cbn.
    pose proof (jobs_fit cfg plan j Hs Hj). pose proof (chunk_of_spec cfg Hs) as (_ & ? & _).
    rewrite wrap32_small; lia.
Qed.

(** C25. A finished run has read everything once: the completed requests are
    exactly the chunks of the plan, no buffer is outstanding, and the statistics
    are the true totals. *)
Theorem engine_complete cfg plan s :
  sane cfg → reachable cfg (jobs_of cfg plan) s → phase s = Finished →
  owned s = [] ∧ (key <$> (reaped s).*1) ≡ₚ (job_key <$> jobs_of cfg plan)
  ∧ requests (stats s) = len (jobs_of cfg plan)
  ∧ bytes (stats s) = zsum (reaped s).*2
  ∧ short_reads (stats s) = short_count (reaped s).
Proof.
  intros Hs Hr Hp. destruct (finished_all _ _ _ Hr Hp) as [Ho Hj]. apply reachable_inv in Hr.
  split; [done|]. split; [done|]. split; [|split].
  - rewrite (inv_requests _ _ _ Hr). apply Permutation_length in Hj.
    rewrite !length_fmap in Hj. unfold len. lia.
  - apply (inv_bytes _ _ _ Hr).
  - apply (inv_short _ _ _ Hr). apply Forall_forall. intros j Hin.
    pose proof (jobs_fit cfg plan j Hs Hin). pose proof (chunk_of_spec cfg Hs). lia.
Qed.

(** C26. The loop terminates and never deadlocks: apart from interrupted waits
    every step decreases a measure, and a reachable state that has not returned
    can always take a step, without failing unless a read reported an error. *)
Theorem engine_terminates cfg jobs s :
  reachable cfg jobs s →
  (∀ s', step cfg jobs Internal s s' → (measure jobs s' < measure jobs s)%nat)
  ∧ (¬ terminal s → (∀ e res cq', cq s = (e, res) :: cq' → 0 ≤ res) →
     ∃ s', step cfg jobs Internal s s' ∧ ∀ errno, phase s' ≠ Failed errno).
Proof.
  intros Hr%reachable_inv. split; [intros s'; by apply step_measure|].
  intros Ht Hres. destruct (step_progress cfg jobs s Hr Ht Hres) as (s' & Hs & Hf & _). by exists s'.
Qed.

(** C27. From every reachable state whose completions are all successes the
    engine can run to the end: some sequence of steps finishes the plan. *)
Theorem engine_can_finish cfg jobs s : reachable cfg jobs s →
  (∀ errno, phase s ≠ Failed errno) → Forall succeeded (cq s) →
  ∃ s', rtc (step cfg jobs Internal) s s' ∧ phase s' = Finished.
Proof.
  remember (measure jobs s) as n eqn:En. revert s En.
  induction (lt_wf n) as [n _ IH]. intros s -> Hr Hf Hc.
  pose proof (reachable_inv _ _ _ Hr) as Hi.
  assert (phase s = Finished ∨ ¬ terminal s) as [Hd|Ht].
  { unfold terminal. destruct (phase s) as [| | | |errno] eqn:E; [tauto..|]. by destruct (Hf errno). }
  { by exists s. }
  destruct (step_progress cfg jobs s Hi Ht) as (s1 & Hs & Hf1 & Hc1).
  - intros e res cq' E. rewrite E in Hc. by apply Forall_cons in Hc as [? _].
  - destruct (IH (measure jobs s1)) with (s := s1) as (s' & Hrtc & Hp); try done.
    + by apply (step_measure cfg).
    + by eapply reach_step.
    + by apply Hc1.
    + exists s'. split; [by eapply rtc_l|done].
Qed.

(** *** The verification read *)

(** [pread] on a file: an error, nothing at or past the end, and otherwise
    between one and [n] of the bytes at [off]. *)
Definition pread_of (file : list Z) (pread : pread_oracle) : Prop :=
  ∀ k n off, 0 < n → 0 ≤ off →
    match pread k n off with
    | Err _ => True
    | Ok bs => (bs = [] ↔ len file ≤ off)
               ∧ len bs ≤ n ∧ (bs ≠ [] → off + len bs ≤ len file ∧ bs = slice file off (off + len bs))
    end.

Lemma read_loop_spec file pread fuel : pread_of file pread → ∀ k a0 total buf,
  0 ≤ a0 → len buf ≤ total → total - len buf < Z.of_nat fuel →
  (len buf = 0 ∨ a0 + len buf ≤ len file) → buf = slice file a0 (a0 + len buf) →
  match read_loop pread fuel k a0 total buf with
  | None => False
  | Some (Err _) => True
  | Some (Ok b) => b = slice file a0 (a0 + len b) ∧ len b ≤ total
                   ∧ (len b = total ∨ len file ≤ a0 + len b) ∧ (len b = 0 ∨ a0 + len b ≤ len file)
  end.
Proof.
  intros Hp. induction fuel as [|fuel IH]; intros k a0 total buf Ha Hb Hf Hin Hs; cbn [read_loop].
  { pose proof (len_nonneg buf). lia. }
  pose proof (len_nonneg buf) as Hl.
  case_decide as Hd; [|split; [done|]; split; [done|]; split; [left; lia|done]].
  specialize (Hp k (total - len buf) (a0 + len buf) ltac:(lia) ltac:(lia)).
  destruct (pread k (total - len buf) (a0 + len buf)) as [bs|e]; [|done].
  destruct Hp as (He & Hn & Hc). destruct bs as [|x bs].
  - split; [done|]. split; [lia|]. split; [right; by apply He|done].
  - destruct Hc as [Hc1 Hc2]; [done|]. pose proof (len_cons x bs). pose proof (len_nonneg bs).
    apply IH; rewrite ?len_app; try lia.
    rewrite Hs at 1. rewrite Hc2 at 1. rewrite slice_app by lia. f_equal. lia.
Qed.

(** The loop ends whatever the kernel answers: every round adds a byte. *)
Lemma read_loop_total pread fuel : ∀ k a0 total buf, total - len buf ≤ Z.of_nat fuel →
  is_Some (read_loop pread (S fuel) k a0 total buf).
Proof.
  induction fuel as [|fuel IH]; intros k a0 total buf Hf; cbn [read_loop]; (case_decide; [|by eexists]).
  { lia. }
  destruct (pread _ _ _) as [[|x bs]|]; [by eexists| |by eexists].
  apply IH. rewrite len_app, len_cons. pose proof (len_nonneg bs). lia.
Qed.

Lemma read_small_range_total pread off n block : is_Some (read_small_range pread off n block).
Proof.
  unfold read_small_range. cbn zeta.
  destruct (read_loop_total pread (Z.to_nat (ceil_to (off - floor_to off (block `max` 1) + n) (block `max` 1)))
    0 (floor_to off (block `max` 1)) (ceil_to (off - floor_to off (block `max` 1) + n) (block `max` 1)) [])
    as [r ->]; [change (len []) with 0; lia|]. by eexists.
Qed.

Lemma read_loop_errors pread fuel : ∀ k a0 total buf e,
  read_loop pread fuel k a0 total buf = Some (Err e) → ∃ n, e = Os n.
Proof.
  induction fuel as [|fuel IH]; intros k a0 total buf e; cbn [read_loop]; [done|].
  case_decide; [|done]. destruct (pread _ _ _) as [[|x bs]|n]; [done|apply IH|].
  intros [= <-]. eauto.
Qed.

(** The verification read returns the file's own bytes: on any kernel that
    delivers reads piecemeal, [read_small_range] ends, and unless a call fails
    it returns exactly [file[offset .. offset + len]] when that range is in the
    file and an end-of-file error when it is not. *)
Theorem read_small_range_spec file pread off n block :
  pread_of file pread → 0 ≤ off → 0 < n → off + n + 2 * (block `max` 1) ≤ u64_max →
  match read_small_range pread off n block with
  | None => False
  | Some (Ok bs) => off + n ≤ len file ∧ bs = slice file off (off + n)
  | Some (Err (UnexpectedEofError w o _)) => len file < off + n ∧ w = n ∧ o = off
  | Some (Err (Os _)) => True
  | Some (Err _) => False
  end.
Proof.
  intros Hp Ho Hn Hm. unfold read_small_range. cbn zeta. set (b := block `max` 1) in *.
  assert (1 ≤ b) as Hb by lia. destruct (floor_to_spec off b) as (Hf & Ha & Hf2); [done..|].
  set (a0 := floor_to off b) in *. set (pad := off - a0).
  destruct (ceil_to_spec (pad + n) b) as [[Hc _] _]; [lia..|].
  set (total := ceil_to (pad + n) b) in *.
  pose proof (read_loop_spec file pread (S (Z.to_nat total)) Hp 0 a0 total []) as Hl.
  change (len []) with 0 in Hl. rewrite Z.add_0_r in Hl.
  assert ([] = slice file a0 a0) as Hnil by (unfold slice; by rewrite Z.sub_diag).
  specialize (Hl ltac:(lia) ltac:(lia) ltac:(lia) ltac:(by left) Hnil).
  pose proof (read_loop_errors pread (S (Z.to_nat total)) 0 a0 total []) as Hre.
  destruct (read_loop pread _ _ _ _ _) as [[buf|e]|]; [|by destruct (Hre e eq_refl) as [? ->]|done].
  cbn [mbind option_bind result_bind]. destruct Hl as (Hs & Hlt & Hend & Hin).
  pose proof (len_nonneg buf) as Hl0. case_decide as Hd.
  - split; [|done]. unfold pad in *. lia.
  - assert (0 < len buf) by (unfold pad in *; lia). destruct Hin as [?|Hin]; [lia|].
    split; [unfold pad in *; lia|]. rewrite Hs. unfold pad.
    rewrite slice_slice by (unfold pad in *; lia). f_equal; lia.
Qed.

(** ** A concrete run: two chunks, two buffers *)

Definition demo_cfg : ReadConfig := mkReadConfig 2 4096 true 4096.
Definition demo_reads : list (nat * Range) := [(0%nat, mkRange 0 8192)].
Definition demo_e0 : Sqe := mkSqe 0 0 0 4096.
Definition demo_e1 : Sqe := mkSqe 1 0 4096 4096.

Lemma demo_jobs : jobs_of demo_cfg demo_reads = [mkJob 0 0 4096; mkJob 0 4096 4096].
Proof. done. Qed.

Lemma demo_sane : sane demo_cfg.
Proof. split; cbn; lia. Qed.

Abbreviation demo_reachable := (reachable demo_cfg [mkJob 0 0 4096; mkJob 0 4096 4096]).
Definition demo_state ph nx fr ex inf q k c : Engine :=
  mkEngine ph nx fr ex inf q k c ReadStats_default [].

Lemma demo_go s s' : demo_reachable s →
  step demo_cfg [mkJob 0 0 4096; mkJob 0 4096 4096] Internal s s' → demo_reachable s'.
Proof. intros. by eapply reach_step. Qed.

Definition demo_waiting : Engine :=
  demo_state Wait 2 [] [4096; 4096] 2 [demo_e0; demo_e1] [] [].

Lemma demo_waiting_reachable : demo_reachable demo_waiting.
Proof.
  set (s1 := demo_state Fill 1 [1%nat] [4096; 0] 1 [demo_e0] [] []).
  set (s2 := demo_state Fill 2 [] [4096; 4096] 2 [demo_e0; demo_e1] [] []).
  apply (demo_go s2); [|apply (step_wait _ _ s2); [done|unfold can_push; cbn; lia|done]].
  apply (demo_go s1); [|apply (step_push _ _ s1 1 [] (mkJob 0 4096 4096));
      [done|unfold can_push; cbn; split; [lia|by split]|done|done]].
  apply (demo_go (initial demo_cfg)); [apply reach_initial|].
  apply (step_push _ _ (initial demo_cfg) 0 [1%nat] (mkJob 0 0 4096));
    [done|unfold can_push; cbn; split; [lia|by split]|done|done].
Qed.

(** Both reads complete, out of order, the last one short. *)
Definition demo_end (ph : Phase) : Engine :=
  mkEngine ph 2 [1%nat; 0%nat] [4096; 4096] 0 [] [] [] (mkReadStats 4196 2 1)
    [(demo_e1, 100); (demo_e0, 4096)].

Lemma demo_end_reachable : demo_reachable (demo_end Finished).
Proof.
  set (s4 := demo_state Reap 2 [] [4096; 4096] 2 [] [] [(demo_e1, 100); (demo_e0, 4096)]).
  set (s5 := reap_one s4 demo_e1 100 [(demo_e0, 4096)]).
  apply (demo_go (demo_end Fill));
    [|apply (step_drained _ _ (demo_end Fill)); [done|unfold can_push; cbn; lia|done]].
  apply (demo_go (demo_end Reap)); [|by apply (step_reaped_all _ _ (demo_end Reap))].
  apply (demo_go s5); [|by apply (step_reap _ _ s5 demo_e0 4096 [])].
  apply (demo_go s4); [|by apply (step_reap _ _ s4 demo_e1 100 [(demo_e0, 4096)])].
  apply (demo_go demo_waiting); [apply demo_waiting_reachable|].
  apply (step_completions _ _ demo_waiting [(demo_e1, 100); (demo_e0, 4096)] []);
    [done|done|apply perm_swap].
Qed.

(** The loop's error path contradicts the buffer-ownership comment: when a
    read reports an error, [read_files] returns, dropping every buffer, while
    another request is still owned by the kernel. *)
Theorem engine_error_drops_busy_buffers :
  ∃ cfg plan s e, sane cfg ∧ reachable cfg (jobs_of cfg plan) s ∧ phase s = Failed 5
    ∧ e ∈ kernel s ∧ user_data e ∉ free s.
Proof.
  exists demo_cfg, demo_reads. rewrite demo_jobs.
  set (s4 := demo_state Reap 2 [] [4096; 4096] 2 [] [demo_e1] [(demo_e0, -5)]).
  exists (demo_state (Failed 5) 2 [] [4096; 4096] 2 [] [demo_e1] [(demo_e0, -5)]), demo_e1.
  split; [apply demo_sane|]. split; [|split; [done|]; split; [left|apply not_elem_of_nil]].
  apply (demo_go s4); [|by apply (step_read_error _ _ s4 demo_e0 (-5) [])].
  apply (demo_go demo_waiting); [apply demo_waiting_reachable|].
  by apply (step_completions _ _ demo_waiting [(demo_e0, -5)] [demo_e1]).
Qed.

Lemma expand_covers_witness :
  tiles (chunk_of demo_cfg) 4096 0 4096 9196
    (expand (chunk_of demo_cfg) 4096 (0%nat, mkRange 4096 5100)).
Proof. apply (expand_covers demo_cfg 0 (mkRange 4096 5100) demo_sane); cbn; try done. Defined.

Lemma engine_slots_witness :
  NoDup ((user_data <$> owned demo_waiting) ++ free demo_waiting).
Proof.
  apply (engine_slots demo_cfg demo_reads demo_waiting demo_sane). apply demo_waiting_reachable.
Defined.

Lemma engine_complete_witness : requests (stats (demo_end Finished)) = 2.
Proof.
  apply (engine_complete demo_cfg demo_reads (demo_end Finished) demo_sane);
    [apply demo_end_reachable|done].
Defined.

Lemma engine_terminates_witness :
  ∃ s', step demo_cfg [mkJob 0 0 4096; mkJob 0 4096 4096] Internal demo_waiting s'
        ∧ ∀ errno, phase s' ≠ Failed errno.
Proof.
  apply (engine_terminates demo_cfg _ demo_waiting demo_waiting_reachable);
    [by intros []|done].
Defined.

Lemma engine_can_finish_witness :
  ∃ s', rtc (step demo_cfg [mkJob 0 0 4096; mkJob 0 4096 4096] Internal) demo_waiting s' ∧
    phase s' = Finished.
Proof.
  apply (engine_can_finish demo_cfg _ demo_waiting demo_waiting_reachable); [done|constructor].
Defined.

(** A kernel that delivers one byte per call. *)
Definition demo_pread (file : list Z) : pread_oracle :=
  λ _ _ off, Ok (slice file off (off + 1)).

Lemma demo_pread_ok file : pread_of file (demo_pread file).
Proof.
  intros k n off Hn Ho. unfold demo_pread. destruct (Z.le_gt_cases (len file) off) as [Hle|Hgt].
  - assert (slice file off (off + 1) = []) as ->.
    { unfold slice. rewrite drop_ge by (unfold len in Hle; lia). by rewrite take_nil. }
    split; [done|]. split; [unfold len; cbn; lia|done].
  - pose proof (len_slice file off (off + 1) ltac:(lia) ltac:(lia)) as Hl. rewrite Hl.
    replace (off + (off + 1 - off)) with (off + 1) by lia.
    split; [|split; [lia|split; [lia|done]]].
    split; [|lia]. intros E. rewrite E in Hl. rewrite len_nil in Hl. lia.
Qed.

Lemma read_small_range_spec_witness :
  read_small_range (demo_pread [10; 11; 12; 13; 14; 15; 16]) 3 2 4 = Some (Ok [13; 14])
  ∧ 5 ≤ len [10; 11; 12; 13; 14; 15; 16].
Proof.
  assert (read_small_range (demo_pread [10; 11; 12; 13; 14; 15; 16]) 3 2 4 = Some (Ok [13; 14])) as E
    by (vm_compute; reflexivity).
  split; [exact E|].
  pose proof (read_small_range_spec [10; 11; 12; 13; 14; 15; 16] _ 3 2 4 (demo_pread_ok _)
    ltac:(lia) ltac:(lia) ltac:(vm_compute; discriminate)) as H.
  rewrite E in H. exact (proj1 H).
Defined.
