(* ===== verification/LoadPath.v ===== *)
(** * From the plan to the bytes: the planner and the read engine together

    What the planner asks for and the engine reads, summed over intervals of a
    file: a quantity that is additive over adjacent intervals is, over the
    completions of a finished run, what it is over the planned ranges. *)

From S2P Require Import Prelude Serde Rstr Utf8 Float PyJson JsonInstance Header HeaderWitness Plan PlanProps.
From S2P Require Import Reader ReaderProps.

(** ** Sums over intervals *)

(** A quantity of the interval [a, b) of file [i]. *)
Definition additive (W : nat → Z → Z → Z) : Prop :=
  ∀ i a b c, a ≤ b ≤ c → W i a c = W i a b + W i b c.

(** The same of a request: its file, offset and length. *)
Definition of_key (W : nat → Z → Z → Z) (k : nat * Z * Z) : Z :=
  let '(i, off, n) := k in W i off (off + n).

Definition of_range (W : nat → Z → Z → Z) (p : nat * Range) : Z :=
  W p.1 (offset p.2) (offset p.2 + rlen p.2).

Lemma zsum_perm l k : l ≡ₚ k → zsum l = zsum k.
Proof. unfold zsum. induction 1; cbn [foldr]; lia. Qed.

Lemma aligned_sub_min b x y : 1 ≤ b → aligned b x → aligned b y → aligned b (x `min` y).
Proof. intros _ Hx Hy. by destruct (Z.min_spec x y) as [[_ ->]|[_ ->]]. Qed.

Lemma aligned_minus b x y : 1 ≤ b → aligned b x → aligned b y → aligned b (x - y).
Proof.
  unfold aligned. intros Hb Hx Hy. rewrite Zminus_mod, Hx, Hy. apply Z.mod_0_l. lia.
Qed.

Section sums.
Context (W : nat → Z → Z → Z) (HW : additive W).

Lemma additive_nil i a : W i a a = 0.
Proof. pose proof (HW i a a a ltac:(lia)). lia. Qed.

(** Chunking an aligned range splits it: no chunk is rounded past its end. *)
Lemma expand_range_sum chunk block fi fuel : ∀ off fin,
  1 ≤ block → aligned block chunk → 0 < chunk < 2 ^ 32 → block < 2 ^ 32 →
  aligned block off → aligned block fin → off ≤ fin → fin - off ≤ Z.of_nat fuel * chunk →
  zsum (of_key W <$> (job_key <$> expand_range fuel chunk block fi off fin)) = W fi off fin.
Proof.
  induction fuel as [|fuel IH]; intros off fin Hb Hac Hc Hbm Hao Haf Hle Hf; cbn [expand_range].
  { replace fin with off by lia. by rewrite additive_nil. }
  case_decide as Hlt; [|replace fin with off by lia; by rewrite additive_nil].
  set (want := chunk `min` (fin - off)).
  assert (aligned block want) as Haw
    by (apply aligned_sub_min; [lia|done|by apply aligned_minus]).
  assert (0 < want ≤ chunk ∧ want ≤ fin - off) as [Hw1 Hw2] by lia.
  rewrite ceil_to_aligned by (try done; unfold u64_max; lia). cbn [fmap list_fmap]. rewrite zsum_cons.
  unfold job_key at 1. cbn [of_key job_file job_off job_len]. rewrite wrap32_small by lia.
  rewrite (HW fi off (off + want) fin) by lia. f_equal.
  destruct (Z.min_spec chunk (fin - off)) as [[H1 E]|[H1 E]]; fold want in E.
  - apply IH; try done; [by apply aligned_add|lia|]. rewrite Nat2Z.inj_succ in Hf. lia.
  - replace (off + want) with fin by lia. rewrite additive_nil.
    destruct fuel; cbn [expand_range]; [done|]. by rewrite decide_False by lia.
Qed.

(** The ranges the engine can be trusted with. *)
Definition plannable (block : Z) (r : Range) : Prop :=
  0 ≤ offset r ∧ aligned block (offset r) ∧ 0 ≤ rlen r ∧ aligned block (rlen r)
  ∧ offset r + rlen r ≤ u64_max.

Lemma expand_sum cfg p : sane cfg → plannable (cfg_block cfg) p.2 →
  zsum (of_key W <$> (job_key <$> expand (chunk_of cfg) (cfg_block cfg `max` 1) p)) = of_range W p.
Proof.
  destruct p as [fi r]. intros Hs (H0 & Ha & Hl & Hal & Hm).
  pose proof (chunk_of_spec cfg Hs) as (Hc1 & Hc2 & _). destruct Hs as (Hb & Hcb & Hs1 & Hs2).
  unfold of_range, expand. cbn [fst snd] in *. rewrite Z.max_l, wadd_small by (try unfold u64; lia).
  pose proof (div_ceil_spec (offset r + rlen r - offset r) (chunk_of cfg) ltac:(lia)).
  pose proof (div_ceil_nonneg (offset r + rlen r - offset r) (chunk_of cfg) ltac:(lia) ltac:(lia)).
  apply expand_range_sum; try done; try lia; [by apply aligned_add|]. rewrite Z2Nat.id by done. lia.
Qed.

Lemma jobs_sum cfg plan : sane cfg → Forall (λ p, plannable (cfg_block cfg) p.2) plan →
  zsum (of_key W <$> (job_key <$> jobs_of cfg plan)) = zsum (of_range W <$> plan).
Proof.
  intros Hs. unfold jobs_of. induction 1 as [|p plan Hp _ IH]; [done|].
  cbn [mbind list_bind fmap list_fmap]. by rewrite !fmap_app, zsum_app, expand_sum, zsum_cons, <- IH.
Qed.

(** Whatever the order of completions. *)
Lemma finished_sum cfg plan s : sane cfg → Forall (λ p, plannable (cfg_block cfg) p.2) plan →
  reachable cfg (jobs_of cfg plan) s → phase s = Finished →
  zsum (of_key W <$> (key <$> (reaped s).*1)) = zsum (of_range W <$> plan).
Proof.
  intros Hs Hp Hr Hf. destruct (finished_all _ _ _ Hr Hf) as [_ Hk].
  rewrite <- (jobs_sum cfg plan) by done. apply zsum_perm. by rewrite Hk.
Qed.
End sums.

(** ** Loading a model *)

(** The completion put byte [x] of file [i] into its buffer. *)
Definition delivered (i : nat) (x : Z) (c : Sqe * Z) : Prop :=
  sqe_file c.1 = i ∧ sqe_off c.1 ≤ x < sqe_off c.1 + c.2.
#[export] Instance delivered_dec i x c : Decision (delivered i x c).
Proof. unfold delivered. apply _. Defined.

(** The kernel read all the file has of what was asked for, so that a read is
    short only at the end of the file. *)
Definition full_read (size : nat → Z) (c : Sqe * Z) : Prop :=
  c.2 = (sqe_off c.1 + sqe_len c.1) `min` size (sqe_file c.1) - sqe_off c.1 `min` size (sqe_file c.1).

(** One for the intervals that hold byte [x] of file [i]. *)
Definition point (i : nat) (x : Z) (j : nat) (a b : Z) : Z :=
  if decide (j = i ∧ a ≤ x < b) then 1 else 0.

(** The bytes of an interval the file has. *)
Definition present (size : nat → Z) (j : nat) (a b : Z) : Z := b `min` size j - a `min` size j.

Lemma point_additive i x : additive (point i x).
Proof. intros j a b c H. unfold point. repeat case_decide; lia. Qed.

Lemma present_additive size : additive (present size).
Proof. intros j a b c H. unfold present. lia. Qed.

Lemma delivered_count size i x l : x < size i → Forall (full_read size) l →
  len (filter (delivered i x) l) = zsum (of_key (point i x) <$> (key <$> l.*1)).
Proof.
  intros Hx. induction 1 as [|c l Hc _ IH]; [done|]. cbn [fmap list_fmap]. rewrite zsum_cons, <- IH.
  rewrite filter_cons. unfold full_read in Hc.
  assert (of_key (point i x) (key c.1) = if decide (delivered i x c) then 1 else 0) as ->.
  { unfold key. cbn [of_key]. unfold point. apply decide_ext. unfold delivered.
    rewrite Hc. split; intros [E ?]; (split; [exact E|]); rewrite E in *; lia. }
  case_decide; rewrite ?len_cons; lia.
Qed.

Lemma present_total size l : Forall (full_read size) l →
  zsum l.*2 = zsum (of_key (present size) <$> (key <$> l.*1)).
Proof.
  induction 1 as [|c l Hc _ IH]; [done|]. cbn [fmap list_fmap]. by rewrite !zsum_cons, IH, Hc.
Qed.

Lemma zsum_zero {A} (f : A → Z) l : (∀ y, y ∈ l → f y = 0) → zsum (f <$> l) = 0.
Proof.
  induction l as [|y l IH]; intros H; [done|]. cbn [fmap list_fmap]. rewrite zsum_cons, IH, H by set_solver.
  done.
Qed.

(** Separated ranges hold a byte at most once. *)
Lemma shard_point gap i x rs r : 0 ≤ gap → Forall (λ r, 0 ≤ rlen r) rs → StronglySorted (separated gap) rs →
  r ∈ rs → offset r ≤ x < offset r + rlen r →
  zsum (of_range (point i x) <$> (pair i <$> rs)) = 1.
Proof.
  intros Hg Hl Hs. revert Hl. induction Hs as [|r0 rs _ IH Hr0]; intros Hl Hin Hx; [by apply not_elem_of_nil in Hin|].
  apply Forall_cons in Hl as [Hl0 Hl]. cbn [fmap list_fmap]. rewrite zsum_cons.
  unfold of_range at 1, point at 1. cbn [fst snd]. rewrite Forall_forall in Hr0.
  apply elem_of_cons in Hin as [->|Hin].
  - rewrite decide_True by done. rewrite zsum_zero; [done|]. intros p (r1 & -> & Hr1)%list_elem_of_fmap.
    specialize (Hr0 r1 Hr1). unfold of_range, point, separated in *. cbn [fst snd].
    by rewrite decide_False by lia.
  - rewrite IH by done. specialize (Hr0 r Hin). unfold separated in Hr0. by rewrite decide_False by lia.
Qed.

Section load.
Context {J : Type} (headers : list (ShardHeader J)) (gap : Z) (cfg : ReadConfig).
Context (Hs : sane cfg) (Hg : 0 ≤ gap).
Context (Hwf : Forall (λ h, wf_header h ∧ roundable h (cfg_block cfg)) headers).

Abbreviation plan := (plan_model headers (cfg_block cfg) gap).

Definition shard_size (i : nat) : Z := default 0 (sh_file_size <$> headers !! i).

Lemma shard_ranges h : h ∈ headers →
  Forall (plannable (cfg_block cfg)) (plan_shard h (cfg_block cfg) gap)
  ∧ Forall (λ r, 0 ≤ rlen r) (plan_shard h (cfg_block cfg) gap)
  ∧ StronglySorted (separated gap) (plan_shard h (cfg_block cfg) gap).
Proof.
  intros Hin. pose proof Hwf as Hwf'. rewrite Forall_forall in Hwf'.
  destruct (Hwf' h Hin) as [Hw Hr]. clear Hwf'.
  destruct (plan_shard_inv h (cfg_block cfg) Hw Hr gap Hg) as [[Hf Hss] _].
  apply Forall_reverse in Hf. rewrite reverse_involutive in Hf.
  apply StronglySorted_reverse in Hss. rewrite reverse_involutive in Hss.
  destruct Hr as [Hb Hr]. pose proof (wf_file_size _ Hw) as [Hz _].
  destruct (ceil_to_spec (sh_file_size h) (cfg_block cfg)) as [Hc _]; [lia..|].
  split; [|split; [|done]]; (eapply Forall_impl; [exact Hf|]); intros r [[? ?] [? ?] Hlim]; unfold limit in Hlim;
    [|lia]. repeat split; (done || lia).
Qed.

Lemma plan_ranges : Forall (λ p, plannable (cfg_block cfg) p.2) plan.
Proof.
  apply Forall_forall. intros [i r] (h & Hh & Hin)%plan_model_spec. cbn.
  apply list_elem_of_lookup_2, shard_ranges in Hh as [Hf _]. rewrite Forall_forall in Hf. by apply Hf.
Qed.

(** The plan asks for each byte of a tensor once. *)
Lemma plan_point i h t x : headers !! i = Some h → t ∈ sh_tensors h → abs_start h t ≤ x < abs_end h t →
  zsum (of_range (point i x) <$> plan) = 1.
Proof.
  intros Hi Ht Hx. pose proof Hi as Hin%list_elem_of_lookup_2.
  destruct (shard_ranges h Hin) as (_ & Hl & Hss).
  pose proof Hwf as Hwf'. rewrite Forall_forall in Hwf'. destruct (Hwf' h Hin) as [Hw Hr].
  destruct (plan_shard_inv h (cfg_block cfg) Hw Hr gap Hg) as [_ Hcov].
  destruct (Hcov t Ht) as (r & Hr' & Hc); [unfold abs_start, abs_end in Hx; lia|].
  unfold covers in Hc. pose proof (take_drop_middle _ _ _ Hi) as Hsplit.
  assert (length (take i headers) = i) as Hlen by (apply lookup_lt_Some in Hi; rewrite length_take; lia).
  unfold plan_model. rewrite <- Hsplit, imap_app, concat_app, fmap_app, zsum_app. cbn [imap concat].
  rewrite Hlen, Nat.add_0_r, fmap_app, zsum_app, (shard_point gap i x _ r) by (done || lia).
  rewrite !zsum_zero; [done|..]; intros [j r1] (k & h1 & Hk & Hp)%elem_of_concat_imap;
    apply list_elem_of_fmap in Hp as (r2 & [= -> ->] & _); unfold of_range, point; cbn [fst snd];
    rewrite decide_False; try done; intros [? _].
  - lia.
  - apply lookup_lt_Some in Hk. lia.
Qed.

Lemma in_file i h t x : headers !! i = Some h → t ∈ sh_tensors h → x < abs_end h t → x < shard_size i.
Proof.
  intros Hi Ht Hx. unfold shard_size. rewrite Hi. cbn. pose proof Hwf as Hwf'. rewrite Forall_forall in Hwf'.
  destruct (Hwf' h) as [Hw _]; [by eapply list_elem_of_lookup_2|].
  pose proof (wf_tensors _ Hw) as Hts. rewrite Forall_forall in Hts. destruct (Hts t Ht).
  unfold abs_end in Hx. lia.
Qed.

(** C18. Loading delivers the model.  When the engine finishes the plan of
    well-formed headers over files that are read in full, every byte of every
    tensor was read into a buffer exactly once, whatever the order of the
    completions, and the bytes it reports are those of the planned ranges that
    the files have. *)
Theorem load_delivers s :
  reachable cfg (jobs_of cfg plan) s → phase s = Finished → Forall (full_read shard_size) (reaped s) →
  (∀ i h t x, headers !! i = Some h → t ∈ sh_tensors h → abs_start h t ≤ x < abs_end h t →
     len (filter (delivered i x) (reaped s)) = 1)
  ∧ bytes (stats s) = zsum (of_range (present shard_size) <$> plan).
Proof.
  intros Hr Hf Hfull. split.
  - intros i h t x Hi Ht Hx. rewrite (delivered_count shard_size) by (done || exact (in_file i h t x Hi Ht (proj2 Hx))).
    rewrite (finished_sum _ (point_additive i x) cfg plan s) by (done || apply plan_ranges).
    by eapply plan_point.
  - rewrite (inv_bytes _ _ _ (reachable_inv _ _ _ Hr)), (present_total shard_size) by done.
    apply (finished_sum _ (present_additive shard_size) cfg); (done || apply plan_ranges).
Qed.
End load.

(** ** A concrete load: one shard, two chunks, the last one short *)

Definition load_cfg : ReadConfig := mkReadConfig 2 16 true 16.
Definition load_jobs : list Job := [mkJob 0 128 16; mkJob 0 144 16].
Definition load_e0 : Sqe := mkSqe 0 0 128 16.
Definition load_e1 : Sqe := mkSqe 1 0 144 16.

Lemma load_jobs_of : jobs_of load_cfg (plan_model [demo_header] 16 0) = load_jobs.
Proof. by vm_compute. Qed.

Definition load_end : Engine :=
  mkEngine Finished 2 [1%nat; 0%nat] [16; 16] 0 [] [] [] (mkReadStats 21 2 1)
    [(load_e1, 5); (load_e0, 16)].

Lemma load_end_reachable : reachable load_cfg load_jobs load_end.
Proof.
  set (st ph nx fr ex inf q c := mkEngine ph nx fr ex inf q [] c ReadStats_default []).
  set (s1 := st Fill 1%nat [1%nat] [16; 0] 1 [load_e0] []).
  set (s2 := st Fill 2%nat [] [16; 16] 2 [load_e0; load_e1] []).
  set (s3 := with_phase Wait s2).
  set (s4 := st Reap 2%nat [] [16; 16] 2 [] [(load_e1, 5); (load_e0, 16)]).
  set (s5 := reap_one s4 load_e1 5 [(load_e0, 16)]). set (s6 := reap_one s5 load_e0 16 []).
  apply (reach_step _ _ Internal (with_phase Fill s6));
    [|apply (step_drained _ _ (with_phase Fill s6)); [done|unfold can_push; cbn; lia|done]].
  apply (reach_step _ _ Internal s6); [|by apply (step_reaped_all _ _ s6)].
  apply (reach_step _ _ Internal s5); [|by apply (step_reap _ _ s5 load_e0 16 [])].
  apply (reach_step _ _ Internal s4); [|by apply (step_reap _ _ s4 load_e1 5 [(load_e0, 16)])].
  apply (reach_step _ _ Internal s3);
    [|by apply (step_completions _ _ s3 [(load_e1, 5); (load_e0, 16)] []); [|done|apply perm_swap]].
  apply (reach_step _ _ Internal s2); [|apply (step_wait _ _ s2); [done|unfold can_push; cbn; lia|done]].
  apply (reach_step _ _ Internal s1); [|by apply (step_push _ _ s1 1 [] (mkJob 0 144 16));
      [|unfold can_push; cbn; split; [lia|by split]|..]].
  apply (reach_step _ _ Internal (initial load_cfg)); [apply reach_initial|].
  by apply (step_push _ _ (initial load_cfg) 0 [1%nat] (mkJob 0 128 16));
    [|unfold can_push; cbn; split; [lia|by split]|..].
Qed.

Lemma load_delivers_witness :
  (∀ i h t x, [demo_header] !! i = Some h → t ∈ sh_tensors h → abs_start h t ≤ x < abs_end h t →
     len (filter (delivered i x) (reaped load_end)) = 1)
  ∧ 21 = zsum (of_range (present (shard_size [demo_header])) <$> plan_model [demo_header] 16 0).
Proof.
  apply (load_delivers [demo_header] 0 load_cfg) with (s := load_end).
  - split; cbn; lia.
  - lia.
  - apply Forall_singleton. split; [exact demo_wf|exact demo_roundable].
  - change (cfg_block load_cfg) with 16. rewrite load_jobs_of. exact load_end_reachable.
  - done.
  - repeat constructor; by vm_compute.
Defined.
