(* ===== verification/Cache.v ===== *)
(** * stloader: the page-cache probe and the aligned buffers

    Models rust-qwen-engine/crates/stloader/src/cache.rs and aligned.rs.  The
    system calls are arguments: what [mmap], [mincore] and [getrusage] answer,
    the page size [sysconf] reports, the files' sizes, the allocator. *)

From S2P Require Import Prelude Float Plan Reader.
From S2P Require Fuzz.

(** [v] is what [sysconf(_SC_PAGESIZE)] returned. *)
Definition page_size (v : Z) : Z := if decide (v ≤ 0) then 4096 else v.

(** Stops at the first file that cannot be opened or advised. *)
Definition drop_page_cache {E P} (advise : P → result E unit) (paths : list P) : result E unit :=
  _ ← try_map advise paths; Ok tt.

Definition PROBE_WINDOW_BYTES : Z := Z.shiftl 1 20.
Definition MAX_PROBE_PAGES : Z := 16384.
Definition MAX_PROBE_WINDOWS : Z := 64.

(** What the kernel answers for one file: whether a mapping of [len] bytes at
    [off] succeeds, and the residency byte of each of its pages, when
    [mincore] succeeds. *)
Record Kernel := mkKernel {
  k_mmap : Z → Z → bool;
  k_mincore : Z → Z → option (Z → Z);
}.

Section probe.
Context (k : Kernel) (page size : Z).

Definition window : Z := (PROBE_WINDOW_BYTES `min` size) `max` page.
Definition nwin : Z := (div_ceil size window `max` 1) `min` MAX_PROBE_WINDOWS.
Definition probe_step : Z := window `max` (size / nwin).

(** The bytes mapped at [off]: whole pages only. *)
Definition map_len (off : Z) : Z :=
  let len := window `min` (size - off) in len - len mod page.

(** [vec.iter().filter(|b| *b & 1 == 1).count()] *)
Definition resident_pages (npages : Z) (vec : Z → Z) : Z :=
  len (filter (λ i, Z.land (vec (Z.of_nat i)) 1 = 1) (seq 0 (Z.to_nat npages))).

(** The loop: [(resident, total)], [None] when the fuel runs out. *)
Fixpoint probe_loop (fuel : nat) (off resident total : Z) : option (Z * Z) :=
  if decide (off < size ∧ total < MAX_PROBE_PAGES) then
    match fuel with
    | O => None
    | S fuel =>
        let l := map_len off in
        if decide (l = 0) then Some (resident, total)
        else if negb (k_mmap k off l) then Some (resident, total)
        else
          let npages := l / page in
          let '(resident, total) :=
            match k_mincore k off l with
            | Some vec => (resident + resident_pages npages vec, total + npages)
            | None => (resident, total)
            end in
          probe_loop fuel (wadd off probe_step) resident total
    end
  else Some (resident, total).

(** One iteration per step over the file. *)
Definition probe_fuel : nat := S (Z.to_nat (size / probe_step)).
Definition probe : option (Z * Z) := probe_loop probe_fuel 0 0 0.

Definition minus_one : f64 := F64.of_Z (-1).

Definition resident_ratio : option f64 :=
  if decide (size = 0) then Some minus_one else
  '(resident, total) ← probe;
  Some (if decide (total = 0) then minus_one
        else F64.div (F64.of_Z resident) (F64.of_Z total)).
End probe.

(** [f64::min]: a NaN operand is ignored. *)
Definition fmin (x y : spec_float) : spec_float :=
  if is_nan x then y else if is_nan y then x else if SFltb y x then y else x.

(** [ratios] holds the probes' results, [None] for an I/O error. *)
Fixpoint min_ratio (min : f64) (ratios : list (option f64)) : f64 :=
  match ratios with
  | [] => if is_finite min then min else minus_one
  | Some r :: ratios => if SFleb fzero r then min_ratio (fmin min r) ratios else minus_one
  | None :: _ => minus_one
  end.
Definition min_resident_ratio (ratios : list (option f64)) : f64 := min_ratio pos_infinity ratios.

(** ** AlignedBuf *)

(** [AlignedBuf::new]: the size and alignment of its layout, [None] where
    [Layout::from_size_align] panics. *)
Definition buffer_layout (size align : Z) : option (Z * Z) :=
  let align := next_power_of_two (align `max` 64) in
  let size := size `max` 1 in
  if decide (size ≤ 2 ^ 63 - align) then Some (size, align) else None.

(** A buffer is its address and its layout. *)
Record AlignedBuf := mkAlignedBuf { ptr : Z; layout : Z * Z }.
Definition buf_len (b : AlignedBuf) : Z := (layout b).1.
Definition buf_is_empty (b : AlignedBuf) : bool := buf_len b =? 0.
Definition buf_is_aligned (b : AlignedBuf) (align : Z) : bool := Fuzz.is_multiple_of (ptr b) align.

(** [AlignedBuf::new], with the allocator's answer; 0 is the null pointer. *)
Definition buf_new (alloc : Z * Z → Z) (size align : Z) : option AlignedBuf :=
  l ← buffer_layout size align;
  if decide (alloc l = 0) then None else Some (mkAlignedBuf (alloc l) l).

(** ** The resident size *)

(** [getrusage]'s [ru_maxrss], [None] when the call failed; the cast and the
    product wrap. *)
Definition peak_rss_bytes (maxrss : option Z) : Z :=
  match maxrss with Some m => wmul (wrap64 m) 1024 | None => 0 end.

(** ** The probe *)

Section probe_lemmas.
Context (k : Kernel) (page size : Z).
Hypotheses (Hpage : 1 ≤ page) (Hsize : 0 < size) (Hfit : size + page ≤ 2 ^ 63).

Lemma window_bounds : page ≤ window page size ∧ window page size ≤ size `max` page.
Proof. unfold window. lia. Qed.

Lemma nwin_bounds : 1 ≤ nwin page size ≤ 64.
Proof. unfold nwin, MAX_PROBE_WINDOWS. lia. Qed.

Lemma step_bounds : 1 ≤ probe_step page size ≤ size `max` page.
Proof.
  pose proof window_bounds. pose proof nwin_bounds. unfold probe_step.
  pose proof (Z.div_le_upper_bound size (nwin page size) size ltac:(lia) ltac:(nia)). lia.
Qed.

Lemma map_len_bounds off : 0 ≤ off < size →
  0 ≤ map_len page size off ≤ window page size ∧ off + map_len page size off ≤ size
  ∧ (page | map_len page size off).
Proof.
  intros Hoff. unfold map_len. cbn zeta. pose proof window_bounds.
  set (l := window page size `min` (size - off)).
  assert (0 < l) by lia. pose proof (Z.mod_pos_bound l page ltac:(lia)).
  pose proof (Z.mod_le l page ltac:(lia) ltac:(lia)).
  split; [lia|]. split; [lia|]. exists (l / page). pose proof (Z.div_mod l page ltac:(lia)). lia.
Qed.

Lemma resident_pages_bounds n vec : 0 ≤ n → 0 ≤ resident_pages n vec ≤ n.
Proof.
  intros Hn. unfold resident_pages, len. split; [lia|].
  pose proof (length_filter (λ i, Z.land (vec (Z.of_nat i)) 1 = 1) (seq 0 (Z.to_nat n))) as H.
  rewrite length_seq in H. lia.
Qed.

(** What the loop keeps of its counters, and that its fuel is enough. *)
Lemma probe_loop_spec fuel : ∀ off resident total,
  0 ≤ off → 0 ≤ resident ≤ total →
  size - off < Z.of_nat fuel * probe_step page size →
  ∃ r t, probe_loop k page size fuel off resident total = Some (r, t)
    ∧ 0 ≤ r ≤ t ∧ total ≤ t ∧ t < (total + 1) `max` (MAX_PROBE_PAGES + window page size / page).
Proof.
  pose proof step_bounds as Hs. pose proof window_bounds as Hw.
  assert (1 ≤ window page size / page) by (apply Z.div_le_lower_bound; lia).
  induction fuel as [|fuel IH]; intros off resident total Ho Hrt Hf; cbn [probe_loop].
  { rewrite decide_False by lia. eexists _, _. split; [done|]. lia. }
  case_decide as Hd; [|eexists _, _; split; [done|]; lia]. cbn zeta.
  destruct (map_len_bounds off ltac:(lia)) as (Hl & Hin & _).
  case_decide; [eexists _, _; split; [done|]; lia|].
  destruct (k_mmap k off _); cbn [negb]; [|eexists _, _; split; [done|]; lia].
  assert (0 ≤ map_len page size off / page ≤ window page size / page) as Hn.
  { split; [apply Z.div_pos; lia|apply Z.div_le_mono; lia]. }
  rewrite wadd_small by (unfold u64, u64_max; lia).
  destruct (k_mincore k off _) as [vec|].
  - pose proof (resident_pages_bounds _ vec (proj1 Hn)).
    destruct (IH (off + probe_step page size) (resident + resident_pages (map_len page size off / page) vec)
      (total + map_len page size off / page)) as (r & t & -> & ? & ? & ?); [lia..|].
    eexists _, _. split; [done|]. lia.
  - destruct (IH (off + probe_step page size) resident total) as (r & t & -> & ? & ? & ?); [lia..|].
    eexists _, _. split; [done|]. lia.
Qed.
End probe_lemmas.

(** ** Correctness *)

(** C37. The probe always returns, and what it counts is a fraction: residents are
    among the pages looked at, of which there are at most one window more
    than the cap. *)
Theorem probe_bounds k page size : 1 ≤ page → 0 < size → size + page ≤ 2 ^ 63 →
  ∃ r t, probe k page size = Some (r, t) ∧ 0 ≤ r ≤ t ∧
    t < MAX_PROBE_PAGES + window page size / page.
Proof.
  intros Hp Hs Hf. pose proof (step_bounds page size Hp Hs) as Hst.
  pose proof (window_bounds page size) as Hw.
  destruct (probe_loop_spec k page size Hp Hs Hf (probe_fuel page size) 0 0 0)
    as (r & t & Hr & Hrt & _ & Ht); [lia..| |].
  - unfold probe_fuel. rewrite Nat2Z.inj_succ, Z2Nat.id by (apply Z.div_pos; lia).
    pose proof (Z.mul_succ_div_gt size (probe_step page size) ltac:(lia)). lia.
  - exists r, t. split; [exact Hr|]. split; [done|].
    assert (1 ≤ window page size / page) by (apply Z.div_le_lower_bound; lia).
    unfold MAX_PROBE_PAGES in *. lia.
Qed.

(** [mmap] as POSIX has it: the offset must be a multiple of the page size. *)
Definition posix (k : Kernel) (page : Z) : Prop :=
  ∀ off l, off mod page ≠ 0 → k_mmap k off l = false.

(** Where the sampling gives up: when the step between two windows is not a
    multiple of the page size, the second mapping is refused and the ratio
    is the first window's alone, whatever the rest of the file is. *)
Theorem probe_first_window_only k page size : 1 ≤ page → 0 < size → size + page ≤ 2 ^ 63 →
  posix k page → probe_step page size mod page ≠ 0 →
  ∃ r t, probe k page size = Some (r, t) ∧ 0 ≤ r ≤ t ∧ t ≤ window page size / page.
Proof.
  intros Hp Hs Hf Hk Hmod. pose proof (step_bounds page size Hp Hs) as Hst.
  assert (1 ≤ window page size / page)
    by (pose proof (window_bounds page size); apply Z.div_le_lower_bound; lia).
  assert (∀ fuel off r t, off = probe_step page size → size ≤ off ∨ fuel ≠ 0%nat →
    probe_loop k page size fuel off r t = Some (r, t)) as Hstop.
  { intros fuel off r t -> Hor. destruct fuel as [|fuel]; cbn [probe_loop].
    - rewrite decide_False by (destruct Hor; lia). done.
    - case_decide; [|done]. cbn zeta. case_decide; [done|]. by rewrite Hk. }
  assert (size < probe_step page size ∨ 1 ≤ size / probe_step page size) as Hor.
  { destruct (Z.lt_ge_cases size (probe_step page size)); [by left|right].
    apply Z.div_le_lower_bound; lia. }
  unfold probe, probe_fuel. cbn [probe_loop].
  rewrite decide_True by (unfold MAX_PROBE_PAGES; lia). cbn zeta.
  destruct (map_len_bounds page size Hp Hs 0 ltac:(lia)) as (Hl & _ & _).
  case_decide; [eexists _, _; split; [done|]; lia|].
  destruct (k_mmap k 0 _); cbn [negb]; [|eexists _, _; split; [done|]; lia].
  assert (0 ≤ map_len page size 0 / page ≤ window page size / page) as Hn.
  { split; [apply Z.div_pos; lia|apply Z.div_le_mono; lia]. }
  rewrite wadd_small by (unfold u64, u64_max; lia). rewrite Z.add_0_l.
  destruct (k_mincore k 0 _) as [vec|].
  - pose proof (resident_pages_bounds _ vec (proj1 Hn)).
    rewrite Hstop by (done || (destruct Hor; [left|right]; lia)).
    eexists _, _. split; [done|]. lia.
  - rewrite Hstop by (done || (destruct Hor; [left|right]; lia)).
    eexists _, _. split; [done|]. lia.
Qed.

(** Up to 64 windows' worth of file the step is one window, so that with a page
    size that divides it every offset is one [mmap] accepts. *)
Theorem probe_step_aligned page size : 1 ≤ page → (page | PROBE_WINDOW_BYTES) →
  PROBE_WINDOW_BYTES ≤ size ≤ MAX_PROBE_WINDOWS * PROBE_WINDOW_BYTES →
  probe_step page size = PROBE_WINDOW_BYTES ∧ probe_step page size mod page = 0.
Proof.
  intros Hp Hdiv Hs. pose proof (Z.divide_pos_le page PROBE_WINDOW_BYTES ltac:(by vm_compute) Hdiv) as Hle.
  assert (window page size = PROBE_WINDOW_BYTES) as Hw by (unfold window; lia).
  assert (probe_step page size = PROBE_WINDOW_BYTES) as Hst.
  { unfold probe_step, nwin. rewrite Hw. change PROBE_WINDOW_BYTES with 1048576 in *.
    unfold MAX_PROBE_WINDOWS in *. pose proof (div_ceil_spec size 1048576 ltac:(lia)).
    set (n := div_ceil size 1048576) in *. assert (n ≤ 64) by nia. assert (1 ≤ n) by nia.
    replace ((n `max` 1) `min` 64) with n by lia. apply Z.max_l.
    apply Z.div_le_upper_bound; lia. }
  rewrite Hst. split; [done|]. apply Z.mod_divide; [lia|done].
Qed.

(** A buffer is at least as long as asked, non-empty, and its alignment is a
    power of two of at least 64 that is not below the one asked for. *)
Theorem buffer_layout_spec size align s a : 0 ≤ size → 0 ≤ align →
  buffer_layout size align = Some (s, a) →
  size ≤ s ∧ 0 < s ∧ align ≤ a ∧ 64 ≤ a ∧ ∃ n, 0 ≤ n ∧ a = 2 ^ n.
Proof.
  intros Hs Ha. unfold buffer_layout. case_decide; [|done]. intros [= <- <-].
  unfold next_power_of_two. pose proof (Z.log2_up_spec (align `max` 64) ltac:(lia)) as [_ Hu].
  split; [lia|]. split; [lia|]. split; [lia|]. split; [lia|].
  exists (Z.log2_up (align `max` 64)). split; [apply Z.log2_up_nonneg|done].
Qed.

(** A buffer from an allocator that honours its layout is never empty and is
    aligned to every power of two up to the alignment asked for. *)
Theorem buf_new_aligned alloc size align b n : 0 ≤ size → 0 ≤ align →
  (∀ l, alloc l mod l.2 = 0) → buf_new alloc size align = Some b →
  0 ≤ n → 2 ^ n ≤ align →
  size ≤ buf_len b ∧ buf_is_empty b = false ∧ buf_is_aligned b (2 ^ n) = true.
Proof.
  intros Hs Ha Hal. unfold buf_new. intros ([s a] & Hl & H)%bind_Some. case_decide; [done|].
  injection H as <-. intros Hn Hle. pose proof (Hal (s, a)) as Hm.
  destruct (buffer_layout_spec size align s a) as (H1 & H2 & H3 & H4 & k & Hk & ->); [done..|].
  unfold buf_len, buf_is_empty, buf_is_aligned, Fuzz.is_multiple_of, buf_len. cbn [ptr layout fst snd] in *.
  split; [done|]. split; [apply Z.eqb_neq; lia|].
  assert (n ≤ k) as Hnk by (apply (Z.pow_le_mono_r_iff 2); lia).
  rewrite decide_False by (pose proof (Z.pow_pos_nonneg 2 n); lia). apply bool_decide_eq_true.
  apply Z.mod_divide in Hm; [|pose proof (Z.pow_pos_nonneg 2 k); lia].
  apply Z.mod_divide; [pose proof (Z.pow_pos_nonneg 2 n); lia|].
  etrans; [|exact Hm]. exists (2 ^ (k - n)). rewrite <- Z.pow_add_r by lia. f_equal. lia.
Qed.

(** ** Concrete inputs *)

(** A cold file of 100 MiB and 100 bytes whose first window alone is in memory. *)
Definition demo_kernel : Kernel :=
  mkKernel (λ off _, bool_decide (off mod 4096 = 0))
    (λ off _, Some (λ _, if decide (off = 0) then 1 else 0)).
Definition demo_size : Z := 100 * PROBE_WINDOW_BYTES + 100.

Example demo_says_hot : resident_ratio demo_kernel 4096 demo_size = Some (F64.of_Z 1).
Proof. by vm_compute. Qed.

(** A file of exactly 64 windows is sampled window by window. *)
Example demo_whole : probe demo_kernel 4096 (64 * PROBE_WINDOW_BYTES) = Some (256, 16384).
Proof. by vm_compute. Qed.

Lemma probe_bounds_witness : ∃ r t, probe demo_kernel 4096 demo_size = Some (r, t) ∧ 0 ≤ r ≤ t ∧
  t < MAX_PROBE_PAGES + window 4096 demo_size / 4096.
Proof. apply (probe_bounds demo_kernel 4096 demo_size); by vm_compute. Defined.

Lemma probe_first_window_only_witness : ∃ r t, probe demo_kernel 4096 demo_size = Some (r, t) ∧
  0 ≤ r ≤ t ∧ t ≤ window 4096 demo_size / 4096.
Proof.
  apply (probe_first_window_only demo_kernel 4096 demo_size); try by vm_compute.
  intros off l Hoff. cbn. by apply bool_decide_eq_false.
Defined.

Lemma probe_step_aligned_witness :
  probe_step 4096 (64 * PROBE_WINDOW_BYTES) = PROBE_WINDOW_BYTES
  ∧ probe_step 4096 (64 * PROBE_WINDOW_BYTES) mod 4096 = 0.
Proof.
  apply (probe_step_aligned 4096); [done| |by vm_compute]. by exists 256.
Defined.

Lemma buffer_layout_spec_witness : 1000 ≤ 1000 ∧ 0 < 1000 ∧ 3000 ≤ 4096 ∧ 64 ≤ 4096 ∧
  ∃ n, 0 ≤ n ∧ 4096 = 2 ^ n.
Proof. apply (buffer_layout_spec 1000 3000); [done..|by vm_compute]. Defined.

Lemma buf_new_aligned_witness : buf_is_aligned (mkAlignedBuf (8192 * 4096) (1000, 4096)) (2 ^ 11) = true.
Proof.
  apply (buf_new_aligned (λ l, 8192 * l.2) 1000 3000 _ 11); try done. intros l. apply Z_mod_mult.
Defined.
