(* ===== verification/Selftest.v ===== *)
(** * stloader: the synthetic self-test

    Models rust-qwen-engine/crates/stloader/src/selftest.rs: the malformed and
    adversarial files, each read by the modelled reader, and the checks on the
    planner, its arithmetic and the misuse of the read interface.  A file
    written to the scratch directory and read back is its bytes; the details
    of a check are not kept. *)

From S2P Require Import Prelude Serde Rstr Utf8 Float PyJson JsonInstance Header Plan Reader Fuzz.

Record Check := mkCheck { ck_name : string; ck_pass : bool }.

Definition ok (name : string) : Check := mkCheck name true.
Definition fail (name : string) : Check := mkCheck name false.
Definition assert (name : string) (cond : bool) : Check := if cond then ok name else fail name.

Definition build (header_json : rstr) (payload : list Z) : list Z :=
  to_le_bytes 8 (len (utf8 header_json)) ++ utf8 header_json ++ payload.

(** One entry of a synthetic header. *)
Record T := mkT { t_name : string; t_dtype : string; t_shape : string; t_start : Z; t_end : Z }.

Definition entry_json (t : T) : rstr :=
  jlit "'" ++ lit (t_name t) ++ jlit "':{'dtype':'" ++ lit (t_dtype t) ++ jlit "','shape':"
  ++ lit (t_shape t) ++ jlit ",'data_offsets':[" ++ show_nat (t_start t) ++ lit "," ++ show_nat (t_end t)
  ++ lit "]}".
Definition json_of (ts : list T) : rstr := braces (join_commas (entry_json <$> ts)).

(** What [read_files] answers without touching a file, when it does. *)
Definition read_files_early (nfiles : nat) (plan : list (nat * Range)) :
    option (result io_error ReadStats) :=
  match validate_plan nfiles plan with
  | Err e => Some (Err e)
  | Ok _ => match plan with [] => Some (Ok ReadStats_default) | _ => None end
  end.

(** [io::ErrorKind::InvalidInput] *)
Definition invalid_input (e : io_error) : bool :=
  match e with PlanReferencesShard _ _ | ZeroLengthRange _ => true | _ => false end.

Section selftest.
Context {J : Type} `{SerdeJson J}.

Abbreviation header := (read_header (J:=J)).

Definition expect_reject (name : string) (bytes : list Z) : Check :=
  match header bytes with
  | Ok _ => fail name
  | Err e => match kind e with InvalidData => ok name | _ => fail name end
  end.

(** A file that must be read, and the condition on its header. *)
Definition expect_header (name : string) (bytes : list Z) (cond : ShardHeader J → bool) : Check :=
  match header bytes with
  | Ok h => assert name (cond h)
  | Err _ => fail name
  end.

Definition zeros (n : nat) : list Z := replicate n 0.

(** ** The files *)

Definition good : list Z :=
  build (json_of [mkT "a" "F32" "[1024]" 0 4096; mkT "b" "F32" "[1024]" 4096 8192])
    (replicate (Z.to_nat 8192) 0xAB).

Definition gap : Z := Z.shiftl 1 20.
Definition gapped : list Z :=
  build (json_of [mkT "a" "F32" "[1024]" 0 4096;
                  mkT "b" "F32" "[1024]" (4096 + gap) (8192 + gap)])
    (zeros (Z.to_nat (8192 + gap))).

Definition malformed : list (string * list Z) :=
  [("hdr_zero.safetensors"%string, to_le_bytes 8 0 ++ zeros 16);
   ("hdr_overrun.safetensors"%string, to_le_bytes 8 4096 ++ lit "{}");
   ("hdr_absurd.safetensors"%string, to_le_bytes 8 (Z.shiftl 1 40) ++ lit "{}");
   ("hdr_short.safetensors"%string, lit "GG");
   ("json_bad.safetensors"%string, build (lit "{not json") []);
   ("json_array.safetensors"%string, build (lit "[1,2,3]") []);
   ("entry_not_obj.safetensors"%string, build (jlit "{'a':42}") []);
   ("meta_not_obj.safetensors"%string, build (jlit "{'__metadata__':7}") []);
   ("dtype_unknown.safetensors"%string, build (json_of [mkT "a" "F7" "[4]" 0 16]) (zeros 16));
   ("missing_shape.safetensors"%string, build (jlit "{'a':{'dtype':'F32','data_offsets':[0,16]}}") (zeros 16));
   ("offsets_not_pair.safetensors"%string,
     build (jlit "{'a':{'dtype':'F32','shape':[4],'data_offsets':[0]}}") (zeros 16));
   ("end_before_start.safetensors"%string, build (json_of [mkT "a" "F32" "[4]" 100 10]) (zeros 256));
   ("end_beyond_buffer.safetensors"%string, build (json_of [mkT "a" "F32" "[256]" 0 1024]) (zeros 8));
   ("shape_dtype_mismatch.safetensors"%string, build (json_of [mkT "a" "F32" "[10]" 0 20]) (zeros 20));
   ("shape_noninteger.safetensors"%string,
     build (jlit "{'a':{'dtype':'F32','shape':['x'],'data_offsets':[0,0]}}") []);
   ("offset_u64max.safetensors"%string, build (json_of [mkT "a" "F32" "[4]" 0 u64_max]) (zeros 16));
   ("shape_overflow.safetensors"%string, build (json_of [mkT "a" "F32" "[18446744073709551615,2]" 0 0]) []);
   ("off_by_one.safetensors"%string, build (json_of [mkT "a" "F32" "[4]" 0 17]) (zeros 16))].

(** ** The checks *)

Definition check_good : Check :=
  expect_header "valid: two contiguous tensors" good (λ h,
    let plan := plan_shard h 4096 0 in
    let covered := wrap64 (zsum (rlen <$> plan)) in
    bool_decide (length (sh_tensors h) = 2%nat) && (ShardHeader.tensor_bytes h =? 8192)
    && (ShardHeader.buffer_bytes h =? 8192) && bool_decide (length plan = 1%nat) && (8192 <=? covered)).

Definition check_empty : Check :=
  expect_header "valid: zero-element tensor" (build (json_of [mkT "z" "F32" "[0]" 0 0]) []) (λ h,
    bool_decide (length (sh_tensors h) = 1%nat) && (ShardHeader.tensor_bytes h =? 0)
    && bool_decide (plan_shard h 4096 0 = [])).

Definition check_scalar : Check :=
  expect_header "valid: scalar tensor shape []" (build (json_of [mkT "s" "F32" "[]" 0 4]) (zeros 4)) (λ h,
    bool_decide (length (sh_tensors h) = 1%nat) && (ShardHeader.tensor_bytes h =? 4)).

Definition check_gap : Check :=
  expect_header "gap: merge respects max_gap" gapped (λ h,
    bool_decide (length (plan_shard h 4096 0) = 2%nat)
    && bool_decide (length (plan_shard h 4096 (gap * 2)) = 1%nat)).

Definition check_arithmetic : list Check :=
  [assert "arithmetic: ceil_to saturates, floor_to safe, no panic"
     ((floor_to u64_max 4096 <=? ceil_to u64_max 4096) && (ceil_to 0 4096 =? 0) && (ceil_to 1 0 =? 1));
   assert "arithmetic: shape_numel overflow -> None"
     (bool_decide (shape_numel [u64_max; 2] = None) && bool_decide (shape_numel [2; 3; 4] = Some 24)
      && bool_decide (shape_numel [] = Some 1))].

Definition rejected (r : option (result io_error ReadStats)) : bool :=
  match r with Some (Err e) => invalid_input e | _ => false end.

Definition check_misuse : list Check :=
  [assert "api: out-of-range shard index rejected"
     (rejected (read_files_early 1 [(7%nat, mkRange 0 4096)]));
   assert "api: zero-length range rejected" (rejected (read_files_early 1 [(0%nat, mkRange 0 0)]));
   assert "api: empty plan is a no-op"
     (match read_files_early 1 [] with
      | Some (Ok s) => (Reader.bytes s =? 0) && (requests s =? 0)
      | _ => false
      end)].

(** [windows(2)] *)
Definition windows2 {A} (l : list A) : list (A * A) := combine l (drop 1 l).

(** [None] is the error of reading the file again. *)
Definition check_plan_shape : option Check :=
  match header good with
  | Err _ => None
  | Ok h =>
      let headers := [h] in
      let plan := plan_model headers 4096 0 in
      Some (assert "plan: no zero-length, in-range, non-overlapping"
        (forallb (λ p, rlen p.2 >? 0) plan
         && forallb (λ p, bool_decide (p.1 < length headers)%nat) plan
         && forallb (λ w, Range.fin w.1.2 <=? offset w.2.2) (windows2 plan)))
  end.

(** [run]: [None] when it stops at an error of its own. *)
Definition run : option (list Check) :=
  let out := check_good :: ((λ f, expect_reject f.1 f.2) <$> malformed)
             ++ [check_empty; check_scalar; check_gap] ++ check_arithmetic ++ check_misuse in
  last ← check_plan_shape;
  Some (out ++ [last]).
End selftest.

(** ** What it shows *)

(** The early answers are the only ones the reader can give. *)
Lemma read_files_early_sound nfiles opened ring plan cfg r : read_files_early nfiles plan = Some r →
  ∀ r', read_files nfiles opened ring plan cfg r' ↔ r' = r.
Proof.
  unfold read_files_early. destruct (validate_plan nfiles plan) as [[]|e] eqn:Hv.
  - destruct plan as [|p plan]; [|done]. intros [= <-] r'. split; [|intros ->; by apply read_empty].
    intros Hr. inversion Hr; congruence.
  - intros [= <-] r'. assert (plan ≠ []) by (by intros ->). split.
    + intros Hr. inversion Hr; congruence.
    + intros ->. by apply read_invalid.
Qed.

(** Every check of the repository's own self-test passes on the models of the
    reader, the planner and the read interface, and none of them is stopped
    by an error. *)
Theorem selftest_passes : ∃ checks,
  run (J:=Value) = Some checks ∧ length checks = 28%nat ∧ Forall (λ c, ck_pass c = true) checks.
Proof.
  assert (match run (J:=Value) with
          | Some checks => bool_decide (length checks = 28%nat) && forallb ck_pass checks
          | None => false
          end = true) as Hr by (by vm_compute).
  destruct run as [checks|]; [|done]. exists checks.
  apply andb_true_iff in Hr as [Hl Hp]. apply bool_decide_eq_true in Hl. split; [done|]. split; [done|].
  apply Forall_forall. intros c Hc%list_elem_of_In. rewrite forallb_forall in Hp. by apply Hp.
Qed.
