(* ===== verification/UnicodeTables.v ===== *)
(** * shell-text: the generated Unicode tables

    The data of shell/crates/shell-text/src/unicode_tables.rs, entry for entry
    (Unicode version 13 general categories, decompositions, combining classes
    and compositions).  [UnicodeGc] proves what the lookups need of them. *)

From S2P Require Import Prelude.

(** Inclusive ranges of General_Category L. *)
Definition LETTER_RANGES : list (Z * Z) :=
  [(0x41,0x5A); (0x61,0x7A); (0xAA,0xAA); (0xB5,0xB5); (0xBA,0xBA); (0xC0,0xD6); (0xD8,0xF6);
   (0xF8,0x2C1); (0x2C6,0x2D1); (0x2E0,0x2E4); (0x2EC,0x2EC); (0x2EE,0x2EE); (0x370,0x374);
   (0x376,0x377); (0x37A,0x37D); (0x37F,0x37F); (0x386,0x386); (0x388,0x38A); (0x38C,0x38C);
   (0x38E,0x3A1); (0x3A3,0x3F5); (0x3F7,0x481); (0x48A,0x52F); (0x531,0x556); (0x559,0x559);
   (0x560,0x588); (0x5D0,0x5EA); (0x5EF,0x5F2); (0x620,0x64A); (0x66E,0x66F); (0x671,0x6D3);
   (0x6D5,0x6D5); (0x6E5,0x6E6); (0x6EE,0x6EF); (0x6FA,0x6FC); (0x6FF,0x6FF); (0x710,0x710);
   (0x712,0x72F); (0x74D,0x7A5); (0x7B1,0x7B1); (0x7CA,0x7EA); (0x7F4,0x7F5); (0x7FA,0x7FA);
   (0x800,0x815); (0x81A,0x81A); (0x824,0x824); (0x828,0x828); (0x840,0x858); (0x860,0x86A);
   (0x8A0,0x8B4); (0x8B6,0x8C7); (0x904,0x939); (0x93D,0x93D); (0x950,0x950); (0x958,0x961);
   (0x971,0x980); (0x985,0x98C); (0x98F,0x990); (0x993,0x9A8); (0x9AA,0x9B0); (0x9B2,0x9B2);
   (0x9B6,0x9B9); (0x9BD,0x9BD); (0x9CE,0x9CE); (0x9DC,0x9DD); (0x9DF,0x9E1); (0x9F0,0x9F1);
   (0x9FC,0x9FC); (0xA05,0xA0A); (0xA0F,0xA10); (0xA13,0xA28); (0xA2A,0xA30); (0xA32,0xA33);
   (0xA35,0xA36); (0xA38,0xA39); (0xA59,0xA5C); (0xA5E,0xA5E); (0xA72,0xA74); (0xA85,0xA8D);
   (0xA8F,0xA91); (0xA93,0xAA8); (0xAAA,0xAB0); (0xAB2,0xAB3); (0xAB5,0xAB9); (0xABD,0xABD);
   (0xAD0,0xAD0); (0xAE0,0xAE1); (0xAF9,0xAF9); (0xB05,0xB0C); (0xB0F,0xB10); (0xB13,0xB28);
   (0xB2A,0xB30); (0xB32,0xB33); (0xB35,0xB39); (0xB3D,0xB3D); (0xB5C,0xB5D); (0xB5F,0xB61);
   (0xB71,0xB71); (0xB83,0xB83); (0xB85,0xB8A); (0xB8E,0xB90); (0xB92,0xB95); (0xB99,0xB9A);
   (0xB9C,0xB9C); (0xB9E,0xB9F); (0xBA3,0xBA4); (0xBA8,0xBAA); (0xBAE,0xBB9); (0xBD0,0xBD0);
   (0xC05,0xC0C); (0xC0E,0xC10); (0xC12,0xC28); (0xC2A,0xC39); (0xC3D,0xC3D); (0xC58,0xC5A);
   (0xC60,0xC61); (0xC80,0xC80); (0xC85,0xC8C); (0xC8E,0xC90); (0xC92,0xCA8); (0xCAA,0xCB3);
   (0xCB5,0xCB9); (0xCBD,0xCBD); (0xCDE,0xCDE); (0xCE0,0xCE1); (0xCF1,0xCF2); (0xD04,0xD0C);
   (0xD0E,0xD10); (0xD12,0xD3A); (0xD3D,0xD3D); (0xD4E,0xD4E); (0xD54,0xD56); (0xD5F,0xD61);
   (0xD7A,0xD7F); (0xD85,0xD96); (0xD9A,0xDB1); (0xDB3,0xDBB); (0xDBD,0xDBD); (0xDC0,0xDC6);
   (0xE01,0xE30); (0xE32,0xE33); (0xE40,0xE46); (0xE81,0xE82); (0xE84,0xE84); (0xE86,0xE8A);
   (0xE8C,0xEA3); (0xEA5,0xEA5); (0xEA7,0xEB0); (0xEB2,0xEB3); (0xEBD,0xEBD); (0xEC0,0xEC4);
   (0xEC6,0xEC6); (0xEDC,0xEDF); (0xF00,0xF00); (0xF40,0xF47); (0xF49,0xF6C); (0xF88,0xF8C);
   (0x1000,0x102A); (0x103F,0x103F); (0x1050,0x1055); (0x105A,0x105D); (0x1061,0x1061);
   (0x1065,0x1066); (0x106E,0x1070); (0x1075,0x1081); (0x108E,0x108E); (0x10A0,0x10C5);
   (0x10C7,0x10C7); (0x10CD,0x10CD); (0x10D0,0x10FA); (0x10FC,0x1248); (0x124A,0x124D);
   (0x1250,0x1256); (0x1258,0x1258); (0x125A,0x125D); (0x1260,0x1288); (0x128A,0x128D);
   (0x1290,0x12B0); (0x12B2,0x12B5); (0x12B8,0x12BE); (0x12C0,0x12C0); (0x12C2,0x12C5);
   (0x12C8,0x12D6); (0x12D8,0x1310); (0x1312,0x1315); (0x1318,0x135A); (0x1380,0x138F);
   (0x13A0,0x13F5); (0x13F8,0x13FD); (0x1401,0x166C); (0x166F,0x167F); (0x1681,0x169A);
   (0x16A0,0x16EA); (0x16F1,0x16F8); (0x1700,0x170C); (0x170E,0x1711); (0x1720,0x1731);
   (0x1740,0x1751); (0x1760,0x176C); (0x176E,0x1770); (0x1780,0x17B3); (0x17D7,0x17D7);
   (0x17DC,0x17DC); (0x1820,0x1878); (0x1880,0x1884); (0x1887,0x18A8); (0x18AA,0x18AA);
   (0x18B0,0x18F5); (0x1900,0x191E); (0x1950,0x196D); (0x1970,0x1974); (0x1980,0x19AB);
   (0x19B0,0x19C9); (0x1A00,0x1A16); (0x1A20,0x1A54); (0x1AA7,0x1AA7); (0x1B05,0x1B33);
   (0x1B45,0x1B4B); (0x1B83,0x1BA0); (0x1BAE,0x1BAF); (0x1BBA,0x1BE5); (0x1C00,0x1C23);
   (0x1C4D,0x1C4F); (0x1C5A,0x1C7D); (0x1C80,0x1C88); (0x1C90,0x1CBA); (0x1CBD,0x1CBF);
   (0x1CE9,0x1CEC); (0x1CEE,0x1CF3); (0x1CF5,0x1CF6); (0x1CFA,0x1CFA); (0x1D00,0x1DBF);
   (0x1E00,0x1F15); (0x1F18,0x1F1D); (0x1F20,0x1F45); (0x1F48,0x1F4D); (0x1F50,0x1F57);
   (0x1F59,0x1F59); (0x1F5B,0x1F5B); (0x1F5D,0x1F5D); (0x1F5F,0x1F7D); (0x1F80,0x1FB4);
   (0x1FB6,0x1FBC); (0x1FBE,0x1FBE); (0x1FC2,0x1FC4); (0x1FC6,0x1FCC); (0x1FD0,0x1FD3);
   (0x1FD6,0x1FDB); (0x1FE0,0x1FEC); (0x1FF2,0x1FF4); (0x1FF6,0x1FFC); (0x2071,0x2071);
   (0x207F,0x207F); (0x2090,0x209C); (0x2102,0x2102); (0x2107,0x2107); (0x210A,0x2113);
   (0x2115,0x2115); (0x2119,0x211D); (0x2124,0x2124); (0x2126,0x2126); (0x2128,0x2128);
   (0x212A,0x212D); (0x212F,0x2139); (0x213C,0x213F); (0x2145,0x2149); (0x214E,0x214E);
   (0x2183,0x2184); (0x2C00,0x2C2E); (0x2C30,0x2C5E); (0x2C60,0x2CE4); (0x2CEB,0x2CEE);
   (0x2CF2,0x2CF3); (0x2D00,0x2D25); (0x2D27,0x2D27); (0x2D2D,0x2D2D); (0x2D30,0x2D67);
   (0x2D6F,0x2D6F); (0x2D80,0x2D96); (0x2DA0,0x2DA6); (0x2DA8,0x2DAE); (0x2DB0,0x2DB6);
   (0x2DB8,0x2DBE); (0x2DC0,0x2DC6); (0x2DC8,0x2DCE); (0x2DD0,0x2DD6); (0x2DD8,0x2DDE);
   (0x2E2F,0x2E2F); (0x3005,0x3006); (0x3031,0x3035); (0x303B,0x303C); (0x3041,0x3096);
   (0x309D,0x309F); (0x30A1,0x30FA); (0x30FC,0x30FF); (0x3105,0x312F); (0x3131,0x318E);
   (0x31A0,0x31BF); (0x31F0,0x31FF); (0x3400,0x4DBF); (0x4E00,0x9FFC); (0xA000,0xA48C);
   (0xA4D0,0xA4FD); (0xA500,0xA60C); (0xA610,0xA61F); (0xA62A,0xA62B); (0xA640,0xA66E);
   (0xA67F,0xA69D); (0xA6A0,0xA6E5); (0xA717,0xA71F); (0xA722,0xA788); (0xA78B,0xA7BF);
   (0xA7C2,0xA7CA); (0xA7F5,0xA801); (0xA803,0xA805); (0xA807,0xA80A); (0xA80C,0xA822);
   (0xA840,0xA873); (0xA882,0xA8B3); (0xA8F2,0xA8F7); (0xA8FB,0xA8FB); (0xA8FD,0xA8FE);
   (0xA90A,0xA925); (0xA930,0xA946); (0xA960,0xA97C); (0xA984,0xA9B2); (0xA9CF,0xA9CF);
   (0xA9E0,0xA9E4); (0xA9E6,0xA9EF); (0xA9FA,0xA9FE); (0xAA00,0xAA28); (0xAA40,0xAA42);
   (0xAA44,0xAA4B); (0xAA60,0xAA76); (0xAA7A,0xAA7A); (0xAA7E,0xAAAF); (0xAAB1,0xAAB1);
   (0xAAB5,0xAAB6); (0xAAB9,0xAABD); (0xAAC0,0xAAC0); (0xAAC2,0xAAC2); (0xAADB,0xAADD);
   (0xAAE0,0xAAEA); (0xAAF2,0xAAF4); (0xAB01,0xAB06); (0xAB09,0xAB0E); (0xAB11,0xAB16);
   (0xAB20,0xAB26); (0xAB28,0xAB2E); (0xAB30,0xAB5A); (0xAB5C,0xAB69); (0xAB70,0xABE2);
   (0xAC00,0xD7A3); (0xD7B0,0xD7C6); (0xD7CB,0xD7FB); (0xF900,0xFA6D); (0xFA70,0xFAD9);
   (0xFB00,0xFB06); (0xFB13,0xFB17); (0xFB1D,0xFB1D); (0xFB1F,0xFB28); (0xFB2A,0xFB36);
   (0xFB38,0xFB3C); (0xFB3E,0xFB3E); (0xFB40,0xFB41); (0xFB43,0xFB44); (0xFB46,0xFBB1);
   (0xFBD3,0xFD3D); (0xFD50,0xFD8F); (0xFD92,0xFDC7); (0xFDF0,0xFDFB); (0xFE70,0xFE74);
   (0xFE76,0xFEFC); (0xFF21,0xFF3A); (0xFF41,0xFF5A); (0xFF66,0xFFBE); (0xFFC2,0xFFC7);
   (0xFFCA,0xFFCF); (0xFFD2,0xFFD7); (0xFFDA,0xFFDC); (0x10000,0x1000B); (0x1000D,0x10026);
   (0x10028,0x1003A); (0x1003C,0x1003D); (0x1003F,0x1004D); (0x10050,0x1005D); (0x10080,0x100FA);
   (0x10280,0x1029C); (0x102A0,0x102D0); (0x10300,0x1031F); (0x1032D,0x10340); (0x10342,0x10349);
   (0x10350,0x10375); (0x10380,0x1039D); (0x103A0,0x103C3); (0x103C8,0x103CF); (0x10400,0x1049D);
   (0x104B0,0x104D3); (0x104D8,0x104FB); (0x10500,0x10527); (0x10530,0x10563); (0x10600,0x10736);
   (0x10740,0x10755); (0x10760,0x10767); (0x10800,0x10805); (0x10808,0x10808); (0x1080A,0x10835);
   (0x10837,0x10838); (0x1083C,0x1083C); (0x1083F,0x10855); (0x10860,0x10876); (0x10880,0x1089E);
   (0x108E0,0x108F2); (0x108F4,0x108F5); (0x10900,0x10915); (0x10920,0x10939); (0x10980,0x109B7);
   (0x109BE,0x109BF); (0x10A00,0x10A00); (0x10A10,0x10A13); (0x10A15,0x10A17); (0x10A19,0x10A35);
   (0x10A60,0x10A7C); (0x10A80,0x10A9C); (0x10AC0,0x10AC7); (0x10AC9,0x10AE4); (0x10B00,0x10B35);
   (0x10B40,0x10B55); (0x10B60,0x10B72); (0x10B80,0x10B91); (0x10C00,0x10C48); (0x10C80,0x10CB2);
   (0x10CC0,0x10CF2); (0x10D00,0x10D23); (0x10E80,0x10EA9); (0x10EB0,0x10EB1); (0x10F00,0x10F1C);
   (0x10F27,0x10F27); (0x10F30,0x10F45); (0x10FB0,0x10FC4); (0x10FE0,0x10FF6); (0x11003,0x11037);
   (0x11083,0x110AF); (0x110D0,0x110E8); (0x11103,0x11126); (0x11144,0x11144); (0x11147,0x11147);
   (0x11150,0x11172); (0x11176,0x11176); (0x11183,0x111B2); (0x111C1,0x111C4); (0x111DA,0x111DA);
   (0x111DC,0x111DC); (0x11200,0x11211); (0x11213,0x1122B); (0x11280,0x11286); (0x11288,0x11288);
   (0x1128A,0x1128D); (0x1128F,0x1129D); (0x1129F,0x112A8); (0x112B0,0x112DE); (0x11305,0x1130C);
   (0x1130F,0x11310); (0x11313,0x11328); (0x1132A,0x11330); (0x11332,0x11333); (0x11335,0x11339);
   (0x1133D,0x1133D); (0x11350,0x11350); (0x1135D,0x11361); (0x11400,0x11434); (0x11447,0x1144A);
   (0x1145F,0x11461); (0x11480,0x114AF); (0x114C4,0x114C5); (0x114C7,0x114C7); (0x11580,0x115AE);
   (0x115D8,0x115DB); (0x11600,0x1162F); (0x11644,0x11644); (0x11680,0x116AA); (0x116B8,0x116B8);
   (0x11700,0x1171A); (0x11800,0x1182B); (0x118A0,0x118DF); (0x118FF,0x11906); (0x11909,0x11909);
   (0x1190C,0x11913); (0x11915,0x11916); (0x11918,0x1192F); (0x1193F,0x1193F); (0x11941,0x11941);
   (0x119A0,0x119A7); (0x119AA,0x119D0); (0x119E1,0x119E1); (0x119E3,0x119E3); (0x11A00,0x11A00);
   (0x11A0B,0x11A32); (0x11A3A,0x11A3A); (0x11A50,0x11A50); (0x11A5C,0x11A89); (0x11A9D,0x11A9D);
   (0x11AC0,0x11AF8); (0x11C00,0x11C08); (0x11C0A,0x11C2E); (0x11C40,0x11C40); (0x11C72,0x11C8F);
   (0x11D00,0x11D06); (0x11D08,0x11D09); (0x11D0B,0x11D30); (0x11D46,0x11D46); (0x11D60,0x11D65);
   (0x11D67,0x11D68); (0x11D6A,0x11D89); (0x11D98,0x11D98); (0x11EE0,0x11EF2); (0x11FB0,0x11FB0);
   (0x12000,0x12399); (0x12480,0x12543); (0x13000,0x1342E); (0x14400,0x14646); (0x16800,0x16A38);
   (0x16A40,0x16A5E); (0x16AD0,0x16AED); (0x16B00,0x16B2F); (0x16B40,0x16B43); (0x16B63,0x16B77);
   (0x16B7D,0x16B8F); (0x16E40,0x16E7F); (0x16F00,0x16F4A); (0x16F50,0x16F50); (0x16F93,0x16F9F);
   (0x16FE0,0x16FE1); (0x16FE3,0x16FE3); (0x17000,0x187F7); (0x18800,0x18CD5); (0x18D00,0x18D08);
   (0x1B000,0x1B11E); (0x1B150,0x1B152); (0x1B164,0x1B167); (0x1B170,0x1B2FB); (0x1BC00,0x1BC6A);
   (0x1BC70,0x1BC7C); (0x1BC80,0x1BC88); (0x1BC90,0x1BC99); (0x1D400,0x1D454); (0x1D456,0x1D49C);
   (0x1D49E,0x1D49F); (0x1D4A2,0x1D4A2); (0x1D4A5,0x1D4A6); (0x1D4A9,0x1D4AC); (0x1D4AE,0x1D4B9);
   (0x1D4BB,0x1D4BB); (0x1D4BD,0x1D4C3); (0x1D4C5,0x1D505); (0x1D507,0x1D50A); (0x1D50D,0x1D514);
   (0x1D516,0x1D51C); (0x1D51E,0x1D539); (0x1D53B,0x1D53E); (0x1D540,0x1D544); (0x1D546,0x1D546);
   (0x1D54A,0x1D550); (0x1D552,0x1D6A5); (0x1D6A8,0x1D6C0); (0x1D6C2,0x1D6DA); (0x1D6DC,0x1D6FA);
   (0x1D6FC,0x1D714); (0x1D716,0x1D734); (0x1D736,0x1D74E); (0x1D750,0x1D76E); (0x1D770,0x1D788);
   (0x1D78A,0x1D7A8); (0x1D7AA,0x1D7C2); (0x1D7C4,0x1D7CB); (0x1E100,0x1E12C); (0x1E137,0x1E13D);
   (0x1E14E,0x1E14E); (0x1E2C0,0x1E2EB); (0x1E800,0x1E8C4); (0x1E900,0x1E943); (0x1E94B,0x1E94B);
   (0x1EE00,0x1EE03); (0x1EE05,0x1EE1F); (0x1EE21,0x1EE22); (0x1EE24,0x1EE24); (0x1EE27,0x1EE27);
   (0x1EE29,0x1EE32); (0x1EE34,0x1EE37); (0x1EE39,0x1EE39); (0x1EE3B,0x1EE3B); (0x1EE42,0x1EE42);
   (0x1EE47,0x1EE47); (0x1EE49,0x1EE49); (0x1EE4B,0x1EE4B); (0x1EE4D,0x1EE4F); (0x1EE51,0x1EE52);
   (0x1EE54,0x1EE54); (0x1EE57,0x1EE57); (0x1EE59,0x1EE59); (0x1EE5B,0x1EE5B); (0x1EE5D,0x1EE5D);
   (0x1EE5F,0x1EE5F); (0x1EE61,0x1EE62); (0x1EE64,0x1EE64); (0x1EE67,0x1EE6A); (0x1EE6C,0x1EE72);
   (0x1EE74,0x1EE77); (0x1EE79,0x1EE7C); (0x1EE7E,0x1EE7E); (0x1EE80,0x1EE89); (0x1EE8B,0x1EE9B);
   (0x1EEA1,0x1EEA3); (0x1EEA5,0x1EEA9); (0x1EEAB,0x1EEBB); (0x20000,0x2A6DD); (0x2A700,0x2B734);
   (0x2B740,0x2B81D); (0x2B820,0x2CEA1); (0x2CEB0,0x2EBE0); (0x2F800,0x2FA1D); (0x30000,0x3134A)].

(** Inclusive ranges of General_Category M. *)
Definition MARK_RANGES : list (Z * Z) :=
  [(0x300,0x36F); (0x483,0x489); (0x591,0x5BD); (0x5BF,0x5BF); (0x5C1,0x5C2); (0x5C4,0x5C5);
   (0x5C7,0x5C7); (0x610,0x61A); (0x64B,0x65F); (0x670,0x670); (0x6D6,0x6DC); (0x6DF,0x6E4);
   (0x6E7,0x6E8); (0x6EA,0x6ED); (0x711,0x711); (0x730,0x74A); (0x7A6,0x7B0); (0x7EB,0x7F3);
   (0x7FD,0x7FD); (0x816,0x819); (0x81B,0x823); (0x825,0x827); (0x829,0x82D); (0x859,0x85B);
   (0x8D3,0x8E1); (0x8E3,0x903); (0x93A,0x93C); (0x93E,0x94F); (0x951,0x957); (0x962,0x963);
   (0x981,0x983); (0x9BC,0x9BC); (0x9BE,0x9C4); (0x9C7,0x9C8); (0x9CB,0x9CD); (0x9D7,0x9D7);
   (0x9E2,0x9E3); (0x9FE,0x9FE); (0xA01,0xA03); (0xA3C,0xA3C); (0xA3E,0xA42); (0xA47,0xA48);
   (0xA4B,0xA4D); (0xA51,0xA51); (0xA70,0xA71); (0xA75,0xA75); (0xA81,0xA83); (0xABC,0xABC);
   (0xABE,0xAC5); (0xAC7,0xAC9); (0xACB,0xACD); (0xAE2,0xAE3); (0xAFA,0xAFF); (0xB01,0xB03);
   (0xB3C,0xB3C); (0xB3E,0xB44); (0xB47,0xB48); (0xB4B,0xB4D); (0xB55,0xB57); (0xB62,0xB63);
   (0xB82,0xB82); (0xBBE,0xBC2); (0xBC6,0xBC8); (0xBCA,0xBCD); (0xBD7,0xBD7); (0xC00,0xC04);
   (0xC3E,0xC44); (0xC46,0xC48); (0xC4A,0xC4D); (0xC55,0xC56); (0xC62,0xC63); (0xC81,0xC83);
   (0xCBC,0xCBC); (0xCBE,0xCC4); (0xCC6,0xCC8); (0xCCA,0xCCD); (0xCD5,0xCD6); (0xCE2,0xCE3);
   (0xD00,0xD03); (0xD3B,0xD3C); (0xD3E,0xD44); (0xD46,0xD48); (0xD4A,0xD4D); (0xD57,0xD57);
   (0xD62,0xD63); (0xD81,0xD83); (0xDCA,0xDCA); (0xDCF,0xDD4); (0xDD6,0xDD6); (0xDD8,0xDDF);
   (0xDF2,0xDF3); (0xE31,0xE31); (0xE34,0xE3A); (0xE47,0xE4E); (0xEB1,0xEB1); (0xEB4,0xEBC);
   (0xEC8,0xECD); (0xF18,0xF19); (0xF35,0xF35); (0xF37,0xF37); (0xF39,0xF39); (0xF3E,0xF3F);
   (0xF71,0xF84); (0xF86,0xF87); (0xF8D,0xF97); (0xF99,0xFBC); (0xFC6,0xFC6); (0x102B,0x103E);
   (0x1056,0x1059); (0x105E,0x1060); (0x1062,0x1064); (0x1067,0x106D); (0x1071,0x1074);
   (0x1082,0x108D); (0x108F,0x108F); (0x109A,0x109D); (0x135D,0x135F); (0x1712,0x1714);
   (0x1732,0x1734); (0x1752,0x1753); (0x1772,0x1773); (0x17B4,0x17D3); (0x17DD,0x17DD);
   (0x180B,0x180D); (0x1885,0x1886); (0x18A9,0x18A9); (0x1920,0x192B); (0x1930,0x193B);
   (0x1A17,0x1A1B); (0x1A55,0x1A5E); (0x1A60,0x1A7C); (0x1A7F,0x1A7F); (0x1AB0,0x1AC0);
   (0x1B00,0x1B04); (0x1B34,0x1B44); (0x1B6B,0x1B73); (0x1B80,0x1B82); (0x1BA1,0x1BAD);
   (0x1BE6,0x1BF3); (0x1C24,0x1C37); (0x1CD0,0x1CD2); (0x1CD4,0x1CE8); (0x1CED,0x1CED);
   (0x1CF4,0x1CF4); (0x1CF7,0x1CF9); (0x1DC0,0x1DF9); (0x1DFB,0x1DFF); (0x20D0,0x20F0);
   (0x2CEF,0x2CF1); (0x2D7F,0x2D7F); (0x2DE0,0x2DFF); (0x302A,0x302F); (0x3099,0x309A);
   (0xA66F,0xA672); (0xA674,0xA67D); (0xA69E,0xA69F); (0xA6F0,0xA6F1); (0xA802,0xA802);
   (0xA806,0xA806); (0xA80B,0xA80B); (0xA823,0xA827); (0xA82C,0xA82C); (0xA880,0xA881);
   (0xA8B4,0xA8C5); (0xA8E0,0xA8F1); (0xA8FF,0xA8FF); (0xA926,0xA92D); (0xA947,0xA953);
   (0xA980,0xA983); (0xA9B3,0xA9C0); (0xA9E5,0xA9E5); (0xAA29,0xAA36); (0xAA43,0xAA43);
   (0xAA4C,0xAA4D); (0xAA7B,0xAA7D); (0xAAB0,0xAAB0); (0xAAB2,0xAAB4); (0xAAB7,0xAAB8);
   (0xAABE,0xAABF); (0xAAC1,0xAAC1); (0xAAEB,0xAAEF); (0xAAF5,0xAAF6); (0xABE3,0xABEA);
   (0xABEC,0xABED); (0xFB1E,0xFB1E); (0xFE00,0xFE0F); (0xFE20,0xFE2F); (0x101FD,0x101FD);
   (0x102E0,0x102E0); (0x10376,0x1037A); (0x10A01,0x10A03); (0x10A05,0x10A06); (0x10A0C,0x10A0F);
   (0x10A38,0x10A3A); (0x10A3F,0x10A3F); (0x10AE5,0x10AE6); (0x10D24,0x10D27); (0x10EAB,0x10EAC);
   (0x10F46,0x10F50); (0x11000,0x11002); (0x11038,0x11046); (0x1107F,0x11082); (0x110B0,0x110BA);
   (0x11100,0x11102); (0x11127,0x11134); (0x11145,0x11146); (0x11173,0x11173); (0x11180,0x11182);
   (0x111B3,0x111C0); (0x111C9,0x111CC); (0x111CE,0x111CF); (0x1122C,0x11237); (0x1123E,0x1123E);
   (0x112DF,0x112EA); (0x11300,0x11303); (0x1133B,0x1133C); (0x1133E,0x11344); (0x11347,0x11348);
   (0x1134B,0x1134D); (0x11357,0x11357); (0x11362,0x11363); (0x11366,0x1136C); (0x11370,0x11374);
   (0x11435,0x11446); (0x1145E,0x1145E); (0x114B0,0x114C3); (0x115AF,0x115B5); (0x115B8,0x115C0);
   (0x115DC,0x115DD); (0x11630,0x11640); (0x116AB,0x116B7); (0x1171D,0x1172B); (0x1182C,0x1183A);
   (0x11930,0x11935); (0x11937,0x11938); (0x1193B,0x1193E); (0x11940,0x11940); (0x11942,0x11943);
   (0x119D1,0x119D7); (0x119DA,0x119E0); (0x119E4,0x119E4); (0x11A01,0x11A0A); (0x11A33,0x11A39);
   (0x11A3B,0x11A3E); (0x11A47,0x11A47); (0x11A51,0x11A5B); (0x11A8A,0x11A99); (0x11C2F,0x11C36);
   (0x11C38,0x11C3F); (0x11C92,0x11CA7); (0x11CA9,0x11CB6); (0x11D31,0x11D36); (0x11D3A,0x11D3A);
   (0x11D3C,0x11D3D); (0x11D3F,0x11D45); (0x11D47,0x11D47); (0x11D8A,0x11D8E); (0x11D90,0x11D91);
   (0x11D93,0x11D97); (0x11EF3,0x11EF6); (0x16AF0,0x16AF4); (0x16B30,0x16B36); (0x16F4F,0x16F4F);
   (0x16F51,0x16F87); (0x16F8F,0x16F92); (0x16FE4,0x16FE4); (0x16FF0,0x16FF1); (0x1BC9D,0x1BC9E);
   (0x1D165,0x1D169); (0x1D16D,0x1D172); (0x1D17B,0x1D182); (0x1D185,0x1D18B); (0x1D1AA,0x1D1AD);
   (0x1D242,0x1D244); (0x1DA00,0x1DA36); (0x1DA3B,0x1DA6C); (0x1DA75,0x1DA75); (0x1DA84,0x1DA84);
   (0x1DA9B,0x1DA9F); (0x1DAA1,0x1DAAF); (0x1E000,0x1E006); (0x1E008,0x1E018); (0x1E01B,0x1E021);
   (0x1E023,0x1E024); (0x1E026,0x1E02A); (0x1E130,0x1E136); (0x1E2EC,0x1E2EF); (0x1E8D0,0x1E8D6);
   (0x1E944,0x1E94A); (0xE0100,0xE01EF)].

(** Inclusive ranges of General_Category N. *)
Definition NUMBER_RANGES : list (Z * Z) :=
  [(0x30,0x39); (0xB2,0xB3); (0xB9,0xB9); (0xBC,0xBE); (0x660,0x669); (0x6F0,0x6F9);
   (0x7C0,0x7C9); (0x966,0x96F); (0x9E6,0x9EF); (0x9F4,0x9F9); (0xA66,0xA6F); (0xAE6,0xAEF);
   (0xB66,0xB6F); (0xB72,0xB77); (0xBE6,0xBF2); (0xC66,0xC6F); (0xC78,0xC7E); (0xCE6,0xCEF);
   (0xD58,0xD5E); (0xD66,0xD78); (0xDE6,0xDEF); (0xE50,0xE59); (0xED0,0xED9); (0xF20,0xF33);
   (0x1040,0x1049); (0x1090,0x1099); (0x1369,0x137C); (0x16EE,0x16F0); (0x17E0,0x17E9);
   (0x17F0,0x17F9); (0x1810,0x1819); (0x1946,0x194F); (0x19D0,0x19DA); (0x1A80,0x1A89);
   (0x1A90,0x1A99); (0x1B50,0x1B59); (0x1BB0,0x1BB9); (0x1C40,0x1C49); (0x1C50,0x1C59);
   (0x2070,0x2070); (0x2074,0x2079); (0x2080,0x2089); (0x2150,0x2182); (0x2185,0x2189);
   (0x2460,0x249B); (0x24EA,0x24FF); (0x2776,0x2793); (0x2CFD,0x2CFD); (0x3007,0x3007);
   (0x3021,0x3029); (0x3038,0x303A); (0x3192,0x3195); (0x3220,0x3229); (0x3248,0x324F);
   (0x3251,0x325F); (0x3280,0x3289); (0x32B1,0x32BF); (0xA620,0xA629); (0xA6E6,0xA6EF);
   (0xA830,0xA835); (0xA8D0,0xA8D9); (0xA900,0xA909); (0xA9D0,0xA9D9); (0xA9F0,0xA9F9);
   (0xAA50,0xAA59); (0xABF0,0xABF9); (0xFF10,0xFF19); (0x10107,0x10133); (0x10140,0x10178);
   (0x1018A,0x1018B); (0x102E1,0x102FB); (0x10320,0x10323); (0x10341,0x10341); (0x1034A,0x1034A);
   (0x103D1,0x103D5); (0x104A0,0x104A9); (0x10858,0x1085F); (0x10879,0x1087F); (0x108A7,0x108AF);
   (0x108FB,0x108FF); (0x10916,0x1091B); (0x109BC,0x109BD); (0x109C0,0x109CF); (0x109D2,0x109FF);
   (0x10A40,0x10A48); (0x10A7D,0x10A7E); (0x10A9D,0x10A9F); (0x10AEB,0x10AEF); (0x10B58,0x10B5F);
   (0x10B78,0x10B7F); (0x10BA9,0x10BAF); (0x10CFA,0x10CFF); (0x10D30,0x10D39); (0x10E60,0x10E7E);
   (0x10F1D,0x10F26); (0x10F51,0x10F54); (0x10FC5,0x10FCB); (0x11052,0x1106F); (0x110F0,0x110F9);
   (0x11136,0x1113F); (0x111D0,0x111D9); (0x111E1,0x111F4); (0x112F0,0x112F9); (0x11450,0x11459);
   (0x114D0,0x114D9); (0x11650,0x11659); (0x116C0,0x116C9); (0x11730,0x1173B); (0x118E0,0x118F2);
   (0x11950,0x11959); (0x11C50,0x11C6C); (0x11D50,0x11D59); (0x11DA0,0x11DA9); (0x11FC0,0x11FD4);
   (0x12400,0x1246E); (0x16A60,0x16A69); (0x16B50,0x16B59); (0x16B5B,0x16B61); (0x16E80,0x16E96);
   (0x1D2E0,0x1D2F3); (0x1D360,0x1D378); (0x1D7CE,0x1D7FF); (0x1E140,0x1E149); (0x1E2F0,0x1E2F9);
   (0x1E8C7,0x1E8CF); (0x1E950,0x1E959); (0x1EC71,0x1ECAB); (0x1ECAD,0x1ECAF); (0x1ECB1,0x1ECB4);
   (0x1ED01,0x1ED2D); (0x1ED2F,0x1ED3D); (0x1F100,0x1F10C); (0x1FBF0,0x1FBF9)].

(** One-step canonical decomposition to a single code point. *)
Definition DECOMPOSE_1 : list (Z * Z) :=
  [(0x340,0x300); (0x341,0x301); (0x343,0x313); (0x374,0x2B9); (0x37E,0x3B); (0x387,0xB7);
   (0x1F71,0x3AC); (0x1F73,0x3AD); (0x1F75,0x3AE); (0x1F77,0x3AF); (0x1F79,0x3CC); (0x1F7B,0x3CD);
   (0x1F7D,0x3CE); (0x1FBB,0x386); (0x1FBE,0x3B9); (0x1FC9,0x388); (0x1FCB,0x389); (0x1FD3,0x390);
   (0x1FDB,0x38A); (0x1FE3,0x3B0); (0x1FEB,0x38E); (0x1FEE,0x385); (0x1FEF,0x60); (0x1FF9,0x38C);
   (0x1FFB,0x38F); (0x1FFD,0xB4); (0x2000,0x2002); (0x2001,0x2003); (0x2126,0x3A9); (0x212A,0x4B);
   (0x212B,0xC5); (0x2329,0x3008); (0x232A,0x3009); (0xF900,0x8C48); (0xF901,0x66F4);
   (0xF902,0x8ECA); (0xF903,0x8CC8); (0xF904,0x6ED1); (0xF905,0x4E32); (0xF906,0x53E5);
   (0xF907,0x9F9C); (0xF908,0x9F9C); (0xF909,0x5951); (0xF90A,0x91D1); (0xF90B,0x5587);
   (0xF90C,0x5948); (0xF90D,0x61F6); (0xF90E,0x7669); (0xF90F,0x7F85); (0xF910,0x863F);
   (0xF911,0x87BA); (0xF912,0x88F8); (0xF913,0x908F); (0xF914,0x6A02); (0xF915,0x6D1B);
   (0xF916,0x70D9); (0xF917,0x73DE); (0xF918,0x843D); (0xF919,0x916A); (0xF91A,0x99F1);
   (0xF91B,0x4E82); (0xF91C,0x5375); (0xF91D,0x6B04); (0xF91E,0x721B); (0xF91F,0x862D);
   (0xF920,0x9E1E); (0xF921,0x5D50); (0xF922,0x6FEB); (0xF923,0x85CD); (0xF924,0x8964);
   (0xF925,0x62C9); (0xF926,0x81D8); (0xF927,0x881F); (0xF928,0x5ECA); (0xF929,0x6717);
   (0xF92A,0x6D6A); (0xF92B,0x72FC); (0xF92C,0x90CE); (0xF92D,0x4F86); (0xF92E,0x51B7);
   (0xF92F,0x52DE); (0xF930,0x64C4); (0xF931,0x6AD3); (0xF932,0x7210); (0xF933,0x76E7);
   (0xF934,0x8001); (0xF935,0x8606); (0xF936,0x865C); (0xF937,0x8DEF); (0xF938,0x9732);
   (0xF939,0x9B6F); (0xF93A,0x9DFA); (0xF93B,0x788C); (0xF93C,0x797F); (0xF93D,0x7DA0);
   (0xF93E,0x83C9); (0xF93F,0x9304); (0xF940,0x9E7F); (0xF941,0x8AD6); (0xF942,0x58DF);
   (0xF943,0x5F04); (0xF944,0x7C60); (0xF945,0x807E); (0xF946,0x7262); (0xF947,0x78CA);
   (0xF948,0x8CC2); (0xF949,0x96F7); (0xF94A,0x58D8); (0xF94B,0x5C62); (0xF94C,0x6A13);
   (0xF94D,0x6DDA); (0xF94E,0x6F0F); (0xF94F,0x7D2F); (0xF950,0x7E37); (0xF951,0x964B);
   (0xF952,0x52D2); (0xF953,0x808B); (0xF954,0x51DC); (0xF955,0x51CC); (0xF956,0x7A1C);
   (0xF957,0x7DBE); (0xF958,0x83F1); (0xF959,0x9675); (0xF95A,0x8B80); (0xF95B,0x62CF);
   (0xF95C,0x6A02); (0xF95D,0x8AFE); (0xF95E,0x4E39); (0xF95F,0x5BE7); (0xF960,0x6012);
   (0xF961,0x7387); (0xF962,0x7570); (0xF963,0x5317); (0xF964,0x78FB); (0xF965,0x4FBF);
   (0xF966,0x5FA9); (0xF967,0x4E0D); (0xF968,0x6CCC); (0xF969,0x6578); (0xF96A,0x7D22);
   (0xF96B,0x53C3); (0xF96C,0x585E); (0xF96D,0x7701); (0xF96E,0x8449); (0xF96F,0x8AAA);
   (0xF970,0x6BBA); (0xF971,0x8FB0); (0xF972,0x6C88); (0xF973,0x62FE); (0xF974,0x82E5);
   (0xF975,0x63A0); (0xF976,0x7565); (0xF977,0x4EAE); (0xF978,0x5169); (0xF979,0x51C9);
   (0xF97A,0x6881); (0xF97B,0x7CE7); (0xF97C,0x826F); (0xF97D,0x8AD2); (0xF97E,0x91CF);
   (0xF97F,0x52F5); (0xF980,0x5442); (0xF981,0x5973); (0xF982,0x5EEC); (0xF983,0x65C5);
   (0xF984,0x6FFE); (0xF985,0x792A); (0xF986,0x95AD); (0xF987,0x9A6A); (0xF988,0x9E97);
   (0xF989,0x9ECE); (0xF98A,0x529B); (0xF98B,0x66C6); (0xF98C,0x6B77); (0xF98D,0x8F62);
   (0xF98E,0x5E74); (0xF98F,0x6190); (0xF990,0x6200); (0xF991,0x649A); (0xF992,0x6F23);
   (0xF993,0x7149); (0xF994,0x7489); (0xF995,0x79CA); (0xF996,0x7DF4); (0xF997,0x806F);
   (0xF998,0x8F26); (0xF999,0x84EE); (0xF99A,0x9023); (0xF99B,0x934A); (0xF99C,0x5217);
   (0xF99D,0x52A3); (0xF99E,0x54BD); (0xF99F,0x70C8); (0xF9A0,0x88C2); (0xF9A1,0x8AAA);
   (0xF9A2,0x5EC9); (0xF9A3,0x5FF5); (0xF9A4,0x637B); (0xF9A5,0x6BAE); (0xF9A6,0x7C3E);
   (0xF9A7,0x7375); (0xF9A8,0x4EE4); (0xF9A9,0x56F9); (0xF9AA,0x5BE7); (0xF9AB,0x5DBA);
   (0xF9AC,0x601C); (0xF9AD,0x73B2); (0xF9AE,0x7469); (0xF9AF,0x7F9A); (0xF9B0,0x8046);
   (0xF9B1,0x9234); (0xF9B2,0x96F6); (0xF9B3,0x9748); (0xF9B4,0x9818); (0xF9B5,0x4F8B);
   (0xF9B6,0x79AE); (0xF9B7,0x91B4); (0xF9B8,0x96B8); (0xF9B9,0x60E1); (0xF9BA,0x4E86);
   (0xF9BB,0x50DA); (0xF9BC,0x5BEE); (0xF9BD,0x5C3F); (0xF9BE,0x6599); (0xF9BF,0x6A02);
   (0xF9C0,0x71CE); (0xF9C1,0x7642); (0xF9C2,0x84FC); (0xF9C3,0x907C); (0xF9C4,0x9F8D);
   (0xF9C5,0x6688); (0xF9C6,0x962E); (0xF9C7,0x5289); (0xF9C8,0x677B); (0xF9C9,0x67F3);
   (0xF9CA,0x6D41); (0xF9CB,0x6E9C); (0xF9CC,0x7409); (0xF9CD,0x7559); (0xF9CE,0x786B);
   (0xF9CF,0x7D10); (0xF9D0,0x985E); (0xF9D1,0x516D); (0xF9D2,0x622E); (0xF9D3,0x9678);
   (0xF9D4,0x502B); (0xF9D5,0x5D19); (0xF9D6,0x6DEA); (0xF9D7,0x8F2A); (0xF9D8,0x5F8B);
   (0xF9D9,0x6144); (0xF9DA,0x6817); (0xF9DB,0x7387); (0xF9DC,0x9686); (0xF9DD,0x5229);
   (0xF9DE,0x540F); (0xF9DF,0x5C65); (0xF9E0,0x6613); (0xF9E1,0x674E); (0xF9E2,0x68A8);
   (0xF9E3,0x6CE5); (0xF9E4,0x7406); (0xF9E5,0x75E2); (0xF9E6,0x7F79); (0xF9E7,0x88CF);
   (0xF9E8,0x88E1); (0xF9E9,0x91CC); (0xF9EA,0x96E2); (0xF9EB,0x533F); (0xF9EC,0x6EBA);
   (0xF9ED,0x541D); (0xF9EE,0x71D0); (0xF9EF,0x7498); (0xF9F0,0x85FA); (0xF9F1,0x96A3);
   (0xF9F2,0x9C57); (0xF9F3,0x9E9F); (0xF9F4,0x6797); (0xF9F5,0x6DCB); (0xF9F6,0x81E8);
   (0xF9F7,0x7ACB); (0xF9F8,0x7B20); (0xF9F9,0x7C92); (0xF9FA,0x72C0); (0xF9FB,0x7099);
   (0xF9FC,0x8B58); (0xF9FD,0x4EC0); (0xF9FE,0x8336); (0xF9FF,0x523A); (0xFA00,0x5207);
   (0xFA01,0x5EA6); (0xFA02,0x62D3); (0xFA03,0x7CD6); (0xFA04,0x5B85); (0xFA05,0x6D1E);
   (0xFA06,0x66B4); (0xFA07,0x8F3B); (0xFA08,0x884C); (0xFA09,0x964D); (0xFA0A,0x898B);
   (0xFA0B,0x5ED3); (0xFA0C,0x5140); (0xFA0D,0x55C0); (0xFA10,0x585A); (0xFA12,0x6674);
   (0xFA15,0x51DE); (0xFA16,0x732A); (0xFA17,0x76CA); (0xFA18,0x793C); (0xFA19,0x795E);
   (0xFA1A,0x7965); (0xFA1B,0x798F); (0xFA1C,0x9756); (0xFA1D,0x7CBE); (0xFA1E,0x7FBD);
   (0xFA20,0x8612); (0xFA22,0x8AF8); (0xFA25,0x9038); (0xFA26,0x90FD); (0xFA2A,0x98EF);
   (0xFA2B,0x98FC); (0xFA2C,0x9928); (0xFA2D,0x9DB4); (0xFA2E,0x90DE); (0xFA2F,0x96B7);
   (0xFA30,0x4FAE); (0xFA31,0x50E7); (0xFA32,0x514D); (0xFA33,0x52C9); (0xFA34,0x52E4);
   (0xFA35,0x5351); (0xFA36,0x559D); (0xFA37,0x5606); (0xFA38,0x5668); (0xFA39,0x5840);
   (0xFA3A,0x58A8); (0xFA3B,0x5C64); (0xFA3C,0x5C6E); (0xFA3D,0x6094); (0xFA3E,0x6168);
   (0xFA3F,0x618E); (0xFA40,0x61F2); (0xFA41,0x654F); (0xFA42,0x65E2); (0xFA43,0x6691);
   (0xFA44,0x6885); (0xFA45,0x6D77); (0xFA46,0x6E1A); (0xFA47,0x6F22); (0xFA48,0x716E);
   (0xFA49,0x722B); (0xFA4A,0x7422); (0xFA4B,0x7891); (0xFA4C,0x793E); (0xFA4D,0x7949);
   (0xFA4E,0x7948); (0xFA4F,0x7950); (0xFA50,0x7956); (0xFA51,0x795D); (0xFA52,0x798D);
   (0xFA53,0x798E); (0xFA54,0x7A40); (0xFA55,0x7A81); (0xFA56,0x7BC0); (0xFA57,0x7DF4);
   (0xFA58,0x7E09); (0xFA59,0x7E41); (0xFA5A,0x7F72); (0xFA5B,0x8005); (0xFA5C,0x81ED);
   (0xFA5D,0x8279); (0xFA5E,0x8279); (0xFA5F,0x8457); (0xFA60,0x8910); (0xFA61,0x8996);
   (0xFA62,0x8B01); (0xFA63,0x8B39); (0xFA64,0x8CD3); (0xFA65,0x8D08); (0xFA66,0x8FB6);
   (0xFA67,0x9038); (0xFA68,0x96E3); (0xFA69,0x97FF); (0xFA6A,0x983B); (0xFA6B,0x6075);
   (0xFA6C,0x242EE); (0xFA6D,0x8218); (0xFA70,0x4E26); (0xFA71,0x51B5); (0xFA72,0x5168);
   (0xFA73,0x4F80); (0xFA74,0x5145); (0xFA75,0x5180); (0xFA76,0x52C7); (0xFA77,0x52FA);
   (0xFA78,0x559D); (0xFA79,0x5555); (0xFA7A,0x5599); (0xFA7B,0x55E2); (0xFA7C,0x585A);
   (0xFA7D,0x58B3); (0xFA7E,0x5944); (0xFA7F,0x5954); (0xFA80,0x5A62); (0xFA81,0x5B28);
   (0xFA82,0x5ED2); (0xFA83,0x5ED9); (0xFA84,0x5F69); (0xFA85,0x5FAD); (0xFA86,0x60D8);
   (0xFA87,0x614E); (0xFA88,0x6108); (0xFA89,0x618E); (0xFA8A,0x6160); (0xFA8B,0x61F2);
   (0xFA8C,0x6234); (0xFA8D,0x63C4); (0xFA8E,0x641C); (0xFA8F,0x6452); (0xFA90,0x6556);
   (0xFA91,0x6674); (0xFA92,0x6717); (0xFA93,0x671B); (0xFA94,0x6756); (0xFA95,0x6B79);
   (0xFA96,0x6BBA); (0xFA97,0x6D41); (0xFA98,0x6EDB); (0xFA99,0x6ECB); (0xFA9A,0x6F22);
   (0xFA9B,0x701E); (0xFA9C,0x716E); (0xFA9D,0x77A7); (0xFA9E,0x7235); (0xFA9F,0x72AF);
   (0xFAA0,0x732A); (0xFAA1,0x7471); (0xFAA2,0x7506); (0xFAA3,0x753B); (0xFAA4,0x761D);
   (0xFAA5,0x761F); (0xFAA6,0x76CA); (0xFAA7,0x76DB); (0xFAA8,0x76F4); (0xFAA9,0x774A);
   (0xFAAA,0x7740); (0xFAAB,0x78CC); (0xFAAC,0x7AB1); (0xFAAD,0x7BC0); (0xFAAE,0x7C7B);
   (0xFAAF,0x7D5B); (0xFAB0,0x7DF4); (0xFAB1,0x7F3E); (0xFAB2,0x8005); (0xFAB3,0x8352);
   (0xFAB4,0x83EF); (0xFAB5,0x8779); (0xFAB6,0x8941); (0xFAB7,0x8986); (0xFAB8,0x8996);
   (0xFAB9,0x8ABF); (0xFABA,0x8AF8); (0xFABB,0x8ACB); (0xFABC,0x8B01); (0xFABD,0x8AFE);
   (0xFABE,0x8AED); (0xFABF,0x8B39); (0xFAC0,0x8B8A); (0xFAC1,0x8D08); (0xFAC2,0x8F38);
   (0xFAC3,0x9072); (0xFAC4,0x9199); (0xFAC5,0x9276); (0xFAC6,0x967C); (0xFAC7,0x96E3);
   (0xFAC8,0x9756); (0xFAC9,0x97DB); (0xFACA,0x97FF); (0xFACB,0x980B); (0xFACC,0x983B);
   (0xFACD,0x9B12); (0xFACE,0x9F9C); (0xFACF,0x2284A); (0xFAD0,0x22844); (0xFAD1,0x233D5);
   (0xFAD2,0x3B9D); (0xFAD3,0x4018); (0xFAD4,0x4039); (0xFAD5,0x25249); (0xFAD6,0x25CD0);
   (0xFAD7,0x27ED3); (0xFAD8,0x9F43); (0xFAD9,0x9F8E); (0x2F800,0x4E3D); (0x2F801,0x4E38);
   (0x2F802,0x4E41); (0x2F803,0x20122); (0x2F804,0x4F60); (0x2F805,0x4FAE); (0x2F806,0x4FBB);
   (0x2F807,0x5002); (0x2F808,0x507A); (0x2F809,0x5099); (0x2F80A,0x50E7); (0x2F80B,0x50CF);
   (0x2F80C,0x349E); (0x2F80D,0x2063A); (0x2F80E,0x514D); (0x2F80F,0x5154); (0x2F810,0x5164);
   (0x2F811,0x5177); (0x2F812,0x2051C); (0x2F813,0x34B9); (0x2F814,0x5167); (0x2F815,0x518D);
   (0x2F816,0x2054B); (0x2F817,0x5197); (0x2F818,0x51A4); (0x2F819,0x4ECC); (0x2F81A,0x51AC);
   (0x2F81B,0x51B5); (0x2F81C,0x291DF); (0x2F81D,0x51F5); (0x2F81E,0x5203); (0x2F81F,0x34DF);
   (0x2F820,0x523B); (0x2F821,0x5246); (0x2F822,0x5272); (0x2F823,0x5277); (0x2F824,0x3515);
   (0x2F825,0x52C7); (0x2F826,0x52C9); (0x2F827,0x52E4); (0x2F828,0x52FA); (0x2F829,0x5305);
   (0x2F82A,0x5306); (0x2F82B,0x5317); (0x2F82C,0x5349); (0x2F82D,0x5351); (0x2F82E,0x535A);
   (0x2F82F,0x5373); (0x2F830,0x537D); (0x2F831,0x537F); (0x2F832,0x537F); (0x2F833,0x537F);
   (0x2F834,0x20A2C); (0x2F835,0x7070); (0x2F836,0x53CA); (0x2F837,0x53DF); (0x2F838,0x20B63);
   (0x2F839,0x53EB); (0x2F83A,0x53F1); (0x2F83B,0x5406); (0x2F83C,0x549E); (0x2F83D,0x5438);
   (0x2F83E,0x5448); (0x2F83F,0x5468); (0x2F840,0x54A2); (0x2F841,0x54F6); (0x2F842,0x5510);
   (0x2F843,0x5553); (0x2F844,0x5563); (0x2F845,0x5584); (0x2F846,0x5584); (0x2F847,0x5599);
   (0x2F848,0x55AB); (0x2F849,0x55B3); (0x2F84A,0x55C2); (0x2F84B,0x5716); (0x2F84C,0x5606);
   (0x2F84D,0x5717); (0x2F84E,0x5651); (0x2F84F,0x5674); (0x2F850,0x5207); (0x2F851,0x58EE);
   (0x2F852,0x57CE); (0x2F853,0x57F4); (0x2F854,0x580D); (0x2F855,0x578B); (0x2F856,0x5832);
   (0x2F857,0x5831); (0x2F858,0x58AC); (0x2F859,0x214E4); (0x2F85A,0x58F2); (0x2F85B,0x58F7);
   (0x2F85C,0x5906); (0x2F85D,0x591A); (0x2F85E,0x5922); (0x2F85F,0x5962); (0x2F860,0x216A8);
   (0x2F861,0x216EA); (0x2F862,0x59EC); (0x2F863,0x5A1B); (0x2F864,0x5A27); (0x2F865,0x59D8);
   (0x2F866,0x5A66); (0x2F867,0x36EE); (0x2F868,0x36FC); (0x2F869,0x5B08); (0x2F86A,0x5B3E);
   (0x2F86B,0x5B3E); (0x2F86C,0x219C8); (0x2F86D,0x5BC3); (0x2F86E,0x5BD8); (0x2F86F,0x5BE7);
   (0x2F870,0x5BF3); (0x2F871,0x21B18); (0x2F872,0x5BFF); (0x2F873,0x5C06); (0x2F874,0x5F53);
   (0x2F875,0x5C22); (0x2F876,0x3781); (0x2F877,0x5C60); (0x2F878,0x5C6E); (0x2F879,0x5CC0);
   (0x2F87A,0x5C8D); (0x2F87B,0x21DE4); (0x2F87C,0x5D43); (0x2F87D,0x21DE6); (0x2F87E,0x5D6E);
   (0x2F87F,0x5D6B); (0x2F880,0x5D7C); (0x2F881,0x5DE1); (0x2F882,0x5DE2); (0x2F883,0x382F);
   (0x2F884,0x5DFD); (0x2F885,0x5E28); (0x2F886,0x5E3D); (0x2F887,0x5E69); (0x2F888,0x3862);
   (0x2F889,0x22183); (0x2F88A,0x387C); (0x2F88B,0x5EB0); (0x2F88C,0x5EB3); (0x2F88D,0x5EB6);
   (0x2F88E,0x5ECA); (0x2F88F,0x2A392); (0x2F890,0x5EFE); (0x2F891,0x22331); (0x2F892,0x22331);
   (0x2F893,0x8201); (0x2F894,0x5F22); (0x2F895,0x5F22); (0x2F896,0x38C7); (0x2F897,0x232B8);
   (0x2F898,0x261DA); (0x2F899,0x5F62); (0x2F89A,0x5F6B); (0x2F89B,0x38E3); (0x2F89C,0x5F9A);
   (0x2F89D,0x5FCD); (0x2F89E,0x5FD7); (0x2F89F,0x5FF9); (0x2F8A0,0x6081); (0x2F8A1,0x393A);
   (0x2F8A2,0x391C); (0x2F8A3,0x6094); (0x2F8A4,0x226D4); (0x2F8A5,0x60C7); (0x2F8A6,0x6148);
   (0x2F8A7,0x614C); (0x2F8A8,0x614E); (0x2F8A9,0x614C); (0x2F8AA,0x617A); (0x2F8AB,0x618E);
   (0x2F8AC,0x61B2); (0x2F8AD,0x61A4); (0x2F8AE,0x61AF); (0x2F8AF,0x61DE); (0x2F8B0,0x61F2);
   (0x2F8B1,0x61F6); (0x2F8B2,0x6210); (0x2F8B3,0x621B); (0x2F8B4,0x625D); (0x2F8B5,0x62B1);
   (0x2F8B6,0x62D4); (0x2F8B7,0x6350); (0x2F8B8,0x22B0C); (0x2F8B9,0x633D); (0x2F8BA,0x62FC);
   (0x2F8BB,0x6368); (0x2F8BC,0x6383); (0x2F8BD,0x63E4); (0x2F8BE,0x22BF1); (0x2F8BF,0x6422);
   (0x2F8C0,0x63C5); (0x2F8C1,0x63A9); (0x2F8C2,0x3A2E); (0x2F8C3,0x6469); (0x2F8C4,0x647E);
   (0x2F8C5,0x649D); (0x2F8C6,0x6477); (0x2F8C7,0x3A6C); (0x2F8C8,0x654F); (0x2F8C9,0x656C);
   (0x2F8CA,0x2300A); (0x2F8CB,0x65E3); (0x2F8CC,0x66F8); (0x2F8CD,0x6649); (0x2F8CE,0x3B19);
   (0x2F8CF,0x6691); (0x2F8D0,0x3B08); (0x2F8D1,0x3AE4); (0x2F8D2,0x5192); (0x2F8D3,0x5195);
   (0x2F8D4,0x6700); (0x2F8D5,0x669C); (0x2F8D6,0x80AD); (0x2F8D7,0x43D9); (0x2F8D8,0x6717);
   (0x2F8D9,0x671B); (0x2F8DA,0x6721); (0x2F8DB,0x675E); (0x2F8DC,0x6753); (0x2F8DD,0x233C3);
   (0x2F8DE,0x3B49); (0x2F8DF,0x67FA); (0x2F8E0,0x6785); (0x2F8E1,0x6852); (0x2F8E2,0x6885);
   (0x2F8E3,0x2346D); (0x2F8E4,0x688E); (0x2F8E5,0x681F); (0x2F8E6,0x6914); (0x2F8E7,0x3B9D);
   (0x2F8E8,0x6942); (0x2F8E9,0x69A3); (0x2F8EA,0x69EA); (0x2F8EB,0x6AA8); (0x2F8EC,0x236A3);
   (0x2F8ED,0x6ADB); (0x2F8EE,0x3C18); (0x2F8EF,0x6B21); (0x2F8F0,0x238A7); (0x2F8F1,0x6B54);
   (0x2F8F2,0x3C4E); (0x2F8F3,0x6B72); (0x2F8F4,0x6B9F); (0x2F8F5,0x6BBA); (0x2F8F6,0x6BBB);
   (0x2F8F7,0x23A8D); (0x2F8F8,0x21D0B); (0x2F8F9,0x23AFA); (0x2F8FA,0x6C4E); (0x2F8FB,0x23CBC);
   (0x2F8FC,0x6CBF); (0x2F8FD,0x6CCD); (0x2F8FE,0x6C67); (0x2F8FF,0x6D16); (0x2F900,0x6D3E);
   (0x2F901,0x6D77); (0x2F902,0x6D41); (0x2F903,0x6D69); (0x2F904,0x6D78); (0x2F905,0x6D85);
   (0x2F906,0x23D1E); (0x2F907,0x6D34); (0x2F908,0x6E2F); (0x2F909,0x6E6E); (0x2F90A,0x3D33);
   (0x2F90B,0x6ECB); (0x2F90C,0x6EC7); (0x2F90D,0x23ED1); (0x2F90E,0x6DF9); (0x2F90F,0x6F6E);
   (0x2F910,0x23F5E); (0x2F911,0x23F8E); (0x2F912,0x6FC6); (0x2F913,0x7039); (0x2F914,0x701E);
   (0x2F915,0x701B); (0x2F916,0x3D96); (0x2F917,0x704A); (0x2F918,0x707D); (0x2F919,0x7077);
   (0x2F91A,0x70AD); (0x2F91B,0x20525); (0x2F91C,0x7145); (0x2F91D,0x24263); (0x2F91E,0x719C);
   (0x2F91F,0x243AB); (0x2F920,0x7228); (0x2F921,0x7235); (0x2F922,0x7250); (0x2F923,0x24608);
   (0x2F924,0x7280); (0x2F925,0x7295); (0x2F926,0x24735); (0x2F927,0x24814); (0x2F928,0x737A);
   (0x2F929,0x738B); (0x2F92A,0x3EAC); (0x2F92B,0x73A5); (0x2F92C,0x3EB8); (0x2F92D,0x3EB8);
   (0x2F92E,0x7447); (0x2F92F,0x745C); (0x2F930,0x7471); (0x2F931,0x7485); (0x2F932,0x74CA);
   (0x2F933,0x3F1B); (0x2F934,0x7524); (0x2F935,0x24C36); (0x2F936,0x753E); (0x2F937,0x24C92);
   (0x2F938,0x7570); (0x2F939,0x2219F); (0x2F93A,0x7610); (0x2F93B,0x24FA1); (0x2F93C,0x24FB8);
   (0x2F93D,0x25044); (0x2F93E,0x3FFC); (0x2F93F,0x4008); (0x2F940,0x76F4); (0x2F941,0x250F3);
   (0x2F942,0x250F2); (0x2F943,0x25119); (0x2F944,0x25133); (0x2F945,0x771E); (0x2F946,0x771F);
   (0x2F947,0x771F); (0x2F948,0x774A); (0x2F949,0x4039); (0x2F94A,0x778B); (0x2F94B,0x4046);
   (0x2F94C,0x4096); (0x2F94D,0x2541D); (0x2F94E,0x784E); (0x2F94F,0x788C); (0x2F950,0x78CC);
   (0x2F951,0x40E3); (0x2F952,0x25626); (0x2F953,0x7956); (0x2F954,0x2569A); (0x2F955,0x256C5);
   (0x2F956,0x798F); (0x2F957,0x79EB); (0x2F958,0x412F); (0x2F959,0x7A40); (0x2F95A,0x7A4A);
   (0x2F95B,0x7A4F); (0x2F95C,0x2597C); (0x2F95D,0x25AA7); (0x2F95E,0x25AA7); (0x2F95F,0x7AEE);
   (0x2F960,0x4202); (0x2F961,0x25BAB); (0x2F962,0x7BC6); (0x2F963,0x7BC9); (0x2F964,0x4227);
   (0x2F965,0x25C80); (0x2F966,0x7CD2); (0x2F967,0x42A0); (0x2F968,0x7CE8); (0x2F969,0x7CE3);
   (0x2F96A,0x7D00); (0x2F96B,0x25F86); (0x2F96C,0x7D63); (0x2F96D,0x4301); (0x2F96E,0x7DC7);
   (0x2F96F,0x7E02); (0x2F970,0x7E45); (0x2F971,0x4334); (0x2F972,0x26228); (0x2F973,0x26247);
   (0x2F974,0x4359); (0x2F975,0x262D9); (0x2F976,0x7F7A); (0x2F977,0x2633E); (0x2F978,0x7F95);
   (0x2F979,0x7FFA); (0x2F97A,0x8005); (0x2F97B,0x264DA); (0x2F97C,0x26523); (0x2F97D,0x8060);
   (0x2F97E,0x265A8); (0x2F97F,0x8070); (0x2F980,0x2335F); (0x2F981,0x43D5); (0x2F982,0x80B2);
   (0x2F983,0x8103); (0x2F984,0x440B); (0x2F985,0x813E); (0x2F986,0x5AB5); (0x2F987,0x267A7);
   (0x2F988,0x267B5); (0x2F989,0x23393); (0x2F98A,0x2339C); (0x2F98B,0x8201); (0x2F98C,0x8204);
   (0x2F98D,0x8F9E); (0x2F98E,0x446B); (0x2F98F,0x8291); (0x2F990,0x828B); (0x2F991,0x829D);
   (0x2F992,0x52B3); (0x2F993,0x82B1); (0x2F994,0x82B3); (0x2F995,0x82BD); (0x2F996,0x82E6);
   (0x2F997,0x26B3C); (0x2F998,0x82E5); (0x2F999,0x831D); (0x2F99A,0x8363); (0x2F99B,0x83AD);
   (0x2F99C,0x8323); (0x2F99D,0x83BD); (0x2F99E,0x83E7); (0x2F99F,0x8457); (0x2F9A0,0x8353);
   (0x2F9A1,0x83CA); (0x2F9A2,0x83CC); (0x2F9A3,0x83DC); (0x2F9A4,0x26C36); (0x2F9A5,0x26D6B);
   (0x2F9A6,0x26CD5); (0x2F9A7,0x452B); (0x2F9A8,0x84F1); (0x2F9A9,0x84F3); (0x2F9AA,0x8516);
   (0x2F9AB,0x273CA); (0x2F9AC,0x8564); (0x2F9AD,0x26F2C); (0x2F9AE,0x455D); (0x2F9AF,0x4561);
   (0x2F9B0,0x26FB1); (0x2F9B1,0x270D2); (0x2F9B2,0x456B); (0x2F9B3,0x8650); (0x2F9B4,0x865C);
   (0x2F9B5,0x8667); (0x2F9B6,0x8669); (0x2F9B7,0x86A9); (0x2F9B8,0x8688); (0x2F9B9,0x870E);
   (0x2F9BA,0x86E2); (0x2F9BB,0x8779); (0x2F9BC,0x8728); (0x2F9BD,0x876B); (0x2F9BE,0x8786);
   (0x2F9BF,0x45D7); (0x2F9C0,0x87E1); (0x2F9C1,0x8801); (0x2F9C2,0x45F9); (0x2F9C3,0x8860);
   (0x2F9C4,0x8863); (0x2F9C5,0x27667); (0x2F9C6,0x88D7); (0x2F9C7,0x88DE); (0x2F9C8,0x4635);
   (0x2F9C9,0x88FA); (0x2F9CA,0x34BB); (0x2F9CB,0x278AE); (0x2F9CC,0x27966); (0x2F9CD,0x46BE);
   (0x2F9CE,0x46C7); (0x2F9CF,0x8AA0); (0x2F9D0,0x8AED); (0x2F9D1,0x8B8A); (0x2F9D2,0x8C55);
   (0x2F9D3,0x27CA8); (0x2F9D4,0x8CAB); (0x2F9D5,0x8CC1); (0x2F9D6,0x8D1B); (0x2F9D7,0x8D77);
   (0x2F9D8,0x27F2F); (0x2F9D9,0x20804); (0x2F9DA,0x8DCB); (0x2F9DB,0x8DBC); (0x2F9DC,0x8DF0);
   (0x2F9DD,0x208DE); (0x2F9DE,0x8ED4); (0x2F9DF,0x8F38); (0x2F9E0,0x285D2); (0x2F9E1,0x285ED);
   (0x2F9E2,0x9094); (0x2F9E3,0x90F1); (0x2F9E4,0x9111); (0x2F9E5,0x2872E); (0x2F9E6,0x911B);
   (0x2F9E7,0x9238); (0x2F9E8,0x92D7); (0x2F9E9,0x92D8); (0x2F9EA,0x927C); (0x2F9EB,0x93F9);
   (0x2F9EC,0x9415); (0x2F9ED,0x28BFA); (0x2F9EE,0x958B); (0x2F9EF,0x4995); (0x2F9F0,0x95B7);
   (0x2F9F1,0x28D77); (0x2F9F2,0x49E6); (0x2F9F3,0x96C3); (0x2F9F4,0x5DB2); (0x2F9F5,0x9723);
   (0x2F9F6,0x29145); (0x2F9F7,0x2921A); (0x2F9F8,0x4A6E); (0x2F9F9,0x4A76); (0x2F9FA,0x97E0);
   (0x2F9FB,0x2940A); (0x2F9FC,0x4AB2); (0x2F9FD,0x29496); (0x2F9FE,0x980B); (0x2F9FF,0x980B);
   (0x2FA00,0x9829); (0x2FA01,0x295B6); (0x2FA02,0x98E2); (0x2FA03,0x4B33); (0x2FA04,0x9929);
   (0x2FA05,0x99A7); (0x2FA06,0x99C2); (0x2FA07,0x99FE); (0x2FA08,0x4BCE); (0x2FA09,0x29B30);
   (0x2FA0A,0x9B12); (0x2FA0B,0x9C40); (0x2FA0C,0x9CFD); (0x2FA0D,0x4CCE); (0x2FA0E,0x4CED);
   (0x2FA0F,0x9D67); (0x2FA10,0x2A0CE); (0x2FA11,0x4CF8); (0x2FA12,0x2A105); (0x2FA13,0x2A20E);
   (0x2FA14,0x2A291); (0x2FA15,0x9EBB); (0x2FA16,0x4D56); (0x2FA17,0x9EF9); (0x2FA18,0x9EFE);
   (0x2FA19,0x9F05); (0x2FA1A,0x9F0F); (0x2FA1B,0x9F16); (0x2FA1C,0x9F3B); (0x2FA1D,0x2A600)].

(** One-step canonical decomposition to a pair. *)
Definition DECOMPOSE_2 : list (Z * (Z * Z)) :=
  [(0xC0,(0x41,0x300)); (0xC1,(0x41,0x301)); (0xC2,(0x41,0x302)); (0xC3,(0x41,0x303));
   (0xC4,(0x41,0x308)); (0xC5,(0x41,0x30A)); (0xC7,(0x43,0x327)); (0xC8,(0x45,0x300));
   (0xC9,(0x45,0x301)); (0xCA,(0x45,0x302)); (0xCB,(0x45,0x308)); (0xCC,(0x49,0x300));
   (0xCD,(0x49,0x301)); (0xCE,(0x49,0x302)); (0xCF,(0x49,0x308)); (0xD1,(0x4E,0x303));
   (0xD2,(0x4F,0x300)); (0xD3,(0x4F,0x301)); (0xD4,(0x4F,0x302)); (0xD5,(0x4F,0x303));
   (0xD6,(0x4F,0x308)); (0xD9,(0x55,0x300)); (0xDA,(0x55,0x301)); (0xDB,(0x55,0x302));
   (0xDC,(0x55,0x308)); (0xDD,(0x59,0x301)); (0xE0,(0x61,0x300)); (0xE1,(0x61,0x301));
   (0xE2,(0x61,0x302)); (0xE3,(0x61,0x303)); (0xE4,(0x61,0x308)); (0xE5,(0x61,0x30A));
   (0xE7,(0x63,0x327)); (0xE8,(0x65,0x300)); (0xE9,(0x65,0x301)); (0xEA,(0x65,0x302));
   (0xEB,(0x65,0x308)); (0xEC,(0x69,0x300)); (0xED,(0x69,0x301)); (0xEE,(0x69,0x302));
   (0xEF,(0x69,0x308)); (0xF1,(0x6E,0x303)); (0xF2,(0x6F,0x300)); (0xF3,(0x6F,0x301));
   (0xF4,(0x6F,0x302)); (0xF5,(0x6F,0x303)); (0xF6,(0x6F,0x308)); (0xF9,(0x75,0x300));
   (0xFA,(0x75,0x301)); (0xFB,(0x75,0x302)); (0xFC,(0x75,0x308)); (0xFD,(0x79,0x301));
   (0xFF,(0x79,0x308)); (0x100,(0x41,0x304)); (0x101,(0x61,0x304)); (0x102,(0x41,0x306));
   (0x103,(0x61,0x306)); (0x104,(0x41,0x328)); (0x105,(0x61,0x328)); (0x106,(0x43,0x301));
   (0x107,(0x63,0x301)); (0x108,(0x43,0x302)); (0x109,(0x63,0x302)); (0x10A,(0x43,0x307));
   (0x10B,(0x63,0x307)); (0x10C,(0x43,0x30C)); (0x10D,(0x63,0x30C)); (0x10E,(0x44,0x30C));
   (0x10F,(0x64,0x30C)); (0x112,(0x45,0x304)); (0x113,(0x65,0x304)); (0x114,(0x45,0x306));
   (0x115,(0x65,0x306)); (0x116,(0x45,0x307)); (0x117,(0x65,0x307)); (0x118,(0x45,0x328));
   (0x119,(0x65,0x328)); (0x11A,(0x45,0x30C)); (0x11B,(0x65,0x30C)); (0x11C,(0x47,0x302));
   (0x11D,(0x67,0x302)); (0x11E,(0x47,0x306)); (0x11F,(0x67,0x306)); (0x120,(0x47,0x307));
   (0x121,(0x67,0x307)); (0x122,(0x47,0x327)); (0x123,(0x67,0x327)); (0x124,(0x48,0x302));
   (0x125,(0x68,0x302)); (0x128,(0x49,0x303)); (0x129,(0x69,0x303)); (0x12A,(0x49,0x304));
   (0x12B,(0x69,0x304)); (0x12C,(0x49,0x306)); (0x12D,(0x69,0x306)); (0x12E,(0x49,0x328));
   (0x12F,(0x69,0x328)); (0x130,(0x49,0x307)); (0x134,(0x4A,0x302)); (0x135,(0x6A,0x302));
   (0x136,(0x4B,0x327)); (0x137,(0x6B,0x327)); (0x139,(0x4C,0x301)); (0x13A,(0x6C,0x301));
   (0x13B,(0x4C,0x327)); (0x13C,(0x6C,0x327)); (0x13D,(0x4C,0x30C)); (0x13E,(0x6C,0x30C));
   (0x143,(0x4E,0x301)); (0x144,(0x6E,0x301)); (0x145,(0x4E,0x327)); (0x146,(0x6E,0x327));
   (0x147,(0x4E,0x30C)); (0x148,(0x6E,0x30C)); (0x14C,(0x4F,0x304)); (0x14D,(0x6F,0x304));
   (0x14E,(0x4F,0x306)); (0x14F,(0x6F,0x306)); (0x150,(0x4F,0x30B)); (0x151,(0x6F,0x30B));
   (0x154,(0x52,0x301)); (0x155,(0x72,0x301)); (0x156,(0x52,0x327)); (0x157,(0x72,0x327));
   (0x158,(0x52,0x30C)); (0x159,(0x72,0x30C)); (0x15A,(0x53,0x301)); (0x15B,(0x73,0x301));
   (0x15C,(0x53,0x302)); (0x15D,(0x73,0x302)); (0x15E,(0x53,0x327)); (0x15F,(0x73,0x327));
   (0x160,(0x53,0x30C)); (0x161,(0x73,0x30C)); (0x162,(0x54,0x327)); (0x163,(0x74,0x327));
   (0x164,(0x54,0x30C)); (0x165,(0x74,0x30C)); (0x168,(0x55,0x303)); (0x169,(0x75,0x303));
   (0x16A,(0x55,0x304)); (0x16B,(0x75,0x304)); (0x16C,(0x55,0x306)); (0x16D,(0x75,0x306));
   (0x16E,(0x55,0x30A)); (0x16F,(0x75,0x30A)); (0x170,(0x55,0x30B)); (0x171,(0x75,0x30B));
   (0x172,(0x55,0x328)); (0x173,(0x75,0x328)); (0x174,(0x57,0x302)); (0x175,(0x77,0x302));
   (0x176,(0x59,0x302)); (0x177,(0x79,0x302)); (0x178,(0x59,0x308)); (0x179,(0x5A,0x301));
   (0x17A,(0x7A,0x301)); (0x17B,(0x5A,0x307)); (0x17C,(0x7A,0x307)); (0x17D,(0x5A,0x30C));
   (0x17E,(0x7A,0x30C)); (0x1A0,(0x4F,0x31B)); (0x1A1,(0x6F,0x31B)); (0x1AF,(0x55,0x31B));
   (0x1B0,(0x75,0x31B)); (0x1CD,(0x41,0x30C)); (0x1CE,(0x61,0x30C)); (0x1CF,(0x49,0x30C));
   (0x1D0,(0x69,0x30C)); (0x1D1,(0x4F,0x30C)); (0x1D2,(0x6F,0x30C)); (0x1D3,(0x55,0x30C));
   (0x1D4,(0x75,0x30C)); (0x1D5,(0xDC,0x304)); (0x1D6,(0xFC,0x304)); (0x1D7,(0xDC,0x301));
   (0x1D8,(0xFC,0x301)); (0x1D9,(0xDC,0x30C)); (0x1DA,(0xFC,0x30C)); (0x1DB,(0xDC,0x300));
   (0x1DC,(0xFC,0x300)); (0x1DE,(0xC4,0x304)); (0x1DF,(0xE4,0x304)); (0x1E0,(0x226,0x304));
   (0x1E1,(0x227,0x304)); (0x1E2,(0xC6,0x304)); (0x1E3,(0xE6,0x304)); (0x1E6,(0x47,0x30C));
   (0x1E7,(0x67,0x30C)); (0x1E8,(0x4B,0x30C)); (0x1E9,(0x6B,0x30C)); (0x1EA,(0x4F,0x328));
   (0x1EB,(0x6F,0x328)); (0x1EC,(0x1EA,0x304)); (0x1ED,(0x1EB,0x304)); (0x1EE,(0x1B7,0x30C));
   (0x1EF,(0x292,0x30C)); (0x1F0,(0x6A,0x30C)); (0x1F4,(0x47,0x301)); (0x1F5,(0x67,0x301));
   (0x1F8,(0x4E,0x300)); (0x1F9,(0x6E,0x300)); (0x1FA,(0xC5,0x301)); (0x1FB,(0xE5,0x301));
   (0x1FC,(0xC6,0x301)); (0x1FD,(0xE6,0x301)); (0x1FE,(0xD8,0x301)); (0x1FF,(0xF8,0x301));
   (0x200,(0x41,0x30F)); (0x201,(0x61,0x30F)); (0x202,(0x41,0x311)); (0x203,(0x61,0x311));
   (0x204,(0x45,0x30F)); (0x205,(0x65,0x30F)); (0x206,(0x45,0x311)); (0x207,(0x65,0x311));
   (0x208,(0x49,0x30F)); (0x209,(0x69,0x30F)); (0x20A,(0x49,0x311)); (0x20B,(0x69,0x311));
   (0x20C,(0x4F,0x30F)); (0x20D,(0x6F,0x30F)); (0x20E,(0x4F,0x311)); (0x20F,(0x6F,0x311));
   (0x210,(0x52,0x30F)); (0x211,(0x72,0x30F)); (0x212,(0x52,0x311)); (0x213,(0x72,0x311));
   (0x214,(0x55,0x30F)); (0x215,(0x75,0x30F)); (0x216,(0x55,0x311)); (0x217,(0x75,0x311));
   (0x218,(0x53,0x326)); (0x219,(0x73,0x326)); (0x21A,(0x54,0x326)); (0x21B,(0x74,0x326));
   (0x21E,(0x48,0x30C)); (0x21F,(0x68,0x30C)); (0x226,(0x41,0x307)); (0x227,(0x61,0x307));
   (0x228,(0x45,0x327)); (0x229,(0x65,0x327)); (0x22A,(0xD6,0x304)); (0x22B,(0xF6,0x304));
   (0x22C,(0xD5,0x304)); (0x22D,(0xF5,0x304)); (0x22E,(0x4F,0x307)); (0x22F,(0x6F,0x307));
   (0x230,(0x22E,0x304)); (0x231,(0x22F,0x304)); (0x232,(0x59,0x304)); (0x233,(0x79,0x304));
   (0x344,(0x308,0x301)); (0x385,(0xA8,0x301)); (0x386,(0x391,0x301)); (0x388,(0x395,0x301));
   (0x389,(0x397,0x301)); (0x38A,(0x399,0x301)); (0x38C,(0x39F,0x301)); (0x38E,(0x3A5,0x301));
   (0x38F,(0x3A9,0x301)); (0x390,(0x3CA,0x301)); (0x3AA,(0x399,0x308)); (0x3AB,(0x3A5,0x308));
   (0x3AC,(0x3B1,0x301)); (0x3AD,(0x3B5,0x301)); (0x3AE,(0x3B7,0x301)); (0x3AF,(0x3B9,0x301));
   (0x3B0,(0x3CB,0x301)); (0x3CA,(0x3B9,0x308)); (0x3CB,(0x3C5,0x308)); (0x3CC,(0x3BF,0x301));
   (0x3CD,(0x3C5,0x301)); (0x3CE,(0x3C9,0x301)); (0x3D3,(0x3D2,0x301)); (0x3D4,(0x3D2,0x308));
   (0x400,(0x415,0x300)); (0x401,(0x415,0x308)); (0x403,(0x413,0x301)); (0x407,(0x406,0x308));
   (0x40C,(0x41A,0x301)); (0x40D,(0x418,0x300)); (0x40E,(0x423,0x306)); (0x419,(0x418,0x306));
   (0x439,(0x438,0x306)); (0x450,(0x435,0x300)); (0x451,(0x435,0x308)); (0x453,(0x433,0x301));
   (0x457,(0x456,0x308)); (0x45C,(0x43A,0x301)); (0x45D,(0x438,0x300)); (0x45E,(0x443,0x306));
   (0x476,(0x474,0x30F)); (0x477,(0x475,0x30F)); (0x4C1,(0x416,0x306)); (0x4C2,(0x436,0x306));
   (0x4D0,(0x410,0x306)); (0x4D1,(0x430,0x306)); (0x4D2,(0x410,0x308)); (0x4D3,(0x430,0x308));
   (0x4D6,(0x415,0x306)); (0x4D7,(0x435,0x306)); (0x4DA,(0x4D8,0x308)); (0x4DB,(0x4D9,0x308));
   (0x4DC,(0x416,0x308)); (0x4DD,(0x436,0x308)); (0x4DE,(0x417,0x308)); (0x4DF,(0x437,0x308));
   (0x4E2,(0x418,0x304)); (0x4E3,(0x438,0x304)); (0x4E4,(0x418,0x308)); (0x4E5,(0x438,0x308));
   (0x4E6,(0x41E,0x308)); (0x4E7,(0x43E,0x308)); (0x4EA,(0x4E8,0x308)); (0x4EB,(0x4E9,0x308));
   (0x4EC,(0x42D,0x308)); (0x4ED,(0x44D,0x308)); (0x4EE,(0x423,0x304)); (0x4EF,(0x443,0x304));
   (0x4F0,(0x423,0x308)); (0x4F1,(0x443,0x308)); (0x4F2,(0x423,0x30B)); (0x4F3,(0x443,0x30B));
   (0x4F4,(0x427,0x308)); (0x4F5,(0x447,0x308)); (0x4F8,(0x42B,0x308)); (0x4F9,(0x44B,0x308));
   (0x622,(0x627,0x653)); (0x623,(0x627,0x654)); (0x624,(0x648,0x654)); (0x625,(0x627,0x655));
   (0x626,(0x64A,0x654)); (0x6C0,(0x6D5,0x654)); (0x6C2,(0x6C1,0x654)); (0x6D3,(0x6D2,0x654));
   (0x929,(0x928,0x93C)); (0x931,(0x930,0x93C)); (0x934,(0x933,0x93C)); (0x958,(0x915,0x93C));
   (0x959,(0x916,0x93C)); (0x95A,(0x917,0x93C)); (0x95B,(0x91C,0x93C)); (0x95C,(0x921,0x93C));
   (0x95D,(0x922,0x93C)); (0x95E,(0x92B,0x93C)); (0x95F,(0x92F,0x93C)); (0x9CB,(0x9C7,0x9BE));
   (0x9CC,(0x9C7,0x9D7)); (0x9DC,(0x9A1,0x9BC)); (0x9DD,(0x9A2,0x9BC)); (0x9DF,(0x9AF,0x9BC));
   (0xA33,(0xA32,0xA3C)); (0xA36,(0xA38,0xA3C)); (0xA59,(0xA16,0xA3C)); (0xA5A,(0xA17,0xA3C));
   (0xA5B,(0xA1C,0xA3C)); (0xA5E,(0xA2B,0xA3C)); (0xB48,(0xB47,0xB56)); (0xB4B,(0xB47,0xB3E));
   (0xB4C,(0xB47,0xB57)); (0xB5C,(0xB21,0xB3C)); (0xB5D,(0xB22,0xB3C)); (0xB94,(0xB92,0xBD7));
   (0xBCA,(0xBC6,0xBBE)); (0xBCB,(0xBC7,0xBBE)); (0xBCC,(0xBC6,0xBD7)); (0xC48,(0xC46,0xC56));
   (0xCC0,(0xCBF,0xCD5)); (0xCC7,(0xCC6,0xCD5)); (0xCC8,(0xCC6,0xCD6)); (0xCCA,(0xCC6,0xCC2));
   (0xCCB,(0xCCA,0xCD5)); (0xD4A,(0xD46,0xD3E)); (0xD4B,(0xD47,0xD3E)); (0xD4C,(0xD46,0xD57));
   (0xDDA,(0xDD9,0xDCA)); (0xDDC,(0xDD9,0xDCF)); (0xDDD,(0xDDC,0xDCA)); (0xDDE,(0xDD9,0xDDF));
   (0xF43,(0xF42,0xFB7)); (0xF4D,(0xF4C,0xFB7)); (0xF52,(0xF51,0xFB7)); (0xF57,(0xF56,0xFB7));
   (0xF5C,(0xF5B,0xFB7)); (0xF69,(0xF40,0xFB5)); (0xF73,(0xF71,0xF72)); (0xF75,(0xF71,0xF74));
   (0xF76,(0xFB2,0xF80)); (0xF78,(0xFB3,0xF80)); (0xF81,(0xF71,0xF80)); (0xF93,(0xF92,0xFB7));
   (0xF9D,(0xF9C,0xFB7)); (0xFA2,(0xFA1,0xFB7)); (0xFA7,(0xFA6,0xFB7)); (0xFAC,(0xFAB,0xFB7));
   (0xFB9,(0xF90,0xFB5)); (0x1026,(0x1025,0x102E)); (0x1B06,(0x1B05,0x1B35));
   (0x1B08,(0x1B07,0x1B35)); (0x1B0A,(0x1B09,0x1B35)); (0x1B0C,(0x1B0B,0x1B35));
   (0x1B0E,(0x1B0D,0x1B35)); (0x1B12,(0x1B11,0x1B35)); (0x1B3B,(0x1B3A,0x1B35));
   (0x1B3D,(0x1B3C,0x1B35)); (0x1B40,(0x1B3E,0x1B35)); (0x1B41,(0x1B3F,0x1B35));
   (0x1B43,(0x1B42,0x1B35)); (0x1E00,(0x41,0x325)); (0x1E01,(0x61,0x325)); (0x1E02,(0x42,0x307));
   (0x1E03,(0x62,0x307)); (0x1E04,(0x42,0x323)); (0x1E05,(0x62,0x323)); (0x1E06,(0x42,0x331));
   (0x1E07,(0x62,0x331)); (0x1E08,(0xC7,0x301)); (0x1E09,(0xE7,0x301)); (0x1E0A,(0x44,0x307));
   (0x1E0B,(0x64,0x307)); (0x1E0C,(0x44,0x323)); (0x1E0D,(0x64,0x323)); (0x1E0E,(0x44,0x331));
   (0x1E0F,(0x64,0x331)); (0x1E10,(0x44,0x327)); (0x1E11,(0x64,0x327)); (0x1E12,(0x44,0x32D));
   (0x1E13,(0x64,0x32D)); (0x1E14,(0x112,0x300)); (0x1E15,(0x113,0x300)); (0x1E16,(0x112,0x301));
   (0x1E17,(0x113,0x301)); (0x1E18,(0x45,0x32D)); (0x1E19,(0x65,0x32D)); (0x1E1A,(0x45,0x330));
   (0x1E1B,(0x65,0x330)); (0x1E1C,(0x228,0x306)); (0x1E1D,(0x229,0x306)); (0x1E1E,(0x46,0x307));
   (0x1E1F,(0x66,0x307)); (0x1E20,(0x47,0x304)); (0x1E21,(0x67,0x304)); (0x1E22,(0x48,0x307));
   (0x1E23,(0x68,0x307)); (0x1E24,(0x48,0x323)); (0x1E25,(0x68,0x323)); (0x1E26,(0x48,0x308));
   (0x1E27,(0x68,0x308)); (0x1E28,(0x48,0x327)); (0x1E29,(0x68,0x327)); (0x1E2A,(0x48,0x32E));
   (0x1E2B,(0x68,0x32E)); (0x1E2C,(0x49,0x330)); (0x1E2D,(0x69,0x330)); (0x1E2E,(0xCF,0x301));
   (0x1E2F,(0xEF,0x301)); (0x1E30,(0x4B,0x301)); (0x1E31,(0x6B,0x301)); (0x1E32,(0x4B,0x323));
   (0x1E33,(0x6B,0x323)); (0x1E34,(0x4B,0x331)); (0x1E35,(0x6B,0x331)); (0x1E36,(0x4C,0x323));
   (0x1E37,(0x6C,0x323)); (0x1E38,(0x1E36,0x304)); (0x1E39,(0x1E37,0x304)); (0x1E3A,(0x4C,0x331));
   (0x1E3B,(0x6C,0x331)); (0x1E3C,(0x4C,0x32D)); (0x1E3D,(0x6C,0x32D)); (0x1E3E,(0x4D,0x301));
   (0x1E3F,(0x6D,0x301)); (0x1E40,(0x4D,0x307)); (0x1E41,(0x6D,0x307)); (0x1E42,(0x4D,0x323));
   (0x1E43,(0x6D,0x323)); (0x1E44,(0x4E,0x307)); (0x1E45,(0x6E,0x307)); (0x1E46,(0x4E,0x323));
   (0x1E47,(0x6E,0x323)); (0x1E48,(0x4E,0x331)); (0x1E49,(0x6E,0x331)); (0x1E4A,(0x4E,0x32D));
   (0x1E4B,(0x6E,0x32D)); (0x1E4C,(0xD5,0x301)); (0x1E4D,(0xF5,0x301)); (0x1E4E,(0xD5,0x308));
   (0x1E4F,(0xF5,0x308)); (0x1E50,(0x14C,0x300)); (0x1E51,(0x14D,0x300)); (0x1E52,(0x14C,0x301));
   (0x1E53,(0x14D,0x301)); (0x1E54,(0x50,0x301)); (0x1E55,(0x70,0x301)); (0x1E56,(0x50,0x307));
   (0x1E57,(0x70,0x307)); (0x1E58,(0x52,0x307)); (0x1E59,(0x72,0x307)); (0x1E5A,(0x52,0x323));
   (0x1E5B,(0x72,0x323)); (0x1E5C,(0x1E5A,0x304)); (0x1E5D,(0x1E5B,0x304)); (0x1E5E,(0x52,0x331));
   (0x1E5F,(0x72,0x331)); (0x1E60,(0x53,0x307)); (0x1E61,(0x73,0x307)); (0x1E62,(0x53,0x323));
   (0x1E63,(0x73,0x323)); (0x1E64,(0x15A,0x307)); (0x1E65,(0x15B,0x307)); (0x1E66,(0x160,0x307));
   (0x1E67,(0x161,0x307)); (0x1E68,(0x1E62,0x307)); (0x1E69,(0x1E63,0x307));
   (0x1E6A,(0x54,0x307)); (0x1E6B,(0x74,0x307)); (0x1E6C,(0x54,0x323)); (0x1E6D,(0x74,0x323));
   (0x1E6E,(0x54,0x331)); (0x1E6F,(0x74,0x331)); (0x1E70,(0x54,0x32D)); (0x1E71,(0x74,0x32D));
   (0x1E72,(0x55,0x324)); (0x1E73,(0x75,0x324)); (0x1E74,(0x55,0x330)); (0x1E75,(0x75,0x330));
   (0x1E76,(0x55,0x32D)); (0x1E77,(0x75,0x32D)); (0x1E78,(0x168,0x301)); (0x1E79,(0x169,0x301));
   (0x1E7A,(0x16A,0x308)); (0x1E7B,(0x16B,0x308)); (0x1E7C,(0x56,0x303)); (0x1E7D,(0x76,0x303));
   (0x1E7E,(0x56,0x323)); (0x1E7F,(0x76,0x323)); (0x1E80,(0x57,0x300)); (0x1E81,(0x77,0x300));
   (0x1E82,(0x57,0x301)); (0x1E83,(0x77,0x301)); (0x1E84,(0x57,0x308)); (0x1E85,(0x77,0x308));
   (0x1E86,(0x57,0x307)); (0x1E87,(0x77,0x307)); (0x1E88,(0x57,0x323)); (0x1E89,(0x77,0x323));
   (0x1E8A,(0x58,0x307)); (0x1E8B,(0x78,0x307)); (0x1E8C,(0x58,0x308)); (0x1E8D,(0x78,0x308));
   (0x1E8E,(0x59,0x307)); (0x1E8F,(0x79,0x307)); (0x1E90,(0x5A,0x302)); (0x1E91,(0x7A,0x302));
   (0x1E92,(0x5A,0x323)); (0x1E93,(0x7A,0x323)); (0x1E94,(0x5A,0x331)); (0x1E95,(0x7A,0x331));
   (0x1E96,(0x68,0x331)); (0x1E97,(0x74,0x308)); (0x1E98,(0x77,0x30A)); (0x1E99,(0x79,0x30A));
   (0x1E9B,(0x17F,0x307)); (0x1EA0,(0x41,0x323)); (0x1EA1,(0x61,0x323)); (0x1EA2,(0x41,0x309));
   (0x1EA3,(0x61,0x309)); (0x1EA4,(0xC2,0x301)); (0x1EA5,(0xE2,0x301)); (0x1EA6,(0xC2,0x300));
   (0x1EA7,(0xE2,0x300)); (0x1EA8,(0xC2,0x309)); (0x1EA9,(0xE2,0x309)); (0x1EAA,(0xC2,0x303));
   (0x1EAB,(0xE2,0x303)); (0x1EAC,(0x1EA0,0x302)); (0x1EAD,(0x1EA1,0x302));
   (0x1EAE,(0x102,0x301)); (0x1EAF,(0x103,0x301)); (0x1EB0,(0x102,0x300)); (0x1EB1,(0x103,0x300));
   (0x1EB2,(0x102,0x309)); (0x1EB3,(0x103,0x309)); (0x1EB4,(0x102,0x303)); (0x1EB5,(0x103,0x303));
   (0x1EB6,(0x1EA0,0x306)); (0x1EB7,(0x1EA1,0x306)); (0x1EB8,(0x45,0x323)); (0x1EB9,(0x65,0x323));
   (0x1EBA,(0x45,0x309)); (0x1EBB,(0x65,0x309)); (0x1EBC,(0x45,0x303)); (0x1EBD,(0x65,0x303));
   (0x1EBE,(0xCA,0x301)); (0x1EBF,(0xEA,0x301)); (0x1EC0,(0xCA,0x300)); (0x1EC1,(0xEA,0x300));
   (0x1EC2,(0xCA,0x309)); (0x1EC3,(0xEA,0x309)); (0x1EC4,(0xCA,0x303)); (0x1EC5,(0xEA,0x303));
   (0x1EC6,(0x1EB8,0x302)); (0x1EC7,(0x1EB9,0x302)); (0x1EC8,(0x49,0x309)); (0x1EC9,(0x69,0x309));
   (0x1ECA,(0x49,0x323)); (0x1ECB,(0x69,0x323)); (0x1ECC,(0x4F,0x323)); (0x1ECD,(0x6F,0x323));
   (0x1ECE,(0x4F,0x309)); (0x1ECF,(0x6F,0x309)); (0x1ED0,(0xD4,0x301)); (0x1ED1,(0xF4,0x301));
   (0x1ED2,(0xD4,0x300)); (0x1ED3,(0xF4,0x300)); (0x1ED4,(0xD4,0x309)); (0x1ED5,(0xF4,0x309));
   (0x1ED6,(0xD4,0x303)); (0x1ED7,(0xF4,0x303)); (0x1ED8,(0x1ECC,0x302)); (0x1ED9,(0x1ECD,0x302));
   (0x1EDA,(0x1A0,0x301)); (0x1EDB,(0x1A1,0x301)); (0x1EDC,(0x1A0,0x300)); (0x1EDD,(0x1A1,0x300));
   (0x1EDE,(0x1A0,0x309)); (0x1EDF,(0x1A1,0x309)); (0x1EE0,(0x1A0,0x303)); (0x1EE1,(0x1A1,0x303));
   (0x1EE2,(0x1A0,0x323)); (0x1EE3,(0x1A1,0x323)); (0x1EE4,(0x55,0x323)); (0x1EE5,(0x75,0x323));
   (0x1EE6,(0x55,0x309)); (0x1EE7,(0x75,0x309)); (0x1EE8,(0x1AF,0x301)); (0x1EE9,(0x1B0,0x301));
   (0x1EEA,(0x1AF,0x300)); (0x1EEB,(0x1B0,0x300)); (0x1EEC,(0x1AF,0x309)); (0x1EED,(0x1B0,0x309));
   (0x1EEE,(0x1AF,0x303)); (0x1EEF,(0x1B0,0x303)); (0x1EF0,(0x1AF,0x323)); (0x1EF1,(0x1B0,0x323));
   (0x1EF2,(0x59,0x300)); (0x1EF3,(0x79,0x300)); (0x1EF4,(0x59,0x323)); (0x1EF5,(0x79,0x323));
   (0x1EF6,(0x59,0x309)); (0x1EF7,(0x79,0x309)); (0x1EF8,(0x59,0x303)); (0x1EF9,(0x79,0x303));
   (0x1F00,(0x3B1,0x313)); (0x1F01,(0x3B1,0x314)); (0x1F02,(0x1F00,0x300));
   (0x1F03,(0x1F01,0x300)); (0x1F04,(0x1F00,0x301)); (0x1F05,(0x1F01,0x301));
   (0x1F06,(0x1F00,0x342)); (0x1F07,(0x1F01,0x342)); (0x1F08,(0x391,0x313));
   (0x1F09,(0x391,0x314)); (0x1F0A,(0x1F08,0x300)); (0x1F0B,(0x1F09,0x300));
   (0x1F0C,(0x1F08,0x301)); (0x1F0D,(0x1F09,0x301)); (0x1F0E,(0x1F08,0x342));
   (0x1F0F,(0x1F09,0x342)); (0x1F10,(0x3B5,0x313)); (0x1F11,(0x3B5,0x314));
   (0x1F12,(0x1F10,0x300)); (0x1F13,(0x1F11,0x300)); (0x1F14,(0x1F10,0x301));
   (0x1F15,(0x1F11,0x301)); (0x1F18,(0x395,0x313)); (0x1F19,(0x395,0x314));
   (0x1F1A,(0x1F18,0x300)); (0x1F1B,(0x1F19,0x300)); (0x1F1C,(0x1F18,0x301));
   (0x1F1D,(0x1F19,0x301)); (0x1F20,(0x3B7,0x313)); (0x1F21,(0x3B7,0x314));
   (0x1F22,(0x1F20,0x300)); (0x1F23,(0x1F21,0x300)); (0x1F24,(0x1F20,0x301));
   (0x1F25,(0x1F21,0x301)); (0x1F26,(0x1F20,0x342)); (0x1F27,(0x1F21,0x342));
   (0x1F28,(0x397,0x313)); (0x1F29,(0x397,0x314)); (0x1F2A,(0x1F28,0x300));
   (0x1F2B,(0x1F29,0x300)); (0x1F2C,(0x1F28,0x301)); (0x1F2D,(0x1F29,0x301));
   (0x1F2E,(0x1F28,0x342)); (0x1F2F,(0x1F29,0x342)); (0x1F30,(0x3B9,0x313));
   (0x1F31,(0x3B9,0x314)); (0x1F32,(0x1F30,0x300)); (0x1F33,(0x1F31,0x300));
   (0x1F34,(0x1F30,0x301)); (0x1F35,(0x1F31,0x301)); (0x1F36,(0x1F30,0x342));
   (0x1F37,(0x1F31,0x342)); (0x1F38,(0x399,0x313)); (0x1F39,(0x399,0x314));
   (0x1F3A,(0x1F38,0x300)); (0x1F3B,(0x1F39,0x300)); (0x1F3C,(0x1F38,0x301));
   (0x1F3D,(0x1F39,0x301)); (0x1F3E,(0x1F38,0x342)); (0x1F3F,(0x1F39,0x342));
   (0x1F40,(0x3BF,0x313)); (0x1F41,(0x3BF,0x314)); (0x1F42,(0x1F40,0x300));
   (0x1F43,(0x1F41,0x300)); (0x1F44,(0x1F40,0x301)); (0x1F45,(0x1F41,0x301));
   (0x1F48,(0x39F,0x313)); (0x1F49,(0x39F,0x314)); (0x1F4A,(0x1F48,0x300));
   (0x1F4B,(0x1F49,0x300)); (0x1F4C,(0x1F48,0x301)); (0x1F4D,(0x1F49,0x301));
   (0x1F50,(0x3C5,0x313)); (0x1F51,(0x3C5,0x314)); (0x1F52,(0x1F50,0x300));
   (0x1F53,(0x1F51,0x300)); (0x1F54,(0x1F50,0x301)); (0x1F55,(0x1F51,0x301));
   (0x1F56,(0x1F50,0x342)); (0x1F57,(0x1F51,0x342)); (0x1F59,(0x3A5,0x314));
   (0x1F5B,(0x1F59,0x300)); (0x1F5D,(0x1F59,0x301)); (0x1F5F,(0x1F59,0x342));
   (0x1F60,(0x3C9,0x313)); (0x1F61,(0x3C9,0x314)); (0x1F62,(0x1F60,0x300));
   (0x1F63,(0x1F61,0x300)); (0x1F64,(0x1F60,0x301)); (0x1F65,(0x1F61,0x301));
   (0x1F66,(0x1F60,0x342)); (0x1F67,(0x1F61,0x342)); (0x1F68,(0x3A9,0x313));
   (0x1F69,(0x3A9,0x314)); (0x1F6A,(0x1F68,0x300)); (0x1F6B,(0x1F69,0x300));
   (0x1F6C,(0x1F68,0x301)); (0x1F6D,(0x1F69,0x301)); (0x1F6E,(0x1F68,0x342));
   (0x1F6F,(0x1F69,0x342)); (0x1F70,(0x3B1,0x300)); (0x1F72,(0x3B5,0x300));
   (0x1F74,(0x3B7,0x300)); (0x1F76,(0x3B9,0x300)); (0x1F78,(0x3BF,0x300)); (0x1F7A,(0x3C5,0x300));
   (0x1F7C,(0x3C9,0x300)); (0x1F80,(0x1F00,0x345)); (0x1F81,(0x1F01,0x345));
   (0x1F82,(0x1F02,0x345)); (0x1F83,(0x1F03,0x345)); (0x1F84,(0x1F04,0x345));
   (0x1F85,(0x1F05,0x345)); (0x1F86,(0x1F06,0x345)); (0x1F87,(0x1F07,0x345));
   (0x1F88,(0x1F08,0x345)); (0x1F89,(0x1F09,0x345)); (0x1F8A,(0x1F0A,0x345));
   (0x1F8B,(0x1F0B,0x345)); (0x1F8C,(0x1F0C,0x345)); (0x1F8D,(0x1F0D,0x345));
   (0x1F8E,(0x1F0E,0x345)); (0x1F8F,(0x1F0F,0x345)); (0x1F90,(0x1F20,0x345));
   (0x1F91,(0x1F21,0x345)); (0x1F92,(0x1F22,0x345)); (0x1F93,(0x1F23,0x345));
   (0x1F94,(0x1F24,0x345)); (0x1F95,(0x1F25,0x345)); (0x1F96,(0x1F26,0x345));
   (0x1F97,(0x1F27,0x345)); (0x1F98,(0x1F28,0x345)); (0x1F99,(0x1F29,0x345));
   (0x1F9A,(0x1F2A,0x345)); (0x1F9B,(0x1F2B,0x345)); (0x1F9C,(0x1F2C,0x345));
   (0x1F9D,(0x1F2D,0x345)); (0x1F9E,(0x1F2E,0x345)); (0x1F9F,(0x1F2F,0x345));
   (0x1FA0,(0x1F60,0x345)); (0x1FA1,(0x1F61,0x345)); (0x1FA2,(0x1F62,0x345));
   (0x1FA3,(0x1F63,0x345)); (0x1FA4,(0x1F64,0x345)); (0x1FA5,(0x1F65,0x345));
   (0x1FA6,(0x1F66,0x345)); (0x1FA7,(0x1F67,0x345)); (0x1FA8,(0x1F68,0x345));
   (0x1FA9,(0x1F69,0x345)); (0x1FAA,(0x1F6A,0x345)); (0x1FAB,(0x1F6B,0x345));
   (0x1FAC,(0x1F6C,0x345)); (0x1FAD,(0x1F6D,0x345)); (0x1FAE,(0x1F6E,0x345));
   (0x1FAF,(0x1F6F,0x345)); (0x1FB0,(0x3B1,0x306)); (0x1FB1,(0x3B1,0x304));
   (0x1FB2,(0x1F70,0x345)); (0x1FB3,(0x3B1,0x345)); (0x1FB4,(0x3AC,0x345));
   (0x1FB6,(0x3B1,0x342)); (0x1FB7,(0x1FB6,0x345)); (0x1FB8,(0x391,0x306));
   (0x1FB9,(0x391,0x304)); (0x1FBA,(0x391,0x300)); (0x1FBC,(0x391,0x345)); (0x1FC1,(0xA8,0x342));
   (0x1FC2,(0x1F74,0x345)); (0x1FC3,(0x3B7,0x345)); (0x1FC4,(0x3AE,0x345));
   (0x1FC6,(0x3B7,0x342)); (0x1FC7,(0x1FC6,0x345)); (0x1FC8,(0x395,0x300));
   (0x1FCA,(0x397,0x300)); (0x1FCC,(0x397,0x345)); (0x1FCD,(0x1FBF,0x300));
   (0x1FCE,(0x1FBF,0x301)); (0x1FCF,(0x1FBF,0x342)); (0x1FD0,(0x3B9,0x306));
   (0x1FD1,(0x3B9,0x304)); (0x1FD2,(0x3CA,0x300)); (0x1FD6,(0x3B9,0x342)); (0x1FD7,(0x3CA,0x342));
   (0x1FD8,(0x399,0x306)); (0x1FD9,(0x399,0x304)); (0x1FDA,(0x399,0x300));
   (0x1FDD,(0x1FFE,0x300)); (0x1FDE,(0x1FFE,0x301)); (0x1FDF,(0x1FFE,0x342));
   (0x1FE0,(0x3C5,0x306)); (0x1FE1,(0x3C5,0x304)); (0x1FE2,(0x3CB,0x300)); (0x1FE4,(0x3C1,0x313));
   (0x1FE5,(0x3C1,0x314)); (0x1FE6,(0x3C5,0x342)); (0x1FE7,(0x3CB,0x342)); (0x1FE8,(0x3A5,0x306));
   (0x1FE9,(0x3A5,0x304)); (0x1FEA,(0x3A5,0x300)); (0x1FEC,(0x3A1,0x314)); (0x1FED,(0xA8,0x300));
   (0x1FF2,(0x1F7C,0x345)); (0x1FF3,(0x3C9,0x345)); (0x1FF4,(0x3CE,0x345));
   (0x1FF6,(0x3C9,0x342)); (0x1FF7,(0x1FF6,0x345)); (0x1FF8,(0x39F,0x300));
   (0x1FFA,(0x3A9,0x300)); (0x1FFC,(0x3A9,0x345)); (0x219A,(0x2190,0x338));
   (0x219B,(0x2192,0x338)); (0x21AE,(0x2194,0x338)); (0x21CD,(0x21D0,0x338));
   (0x21CE,(0x21D4,0x338)); (0x21CF,(0x21D2,0x338)); (0x2204,(0x2203,0x338));
   (0x2209,(0x2208,0x338)); (0x220C,(0x220B,0x338)); (0x2224,(0x2223,0x338));
   (0x2226,(0x2225,0x338)); (0x2241,(0x223C,0x338)); (0x2244,(0x2243,0x338));
   (0x2247,(0x2245,0x338)); (0x2249,(0x2248,0x338)); (0x2260,(0x3D,0x338));
   (0x2262,(0x2261,0x338)); (0x226D,(0x224D,0x338)); (0x226E,(0x3C,0x338)); (0x226F,(0x3E,0x338));
   (0x2270,(0x2264,0x338)); (0x2271,(0x2265,0x338)); (0x2274,(0x2272,0x338));
   (0x2275,(0x2273,0x338)); (0x2278,(0x2276,0x338)); (0x2279,(0x2277,0x338));
   (0x2280,(0x227A,0x338)); (0x2281,(0x227B,0x338)); (0x2284,(0x2282,0x338));
   (0x2285,(0x2283,0x338)); (0x2288,(0x2286,0x338)); (0x2289,(0x2287,0x338));
   (0x22AC,(0x22A2,0x338)); (0x22AD,(0x22A8,0x338)); (0x22AE,(0x22A9,0x338));
   (0x22AF,(0x22AB,0x338)); (0x22E0,(0x227C,0x338)); (0x22E1,(0x227D,0x338));
   (0x22E2,(0x2291,0x338)); (0x22E3,(0x2292,0x338)); (0x22EA,(0x22B2,0x338));
   (0x22EB,(0x22B3,0x338)); (0x22EC,(0x22B4,0x338)); (0x22ED,(0x22B5,0x338));
   (0x2ADC,(0x2ADD,0x338)); (0x304C,(0x304B,0x3099)); (0x304E,(0x304D,0x3099));
   (0x3050,(0x304F,0x3099)); (0x3052,(0x3051,0x3099)); (0x3054,(0x3053,0x3099));
   (0x3056,(0x3055,0x3099)); (0x3058,(0x3057,0x3099)); (0x305A,(0x3059,0x3099));
   (0x305C,(0x305B,0x3099)); (0x305E,(0x305D,0x3099)); (0x3060,(0x305F,0x3099));
   (0x3062,(0x3061,0x3099)); (0x3065,(0x3064,0x3099)); (0x3067,(0x3066,0x3099));
   (0x3069,(0x3068,0x3099)); (0x3070,(0x306F,0x3099)); (0x3071,(0x306F,0x309A));
   (0x3073,(0x3072,0x3099)); (0x3074,(0x3072,0x309A)); (0x3076,(0x3075,0x3099));
   (0x3077,(0x3075,0x309A)); (0x3079,(0x3078,0x3099)); (0x307A,(0x3078,0x309A));
   (0x307C,(0x307B,0x3099)); (0x307D,(0x307B,0x309A)); (0x3094,(0x3046,0x3099));
   (0x309E,(0x309D,0x3099)); (0x30AC,(0x30AB,0x3099)); (0x30AE,(0x30AD,0x3099));
   (0x30B0,(0x30AF,0x3099)); (0x30B2,(0x30B1,0x3099)); (0x30B4,(0x30B3,0x3099));
   (0x30B6,(0x30B5,0x3099)); (0x30B8,(0x30B7,0x3099)); (0x30BA,(0x30B9,0x3099));
   (0x30BC,(0x30BB,0x3099)); (0x30BE,(0x30BD,0x3099)); (0x30C0,(0x30BF,0x3099));
   (0x30C2,(0x30C1,0x3099)); (0x30C5,(0x30C4,0x3099)); (0x30C7,(0x30C6,0x3099));
   (0x30C9,(0x30C8,0x3099)); (0x30D0,(0x30CF,0x3099)); (0x30D1,(0x30CF,0x309A));
   (0x30D3,(0x30D2,0x3099)); (0x30D4,(0x30D2,0x309A)); (0x30D6,(0x30D5,0x3099));
   (0x30D7,(0x30D5,0x309A)); (0x30D9,(0x30D8,0x3099)); (0x30DA,(0x30D8,0x309A));
   (0x30DC,(0x30DB,0x3099)); (0x30DD,(0x30DB,0x309A)); (0x30F4,(0x30A6,0x3099));
   (0x30F7,(0x30EF,0x3099)); (0x30F8,(0x30F0,0x3099)); (0x30F9,(0x30F1,0x3099));
   (0x30FA,(0x30F2,0x3099)); (0x30FE,(0x30FD,0x3099)); (0xFB1D,(0x5D9,0x5B4));
   (0xFB1F,(0x5F2,0x5B7)); (0xFB2A,(0x5E9,0x5C1)); (0xFB2B,(0x5E9,0x5C2));
   (0xFB2C,(0xFB49,0x5C1)); (0xFB2D,(0xFB49,0x5C2)); (0xFB2E,(0x5D0,0x5B7));
   (0xFB2F,(0x5D0,0x5B8)); (0xFB30,(0x5D0,0x5BC)); (0xFB31,(0x5D1,0x5BC)); (0xFB32,(0x5D2,0x5BC));
   (0xFB33,(0x5D3,0x5BC)); (0xFB34,(0x5D4,0x5BC)); (0xFB35,(0x5D5,0x5BC)); (0xFB36,(0x5D6,0x5BC));
   (0xFB38,(0x5D8,0x5BC)); (0xFB39,(0x5D9,0x5BC)); (0xFB3A,(0x5DA,0x5BC)); (0xFB3B,(0x5DB,0x5BC));
   (0xFB3C,(0x5DC,0x5BC)); (0xFB3E,(0x5DE,0x5BC)); (0xFB40,(0x5E0,0x5BC)); (0xFB41,(0x5E1,0x5BC));
   (0xFB43,(0x5E3,0x5BC)); (0xFB44,(0x5E4,0x5BC)); (0xFB46,(0x5E6,0x5BC)); (0xFB47,(0x5E7,0x5BC));
   (0xFB48,(0x5E8,0x5BC)); (0xFB49,(0x5E9,0x5BC)); (0xFB4A,(0x5EA,0x5BC)); (0xFB4B,(0x5D5,0x5B9));
   (0xFB4C,(0x5D1,0x5BF)); (0xFB4D,(0x5DB,0x5BF)); (0xFB4E,(0x5E4,0x5BF));
   (0x1109A,(0x11099,0x110BA)); (0x1109C,(0x1109B,0x110BA)); (0x110AB,(0x110A5,0x110BA));
   (0x1112E,(0x11131,0x11127)); (0x1112F,(0x11132,0x11127)); (0x1134B,(0x11347,0x1133E));
   (0x1134C,(0x11347,0x11357)); (0x114BB,(0x114B9,0x114BA)); (0x114BC,(0x114B9,0x114B0));
   (0x114BE,(0x114B9,0x114BD)); (0x115BA,(0x115B8,0x115AF)); (0x115BB,(0x115B9,0x115AF));
   (0x11938,(0x11935,0x11930)); (0x1D15E,(0x1D157,0x1D165)); (0x1D15F,(0x1D158,0x1D165));
   (0x1D160,(0x1D15F,0x1D16E)); (0x1D161,(0x1D15F,0x1D16F)); (0x1D162,(0x1D15F,0x1D170));
   (0x1D163,(0x1D15F,0x1D171)); (0x1D164,(0x1D15F,0x1D172)); (0x1D1BB,(0x1D1B9,0x1D165));
   (0x1D1BC,(0x1D1BA,0x1D165)); (0x1D1BD,(0x1D1BB,0x1D16E)); (0x1D1BE,(0x1D1BC,0x1D16E));
   (0x1D1BF,(0x1D1BB,0x1D16F)); (0x1D1C0,(0x1D1BC,0x1D16F))].

(** Canonical combining class, where it is non-zero. *)
Definition CCC : list (Z * Z) :=
  [(0x300,0xE6); (0x301,0xE6); (0x302,0xE6); (0x303,0xE6); (0x304,0xE6); (0x305,0xE6);
   (0x306,0xE6); (0x307,0xE6); (0x308,0xE6); (0x309,0xE6); (0x30A,0xE6); (0x30B,0xE6);
   (0x30C,0xE6); (0x30D,0xE6); (0x30E,0xE6); (0x30F,0xE6); (0x310,0xE6); (0x311,0xE6);
   (0x312,0xE6); (0x313,0xE6); (0x314,0xE6); (0x315,0xE8); (0x316,0xDC); (0x317,0xDC);
   (0x318,0xDC); (0x319,0xDC); (0x31A,0xE8); (0x31B,0xD8); (0x31C,0xDC); (0x31D,0xDC);
   (0x31E,0xDC); (0x31F,0xDC); (0x320,0xDC); (0x321,0xCA); (0x322,0xCA); (0x323,0xDC);
   (0x324,0xDC); (0x325,0xDC); (0x326,0xDC); (0x327,0xCA); (0x328,0xCA); (0x329,0xDC);
   (0x32A,0xDC); (0x32B,0xDC); (0x32C,0xDC); (0x32D,0xDC); (0x32E,0xDC); (0x32F,0xDC);
   (0x330,0xDC); (0x331,0xDC); (0x332,0xDC); (0x333,0xDC); (0x334,0x1); (0x335,0x1); (0x336,0x1);
   (0x337,0x1); (0x338,0x1); (0x339,0xDC); (0x33A,0xDC); (0x33B,0xDC); (0x33C,0xDC); (0x33D,0xE6);
   (0x33E,0xE6); (0x33F,0xE6); (0x340,0xE6); (0x341,0xE6); (0x342,0xE6); (0x343,0xE6);
   (0x344,0xE6); (0x345,0xF0); (0x346,0xE6); (0x347,0xDC); (0x348,0xDC); (0x349,0xDC);
   (0x34A,0xE6); (0x34B,0xE6); (0x34C,0xE6); (0x34D,0xDC); (0x34E,0xDC); (0x350,0xE6);
   (0x351,0xE6); (0x352,0xE6); (0x353,0xDC); (0x354,0xDC); (0x355,0xDC); (0x356,0xDC);
   (0x357,0xE6); (0x358,0xE8); (0x359,0xDC); (0x35A,0xDC); (0x35B,0xE6); (0x35C,0xE9);
   (0x35D,0xEA); (0x35E,0xEA); (0x35F,0xE9); (0x360,0xEA); (0x361,0xEA); (0x362,0xE9);
   (0x363,0xE6); (0x364,0xE6); (0x365,0xE6); (0x366,0xE6); (0x367,0xE6); (0x368,0xE6);
   (0x369,0xE6); (0x36A,0xE6); (0x36B,0xE6); (0x36C,0xE6); (0x36D,0xE6); (0x36E,0xE6);
   (0x36F,0xE6); (0x483,0xE6); (0x484,0xE6); (0x485,0xE6); (0x486,0xE6); (0x487,0xE6);
   (0x591,0xDC); (0x592,0xE6); (0x593,0xE6); (0x594,0xE6); (0x595,0xE6); (0x596,0xDC);
   (0x597,0xE6); (0x598,0xE6); (0x599,0xE6); (0x59A,0xDE); (0x59B,0xDC); (0x59C,0xE6);
   (0x59D,0xE6); (0x59E,0xE6); (0x59F,0xE6); (0x5A0,0xE6); (0x5A1,0xE6); (0x5A2,0xDC);
   (0x5A3,0xDC); (0x5A4,0xDC); (0x5A5,0xDC); (0x5A6,0xDC); (0x5A7,0xDC); (0x5A8,0xE6);
   (0x5A9,0xE6); (0x5AA,0xDC); (0x5AB,0xE6); (0x5AC,0xE6); (0x5AD,0xDE); (0x5AE,0xE4);
   (0x5AF,0xE6); (0x5B0,0xA); (0x5B1,0xB); (0x5B2,0xC); (0x5B3,0xD); (0x5B4,0xE); (0x5B5,0xF);
   (0x5B6,0x10); (0x5B7,0x11); (0x5B8,0x12); (0x5B9,0x13); (0x5BA,0x13); (0x5BB,0x14);
   (0x5BC,0x15); (0x5BD,0x16); (0x5BF,0x17); (0x5C1,0x18); (0x5C2,0x19); (0x5C4,0xE6);
   (0x5C5,0xDC); (0x5C7,0x12); (0x610,0xE6); (0x611,0xE6); (0x612,0xE6); (0x613,0xE6);
   (0x614,0xE6); (0x615,0xE6); (0x616,0xE6); (0x617,0xE6); (0x618,0x1E); (0x619,0x1F);
   (0x61A,0x20); (0x64B,0x1B); (0x64C,0x1C); (0x64D,0x1D); (0x64E,0x1E); (0x64F,0x1F);
   (0x650,0x20); (0x651,0x21); (0x652,0x22); (0x653,0xE6); (0x654,0xE6); (0x655,0xDC);
   (0x656,0xDC); (0x657,0xE6); (0x658,0xE6); (0x659,0xE6); (0x65A,0xE6); (0x65B,0xE6);
   (0x65C,0xDC); (0x65D,0xE6); (0x65E,0xE6); (0x65F,0xDC); (0x670,0x23); (0x6D6,0xE6);
   (0x6D7,0xE6); (0x6D8,0xE6); (0x6D9,0xE6); (0x6DA,0xE6); (0x6DB,0xE6); (0x6DC,0xE6);
   (0x6DF,0xE6); (0x6E0,0xE6); (0x6E1,0xE6); (0x6E2,0xE6); (0x6E3,0xDC); (0x6E4,0xE6);
   (0x6E7,0xE6); (0x6E8,0xE6); (0x6EA,0xDC); (0x6EB,0xE6); (0x6EC,0xE6); (0x6ED,0xDC);
   (0x711,0x24); (0x730,0xE6); (0x731,0xDC); (0x732,0xE6); (0x733,0xE6); (0x734,0xDC);
   (0x735,0xE6); (0x736,0xE6); (0x737,0xDC); (0x738,0xDC); (0x739,0xDC); (0x73A,0xE6);
   (0x73B,0xDC); (0x73C,0xDC); (0x73D,0xE6); (0x73E,0xDC); (0x73F,0xE6); (0x740,0xE6);
   (0x741,0xE6); (0x742,0xDC); (0x743,0xE6); (0x744,0xDC); (0x745,0xE6); (0x746,0xDC);
   (0x747,0xE6); (0x748,0xDC); (0x749,0xE6); (0x74A,0xE6); (0x7EB,0xE6); (0x7EC,0xE6);
   (0x7ED,0xE6); (0x7EE,0xE6); (0x7EF,0xE6); (0x7F0,0xE6); (0x7F1,0xE6); (0x7F2,0xDC);
   (0x7F3,0xE6); (0x7FD,0xDC); (0x816,0xE6); (0x817,0xE6); (0x818,0xE6); (0x819,0xE6);
   (0x81B,0xE6); (0x81C,0xE6); (0x81D,0xE6); (0x81E,0xE6); (0x81F,0xE6); (0x820,0xE6);
   (0x821,0xE6); (0x822,0xE6); (0x823,0xE6); (0x825,0xE6); (0x826,0xE6); (0x827,0xE6);
   (0x829,0xE6); (0x82A,0xE6); (0x82B,0xE6); (0x82C,0xE6); (0x82D,0xE6); (0x859,0xDC);
   (0x85A,0xDC); (0x85B,0xDC); (0x8D3,0xDC); (0x8D4,0xE6); (0x8D5,0xE6); (0x8D6,0xE6);
   (0x8D7,0xE6); (0x8D8,0xE6); (0x8D9,0xE6); (0x8DA,0xE6); (0x8DB,0xE6); (0x8DC,0xE6);
   (0x8DD,0xE6); (0x8DE,0xE6); (0x8DF,0xE6); (0x8E0,0xE6); (0x8E1,0xE6); (0x8E3,0xDC);
   (0x8E4,0xE6); (0x8E5,0xE6); (0x8E6,0xDC); (0x8E7,0xE6); (0x8E8,0xE6); (0x8E9,0xDC);
   (0x8EA,0xE6); (0x8EB,0xE6); (0x8EC,0xE6); (0x8ED,0xDC); (0x8EE,0xDC); (0x8EF,0xDC);
   (0x8F0,0x1B); (0x8F1,0x1C); (0x8F2,0x1D); (0x8F3,0xE6); (0x8F4,0xE6); (0x8F5,0xE6);
   (0x8F6,0xDC); (0x8F7,0xE6); (0x8F8,0xE6); (0x8F9,0xDC); (0x8FA,0xDC); (0x8FB,0xE6);
   (0x8FC,0xE6); (0x8FD,0xE6); (0x8FE,0xE6); (0x8FF,0xE6); (0x93C,0x7); (0x94D,0x9); (0x951,0xE6);
   (0x952,0xDC); (0x953,0xE6); (0x954,0xE6); (0x9BC,0x7); (0x9CD,0x9); (0x9FE,0xE6); (0xA3C,0x7);
   (0xA4D,0x9); (0xABC,0x7); (0xACD,0x9); (0xB3C,0x7); (0xB4D,0x9); (0xBCD,0x9); (0xC4D,0x9);
   (0xC55,0x54); (0xC56,0x5B); (0xCBC,0x7); (0xCCD,0x9); (0xD3B,0x9); (0xD3C,0x9); (0xD4D,0x9);
   (0xDCA,0x9); (0xE38,0x67); (0xE39,0x67); (0xE3A,0x9); (0xE48,0x6B); (0xE49,0x6B); (0xE4A,0x6B);
   (0xE4B,0x6B); (0xEB8,0x76); (0xEB9,0x76); (0xEBA,0x9); (0xEC8,0x7A); (0xEC9,0x7A);
   (0xECA,0x7A); (0xECB,0x7A); (0xF18,0xDC); (0xF19,0xDC); (0xF35,0xDC); (0xF37,0xDC);
   (0xF39,0xD8); (0xF71,0x81); (0xF72,0x82); (0xF74,0x84); (0xF7A,0x82); (0xF7B,0x82);
   (0xF7C,0x82); (0xF7D,0x82); (0xF80,0x82); (0xF82,0xE6); (0xF83,0xE6); (0xF84,0x9);
   (0xF86,0xE6); (0xF87,0xE6); (0xFC6,0xDC); (0x1037,0x7); (0x1039,0x9); (0x103A,0x9);
   (0x108D,0xDC); (0x135D,0xE6); (0x135E,0xE6); (0x135F,0xE6); (0x1714,0x9); (0x1734,0x9);
   (0x17D2,0x9); (0x17DD,0xE6); (0x18A9,0xE4); (0x1939,0xDE); (0x193A,0xE6); (0x193B,0xDC);
   (0x1A17,0xE6); (0x1A18,0xDC); (0x1A60,0x9); (0x1A75,0xE6); (0x1A76,0xE6); (0x1A77,0xE6);
   (0x1A78,0xE6); (0x1A79,0xE6); (0x1A7A,0xE6); (0x1A7B,0xE6); (0x1A7C,0xE6); (0x1A7F,0xDC);
   (0x1AB0,0xE6); (0x1AB1,0xE6); (0x1AB2,0xE6); (0x1AB3,0xE6); (0x1AB4,0xE6); (0x1AB5,0xDC);
   (0x1AB6,0xDC); (0x1AB7,0xDC); (0x1AB8,0xDC); (0x1AB9,0xDC); (0x1ABA,0xDC); (0x1ABB,0xE6);
   (0x1ABC,0xE6); (0x1ABD,0xDC); (0x1ABF,0xDC); (0x1AC0,0xDC); (0x1B34,0x7); (0x1B44,0x9);
   (0x1B6B,0xE6); (0x1B6C,0xDC); (0x1B6D,0xE6); (0x1B6E,0xE6); (0x1B6F,0xE6); (0x1B70,0xE6);
   (0x1B71,0xE6); (0x1B72,0xE6); (0x1B73,0xE6); (0x1BAA,0x9); (0x1BAB,0x9); (0x1BE6,0x7);
   (0x1BF2,0x9); (0x1BF3,0x9); (0x1C37,0x7); (0x1CD0,0xE6); (0x1CD1,0xE6); (0x1CD2,0xE6);
   (0x1CD4,0x1); (0x1CD5,0xDC); (0x1CD6,0xDC); (0x1CD7,0xDC); (0x1CD8,0xDC); (0x1CD9,0xDC);
   (0x1CDA,0xE6); (0x1CDB,0xE6); (0x1CDC,0xDC); (0x1CDD,0xDC); (0x1CDE,0xDC); (0x1CDF,0xDC);
   (0x1CE0,0xE6); (0x1CE2,0x1); (0x1CE3,0x1); (0x1CE4,0x1); (0x1CE5,0x1); (0x1CE6,0x1);
   (0x1CE7,0x1); (0x1CE8,0x1); (0x1CED,0xDC); (0x1CF4,0xE6); (0x1CF8,0xE6); (0x1CF9,0xE6);
   (0x1DC0,0xE6); (0x1DC1,0xE6); (0x1DC2,0xDC); (0x1DC3,0xE6); (0x1DC4,0xE6); (0x1DC5,0xE6);
   (0x1DC6,0xE6); (0x1DC7,0xE6); (0x1DC8,0xE6); (0x1DC9,0xE6); (0x1DCA,0xDC); (0x1DCB,0xE6);
   (0x1DCC,0xE6); (0x1DCD,0xEA); (0x1DCE,0xD6); (0x1DCF,0xDC); (0x1DD0,0xCA); (0x1DD1,0xE6);
   (0x1DD2,0xE6); (0x1DD3,0xE6); (0x1DD4,0xE6); (0x1DD5,0xE6); (0x1DD6,0xE6); (0x1DD7,0xE6);
   (0x1DD8,0xE6); (0x1DD9,0xE6); (0x1DDA,0xE6); (0x1DDB,0xE6); (0x1DDC,0xE6); (0x1DDD,0xE6);
   (0x1DDE,0xE6); (0x1DDF,0xE6); (0x1DE0,0xE6); (0x1DE1,0xE6); (0x1DE2,0xE6); (0x1DE3,0xE6);
   (0x1DE4,0xE6); (0x1DE5,0xE6); (0x1DE6,0xE6); (0x1DE7,0xE6); (0x1DE8,0xE6); (0x1DE9,0xE6);
   (0x1DEA,0xE6); (0x1DEB,0xE6); (0x1DEC,0xE6); (0x1DED,0xE6); (0x1DEE,0xE6); (0x1DEF,0xE6);
   (0x1DF0,0xE6); (0x1DF1,0xE6); (0x1DF2,0xE6); (0x1DF3,0xE6); (0x1DF4,0xE6); (0x1DF5,0xE6);
   (0x1DF6,0xE8); (0x1DF7,0xE4); (0x1DF8,0xE4); (0x1DF9,0xDC); (0x1DFB,0xE6); (0x1DFC,0xE9);
   (0x1DFD,0xDC); (0x1DFE,0xE6); (0x1DFF,0xDC); (0x20D0,0xE6); (0x20D1,0xE6); (0x20D2,0x1);
   (0x20D3,0x1); (0x20D4,0xE6); (0x20D5,0xE6); (0x20D6,0xE6); (0x20D7,0xE6); (0x20D8,0x1);
   (0x20D9,0x1); (0x20DA,0x1); (0x20DB,0xE6); (0x20DC,0xE6); (0x20E1,0xE6); (0x20E5,0x1);
   (0x20E6,0x1); (0x20E7,0xE6); (0x20E8,0xDC); (0x20E9,0xE6); (0x20EA,0x1); (0x20EB,0x1);
   (0x20EC,0xDC); (0x20ED,0xDC); (0x20EE,0xDC); (0x20EF,0xDC); (0x20F0,0xE6); (0x2CEF,0xE6);
   (0x2CF0,0xE6); (0x2CF1,0xE6); (0x2D7F,0x9); (0x2DE0,0xE6); (0x2DE1,0xE6); (0x2DE2,0xE6);
   (0x2DE3,0xE6); (0x2DE4,0xE6); (0x2DE5,0xE6); (0x2DE6,0xE6); (0x2DE7,0xE6); (0x2DE8,0xE6);
   (0x2DE9,0xE6); (0x2DEA,0xE6); (0x2DEB,0xE6); (0x2DEC,0xE6); (0x2DED,0xE6); (0x2DEE,0xE6);
   (0x2DEF,0xE6); (0x2DF0,0xE6); (0x2DF1,0xE6); (0x2DF2,0xE6); (0x2DF3,0xE6); (0x2DF4,0xE6);
   (0x2DF5,0xE6); (0x2DF6,0xE6); (0x2DF7,0xE6); (0x2DF8,0xE6); (0x2DF9,0xE6); (0x2DFA,0xE6);
   (0x2DFB,0xE6); (0x2DFC,0xE6); (0x2DFD,0xE6); (0x2DFE,0xE6); (0x2DFF,0xE6); (0x302A,0xDA);
   (0x302B,0xE4); (0x302C,0xE8); (0x302D,0xDE); (0x302E,0xE0); (0x302F,0xE0); (0x3099,0x8);
   (0x309A,0x8); (0xA66F,0xE6); (0xA674,0xE6); (0xA675,0xE6); (0xA676,0xE6); (0xA677,0xE6);
   (0xA678,0xE6); (0xA679,0xE6); (0xA67A,0xE6); (0xA67B,0xE6); (0xA67C,0xE6); (0xA67D,0xE6);
   (0xA69E,0xE6); (0xA69F,0xE6); (0xA6F0,0xE6); (0xA6F1,0xE6); (0xA806,0x9); (0xA82C,0x9);
   (0xA8C4,0x9); (0xA8E0,0xE6); (0xA8E1,0xE6); (0xA8E2,0xE6); (0xA8E3,0xE6); (0xA8E4,0xE6);
   (0xA8E5,0xE6); (0xA8E6,0xE6); (0xA8E7,0xE6); (0xA8E8,0xE6); (0xA8E9,0xE6); (0xA8EA,0xE6);
   (0xA8EB,0xE6); (0xA8EC,0xE6); (0xA8ED,0xE6); (0xA8EE,0xE6); (0xA8EF,0xE6); (0xA8F0,0xE6);
   (0xA8F1,0xE6); (0xA92B,0xDC); (0xA92C,0xDC); (0xA92D,0xDC); (0xA953,0x9); (0xA9B3,0x7);
   (0xA9C0,0x9); (0xAAB0,0xE6); (0xAAB2,0xE6); (0xAAB3,0xE6); (0xAAB4,0xDC); (0xAAB7,0xE6);
   (0xAAB8,0xE6); (0xAABE,0xE6); (0xAABF,0xE6); (0xAAC1,0xE6); (0xAAF6,0x9); (0xABED,0x9);
   (0xFB1E,0x1A); (0xFE20,0xE6); (0xFE21,0xE6); (0xFE22,0xE6); (0xFE23,0xE6); (0xFE24,0xE6);
   (0xFE25,0xE6); (0xFE26,0xE6); (0xFE27,0xDC); (0xFE28,0xDC); (0xFE29,0xDC); (0xFE2A,0xDC);
   (0xFE2B,0xDC); (0xFE2C,0xDC); (0xFE2D,0xDC); (0xFE2E,0xE6); (0xFE2F,0xE6); (0x101FD,0xDC);
   (0x102E0,0xDC); (0x10376,0xE6); (0x10377,0xE6); (0x10378,0xE6); (0x10379,0xE6); (0x1037A,0xE6);
   (0x10A0D,0xDC); (0x10A0F,0xE6); (0x10A38,0xE6); (0x10A39,0x1); (0x10A3A,0xDC); (0x10A3F,0x9);
   (0x10AE5,0xE6); (0x10AE6,0xDC); (0x10D24,0xE6); (0x10D25,0xE6); (0x10D26,0xE6); (0x10D27,0xE6);
   (0x10EAB,0xE6); (0x10EAC,0xE6); (0x10F46,0xDC); (0x10F47,0xDC); (0x10F48,0xE6); (0x10F49,0xE6);
   (0x10F4A,0xE6); (0x10F4B,0xDC); (0x10F4C,0xE6); (0x10F4D,0xDC); (0x10F4E,0xDC); (0x10F4F,0xDC);
   (0x10F50,0xDC); (0x11046,0x9); (0x1107F,0x9); (0x110B9,0x9); (0x110BA,0x7); (0x11100,0xE6);
   (0x11101,0xE6); (0x11102,0xE6); (0x11133,0x9); (0x11134,0x9); (0x11173,0x7); (0x111C0,0x9);
   (0x111CA,0x7); (0x11235,0x9); (0x11236,0x7); (0x112E9,0x7); (0x112EA,0x9); (0x1133B,0x7);
   (0x1133C,0x7); (0x1134D,0x9); (0x11366,0xE6); (0x11367,0xE6); (0x11368,0xE6); (0x11369,0xE6);
   (0x1136A,0xE6); (0x1136B,0xE6); (0x1136C,0xE6); (0x11370,0xE6); (0x11371,0xE6); (0x11372,0xE6);
   (0x11373,0xE6); (0x11374,0xE6); (0x11442,0x9); (0x11446,0x7); (0x1145E,0xE6); (0x114C2,0x9);
   (0x114C3,0x7); (0x115BF,0x9); (0x115C0,0x7); (0x1163F,0x9); (0x116B6,0x9); (0x116B7,0x7);
   (0x1172B,0x9); (0x11839,0x9); (0x1183A,0x7); (0x1193D,0x9); (0x1193E,0x9); (0x11943,0x7);
   (0x119E0,0x9); (0x11A34,0x9); (0x11A47,0x9); (0x11A99,0x9); (0x11C3F,0x9); (0x11D42,0x7);
   (0x11D44,0x9); (0x11D45,0x9); (0x11D97,0x9); (0x16AF0,0x1); (0x16AF1,0x1); (0x16AF2,0x1);
   (0x16AF3,0x1); (0x16AF4,0x1); (0x16B30,0xE6); (0x16B31,0xE6); (0x16B32,0xE6); (0x16B33,0xE6);
   (0x16B34,0xE6); (0x16B35,0xE6); (0x16B36,0xE6); (0x16FF0,0x6); (0x16FF1,0x6); (0x1BC9E,0x1);
   (0x1D165,0xD8); (0x1D166,0xD8); (0x1D167,0x1); (0x1D168,0x1); (0x1D169,0x1); (0x1D16D,0xE2);
   (0x1D16E,0xD8); (0x1D16F,0xD8); (0x1D170,0xD8); (0x1D171,0xD8); (0x1D172,0xD8); (0x1D17B,0xDC);
   (0x1D17C,0xDC); (0x1D17D,0xDC); (0x1D17E,0xDC); (0x1D17F,0xDC); (0x1D180,0xDC); (0x1D181,0xDC);
   (0x1D182,0xDC); (0x1D185,0xE6); (0x1D186,0xE6); (0x1D187,0xE6); (0x1D188,0xE6); (0x1D189,0xE6);
   (0x1D18A,0xDC); (0x1D18B,0xDC); (0x1D1AA,0xE6); (0x1D1AB,0xE6); (0x1D1AC,0xE6); (0x1D1AD,0xE6);
   (0x1D242,0xE6); (0x1D243,0xE6); (0x1D244,0xE6); (0x1E000,0xE6); (0x1E001,0xE6); (0x1E002,0xE6);
   (0x1E003,0xE6); (0x1E004,0xE6); (0x1E005,0xE6); (0x1E006,0xE6); (0x1E008,0xE6); (0x1E009,0xE6);
   (0x1E00A,0xE6); (0x1E00B,0xE6); (0x1E00C,0xE6); (0x1E00D,0xE6); (0x1E00E,0xE6); (0x1E00F,0xE6);
   (0x1E010,0xE6); (0x1E011,0xE6); (0x1E012,0xE6); (0x1E013,0xE6); (0x1E014,0xE6); (0x1E015,0xE6);
   (0x1E016,0xE6); (0x1E017,0xE6); (0x1E018,0xE6); (0x1E01B,0xE6); (0x1E01C,0xE6); (0x1E01D,0xE6);
   (0x1E01E,0xE6); (0x1E01F,0xE6); (0x1E020,0xE6); (0x1E021,0xE6); (0x1E023,0xE6); (0x1E024,0xE6);
   (0x1E026,0xE6); (0x1E027,0xE6); (0x1E028,0xE6); (0x1E029,0xE6); (0x1E02A,0xE6); (0x1E130,0xE6);
   (0x1E131,0xE6); (0x1E132,0xE6); (0x1E133,0xE6); (0x1E134,0xE6); (0x1E135,0xE6); (0x1E136,0xE6);
   (0x1E2EC,0xE6); (0x1E2ED,0xE6); (0x1E2EE,0xE6); (0x1E2EF,0xE6); (0x1E8D0,0xDC); (0x1E8D1,0xDC);
   (0x1E8D2,0xDC); (0x1E8D3,0xDC); (0x1E8D4,0xDC); (0x1E8D5,0xDC); (0x1E8D6,0xDC); (0x1E944,0xE6);
   (0x1E945,0xE6); (0x1E946,0xE6); (0x1E947,0xE6); (0x1E948,0xE6); (0x1E949,0xE6); (0x1E94A,0x7)].

(** Canonical compositions, keyed by [a << 21 | b]. *)
Definition COMPOSE : list (Z * Z) :=
  [(0x7800338,0x226E); (0x7A00338,0x2260); (0x7C00338,0x226F); (0x8200300,0xC0); (0x8200301,0xC1);
   (0x8200302,0xC2); (0x8200303,0xC3); (0x8200304,0x100); (0x8200306,0x102); (0x8200307,0x226);
   (0x8200308,0xC4); (0x8200309,0x1EA2); (0x820030A,0xC5); (0x820030C,0x1CD); (0x820030F,0x200);
   (0x8200311,0x202); (0x8200323,0x1EA0); (0x8200325,0x1E00); (0x8200328,0x104);
   (0x8400307,0x1E02); (0x8400323,0x1E04); (0x8400331,0x1E06); (0x8600301,0x106);
   (0x8600302,0x108); (0x8600307,0x10A); (0x860030C,0x10C); (0x8600327,0xC7); (0x8800307,0x1E0A);
   (0x880030C,0x10E); (0x8800323,0x1E0C); (0x8800327,0x1E10); (0x880032D,0x1E12);
   (0x8800331,0x1E0E); (0x8A00300,0xC8); (0x8A00301,0xC9); (0x8A00302,0xCA); (0x8A00303,0x1EBC);
   (0x8A00304,0x112); (0x8A00306,0x114); (0x8A00307,0x116); (0x8A00308,0xCB); (0x8A00309,0x1EBA);
   (0x8A0030C,0x11A); (0x8A0030F,0x204); (0x8A00311,0x206); (0x8A00323,0x1EB8); (0x8A00327,0x228);
   (0x8A00328,0x118); (0x8A0032D,0x1E18); (0x8A00330,0x1E1A); (0x8C00307,0x1E1E);
   (0x8E00301,0x1F4); (0x8E00302,0x11C); (0x8E00304,0x1E20); (0x8E00306,0x11E); (0x8E00307,0x120);
   (0x8E0030C,0x1E6); (0x8E00327,0x122); (0x9000302,0x124); (0x9000307,0x1E22);
   (0x9000308,0x1E26); (0x900030C,0x21E); (0x9000323,0x1E24); (0x9000327,0x1E28);
   (0x900032E,0x1E2A); (0x9200300,0xCC); (0x9200301,0xCD); (0x9200302,0xCE); (0x9200303,0x128);
   (0x9200304,0x12A); (0x9200306,0x12C); (0x9200307,0x130); (0x9200308,0xCF); (0x9200309,0x1EC8);
   (0x920030C,0x1CF); (0x920030F,0x208); (0x9200311,0x20A); (0x9200323,0x1ECA); (0x9200328,0x12E);
   (0x9200330,0x1E2C); (0x9400302,0x134); (0x9600301,0x1E30); (0x960030C,0x1E8);
   (0x9600323,0x1E32); (0x9600327,0x136); (0x9600331,0x1E34); (0x9800301,0x139);
   (0x980030C,0x13D); (0x9800323,0x1E36); (0x9800327,0x13B); (0x980032D,0x1E3C);
   (0x9800331,0x1E3A); (0x9A00301,0x1E3E); (0x9A00307,0x1E40); (0x9A00323,0x1E42);
   (0x9C00300,0x1F8); (0x9C00301,0x143); (0x9C00303,0xD1); (0x9C00307,0x1E44); (0x9C0030C,0x147);
   (0x9C00323,0x1E46); (0x9C00327,0x145); (0x9C0032D,0x1E4A); (0x9C00331,0x1E48);
   (0x9E00300,0xD2); (0x9E00301,0xD3); (0x9E00302,0xD4); (0x9E00303,0xD5); (0x9E00304,0x14C);
   (0x9E00306,0x14E); (0x9E00307,0x22E); (0x9E00308,0xD6); (0x9E00309,0x1ECE); (0x9E0030B,0x150);
   (0x9E0030C,0x1D1); (0x9E0030F,0x20C); (0x9E00311,0x20E); (0x9E0031B,0x1A0); (0x9E00323,0x1ECC);
   (0x9E00328,0x1EA); (0xA000301,0x1E54); (0xA000307,0x1E56); (0xA400301,0x154);
   (0xA400307,0x1E58); (0xA40030C,0x158); (0xA40030F,0x210); (0xA400311,0x212);
   (0xA400323,0x1E5A); (0xA400327,0x156); (0xA400331,0x1E5E); (0xA600301,0x15A);
   (0xA600302,0x15C); (0xA600307,0x1E60); (0xA60030C,0x160); (0xA600323,0x1E62);
   (0xA600326,0x218); (0xA600327,0x15E); (0xA800307,0x1E6A); (0xA80030C,0x164);
   (0xA800323,0x1E6C); (0xA800326,0x21A); (0xA800327,0x162); (0xA80032D,0x1E70);
   (0xA800331,0x1E6E); (0xAA00300,0xD9); (0xAA00301,0xDA); (0xAA00302,0xDB); (0xAA00303,0x168);
   (0xAA00304,0x16A); (0xAA00306,0x16C); (0xAA00308,0xDC); (0xAA00309,0x1EE6); (0xAA0030A,0x16E);
   (0xAA0030B,0x170); (0xAA0030C,0x1D3); (0xAA0030F,0x214); (0xAA00311,0x216); (0xAA0031B,0x1AF);
   (0xAA00323,0x1EE4); (0xAA00324,0x1E72); (0xAA00328,0x172); (0xAA0032D,0x1E76);
   (0xAA00330,0x1E74); (0xAC00303,0x1E7C); (0xAC00323,0x1E7E); (0xAE00300,0x1E80);
   (0xAE00301,0x1E82); (0xAE00302,0x174); (0xAE00307,0x1E86); (0xAE00308,0x1E84);
   (0xAE00323,0x1E88); (0xB000307,0x1E8A); (0xB000308,0x1E8C); (0xB200300,0x1EF2);
   (0xB200301,0xDD); (0xB200302,0x176); (0xB200303,0x1EF8); (0xB200304,0x232); (0xB200307,0x1E8E);
   (0xB200308,0x178); (0xB200309,0x1EF6); (0xB200323,0x1EF4); (0xB400301,0x179);
   (0xB400302,0x1E90); (0xB400307,0x17B); (0xB40030C,0x17D); (0xB400323,0x1E92);
   (0xB400331,0x1E94); (0xC200300,0xE0); (0xC200301,0xE1); (0xC200302,0xE2); (0xC200303,0xE3);
   (0xC200304,0x101); (0xC200306,0x103); (0xC200307,0x227); (0xC200308,0xE4); (0xC200309,0x1EA3);
   (0xC20030A,0xE5); (0xC20030C,0x1CE); (0xC20030F,0x201); (0xC200311,0x203); (0xC200323,0x1EA1);
   (0xC200325,0x1E01); (0xC200328,0x105); (0xC400307,0x1E03); (0xC400323,0x1E05);
   (0xC400331,0x1E07); (0xC600301,0x107); (0xC600302,0x109); (0xC600307,0x10B); (0xC60030C,0x10D);
   (0xC600327,0xE7); (0xC800307,0x1E0B); (0xC80030C,0x10F); (0xC800323,0x1E0D);
   (0xC800327,0x1E11); (0xC80032D,0x1E13); (0xC800331,0x1E0F); (0xCA00300,0xE8); (0xCA00301,0xE9);
   (0xCA00302,0xEA); (0xCA00303,0x1EBD); (0xCA00304,0x113); (0xCA00306,0x115); (0xCA00307,0x117);
   (0xCA00308,0xEB); (0xCA00309,0x1EBB); (0xCA0030C,0x11B); (0xCA0030F,0x205); (0xCA00311,0x207);
   (0xCA00323,0x1EB9); (0xCA00327,0x229); (0xCA00328,0x119); (0xCA0032D,0x1E19);
   (0xCA00330,0x1E1B); (0xCC00307,0x1E1F); (0xCE00301,0x1F5); (0xCE00302,0x11D);
   (0xCE00304,0x1E21); (0xCE00306,0x11F); (0xCE00307,0x121); (0xCE0030C,0x1E7); (0xCE00327,0x123);
   (0xD000302,0x125); (0xD000307,0x1E23); (0xD000308,0x1E27); (0xD00030C,0x21F);
   (0xD000323,0x1E25); (0xD000327,0x1E29); (0xD00032E,0x1E2B); (0xD000331,0x1E96);
   (0xD200300,0xEC); (0xD200301,0xED); (0xD200302,0xEE); (0xD200303,0x129); (0xD200304,0x12B);
   (0xD200306,0x12D); (0xD200308,0xEF); (0xD200309,0x1EC9); (0xD20030C,0x1D0); (0xD20030F,0x209);
   (0xD200311,0x20B); (0xD200323,0x1ECB); (0xD200328,0x12F); (0xD200330,0x1E2D);
   (0xD400302,0x135); (0xD40030C,0x1F0); (0xD600301,0x1E31); (0xD60030C,0x1E9);
   (0xD600323,0x1E33); (0xD600327,0x137); (0xD600331,0x1E35); (0xD800301,0x13A);
   (0xD80030C,0x13E); (0xD800323,0x1E37); (0xD800327,0x13C); (0xD80032D,0x1E3D);
   (0xD800331,0x1E3B); (0xDA00301,0x1E3F); (0xDA00307,0x1E41); (0xDA00323,0x1E43);
   (0xDC00300,0x1F9); (0xDC00301,0x144); (0xDC00303,0xF1); (0xDC00307,0x1E45); (0xDC0030C,0x148);
   (0xDC00323,0x1E47); (0xDC00327,0x146); (0xDC0032D,0x1E4B); (0xDC00331,0x1E49);
   (0xDE00300,0xF2); (0xDE00301,0xF3); (0xDE00302,0xF4); (0xDE00303,0xF5); (0xDE00304,0x14D);
   (0xDE00306,0x14F); (0xDE00307,0x22F); (0xDE00308,0xF6); (0xDE00309,0x1ECF); (0xDE0030B,0x151);
   (0xDE0030C,0x1D2); (0xDE0030F,0x20D); (0xDE00311,0x20F); (0xDE0031B,0x1A1); (0xDE00323,0x1ECD);
   (0xDE00328,0x1EB); (0xE000301,0x1E55); (0xE000307,0x1E57); (0xE400301,0x155);
   (0xE400307,0x1E59); (0xE40030C,0x159); (0xE40030F,0x211); (0xE400311,0x213);
   (0xE400323,0x1E5B); (0xE400327,0x157); (0xE400331,0x1E5F); (0xE600301,0x15B);
   (0xE600302,0x15D); (0xE600307,0x1E61); (0xE60030C,0x161); (0xE600323,0x1E63);
   (0xE600326,0x219); (0xE600327,0x15F); (0xE800307,0x1E6B); (0xE800308,0x1E97);
   (0xE80030C,0x165); (0xE800323,0x1E6D); (0xE800326,0x21B); (0xE800327,0x163);
   (0xE80032D,0x1E71); (0xE800331,0x1E6F); (0xEA00300,0xF9); (0xEA00301,0xFA); (0xEA00302,0xFB);
   (0xEA00303,0x169); (0xEA00304,0x16B); (0xEA00306,0x16D); (0xEA00308,0xFC); (0xEA00309,0x1EE7);
   (0xEA0030A,0x16F); (0xEA0030B,0x171); (0xEA0030C,0x1D4); (0xEA0030F,0x215); (0xEA00311,0x217);
   (0xEA0031B,0x1B0); (0xEA00323,0x1EE5); (0xEA00324,0x1E73); (0xEA00328,0x173);
   (0xEA0032D,0x1E77); (0xEA00330,0x1E75); (0xEC00303,0x1E7D); (0xEC00323,0x1E7F);
   (0xEE00300,0x1E81); (0xEE00301,0x1E83); (0xEE00302,0x175); (0xEE00307,0x1E87);
   (0xEE00308,0x1E85); (0xEE0030A,0x1E98); (0xEE00323,0x1E89); (0xF000307,0x1E8B);
   (0xF000308,0x1E8D); (0xF200300,0x1EF3); (0xF200301,0xFD); (0xF200302,0x177);
   (0xF200303,0x1EF9); (0xF200304,0x233); (0xF200307,0x1E8F); (0xF200308,0xFF);
   (0xF200309,0x1EF7); (0xF20030A,0x1E99); (0xF200323,0x1EF5); (0xF400301,0x17A);
   (0xF400302,0x1E91); (0xF400307,0x17C); (0xF40030C,0x17E); (0xF400323,0x1E93);
   (0xF400331,0x1E95); (0x15000300,0x1FED); (0x15000301,0x385); (0x15000342,0x1FC1);
   (0x18400300,0x1EA6); (0x18400301,0x1EA4); (0x18400303,0x1EAA); (0x18400309,0x1EA8);
   (0x18800304,0x1DE); (0x18A00301,0x1FA); (0x18C00301,0x1FC); (0x18C00304,0x1E2);
   (0x18E00301,0x1E08); (0x19400300,0x1EC0); (0x19400301,0x1EBE); (0x19400303,0x1EC4);
   (0x19400309,0x1EC2); (0x19E00301,0x1E2E); (0x1A800300,0x1ED2); (0x1A800301,0x1ED0);
   (0x1A800303,0x1ED6); (0x1A800309,0x1ED4); (0x1AA00301,0x1E4C); (0x1AA00304,0x22C);
   (0x1AA00308,0x1E4E); (0x1AC00304,0x22A); (0x1B000301,0x1FE); (0x1B800300,0x1DB);
   (0x1B800301,0x1D7); (0x1B800304,0x1D5); (0x1B80030C,0x1D9); (0x1C400300,0x1EA7);
   (0x1C400301,0x1EA5); (0x1C400303,0x1EAB); (0x1C400309,0x1EA9); (0x1C800304,0x1DF);
   (0x1CA00301,0x1FB); (0x1CC00301,0x1FD); (0x1CC00304,0x1E3); (0x1CE00301,0x1E09);
   (0x1D400300,0x1EC1); (0x1D400301,0x1EBF); (0x1D400303,0x1EC5); (0x1D400309,0x1EC3);
   (0x1DE00301,0x1E2F); (0x1E800300,0x1ED3); (0x1E800301,0x1ED1); (0x1E800303,0x1ED7);
   (0x1E800309,0x1ED5); (0x1EA00301,0x1E4D); (0x1EA00304,0x22D); (0x1EA00308,0x1E4F);
   (0x1EC00304,0x22B); (0x1F000301,0x1FF); (0x1F800300,0x1DC); (0x1F800301,0x1D8);
   (0x1F800304,0x1D6); (0x1F80030C,0x1DA); (0x20400300,0x1EB0); (0x20400301,0x1EAE);
   (0x20400303,0x1EB4); (0x20400309,0x1EB2); (0x20600300,0x1EB1); (0x20600301,0x1EAF);
   (0x20600303,0x1EB5); (0x20600309,0x1EB3); (0x22400300,0x1E14); (0x22400301,0x1E16);
   (0x22600300,0x1E15); (0x22600301,0x1E17); (0x29800300,0x1E50); (0x29800301,0x1E52);
   (0x29A00300,0x1E51); (0x29A00301,0x1E53); (0x2B400307,0x1E64); (0x2B600307,0x1E65);
   (0x2C000307,0x1E66); (0x2C200307,0x1E67); (0x2D000301,0x1E78); (0x2D200301,0x1E79);
   (0x2D400308,0x1E7A); (0x2D600308,0x1E7B); (0x2FE00307,0x1E9B); (0x34000300,0x1EDC);
   (0x34000301,0x1EDA); (0x34000303,0x1EE0); (0x34000309,0x1EDE); (0x34000323,0x1EE2);
   (0x34200300,0x1EDD); (0x34200301,0x1EDB); (0x34200303,0x1EE1); (0x34200309,0x1EDF);
   (0x34200323,0x1EE3); (0x35E00300,0x1EEA); (0x35E00301,0x1EE8); (0x35E00303,0x1EEE);
   (0x35E00309,0x1EEC); (0x35E00323,0x1EF0); (0x36000300,0x1EEB); (0x36000301,0x1EE9);
   (0x36000303,0x1EEF); (0x36000309,0x1EED); (0x36000323,0x1EF1); (0x36E0030C,0x1EE);
   (0x3D400304,0x1EC); (0x3D600304,0x1ED); (0x44C00304,0x1E0); (0x44E00304,0x1E1);
   (0x45000306,0x1E1C); (0x45200306,0x1E1D); (0x45C00304,0x230); (0x45E00304,0x231);
   (0x5240030C,0x1EF); (0x72200300,0x1FBA); (0x72200301,0x386); (0x72200304,0x1FB9);
   (0x72200306,0x1FB8); (0x72200313,0x1F08); (0x72200314,0x1F09); (0x72200345,0x1FBC);
   (0x72A00300,0x1FC8); (0x72A00301,0x388); (0x72A00313,0x1F18); (0x72A00314,0x1F19);
   (0x72E00300,0x1FCA); (0x72E00301,0x389); (0x72E00313,0x1F28); (0x72E00314,0x1F29);
   (0x72E00345,0x1FCC); (0x73200300,0x1FDA); (0x73200301,0x38A); (0x73200304,0x1FD9);
   (0x73200306,0x1FD8); (0x73200308,0x3AA); (0x73200313,0x1F38); (0x73200314,0x1F39);
   (0x73E00300,0x1FF8); (0x73E00301,0x38C); (0x73E00313,0x1F48); (0x73E00314,0x1F49);
   (0x74200314,0x1FEC); (0x74A00300,0x1FEA); (0x74A00301,0x38E); (0x74A00304,0x1FE9);
   (0x74A00306,0x1FE8); (0x74A00308,0x3AB); (0x74A00314,0x1F59); (0x75200300,0x1FFA);
   (0x75200301,0x38F); (0x75200313,0x1F68); (0x75200314,0x1F69); (0x75200345,0x1FFC);
   (0x75800345,0x1FB4); (0x75C00345,0x1FC4); (0x76200300,0x1F70); (0x76200301,0x3AC);
   (0x76200304,0x1FB1); (0x76200306,0x1FB0); (0x76200313,0x1F00); (0x76200314,0x1F01);
   (0x76200342,0x1FB6); (0x76200345,0x1FB3); (0x76A00300,0x1F72); (0x76A00301,0x3AD);
   (0x76A00313,0x1F10); (0x76A00314,0x1F11); (0x76E00300,0x1F74); (0x76E00301,0x3AE);
   (0x76E00313,0x1F20); (0x76E00314,0x1F21); (0x76E00342,0x1FC6); (0x76E00345,0x1FC3);
   (0x77200300,0x1F76); (0x77200301,0x3AF); (0x77200304,0x1FD1); (0x77200306,0x1FD0);
   (0x77200308,0x3CA); (0x77200313,0x1F30); (0x77200314,0x1F31); (0x77200342,0x1FD6);
   (0x77E00300,0x1F78); (0x77E00301,0x3CC); (0x77E00313,0x1F40); (0x77E00314,0x1F41);
   (0x78200313,0x1FE4); (0x78200314,0x1FE5); (0x78A00300,0x1F7A); (0x78A00301,0x3CD);
   (0x78A00304,0x1FE1); (0x78A00306,0x1FE0); (0x78A00308,0x3CB); (0x78A00313,0x1F50);
   (0x78A00314,0x1F51); (0x78A00342,0x1FE6); (0x79200300,0x1F7C); (0x79200301,0x3CE);
   (0x79200313,0x1F60); (0x79200314,0x1F61); (0x79200342,0x1FF6); (0x79200345,0x1FF3);
   (0x79400300,0x1FD2); (0x79400301,0x390); (0x79400342,0x1FD7); (0x79600300,0x1FE2);
   (0x79600301,0x3B0); (0x79600342,0x1FE7); (0x79C00345,0x1FF4); (0x7A400301,0x3D3);
   (0x7A400308,0x3D4); (0x80C00308,0x407); (0x82000306,0x4D0); (0x82000308,0x4D2);
   (0x82600301,0x403); (0x82A00300,0x400); (0x82A00306,0x4D6); (0x82A00308,0x401);
   (0x82C00306,0x4C1); (0x82C00308,0x4DC); (0x82E00308,0x4DE); (0x83000300,0x40D);
   (0x83000304,0x4E2); (0x83000306,0x419); (0x83000308,0x4E4); (0x83400301,0x40C);
   (0x83C00308,0x4E6); (0x84600304,0x4EE); (0x84600306,0x40E); (0x84600308,0x4F0);
   (0x8460030B,0x4F2); (0x84E00308,0x4F4); (0x85600308,0x4F8); (0x85A00308,0x4EC);
   (0x86000306,0x4D1); (0x86000308,0x4D3); (0x86600301,0x453); (0x86A00300,0x450);
   (0x86A00306,0x4D7); (0x86A00308,0x451); (0x86C00306,0x4C2); (0x86C00308,0x4DD);
   (0x86E00308,0x4DF); (0x87000300,0x45D); (0x87000304,0x4E3); (0x87000306,0x439);
   (0x87000308,0x4E5); (0x87400301,0x45C); (0x87C00308,0x4E7); (0x88600304,0x4EF);
   (0x88600306,0x45E); (0x88600308,0x4F1); (0x8860030B,0x4F3); (0x88E00308,0x4F5);
   (0x89600308,0x4F9); (0x89A00308,0x4ED); (0x8AC00308,0x457); (0x8E80030F,0x476);
   (0x8EA0030F,0x477); (0x9B000308,0x4DA); (0x9B200308,0x4DB); (0x9D000308,0x4EA);
   (0x9D200308,0x4EB); (0xC4E00653,0x622); (0xC4E00654,0x623); (0xC4E00655,0x625);
   (0xC9000654,0x624); (0xC9400654,0x626); (0xD8200654,0x6C2); (0xDA400654,0x6D3);
   (0xDAA00654,0x6C0); (0x12500093C,0x929); (0x12600093C,0x931); (0x12660093C,0x934);
   (0x138E009BE,0x9CB); (0x138E009D7,0x9CC); (0x168E00B3E,0xB4B); (0x168E00B56,0xB48);
   (0x168E00B57,0xB4C); (0x172400BD7,0xB94); (0x178C00BBE,0xBCA); (0x178C00BD7,0xBCC);
   (0x178E00BBE,0xBCB); (0x188C00C56,0xC48); (0x197E00CD5,0xCC0); (0x198C00CC2,0xCCA);
   (0x198C00CD5,0xCC7); (0x198C00CD6,0xCC8); (0x199400CD5,0xCCB); (0x1A8C00D3E,0xD4A);
   (0x1A8C00D57,0xD4C); (0x1A8E00D3E,0xD4B); (0x1BB200DCA,0xDDA); (0x1BB200DCF,0xDDC);
   (0x1BB200DDF,0xDDE); (0x1BB800DCA,0xDDD); (0x204A0102E,0x1026); (0x360A01B35,0x1B06);
   (0x360E01B35,0x1B08); (0x361201B35,0x1B0A); (0x361601B35,0x1B0C); (0x361A01B35,0x1B0E);
   (0x362201B35,0x1B12); (0x367401B35,0x1B3B); (0x367801B35,0x1B3D); (0x367C01B35,0x1B40);
   (0x367E01B35,0x1B41); (0x368401B35,0x1B43); (0x3C6C00304,0x1E38); (0x3C6E00304,0x1E39);
   (0x3CB400304,0x1E5C); (0x3CB600304,0x1E5D); (0x3CC400307,0x1E68); (0x3CC600307,0x1E69);
   (0x3D4000302,0x1EAC); (0x3D4000306,0x1EB6); (0x3D4200302,0x1EAD); (0x3D4200306,0x1EB7);
   (0x3D7000302,0x1EC6); (0x3D7200302,0x1EC7); (0x3D9800302,0x1ED8); (0x3D9A00302,0x1ED9);
   (0x3E0000300,0x1F02); (0x3E0000301,0x1F04); (0x3E0000342,0x1F06); (0x3E0000345,0x1F80);
   (0x3E0200300,0x1F03); (0x3E0200301,0x1F05); (0x3E0200342,0x1F07); (0x3E0200345,0x1F81);
   (0x3E0400345,0x1F82); (0x3E0600345,0x1F83); (0x3E0800345,0x1F84); (0x3E0A00345,0x1F85);
   (0x3E0C00345,0x1F86); (0x3E0E00345,0x1F87); (0x3E1000300,0x1F0A); (0x3E1000301,0x1F0C);
   (0x3E1000342,0x1F0E); (0x3E1000345,0x1F88); (0x3E1200300,0x1F0B); (0x3E1200301,0x1F0D);
   (0x3E1200342,0x1F0F); (0x3E1200345,0x1F89); (0x3E1400345,0x1F8A); (0x3E1600345,0x1F8B);
   (0x3E1800345,0x1F8C); (0x3E1A00345,0x1F8D); (0x3E1C00345,0x1F8E); (0x3E1E00345,0x1F8F);
   (0x3E2000300,0x1F12); (0x3E2000301,0x1F14); (0x3E2200300,0x1F13); (0x3E2200301,0x1F15);
   (0x3E3000300,0x1F1A); (0x3E3000301,0x1F1C); (0x3E3200300,0x1F1B); (0x3E3200301,0x1F1D);
   (0x3E4000300,0x1F22); (0x3E4000301,0x1F24); (0x3E4000342,0x1F26); (0x3E4000345,0x1F90);
   (0x3E4200300,0x1F23); (0x3E4200301,0x1F25); (0x3E4200342,0x1F27); (0x3E4200345,0x1F91);
   (0x3E4400345,0x1F92); (0x3E4600345,0x1F93); (0x3E4800345,0x1F94); (0x3E4A00345,0x1F95);
   (0x3E4C00345,0x1F96); (0x3E4E00345,0x1F97); (0x3E5000300,0x1F2A); (0x3E5000301,0x1F2C);
   (0x3E5000342,0x1F2E); (0x3E5000345,0x1F98); (0x3E5200300,0x1F2B); (0x3E5200301,0x1F2D);
   (0x3E5200342,0x1F2F); (0x3E5200345,0x1F99); (0x3E5400345,0x1F9A); (0x3E5600345,0x1F9B);
   (0x3E5800345,0x1F9C); (0x3E5A00345,0x1F9D); (0x3E5C00345,0x1F9E); (0x3E5E00345,0x1F9F);
   (0x3E6000300,0x1F32); (0x3E6000301,0x1F34); (0x3E6000342,0x1F36); (0x3E6200300,0x1F33);
   (0x3E6200301,0x1F35); (0x3E6200342,0x1F37); (0x3E7000300,0x1F3A); (0x3E7000301,0x1F3C);
   (0x3E7000342,0x1F3E); (0x3E7200300,0x1F3B); (0x3E7200301,0x1F3D); (0x3E7200342,0x1F3F);
   (0x3E8000300,0x1F42); (0x3E8000301,0x1F44); (0x3E8200300,0x1F43); (0x3E8200301,0x1F45);
   (0x3E9000300,0x1F4A); (0x3E9000301,0x1F4C); (0x3E9200300,0x1F4B); (0x3E9200301,0x1F4D);
   (0x3EA000300,0x1F52); (0x3EA000301,0x1F54); (0x3EA000342,0x1F56); (0x3EA200300,0x1F53);
   (0x3EA200301,0x1F55); (0x3EA200342,0x1F57); (0x3EB200300,0x1F5B); (0x3EB200301,0x1F5D);
   (0x3EB200342,0x1F5F); (0x3EC000300,0x1F62); (0x3EC000301,0x1F64); (0x3EC000342,0x1F66);
   (0x3EC000345,0x1FA0); (0x3EC200300,0x1F63); (0x3EC200301,0x1F65); (0x3EC200342,0x1F67);
   (0x3EC200345,0x1FA1); (0x3EC400345,0x1FA2); (0x3EC600345,0x1FA3); (0x3EC800345,0x1FA4);
   (0x3ECA00345,0x1FA5); (0x3ECC00345,0x1FA6); (0x3ECE00345,0x1FA7); (0x3ED000300,0x1F6A);
   (0x3ED000301,0x1F6C); (0x3ED000342,0x1F6E); (0x3ED000345,0x1FA8); (0x3ED200300,0x1F6B);
   (0x3ED200301,0x1F6D); (0x3ED200342,0x1F6F); (0x3ED200345,0x1FA9); (0x3ED400345,0x1FAA);
   (0x3ED600345,0x1FAB); (0x3ED800345,0x1FAC); (0x3EDA00345,0x1FAD); (0x3EDC00345,0x1FAE);
   (0x3EDE00345,0x1FAF); (0x3EE000345,0x1FB2); (0x3EE800345,0x1FC2); (0x3EF800345,0x1FF2);
   (0x3F6C00345,0x1FB7); (0x3F7E00300,0x1FCD); (0x3F7E00301,0x1FCE); (0x3F7E00342,0x1FCF);
   (0x3F8C00345,0x1FC7); (0x3FEC00345,0x1FF7); (0x3FFC00300,0x1FDD); (0x3FFC00301,0x1FDE);
   (0x3FFC00342,0x1FDF); (0x432000338,0x219A); (0x432400338,0x219B); (0x432800338,0x21AE);
   (0x43A000338,0x21CD); (0x43A400338,0x21CF); (0x43A800338,0x21CE); (0x440600338,0x2204);
   (0x441000338,0x2209); (0x441600338,0x220C); (0x444600338,0x2224); (0x444A00338,0x2226);
   (0x447800338,0x2241); (0x448600338,0x2244); (0x448A00338,0x2247); (0x449000338,0x2249);
   (0x449A00338,0x226D); (0x44C200338,0x2262); (0x44C800338,0x2270); (0x44CA00338,0x2271);
   (0x44E400338,0x2274); (0x44E600338,0x2275); (0x44EC00338,0x2278); (0x44EE00338,0x2279);
   (0x44F400338,0x2280); (0x44F600338,0x2281); (0x44F800338,0x22E0); (0x44FA00338,0x22E1);
   (0x450400338,0x2284); (0x450600338,0x2285); (0x450C00338,0x2288); (0x450E00338,0x2289);
   (0x452200338,0x22E2); (0x452400338,0x22E3); (0x454400338,0x22AC); (0x455000338,0x22AD);
   (0x455200338,0x22AE); (0x455600338,0x22AF); (0x456400338,0x22EA); (0x456600338,0x22EB);
   (0x456800338,0x22EC); (0x456A00338,0x22ED); (0x608C03099,0x3094); (0x609603099,0x304C);
   (0x609A03099,0x304E); (0x609E03099,0x3050); (0x60A203099,0x3052); (0x60A603099,0x3054);
   (0x60AA03099,0x3056); (0x60AE03099,0x3058); (0x60B203099,0x305A); (0x60B603099,0x305C);
   (0x60BA03099,0x305E); (0x60BE03099,0x3060); (0x60C203099,0x3062); (0x60C803099,0x3065);
   (0x60CC03099,0x3067); (0x60D003099,0x3069); (0x60DE03099,0x3070); (0x60DE0309A,0x3071);
   (0x60E403099,0x3073); (0x60E40309A,0x3074); (0x60EA03099,0x3076); (0x60EA0309A,0x3077);
   (0x60F003099,0x3079); (0x60F00309A,0x307A); (0x60F603099,0x307C); (0x60F60309A,0x307D);
   (0x613A03099,0x309E); (0x614C03099,0x30F4); (0x615603099,0x30AC); (0x615A03099,0x30AE);
   (0x615E03099,0x30B0); (0x616203099,0x30B2); (0x616603099,0x30B4); (0x616A03099,0x30B6);
   (0x616E03099,0x30B8); (0x617203099,0x30BA); (0x617603099,0x30BC); (0x617A03099,0x30BE);
   (0x617E03099,0x30C0); (0x618203099,0x30C2); (0x618803099,0x30C5); (0x618C03099,0x30C7);
   (0x619003099,0x30C9); (0x619E03099,0x30D0); (0x619E0309A,0x30D1); (0x61A403099,0x30D3);
   (0x61A40309A,0x30D4); (0x61AA03099,0x30D6); (0x61AA0309A,0x30D7); (0x61B003099,0x30D9);
   (0x61B00309A,0x30DA); (0x61B603099,0x30DC); (0x61B60309A,0x30DD); (0x61DE03099,0x30F7);
   (0x61E003099,0x30F8); (0x61E203099,0x30F9); (0x61E403099,0x30FA); (0x61FA03099,0x30FE);
   (0x22132110BA,0x1109A); (0x22136110BA,0x1109C); (0x2214A110BA,0x110AB); (0x2226211127,0x1112E);
   (0x2226411127,0x1112F); (0x2268E1133E,0x1134B); (0x2268E11357,0x1134C); (0x22972114B0,0x114BC);
   (0x22972114BA,0x114BB); (0x22972114BD,0x114BE); (0x22B70115AF,0x115BA); (0x22B72115AF,0x115BB);
   (0x2326A11930,0x11938)].
