(* ===== verification/UnicodeGc.v ===== *)
(** * shell-text: general categories and NFC

    Models shell/crates/shell-text/src/unicode_gc.rs over the generated
    tables.  [None] stands for a panic of [unwrap] or a recursion deeper than
    the bound; neither happens ([UnicodeGcProps]). *)

From S2P Require Import Prelude Utf8 UnicodeTables.

(** ** Binary search

    [in_ranges] and [slice::binary_search_by]: [cmp] orders an element against
    the target.  The interval at least halves, so one round per element is
    more than enough. *)
Section search.
Context {A : Type} (cmp : A → comparison).

Fixpoint search (fuel : nat) (l : list A) (lo hi : nat) : option nat :=
  match fuel with
  | O => None
  | S fuel =>
      if (lo <? hi)%nat then
        let mid := (lo + (hi - lo) / 2)%nat in
        match l !! mid with
        | None => None
        | Some x =>
            match cmp x with
            | Gt => search fuel l lo mid
            | Lt => search fuel l (mid + 1) hi
            | Eq => Some mid
            end
        end
      else None
  end.

Definition binary_search_by (l : list A) : option nat :=
  search (S (length l)) l 0 (length l).
End search.

(** A range [(a, b)] against a code point. *)
Definition range_cmp (cp : Z) (r : Z * Z) : comparison :=
  if cp <? r.1 then Gt else if cp >? r.2 then Lt else Eq.

Definition in_ranges (rs : list (Z * Z)) (cp : Z) : bool :=
  match binary_search_by (range_cmp cp) rs with Some _ => true | None => false end.

Definition is_letter (c : char) : bool := in_ranges LETTER_RANGES c.
Definition is_mark (c : char) : bool := in_ranges MARK_RANGES c.
Definition is_number (c : char) : bool := in_ranges NUMBER_RANGES c.

(** [match t.binary_search_by(|&(k, ..)| k.cmp(&key)) { Ok(i) => t[i] .. }] *)
Definition table_get {V} (t : list (Z * V)) (key : Z) : option V :=
  i ← binary_search_by (λ e, e.1 ?= key) t; snd <$> (t !! i).

Definition ccc (c : char) : Z := default 0 (table_get CCC c).

(** ** Decomposition *)

Definition S_BASE : Z := 0xAC00.
Definition L_BASE : Z := 0x1100.
Definition V_BASE : Z := 0x1161.
Definition T_BASE : Z := 0x11A7.
Definition V_COUNT : Z := 21.
Definition T_COUNT : Z := 28.
Definition N_COUNT : Z := V_COUNT * T_COUNT.
Definition S_COUNT : Z := 19 * N_COUNT.

(** The characters [decompose_one] pushes for [c]. *)
Fixpoint decompose_fuel (fuel : nat) (c : char) : option (list char) :=
  match fuel with
  | O => None
  | S fuel =>
      if decide (S_BASE ≤ c < S_BASE + S_COUNT) then
        let si := c - S_BASE in
        l ← from_u32 (L_BASE + si / N_COUNT);
        v ← from_u32 (V_BASE + (si mod N_COUNT) / T_COUNT);
        let tj := si mod T_COUNT in
        if decide (tj ≠ 0) then t ← from_u32 (T_BASE + tj); Some [l; v; t] else Some [l; v]
      else
        match table_get DECOMPOSE_1 c with
        | Some to => to ← from_u32 to; decompose_fuel fuel to
        | None =>
            match table_get DECOMPOSE_2 c with
            | Some (a, b) =>
                a ← from_u32 a; da ← decompose_fuel fuel a;
                b ← from_u32 b; db ← decompose_fuel fuel b;
                Some (da ++ db)
            | None => Some [c]
            end
        end
  end.

(** No decomposition in the tables nests deeper than four. *)
Definition decompose_one (c : char) : option (list char) := decompose_fuel 6 c.

(** ** Composition *)

Definition compose (a b : char) : option char :=
  if decide (L_BASE ≤ a < L_BASE + 19 ∧ V_BASE ≤ b < V_BASE + V_COUNT) then
    let l := a - L_BASE in
    let v := b - V_BASE in
    from_u32 (S_BASE + (l * V_COUNT + v) * T_COUNT)
  else if decide (S_BASE ≤ a < S_BASE + S_COUNT ∧ (a - S_BASE) mod T_COUNT = 0
                  ∧ T_BASE + 1 ≤ b < T_BASE + T_COUNT) then
    from_u32 (a + (b - T_BASE))
  else
    c ← table_get COMPOSE (Z.lor (Z.shiftl a 21) b); from_u32 c.

(** ** NFC *)

(** Step 2's inner loop: the character moves left past higher classes.  The
    prefix is kept in reverse, so its last element is at the head. *)
Fixpoint sink (c : char) (cc : Z) (before : list char) : list char :=
  match before with
  | [] => [c]
  | p :: before' =>
      let prev := ccc p in
      if decide (prev = 0 ∨ prev ≤ cc) then c :: before else p :: sink c cc before'
  end.

Definition order_step (before : list char) (c : char) : list char :=
  let cc := ccc c in if decide (cc = 0) then c :: before else sink c cc before.

Definition canonical_order (d : list char) : list char :=
  reverse (foldl order_step [] d).

(** Step 3's state: the output without the characters after the starter, the
    starter, and those characters, both in reverse. *)
Record Composer := mkComposer {
  before_starter : list char;
  starter_ch : char;
  after_starter : list char;
  last_class : Z;
}.

Definition compose_step (s : Composer) (ch : char) : Composer :=
  let ch_class := ccc ch in
  let blocked := bool_decide (¬ (last_class s < ch_class ∨ last_class s = 0)) in
  match (if blocked then None else compose (starter_ch s) ch) with
  | Some comp => mkComposer (before_starter s) comp (after_starter s) (last_class s)
  | None =>
      if decide (ch_class = 0)
      then mkComposer (after_starter s ++ starter_ch s :: before_starter s) ch [] ch_class
      else mkComposer (before_starter s) (starter_ch s) (ch :: after_starter s) ch_class
  end.

Definition composer_output (s : Composer) : list char :=
  reverse (after_starter s ++ starter_ch s :: before_starter s).

Definition canonical_compose (d : list char) : list char :=
  match d with
  | [] => []
  | c :: d' =>
      composer_output
        (foldl compose_step (mkComposer [] c [] (if decide (ccc c ≠ 0) then 256 else 0)) d')
  end.

Fixpoint decompose_all (s : list char) : option (list char) :=
  match s with
  | [] => Some []
  | c :: s' => d ← decompose_one c; ds ← decompose_all s'; Some (d ++ ds)
  end.

Definition nfc (s : rstr) : option rstr :=
  d ← decompose_all s;
  Some (canonical_compose (canonical_order d)).
