(* ===== verification/UnicodeGcProps.v ===== *)
(** * Correctness of the category lookups and of NFC

    The lookups decide membership in the tables and the three categories are
    disjoint; decomposition is total and complete; ordering and composition
    preserve canonical equivalence. *)

From S2P Require Import Prelude Utf8 UnicodeTables UnicodeGc.

(** ** Binary search on a sorted table *)

Section search_lemmas.
Context {A : Type} (cmp : A → comparison) (l : list A).

(** The target splits the table: smaller elements, equal ones, larger ones. *)
Definition split_by : Prop :=
  ∀ i j x y, (i < j)%nat → l !! i = Some x → l !! j = Some y →
    (cmp x = Gt → cmp y = Gt) ∧ (cmp y = Lt → cmp x = Lt).

Lemma search_Some fuel : ∀ lo hi i, search cmp fuel l lo hi = Some i →
  ∃ x, l !! i = Some x ∧ cmp x = Eq.
Proof.
  induction fuel as [|fuel IH]; intros lo hi i; cbn [search]; [done|].
  destruct (lo <? hi)%nat; [|done]. cbn zeta.
  destruct (l !! _) as [x|] eqn:E; [|done].
  destruct (cmp x) eqn:C; [intros [= <-]; eauto|apply IH|apply IH].
Qed.

Lemma search_None fuel : split_by → ∀ lo hi, (hi ≤ length l)%nat → (hi - lo < fuel)%nat →
  search cmp fuel l lo hi = None →
  ∀ i x, (lo ≤ i < hi)%nat → l !! i = Some x → cmp x ≠ Eq.
Proof.
  intros Hs. induction fuel as [|fuel IH]; intros lo hi Hh Hf; [lia|]. cbn [search].
  destruct (lo <? hi)%nat eqn:Hlt; [apply Nat.ltb_lt in Hlt|intros _ i x ?; apply Nat.ltb_ge in Hlt; lia].
  cbn zeta. set (mid := (lo + (hi - lo) / 2)%nat).
  assert (lo ≤ mid < hi)%nat as Hmid.
  { subst mid. pose proof (Nat.div_lt (hi - lo) 2 ltac:(lia) ltac:(lia)). lia. }
  destruct (lookup_lt_is_Some_2 l mid) as [m Hm]; [lia|]. rewrite Hm.
  destruct (cmp m) eqn:C; [done| |]; intros Hn i x Hi Hx Heq.
  - destruct (decide (i ≤ mid)%nat); [|by eapply (IH (mid + 1)%nat hi); eauto; lia].
    destruct (decide (i = mid)) as [->|]; [congruence|].
    destruct (Hs i mid x m ltac:(lia) Hx Hm) as [_ H]. rewrite H in Heq; done.
  - destruct (decide (i < mid)%nat); [by eapply (IH lo mid); eauto; lia|].
    destruct (decide (i = mid)) as [->|]; [congruence|].
    destruct (Hs mid i m x ltac:(lia) Hm Hx) as [H _]. rewrite H in Heq; done.
Qed.

Lemma binary_search_Some i : binary_search_by cmp l = Some i → ∃ x, l !! i = Some x ∧ cmp x = Eq.
Proof. apply search_Some. Qed.

Lemma binary_search_None : split_by → binary_search_by cmp l = None → Forall (λ x, cmp x ≠ Eq) l.
Proof.
  intros Hs Hn. apply Forall_forall. intros x [i Hi]%list_elem_of_lookup.
  apply (search_None (S (length l)) Hs 0 (length l) ltac:(lia) ltac:(lia) Hn i x); [|done].
  apply lookup_lt_Some in Hi. lia.
Qed.
End search_lemmas.

Lemma StronglySorted_lookup {A} (R : A → A → Prop) l i j x y :
  StronglySorted R l → (i < j)%nat → l !! i = Some x → l !! j = Some y → R x y.
Proof.
  intros Hl. revert i j. induction Hl as [|z l Hl IH Hz]; intros i j Hij Hx Hy; [done|].
  destruct j as [|j]; [lia|]. cbn in Hy. destruct i as [|i].
  - cbn in Hx. injection Hx as ->. eapply Forall_forall; [exact Hz|]. by eapply list_elem_of_lookup_2.
  - cbn in Hx. eapply IH; [|done..]. lia.
Qed.

(** Sortedness of a table, as a check on neighbours. *)
Fixpoint adjacent {A} (r : A → A → bool) (l : list A) : bool :=
  match l with
  | x :: (y :: _) as l' => r x y && adjacent r l'
  | _ => true
  end.

Lemma adjacent_sorted {A} (r : A → A → bool) (R : A → A → Prop) `{!Transitive R} l :
  (∀ x y, r x y = true → R x y) → adjacent r l = true → StronglySorted R l.
Proof.
  intros Hr Ha. apply Sorted_StronglySorted; [done|]. revert Ha.
  induction l as [|x [|y l] IH]; [constructor|constructor; [constructor|constructor]|].
  cbn [adjacent]. intros [Hxy Ha]%andb_true_iff. constructor; [by apply IH|].
  constructor. by apply Hr.
Qed.

(** ** General categories *)

Definition range_lt (r1 r2 : Z * Z) : Prop := r1.1 ≤ r1.2 ∧ r2.1 ≤ r2.2 ∧ r1.2 < r2.1.
Definition range_ltb (r1 r2 : Z * Z) : bool := (r1.1 <=? r1.2) && (r2.1 <=? r2.2) && (r1.2 <? r2.1).
#[export] Instance range_lt_trans : Transitive range_lt.
Proof. intros r1 r2 r3. unfold range_lt. lia. Qed.

Lemma range_ltb_lt r1 r2 : range_ltb r1 r2 = true → range_lt r1 r2.
Proof. unfold range_ltb, range_lt. rewrite !andb_true_iff, !Z.leb_le, Z.ltb_lt. lia. Qed.

Definition within (cp : Z) (r : Z * Z) : Prop := r.1 ≤ cp ≤ r.2.

Lemma range_cmp_spec cp r : range_cmp cp r = Eq ↔ within cp r.
Proof.
  unfold range_cmp, within. destruct (cp <? r.1) eqn:E1; [|destruct (cp >? r.2) eqn:E2];
    rewrite ?Z.ltb_lt, ?Z.ltb_ge, ?Z.gtb_lt, ?Z.gtb_ltb, ?Z.ltb_ge in *; (split; [done||lia|lia||done]).
Qed.

Lemma range_split rs cp : StronglySorted range_lt rs → split_by (range_cmp cp) rs.
Proof.
  intros Hs i j x y Hij Hx Hy. pose proof (StronglySorted_lookup _ _ _ _ _ _ Hs Hij Hx Hy) as (?&?&?).
  unfold range_cmp. rewrite !Z.gtb_ltb.
  split; intros H'; repeat (case_match; rewrite ?Z.ltb_lt, ?Z.ltb_ge in *; try done; try lia).
Qed.

Lemma in_ranges_spec rs cp : StronglySorted range_lt rs →
  in_ranges rs cp = true ↔ Exists (within cp) rs.
Proof.
  intros Hs. unfold in_ranges. destruct (binary_search_by _ rs) as [i|] eqn:E.
  - apply binary_search_Some in E as (x & Hx & Hc). apply range_cmp_spec in Hc.
    split; [|done]. intros _. apply Exists_exists. exists x. split; [|done].
    by eapply list_elem_of_lookup_2.
  - apply binary_search_None in E; [|by apply range_split]. split; [done|].
    intros (x & Hx & Hw)%Exists_exists. eapply Forall_forall in E; [|exact Hx].
    by rewrite range_cmp_spec in E.
Qed.

Lemma letter_sorted : StronglySorted range_lt LETTER_RANGES.
Proof. apply (adjacent_sorted range_ltb range_lt); [apply range_ltb_lt|by vm_compute]. Qed.
Lemma mark_sorted : StronglySorted range_lt MARK_RANGES.
Proof. apply (adjacent_sorted range_ltb range_lt); [apply range_ltb_lt|by vm_compute]. Qed.
Lemma number_sorted : StronglySorted range_lt NUMBER_RANGES.
Proof. apply (adjacent_sorted range_ltb range_lt); [apply range_ltb_lt|by vm_compute]. Qed.

Lemma is_letter_spec c : is_letter c = true ↔ Exists (within c) LETTER_RANGES.
Proof. apply in_ranges_spec, letter_sorted. Qed.
Lemma is_mark_spec c : is_mark c = true ↔ Exists (within c) MARK_RANGES.
Proof. apply in_ranges_spec, mark_sorted. Qed.
Lemma is_number_spec c : is_number c = true ↔ Exists (within c) NUMBER_RANGES.
Proof. apply in_ranges_spec, number_sorted. Qed.

(** Two sorted range lists without a common point, by a linear merge. *)
Fixpoint disjoint_ranges (fuel : nat) (rs ss : list (Z * Z)) : bool :=
  match fuel with
  | O => false
  | S fuel =>
      match rs, ss with
      | [], _ | _, [] => true
      | (a, b) :: rs', (c, d) :: ss' =>
          if b <? c then disjoint_ranges fuel rs' ss
          else if d <? a then disjoint_ranges fuel rs ss' else false
      end
  end.

Lemma disjoint_ranges_spec fuel : ∀ rs ss cp,
  StronglySorted range_lt rs → StronglySorted range_lt ss → disjoint_ranges fuel rs ss = true →
  Exists (within cp) rs → Exists (within cp) ss → False.
Proof.
  induction fuel as [|fuel IH]; intros rs ss cp Hr Hs; cbn [disjoint_ranges]; [done|].
  destruct rs as [|[a b] rs]; [by intros _ ?%Exists_nil|].
  destruct ss as [|[c d] ss]; [by intros _ _ ?%Exists_nil|].
  pose proof (StronglySorted_inv Hr) as [Hr' Hrf]. pose proof (StronglySorted_inv Hs) as [Hs' Hsf].
  rewrite Forall_forall in Hrf, Hsf.
  destruct (b <? c) eqn:E; [apply Z.ltb_lt in E|destruct (d <? a) eqn:E2; [apply Z.ltb_lt in E2|done]].
  - intros Hd [Hw|Hw]%Exists_cons Hex; [|exact (IH _ _ cp Hr' Hs Hd Hw Hex)].
    apply Exists_cons in Hex as [Hw'|(x & Hx & Hw')%Exists_exists]; unfold within in *; cbn in *; [lia|].
    destruct (Hsf x Hx) as (?&?&?). cbn in *. lia.
  - intros Hd Hex [Hw|Hw]%Exists_cons; [|exact (IH _ _ cp Hr Hs' Hd Hex Hw)].
    apply Exists_cons in Hex as [Hw'|(x & Hx & Hw')%Exists_exists]; unfold within in *; cbn in *; [lia|].
    destruct (Hrf x Hx) as (?&?&?). cbn in *. lia.
Qed.

(** ** Keyed tables *)

Definition keys_lt {V} (e1 e2 : Z * V) : Prop := e1.1 < e2.1.
#[export] Instance keys_lt_trans {V} : Transitive (@keys_lt V).
Proof. intros x y z. unfold keys_lt. lia. Qed.

Lemma keys_sorted {V} (t : list (Z * V)) :
  adjacent (λ e1 e2, e1.1 <? e2.1) t = true → StronglySorted keys_lt t.
Proof. apply adjacent_sorted; [apply _|]. intros x y H. by apply Z.ltb_lt in H. Qed.

Lemma table_get_spec {V} (t : list (Z * V)) k v : StronglySorted keys_lt t →
  table_get t k = Some v ↔ (k, v) ∈ t.
Proof.
  intros Hs. unfold table_get.
  assert (split_by (λ e : Z * V, e.1 ?= k) t) as Hsp.
  { intros i j x y Hij Hx Hy. pose proof (StronglySorted_lookup _ _ _ _ _ _ Hs Hij Hx Hy) as Hlt.
    unfold keys_lt in Hlt. split; [rewrite !Z.compare_gt_iff|rewrite !Z.compare_lt_iff]; lia. }
  destruct (binary_search_by _ t) as [i|] eqn:E; cbn.
  - apply binary_search_Some in E as ([k' v'] & Hx & Hc). apply Z.compare_eq in Hc. cbn in Hc. subst k'.
    rewrite Hx. cbn. split; [intros [= <-]; by eapply list_elem_of_lookup_2|].
    intros [j Hj]%list_elem_of_lookup. destruct (Nat.lt_trichotomy i j) as [Hlt|[->|Hlt]].
    + pose proof (StronglySorted_lookup _ _ _ _ _ _ Hs Hlt Hx Hj) as H. unfold keys_lt in H. cbn in H. lia.
    + congruence.
    + pose proof (StronglySorted_lookup _ _ _ _ _ _ Hs Hlt Hj Hx) as H. unfold keys_lt in H. cbn in H. lia.
  - apply binary_search_None in E; [|done]. split; [done|]. intros Hin.
    eapply Forall_forall in E; [|exact Hin]. cbn in E. by rewrite Z.compare_refl in E.
Qed.

Lemma NoDup_keys {V} (t : list (Z * V)) : StronglySorted keys_lt t → NoDup t.*1.
Proof.
  induction 1 as [|[k v] t Ht IH Hf]; cbn; constructor; [|done].
  intros ([k' v'] & E & Hin)%list_elem_of_fmap. cbn in E. subst k'.
  eapply Forall_forall in Hf; [|exact Hin]. unfold keys_lt in Hf. cbn in Hf. lia.
Qed.

(** A finite map gives the same answers and evaluates faster. *)
Lemma table_get_map {V} (t : list (Z * V)) k : StronglySorted keys_lt t →
  table_get t k = (list_to_map t : gmap Z V) !! k.
Proof.
  intros Hs. apply option_eq. intros v. rewrite table_get_spec by done.
  by apply elem_of_list_to_map, NoDup_keys.
Qed.

Lemma d1_sorted : StronglySorted keys_lt DECOMPOSE_1.
Proof. apply keys_sorted. by vm_compute. Qed.
Lemma d2_sorted : StronglySorted keys_lt DECOMPOSE_2.
Proof. apply keys_sorted. by vm_compute. Qed.
Lemma ccc_sorted : StronglySorted keys_lt CCC.
Proof. apply keys_sorted. by vm_compute. Qed.
Lemma compose_sorted : StronglySorted keys_lt COMPOSE.
Proof. apply keys_sorted. by vm_compute. Qed.

(** ** Decomposition is total and complete *)

Lemma from_u32_Some c : scalar c → from_u32 c = Some c.
Proof. intros. unfold from_u32. by rewrite decide_True. Qed.

Definition hangul (c : Z) : Prop := S_BASE ≤ c < S_BASE + S_COUNT.
#[export] Instance hangul_dec c : Decision (hangul c).
Proof. unfold hangul. apply _. Defined.

(** [c] is its own decomposition. *)
Definition atomic (c : Z) : Prop :=
  ¬ hangul c ∧ table_get DECOMPOSE_1 c = None ∧ table_get DECOMPOSE_2 c = None.

Lemma atomic_decompose fuel c : atomic c → decompose_fuel (S fuel) c = Some [c].
Proof.
  intros (Hh & H1 & H2). cbn [decompose_fuel]. rewrite decide_False by done. by rewrite H1, H2.
Qed.

(** The recursion over finite maps, for checking every table entry. *)
Section by_map.
Variable m1 : gmap Z Z.
Variable m2 : gmap Z (Z * Z).

Definition atomicb (c : Z) : bool :=
  negb (bool_decide (hangul c)) && bool_decide (m1 !! c = None) && bool_decide (m2 !! c = None).

Fixpoint decompose_map (fuel : nat) (c : Z) : option (list Z) :=
  match fuel with
  | O => None
  | S fuel =>
      if bool_decide (hangul c) then None else
      match m1 !! c with
      | Some to => to ← from_u32 to; decompose_map fuel to
      | None =>
          match m2 !! c with
          | Some (a, b) =>
              a ← from_u32 a; da ← decompose_map fuel a;
              b ← from_u32 b; db ← decompose_map fuel b; Some (da ++ db)
          | None => Some [c]
          end
      end
  end.

Definition entry_ok (c : Z) : bool :=
  match decompose_map 6 c with
  | Some (d :: ds) => forallb (λ x, atomicb x && bool_decide (scalar x)) (d :: ds)
  | _ => false
  end.
End by_map.

Lemma table_checks :
  let m1 : gmap Z Z := list_to_map DECOMPOSE_1 in
  let m2 : gmap Z (Z * Z) := list_to_map DECOMPOSE_2 in
  forallb (entry_ok m1 m2) DECOMPOSE_1.*1 && forallb (entry_ok m1 m2) DECOMPOSE_2.*1
  && forallb (atomicb m1 m2) (seqZ L_BASE 19 ++ seqZ V_BASE 21 ++ seqZ T_BASE 28) = true.
Proof. vm_compute. reflexivity. Qed.

Definition M1 : gmap Z Z := list_to_map DECOMPOSE_1.
Definition M2 : gmap Z (Z * Z) := list_to_map DECOMPOSE_2.

Lemma get_M1 c : table_get DECOMPOSE_1 c = M1 !! c.
Proof. apply table_get_map, d1_sorted. Qed.
Lemma get_M2 c : table_get DECOMPOSE_2 c = M2 !! c.
Proof. apply table_get_map, d2_sorted. Qed.

Lemma ccc_values : Forall (λ e, 0 < e.2 < 256) CCC.
Proof.
  assert (forallb (λ e, (0 <? e.2) && (e.2 <? 256)) CCC = true) as H by by vm_compute.
  apply forallb_Forall in H. eapply Forall_impl; [exact H|]. cbn.
  intros e. rewrite andb_true_iff, !Z.ltb_lt. lia.
Qed.

(** Every composition undoes the decomposition of its result. *)
Definition compose_entry_ok (m1 : gmap Z Z) (m2 : gmap Z (Z * Z)) (e : Z * Z) : bool :=
  let a := Z.shiftr e.1 21 in
  let b := Z.land e.1 (Z.ones 21) in
  match decompose_map m1 m2 6 e.2, decompose_map m1 m2 6 a, decompose_map m1 m2 6 b with
  | Some dc, Some da, Some db => bool_decide (dc = da ++ db) && (0x300 <=? b)
  | _, _, _ => false
  end.

Lemma compose_checks : forallb (compose_entry_ok M1 M2) COMPOSE = true.
Proof. vm_compute. reflexivity. Qed.

Lemma latin_checks :
  forallb (λ c, bool_decide (ccc c = 0) && atomicb M1 M2 c) (seqZ 0 0xC0) = true.
Proof. vm_compute. reflexivity. Qed.

Lemma letters_marks : disjoint_ranges 1000 LETTER_RANGES MARK_RANGES = true.
Proof. vm_compute. reflexivity. Qed.
Lemma letters_numbers : disjoint_ranges 1000 LETTER_RANGES NUMBER_RANGES = true.
Proof. vm_compute. reflexivity. Qed.
Lemma marks_numbers : disjoint_ranges 1000 MARK_RANGES NUMBER_RANGES = true.
Proof. vm_compute. reflexivity. Qed.

Lemma jamo_ccc_checks :
  forallb (λ c, bool_decide (ccc c = 0)) (seqZ L_BASE 19 ++ seqZ V_BASE 21 ++ seqZ T_BASE 28) = true.
Proof. vm_compute. reflexivity. Qed.

Lemma table_checks_M :
  forallb (entry_ok M1 M2) DECOMPOSE_1.*1 && forallb (entry_ok M1 M2) DECOMPOSE_2.*1
  && forallb (atomicb M1 M2) (seqZ L_BASE 19 ++ seqZ V_BASE 21 ++ seqZ T_BASE 28) = true.
Proof. exact table_checks. Qed.

#[local] Opaque M1 M2 DECOMPOSE_1 DECOMPOSE_2 CCC COMPOSE table_get.

Lemma atomicb_atomic c : atomicb M1 M2 c = true → atomic c.
Proof.
  unfold atomicb, atomic. rewrite get_M1, get_M2.
  rewrite !andb_true_iff, negb_true_iff, bool_decide_eq_false, !bool_decide_eq_true. tauto.
Qed.

Lemma decompose_map_fuel fuel : ∀ c d,
  decompose_map M1 M2 fuel c = Some d → decompose_fuel fuel c = Some d.
Proof.
  induction fuel as [|fuel IH]; intros c d; cbn [decompose_map decompose_fuel]; [done|].
  rewrite get_M1, get_M2. unfold hangul. case_bool_decide; [done|].
  rewrite decide_False by done. destruct (M1 !! c) as [to|].
  - destruct (from_u32 to); cbn; [apply IH|done].
  - destruct (M2 !! c) as [[a b]|]; [|done].
    destruct (from_u32 a) as [a'|]; cbn; [|done].
    destruct (decompose_map M1 M2 fuel a') as [da|] eqn:Ea; cbn; [|done].
    destruct (from_u32 b) as [b'|]; cbn; [|done].
    destruct (decompose_map M1 M2 fuel b') as [db|] eqn:Eb; cbn; [|done].
    by rewrite (IH _ _ Ea), (IH _ _ Eb).
Qed.

(** What [decompose_one] gives for any character. *)
Definition decomposed (c : Z) (d : list Z) : Prop :=
  decompose_one c = Some d ∧ d ≠ [] ∧ Forall scalar d ∧ Forall atomic d.

Lemma entry_ok_decomposed c : entry_ok M1 M2 c = true → ∃ d, decomposed c d.
Proof.
  unfold entry_ok. destruct (decompose_map M1 M2 6 c) as [[|x d]|] eqn:E; [done| |done].
  intros H. exists (x :: d). split; [by apply decompose_map_fuel|]. split; [done|].
  apply forallb_Forall in H. split; eapply Forall_impl; try exact H; cbn;
    intros y [Ha Hs]%andb_true_iff; [by apply bool_decide_eq_true in Hs|by apply atomicb_atomic].
Qed.

Lemma table_entries c : c ∈ DECOMPOSE_1.*1 ∨ c ∈ DECOMPOSE_2.*1 → ∃ d, decomposed c d.
Proof.
  pose proof table_checks_M as H.
  apply andb_true_iff in H as [[H1 H2]%andb_true_iff _].
  intros [Hc|Hc]; apply entry_ok_decomposed.
  - apply forallb_Forall in H1. by eapply Forall_forall in H1.
  - apply forallb_Forall in H2. by eapply Forall_forall in H2.
Qed.

Definition jamo (c : Z) : Prop :=
  L_BASE ≤ c < L_BASE + 19 ∨ V_BASE ≤ c < V_BASE + 21 ∨ T_BASE ≤ c < T_BASE + 28.

Lemma jamo_atomic c : jamo c → atomic c ∧ scalar c.
Proof.
  intros Hj. split; [|unfold jamo, L_BASE, V_BASE, T_BASE, scalar in *; lia].
  pose proof table_checks_M as H.
  apply andb_true_iff in H as [_ H]. apply forallb_Forall in H.
  eapply Forall_forall in H; [by apply atomicb_atomic|].
  rewrite !elem_of_app, !elem_of_seqZ. unfold jamo in Hj. tauto.
Qed.

Lemma jamo_ccc c : jamo c → ccc c = 0.
Proof.
  intros Hj. pose proof jamo_ccc_checks as H. apply forallb_Forall in H.
  rewrite Forall_forall in H. specialize (H c). rewrite bool_decide_eq_true in H. apply H.
  rewrite !elem_of_app, !elem_of_seqZ. unfold jamo in Hj. tauto.
Qed.

Lemma hangul_parts c : hangul c →
  let si := c - S_BASE in
  jamo (L_BASE + si / N_COUNT) ∧ jamo (V_BASE + (si mod N_COUNT) / T_COUNT)
  ∧ jamo (T_BASE + si mod T_COUNT).
Proof.
  unfold hangul, jamo, N_COUNT, V_COUNT, T_COUNT, S_COUNT, N_COUNT, V_COUNT, T_COUNT. cbn zeta.
  set (si := c - S_BASE). intros H. assert (0 ≤ si < 11172) as Hs by lia. clearbody si. clear H.
  split; [left|split; [right; left|right; right]]; zdivmod.
Qed.

Lemma decompose_hangul c : hangul c →
  let si := c - S_BASE in
  decompose_one c = Some ([L_BASE + si / N_COUNT; V_BASE + (si mod N_COUNT) / T_COUNT] ++
                          if decide (si mod T_COUNT ≠ 0) then [T_BASE + si mod T_COUNT] else []).
Proof.
  intros Hh si. destruct (hangul_parts c Hh) as (H1 & H2 & H3).
  unfold decompose_one. cbn [decompose_fuel]. rewrite decide_True by done. fold si.
  rewrite !from_u32_Some by (by apply jamo_atomic). cbn [mbind option_bind].
  by case_decide.
Qed.

Lemma decomposed_any c : scalar c → ∃ d, decomposed c d.
Proof.
  intros Hc. destruct (decide (hangul c)) as [Hh|Hh].
  - eexists. split; [by apply decompose_hangul|]. destruct (hangul_parts c Hh) as (H1 & H2 & H3).
    split; [done|].
    assert (∀ P : Z → Prop, (∀ x, jamo x → P x) → Forall P ([L_BASE + (c - S_BASE) / N_COUNT;
      V_BASE + ((c - S_BASE) mod N_COUNT) / T_COUNT] ++
      if decide ((c - S_BASE) mod T_COUNT ≠ 0) then [T_BASE + (c - S_BASE) mod T_COUNT] else [])) as HP.
    { intros P H. apply Forall_app_2; [|case_decide]; repeat (apply Forall_cons; split; [by apply H|]);
        constructor. }
    split; apply HP; intros; by apply jamo_atomic.
  - destruct (table_get DECOMPOSE_1 c) as [to|] eqn:E1.
    { apply table_entries. left. apply table_get_spec in E1; [|apply d1_sorted].
      apply list_elem_of_fmap. exists (c, to). exact (conj eq_refl E1). }
    destruct (table_get DECOMPOSE_2 c) as [ab|] eqn:E2.
    { apply table_entries. right. apply table_get_spec in E2; [|apply d2_sorted].
      apply list_elem_of_fmap. exists (c, ab). exact (conj eq_refl E2). }
    assert (atomic c) as Ha by exact (conj Hh (conj E1 E2)).
    exists [c]. split; [exact (atomic_decompose 5 c Ha)|]. split; [discriminate|].
    split; apply Forall_singleton; assumption.
Qed.

(** The total decomposition. *)
Definition D (c : Z) : list Z := default [c] (decompose_one c).

Lemma D_spec c : scalar c → decomposed c (D c).
Proof. intros (d & Hd)%decomposed_any. unfold D. destruct Hd as [E ?]. by rewrite E. Qed.

Lemma D_atomic c : atomic c → D c = [c].
Proof. intros H. unfold D, decompose_one. by rewrite atomic_decompose. Qed.

#[local] Arguments D : simpl never.
#[local] Arguments decompose_fuel : simpl never.
#[local] Arguments decompose_map : simpl never.

Definition Ds (s : list Z) : list Z := s ≫= D.

Lemma Ds_cons c s : Ds (c :: s) = D c ++ Ds s.
Proof. reflexivity. Qed.

Lemma decompose_all_Ds s : Forall scalar s → decompose_all s = Some (Ds s).
Proof.
  induction 1 as [|c s Hc _ IH]; [done|]. cbn [decompose_all].
  destruct (D_spec c Hc) as [-> _]. cbn. by rewrite IH.
Qed.

Lemma Ds_app s t : Ds (s ++ t) = Ds s ++ Ds t.
Proof. apply bind_app. Qed.

Lemma Ds_atomic s : Forall atomic s → Ds s = s.
Proof. induction 1 as [|c s Hc _ IH]; [done|].
  rewrite Ds_cons, (D_atomic c Hc). cbn [app]. f_equal. exact IH.
Qed.

Lemma Ds_scalar s : Forall scalar s → Forall scalar (Ds s) ∧ Forall atomic (Ds s).
Proof.
  induction 1 as [|c s Hc _ [IH1 IH2]]; [split; constructor|].
  destruct (D_spec c Hc) as (_ & _ & H1 & H2). rewrite Ds_cons. split; by apply Forall_app_2.
Qed.

Lemma ccc_bound c : 0 ≤ ccc c < 256.
Proof.
  unfold ccc. destruct (table_get CCC c) as [v|] eqn:E; [|cbn; lia].
  apply table_get_spec in E; [|exact ccc_sorted].
  pose proof ccc_values as H. rewrite Forall_forall in H. specialize (H _ E). cbn in H |- *. lia.
Qed.

Lemma ccc_nonneg c : 0 ≤ ccc c.
Proof. apply ccc_bound. Qed.

#[local] Opaque ccc.

(** ** Canonical equivalence *)

(** Exchange of two neighbouring marks of different non-zero classes. *)
Inductive exchange : list Z → list Z → Prop :=
| exchange_intro p a b q : ccc a ≠ 0 → ccc b ≠ 0 → ccc a ≠ ccc b →
    exchange (p ++ a :: b :: q) (p ++ b :: a :: q).

(** Reorderings of decomposed text that Unicode calls canonically equivalent. *)
Definition equiv : list Z → list Z → Prop := rtsc exchange.

#[export] Instance equiv_equivalence : Equivalence equiv.
Proof. apply rtsc_equivalence. Qed.

Lemma exchange_app p l l' q : exchange l l' → exchange (p ++ l ++ q) (p ++ l' ++ q).
Proof.
  intros [p' a b q' Ha Hb Hab]. rewrite <- !app_assoc, !(app_assoc p p'). cbn [app].
  by constructor.
Qed.

Lemma equiv_app p l l' q : equiv l l' → equiv (p ++ l ++ q) (p ++ l' ++ q).
Proof.
  apply (rtc_congruence (λ l, p ++ l ++ q)). intros x y [H|H]; [left|right]; by apply exchange_app.
Qed.

Lemma exchange_equiv l l' : exchange l l' → equiv l l'.
Proof. apply rtsc_lr. Qed.

Lemma equiv_Permutation l l' : equiv l l' → l ≡ₚ l'.
Proof.
  induction 1 as [|x y z [[p a b q _ _ _]|[p a b q _ _ _]] _ IH]; [done|..].
  all: rewrite <- IH; apply Permutation_app_head, Permutation_swap.
Qed.

#[export] Instance app_equiv : Proper (equiv ==> equiv ==> equiv) (@app Z).
Proof.
  intros l l' Hl k k' Hk. trans (l' ++ k).
  - exact (equiv_app [] l l' k Hl).
  - pose proof (equiv_app l' k k' [] Hk) as H. by rewrite !app_nil_r in H.
Qed.

(** A mark passes over marks of other classes. *)
Lemma equiv_pass c l : ccc c ≠ 0 → Forall (λ x, ccc x ≠ 0 ∧ ccc x ≠ ccc c) l →
  equiv (l ++ [c]) (c :: l).
Proof.
  intros Hc Hl. induction Hl as [|x l [Hx Hxc] _ IH]; cbn [app]; [reflexivity|].
  trans (x :: c :: l); [exact (app_equiv [x] [x] (reflexivity _) _ _ IH)|].
  apply exchange_equiv. by apply (exchange_intro []).
Qed.

(** Neighbours in canonical order. *)
Definition ordered (x y : Z) : Prop := ccc y = 0 ∨ ccc x ≤ ccc y.

(** The same on a reversed list: [y] is the element before [x]. *)
Lemma sink_spec c before : ccc c ≠ 0 → Sorted (flip ordered) before →
  Sorted (flip ordered) (sink c (ccc c) before)
  ∧ equiv (reverse (sink c (ccc c) before)) (reverse before ++ [c])
  ∧ (∀ x, head (sink c (ccc c) before) = Some x → x = c ∨ head before = Some x ∧ ccc c < ccc x).
Proof.
  intros Hc. induction before as [|p before IH]; intros Hs; cbn [sink].
  { split; [repeat constructor|]. split; [reflexivity|]. cbn. intros x [= <-]. by left. }
  apply Sorted_inv in Hs as [Hs Hh]. case_decide as Hd.
  - split; [|split].
    + constructor; [by constructor|]. constructor. unfold flip, ordered.
      destruct Hd; [right|by right]. pose proof (ccc_nonneg c). lia.
    + rewrite (reverse_cons _ c). reflexivity.
    + cbn. intros x [= <-]. by left.
  - destruct (IH Hs) as (I1 & I2 & I3). split; [|split].
    + constructor; [done|]. destruct (sink c (ccc c) before) as [|x l] eqn:E; [constructor|].
      constructor. unfold flip, ordered. destruct (I3 x eq_refl) as [->|[Hx Hlt]]; [right; lia|].
      destruct before as [|b before]; [done|]. injection Hx as ->. by inversion Hh.
    + rewrite !reverse_cons, I2, <- !app_assoc. apply app_equiv; [reflexivity|].
      symmetry. cbn [app]. apply exchange_equiv. apply (exchange_intro [] p c []); [lia..|]. intros E. lia.
    + cbn. intros x [= <-]. right. split; [done|]. lia.
Qed.

Lemma order_step_spec before c : Sorted (flip ordered) before →
  Sorted (flip ordered) (order_step before c)
  ∧ equiv (reverse (order_step before c)) (reverse before ++ [c]).
Proof.
  intros Hs. unfold order_step. case_decide as Hc.
  - split; [|rewrite reverse_cons; reflexivity]. constructor; [done|].
    destruct before; constructor. by left.
  - destruct (sink_spec c before Hc Hs) as (H1 & H2 & _). done.
Qed.

Lemma order_fold d : ∀ before, Sorted (flip ordered) before →
  Sorted (flip ordered) (foldl order_step before d)
  ∧ equiv (reverse (foldl order_step before d)) (reverse before ++ d).
Proof.
  induction d as [|c d IH]; intros before Hs; cbn [foldl].
  - split; [done|]. rewrite app_nil_r. reflexivity.
  - destruct (order_step_spec before c Hs) as [H1 H2]. destruct (IH _ H1) as [H3 H4].
    split; [done|]. rewrite H4, H2, <- app_assoc. reflexivity.
Qed.

(** Sorted on the reversed list, read forwards. *)
Lemma Sorted_app_mid {A} (R : A → A → Prop) l x y : Sorted R (l ++ [x]) → R x y → Sorted R (l ++ [x; y]).
Proof.
  induction l as [|z l IH]; cbn [app]; intros Hs Hxy.
  - constructor; [constructor; [constructor|constructor]|by constructor].
  - apply Sorted_inv in Hs as [Hs Hh]. constructor; [by apply IH|].
    destruct l; cbn [app] in *; inversion Hh; by constructor.
Qed.

Lemma Sorted_flip_reverse {A} (R : A → A → Prop) l : Sorted (flip R) l → Sorted R (reverse l).
Proof.
  induction l as [|x l IH]; intros Hs; [constructor|].
  apply Sorted_inv in Hs as [Hs Hh]. rewrite reverse_cons.
  destruct l as [|y l]; [repeat constructor|]. rewrite reverse_cons in *. rewrite <- app_assoc.
  apply Sorted_app_mid; [by apply IH|]. by inversion Hh.
Qed.

Lemma canonical_order_spec d :
  Sorted ordered (canonical_order d) ∧ equiv (canonical_order d) d.
Proof.
  unfold canonical_order. destruct (order_fold d []) as [H1 H2]; [constructor|].
  split; [by apply Sorted_flip_reverse|exact H2].
Qed.

(** *** One order per class of equivalent texts *)

(** The starters and the marks of one class, which no exchange moves past one
    another. *)
Definition class_part (k : Z) (l : list Z) : list Z := filter (λ x, ccc x = 0 ∨ ccc x = k) l.

Lemma equiv_class_part k l l' : equiv l l' → class_part k l = class_part k l'.
Proof.
  assert (∀ l l', exchange l l' → class_part k l = class_part k l') as He.
  { intros x y [p a b q Ha Hb Hab]. unfold class_part. rewrite !filter_app, !filter_cons.
    f_equal. do 2 case_decide; by intuition congruence. }
  induction 1 as [|x y z [H|H] _ IH]; [done| |]; rewrite <- IH; [|symmetry]; by apply He.
Qed.

Lemma first_class_le k l : ∀ y x, Sorted ordered (y :: l) → head (class_part k (y :: l)) = Some x →
  ccc x ≠ 0 → ccc y ≤ ccc x.
Proof.
  induction l as [|z l IH]; intros y x Hs Hh Hx; unfold class_part in *; rewrite filter_cons in Hh;
    case_decide; try (injection Hh as ->; lia); [done|].
  apply Sorted_inv in Hs as [Hs Hyz]. specialize (IH z x Hs Hh Hx).
  apply HdRel_inv in Hyz as [Hz|]; [|lia].
  rewrite filter_cons, decide_True in Hh by by left. by injection Hh as ->.
Qed.

Lemma sorted_head_eq l l' x y : Sorted ordered (x :: l) → Sorted ordered (y :: l') →
  (∀ k, class_part k (x :: l) = class_part k (y :: l')) → x = y.
Proof.
  intros Hs Hs' Hp.
  assert (∀ k, ccc x = 0 ∨ ccc x = k → ccc y = 0 ∨ ccc y = k → x = y) as Hboth.
  { intros k Hx Hy. specialize (Hp k). unfold class_part in Hp. rewrite !filter_cons, !decide_True in Hp by done.
    by injection Hp. }
  destruct (decide (ccc x = 0)); [apply (Hboth (ccc y)); tauto|].
  destruct (decide (ccc y = 0)); [apply (Hboth (ccc x)); tauto|].
  assert (ccc y ≤ ccc x) as H1.
  { apply (first_class_le (ccc x) l' y x Hs'); [|done]. rewrite <- Hp. unfold class_part.
    by rewrite filter_cons, decide_True by by right. }
  assert (ccc x ≤ ccc y) as H2.
  { apply (first_class_le (ccc y) l x y Hs); [|done]. rewrite Hp. unfold class_part.
    by rewrite filter_cons, decide_True by by right. }
  apply (Hboth (ccc x)); right; lia.
Qed.

Lemma sorted_class_parts l : ∀ l', Sorted ordered l → Sorted ordered l' →
  (∀ k, class_part k l = class_part k l') → l = l'.
Proof.
  assert (∀ y l', ¬ ∀ k, [] = class_part k (y :: l')) as Hnil.
  { intros y l' H. specialize (H (ccc y)). unfold class_part in H.
    by rewrite filter_cons, decide_True in H by by right. }
  induction l as [|x l IH]; intros [|y l'] Hs Hs' Hp; [done|by destruct (Hnil y l')|..].
  { destruct (Hnil x l). intros k. by rewrite Hp. }
  assert (x = y) as <- by by eapply sorted_head_eq. f_equal.
  apply Sorted_inv in Hs as [Hs _]. apply Sorted_inv in Hs' as [Hs' _]. apply IH; [done..|].
  intros k. specialize (Hp k). unfold class_part in *. rewrite !filter_cons in Hp.
  case_decide; [by injection Hp|done].
Qed.

Lemma canonical_order_unique d d' : equiv d d' → canonical_order d = canonical_order d'.
Proof.
  intros He. destruct (canonical_order_spec d) as [Hs H]. destruct (canonical_order_spec d') as [Hs' H'].
  apply sorted_class_parts; [done..|]. intros k. apply equiv_class_part. by rewrite H, He, H'.
Qed.

(** *** Composition *)

Lemma from_u32_inv v c : from_u32 v = Some c → c = v ∧ scalar c.
Proof. unfold from_u32. case_decide; [|done]. by intros [= <-]. Qed.

Lemma decompose_map_D c d : decompose_map M1 M2 6 c = Some d → D c = d.
Proof. intros H%decompose_map_fuel. unfold D, decompose_one. by rewrite H. Qed.

Lemma key_parts a b : 0 ≤ a → 0 ≤ b < 2 ^ 21 →
  Z.shiftr (Z.lor (Z.shiftl a 21) b) 21 = a ∧ Z.land (Z.lor (Z.shiftl a 21) b) (Z.ones 21) = b.
Proof.
  intros Ha Hb. split.
  - rewrite Z.shiftr_lor, Z.shiftr_shiftl_l by lia. rewrite Z.sub_diag, Z.shiftl_0_r.
    rewrite (Z.shiftr_div_pow2 b) by lia. rewrite Z.div_small by done. apply Z.lor_0_r.
  - rewrite Z.land_lor_distr_l, (Z.land_ones b), (Z.mod_small b) by lia.
    rewrite Z.land_ones, Z.shiftl_mul_pow2, Z.mod_mul by lia. apply Z.lor_0_l.
Qed.

Lemma compose_table a b c : scalar a → scalar b →
  (k ← table_get COMPOSE (Z.lor (Z.shiftl a 21) b); from_u32 k) = Some c →
  scalar c ∧ D c = D a ++ D b ∧ 0x300 ≤ b.
Proof.
  intros Ha Hb. destruct (table_get COMPOSE _) as [k|] eqn:E; [|done]. cbn [mbind option_bind].
  intros [-> Hc]%from_u32_inv. split; [done|].
  apply table_get_spec in E; [|exact compose_sorted].
  pose proof compose_checks as H. apply forallb_Forall in H. rewrite Forall_forall in H.
  specialize (H _ E). unfold compose_entry_ok in H. cbn [fst snd] in H.
  unfold scalar in Ha, Hb. destruct (key_parts a b) as [Ea Eb]; [lia|lia|]. rewrite Ea, Eb in H.
  destruct (decompose_map M1 M2 6 k) as [dc|] eqn:Ec; [|done].
  destruct (decompose_map M1 M2 6 a) as [da|] eqn:Eda; [|done].
  destruct (decompose_map M1 M2 6 b) as [db|] eqn:Edb; [|done].
  apply andb_true_iff in H as [H1%bool_decide_eq_true H2%Z.leb_le].
  by rewrite (decompose_map_D _ _ Ec), (decompose_map_D _ _ Eda), (decompose_map_D _ _ Edb).
Qed.

Lemma D_hangul c : hangul c → D c =
  [L_BASE + (c - S_BASE) / N_COUNT; V_BASE + ((c - S_BASE) mod N_COUNT) / T_COUNT] ++
  if decide ((c - S_BASE) mod T_COUNT ≠ 0) then [T_BASE + (c - S_BASE) mod T_COUNT] else [].
Proof. intros H. unfold D. by rewrite (decompose_hangul c H). Qed.

Ltac hangul_consts :=
  unfold hangul, jamo, S_COUNT, N_COUNT, V_COUNT, T_COUNT, S_BASE, L_BASE, V_BASE, T_BASE in *.

(** The syllable [LV]. *)
Lemma hangul_LV l v : 0 ≤ l < 19 → 0 ≤ v < 21 →
  let s := S_BASE + (l * V_COUNT + v) * T_COUNT in
  hangul s ∧ scalar s ∧ D s = [L_BASE + l; V_BASE + v] ∧ (s - S_BASE) mod T_COUNT = 0.
Proof.
  intros Hl Hv s. assert (hangul s) as Hs by (subst s; hangul_consts; lia).
  assert ((s - S_BASE) mod T_COUNT = 0) as Hm by (subst s; hangul_consts; zdivmod).
  split; [done|]. split; [subst s; unfold scalar; hangul_consts; lia|]. split; [|done].
  rewrite D_hangul by done. rewrite decide_False by (intros H; by apply H). cbn [app].
  repeat f_equal; subst s; hangul_consts; zdivmod.
Qed.

(** Adding a trailing consonant. *)
Lemma hangul_LVT s t : hangul s → (s - S_BASE) mod T_COUNT = 0 → 0 < t < 28 →
  hangul (s + t) ∧ scalar (s + t) ∧ D (s + t) = D s ++ [T_BASE + t].
Proof.
  intros Hs Hm Ht. assert (hangul (s + t)) as Hst by (hangul_consts; zdivmod).
  split; [done|]. split; [unfold scalar; hangul_consts; lia|].
  assert ((s + t - S_BASE) mod T_COUNT = t) as Hmt by (hangul_consts; zdivmod).
  rewrite !D_hangul, Hm, Hmt by done.
  rewrite (decide_True (P := t ≠ 0)) by lia.
  rewrite (decide_False (P := 0 ≠ 0)) by (intros Hx; by apply Hx). cbn [app].
  clear Hst Hmt. hangul_consts.
  assert (s - 44032 = 28 * ((s - 44032) / 28)) as Hq by zdivmod.
  set (q := (s - 44032) / 28) in *. replace (s + t - 44032) with (28 * q + t) by lia. rewrite Hq.
  assert (∀ u, 0 ≤ u < 28 → (28 * q + u) / (21 * 28) = q / 21) as Hd.
  { intros u Hu. pose proof (Z.div_mod q 21 ltac:(lia)). pose proof (Z.mod_pos_bound q 21 ltac:(lia)).
    symmetry. apply (Z.div_unique _ _ _ (28 * (q mod 21) + u)); lia. }
  assert (∀ u, 0 ≤ u < 28 → (28 * q + u) mod (21 * 28) / 28 = q mod 21) as Hr.
  { intros u Hu. pose proof (Z.div_mod q 21 ltac:(lia)). pose proof (Z.mod_pos_bound q 21 ltac:(lia)).
    symmetry. rewrite <- (Z.mod_unique (28 * q + u) (21 * 28) (q / 21) (28 * (q mod 21) + u)) by lia.
    apply (Z.div_unique _ _ _ u); lia. }
  rewrite <- (Z.add_0_r (28 * q)) at 3 4. by rewrite !Hd, !Hr by lia.
Qed.

Lemma compose_sound a b c : scalar a → scalar b → compose a b = Some c →
  scalar c ∧ D c = D a ++ D b ∧ 0x300 ≤ b.
Proof.
  intros Ha Hb. unfold compose. case_decide as H1; [|case_decide as H2].
  - cbn zeta. destruct (hangul_LV (a - L_BASE) (b - V_BASE)) as (_ & Hs & HD & _); [unfold V_COUNT in *; lia..|].
    intros [-> _]%from_u32_inv. split; [done|]. rewrite HD.
    rewrite !D_atomic by (apply jamo_atomic; unfold jamo, V_COUNT in *; lia).
    split; [cbn [app]; repeat f_equal; lia|unfold V_BASE in *; lia].
  - destruct H2 as (Hs & Hm & Ht).
    destruct (hangul_LVT a (b - T_BASE)) as (_ & Hsc & HD); [done|done|unfold T_COUNT in *; lia|].
    intros [-> _]%from_u32_inv. split; [done|]. rewrite HD.
    rewrite (D_atomic b) by (apply jamo_atomic; unfold jamo, T_COUNT in *; lia).
    split; [repeat f_equal; lia|unfold T_BASE in *; lia].
  - by apply compose_table.
Qed.

(** The composer between two characters; [p] is the last one it took. *)
Record composer_inv (s : Composer) (p : Z) : Prop := {
  ci_starter : scalar (starter_ch s);
  ci_before : Forall scalar (before_starter s);
  ci_after : Forall (λ x, (0 < ccc x ≤ last_class s) ∧ scalar x ∧ atomic x) (after_starter s);
  ci_last : 0 ≤ last_class s;
  ci_none : last_class s = 0 → after_starter s = [];
  ci_order : last_class s = 256 ∧ after_starter s = [] ∨ last_class s ≤ ccc p;
}.

Lemma composer_output_Ds s :
  Ds (composer_output s)
  = Ds (reverse (before_starter s)) ++ D (starter_ch s) ++ Ds (reverse (after_starter s)).
Proof.
  unfold composer_output. rewrite reverse_app, reverse_cons, !Ds_app, Ds_cons, <- app_assoc.
  cbn [Ds mbind list_bind]. by rewrite app_nil_r.
Qed.

(** The character is kept apart. *)
Lemma composer_push_inv s p ch : composer_inv s p → scalar ch → atomic ch → ordered p ch →
  let r := if decide (ccc ch = 0)
    then mkComposer (after_starter s ++ starter_ch s :: before_starter s) ch [] (ccc ch)
    else mkComposer (before_starter s) (starter_ch s) (ch :: after_starter s) (ccc ch) in
  composer_inv r ch ∧ Ds (composer_output r) = Ds (composer_output s) ++ [ch].
Proof.
  intros [Hst Hbf Haf Hl Hnone Hord] Hch Hat Ho r. pose proof (ccc_bound ch) as Hcb.
  assert (Forall scalar (after_starter s)) as Hsa.
  { eapply Forall_impl; [exact Haf|]. tauto. }
  rewrite composer_output_Ds. subst r. case_decide as H0.
  - split.
    + split; cbn [starter_ch before_starter after_starter last_class]; try assumption; try lia; try (by intros).
      apply Forall_app_2; [done|]. by constructor.
    + rewrite composer_output_Ds. cbn [starter_ch before_starter after_starter].
      rewrite reverse_app, reverse_cons, !Ds_app, Ds_cons, (D_atomic ch Hat).
      cbn [Ds mbind list_bind]. rewrite !app_nil_r, <- !app_assoc. done.
  - assert (Forall (λ x, (0 < ccc x ≤ ccc ch) ∧ scalar x ∧ atomic x) (after_starter s)) as Haf'.
    { destruct Hord as [[_ ->]|Hle]; [constructor|]. destruct Ho as [|Ho]; [lia|].
      eapply Forall_impl; [exact Haf|]. cbn. intros x ((?&?)&?). split; [lia|done]. }
    split.
    + split; cbn [starter_ch before_starter after_starter last_class]; try assumption; try lia; try (by intros).
      constructor; [split; [lia|done]|done].
    + rewrite composer_output_Ds. cbn [starter_ch before_starter after_starter].
      rewrite reverse_cons, Ds_app, Ds_cons, (D_atomic ch Hat).
      cbn [Ds mbind list_bind]. by rewrite app_nil_r, <- !app_assoc.
Qed.

Lemma compose_step_inv s p ch : composer_inv s p → scalar ch → atomic ch → ordered p ch →
  composer_inv (compose_step s ch) ch
  ∧ equiv (Ds (composer_output (compose_step s ch))) (Ds (composer_output s) ++ [ch]).
Proof.
  intros Hi Hch Hat Ho. pose proof (composer_push_inv s p ch Hi Hch Hat Ho) as [Hp1 Hp2].
  unfold compose_step. cbn zeta. case_bool_decide as Hblk.
  { split; [exact Hp1|]. rewrite Hp2. reflexivity. }
  destruct (compose (starter_ch s) ch) as [comp|] eqn:Ec.
  2: { split; [exact Hp1|]. rewrite Hp2. reflexivity. }
  clear Hp1 Hp2. destruct Hi as [Hst Hbf Haf Hl Hnone Hord]. pose proof (ccc_bound ch) as Hcb.
  apply compose_sound in Ec as (Hc & HD & _); [|done..].
  assert (last_class s < ccc ch ∨ last_class s = 0) as Hok.
  { exact Hblk. }
  split; [split; cbn [starter_ch before_starter after_starter last_class]; try assumption; try lia; try (by intros)|].
  rewrite !composer_output_Ds. cbn [before_starter starter_ch after_starter].
  rewrite HD, (D_atomic ch Hat), <- !app_assoc.
  do 2 (apply app_equiv; [reflexivity|]). symmetry.
  assert (Forall atomic (reverse (after_starter s))) as Hra.
  { apply Forall_reverse. eapply Forall_impl; [exact Haf|]. tauto. }
  rewrite (Ds_atomic _ Hra). destruct Hok as [Hlt|H0].
  - apply equiv_pass; [lia|]. apply Forall_reverse. eapply Forall_impl; [exact Haf|].
    cbn. intros x ((?&?)&_). lia.
  - rewrite (Hnone H0). reflexivity.
Qed.

Lemma composer_fold d : ∀ s p, composer_inv s p → Forall scalar d → Forall atomic d →
  Sorted ordered (p :: d) →
  (∃ q, composer_inv (foldl compose_step s d) q)
  ∧ equiv (Ds (composer_output (foldl compose_step s d))) (Ds (composer_output s) ++ d).
Proof.
  induction d as [|ch d IH]; intros s p Hi Hs Ha Ho; cbn [foldl].
  { split; [by exists p|]. rewrite app_nil_r. reflexivity. }
  apply Forall_cons in Hs as [Hch Hs]. apply Forall_cons in Ha as [Hat Ha].
  apply Sorted_inv in Ho as [Ho Hpc]. inversion Hpc as [|? ? Hord]; subst.
  destruct (compose_step_inv s p ch Hi Hch Hat Hord) as [Hi' He].
  destruct (IH _ ch Hi' Hs Ha Ho) as [Hq He']. split; [done|].
  rewrite He', He, <- app_assoc. reflexivity.
Qed.

Lemma canonical_compose_spec d : Forall scalar d → Forall atomic d → Sorted ordered d →
  Forall scalar (canonical_compose d) ∧ equiv (Ds (canonical_compose d)) d.
Proof.
  intros Hs Ha Ho. destruct d as [|c d]; [split; [constructor|reflexivity]|].
  apply Forall_cons in Hs as [Hc Hs]. apply Forall_cons in Ha as [Hat Ha].
  cbn [canonical_compose]. set (s0 := mkComposer _ _ _ _).
  assert (composer_inv s0 c) as Hi.
  { pose proof (ccc_bound c). subst s0. case_decide; split; cbn [starter_ch before_starter after_starter last_class];
      try apply Forall_nil; try assumption; try lia; auto. }
  destruct (composer_fold d s0 c Hi Hs Ha Ho) as [[q Hq] He]. split.
  - unfold composer_output. apply Forall_reverse, Forall_app_2; [|constructor].
    + eapply Forall_impl; [exact (ci_after _ _ Hq)|]. cbn. tauto.
    + apply (ci_starter _ _ Hq).
    + apply (ci_before _ _ Hq).
  - rewrite He, composer_output_Ds. subst s0. cbn [before_starter starter_ch after_starter].
    rewrite (D_atomic c Hat). reflexivity.
Qed.

(** *** Text NFC leaves alone *)

(** A starter that neither decomposes nor composes with what precedes it. *)
Definition inert (c : Z) : Prop :=
  scalar c ∧ atomic c ∧ ccc c = 0 ∧ ∀ a, scalar a → compose a c = None.

Lemma latin_inert c : 0 ≤ c < 0xC0 → inert c.
Proof.
  intros Hc. pose proof latin_checks as H. apply forallb_Forall in H. rewrite Forall_forall in H.
  specialize (H c). rewrite elem_of_seqZ, andb_true_iff, bool_decide_eq_true in H.
  destruct (H ltac:(lia)) as [H0 Ha%atomicb_atomic].
  assert (scalar c) as Hs by (left; lia). split; [done|]. split; [done|]. split; [done|].
  intros a Has. destruct (compose a c) as [k|] eqn:E; [|done].
  apply compose_sound in E as (_ & _ & Hb); [lia|done..].
Qed.

Lemma order_inert d : ∀ before, Forall (λ c, ccc c = 0) d →
  foldl order_step before d = reverse d ++ before.
Proof.
  induction d as [|c d IH]; intros before Hd; [done|]. apply Forall_cons in Hd as [Hc Hd].
  cbn [foldl]. unfold order_step at 2. rewrite decide_True by done.
  rewrite IH by done. by rewrite reverse_cons, <- app_assoc.
Qed.

Lemma compose_inert d : ∀ s, scalar (starter_ch s) → Forall inert d →
  composer_output (foldl compose_step s d) = composer_output s ++ d.
Proof.
  induction d as [|c d IH]; intros s Hst Hd; [by rewrite app_nil_r|].
  apply Forall_cons in Hd as [(Hsc & Ha & H0 & Hn) Hd]. cbn [foldl].
  assert (compose_step s c = mkComposer (after_starter s ++ starter_ch s :: before_starter s) c [] 0) as ->.
  { unfold compose_step. cbn zeta. rewrite (Hn _ Hst), H0. by case_bool_decide. }
  rewrite IH by done. unfold composer_output. cbn [after_starter starter_ch before_starter app].
  by rewrite reverse_cons, <- app_assoc.
Qed.

Lemma nfc_inert_text s : Forall inert s → nfc s = Some s.
Proof.
  intros Hs. unfold nfc.
  assert (Forall scalar s) as Hsc by (eapply Forall_impl; [exact Hs|]; by intros c []).
  assert (Forall atomic s) as Ha by (eapply Forall_impl; [exact Hs|]; by intros c (_&?&_)).
  assert (Forall (λ c, ccc c = 0) s) as H0 by (eapply Forall_impl; [exact Hs|]; by intros c (_&_&?&_)).
  rewrite (decompose_all_Ds s Hsc), (Ds_atomic s Ha). cbn [mbind option_bind]. f_equal.
  unfold canonical_order. rewrite order_inert, app_nil_r, reverse_involutive by done.
  destruct s as [|c s]; [done|]. cbn [canonical_compose].
  apply Forall_cons in Hs as [_ Hs]. apply Forall_cons in Hsc as [Hc _].
  rewrite compose_inert by done. done.
Qed.

Lemma nfc_latin s : Forall (λ c, 0 ≤ c < 0xC0) s → nfc s = Some s.
Proof. intros H. apply nfc_inert_text. eapply Forall_impl; [exact H|]. apply latin_inert. Qed.

(** Normalising never fails, and gives scalar values. *)
Lemma nfc_total s : Forall scalar s →
  ∃ t, nfc s = Some t ∧ Forall scalar t ∧ equiv (Ds t) (Ds s).
Proof.
  intros Hs. unfold nfc. rewrite (decompose_all_Ds s Hs). cbn [mbind option_bind].
  destruct (Ds_scalar s Hs) as [H1 H2]. destruct (canonical_order_spec (Ds s)) as [Ho He].
  assert (canonical_order (Ds s) ≡ₚ Ds s) as Hp by by apply equiv_Permutation.
  destruct (canonical_compose_spec (canonical_order (Ds s))) as [H3 H4];
    [by rewrite Hp|by rewrite Hp|done|].
  eexists. split; [reflexivity|]. split; [done|]. by rewrite H4, He.
Qed.

(** Texts have the same normal form exactly when they are equivalent. *)
Lemma nfc_Ds s s' : Forall scalar s → Forall scalar s' → nfc s = nfc s' ↔ equiv (Ds s) (Ds s').
Proof.
  intros Hs Hs'. split.
  - intros He. destruct (nfc_total s Hs) as (t & Ht & _ & H). destruct (nfc_total s' Hs') as (t' & Ht' & _ & H').
    assert (t' = t) as -> by congruence. by rewrite <- H, H'.
  - intros He. unfold nfc. rewrite (decompose_all_Ds s Hs), (decompose_all_Ds s' Hs').
    cbn [mbind option_bind]. by rewrite (canonical_order_unique _ _ He).
Qed.

(** Only the empty text is normalised to it. *)
Lemma nfc_nil s : Forall scalar s → nfc s = Some [] → s = [].
Proof.
  intros Hs Hn. destruct (nfc_total s Hs) as (t & Ht & _ & He). assert (t = []) as -> by congruence.
  apply equiv_Permutation, Permutation_nil_l in He. destruct s as [|c s]; [done|].
  apply Forall_cons in Hs as [Hc _]. rewrite Ds_cons in He. destruct (D_spec c Hc) as (_ & Hd & _).
  symmetry in He. by apply app_nil in He as [? _].
Qed.

Lemma nfc_idem s t : Forall scalar s → nfc s = Some t → nfc t = Some t.
Proof.
  intros Hs Ht. destruct (nfc_total s Hs) as (t' & Ht' & Hsc & He).
  assert (t' = t) as -> by congruence. rewrite <- Ht. by apply nfc_Ds.
Qed.

(** ** Properties *)

(** The pre-tokenizer's three classes are exactly the generated general
    categories, and no character belongs to two of them. *)
Theorem categories_exact (c : char) :
  (is_letter c = true ↔ Exists (within c) LETTER_RANGES)
  ∧ (is_mark c = true ↔ Exists (within c) MARK_RANGES)
  ∧ (is_number c = true ↔ Exists (within c) NUMBER_RANGES)
  ∧ (is_letter c = true → is_mark c = false ∧ is_number c = false)
  ∧ (is_mark c = true → is_number c = false).
Proof.
  pose proof (is_letter_spec c) as HL. pose proof (is_mark_spec c) as HM.
  pose proof (is_number_spec c) as HN.
  split; [exact HL|]. split; [exact HM|]. split; [exact HN|].
  split; [intros H; split|intros H]; apply not_true_iff_false; intros H'.
  - exact (disjoint_ranges_spec _ _ _ c letter_sorted mark_sorted letters_marks (proj1 HL H) (proj1 HM H')).
  - exact (disjoint_ranges_spec _ _ _ c letter_sorted number_sorted letters_numbers (proj1 HL H) (proj1 HN H')).
  - exact (disjoint_ranges_spec _ _ _ c mark_sorted number_sorted marks_numbers (proj1 HM H) (proj1 HN H')).
Qed.

(** Canonical decomposition is total and complete: for every character the
    recursion ends without a panic, and no character of the result decomposes
    further. *)
Theorem decompose_one_complete (c : char) : scalar c →
  ∃ d, decompose_one c = Some d ∧ d ≠ [] ∧ Forall scalar d
    ∧ Forall (λ x, decompose_one x = Some [x]) d.
Proof.
  intros (d & Hd & Hne & Hs & Ha)%decomposed_any. exists d.
  split; [exact Hd|]. split; [exact Hne|]. split; [exact Hs|].
  eapply Forall_impl; [exact Ha|]. intros x Hx. exact (atomic_decompose 5 x Hx).
Qed.

(** The reordering step puts every run of marks in non-decreasing class
    order, and only by exchanging neighbouring marks of different classes. *)
Theorem canonical_order_correct (d : list char) :
  Sorted ordered (canonical_order d) ∧ equiv (canonical_order d) d.
Proof. apply canonical_order_spec. Qed.

(** C35. [nfc] is total, and decides canonical equivalence: two texts are normalised
    to the same text precisely when their decompositions differ only by
    reorderings of marks.  The result is one of the equivalent texts, so
    normalising it again changes nothing. *)
Theorem nfc_canonical_form (s s' : rstr) : Forall scalar s → Forall scalar s' →
  ∃ t ds ds' dt, nfc s = Some t ∧ decompose_all s = Some ds ∧ decompose_all s' = Some ds'
    ∧ decompose_all t = Some dt ∧ equiv dt ds ∧ (nfc s' = Some t ↔ equiv ds ds') ∧ nfc t = Some t.
Proof.
  intros Hs Hs'. destruct (nfc_total s Hs) as (t & Ht & Hsc & He).
  exists t, (Ds s), (Ds s'), (Ds t). split; [exact Ht|].
  do 3 (split; [by apply decompose_all_Ds|]). split; [exact He|]. split.
  - rewrite <- Ht, <- nfc_Ds by done. split; by intros ->.
  - exact (nfc_idem s t Hs Ht).
Qed.

(** Text of inert starters (ASCII, Latin-1 punctuation, ideographs, ...) is
    left unchanged by [nfc]. *)
Theorem nfc_inert (s : rstr) : Forall inert s → nfc s = Some s.
Proof. apply nfc_inert_text. Qed.

Lemma compose_step_some s ch comp : last_class s = 0 → compose (starter_ch s) ch = Some comp →
  compose_step s ch = mkComposer (before_starter s) comp (after_starter s) 0.
Proof.
  intros Hl Hc. unfold compose_step. cbn zeta. rewrite Hl, Hc.
  rewrite bool_decide_eq_false_2 by (intros Hx; apply Hx; by right). done.
Qed.

(** Every Hangul syllable survives: it decomposes to its jamo and composes
    back, which the table alone would not do. *)
Theorem nfc_hangul (c : char) : hangul c → nfc [c] = Some [c].
Proof.
  intros Hh. assert (scalar c) as Hc by (unfold scalar; hangul_consts; lia).
  unfold nfc. rewrite (decompose_all_Ds [c]) by by apply Forall_singleton.
  cbn [mbind option_bind Ds list_bind]. rewrite app_nil_r, (D_hangul c Hh). f_equal.
  destruct (hangul_parts c Hh) as (J1 & J2 & J3). cbn zeta in J1, J2, J3.
  set (l := L_BASE + _) in *. set (v := V_BASE + _) in *. set (t := T_BASE + _) in *.
  assert (∀ d, Forall jamo d → canonical_order d = d) as Hord.
  { intros d Hd. unfold canonical_order. rewrite order_inert, app_nil_r, reverse_involutive; [done|].
    eapply Forall_impl; [exact Hd|]. apply jamo_ccc. }
  rewrite Hord.
  2: { apply Forall_app_2; [|case_decide]; repeat (apply Forall_cons; split; [done|]); constructor. }
  cbn [app canonical_compose foldl].
  rewrite (decide_False (P := ccc l ≠ 0)) by (rewrite (jamo_ccc l J1); intros Hx; by apply Hx).
  assert (compose l v = Some (c - (c - S_BASE) mod T_COUNT)) as Hlv.
  { unfold compose. rewrite decide_True.
    - cbn zeta. rewrite <- from_u32_Some by (unfold scalar; hangul_consts; zdivmod).
      f_equal. subst l v. hangul_consts. zdivmod.
    - subst l v. hangul_consts. zdivmod. }
  case_decide as Ht; cbn [foldl].
  - rewrite (compose_step_some _ v (c - (c - S_BASE) mod T_COUNT)); [|reflexivity|exact Hlv].
    rewrite (compose_step_some _ t c); [reflexivity|reflexivity|]. cbn [starter_ch].
    unfold compose. rewrite decide_False by (subst t; hangul_consts; zdivmod).
    rewrite decide_True by (subst t; hangul_consts; zdivmod).
    rewrite <- (from_u32_Some c Hc). f_equal. subst t. lia.
  - rewrite (compose_step_some _ v (c - (c - S_BASE) mod T_COUNT)); [|reflexivity|exact Hlv].
    unfold composer_output. cbn. f_equal. lia.
Qed.

(** ** Concrete inputs *)

Lemma decompose_one_complete_witness :
  ∃ d, decompose_one 0x1EC7 = Some d ∧ d ≠ [] ∧ Forall scalar d
    ∧ Forall (λ x, decompose_one x = Some [x]) d.
Proof. apply (decompose_one_complete 0x1EC7). left. lia. Defined.

Lemma nfc_canonical_form_witness :
  ∃ t ds ds' dt, nfc [0x65; 0x301; 0x323] = Some t ∧ decompose_all [0x65; 0x301; 0x323] = Some ds
    ∧ decompose_all [0x1EB9; 0x301] = Some ds' ∧ decompose_all t = Some dt ∧ equiv dt ds
    ∧ (nfc [0x1EB9; 0x301] = Some t ↔ equiv ds ds') ∧ nfc t = Some t.
Proof.
  apply (nfc_canonical_form [0x65; 0x301; 0x323] [0x1EB9; 0x301]);
    apply (bool_decide_unpack _); vm_compute; exact I.
Defined.

Lemma nfc_inert_witness : nfc (lit "hello, world") = Some (lit "hello, world").
Proof.
  apply nfc_inert. eapply Forall_impl; [|exact latin_inert].
  apply (bool_decide_unpack _). vm_compute. exact I.
Defined.

Lemma nfc_hangul_witness : nfc [0xD55C] = Some [0xD55C].
Proof. apply nfc_hangul. unfold hangul, S_BASE, S_COUNT, N_COUNT, V_COUNT, T_COUNT. lia. Defined.
