(* ===== verification/Pretokenize.v ===== *)
(** * gdn: the Qwen2 pre-tokenizer

    Models the scanner of qwen35-forward/gdn/src/tokenizer.rs.  The matchers
    look at [c[i..]] only, so they take that suffix and return the number of
    characters matched, [j - i]. *)

From S2P Require Import Prelude Utf8 UnicodeGc.

(** [char::is_whitespace]: Unicode White_Space. *)
Definition is_whitespace (c : char) : bool :=
  in_range 9 13 c || (c =? 0x20) || (c =? 0x85) || (c =? 0xA0) || (c =? 0x1680)
  || in_range 0x2000 0x200A c || (c =? 0x2028) || (c =? 0x2029) || (c =? 0x202F)
  || (c =? 0x205F) || (c =? 0x3000).

Definition CR : char := 13.
Definition LF : char := 10.
Definition is_newline (c : char) : bool := (c =? CR) || (c =? LF).

Definition to_ascii_lowercase (c : char) : char := if in_range 65 90 c then c + 32 else c.

(** Length of the longest prefix whose characters satisfy [p]. *)
Fixpoint run (p : char → bool) (l : list char) : nat :=
  match l with
  | c :: l' => if p c then S (run p l') else O
  | [] => O
  end.

Definition match_contraction (l : list char) : option nat :=
  match l with
  | c :: l1 =>
      if decide (c ≠ 39) then None else
      next ← head l1;
      let next := to_ascii_lowercase next in
      let third := to_ascii_lowercase <$> (l1 !! 1%nat) in
      if decide (next = 115 ∨ next = 116 ∨ next = 109 ∨ next = 100) then Some 2%nat
      else if decide (next = 114) then (if decide (third = Some 101) then Some 3%nat else None)
      else if decide (next = 118) then (if decide (third = Some 101) then Some 3%nat else None)
      else if decide (next = 108) then (if decide (third = Some 108) then Some 3%nat else None)
      else None
  | [] => None
  end.

Definition is_lm (marks_join : bool) (x : char) : bool := is_letter x || (marks_join && is_mark x).

Definition match_letters (marks_join : bool) (l : list char) : option nat :=
  match l with
  | [] => None
  | c0 :: l1 =>
      if negb (c0 =? CR) && negb (c0 =? LF) && negb (is_letter c0) && negb (is_number c0)
         && (match l1 with c1 :: _ => is_lm marks_join c1 | [] => false end)
      then Some (S (run (is_lm marks_join) l1))
      else if is_lm marks_join c0 then Some (run (is_lm marks_join) l)
      else None
  end.

Definition is_sym (marks_join : bool) (x : char) : bool :=
  let is_mark_like := marks_join && is_mark x in
  negb (is_whitespace x) && negb (is_letter x) && negb (is_number x) && negb is_mark_like.

Definition match_symbols (marks_join : bool) (l : list char) : option nat :=
  let start := match l with c :: _ => if c =? 32 then 1%nat else O | [] => O end in
  match l !! start with
  | Some c =>
      if is_sym marks_join c then
        let j := (start + run (is_sym marks_join) (drop start l))%nat in
        Some (j + run is_newline (drop j l))%nat
      else None
  | None => None
  end.

(** [(0..k).rev().find(|&x| c[x] is a newline)] *)
Fixpoint rfind_newline (l : list char) (k : nat) : option nat :=
  match k with
  | O => None
  | S k' =>
      match l !! k' with
      | Some c => if is_newline c then Some k' else rfind_newline l k'
      | None => rfind_newline l k'
      end
  end.

Definition match_ws_then_newline (l : list char) : option nat :=
  match l with
  | c :: _ =>
      if is_whitespace c then
        let k := run is_whitespace l in
        j ← rfind_newline l k;
        Some (j + run is_newline (drop j l))%nat
      else None
  | [] => None
  end.

Definition match_ws_lookahead (l : list char) : option nat :=
  match l with
  | c :: _ =>
      if is_whitespace c then
        let k := run is_whitespace l in
        if decide (k = length l) then Some k
        else if decide (2 ≤ k)%nat then Some (k - 1)%nat else None
      else None
  | [] => None
  end.

Definition match_whitespace (l : list char) : option nat :=
  match l with
  | c :: _ => if is_whitespace c then Some (run is_whitespace l) else None
  | [] => None
  end.

Definition match_alternative (marks_join : bool) (l : list char) : nat :=
  match match_contraction l with Some j => j | None =>
  match match_letters marks_join l with Some j => j | None =>
  if match l with c :: _ => is_number c | [] => false end then 1%nat else
  match match_symbols marks_join l with Some j => j | None =>
  match match_ws_then_newline l with Some j => j | None =>
  match match_ws_lookahead l with Some j => j | None =>
  match match_whitespace l with Some j => j | None => 1%nat
  end end end end end end.

(** The loop of [pretokenize_with], as the pieces of the text.  Every round
    takes at least one character. *)
Fixpoint pieces (fuel : nat) (marks_join : bool) (l : list char) : list (list char) :=
  match fuel with
  | O => []
  | S fuel =>
      match l with
      | [] => []
      | _ =>
          let j := ((match_alternative marks_join l `min` length l) `max` 1)%nat in
          take j l :: pieces fuel marks_join (drop j l)
      end
  end.

(** Byte ranges of consecutive pieces. *)
Fixpoint byte_ranges (start : Z) (ps : list (list char)) : list (Z * Z) :=
  match ps with
  | [] => []
  | p :: ps => let fin := start + len (utf8 p) in (start, fin) :: byte_ranges fin ps
  end.

Definition pretokenize_with (text : rstr) (marks_join : bool) : list (Z * Z) :=
  byte_ranges 0 (pieces (length text) marks_join text).

Definition pretokenize (text : rstr) : list (Z * Z) := pretokenize_with text true.
