(* ===== verification/PretokenizeProps.v ===== *)
(** * The scanner implements its regular expression

    A reference matcher for the pattern in the source's comments: Perl
    semantics, alternatives in order, greedy quantifiers that backtrack,
    negative lookahead.  The hand-written scanner returns its first match. *)

From S2P Require Import Prelude Utf8 UnicodeTables UnicodeGc UnicodeGcProps Pretokenize.

(** ** Reference semantics *)

Inductive regex :=
| Cls (p : char → bool)
| Cat (r s : regex)
| Or (r s : regex)
| Opt (r : regex)
| Star (p : char → bool)
| Plus (p : char → bool)
| NotBefore (p : char → bool).

(** [n, n-1, .., m]: what a greedy run of [n] gives up while backtracking. *)
Fixpoint down (n m : nat) : list nat :=
  if decide (n < m)%nat then [] else n :: match n with O => [] | S n' => down n' m end.

(** All match lengths at the start of [l], in the order backtracking tries them. *)
Fixpoint matches (r : regex) (l : list char) : list nat :=
  match r with
  | Cls p => match l with c :: _ => if p c then [1%nat] else [] | [] => [] end
  | Cat r s => n ← matches r l; Nat.add n <$> matches s (drop n l)
  | Or r s => matches r l ++ matches s l
  | Opt r => matches r l ++ [O]
  | Star p => down (run p l) 0
  | Plus p => down (run p l) 1
  | NotBefore p => match l with c :: _ => if p c then [] else [O] | [] => [O] end
  end.

(** The simple case folding of Unicode, where it reaches ASCII: the capitals,
    and the two characters outside ASCII that CaseFolding.txt folds into it,
    the long s and the Kelvin sign. *)
Definition LONG_S : char := 0x17F.
Definition KELVIN : char := 0x212A.
Definition fold (c : char) : char :=
  if in_range 65 90 c then c + 32 else if c =? LONG_S then 115 else if c =? KELVIN then 107 else c.

(** [(?i:c)] for a small ASCII letter [c]. *)
Definition ci (c : char) : regex := Cls (λ x, fold x =? c).
Definition quote : regex := Cls (λ x, x =? 39).

(** The seven alternatives, in the notation of the source's comment. *)
Definition alt1 : regex :=
  Cat quote (Or (ci 115) (Or (ci 116) (Or (Cat (ci 114) (ci 101)) (Or (Cat (ci 118) (ci 101))
    (Or (ci 109) (Or (Cat (ci 108) (ci 108)) (ci 100))))))).
Definition alt2 (marks : bool) : regex :=
  Cat (Opt (Cls (λ x, negb (is_newline x) && negb (is_letter x) && negb (is_number x))))
      (Plus (is_lm marks)).
Definition alt3 : regex := Cls is_number.
Definition alt4 (marks : bool) : regex :=
  Cat (Opt (Cls (λ x, x =? 32))) (Cat (Plus (is_sym marks)) (Star is_newline)).
Definition alt5 : regex := Cat (Star is_whitespace) (Plus is_newline).
Definition alt6 : regex := Cat (Plus is_whitespace) (NotBefore (λ x, negb (is_whitespace x))).
Definition alt7 : regex := Plus is_whitespace.

Definition PRETOKENIZE (marks : bool) : regex :=
  Or alt1 (Or (alt2 marks) (Or alt3 (Or (alt4 marks) (Or alt5 (Or alt6 alt7))))).

(** ** Lemmas *)

Lemma head_app {A} (l k : list A) : head (l ++ k) = match head l with Some x => Some x | None => head k end.
Proof. by destruct l. Qed.

Lemma head_down n m : head (down n m) = if decide (n < m)%nat then None else Some n.
Proof. destruct n; cbn; by case_decide. Qed.

Lemma down_nil n m : (n < m)%nat → down n m = [].
Proof. intros. destruct n; cbn; by rewrite decide_True. Qed.

Lemma down_S n m : (m ≤ S n)%nat → down (S n) m = S n :: down n m.
Proof. intros. cbn. by rewrite decide_False by lia. Qed.

Lemma run_le p l : (run p l ≤ length l)%nat.
Proof. induction l as [|c l IH]; cbn; [lia|]. destruct (p c); lia. Qed.

Lemma run_0 p l : run p l = O ↔ match l with c :: _ => p c = false | [] => True end.
Proof. destruct l as [|c l]; cbn; [done|]. by destruct (p c). Qed.

(** What follows a maximal run. *)
Lemma run_stop p l c : l !! run p l = Some c → p c = false.
Proof.
  induction l as [|x l IH]; cbn; [done|]. destruct (p x) eqn:E; [apply IH|]. by intros [= <-].
Qed.

Lemma run_inside p l k c : (k < run p l)%nat → l !! k = Some c → p c = true.
Proof.
  revert k; induction l as [|x l IH]; intros k; cbn; [done|]. destruct (p x) eqn:E; [|lia].
  destruct k as [|k]; [by intros _ [= <-]|]. intros. eapply (IH k); [lia|done].
Qed.

Lemma newline_ws c : is_newline c = true → is_whitespace c = true.
Proof. unfold is_newline, CR, LF. rewrite orb_true_iff, !Z.eqb_eq. by intros [-> | ->]. Qed.

(** Folding differs from the scanner's ASCII comparison only on the long s, as
    far as the letters of the contractions go. *)
Lemma fold_ascii x c : c ≠ 115 ∨ x ≠ LONG_S → c ≠ 107 → 65 ≤ c < 128 →
  (fold x =? c) = (to_ascii_lowercase x =? c).
Proof.
  unfold fold, to_ascii_lowercase, LONG_S, KELVIN. intros Hs Hk Hc.
  destruct (in_range 65 90 x); [done|].
  destruct (Z.eqb_spec x 0x17F) as [->|]; [|destruct (Z.eqb_spec x 0x212A) as [->|]; [|done]].
  all: destruct (Z.eqb_spec 0x17F c), (Z.eqb_spec 0x212A c), (Z.eqb_spec 115 c), (Z.eqb_spec 107 c); lia.
Qed.

(** A quote and a long s: a contraction to the pattern, not to the scanner. *)
Definition quote_long_s (l : list char) : bool :=
  match l with q :: s :: _ => (q =? 39) && (s =? LONG_S) | _ => false end.

Lemma alt1_match l :
  head (matches alt1 l) = if quote_long_s l then Some 2%nat else match_contraction l.
Proof.
  destruct l as [|c l]; [done|]. unfold alt1, quote, ci. cbn [matches match_contraction quote_long_s].
  destruct (decide (c ≠ 39)) as [E|E%dec_stable].
  { rewrite (proj2 (Z.eqb_neq c 39) E). by destruct l. }
  subst c. change (39 =? 39) with true. cbn [mbind list_bind drop andb].
  rewrite drop_0, app_nil_r. destruct l as [|x l]; [done|]. cbn [head mbind option_bind].
  destruct (Z.eqb_spec x LONG_S) as [->|Hx]; [by cbn|].
  rewrite !(fold_ascii x) by (by auto || lia). set (y := to_ascii_lowercase x). cbn [lookup list_lookup].
  assert (∀ k, (if y =? k then [1%nat] else []) = if decide (y = k) then [1%nat] else []) as Hk.
  { intros k. destruct (Z.eqb_spec y k); [by rewrite decide_True|by rewrite decide_False]. }
  cbn [drop]. rewrite !Hk. clear Hk.
  destruct l as [|z l]; cbn [lookup list_lookup fmap option_fmap option_map];
    [|set (w := to_ascii_lowercase z)];
    repeat case_decide; subst; try lia; try done; cbn; rewrite ?drop_0; cbn;
    try (rewrite !(fold_ascii z) by (by auto || lia); fold w);
    repeat match goal with
    | |- context [?a =? ?b] => destruct (Z.eqb_spec a b); cbn
    end; try done; try (subst w; congruence).
Qed.

Lemma head_fmap {A B} (f : A → B) l : head (f <$> l) = f <$> head l.
Proof. by destruct l. Qed.

Lemma fmap_add_0 (o : option nat) : Nat.add 0 <$> o = o.
Proof. by destruct o. Qed.

Lemma plus_match p l :
  head (down (run p l) 1) = match l with c :: _ => if p c then Some (run p l) else None | [] => None end.
Proof.
  destruct l as [|c l]; cbn [run]; [by rewrite down_nil by lia|].
  destruct (p c); [by rewrite down_S by lia|by rewrite down_nil by lia].
Qed.

Lemma alt2_match marks l : head (matches (alt2 marks) l) = match_letters marks l.
Proof.
  unfold alt2. cbn [matches]. destruct l as [|c l]; [done|].
  assert (is_newline c = (c =? CR) || (c =? LF)) as -> by done. rewrite negb_orb.
  cbn [match_letters].
  set (pre := negb (c =? CR) && negb (c =? LF) && negb (is_letter c) && negb (is_number c)).
  destruct pre; cbn [app mbind list_bind andb drop]; rewrite ?app_nil_r, ?head_app, !head_fmap,
    ?fmap_add_0, ?drop_0, !plus_match.
  - destruct l as [|c1 l1]; [done|]. by destruct (is_lm marks c1).
  - done.
Qed.

Lemma alt3_match l :
  head (matches alt3 l) = if match l with c :: _ => is_number c | [] => false end then Some 1%nat else None.
Proof. destruct l as [|c l]; [done|]. cbn. by destruct (is_number c). Qed.

Lemma head_bind_first ns (f : nat → list nat) n k :
  head ns = Some n → head (f n) = Some k → head (n ← ns; Nat.add n <$> f n) = Some (n + k)%nat.
Proof.
  destruct ns as [|x ns]; [done|]. intros [= ->] Hk. cbn [mbind list_bind].
  by rewrite head_app, head_fmap, Hk.
Qed.

Lemma symbols_match marks l :
  head (matches (Cat (Plus (is_sym marks)) (Star is_newline)) l) =
  match l with
  | c :: _ => if is_sym marks c then
      Some (run (is_sym marks) l + run is_newline (drop (run (is_sym marks) l) l))%nat else None
  | [] => None
  end.
Proof.
  cbn [matches]. pose proof (plus_match (is_sym marks) l) as Hp. destruct l as [|c l]; [done|].
  destruct (is_sym marks c).
  - apply head_bind_first; [exact Hp|]. by rewrite head_down, decide_False by lia.
  - destruct (down (run (is_sym marks) (c :: l)) 1); [done|discriminate Hp].
Qed.

Lemma alt4_match marks l : head (matches (alt4 marks) l) = match_symbols marks l.
Proof.
  unfold alt4. cbn [matches]. destruct l as [|c l]; [done|].
  set (body := λ k, n ← down (run (is_sym marks) k) 1;
    Nat.add n <$> down (run is_newline (drop n k)) 0).
  assert (∀ k, head (body k) = match k with
    | x :: _ => if is_sym marks x then
        Some (run (is_sym marks) k + run is_newline (drop (run (is_sym marks) k) k))%nat else None
    | [] => None end) as Hb by (intros k; apply (symbols_match marks k)).
  unfold match_symbols. destruct (c =? 32) eqn:E.
  - apply Z.eqb_eq in E as ->. cbn [app mbind list_bind drop lookup list_lookup].
    rewrite !drop_0, head_app. fold (body l) (body (32 :: l)).
    assert (head ((Nat.add 0 <$> body (32 :: l)) ++ []) = None) as Hspace.
    { rewrite app_nil_r. pose proof (Hb (32 :: l)) as H.
      change (is_sym marks 32) with false in H. destruct (body (32 :: l)); [done|discriminate H]. }
    assert (head (Nat.add 1 <$> body l) = Nat.add 1 <$> head (body l)) as -> by by destruct (body l).
    rewrite Hb. destruct l as [|x l]; cbn [fmap option_fmap option_map lookup list_lookup].
    { exact Hspace. }
    destruct (is_sym marks x); [|exact Hspace]. done.
  - cbn [app mbind list_bind drop lookup list_lookup]. rewrite app_nil_r. fold (body (c :: l)).
    assert (head (Nat.add 0 <$> body (c :: l)) = head (body (c :: l))) as ->.
    { destruct (body (c :: l)); [done|]. done. }
    rewrite Hb. by destruct (is_sym marks c).
Qed.

(** The last newline of the whitespace run, where backtracking stops. *)
Lemma rfind_spec l k :
  match rfind_newline l k with
  | Some j => (j < k)%nat ∧ (∃ c, l !! j = Some c ∧ is_newline c = true)
              ∧ ∀ i c, (j < i < k)%nat → l !! i = Some c → is_newline c = false
  | None => ∀ i c, (i < k)%nat → l !! i = Some c → is_newline c = false
  end.
Proof.
  induction k as [|k IH]; cbn [rfind_newline]; [intros; lia|].
  destruct (l !! k) as [c|] eqn:Hc; [destruct (is_newline c) eqn:En|].
  - split; [lia|]. split; [eauto|]. intros; lia.
  - destruct (rfind_newline l k) as [j|].
    + destruct IH as (H1 & H2 & H3). split; [lia|]. split; [done|].
      intros i x Hi Hx. destruct (decide (i = k)) as [->|]; [congruence|]. apply (H3 i); [lia|done].
    + intros i x Hi Hx. destruct (decide (i = k)) as [->|]; [congruence|]. apply (IH i); [lia|done].
  - destruct (rfind_newline l k) as [j|].
    + destruct IH as (H1 & H2 & H3). split; [lia|]. split; [done|].
      intros i x Hi Hx. destruct (decide (i = k)) as [->|]; [congruence|]. apply (H3 i); [lia|done].
    + intros i x Hi Hx. destruct (decide (i = k)) as [->|]; [congruence|]. apply (IH i); [lia|done].
Qed.

Lemma head_drop {A} (l : list A) n : head (drop n l) = l !! n.
Proof. revert l; induction n as [|n IH]; intros [|x l]; cbn; done. Qed.

(** Backtracking over a greedy run down to the last place where the next class
    matches. *)
Lemma down_newline l : ∀ k,
  head (n ← down k 0; Nat.add n <$> down (run is_newline (drop n l)) 1) =
  match rfind_newline l (S k) with
  | Some j => Some (j + run is_newline (drop j l))%nat
  | None => None
  end.
Proof.
  assert (∀ n, head (Nat.add n <$> down (run is_newline (drop n l)) 1) =
    match l !! n with Some c => if is_newline c then Some (n + run is_newline (drop n l))%nat else None | None => None end) as Hn.
  { intros n. rewrite head_fmap, plus_match, <- head_drop.
    destruct (drop n l) as [|c t]; [done|]. cbn [head]. by destruct (is_newline c). }
  induction k as [|k IH].
  - cbn [down]. rewrite decide_False by lia. cbn [mbind list_bind]. rewrite app_nil_r, Hn.
    cbn [rfind_newline]. destruct (l !! 0%nat) as [c|]; [|done]. by destruct (is_newline c).
  - rewrite down_S by lia. cbn [mbind list_bind]. rewrite head_app, Hn.
    change (rfind_newline l (S (S k))) with
      (match l !! S k with
       | Some c => if is_newline c then Some (S k) else rfind_newline l (S k)
       | None => rfind_newline l (S k) end).
    destruct (l !! S k) as [c|]; [destruct (is_newline c); [done|]|]; exact IH.
Qed.

Lemma alt5_match l : head (matches alt5 l) = match_ws_then_newline l.
Proof.
  unfold alt5. cbn [matches]. rewrite down_newline. destruct l as [|c l]; [done|].
  unfold match_ws_then_newline. set (k := run is_whitespace (c :: l)).
  assert (rfind_newline (c :: l) (S k) = rfind_newline (c :: l) k) as ->.
  { cbn [rfind_newline]. destruct ((c :: l) !! k) as [x|] eqn:Hx; [|done].
    apply run_stop in Hx. destruct (is_newline x) eqn:En; [|done].
    apply newline_ws in En. congruence. }
  destruct (is_whitespace c) eqn:Ew.
  - destruct (rfind_newline (c :: l) k); done.
  - assert (k = O) as -> by (subst k; cbn; by rewrite Ew). done.
Qed.

Lemma alt6_match l : head (matches alt6 l) = match_ws_lookahead l.
Proof.
  unfold alt6. cbn [matches]. unfold match_ws_lookahead. destruct l as [|c l]; [done|].
  destruct (is_whitespace c) eqn:Ew; [|cbn [run]; by rewrite Ew].
  set (k := run is_whitespace (c :: l)). assert (1 ≤ k)%nat as Hk1 by (subst k; cbn; rewrite Ew; lia).
  pose proof (run_le is_whitespace (c :: l)) as Hle. fold k in Hle.
  set (f := λ n, match drop n (c :: l) with
                 | x :: _ => if negb (is_whitespace x) then [] else [0%nat] | [] => [0%nat] end).
  assert (∀ n, (n < k)%nat → f n = [0%nat]) as Hin.
  { intros n Hn. subst f. cbn beta. destruct (drop n (c :: l)) as [|x t] eqn:E; [done|].
    assert ((c :: l) !! n = Some x) as Hx by (by rewrite <- head_drop, E).
    by rewrite (run_inside _ _ _ _ Hn Hx). }
  assert (f k = if decide (k = length (c :: l)) then [0%nat] else []) as Hfk.
  { subst f. cbn beta. destruct (drop k (c :: l)) as [|x t] eqn:E.
    - apply (f_equal length) in E. rewrite length_drop in E. cbn [length] in E, Hle |- *.
      by rewrite decide_True by lia.
    - assert ((c :: l) !! k = Some x) as Hx by (by rewrite <- head_drop, E).
      pose proof (lookup_lt_Some _ _ _ Hx). rewrite decide_False by lia.
      by rewrite (run_stop _ _ _ Hx). }
  destruct k as [|k']; [lia|]. rewrite down_S by lia. cbn [mbind list_bind].
  fold (f (S k')). rewrite Hfk. case_decide as Hd.
  - cbn. f_equal. lia.
  - cbn [fmap list_fmap app]. destruct k' as [|k''].
    + rewrite down_nil by lia. done.
    + rewrite down_S by lia. cbn [mbind list_bind]. fold (f (S k'')). rewrite Hin by lia.
      cbn. f_equal. lia.
Qed.

Lemma alt7_match l : head (matches alt7 l) = match_whitespace l.
Proof. unfold alt7. cbn [matches]. rewrite plus_match. by destruct l. Qed.

(** Every character starts a match of some alternative. *)
Lemma some_alternative marks c l : head (matches (PRETOKENIZE marks) (c :: l)) ≠ None.
Proof.
  unfold PRETOKENIZE. cbn [matches]. rewrite !head_app, alt1_match, alt2_match, alt3_match,
    alt4_match, alt5_match, alt6_match, alt7_match.
  destruct (if quote_long_s _ then _ else _); [done|]. destruct (match_letters _ _) eqn:E2; [done|].
  destruct (is_number c) eqn:En; [done|]. destruct (match_symbols _ _) eqn:E4; [done|].
  destruct (match_ws_then_newline _); [done|]. destruct (match_ws_lookahead _); [done|].
  unfold match_whitespace. destruct (is_whitespace c) eqn:Ew; [done|].
  exfalso. unfold match_symbols in E4. destruct (c =? 32) eqn:E32.
  { apply Z.eqb_eq in E32 as ->. done. }
  cbn [lookup list_lookup] in E4. unfold match_letters in E2.
  assert (is_lm marks c = false) as Hlm.
  { destruct (is_lm marks c); [|done]. by destruct (_ && match l with _ => _ end). }
  unfold is_lm in Hlm. apply orb_false_iff in Hlm as [Hl Hm].
  unfold is_sym in E4. rewrite Ew, Hl, En, Hm in E4. done.
Qed.

(** ** Tiling *)

Lemma pieces_concat marks fuel : ∀ l, (length l ≤ fuel)%nat →
  concat (pieces fuel marks l) = l ∧ Forall (λ p, p ≠ []) (pieces fuel marks l).
Proof.
  induction fuel as [|fuel IH]; intros l Hl; cbn [pieces].
  { destruct l; [by split|cbn in Hl; lia]. }
  destruct l as [|c l]; [by split; [|constructor]|]. cbn zeta.
  set (j := ((match_alternative marks (c :: l) `min` length (c :: l)) `max` 1)%nat).
  assert (1 ≤ j)%nat as Hj by lia.
  destruct (IH (drop j (c :: l))) as [IH1 IH2].
  { rewrite length_drop. cbn [length] in *. lia. }
  split.
  - cbn [concat]. by rewrite IH1, take_drop.
  - constructor; [|done]. by destruct j; [lia|].
Qed.

(** The bytes a range denotes. *)
Definition byte_slice (bs : list Z) (r : Z * Z) : list Z := slice bs r.1 r.2.

Lemma byte_ranges_pieces ps : ∀ pre,
  byte_slice (pre ++ utf8 (concat ps)) <$> byte_ranges (len pre) ps = utf8 <$> ps.
Proof.
  induction ps as [|p ps IH]; intros pre; cbn [byte_ranges fmap list_fmap]; [done|]. cbn [concat].
  rewrite utf8_app. f_equal.
  - unfold byte_slice, slice. cbn [fst snd]. replace (len pre + len (utf8 p) - len pre) with (len (utf8 p)) by lia.
    unfold len. rewrite !Nat2Z.id, drop_app_length. by rewrite take_app_length.
  - specialize (IH (pre ++ utf8 p)). rewrite len_app, <- app_assoc in IH. exact IH.
Qed.

Lemma pretokenize_slices text marks :
  byte_slice (utf8 text) <$> pretokenize_with text marks = utf8 <$> pieces (length text) marks text.
Proof.
  unfold pretokenize_with. destruct (pieces_concat marks (length text) text) as [Hc _]; [lia|].
  pose proof (byte_ranges_pieces (pieces (length text) marks text) []) as H.
  rewrite Hc in H. exact H.
Qed.

(** ** Properties *)

(** Where the scanner and the pattern part: a quote and a long s before a
    letter.  The pattern's first alternative takes the two characters, the
    scanner takes the quote with the whole run of letters. *)
Definition long_s_run (marks : bool) (l : list char) : bool :=
  quote_long_s l && match l with _ :: _ :: x :: _ => is_lm marks x | _ => false end.

Lemma scan_long_s marks l : quote_long_s l = true →
  match_alternative marks l = (2 + run (is_lm marks) (drop 2 l))%nat.
Proof.
  destruct l as [|q [|s l]]; try done. cbn [quote_long_s].
  rewrite andb_true_iff, !Z.eqb_eq. intros [-> ->]. cbn [drop]. unfold match_alternative, match_letters.
  cbn [run]. assert (is_lm marks LONG_S = true) as ->; [|done].
  unfold is_lm. by assert (is_letter LONG_S = true) as -> by by vm_compute.
Qed.

(** C7. The scanner against the regular expression, under Perl semantics
    (alternatives in order, greedy with backtracking, negative lookahead, the
    contractions case-insensitive in the sense of Unicode), for both shipped
    patterns: at every position of every text the scanner returns the first
    match of the pattern, except at a quote and a long s (U+017F) followed by a
    letter (or a joining mark), where the pattern matches two characters and
    the scanner more.  In particular some alternative always matches, so the
    scanner's fallback is dead code. *)
Theorem match_alternative_regex (marks : bool) (c : char) (l : list char) :
  if long_s_run marks (c :: l)
  then head (matches (PRETOKENIZE marks) (c :: l)) = Some 2%nat ∧
       (2 < match_alternative marks (c :: l))%nat
  else head (matches (PRETOKENIZE marks) (c :: l)) = Some (match_alternative marks (c :: l)).
Proof.
  pose proof (some_alternative marks c l) as Hs. unfold PRETOKENIZE, long_s_run in *. cbn [matches] in *.
  rewrite !head_app, alt1_match, alt2_match, alt3_match, alt4_match, alt5_match, alt6_match,
    alt7_match in *.
  destruct (quote_long_s (c :: l)) eqn:Eq; cbn [andb].
  - rewrite (scan_long_s _ _ Eq). destruct l as [|s [|x l]]; try done. cbn [drop run].
    destruct (is_lm marks x); [|done]. split; [done|lia].
  - unfold match_alternative. destruct (match_contraction _); [done|].
    destruct (match_letters _ _); [done|]. destruct (is_number c); [done|].
    destruct (match_symbols _ _); [done|]. destruct (match_ws_then_newline _); [done|].
    destruct (match_ws_lookahead _); [done|]. by destruct (match_whitespace _).
Qed.

(** ["'ſx"]: the pattern splits it after the long s, the scanner does not. *)
Theorem long_s_diverges (marks : bool) :
  head (matches (PRETOKENIZE marks) [39; LONG_S; 120]) = Some 2%nat ∧
  pieces 3 marks [39; LONG_S; 120] = [[39; LONG_S; 120]].
Proof. destruct marks; vm_compute; done. Qed.

(** Pre-tokenizing loses nothing: the byte ranges it returns are those of
    consecutive non-empty pieces whose concatenation is the text. *)
Theorem pretokenize_tiles (text : rstr) (marks : bool) :
  ∃ ps, concat ps = text ∧ Forall (λ p, p ≠ []) ps
    ∧ byte_slice (utf8 text) <$> pretokenize_with text marks = utf8 <$> ps.
Proof.
  exists (pieces (length text) marks text).
  destruct (pieces_concat marks (length text) text) as [H1 H2]; [lia|].
  split; [done|]. split; [done|]. apply pretokenize_slices.
Qed.
