(* ===== verification/Tokenizer.v ===== *)
(** * gdn: the byte-level BPE tokenizer

    Models [Tokenizer] of qwen35-forward/gdn/src/tokenizer.rs: loading and
    validating tokenizer.json, byte-level BPE, encoding with added tokens, and
    decoding.  serde_json comes in through [SerdeJson]; a file is its bytes or
    the fact that it cannot be read.  The iteration order of the vocabulary's
    [HashMap] is the argument [iter]. *)

From S2P Require Import Prelude Serde Rstr Utf8 UnicodeGc Pretokenize.
From stdpp Require Import gmap.
#[local] Open Scope Z_scope.

(** ** The two patterns *)

Definition PRETOKENIZE_REGEX_WITH_MARKS : rstr := concat [
  lit "(?i:'s|'t|'re|'ve|'m|'ll|'d)";
  lit "|[^\r\n\p{L}\p{N}]?[\p{L}\p{M}]+";
  lit "|\p{N}";
  lit "| ?[^\s\p{L}\p{M}\p{N}]+[\r\n]*";
  lit "|\s*[\r\n]+";
  lit "|\s+(?!\S)";
  lit "|\s+"].

Definition PRETOKENIZE_REGEX_NO_MARKS : rstr := concat [
  lit "(?i:'s|'t|'re|'ve|'m|'ll|'d)";
  lit "|[^\r\n\p{L}\p{N}]?\p{L}+";
  lit "|\p{N}";
  lit "| ?[^\s\p{L}\p{N}]+[\r\n]*";
  lit "|\s*[\r\n]+";
  lit "|\s+(?!\S)";
  lit "|\s+"].

(** ** The byte-to-character map *)

Definition printable_bytes : list Z := seqZ 33 94 ++ seqZ 161 12 ++ seqZ 174 82.

Definition byte_to_char_table : list char :=
  let base := printable_bytes in
  let map := foldl (λ m b, <[Z.to_nat b := b]> m) (replicate 256 0) base in
  let '(map, _) := foldl (λ '(m, n) b,
      if decide (b ∉ base) then (<[Z.to_nat b := 256 + n]> m, n + 1) else (m, n))
    (map, 0) (seqZ 0 256) in
  default 0 ∘ from_u32 <$> map.

(** The inverse map; a byte's position is its value. *)
Definition char_to_byte_table : gmap Z Z :=
  foldl (λ m e, <[e.2 := e.1]> m) ∅ (zip (seqZ 0 256) byte_to_char_table).

(** ** The tokenizer *)

Record Tokenizer := mkTokenizer {
  byte_char_id : list Z;
  id_to_token : list rstr;
  merge : gmap (Z * Z) (Z * Z);
  added : list (rstr * Z);
  char_to_byte : gmap Z Z;
  marks_join_letters : bool;
}.

Record TokenizerInfo := mkInfo {
  model_type : rstr;
  info_vocab_size : Z;
  merges : Z;
  added_tokens : Z;
  normalizer : rstr;
  pre_tokenizer : rstr;
  decoder : rstr;
  byte_characters_missing_from_vocab : Z;
  pattern_with_marks : bool;
}.

(** Why loading fails: one constructor per rejection in the source.  [Panics]
    is an out-of-range index. *)
Inductive LoadError :=
| Io | NotJson | NoModel | NotBpe (t : rstr) | ByteFallback | UnkToken (t : rstr)
| NoVocab | VocabIdNotInteger (tok : rstr)
| AddedNoContent | AddedNoId (content : rstr) | Panics
| BytesMissing (n : Z)
| NoMerges | MergeNoSpace (rank : nat) | MergeNotPair (rank : nat) | MergeUnknownShape (rank : nat)
| MergeNotInVocab (rank : nat) (tok : rstr) | MergedNotInVocab (rank : nat) (l r : rstr)
| NotNfc (t : rstr) | NoPreTokenizer | NotASequence | NotTwoPreTokenizers (n : Z)
| NotARegexSplit | UnknownPattern (p : rstr) | SecondNotByteLevel (t : rstr)
| DecoderNotByteLevel (t : rstr).

Inductive File := Missing | Unreadable | Contents (bs : list Z).

(** Longest first (in bytes), then by content. *)
Definition added_le (a b : rstr * Z) : Prop :=
  len (utf8 b.1) < len (utf8 a.1)
  ∨ (len (utf8 b.1) = len (utf8 a.1) ∧ str_le a.1 b.1).
#[export] Instance added_le_dec a b : Decision (added_le a b).
Proof. unfold added_le. apply _. Defined.

Definition sort_added : list (rstr * Z) → list (rstr * Z) := sort_by added_le.

(** [v[i] = x], panicking out of range. *)
Definition vec_set {A} (l : list A) (i : Z) (x : A) : result LoadError (list A) :=
  if decide (0 ≤ i < len l) then Ok (<[Z.to_nat i := x]> l) else Err Panics.

Section load.
Context {J : Type} `{SerdeJson J}.
Context (to_string : J → rstr).
Context (iter : gmap rstr Z → list (rstr * Z)).

Definition get_str (j : J) (k : string) : rstr := default [] (v ← get j (lit k); as_str v).

Definition vocab_entry (e : rstr * J) : result LoadError (rstr * Z) :=
  id ← ok_or (VocabIdNotInteger e.1) (as_u64 e.2); Ok (e.1, id).

Definition added_entry (a : J) : result LoadError (rstr * Z) :=
  content ← ok_or AddedNoContent (v ← get a (lit "content"); as_str v);
  id ← ok_or (AddedNoId content) (v ← get a (lit "id"); as_u64 v);
  Ok (content, id).

(** [id as u32] *)
Definition narrow (e : rstr * Z) : rstr * Z := (e.1, wrap32 e.2).

Definition build_vocab (ents : list (rstr * Z)) : gmap rstr Z :=
  foldl (λ m e, <[e.1 := e.2]> m) ∅ ents.

(** [id_to_token] and [have], filled from the vocabulary, then from the added
    tokens whose id is still free. *)
Definition fill_vocab (ents : list (rstr * Z)) (s : list rstr * list bool) :
    result LoadError (list rstr * list bool) :=
  foldl (λ r e, '(toks, have) ← r; toks ← vec_set toks e.2 e.1; have ← vec_set have e.2 true;
                Ok (toks, have)) (Ok s) ents.

Definition fill_added (ents : list (rstr * Z)) (s : list rstr * list bool) :
    result LoadError (list rstr * list bool) :=
  foldl (λ r e, '(toks, have) ← r;
      taken ← ok_or Panics (have !! Z.to_nat e.2);
      if taken : bool then Ok (toks, have) else
      toks ← vec_set toks e.2 e.1; have ← vec_set have e.2 true; Ok (toks, have)) (Ok s) ents.

Definition byte_ids (vocab : gmap rstr Z) : list Z * Z :=
  foldl (λ '(ids, missing) ch,
      match vocab !! [ch] with
      | Some id => (ids ++ [id], missing)
      | None => (ids ++ [0], missing + 1)
      end) ([], 0) byte_to_char_table.

Definition merge_sides (rank : nat) (m : J) : result LoadError (rstr * rstr) :=
  match as_str m with
  | Some s =>
      match split_once (lit " ") s with
      | Some (a, b) => Ok (a, b)
      | None => Err (MergeNoSpace rank)
      end
  | None =>
      match as_array m with
      | Some [a; b] => Ok (default [] (as_str a), default [] (as_str b))
      | Some _ => Err (MergeNotPair rank)
      | None => Err (MergeUnknownShape rank)
      end
  end.

Definition merge_entry (vocab : gmap rstr Z) (e : nat * J) :
    result LoadError ((Z * Z) * (Z * Z)) :=
  let rank := e.1 in
  '(l, r) ← merge_sides rank e.2;
  li ← ok_or (MergeNotInVocab rank l) (vocab !! l);
  ri ← ok_or (MergeNotInVocab rank r) (vocab !! r);
  merged ← ok_or (MergedNotInVocab rank l r) (vocab !! (l ++ r));
  Ok ((li, ri), (wrap32 (Z.of_nat rank), merged)).

Definition build_merge (ents : list ((Z * Z) * (Z * Z))) : gmap (Z * Z) (Z * Z) :=
  foldl (λ m e, <[e.1 := e.2]> m) ∅ ents.

(** The pipeline checks: normalizer, pre-tokenizer, decoder.  Returns the
    pattern, whether it joins marks, and the decoder's type. *)
Definition validate_pipeline (doc : J) : result LoadError (rstr * bool * rstr) :=
  let ntype := default [] (n ← get doc (lit "normalizer"); v ← get n (lit "type"); as_str v) in
  if decide (ntype ≠ lit "NFC") then Err (NotNfc ntype) else
  pre ← ok_or NoPreTokenizer (get doc (lit "pre_tokenizer"));
  subs ← ok_or NotASequence (v ← get pre (lit "pretokenizers"); as_array v);
  match subs with
  | [first; second] =>
      regex ← ok_or NotARegexSplit
        (p ← get first (lit "pattern"); v ← get p (lit "Regex"); as_str v);
      marks ← (if decide (regex = PRETOKENIZE_REGEX_WITH_MARKS) then Ok true
               else if decide (regex = PRETOKENIZE_REGEX_NO_MARKS) then Ok false
               else Err (UnknownPattern regex));
      let btype := get_str second "type" in
      if decide (btype ≠ lit "ByteLevel") then Err (SecondNotByteLevel btype) else
      let dtype := default [] (d ← get doc (lit "decoder"); v ← get d (lit "type"); as_str v) in
      if decide (dtype ≠ lit "ByteLevel") then Err (DecoderNotByteLevel dtype) else
      Ok (regex, marks, dtype)
  | _ => Err (NotTwoPreTokenizers (len subs))
  end.

Definition from_doc (doc : J) : result LoadError (Tokenizer * TokenizerInfo) :=
  model ← ok_or NoModel (get doc (lit "model"));
  let mtype := get_str model "type" in
  if decide (mtype ≠ lit "BPE") then Err (NotBpe mtype) else
  if default false (v ← get model (lit "byte_fallback"); as_bool v) then Err ByteFallback else
  match (v ← get model (lit "unk_token"); as_str v) with
  | Some unk => Err (UnkToken unk)
  | None =>
  vocab_obj ← ok_or NoVocab (v ← get model (lit "vocab"); as_object v);
  ents ← try_map vocab_entry vocab_obj;
  adds ← try_map added_entry (default [] (v ← get doc (lit "added_tokens"); as_array v));
  let max_id := foldl Z.max (foldl Z.max 0 ents.*2) adds.*2 in
  let vocab := build_vocab (narrow <$> ents) in
  let added := sort_added (narrow <$> adds) in
  let n := Z.to_nat (wadd max_id 1) in
  s ← fill_vocab (iter vocab) (replicate n [], replicate n false);
  '(toks, _) ← fill_added added s;
  let '(ids, missing) := byte_ids vocab in
  if decide (0 < missing) then Err (BytesMissing missing) else
  merges_arr ← ok_or NoMerges (v ← get model (lit "merges"); as_array v);
  merged ← try_map (merge_entry vocab) (imap pair merges_arr);
  let merge := build_merge merged in
  let ntext := match get doc (lit "normalizer") with Some v => to_string v | None => lit "null" end in
  '(regex, marks, dtype) ← validate_pipeline doc;
  Ok (mkTokenizer ids toks merge added char_to_byte_table marks,
      mkInfo mtype (Z.of_nat (size vocab)) (Z.of_nat (size merge)) (len added) ntext regex dtype
        missing marks)
  end.

Definition from_file (f : File) : result LoadError (Tokenizer * TokenizerInfo) :=
  match f with
  | Contents raw => doc ← ok_or NotJson (from_slice raw); from_doc doc
  | _ => Err Io
  end.
End load.

(** ** Byte-pair encoding *)

(** [(rank, i)] of the lowest-ranked adjacent pair, leftmost on ties: the inner
    [for] of [bpe], from position [i] on. *)
Fixpoint best_pair (merge : gmap (Z * Z) (Z * Z)) (i : nat) (best : option (Z * nat))
    (syms : list Z) : option (Z * nat) :=
  match syms with
  | a :: (b :: _) as t =>
      best_pair merge (S i)
        (match merge !! (a, b) with
         | Some (rank, _) =>
             match best with
             | Some (br, _) => if rank <? br then Some (rank, i) else best
             | None => Some (rank, i)
             end
         | None => best
         end) t
  | _ => best
  end.

Fixpoint bpe_loop (fuel : nat) (merge : gmap (Z * Z) (Z * Z)) (syms : list Z) : option (list Z) :=
  match fuel with
  | O => None
  | S fuel =>
      match best_pair merge 0 None syms with
      | None => Some syms
      | Some (_, i) =>
          a ← syms !! i; b ← syms !! S i;
          '(_, merged) ← merge !! (a, b);
          bpe_loop fuel merge (delete (S i) (<[i := merged]> syms))
      end
  end.

(** One piece, as its bytes.  Every round drops one symbol, so as many rounds
    as symbols (and one to see that none is left) are enough. *)
Definition bpe (tk : Tokenizer) (piece : list Z) : option (list Z) :=
  syms ← mapM (λ b, byte_char_id tk !! Z.to_nat b) piece;
  if decide (len syms < 2) then Some syms
  else bpe_loop (S (length syms)) (merge tk) syms.

(** ** Encoding *)

Definition encode_plain (tk : Tokenizer) (text : rstr) : option (list Z) :=
  let bytes := utf8 text in
  @concat Z <$> mapM (λ r, bpe tk (slice bytes r.1 r.2))
               (pretokenize_with text (marks_join_letters tk)).

(** [if plain_start < i { encode_plain(..) }] *)
Definition flush (tk : Tokenizer) (plain : rstr) : option (list Z) :=
  match plain with [] => Some [] | _ => encode_plain tk plain end.

Definition hit (tk : Tokenizer) (rest : rstr) : option (rstr * Z) :=
  snd <$> list_find (λ e, starts_with e.1 rest = true) (added tk).

(** The scan of [encode]: [plain] is the text since [plain_start], [rest] the
    text from [i] on.  The index only ever stops at character boundaries. *)
Fixpoint encode_loop (fuel : nat) (tk : Tokenizer) (plain rest : rstr) (out : list Z) :
    option (list Z) :=
  match rest with
  | [] => ids ← flush tk plain; Some (out ++ ids)
  | c :: rest' =>
      match fuel with
      | O => None
      | S fuel =>
          match hit tk rest with
          | Some (tok, id) =>
              ids ← flush tk plain;
              encode_loop fuel tk [] (drop (length tok) rest) (out ++ ids ++ [id])
          | None => encode_loop fuel tk (plain ++ [c]) rest' out
          end
      end
  end.

Definition encode_fuel (fuel : nat) (tk : Tokenizer) (text : rstr) : option (list Z) :=
  normalized ← nfc text;
  encode_loop fuel tk [] normalized [].

(** One round per character is enough when no added token is empty. *)
Definition encode (tk : Tokenizer) (text : rstr) : option (list Z) :=
  normalized ← nfc text;
  encode_loop (length normalized) tk [] normalized [].

(** ** Decoding *)

Definition vocab_size (tk : Tokenizer) : Z := len (id_to_token tk).
Definition token_str (tk : Tokenizer) (id : Z) : option rstr := id_to_token tk !! Z.to_nat id.

Definition char_bytes (tk : Tokenizer) (ch : char) : list Z :=
  match char_to_byte tk !! ch with
  | Some b => [b]
  | None => utf8 [ch]
  end.

Definition decode_bytes (tk : Tokenizer) (ids : list Z) : list Z :=
  concat ((λ id, match token_str tk id with
                 | Some tok => concat (char_bytes tk <$> tok)
                 | None => []
                 end) <$> ids).

Definition decode (tk : Tokenizer) (ids : list Z) : rstr := from_utf8_lossy (decode_bytes tk ids).

(** ** Added tokens from the configuration *)

Definition set_marks_join_letters (tk : Tokenizer) (v : bool) : Tokenizer :=
  mkTokenizer (byte_char_id tk) (id_to_token tk) (merge tk) (added tk) (char_to_byte tk) v.

(** One round of the loop of [absorb_added_tokens], before the final sort. *)
Definition absorb_one (s : list rstr * list (rstr * Z) * Z) (e : rstr * Z) :
    list rstr * list (rstr * Z) * Z :=
  let '(toks, adds, n) := s in
  if decide (e.1 ∈ adds.*1) then s else
  let i := Z.to_nat e.2 in
  let toks := if decide (length toks ≤ i)%nat then resize (S i) [] toks else toks in
  let toks := match toks !! i with Some [] => <[i := e.1]> toks | _ => toks end in
  (toks, adds ++ [e], n + 1).

Definition absorb_added_tokens (tk : Tokenizer) (extra : list (rstr * Z)) : Tokenizer * Z :=
  let '(toks, adds, n) := foldl absorb_one (id_to_token tk, added tk, 0) extra in
  (mkTokenizer (byte_char_id tk) toks (merge tk) (sort_added adds) (char_to_byte tk)
     (marks_join_letters tk), n).

(** [id.parse::<u32>()] *)
Definition digits_value (s : rstr) : option Z :=
  foldl (λ acc c, v ← acc;
    if in_range 48 57 c then
      let v := v * 10 + (c - 48) in if decide (v < 2 ^ 32) then Some v else None
    else None) (Some 0) s.
Definition parse_u32 (s : rstr) : option Z :=
  match s with
  | [] => None
  | 43 :: s' => match s' with [] => None | _ => digits_value s' end
  | _ => digits_value s
  end.

Section model_dir.
Context {J : Type} `{SerdeJson J}.
Context (to_string : J → rstr).
Context (iter : gmap rstr Z → list (rstr * Z)).

(** An entry of [added_tokens_decoder]: a bare string or an object. *)
Definition decoder_entry (e : rstr * J) : option (rstr * Z) :=
  id ← parse_u32 e.1;
  content ← match as_str e.2 with
            | Some s => Some s
            | None => c ← get e.2 (lit "content"); as_str c
            end;
  Some (content, id).

Definition extra_tokens (doc : J) : list (rstr * Z) :=
  omap decoder_entry (default [] (v ← get doc (lit "added_tokens_decoder"); as_object v)).

Definition add_added (info : TokenizerInfo) (n : Z) : TokenizerInfo :=
  mkInfo (model_type info) (info_vocab_size info) (merges info) (added_tokens info + n)
    (normalizer info) (pre_tokenizer info) (decoder info)
    (byte_characters_missing_from_vocab info) (pattern_with_marks info).

Definition from_model_dir (tokenizer_json config : File) :
    result LoadError (Tokenizer * TokenizerInfo) :=
  '(tk, info) ← from_file to_string iter tokenizer_json;
  '(tk, info, class) ←
    match config with
    | Missing => Ok (tk, info, [])
    | Unreadable => Err Io
    | Contents raw =>
        doc ← ok_or NotJson (from_slice raw);
        let '(tk, n) := absorb_added_tokens tk (extra_tokens doc) in
        Ok (tk, add_added info n, get_str doc "tokenizer_class")
    end;
  Ok (if starts_with (lit "Qwen2") class then set_marks_join_letters tk false else tk, info).
End model_dir.
