(* ===== verification/BpeProps.v ===== *)
(** * Byte-pair encoding computes best-first merging

    The rule of the source's comment as a step relation, and the loop of [bpe]
    as its unique normal form. *)

From stdpp Require Import gmap relations.
From S2P Require Import Prelude Utf8 Rstr Pretokenize Tokenizer.
#[local] Open Scope Z_scope.

(** Rank of the adjacent pair at position [j]. *)
Definition rank_at (merge : gmap (Z * Z) (Z * Z)) (syms : list Z) (j : nat) : option Z :=
  a ← syms !! j; b ← syms !! S j; fst <$> merge !! (a, b).

(** The pair at position [i] is the best one: lowest rank, leftmost on ties. *)
Definition best_at (merge : gmap (Z * Z) (Z * Z)) (syms : list Z) (i : nat) (rank : Z) : Prop :=
  rank_at merge syms i = Some rank
  ∧ ∀ j r, rank_at merge syms j = Some r → rank ≤ r ∧ ((j < i)%nat → rank < r).

(** One merge: the best pair [a b] becomes its merged symbol. *)
Inductive merge_step (merge : gmap (Z * Z) (Z * Z)) : list Z → list Z → Prop :=
| merge_best pre a b post rank m :
    merge !! (a, b) = Some (rank, m) →
    best_at merge (pre ++ a :: b :: post) (length pre) rank →
    merge_step merge (pre ++ a :: b :: post) (pre ++ m :: post).

Section bpe.
Context (merge : gmap (Z * Z) (Z * Z)).
Abbreviation rank_at := (rank_at merge).

Lemma rank_at_cons x l j : rank_at (x :: l) (S j) = rank_at l j.
Proof. done. Qed.

Lemma rank_at_head a b l : rank_at (a :: b :: l) 0 = fst <$> merge !! (a, b).
Proof. done. Qed.

Lemma rank_at_short l j : (length l < 2)%nat → rank_at l j = None.
Proof. intros. destruct l as [|? [|]]; cbn in *; try lia; by destruct j as [|[]]. Qed.

(** What a scan from position [i] with the best so far [best] returns. *)
Definition scanned (i : nat) (best : option (Z * nat)) (syms : list Z)
    (res : option (Z * nat)) : Prop :=
  match res with
  | None => best = None ∧ ∀ j, rank_at syms j = None
  | Some (r, k) =>
      (best = Some (r, k) ∧ ∀ j r', rank_at syms j = Some r' → r ≤ r')
      ∨ (∃ j, k = (i + j)%nat ∧ best_at merge syms j r
              ∧ ∀ br bi, best = Some (br, bi) → r < br)
  end.

Lemma best_pair_scanned syms : ∀ i best, scanned i best syms (best_pair merge i best syms).
Proof.
  induction syms as [|a [|b l] IH]; intros i best.
  1,2: cbn [best_pair]; unfold scanned; destruct best as [[r k]|];
    [left; split; [done|] | split; [done|]]; intros j *; by rewrite rank_at_short by (cbn; lia).
  change (best_pair merge i best (a :: b :: l)) with
    (best_pair merge (S i) (match merge !! (a, b) with
         | Some (rank, _) =>
             match best with
             | Some (br, _) => if rank <? br then Some (rank, i) else best
             | None => Some (rank, i)
             end
         | None => best
         end) (b :: l)).
  set (best' := match merge !! (a, b) with Some _ => _ | None => _ end).
  specialize (IH (S i) best'). destruct (best_pair merge (S i) best' (b :: l)) as [[r k]|]; cbn [scanned] in *.
  - destruct IH as [[Hb Hr]|(j & -> & Hj & Hb)].
    + (* the best pair is this one, or an earlier one *)
      subst best'. destruct (merge !! (a, b)) as [[rank m]|] eqn:E.
      * destruct best as [[br bi]|]; [destruct (Z.ltb_spec rank br)|].
        -- injection Hb as -> ->. right. exists O. split; [lia|]. split.
           ++ split; [by rewrite rank_at_head, E|]. intros [|j] r'; [rewrite rank_at_head, E; cbn; intros [= <-]; lia|].
              rewrite rank_at_cons. intros Hj. split; [by apply (Hr j)|lia].
           ++ intros ? ? [= <- <-]. done.
        -- injection Hb as -> ->. left. split; [done|]. intros [|j] r'; [rewrite rank_at_head, E; cbn; intros [= <-]; lia|].
           apply Hr.
        -- injection Hb as -> ->. right. exists O. split; [lia|]. split; [|done].
           split; [by rewrite rank_at_head, E|]. intros [|j] r'; [rewrite rank_at_head, E; cbn; intros [= <-]; lia|].
           rewrite rank_at_cons. intros Hj. split; [by apply (Hr j)|lia].
      * left. split; [done|]. intros [|j] r'; [by rewrite rank_at_head, E|]. apply Hr.
    + (* it is further right *)
      destruct Hj as [Hj Hmin]. right. exists (S j). split; [lia|]. subst best'.
      assert (∀ rank, fst <$> merge !! (a, b) = Some rank → r < rank) as Hhead.
      { intros rank. destruct (merge !! (a, b)) as [[rk m]|]; [|done]. cbn. intros [= <-].
        destruct best as [[br bi]|]; [destruct (Z.ltb_spec rk br)|].
        - exact (Hb _ _ eq_refl).
        - pose proof (Hb _ _ eq_refl). lia.
        - exact (Hb _ _ eq_refl). }
      split.
      * split; [done|]. intros [|j'] r'.
        -- rewrite rank_at_head. intros H%Hhead. lia.
        -- rewrite rank_at_cons. intros Hj'. destruct (Hmin j' r' Hj'). split; [done|]. intros. by auto with lia.
      * intros br bi ->. destruct (merge !! (a, b)) as [[rk m]|]; [|by eapply Hb].
        destruct (Z.ltb_spec rk br); [pose proof (Hb _ _ eq_refl); lia|by eapply Hb].
  - destruct IH as [Hb Hr]. subst best'. destruct (merge !! (a, b)) as [[rank m]|] eqn:E.
    + destruct best as [[br bi]|]; [destruct (rank <? br)|]; discriminate.
    + split; [done|]. intros [|j]; [by rewrite rank_at_head, E|]. apply Hr.
Qed.

Lemma best_pair_None syms : best_pair merge 0 None syms = None → ∀ j, rank_at syms j = None.
Proof. intros H. pose proof (best_pair_scanned syms 0 None) as Hs. rewrite H in Hs. by destruct Hs. Qed.

Lemma best_pair_Some syms r i : best_pair merge 0 None syms = Some (r, i) → best_at merge syms i r.
Proof.
  intros H. pose proof (best_pair_scanned syms 0 None) as Hs. rewrite H in Hs.
  destruct Hs as [[? _]|(j & -> & Hj & _)]; [done|exact Hj].
Qed.

Lemma rank_at_split syms i r : rank_at syms i = Some r →
  ∃ pre a b post m, syms = pre ++ a :: b :: post ∧ length pre = i ∧ merge !! (a, b) = Some (r, m).
Proof.
  unfold BpeProps.rank_at. intros (a & Ha & Hr)%bind_Some.
  apply bind_Some in Hr as (b & Hb & Hr). apply fmap_Some in Hr as ([r' m] & Hm & ->).
  exists (take i syms), a, b, (drop (S (S i)) syms), m. split; [|split; [|done]].
  - by rewrite <- (drop_S _ _ _ Hb), <- (drop_S _ _ _ Ha), take_drop.
  - apply length_take_le. apply lookup_lt_Some in Ha. lia.
Qed.

Lemma merge_at pre (a b m : Z) post :
  delete (S (length pre)) (<[length pre := m]> (pre ++ a :: b :: post)) = pre ++ m :: post.
Proof.
  rewrite insert_app_r_alt by lia. rewrite Nat.sub_diag. cbn [insert list_insert].
  change (m :: b :: post) with ([m] ++ b :: post). rewrite app_assoc.
  replace (S (length pre)) with (length (pre ++ [m])) by (rewrite length_app; cbn; lia).
  rewrite delete_middle, <- app_assoc. done.
Qed.

Lemma best_at_unique syms i r i' r' : best_at merge syms i r → best_at merge syms i' r' → i = i'.
Proof.
  intros [H1 H2] [H1' H2']. destruct (H2 _ _ H1') as [_ Ha], (H2' _ _ H1) as [_ Hb].
  destruct (Nat.lt_trichotomy i i') as [Hi|[Hi|Hi]]; [|done|].
  - specialize (Hb Hi). destruct (H2 _ _ H1'). lia.
  - specialize (Ha Hi). destruct (H2' _ _ H1). lia.
Qed.

Lemma split_unique {A} (pre pre' l l' : list A) :
  pre ++ l = pre' ++ l' → length pre = length pre' → pre = pre' ∧ l = l'.
Proof. intros H Hl. by apply app_inj_1. Qed.

Lemma merge_step_det s x y : merge_step merge s x → merge_step merge s y → x = y.
Proof.
  intros Hx Hy. inversion Hx as [pre a b post r m Hm Hb Hs]. subst.
  inversion Hy as [pre' a' b' post' r' m' Hm' Hb' Hs']. subst. rewrite Hs' in Hb'.
  pose proof (best_at_unique _ _ _ _ _ Hb Hb') as Hl.
  destruct (split_unique _ _ _ _ Hs' (eq_sym Hl)) as [-> [= -> -> ->]]. congruence.
Qed.

Lemma merge_step_shrinks s t : merge_step merge s t → length s = S (length t).
Proof. intros []. rewrite !length_app. cbn. lia. Qed.

Lemma no_rank_no_step s : (∀ j, rank_at s j = None) → ∀ t, ¬ merge_step merge s t.
Proof.
  intros H t Hs. inversion Hs as [pre a b post r m Hm [Hb _] Hs']. subst. by rewrite H in Hb.
Qed.

Lemma bpe_loop_spec fuel : ∀ syms, (length syms < fuel)%nat →
  ∃ out, bpe_loop fuel merge syms = Some out ∧ rtc (merge_step merge) syms out
         ∧ ∀ t, ¬ merge_step merge out t.
Proof.
  induction fuel as [|fuel IH]; intros syms Hf; [lia|]. cbn [bpe_loop].
  destruct (best_pair merge 0 None syms) as [[r i]|] eqn:E.
  - apply best_pair_Some in E. destruct E as [Hr Hmin].
    destruct (rank_at_split _ _ _ Hr) as (pre & a & b & post & m & -> & <- & Hm).
    rewrite (list_lookup_middle pre (b :: post) a _ eq_refl). cbn [mbind option_bind].
    change (a :: b :: post) with ([a] ++ b :: post). rewrite app_assoc.
    rewrite (list_lookup_middle (pre ++ [a]) post b) by (rewrite length_app; cbn; lia).
    cbn [mbind option_bind]. rewrite Hm. cbn [mbind option_bind]. rewrite <- app_assoc. cbn [app].
    rewrite merge_at.
    assert (merge_step merge (pre ++ a :: b :: post) (pre ++ m :: post)) as Hstep.
    { by apply (merge_best merge pre a b post r m). }
    pose proof (merge_step_shrinks _ _ Hstep) as Hlen.
    destruct (IH (pre ++ m :: post)) as (out & Ho & Hrtc & Hnf); [lia|].
    exists out. split; [done|]. split; [by eapply rtc_l|done].
  - exists syms. split; [done|]. split; [apply rtc_refl|].
    apply no_rank_no_step. by apply best_pair_None.
Qed.

(** Normal forms are unique. *)
Lemma rtc_det s x y : rtc (merge_step merge) s x → (∀ t, ¬ merge_step merge x t) →
  rtc (merge_step merge) s y → (∀ t, ¬ merge_step merge y t) → x = y.
Proof.
  intros Hx Hnx. revert y. induction Hx as [s|s s' x Hstep Hx IH]; intros y Hy Hny.
  - destruct Hy as [|s t y Hst _]; [done|]. by destruct (Hnx t).
  - destruct Hy as [s|s t y Hst Hy]; [by destruct (Hny s')|].
    rewrite (merge_step_det _ _ _ Hst Hstep) in Hy. by apply IH.
Qed.

Lemma short_no_step s : len s < 2 → ∀ t, ¬ merge_step merge s t.
Proof.
  intros Hs. apply no_rank_no_step. intros j. apply rank_at_short. unfold len in Hs. lia.
Qed.
End bpe.

(** [bpe] on the ids of a piece's bytes. *)
Lemma bpe_spec_ids tk piece syms :
  mapM (λ b, byte_char_id tk !! Z.to_nat b) piece = Some syms →
  ∃ out, bpe tk piece = Some out ∧ rtc (merge_step (merge tk)) syms out
         ∧ ∀ t, ¬ merge_step (merge tk) out t.
Proof.
  intros Hs. unfold bpe. rewrite Hs. cbn [mbind option_bind]. case_decide as Hl.
  - exists syms. split; [done|]. split; [apply rtc_refl|]. by apply short_no_step.
  - apply bpe_loop_spec. lia.
Qed.

Lemma byte_ids_total (ids piece : list Z) : length ids = 256%nat → Forall (λ b, 0 ≤ b < 256) piece →
  ∃ syms, mapM (λ b, ids !! Z.to_nat b) piece = Some syms.
Proof.
  intros Hl Hp. apply mapM_is_Some. eapply Forall_impl; [exact Hp|].
  intros b Hb. cbn in Hb. apply lookup_lt_is_Some_2. lia.
Qed.

(** C3. BPE is best-first merging: on the bytes of any piece it terminates, and
    its result is the one sequence reached from the single-byte ids by merging,
    one at a time, the lowest-ranked pair (leftmost on ties) until no pair can
    be merged. *)
Theorem bpe_best_first (tk : Tokenizer) (piece : list Z)
    (Hids : length (byte_char_id tk) = 256%nat) (Hb : Forall (λ b, 0 ≤ b < 256) piece) :
  ∃ syms out, mapM (λ b, byte_char_id tk !! Z.to_nat b) piece = Some syms
    ∧ bpe tk piece = Some out
    ∧ rtc (merge_step (merge tk)) syms out
    ∧ (∀ t, ¬ merge_step (merge tk) out t)
    ∧ (∀ other, rtc (merge_step (merge tk)) syms other →
         (∀ t, ¬ merge_step (merge tk) other t) → other = out).
Proof.
  destruct (byte_ids_total _ _ Hids Hb) as [syms Hs].
  destruct (bpe_spec_ids tk piece syms Hs) as (out & Ho & Hr & Hn).
  exists syms, out. split; [done|]. split; [done|]. split; [done|]. split; [done|].
  intros other H1 H2. by eapply rtc_det.
Qed.
