(* ===== verification/TokenizerProps.v ===== *)
(** * The tokenizer: invariant, encoding, decoding

    The invariant [wf] of a loaded tokenizer, encoding as leftmost-longest
    segmentation followed by BPE, and the round trip through [decode]. *)

From stdpp Require Import gmap relations.
From S2P Require Import Prelude Serde Rstr Utf8 UnicodeGc UnicodeGcProps Pretokenize PretokenizeProps Tokenizer BpeProps.
#[local] Open Scope Z_scope.

(** ** The byte-to-character map *)

Definition byte_to_char (b : Z) : char := nth (Z.to_nat b) byte_to_char_table 0.

Lemma byte_table_all : Forall (λ b, char_to_byte_table !! byte_to_char b = Some b) (seqZ 0 256).
Proof. apply (bool_decide_unpack _). vm_compute. exact I. Qed.

#[local] Opaque char_to_byte_table byte_to_char_table.

Lemma byte_to_char_spec b : 0 ≤ b < 256 → char_to_byte_table !! byte_to_char b = Some b.
Proof.
  intros Hb. pose proof byte_table_all as H. rewrite Forall_forall in H.
  apply (H b). by apply elem_of_seqZ.
Qed.

Lemma byte_table_length : length byte_to_char_table = 256%nat.
Proof. vm_compute. reflexivity. Qed.

(** ** The invariant *)

Record wf (tk : Tokenizer) : Prop := {
  wf_table : char_to_byte tk = char_to_byte_table;
  wf_bytes_length : length (byte_char_id tk) = 256%nat;
  (** every byte has an id, whose token is the byte's character *)
  wf_bytes : ∀ b id, 0 ≤ b < 256 → byte_char_id tk !! Z.to_nat b = Some id →
    token_str tk id = Some [byte_to_char b];
  (** a merged token is the concatenation of the two it replaces *)
  wf_merge : ∀ l r rank m, merge tk !! (l, r) = Some (rank, m) →
    ∃ tl tr, token_str tk l = Some tl ∧ token_str tk r = Some tr ∧ token_str tk m = Some (tl ++ tr);
  wf_added : ∀ tok id, (tok, id) ∈ added tk → token_str tk id = Some tok;
  wf_sorted : StronglySorted added_le (added tk);
}.

(** Added tokens that are not empty, and whose characters [decode] takes for
    the characters they are. *)
Definition literal_added (tk : Tokenizer) : Prop :=
  Forall (λ e, e.1 ≠ [] ∧ Forall scalar e.1 ∧ concat (char_bytes tk <$> e.1) = utf8 e.1) (added tk).
Definition nonempty_added (tk : Tokenizer) : Prop := Forall (λ e, e.1 ≠ []) (added tk).

(** ** Sorting *)

#[export] Instance added_le_total : Total added_le.
Proof.
  intros a b. unfold added_le.
  destruct (Z.lt_trichotomy (len (utf8 a.1)) (len (utf8 b.1))) as [H|[H|H]]; [right; by left| |left; by left].
  destruct (total str_le a.1 b.1); [left|right]; right; split; done.
Qed.

#[export] Instance added_le_trans : Transitive added_le.
Proof.
  intros a b c. unfold added_le. intros [H1|[H1 H1']] [H2|[H2 H2']]; [left; lia..|].
  right. split; [lia|]. by etrans.
Qed.

Lemma sort_added_sorted l : StronglySorted added_le (sort_added l).
Proof. apply Sorted_StronglySorted; [apply _|]. apply Sorted_sort_by. apply _. Qed.

Lemma sort_added_perm l : sort_added l ≡ₚ l.
Proof. apply sort_by_Permutation. Qed.

(** ** Bytes of ids *)

Lemma decode_bytes_app tk a b : decode_bytes tk (a ++ b) = decode_bytes tk a ++ decode_bytes tk b.
Proof. unfold decode_bytes. by rewrite fmap_app, concat_app. Qed.

Lemma decode_bytes_token tk id tok : token_str tk id = Some tok →
  decode_bytes tk [id] = concat (char_bytes tk <$> tok).
Proof. intros H. unfold decode_bytes. cbn. by rewrite H, app_nil_r. Qed.

Lemma decode_bytes_cons tk id ids : decode_bytes tk (id :: ids) = decode_bytes tk [id] ++ decode_bytes tk ids.
Proof. apply (decode_bytes_app tk [id]). Qed.

Section wf_lemmas.
Context (tk : Tokenizer) (Hwf : wf tk).

Lemma decode_bytes_byte b id : 0 ≤ b < 256 → byte_char_id tk !! Z.to_nat b = Some id →
  decode_bytes tk [id] = [b].
Proof.
  intros Hb Hid. rewrite (decode_bytes_token _ _ _ (wf_bytes _ Hwf _ _ Hb Hid)). cbn [fmap list_fmap concat].
  unfold char_bytes. rewrite (wf_table _ Hwf), (byte_to_char_spec _ Hb). done.
Qed.

Lemma decode_bytes_bytes piece syms : Forall (λ b, 0 ≤ b < 256) piece →
  mapM (λ b, byte_char_id tk !! Z.to_nat b) piece = Some syms → decode_bytes tk syms = piece.
Proof.
  intros Hp Hm. apply mapM_Some in Hm. induction Hm as [|b id piece syms Hid _ IH]; [done|].
  apply Forall_cons in Hp as [Hb Hp]. rewrite decode_bytes_cons, IH by done.
  by rewrite (decode_bytes_byte b id).
Qed.

Lemma merge_step_bytes s t : merge_step (merge tk) s t → decode_bytes tk s = decode_bytes tk t.
Proof.
  intros [pre a b post r m Hm _]. destruct (wf_merge _ Hwf _ _ _ _ Hm) as (tl & tr & Ha & Hb & Hc).
  rewrite !decode_bytes_app. f_equal. rewrite (decode_bytes_cons tk a), (decode_bytes_cons tk b), (decode_bytes_cons tk m), app_assoc.
  f_equal. rewrite (decode_bytes_token _ _ _ Ha), (decode_bytes_token _ _ _ Hb), (decode_bytes_token _ _ _ Hc).
  by rewrite fmap_app, concat_app.
Qed.

Lemma bpe_bytes piece : Forall (λ b, 0 ≤ b < 256) piece →
  ∃ out, bpe tk piece = Some out ∧ decode_bytes tk out = piece.
Proof.
  intros Hp. destruct (byte_ids_total _ _ (wf_bytes_length _ Hwf) Hp) as [syms Hs].
  destruct (bpe_spec_ids tk piece syms Hs) as (out & Ho & Hr & _). exists out. split; [done|].
  rewrite <- (decode_bytes_bytes piece syms Hp Hs). symmetry. clear Ho Hs.
  induction Hr as [|x y z Hxy _ IH]; [done|]. by rewrite (merge_step_bytes _ _ Hxy).
Qed.
End wf_lemmas.

Lemma mapM_compose {A B C} (f : B → option C) (g : A → B) l : mapM (λ x, f (g x)) l = mapM f (g <$> l).
Proof. induction l as [|x l IH]; [done|]. cbn. by rewrite IH. Qed.

(** [encode_plain] is BPE on the pieces. *)
Lemma encode_plain_pieces tk text :
  encode_plain tk text =
  @concat Z <$> mapM (λ p, bpe tk (utf8 p)) (pieces (length text) (marks_join_letters tk) text).
Proof.
  unfold encode_plain. cbn zeta. rewrite (mapM_compose (bpe tk) utf8), <- pretokenize_slices.
  by rewrite <- mapM_compose.
Qed.

Lemma pieces_scalar text marks : Forall scalar text →
  Forall (λ p, Forall scalar p) (pieces (length text) marks text).
Proof.
  intros Ht. destruct (pieces_concat marks (length text) text) as [Hc _]; [lia|].
  rewrite <- Hc in Ht. by apply Forall_concat in Ht.
Qed.

Lemma encode_plain_total tk text : length (byte_char_id tk) = 256%nat → Forall scalar text →
  ∃ ids, encode_plain tk text = Some ids.
Proof.
  intros Hl Ht. rewrite encode_plain_pieces.
  destruct (mapM (λ p, bpe tk (utf8 p)) _) as [o|] eqn:E; [by eexists|]. exfalso.
  apply mapM_None, Exists_exists in E as (p & Hp & E).
  pose proof (pieces_scalar text (marks_join_letters tk) Ht) as Hs. rewrite Forall_forall in Hs.
  destruct (byte_ids_total _ _ Hl (utf8_bytes p (Hs p Hp))) as [syms Hsy].
  destruct (bpe_spec_ids _ _ _ Hsy) as (out & Ho & _). congruence.
Qed.

Lemma encode_plain_bytes tk text ids : wf tk → Forall scalar text →
  encode_plain tk text = Some ids → decode_bytes tk ids = utf8 text.
Proof.
  intros Hwf Ht. rewrite encode_plain_pieces. intros (outs & Ho & ->)%fmap_Some.
  destruct (pieces_concat (marks_join_letters tk) (length text) text) as [Hc _]; [lia|].
  pose proof (pieces_scalar text (marks_join_letters tk) Ht) as Hs.
  trans (utf8 (concat (pieces (length text) (marks_join_letters tk) text))); [|by rewrite Hc].
  clear Hc. apply mapM_Some in Ho.
  induction Ho as [|p out ps outs Hp _ IH]; [done|]. apply Forall_cons in Hs as [Hp' Hs].
  cbn [concat]. rewrite decode_bytes_app, utf8_app, IH by done. f_equal.
  destruct (bpe_bytes tk Hwf (utf8 p) (utf8_bytes p Hp')) as (out' & Ho' & <-). congruence.
Qed.

(** ** Encoding is leftmost-longest segmentation *)

Inductive seg := Plain (p : rstr) | Special (tok : rstr) (id : Z).

Definition plain_seg (p : rstr) : list seg := match p with [] => [] | _ => [Plain p] end.

(** No added token starts at the head of [s]. *)
Definition no_hit (adds : list (rstr * Z)) (s : rstr) : Prop :=
  Forall (λ e, starts_with e.1 s = false) adds.

(** Text is cut at the leftmost added token, the longest one there, and so on;
    no token starts inside a plain stretch. *)
Inductive segmented (adds : list (rstr * Z)) : rstr → list seg → Prop :=
| seg_last p :
    (∀ i, (i < length p)%nat → no_hit adds (drop i p)) →
    segmented adds p (plain_seg p)
| seg_token p tok id rest segs :
    (∀ i, (i < length p)%nat → no_hit adds (drop i (p ++ tok ++ rest))) →
    (tok, id) ∈ adds →
    (∀ tok' id', (tok', id') ∈ adds → starts_with tok' (tok ++ rest) = true →
       len (utf8 tok') ≤ len (utf8 tok)) →
    segmented adds rest segs →
    segmented adds (p ++ tok ++ rest) (plain_seg p ++ Special tok id :: segs).

Definition encode_seg (tk : Tokenizer) (s : seg) : option (list Z) :=
  match s with Plain p => encode_plain tk p | Special _ id => Some [id] end.

Lemma flush_seg tk p : flush tk p = @concat Z <$> mapM (encode_seg tk) (plain_seg p).
Proof.
  destruct p as [|c p]; [done|]. unfold flush. cbn [plain_seg mapM encode_seg].
  destruct (encode_plain tk (c :: p)); [|done]. cbn. by rewrite app_nil_r.
Qed.

Lemma StronglySorted_split {A} (R : A → A → Prop) l i x j y : StronglySorted R l →
  l !! i = Some x → l !! j = Some y → (i < j)%nat → R x y.
Proof.
  intros Hs. revert i j. induction Hs as [|z l _ IH Hz]; intros i j; [done|].
  destruct i as [|i], j as [|j]; cbn; try lia.
  - intros [= ->] Hj _. rewrite Forall_forall in Hz. apply Hz. by eapply list_elem_of_lookup_2.
  - intros Hi Hj Hij. by apply (IH i j); [| |lia].
Qed.

Lemma hit_Some tk rest tok id : StronglySorted added_le (added tk) → hit tk rest = Some (tok, id) →
  (tok, id) ∈ added tk ∧ (∃ rest', rest = tok ++ rest')
  ∧ ∀ tok' id', (tok', id') ∈ added tk → starts_with tok' rest = true → len (utf8 tok') ≤ len (utf8 tok).
Proof.
  intros Hsort. unfold hit. intros ([i e] & Hf & Heq)%fmap_Some. cbn in Heq. subst e.
  apply list_find_Some in Hf as (Hi & Hp & Hmin). split; [by eapply list_elem_of_lookup_2|].
  split; [by apply starts_with_spec in Hp|]. intros tok' id' [j Hj]%list_elem_of_lookup Hs'.
  destruct (Nat.lt_trichotomy i j) as [Hij|[->|Hij]].
  - destruct (StronglySorted_split _ _ _ _ _ _ Hsort Hi Hj Hij) as [H|[H _]]; cbn [fst] in H; lia.
  - rewrite Hi in Hj. injection Hj as -> ->. lia.
  - by destruct (Hmin _ _ Hj Hij).
Qed.

Lemma hit_None tk rest : hit tk rest = None → no_hit (added tk) rest.
Proof.
  unfold hit. intros H%fmap_None. apply list_find_None in H.
  eapply Forall_impl; [exact H|]. intros e He. by apply not_true_is_false.
Qed.

Lemma encode_loop_segments tk : StronglySorted added_le (added tk) → nonempty_added tk →
  length (byte_char_id tk) = 256%nat →
  ∀ fuel plain rest out, (length rest ≤ fuel)%nat → Forall scalar (plain ++ rest) →
  (∀ i, (i < length plain)%nat → no_hit (added tk) (drop i (plain ++ rest))) →
  ∃ segs idss, segmented (added tk) (plain ++ rest) segs ∧ mapM (encode_seg tk) segs = Some idss
    ∧ encode_loop fuel tk plain rest out = Some (out ++ concat idss).
Proof.
  intros Hsort Hne Hl. induction fuel as [|fuel IH]; intros plain rest out Hf Hsc Hplain;
    (destruct rest as [|c rest]; [|try (cbn in Hf; lia)]).
  1,2: rewrite app_nil_r in Hsc, Hplain; rewrite app_nil_r; exists (plain_seg plain);
    cbn [encode_loop]; rewrite flush_seg;
    assert (∃ idss, mapM (encode_seg tk) (plain_seg plain) = Some idss) as [idss Hi]
      by (destruct plain as [|x plain]; [by eexists|]; destruct (encode_plain_total tk _ Hl Hsc) as [ids Hids];
          exists [ids]; cbn [plain_seg mapM encode_seg]; by rewrite Hids);
    exists idss; split; [by apply seg_last|]; split; [done|]; by rewrite Hi.
  cbn [encode_loop]. destruct (hit tk (c :: rest)) as [[tok id]|] eqn:E.
  - destruct (hit_Some _ _ _ _ Hsort E) as (Hin & [rest' Hr] & Hmax).
    rewrite Hr in Hplain, Hsc |- *. rewrite drop_app_length.
    assert (tok ≠ []) as Htok.
    { unfold nonempty_added in Hne. rewrite Forall_forall in Hne. exact (Hne _ Hin). }
    apply Forall_app in Hsc as [Hsc1 [_ Hsc2]%Forall_app].
    assert (∃ pids, mapM (encode_seg tk) (plain_seg plain) = Some pids) as [pids Hpids].
    { destruct plain as [|x plain]; [by eexists|]. destruct (encode_plain_total tk _ Hl Hsc1) as [ids Hids].
      exists [ids]. cbn [plain_seg mapM encode_seg]. by rewrite Hids. }
    destruct (IH [] rest' (out ++ concat pids ++ [id])) as (segs & idss & H1 & H2 & H3).
    { apply (f_equal length) in Hr. rewrite length_app in Hr. destruct tok; [done|]. cbn in Hr, Hf. lia. }
    { done. }
    { intros i Hi. by apply Nat.nlt_0_r in Hi. }
    cbn [app] in H1.
    rewrite flush_seg, Hpids. cbn [fmap option_fmap option_map mbind option_bind].
    exists (plain_seg plain ++ Special tok id :: segs), (pids ++ [id] :: idss).
    split; [|split].
    + apply seg_token; [exact Hplain|exact Hin| |exact H1]. rewrite <- Hr. exact Hmax.
    + apply mapM_Some. apply mapM_Some in Hpids, H2.
      apply Forall2_app; [done|]. by constructor.
    + rewrite H3, concat_app. cbn [concat app]. by rewrite <- !app_assoc.
  - destruct (IH (plain ++ [c]) rest out) as (segs & idss & H1 & H2 & H3).
    { cbn in Hf. lia. }
    { by rewrite <- app_assoc. }
    { intros i. rewrite length_app, <- app_assoc. cbn [length app]. intros Hi.
      destruct (decide (i = length plain)) as [->|]; [|apply Hplain; lia].
      rewrite drop_app_length. by apply hit_None. }
    rewrite <- app_assoc in H1. by exists segs, idss.
Qed.

Lemma decode_segments tk text segs idss : wf tk → literal_added tk → Forall scalar text →
  segmented (added tk) text segs → mapM (encode_seg tk) segs = Some idss →
  decode_bytes tk (concat idss) = utf8 text.
Proof.
  intros Hwf Hlit Hsc Hseg. revert idss.
  assert (∀ p pids, Forall scalar p → mapM (encode_seg tk) (plain_seg p) = Some pids →
    decode_bytes tk (concat pids) = utf8 p) as Hp.
  { intros [|c p] pids Hs; cbn [plain_seg mapM encode_seg]; [by intros [= <-]|].
    destruct (encode_plain tk (c :: p)) as [ids|] eqn:E; [|done]. cbn [mbind option_bind]. intros [= <-].
    cbn [concat]. rewrite app_nil_r. by apply encode_plain_bytes. }
  induction Hseg as [p _|p tok id rest segs _ Hin _ _ IH]; intros idss; [by apply Hp|].
  rewrite app_assoc, Forall_app, Forall_app in Hsc. destruct Hsc as [[Hs1 Hs2] Hs3].
  intros Hm. apply mapM_Some, Forall2_app_inv_l in Hm as (pids & k & Hpids & Hk & ->).
  apply Forall2_cons_inv_l in Hk as (ids & idss & [= <-] & Hrest & ->).
  rewrite concat_app. cbn [concat]. rewrite !decode_bytes_app, !utf8_app.
  rewrite (Hp p pids Hs1 (proj2 (mapM_Some _ _ _) Hpids)). f_equal. f_equal.
  - rewrite (decode_bytes_token _ _ _ (wf_added _ Hwf _ _ Hin)).
    unfold literal_added in Hlit. rewrite Forall_forall in Hlit. apply (Hlit _ Hin).
  - apply IH; [done|]. by apply mapM_Some.
Qed.

Lemma literal_nonempty tk : literal_added tk → nonempty_added tk.
Proof. intros H. eapply Forall_impl; [exact H|]. by intros e [? _]. Qed.

Lemma encode_spec tk text : StronglySorted added_le (added tk) → nonempty_added tk →
  length (byte_char_id tk) = 256%nat → Forall scalar text →
  ∃ t segs idss, nfc text = Some t ∧ Forall scalar t ∧ segmented (added tk) t segs
    ∧ mapM (encode_seg tk) segs = Some idss ∧ encode tk text = Some (concat idss).
Proof.
  intros Hsort Hne Hl Hs. destruct (nfc_total text Hs) as (t & Ht & Hts & _).
  destruct (encode_loop_segments tk Hsort Hne Hl (length t) [] t []) as (segs & idss & H1 & H2 & H3);
    [lia|done|intros i Hi; by apply Nat.nlt_0_r in Hi|].
  exists t, segs, idss. split; [done|]. split; [done|]. split; [done|]. split; [done|].
  unfold encode. rewrite Ht. exact H3.
Qed.

(** ** Loading establishes the invariant *)

(** No id is used for two different tokens. *)
Definition ids_agree (l : list (rstr * Z)) : Prop :=
  ∀ t1 t2 i, (t1, i) ∈ l → (t2, i) ∈ l → t1 = t2.

(** The vectors [id_to_token] and [have] describe exactly the tokens [l]. *)
Definition filled (l : list (rstr * Z)) (s : list rstr * list bool) : Prop :=
  length s.1 = length s.2
  ∧ (∀ t i, (t, i) ∈ l → s.1 !! Z.to_nat i = Some t ∧ s.2 !! Z.to_nat i = Some true)
  ∧ (∀ k, s.2 !! k = Some true → ∃ t, (t, Z.of_nat k) ∈ l).

Lemma vec_set_Ok {A} (l : list A) i x l' : vec_set l i x = Ok l' ↔ 0 ≤ i < len l ∧ l' = <[Z.to_nat i := x]> l.
Proof. unfold vec_set. case_decide; naive_solver. Qed.

Lemma filled_set l e toks have toks' have' : ids_agree (l ++ [e]) → Forall (λ e, 0 ≤ e.2) (l ++ [e]) →
  filled l (toks, have) →
  vec_set toks e.2 e.1 = Ok toks' → vec_set have e.2 true = Ok have' →
  filled (l ++ [e]) (toks', have').
Proof.
  intros Hag Hpos (Hl & H1 & H2) [Hb ->]%vec_set_Ok [Hb' ->]%vec_set_Ok. unfold len in *. cbn [fst snd] in *.
  unfold filled. cbn [fst snd]. split; [by rewrite !length_insert|]. split.
  - intros t i Hin. destruct (decide (Z.to_nat i = Z.to_nat e.2)) as [Hi|Hi].
    + rewrite Hi. rewrite !list_lookup_insert_eq by lia. split; [|done]. f_equal.
      rewrite Forall_forall in Hpos. pose proof (Hpos _ Hin) as Hp. cbn in Hp.
      apply (Hag _ _ e.2); [apply elem_of_app; right; destruct e; left|].
      by replace e.2 with i by lia.
    + rewrite !list_lookup_insert_ne by done. apply elem_of_app in Hin as [Hin|Hin]; [by apply H1|].
      apply list_elem_of_singleton in Hin. by subst e.
  - intros k. destruct (decide (k = Z.to_nat e.2)) as [->|Hk].
    + intros _. exists e.1. rewrite Z2Nat.id by lia. apply elem_of_app. right. destruct e. left.
    + rewrite list_lookup_insert_ne by done. intros [t Ht]%H2. exists t. set_solver.
Qed.

Lemma foldl_err {A B} (f : result LoadError A → B → result LoadError A) l e :
  (∀ e b, f (Err e) b = Err e) → foldl f (Err e) l = Err e.
Proof. intros H. induction l as [|b l IH]; [done|]. cbn. by rewrite H. Qed.

Lemma ids_agree_prefix l k : ids_agree (l ++ k) → ids_agree l.
Proof. intros H t1 t2 i Ha Hb. apply (H t1 t2 i); set_solver. Qed.

Lemma fill_vocab_filled ents : ∀ l s s', ids_agree (l ++ ents) → Forall (λ e, 0 ≤ e.2) (l ++ ents) →
  filled l s → fill_vocab ents s = Ok s' → filled (l ++ ents) s'.
Proof.
  induction ents as [|e ents IH]; intros l s s' Hag Hpos Hf; unfold fill_vocab; cbn [foldl].
  { intros [= <-]. by rewrite app_nil_r. }
  destruct s as [toks have]. cbn [mbind result_bind].
  rewrite (cons_middle e l ents), app_assoc in Hag, Hpos |- *.
  destruct (vec_set toks e.2 e.1) as [toks'|] eqn:E1; cbn [mbind result_bind];
    [|by rewrite foldl_err].
  destruct (vec_set have e.2 true) as [have'|] eqn:E2; cbn [mbind result_bind];
    [|by rewrite foldl_err].
  apply IH; [done..|]. apply (filled_set l e toks have); [by eapply ids_agree_prefix| |done..].
  by apply Forall_app in Hpos as [? _].
Qed.

Lemma fill_added_filled ents : ∀ l s s', ids_agree (l ++ ents) → Forall (λ e, 0 ≤ e.2) (l ++ ents) →
  filled l s → fill_added ents s = Ok s' → filled (l ++ ents) s'.
Proof.
  induction ents as [|e ents IH]; intros l s s' Hag Hpos Hf; unfold fill_added; cbn [foldl].
  { intros [= <-]. by rewrite app_nil_r. }
  destruct s as [toks have]. cbn [mbind result_bind].
  rewrite (cons_middle e l ents), app_assoc in Hag, Hpos |- *.
  destruct (have !! Z.to_nat e.2) as [taken|] eqn:E0; cbn [ok_or mbind result_bind];
    [|by rewrite foldl_err].
  pose proof (proj1 (proj1 (Forall_app _ _ _) Hpos)) as Hpos1.
  pose proof (ids_agree_prefix _ _ Hag) as Hag1.
  destruct taken.
  - apply IH; [done..|]. destruct Hf as (Hl & H1 & H2). split; [done|].
    destruct (H2 _ E0) as [t Ht].
    assert (0 ≤ e.2) as He by (rewrite Forall_forall in Hpos1; apply Hpos1; set_solver).
    rewrite Z2Nat.id in Ht by done.
    assert (e = (t, e.2)) as He'.
    { rewrite (surjective_pairing e) at 1. f_equal. apply (Hag1 _ _ e.2); [|set_solver].
      rewrite <- surjective_pairing. set_solver. }
    split.
    + intros t' i [Hin|Hin%list_elem_of_singleton]%elem_of_app; [by apply H1|].
      rewrite He' in Hin. injection Hin as -> ->. by apply H1.
    + intros k [t' Hk]%H2. exists t'. set_solver.
  - destruct (vec_set toks e.2 e.1) as [toks'|] eqn:E1; cbn [mbind result_bind];
      [|by rewrite foldl_err].
    destruct (vec_set have e.2 true) as [have'|] eqn:E2; cbn [mbind result_bind];
      [|by rewrite foldl_err].
    apply IH; [done..|]. by apply (filled_set l e toks have).
Qed.

Lemma filled_nil n : filled [] (replicate n [], replicate n false).
Proof.
  unfold filled. cbn [fst snd]. split; [by rewrite !length_replicate|]. split; [set_solver|]. intros k Hk.
  apply lookup_replicate in Hk as [? _]. done.
Qed.

Lemma foldl_insert_lookup `{Countable K} {V} (l : list (K * V)) : ∀ (m : gmap K V) k v,
  foldl (λ m e, <[e.1 := e.2]> m) m l !! k = Some v → m !! k = Some v ∨ (k, v) ∈ l.
Proof.
  induction l as [|[k0 v0] l IH]; intros m k v; cbn [foldl fst snd]; [by left|].
  intros [Hm|Hin]%IH; [|right; by right].
  apply lookup_insert_Some in Hm as [[-> ->]|[_ Hm]]; [right; left|by left].
Qed.

Lemma byte_ids_spec (vocab : gmap rstr Z) : ∀ chs ids0 n0 ids n,
  foldl (λ '(ids, missing) ch, match vocab !! [ch] with
      | Some id => (ids ++ [id], missing) | None => (ids ++ [0], missing + 1) end)
    (ids0, n0) chs = (ids, n) →
  n0 ≤ n ∧ (n ≤ n0 → ∃ k, ids = ids0 ++ k ∧ Forall2 (λ ch id, vocab !! [ch : Z] = Some id) chs k).
Proof.
  induction chs as [|ch chs IH]; intros ids0 n0 ids n; cbn [foldl].
  { intros [= <- <-]. split; [lia|]. exists []. split; [by rewrite app_nil_r|done]. }
  destruct (vocab !! [ch]) as [id|] eqn:E.
  - intros [Hn Hk]%IH. split; [done|]. intros (k & -> & Hf)%Hk. exists (id :: k).
    rewrite <- app_assoc. split; [done|]. by constructor.
  - intros [Hn _]%IH. split; lia.
Qed.

(** The ids of a tokenizer.json, as [u32]: the vocabulary's and the added ones. *)
Section doc_ids.
Context {J : Type} `{SerdeJson J}.

Definition doc_vocab (doc : J) : list (rstr * Z) :=
  default [] (m ← get doc (lit "model"); v ← get m (lit "vocab"); kv ← as_object v;
    match try_map vocab_entry kv with Ok ents => Some (narrow <$> ents) | Err _ => None end).
Definition doc_added (doc : J) : list (rstr * Z) :=
  default [] (v ← get doc (lit "added_tokens"); l ← as_array v;
    match try_map added_entry l with Ok ents => Some (narrow <$> ents) | Err _ => None end).

Lemma narrow_nonneg l : Forall (λ e : rstr * Z, 0 ≤ e.2) (narrow <$> l).
Proof.
  apply Forall_fmap, Forall_true. intros e. cbn. unfold wrap32. apply Z.mod_pos_bound. done.
Qed.

Lemma doc_vocab_nonneg doc : Forall (λ e : rstr * Z, 0 ≤ e.2) (doc_vocab doc).
Proof.
  unfold doc_vocab. destruct (get doc (lit "model")) as [m|]; [|constructor]. cbn [mbind option_bind].
  destruct (get m (lit "vocab")) as [v|]; [|constructor]. cbn [mbind option_bind].
  destruct (as_object v) as [kv|]; [|constructor]. cbn [mbind option_bind].
  destruct (try_map vocab_entry kv); [apply narrow_nonneg|constructor].
Qed.

Lemma doc_added_nonneg doc : Forall (λ e : rstr * Z, 0 ≤ e.2) (doc_added doc).
Proof.
  unfold doc_added. destruct (get doc (lit "added_tokens")) as [v|]; [|constructor]. cbn [mbind option_bind].
  destruct (as_array v) as [l|]; [|constructor]. cbn [mbind option_bind].
  destruct (try_map added_entry l); [apply narrow_nonneg|constructor].
Qed.

(** The loader's intermediate values, for a document it accepts. *)
Lemma from_doc_parts to_string iter doc tk info : from_doc to_string iter doc = Ok (tk, info) →
  ∃ s s' ids n mergeds ranked,
    let vocab := build_vocab (doc_vocab doc) in
    fill_vocab (iter vocab) (replicate n [], replicate n false) = Ok s
    ∧ fill_added (sort_added (doc_added doc)) s = Ok s'
    ∧ byte_ids vocab = (ids, 0) ∧ try_map (merge_entry vocab) ranked = Ok mergeds
    ∧ tk = mkTokenizer ids s'.1 (build_merge mergeds) (sort_added (doc_added doc))
             char_to_byte_table (marks_join_letters tk).
Proof.
  unfold from_doc. intros Hok.
  apply bind_Ok in Hok as (model & Hmodel%ok_or_Ok & Hok). cbn zeta in Hok.
  case_decide as H1; [done|].
  destruct (default false _) eqn:H2 in Hok; [done|].
  destruct (v ← get model (lit "unk_token"); as_str v) in Hok; [done|].
  apply bind_Ok in Hok as (vo & Hvo%ok_or_Ok & Hok). apply bind_Ok in Hok as (ents & He & Hok).
  apply bind_Ok in Hok as (adds & Ha & Hok). cbn zeta in Hok.
  assert (doc_vocab doc = narrow <$> ents) as Hdv.
  { unfold doc_vocab. rewrite Hmodel. cbn [mbind option_bind].
    destruct (get model (lit "vocab")) as [v|]; [|done]. cbn [mbind option_bind] in *.
    rewrite Hvo. cbn [mbind option_bind]. by rewrite He. }
  assert (doc_added doc = narrow <$> adds) as Hda.
  { unfold doc_added. destruct (get doc (lit "added_tokens")) as [v|]; cbn [mbind option_bind default] in *;
      [|injection Ha as <-; done].
    destruct (as_array v) as [l|]; cbn [mbind option_bind default] in *; [|injection Ha as <-; done].
    unfold Datatypes.id in Ha. by rewrite Ha. }
  rewrite <- Hdv, <- Hda in Hok.
  apply bind_Ok in Hok as (s & Hs & Hok). apply bind_Ok in Hok as ([toks have] & Hs' & Hok).
  destruct (byte_ids _) as [ids missing] eqn:Hids in Hok. case_decide as Hm; [done|].
  apply bind_Ok in Hok as (marr & _ & Hok). apply bind_Ok in Hok as (mergeds & Hmer & Hok).
  apply bind_Ok in Hok as ([[regex marks] dtype] & _ & Hok). injection Hok as <- <-.
  assert (missing = 0) as ->.
  { unfold byte_ids in Hids. apply byte_ids_spec in Hids as [? _]. lia. }
  eexists s, (toks, have), ids, _, mergeds, _. cbn zeta. split; [exact Hs|]. split; [exact Hs'|].
  split; [exact Hids|]. split; [exact Hmer|]. done.
Qed.
End doc_ids.

Lemma byte_to_char_lookup b : 0 ≤ b < 256 → byte_to_char_table !! Z.to_nat b = Some (byte_to_char b).
Proof.
  intros Hb. destruct (lookup_lt_is_Some_2 byte_to_char_table (Z.to_nat b)) as [c Hc].
  { rewrite byte_table_length. lia. }
  rewrite Hc. unfold byte_to_char. f_equal. symmetry. by apply nth_lookup_Some.
Qed.

Lemma build_vocab_lookup ents t i : build_vocab ents !! t = Some i → (t, i) ∈ ents.
Proof. intros [H|H]%foldl_insert_lookup; [by rewrite lookup_empty in H|done]. Qed.

Section load_wf.
Context {J : Type} `{SerdeJson J}.
Context (to_string : J → rstr) (iter : gmap rstr Z → list (rstr * Z)).
Context (Hiter : ∀ m, iter m ≡ₚ map_to_list m).

(** Every token of the document ends up under its id. *)
Lemma loaded_tokens doc s s' n :
  ids_agree (doc_vocab doc ++ doc_added doc) →
  let vocab := build_vocab (doc_vocab doc) in
  fill_vocab (iter vocab) (replicate n [], replicate n false) = Ok s →
  fill_added (sort_added (doc_added doc)) s = Ok s' →
  (∀ t i, vocab !! t = Some i → s'.1 !! Z.to_nat i = Some t)
  ∧ (∀ t i, (t, i) ∈ doc_added doc → s'.1 !! Z.to_nat i = Some t).
Proof.
  intros Hag vocab Hs Hs'.
  assert (∀ t i, (t, i) ∈ iter vocab ↔ vocab !! t = Some i) as Hel.
  { intros t i. by rewrite (Hiter vocab), elem_of_map_to_list. }
  assert (∀ e, e ∈ iter vocab ++ sort_added (doc_added doc) → e ∈ doc_vocab doc ++ doc_added doc) as Hsub.
  { intros [t i]. rewrite !elem_of_app, sort_added_perm, Hel. intros [?%build_vocab_lookup|?]; by auto. }
  assert (ids_agree (iter vocab ++ sort_added (doc_added doc))) as Hag'.
  { intros t1 t2 i Ha%Hsub Hb%Hsub. by eapply Hag. }
  assert (Forall (λ e : rstr * Z, 0 ≤ e.2) (doc_vocab doc ++ doc_added doc)) as Hpos.
  { apply Forall_app. split; [apply doc_vocab_nonneg|apply doc_added_nonneg]. }
  assert (Forall (λ e : rstr * Z, 0 ≤ e.2) (iter vocab ++ sort_added (doc_added doc))) as Hpos'.
  { rewrite Forall_forall in *. intros e He%Hsub. by apply Hpos. }
  apply (fill_vocab_filled _ []) in Hs;
    [|by eapply ids_agree_prefix|by apply Forall_app in Hpos' as [? _]|apply filled_nil].
  apply (fill_added_filled _ (iter vocab)) in Hs'; [|done..|exact Hs].
  destruct Hs' as (_ & Hf & _). split; intros t i Hin; apply (Hf t i), elem_of_app.
  - left. by apply Hel.
  - right. by rewrite sort_added_perm.
Qed.

Lemma from_doc_wf_lemma doc tk info : ids_agree (doc_vocab doc ++ doc_added doc) →
  from_doc to_string iter doc = Ok (tk, info) → wf tk.
Proof.
  intros Hag Hok. destruct (from_doc_parts _ _ _ _ _ Hok) as (s & s' & ids & n & mergeds & ranked & Hp).
  cbn zeta in Hp. destruct Hp as (Hs & Hs' & Hids & Hmer & ->).
  destruct (loaded_tokens doc s s' n Hag Hs Hs') as [Hv Ha].
  unfold byte_ids in Hids. destruct (byte_ids_spec _ _ _ _ _ _ Hids) as [_ (k & -> & Hk)]; [lia|].
  clear Hids. cbn [app] in *. split; cbn [char_to_byte byte_char_id merge added]; unfold token_str;
    cbn [id_to_token].
  - done.
  - rewrite <- (Forall2_length _ _ _ Hk). apply byte_table_length.
  - intros b id Hb Hid. apply Hv.
    by apply (Forall2_lookup_lr _ _ _ _ _ _ Hk (byte_to_char_lookup b Hb)).
  - intros l r rank m [Hm|Hin]%foldl_insert_lookup; [by rewrite lookup_empty in Hm|].
    apply try_map_Ok in Hmer. apply list_elem_of_lookup in Hin as [i Hi].
    destruct (Forall2_lookup_r _ _ _ _ _ Hmer Hi) as ([rk j] & _ & He).
    unfold merge_entry in He. cbn [fst snd] in He.
    apply bind_Ok in He as ([tl tr] & _ & He). apply bind_Ok in He as (li & Hl%ok_or_Ok & He).
    apply bind_Ok in He as (ri & Hr%ok_or_Ok & He). apply bind_Ok in He as (mi & Hmi%ok_or_Ok & He).
    injection He as <- <- <- <-. exists tl, tr. by auto.
  - intros tok id. rewrite sort_added_perm. apply Ha.
  - apply sort_added_sorted.
Qed.
End load_wf.

(** ** Absorbing the configuration's tokens *)

(** What [absorb_one] maintains between the start [(toks0, adds0, 0)] and the
    state after the tokens [extra]: [new] are the tokens taken. *)
Definition absorbed (toks0 : list rstr) (adds0 extra : list (rstr * Z))
    (s : list rstr * list (rstr * Z) * Z) (new : list (rstr * Z)) : Prop :=
  s.1.2 = adds0 ++ new ∧ s.2 = len new ∧ NoDup new.*1
  ∧ Forall (λ e, (e.1 ∉ adds0.*1) ∧ e ∈ extra) new
  ∧ (∀ e, e ∈ extra → e.1 ∈ s.1.2.*1)
  ∧ (∀ k t, toks0 !! k = Some t → t ≠ [] → s.1.1 !! k = Some t)
  ∧ (∀ k t, s.1.1 !! k = Some t → t ≠ [] →
       toks0 !! k = Some t ∨ ∃ id, (t, id) ∈ new ∧ Z.to_nat id = k)
  ∧ Forall (λ e, e.1 ≠ [] → ∃ t, s.1.1 !! Z.to_nat e.2 = Some t ∧ t ≠ []) new.

(** The vector after one token: non-empty strings stay, and the slot of the
    token is no longer empty. *)
Lemma absorb_slot (toks : list rstr) (e : rstr * Z) :
  let i := Z.to_nat e.2 in
  let toks1 := if decide (length toks ≤ i)%nat then resize (S i) [] toks else toks in
  let toks2 := match toks1 !! i with Some [] => <[i := e.1]> toks1 | _ => toks1 end in
  (∀ k t, toks !! k = Some t → t ≠ [] → toks2 !! k = Some t)
  ∧ (∀ k t, toks2 !! k = Some t → t ≠ [] → toks !! k = Some t ∨ (t = e.1 ∧ i = k))
  ∧ (e.1 ≠ [] → ∃ t, toks2 !! i = Some t ∧ t ≠ []).
Proof.
  cbn zeta. set (i := Z.to_nat e.2).
  set (toks1 := if decide (length toks ≤ i)%nat then resize (S i) [] toks else toks).
  assert ((i < length toks1)%nat ∧ (∀ k t, toks !! k = Some t → toks1 !! k = Some t)
    ∧ ∀ k t, toks1 !! k = Some t → t ≠ [] → toks !! k = Some t) as (Hl & H1 & H1').
  { subst toks1. case_decide as Hd; [|split; [lia|by auto]].
    rewrite length_resize, resize_ge by lia. split; [lia|]. split.
    - intros. by apply lookup_app_l_Some.
    - intros k t [Hk|[_ Hk]]%lookup_app_Some; [done|]. apply lookup_replicate in Hk as [-> _]. done. }
  destruct (lookup_lt_is_Some_2 _ _ Hl) as [t0 Hi]. rewrite Hi. destruct t0 as [|c s].
  - split; [|split].
    + intros k t Hk Ht. rewrite list_lookup_insert_ne; [by auto|]. intros <-.
      apply H1 in Hk. rewrite Hi in Hk. by injection Hk as <-.
    + intros k t Hk Ht. apply list_lookup_insert_Some in Hk as [(<- & <- & _)|[_ Hk]]; [by right|].
      left. by apply H1'.
    + intros He. exists e.1. split; [|done]. by apply list_lookup_insert_eq.
  - split; [by auto|]. split; [by auto|]. intros _. by exists (c :: s).
Qed.

Lemma absorb_loop toks0 adds0 extra : ∀ done s new, absorbed toks0 adds0 done s new →
  ∃ new', absorbed toks0 adds0 (done ++ extra) (foldl absorb_one s extra) new'.
Proof.
  induction extra as [|e extra IH]; intros done s new Hs; cbn [foldl]; [exists new; by rewrite app_nil_r|].
  rewrite (cons_middle e done extra), app_assoc. destruct s as [[toks adds] n].
  destruct Hs as (Hadds & Hn & Hnd & Hnew & H4 & H5 & H6 & H7). cbn [fst snd] in *. subst adds n.
  assert (Forall (λ x, (x.1 ∉ adds0.*1) ∧ x ∈ done ++ [e]) new) as Hnew'.
  { eapply Forall_impl; [exact Hnew|]. intros x [? ?]. split; [done|]. apply elem_of_app. by left. }
  cbn [absorb_one]. case_decide as Hin.
  - apply (IH (done ++ [e]) _ new). split; [done|]. split; [done|]. split; [done|]. split; [done|].
    split; [|done]. intros x [Hx|Hx%list_elem_of_singleton]%elem_of_app; [by apply H4|by subst].
  - cbn zeta. destruct (absorb_slot toks e) as (Hk & Hk' & Hne). cbn zeta in Hk, Hk', Hne.
    apply (IH (done ++ [e]) _ (new ++ [e])). unfold absorbed. cbn [fst snd].
    rewrite fmap_app, not_elem_of_app in Hin. rewrite <- app_assoc. split; [done|].
    split; [by rewrite len_app, len_cons, len_nil; lia|]. rewrite fmap_app. split; [|split; [|split; [|split; [|split]]]].
    + apply NoDup_app. split; [done|]. split; [|apply NoDup_singleton].
      intros x Hx Hx'%list_elem_of_singleton. subst x. by apply Hin.
    + apply Forall_app. split; [done|]. apply Forall_singleton. split; [apply Hin|]. set_solver.
    + intros x Hx. apply elem_of_app in Hx as [Hx%H4|Hx%list_elem_of_singleton];
        rewrite !fmap_app in *; [set_solver|]. subst. set_solver.
    + by eauto.
    + intros k t Hkt Ht. destruct (Hk' k t Hkt Ht) as [Ho|[-> <-]].
      * destruct (H6 k t Ho Ht) as [?|(id & ? & ?)]; [by left|]. right. exists id. set_solver.
      * right. exists e.2. rewrite <- surjective_pairing. set_solver.
    + apply Forall_app. split; [|by apply Forall_singleton].
      eapply Forall_impl; [exact H7|]. intros x Hx [t [Ht Ht']]%Hx. exists t. by auto.
Qed.

(** ** Properties *)

(** C5. Encoding is leftmost-longest segmentation: for every text of scalar
    values it terminates, and the ids are those of the cuts of the normalised
    text at the leftmost and longest added tokens, each plain stretch in between
    going through the pre-tokenizer and BPE.  The added tokens must be sorted
    longest first, as loading leaves them, and none of them empty
    ([nonempty_added]): the loader accepts an empty one, and encoding then need
    not return ([TokenizerWitness.encode_empty_token_diverges]). *)
Theorem encode_segments (tk : Tokenizer) (text : rstr)
    (Hsort : StronglySorted added_le (added tk)) (Hne : nonempty_added tk)
    (Hids : length (byte_char_id tk) = 256%nat) (Hs : Forall scalar text) :
  ∃ t segs idss, nfc text = Some t ∧ segmented (added tk) t segs
    ∧ mapM (encode_seg tk) segs = Some idss ∧ encode tk text = Some (concat idss).
Proof.
  destruct (encode_spec tk text Hsort Hne Hids Hs) as (t & segs & idss & H1 & _ & H2 & H3 & H4).
  by exists t, segs, idss.
Qed.

(** *** The ids that come out *)

(** Every id the tokenizer can produce satisfies [P]. *)
Record produces (P : Z → Prop) (tk : Tokenizer) : Prop := {
  pr_bytes : Forall P (byte_char_id tk);
  pr_merge : ∀ pair rank m, merge tk !! pair = Some (rank, m) → P m;
  pr_added : ∀ tok id, (tok, id) ∈ added tk → P id;
}.

Lemma bpe_loop_Forall P tk : produces P tk → ∀ fuel syms ids, Forall P syms →
  bpe_loop fuel (merge tk) syms = Some ids → Forall P ids.
Proof.
  intros Hp. induction fuel as [|fuel IH]; intros syms ids Hs; cbn [bpe_loop]; [done|].
  destruct (best_pair _ _ _ _) as [[rank i]|]; [|by intros [= <-]].
  intros (a & _ & (b & _ & ([r m] & Hm & H)%bind_Some)%bind_Some)%bind_Some.
  eapply IH; [|exact H]. apply Forall_delete, Forall_insert; [done|]. by eapply pr_merge.
Qed.

Lemma bpe_Forall P tk piece ids : produces P tk → bpe tk piece = Some ids → Forall P ids.
Proof.
  intros Hp. unfold bpe. intros (syms & Hs & H)%bind_Some.
  assert (Forall P syms) as Hf.
  { apply mapM_Some in Hs. eapply Forall2_Forall_r; [exact Hs|]. apply Forall_true. intros b id Hb.
    eapply Forall_lookup_1; [apply (pr_bytes _ _ Hp)|exact Hb]. }
  case_decide; [by injection H as <-|]. by eapply bpe_loop_Forall.
Qed.

Lemma flush_Forall P tk plain ids : produces P tk → flush tk plain = Some ids → Forall P ids.
Proof.
  intros Hp. unfold flush. destruct plain; [by intros [= <-]|]. unfold encode_plain.
  intros (idss & H & ->)%fmap_Some. apply Forall_concat. apply mapM_Some in H.
  eapply Forall2_Forall_r; [exact H|]. apply Forall_true. intros r l Hl. by eapply bpe_Forall.
Qed.

Lemma encode_loop_Forall P tk : produces P tk → ∀ fuel plain rest out ids, Forall P out →
  encode_loop fuel tk plain rest out = Some ids → Forall P ids.
Proof.
  intros Hp. induction fuel as [|fuel IH]; intros plain [|c rest] out ids Ho; cbn [encode_loop]; try done.
  1,2: intros (l & Hl & [= <-])%bind_Some; apply Forall_app; split; [done|by eapply flush_Forall].
  destruct (hit tk (c :: rest)) as [[tok id]|] eqn:Eh; [|by apply IH].
  intros (l & Hl & H)%bind_Some. eapply IH; [|exact H].
  repeat (apply Forall_app; split); [done|by eapply flush_Forall|]. apply Forall_singleton.
  unfold hit in Eh. apply fmap_Some in Eh as ([i e] & He & Heq). apply list_find_Some in He as (He & _ & _).
  cbn in Heq. subst e. eapply (pr_added _ _ Hp tok). by eapply list_elem_of_lookup_2.
Qed.

Lemma encode_Forall P tk text ids : produces P tk → encode tk text = Some ids → Forall P ids.
Proof.
  intros Hp (t & _ & H)%bind_Some. eapply encode_loop_Forall; [exact Hp| |exact H]. constructor.
Qed.

(** The ids depend on the text's normal form only. *)
Lemma encode_nfc tk s s' : nfc s = nfc s' → encode tk s = encode tk s'.
Proof. intros H. unfold encode. by rewrite H. Qed.

Lemma decode_encode_both (tk : Tokenizer) (text : rstr) :
  wf tk → literal_added tk → Forall scalar text →
  ∃ ids t, encode tk text = Some ids ∧ nfc text = Some t ∧ decode tk ids = t ∧ encode tk t = Some ids.
Proof.
  intros Hwf Hlit Hs.
  destruct (encode_spec tk text (wf_sorted _ Hwf) (literal_nonempty _ Hlit) (wf_bytes_length _ Hwf) Hs)
    as (t & segs & idss & Ht & Hts & Hseg & Hm & He).
  exists (concat idss), t. split; [done|]. split; [done|]. split.
  - unfold decode. rewrite (decode_segments tk t segs idss Hwf Hlit Hts Hseg Hm). by apply from_utf8_lossy_utf8.
  - rewrite <- He. apply encode_nfc. rewrite Ht. by apply (nfc_idem text).
Qed.

(** A text that is not empty has ids. *)
Lemma encode_nonempty tk text : wf tk → literal_added tk → Forall scalar text → text ≠ [] →
  ∃ ids, encode tk text = Some ids ∧ ids ≠ [].
Proof.
  intros Hwf Hlit Hs Hne. destruct (decode_encode_both tk text Hwf Hlit Hs) as (ids & t & He & Hn & Hd & _).
  exists ids. split; [done|]. intros ->. subst t. apply Hne, nfc_nil; [done|]. by rewrite Hn.
Qed.

(** C4. Encoding loses nothing but the normalisation: decoding the ids of a
    text of scalar values gives back its normal form, and encoding that form
    again gives the same ids.  Besides the loader's invariant the tokenizer's
    added tokens must not be empty and must decode as the characters they are
    ([literal_added]); a loaded tokenizer without either breaks the property
    ([TokenizerWitness.encode_empty_token_diverges],
    [TokenizerWitness.decode_added_latin1]). *)
Theorem decode_encode (tk : Tokenizer) (text : rstr) (Hwf : wf tk) (Hlit : literal_added tk)
    (Hs : Forall scalar text) :
  ∃ ids t, encode tk text = Some ids ∧ nfc text = Some t ∧ decode tk ids = t ∧ encode tk t = Some ids.
Proof. by apply decode_encode_both. Qed.

(** C34. Loading establishes the tokenizer's invariant, whatever the iteration
    order of the vocabulary's hash map, when no id names two tokens: each of
    the 256 bytes has its id, merges concatenate tokens, each added token is
    found under its id, longest first. *)
Theorem from_doc_wf {J} `{SerdeJson J} (to_string : J → rstr) (iter : gmap rstr Z → list (rstr * Z))
    (doc : J) (tk : Tokenizer) (info : TokenizerInfo)
    (Hiter : ∀ m, iter m ≡ₚ map_to_list m)
    (Hag : ids_agree (doc_vocab doc ++ doc_added doc))
    (Hok : from_doc to_string iter doc = Ok (tk, info)) : wf tk.
Proof. by eapply from_doc_wf_lemma. Qed.

(** Absorbing the configuration's tokens: the tokens taken are the unknown
    ones, once each, and are counted; every extra token is known afterwards;
    non-empty strings are never overwritten, and every non-empty string comes
    from before or from a token taken; the longest-first order is restored. *)
Theorem absorb_added_tokens_spec (tk : Tokenizer) (extra : list (rstr * Z)) :
  let '(tk', n) := absorb_added_tokens tk extra in
  ∃ new, added tk' ≡ₚ added tk ++ new ∧ n = len new ∧ NoDup new.*1
    ∧ Forall (λ e, (e.1 ∉ (added tk).*1) ∧ e ∈ extra) new
    ∧ (∀ e, e ∈ extra → e.1 ∈ (added tk').*1)
    ∧ (∀ k t, id_to_token tk !! k = Some t → t ≠ [] → id_to_token tk' !! k = Some t)
    ∧ (∀ k t, id_to_token tk' !! k = Some t → t ≠ [] →
         id_to_token tk !! k = Some t ∨ ∃ id, (t, id) ∈ new ∧ Z.to_nat id = k)
    ∧ Forall (λ e, e.1 ≠ [] → ∃ t, token_str tk' e.2 = Some t ∧ t ≠ []) new
    ∧ StronglySorted added_le (added tk').
Proof.
  unfold absorb_added_tokens.
  destruct (absorb_loop (id_to_token tk) (added tk) extra [] (id_to_token tk, added tk, 0) []) as [new Hnew].
  { unfold absorbed. cbn [fst snd]. rewrite app_nil_r. split; [done|]. split; [done|].
    split; [constructor|]. split; [constructor|]. split; [set_solver|]. split; [done|].
    split; [by left|constructor]. }
  destruct (foldl absorb_one _ extra) as [[toks adds] n] eqn:E. cbn [app] in Hnew.
  destruct Hnew as (H1 & H2 & H3 & H4 & H5 & H6 & H7 & H8). cbn [fst snd] in *. subst adds.
  exists new. cbn [added id_to_token]. unfold token_str. cbn [id_to_token].
  split; [apply sort_added_perm|]. split; [done|]. split; [done|]. split; [done|].
  split; [|split; [done|split; [done|split; [done|apply sort_added_sorted]]]].
  intros e He. rewrite sort_added_perm. by apply H5.
Qed.
