(* ===== verification/TokenizerWitness.v ===== *)
(** * A concrete tokenizer

    A small tokenizer.json (the 256 bytes, two merges, one added token) run
    through the loader, the witnesses of the tokenizer's theorems, and two
    behaviours of [encode] and [decode] the loader does not exclude. *)

From stdpp Require Import gmap relations.
From S2P Require Import Prelude Serde Rstr Utf8 Float PyJson JsonInstance UnicodeGc UnicodeGcProps Pretokenize PretokenizeProps Tokenizer BpeProps TokenizerProps.
#[local] Open Scope Z_scope.

Definition jstr (s : string) : Value := Str (lit s).
Definition jobj (kv : list (string * Value)) : Value := Object (prod_map lit id <$> kv).

Definition demo_doc (added_content : rstr) : Value := jobj [
  ("model", jobj [
    ("type", jstr "BPE");
    ("vocab", Object (imap (λ i c, ([c], Int (Z.of_nat i))) byte_to_char_table
              ++ [(lit "he", Int 256); (lit "ll", Int 257)]));
    ("merges", Array [jstr "h e"; Array [jstr "l"; jstr "l"]])]);
  ("added_tokens", Array [Object [(lit "content", Str added_content);
                                  (lit "id", Int 258)]]);
  ("normalizer", jobj [("type", jstr "NFC")]);
  ("pre_tokenizer", jobj [("pretokenizers", Array [
     jobj [("pattern", Object [(lit "Regex", Str PRETOKENIZE_REGEX_WITH_MARKS)])];
     jobj [("type", jstr "ByteLevel")]])]);
  ("decoder", jobj [("type", jstr "ByteLevel")])]%string.

Definition demo_load (added_content : rstr) : result LoadError (Tokenizer * TokenizerInfo) :=
  from_doc (λ _, []) map_to_list (demo_doc added_content).

Definition no_tokenizer : Tokenizer := mkTokenizer [] [] ∅ [] ∅ false.
Definition demo_tk (added_content : rstr) : Tokenizer :=
  match demo_load added_content with Ok (tk, _) => tk | Err _ => no_tokenizer end.
Definition demo_info (added_content : rstr) : TokenizerInfo :=
  match demo_load added_content with Ok (_, i) => i | Err _ => mkInfo [] 0 0 0 [] [] [] 0 false end.

Definition special : rstr := lit "<|x|>".

Example demo_loads : match demo_load special with Ok _ => true | Err _ => false end = true.
Proof. vm_compute. reflexivity. Qed.

Example demo_encode : encode (demo_tk special) (lit "hello<|x|> hello") = Some [256; 257; 111; 258; 32; 256; 257; 111].
Proof. vm_compute. reflexivity. Qed.

Lemma ids_agree_NoDup l : NoDup l.*2 → ids_agree l.
Proof.
  intros Hnd t1 t2 i [j1 H1]%list_elem_of_lookup [j2 H2]%list_elem_of_lookup.
  assert (j1 = j2) as <-; [|congruence].
  eapply NoDup_lookup; [exact Hnd|by rewrite list_lookup_fmap, H1|by rewrite list_lookup_fmap, H2].
Qed.

Lemma demo_ids_agree : ids_agree (doc_vocab (demo_doc special) ++ doc_added (demo_doc special)).
Proof. apply ids_agree_NoDup. apply (bool_decide_unpack _). vm_compute. exact I. Qed.

Lemma demo_load_ok : demo_load special = Ok (demo_tk special, demo_info special).
Proof.
  unfold demo_tk, demo_info. pose proof demo_loads as H.
  destruct (demo_load special) as [[tk info]|e]; [done|discriminate H].
Qed.

Lemma demo_tk_wf : wf (demo_tk special).
Proof.
  eapply (from_doc_wf_lemma (λ _, []) map_to_list); [done|exact demo_ids_agree|exact demo_load_ok].
Qed.

Lemma demo_literal : literal_added (demo_tk special).
Proof. unfold literal_added. apply (bool_decide_unpack _). vm_compute. exact I. Qed.

Lemma demo_ids : length (byte_char_id (demo_tk special)) = 256%nat.
Proof. apply demo_tk_wf. Qed.

Lemma from_doc_wf_witness : wf (demo_tk special).
Proof.
  apply (from_doc_wf (λ _, []) map_to_list (demo_doc special) (demo_tk special) (demo_info special)).
  - done.
  - exact demo_ids_agree.
  - exact demo_load_ok.
Defined.

Lemma decode_encode_witness : ∃ ids t, encode (demo_tk special) (lit "hello<|x|> hello") = Some ids
  ∧ nfc (lit "hello<|x|> hello") = Some t ∧ decode (demo_tk special) ids = t
  ∧ encode (demo_tk special) t = Some ids.
Proof.
  apply (decode_encode (demo_tk special) (lit "hello<|x|> hello")); [exact demo_tk_wf|exact demo_literal|].
  apply (bool_decide_unpack _). vm_compute. exact I.
Defined.

Lemma encode_segments_witness : ∃ t segs idss, nfc (lit "hello<|x|> hello") = Some t
  ∧ segmented (added (demo_tk special)) t segs
  ∧ mapM (encode_seg (demo_tk special)) segs = Some idss
  ∧ encode (demo_tk special) (lit "hello<|x|> hello") = Some (concat idss).
Proof.
  apply (encode_segments (demo_tk special) (lit "hello<|x|> hello")).
  - apply demo_tk_wf.
  - apply literal_nonempty. exact demo_literal.
  - exact demo_ids.
  - apply (bool_decide_unpack _). vm_compute. exact I.
Defined.

Lemma bpe_best_first_witness : ∃ syms out,
  mapM (λ b, byte_char_id (demo_tk special) !! Z.to_nat b) (lit "hello") = Some syms
  ∧ bpe (demo_tk special) (lit "hello") = Some out
  ∧ rtc (merge_step (merge (demo_tk special))) syms out
  ∧ (∀ t, ¬ merge_step (merge (demo_tk special)) out t)
  ∧ (∀ other, rtc (merge_step (merge (demo_tk special))) syms other →
       (∀ t, ¬ merge_step (merge (demo_tk special)) other t) → other = out).
Proof.
  apply (bpe_best_first (demo_tk special) (lit "hello")); [exact demo_ids|].
  apply (bool_decide_unpack _). vm_compute. exact I.
Defined.

(** ** Two behaviours the loader does not exclude *)

Lemma empty_hit_stuck tk rest id : rest ≠ [] → hit tk rest = Some ([], id) →
  ∀ fuel plain out, encode_loop fuel tk plain rest out = None.
Proof.
  intros Hr Hh. induction fuel as [|fuel IH]; intros plain out; destruct rest as [|c rest]; try done.
  cbn [encode_loop]. rewrite Hh. destruct (flush tk plain); [|done].
  cbn [mbind option_bind length]. rewrite drop_0. apply IH.
Qed.

(** An added token with empty content is accepted by the loader, and then
    [encode] never returns on a text no other token starts. *)
Theorem encode_empty_token_diverges :
  (∃ r, demo_load [] = Ok r) ∧ ∀ fuel, encode_fuel fuel (demo_tk []) (lit "a") = None.
Proof.
  split.
  - assert (match demo_load [] with Ok _ => true | Err _ => false end = true) as H
      by (vm_compute; reflexivity).
    destruct (demo_load []) as [r|]; [by exists r|discriminate H].
  - intros fuel. unfold encode_fuel. rewrite (nfc_latin (lit "a")).
    2: { apply (bool_decide_unpack _). vm_compute. exact I. }
    cbn [mbind option_bind]. apply (empty_hit_stuck _ _ 258); [done|]. vm_compute. reflexivity.
Qed.

(** An added token is plain text, but its characters that are also byte-level
    characters are decoded as bytes: the token [U+00E9] comes back as a
    replacement character. *)
Theorem decode_added_latin1 :
  ∃ ids, encode (demo_tk [0xE9]) [0xE9] = Some ids ∧ decode (demo_tk [0xE9]) ids = [REPLACEMENT].
Proof. exists [258]. split; vm_compute; reflexivity. Qed.
