(* ===== verification/Chat.v ===== *)
(** * gdn: the chat template

    Models qwen35-forward/gdn/src/chat.rs: messages, [render] with its content
    macro and its image and video counters, and reading a request from JSON.
    Errors are the source's messages. *)

From S2P Require Import Prelude Rstr Utf8 Float PyJson Pretokenize.

Definition NL : rstr := [10].

Definition IM_START : rstr := lit "<|im_start|>".
Definition IM_END : rstr := lit "<|im_end|>".
Definition THINK_OPEN : rstr := lit "<think>".
Definition THINK_CLOSE : rstr := lit "</think>".

Definition TOOLS_PREFIX : rstr := lit "# Tools

You have access to the following functions:

<tools>".
Definition TOOLS_INSTRUCTIONS : rstr := lit "

If you choose to call a function ONLY reply in the following format with NO suffix:

<tool_call>
<function=example_function_name>
<parameter=example_parameter_1>
value_1
</parameter>
<parameter=example_parameter_2>
This is the value for the second parameter
that can span
multiple lines
</parameter>
</function>
</tool_call>

<IMPORTANT>
Reminder:
- Function calls MUST follow the specified format: an inner <function=...></function> block must be nested within <tool_call></tool_call> XML tags
- Required parameters MUST be specified
- You may provide optional reasoning for your function call in natural language BEFORE the function call, but NOT after
- If there is no function call available, answer the question like normal with your current knowledge and do not tell the user about function calls
</IMPORTANT>".

Definition ERR_NO_MESSAGES : rstr := lit "No messages provided.".
Definition ERR_SYSTEM_NOT_FIRST : rstr := lit "System message must be at the beginning.".
Definition ERR_NO_USER_QUERY : rstr := lit "No user query found in messages.".
Definition ERR_UNEXPECTED_ROLE : rstr := lit "Unexpected message role.".
Definition ERR_SYSTEM_IMAGE : rstr := lit "System message cannot contain images.".
Definition ERR_SYSTEM_VIDEO : rstr := lit "System message cannot contain videos.".
Definition ERR_ITEM_TYPE : rstr := lit "Unexpected item type in content.".
Definition ERR_CONTENT_TYPE : rstr := lit "Unexpected content type.".

(** ** Data *)

Inductive Role := System | User | Assistant | Tool | OtherRole (name : rstr).
#[export] Instance Role_eq_dec : EqDecision Role.
Proof. solve_decision. Defined.

Definition from_name (s : rstr) : Role :=
  if decide (s = lit "system") then System
  else if decide (s = lit "user") then User
  else if decide (s = lit "assistant") then Assistant
  else if decide (s = lit "tool") then Tool
  else OtherRole s.

Inductive Part := PText (t : rstr) | Image | Video | OtherPart.

Inductive Content := CText (t : rstr) | Parts (ps : list Part) | CNone | Unsupported.

Record FunctionCall := mkCall { fname : rstr; arguments : list (rstr * Value) }.

Record Message := mkMessage {
  role : Role;
  content : Content;
  reasoning : option rstr;
  tool_calls : list FunctionCall;
}.

Record Options := mkOptions {
  add_generation_prompt : bool;
  enable_thinking : bool;
  add_vision_id : bool;
}.

Record Request := mkRequest {
  messages : list Message;
  tools : list Value;
  opts : Options;
}.

Record Rendered := mkRendered { text : rstr; images : Z; videos : Z }.

(** [Message::new] and its four callers *)
Definition new_message (r : Role) (t : rstr) : Message := mkMessage r (CText t) None [].

(** ** Trimming *)

Definition is_python_space (c : char) : bool := in_range 0x1c 0x1f c || is_whitespace c.
Definition jinja_trim (s : rstr) : rstr := trim is_python_space s.
Definition is_nl (c : char) : bool := c =? 10.

(** ** Rendering *)

(** The image and video counters. *)
Abbreviation counters := (Z * Z)%type (only parsing).

(** One element of the loop of [render_content]. *)
Definition render_part (do_count is_system add_vision_id : bool) (st : rstr * counters) (p : Part) :
    result rstr (rstr * counters) :=
  let '(out, (images, videos)) := st in
  match p with
  | Image =>
      if is_system then Err ERR_SYSTEM_IMAGE else
      let images := if do_count then images + 1 else images in
      let out := if add_vision_id then out ++ lit "Picture " ++ show_nat images ++ lit ": " else out in
      Ok (out ++ lit "<|vision_start|><|image_pad|><|vision_end|>", (images, videos))
  | Video =>
      if is_system then Err ERR_SYSTEM_VIDEO else
      let videos := if do_count then videos + 1 else videos in
      let out := if add_vision_id then out ++ lit "Video " ++ show_nat videos ++ lit ": " else out in
      Ok (out ++ lit "<|vision_start|><|video_pad|><|vision_end|>", (images, videos))
  | PText t => Ok (out ++ t, (images, videos))
  | OtherPart => Err ERR_ITEM_TYPE
  end.

Fixpoint render_parts (do_count is_system add_vision_id : bool) (st : rstr * counters)
    (ps : list Part) : result rstr (rstr * counters) :=
  match ps with
  | [] => Ok st
  | p :: ps =>
      st ← render_part do_count is_system add_vision_id st p;
      render_parts do_count is_system add_vision_id st ps
  end.

Definition render_content (c : Content) (do_count is_system add_vision_id : bool) (cnt : counters) :
    result rstr (rstr * counters) :=
  match c with
  | CText s => Ok (s, cnt)
  | CNone => Ok ([], cnt)
  | Unsupported => Err ERR_CONTENT_TYPE
  | Parts ps => render_parts do_count is_system add_vision_id ([], cnt) ps
  end.

Definition argument_text (v : Value) : rstr :=
  match v with
  | Array _ | Object _ => dumps v
  | other => py_str other
  end.

(** [jinja_trim(&render_content(..)?)] *)
Definition trimmed_content (c : Content) (do_count is_system avi : bool) (cnt : counters) :
    result rstr (rstr * counters) :=
  '(s, cnt) ← render_content c do_count is_system avi cnt; Ok (jinja_trim s, cnt).

(** The system block, written once before the loop. *)
Definition system_block (req : Request) (first : Message) (cnt : counters) :
    result rstr (rstr * counters) :=
  let avi := add_vision_id (opts req) in
  match tools req with
  | _ :: _ =>
      let head := IM_START ++ lit "system" ++ NL ++ TOOLS_PREFIX
        ++ concat ((λ t, NL ++ dumps t) <$> tools req) ++ NL ++ lit "</tools>" ++ TOOLS_INSTRUCTIONS in
      '(extra, cnt) ←
        (if decide (role first = System) then
           '(c, cnt) ← trimmed_content (content first) false true avi cnt;
           Ok (match c with [] => [] | _ => NL ++ NL ++ c end, cnt)
         else Ok ([], cnt));
      Ok (head ++ extra ++ IM_END ++ NL, cnt)
  | [] =>
      if decide (role first = System) then
        '(c, cnt) ← trimmed_content (content first) false true avi cnt;
        Ok (IM_START ++ lit "system" ++ NL ++ c ++ IM_END ++ NL, cnt)
      else Ok ([], cnt)
  end.

(** A user message that only wraps a tool result. *)
Definition is_tool_response (c : rstr) : bool :=
  starts_with (lit "<tool_response>") c && ends_with (lit "</tool_response>") c.

(** The backwards scan over the first [k] messages: [(multi_step_tool,
    last_query_index)] and the counters. *)
Fixpoint scan_queries (msgs : list Message) (avi : bool) (k : nat) (st : bool * nat * counters) :
    result rstr (bool * nat * counters) :=
  match k with
  | O => Ok st
  | S i =>
      match msgs !! i with
      | None => Ok st
      | Some m =>
          let '(multi, lqi, cnt) := st in
          st ← (if multi && bool_decide (role m = User) then
                  '(c, cnt) ← trimmed_content (content m) false false avi cnt;
                  Ok (if is_tool_response c then (multi, lqi, cnt) else (false, i, cnt))
                else Ok st);
          scan_queries msgs avi i st
      end
  end.

(** The reasoning and the content of an assistant message: an explicit
    reasoning field, or what a [</think>] in the content separates. *)
Definition split_reasoning (m : Message) (content : rstr) : rstr * rstr :=
  match reasoning m with
  | Some r => (r, content)
  | None =>
      if contains THINK_CLOSE content then
        let head := trim_end is_nl (split_first THINK_CLOSE content) in
        let head := split_last THINK_OPEN head in
        (trim_start is_nl head, trim_start is_nl (split_last THINK_CLOSE content))
      else ([], content)
  end.

Definition render_argument (a : rstr * Value) : rstr :=
  lit "<parameter=" ++ a.1 ++ lit ">" ++ NL ++ argument_text a.2 ++ NL ++ lit "</parameter>" ++ NL.

Definition render_call (content : rstr) (j : nat) (tc : FunctionCall) : rstr :=
  (match j with
   | O => match jinja_trim content with [] => [] | _ => NL ++ NL end
   | S _ => NL
   end) ++ lit "<tool_call>" ++ NL ++ lit "<function="
  ++ fname tc ++ lit ">" ++ NL ++ concat (render_argument <$> arguments tc)
  ++ lit "</function>" ++ NL ++ lit "</tool_call>".

Definition assistant_block (m : Message) (i lqi : nat) (content : rstr) : rstr :=
  let '(reasoning, content) := split_reasoning m content in
  let reasoning := jinja_trim reasoning in
  (if decide (lqi < i)%nat then
     IM_START ++ lit "assistant" ++ NL ++ THINK_OPEN ++ NL ++ reasoning ++ NL ++ THINK_CLOSE
     ++ NL ++ NL ++ content
   else IM_START ++ lit "assistant" ++ NL ++ content)
  ++ concat (imap (render_call content) (tool_calls m)) ++ IM_END ++ NL.

(** [messages[i - 1]] and [messages[i + 1]] decide whether a tool result opens
    and closes the user block. *)
Definition tool_block (msgs : list Message) (i : nat) (content : rstr) : rstr :=
  (match i with
   | O => []
   | S p => match msgs !! p with
            | Some m => if decide (role m ≠ Tool) then IM_START ++ lit "user" else []
            | None => []
            end
   end)
  ++ NL ++ lit "<tool_response>" ++ NL ++ content ++ NL ++ lit "</tool_response>"
  ++ (match msgs !! S i with
      | Some m => if decide (role m ≠ Tool) then IM_END ++ NL else []
      | None => IM_END ++ NL
      end).

(** What one message adds to the text. *)
Definition message_block (msgs : list Message) (lqi i : nat) (m : Message) (content : rstr) :
    result rstr rstr :=
  match role m with
  | System => if decide (i ≠ O) then Err ERR_SYSTEM_NOT_FIRST else Ok []
  | User => Ok (IM_START ++ lit "user" ++ NL ++ content ++ IM_END ++ NL)
  | Assistant => Ok (assistant_block m i lqi content)
  | Tool => Ok (tool_block msgs i content)
  | OtherRole _ => Err ERR_UNEXPECTED_ROLE
  end.

(** The main loop from message [i] on. *)
Fixpoint main_loop (msgs : list Message) (avi : bool) (lqi i : nat) (rest : list Message)
    (out : rstr) (cnt : counters) : result rstr (rstr * counters) :=
  match rest with
  | [] => Ok (out, cnt)
  | m :: rest =>
      '(c, cnt) ← trimmed_content (content m) true false avi cnt;
      block ← message_block msgs lqi i m c;
      main_loop msgs avi lqi (S i) rest (out ++ block) cnt
  end.

Definition generation_prompt (o : Options) : rstr :=
  if add_generation_prompt o then
    IM_START ++ lit "assistant" ++ NL ++
    (if enable_thinking o then THINK_OPEN ++ NL
     else THINK_OPEN ++ NL ++ NL ++ THINK_CLOSE ++ NL ++ NL)
  else [].

Definition render (req : Request) : result rstr Rendered :=
  match messages req with
  | [] => Err ERR_NO_MESSAGES
  | first :: _ =>
      let avi := add_vision_id (opts req) in
      let n := length (messages req) in
      '(out, cnt) ← system_block req first (0, 0);
      '(multi, lqi, cnt) ← scan_queries (messages req) avi n (true, (n - 1)%nat, cnt);
      if multi : bool then Err ERR_NO_USER_QUERY else
      '(out, cnt) ← main_loop (messages req) avi lqi 0 (messages req) out cnt;
      Ok (mkRendered (out ++ generation_prompt (opts req)) cnt.1 cnt.2)
  end.

(** ** Building a request from JSON *)

Definition ERR_NO_ROLE : rstr := lit "message has no string `role`".
Definition ERR_NO_NAME : rstr := lit "a tool call has no string `name`".
Definition ERR_MESSAGES : rstr := lit "`messages` is not an array".

Definition type_is (item : Value) (want : string) : bool :=
  bool_decide ((t ← Value.get item (lit "type"); Value.as_str t) = Some (lit want)).

Definition part_from_json (item : Value) : Part :=
  if Value.contains_key item (lit "image") || Value.contains_key item (lit "image_url")
     || type_is item "image" then Image
  else if Value.contains_key item (lit "video") || type_is item "video" then Video
  else match Value.get item (lit "text") with
       | Some t => PText (py_str t)
       | None => OtherPart
       end.

Definition content_from_json (c : Value) : Content :=
  match c with
  | Str s => CText s
  | Null => CNone
  | Array items => Parts (part_from_json <$> items)
  | _ => Unsupported
  end.

Definition call_from_json (c : Value) : result rstr FunctionCall :=
  let f := default c (Value.get c (lit "function")) in
  name ← ok_or ERR_NO_NAME (n ← Value.get f (lit "name"); Value.as_str n);
  Ok (mkCall name (match Value.get f (lit "arguments") with Some (Object kv) => kv | _ => [] end)).

Definition message_from_json (v : Value) : result rstr Message :=
  r ← ok_or ERR_NO_ROLE (r ← Value.get v (lit "role"); Value.as_str r);
  let content := match Value.get v (lit "content") with
                 | None => CNone | Some c => content_from_json c end in
  let reasoning := match Value.get v (lit "reasoning_content") with
                   | Some (Str s) => Some s | _ => None end in
  calls ← match Value.get v (lit "tool_calls") with
          | Some (Array calls) => try_map call_from_json calls
          | _ => Ok []
          end;
  Ok (mkMessage (from_name r) content reasoning calls).

Definition get_bool (v : Value) (k : string) : bool :=
  default false (b ← Value.get v (lit k); Value.as_bool b).

Definition request_from_json (v : Value) : result rstr Request :=
  msgs ← match Value.get v (lit "messages") with
         | Some (Array a) => try_map message_from_json a
         | Some _ => Err ERR_MESSAGES
         | None => Ok []
         end;
  Ok (mkRequest msgs
        (match Value.get v (lit "tools") with Some (Array a) => a | _ => [] end)
        (mkOptions (get_bool v "add_generation_prompt") (get_bool v "enable_thinking")
           (get_bool v "add_vision_id"))).
