(* ===== verification/ChatParse.v ===== *)
(** * gdn: reading back what the model wrote

    Models qwen35-forward/gdn/src/chatparse.rs: [parse_assistant],
    [parse_tool_calls] and [parse_one].  An error carries its kind, not its
    text; formatting two of them slices 24 bytes off the input, which panics
    inside a multi-byte character. *)

From S2P Require Import Prelude Rstr Utf8 PyJson Chat.

Module Parsed.
Record FunctionCall := mkCall { name : rstr; arguments : list (rstr * rstr) }.
End Parsed.

Record Reply := mkReply {
  reply_reasoning : option rstr;
  reply_content : rstr;
  reply_calls : list Parsed.FunctionCall;
}.

(** [Reply::text] and [Reply::as_chat_calls] *)
Definition reply_text (content : rstr) : Reply := mkReply None content [].
Definition as_chat_calls (r : Reply) : list FunctionCall :=
  (λ c, mkCall (Parsed.name c) (prod_map id Str <$> Parsed.arguments c)) <$> reply_calls r.

Inductive CallError :=
| NeverClosed | NotAFunction | NoFunctionEnd | EmptyName | FunctionNotClosed
| ExpectedParameter | NoParameterEnd | ParameterNotClosed | Panic | OutOfFuel.

Definition TOOL_OPEN : rstr := lit "<tool_call>".
Definition TOOL_CLOSE : rstr := lit "</tool_call>".
Definition TAG_END : rstr := lit ">" ++ NL.
Definition PARAM_CLOSE : rstr := NL ++ lit "</parameter>".

(** [s.is_char_boundary(k)], for [k <= s.len()] *)
Fixpoint is_char_boundary (k : Z) (s : rstr) : bool :=
  if decide (k = 0) then true else
  match s with
  | [] => false
  | c :: s => if decide (k < len_utf8 c) then false else is_char_boundary (k - len_utf8 c) s
  end.

(** [&s[..s.len().min(24)]], as it is evaluated for an error message. *)
Definition first_24 (s : rstr) (e : CallError) : CallError :=
  if is_char_boundary (len (utf8 s) `min` 24) s then e else Panic.

(** The parameter loop of [parse_one]. *)
Fixpoint parse_parameters (fuel : nat) (rest : rstr) : result CallError (list (rstr * rstr)) :=
  match rest with
  | [] => Ok []
  | _ =>
      match fuel with
      | O => Err OutOfFuel
      | S fuel =>
          r ← ok_or (first_24 rest ExpectedParameter) (strip_prefix (lit "<parameter=") rest);
          '(key, r) ← ok_or (first_24 r NoParameterEnd) (split_once TAG_END r);
          '(value, r) ← ok_or ParameterNotClosed
            (match split_once (PARAM_CLOSE ++ NL) r with
             | Some x => Some x
             | None => split_once PARAM_CLOSE r
             end);
          args ← parse_parameters fuel (trim_start is_nl r);
          Ok ((key, value) :: args)
      end
  end.

Definition parse_one (body : rstr) : result CallError Parsed.FunctionCall :=
  let body := trim is_nl body in
  rest ← ok_or NotAFunction (strip_prefix (lit "<function=") body);
  '(name, rest) ← ok_or NoFunctionEnd (split_once TAG_END rest);
  if decide (name = []) then Err EmptyName else
  let rest := trim_end is_nl rest in
  rest ← ok_or FunctionNotClosed (strip_suffix (lit "</function>") rest);
  let rest := trim is_nl rest in
  args ← parse_parameters (length rest) rest;
  Ok (Parsed.mkCall name args).

(** The loop of [parse_tool_calls]; a block takes at least its two tags. *)
Fixpoint parse_calls (fuel : nat) (rest : rstr) : result CallError (list Parsed.FunctionCall) :=
  match split_once TOOL_OPEN rest with
  | None => Ok []
  | Some (_, after) =>
      match fuel with
      | O => Err OutOfFuel
      | S fuel =>
          '(body, rest) ← ok_or NeverClosed (split_once TOOL_CLOSE after);
          c ← parse_one (trim is_nl body);
          cs ← parse_calls fuel rest;
          Ok (c :: cs)
      end
  end.

Definition parse_tool_calls (text : rstr) : result CallError (list Parsed.FunctionCall) :=
  parse_calls (length text) text.

(** [None] is a panic (or a loop out of fuel, which does not happen). *)
Definition parse_assistant (text : rstr) : option Reply :=
  let '(reasoning, body) :=
    match split_once THINK_CLOSE text with
    | Some (head, body) =>
        (Some (jinja_trim (split_last THINK_OPEN head)), trim_start is_nl body)
    | None => (None, text)
    end in
  match parse_tool_calls body with
  | Ok parsed => Some (mkReply reasoning (jinja_trim (split_first TOOL_OPEN body)) parsed)
  | Err Panic | Err OutOfFuel => None
  | Err _ => Some (mkReply reasoning (jinja_trim body) [])
  end.
