(* ===== verification/ChatProps.v ===== *)
(** * The chat template: outcome, structure, counters *)

From S2P Require Import Prelude Rstr Utf8 Float PyJson Pretokenize Chat.

(** ** Counting parts *)

Definition is_image (p : Part) : bool := match p with Image => true | _ => false end.
Definition is_video (p : Part) : bool := match p with Video => true | _ => false end.
Definition count_parts (f : Part → bool) (c : Content) : Z :=
  match c with Parts ps => len (filter (λ p, f p = true) ps) | _ => 0 end.
Definition image_count (msgs : list Message) : Z := zsum ((λ m, count_parts is_image (content m)) <$> msgs).
Definition video_count (msgs : list Message) : Z := zsum ((λ m, count_parts is_video (content m)) <$> msgs).

Lemma render_parts_count do_count is_system avi ps : ∀ out im vi out' im' vi',
  render_parts do_count is_system avi (out, (im, vi)) ps = Ok (out', (im', vi')) →
  im' = im + (if do_count then len (filter (λ p, is_image p = true) ps) else 0)
  ∧ vi' = vi + (if do_count then len (filter (λ p, is_video p = true) ps) else 0).
Proof.
  induction ps as [|p ps IH]; intros out im vi out' im' vi'; cbn [render_parts].
  { intros [= _ <- <-]. split; destruct do_count; unfold len; cbn; lia. }
  intros Hok. apply bind_Ok in Hok as ([o [i v]] & Hp & Hok). apply IH in Hok as [-> ->].
  rewrite !filter_cons. destruct p; cbn [render_part is_image is_video] in *.
  - injection Hp as _ <- <-. done.
  - destruct is_system; [done|]. injection Hp as _ <- <-. destruct do_count; [|lia].
    rewrite decide_True by done. rewrite decide_False by done. rewrite len_cons. lia.
  - destruct is_system; [done|]. injection Hp as _ <- <-. destruct do_count; [|lia].
    rewrite (decide_True (P := true = true)) by done. rewrite decide_False by done. rewrite len_cons. lia.
  - done.
Qed.

Lemma trimmed_content_count c do_count is_system avi im vi s im' vi' :
  trimmed_content c do_count is_system avi (im, vi) = Ok (s, (im', vi')) →
  im' = im + (if do_count then count_parts is_image c else 0)
  ∧ vi' = vi + (if do_count then count_parts is_video c else 0).
Proof.
  unfold trimmed_content. intros Hok. apply bind_Ok in Hok as ([o [i v]] & Hc & [= _ -> ->]).
  destruct c; cbn [render_content count_parts] in *; try discriminate Hc.
  1,3: injection Hc as _ <- <-; destruct do_count; lia.
  by apply render_parts_count in Hc.
Qed.

Lemma system_block_count req first cnt out cnt' : system_block req first cnt = Ok (out, cnt') → cnt' = cnt.
Proof.
  assert (∀ c s cnt1 cnt2, trimmed_content c false true (add_vision_id (opts req)) cnt1 = Ok (s, cnt2) → cnt2 = cnt1) as Hc.
  { intros c s [im vi] [im' vi'] [-> ->]%trimmed_content_count. f_equal; lia. }
  unfold system_block. cbn zeta. destruct (tools req) as [|t ts].
  - case_decide; [|by intros [= _ ->]]. intros Hok. apply bind_Ok in Hok as ([o c] & Ho & [= _ <-]).
    by apply Hc in Ho.
  - intros Hok. apply bind_Ok in Hok as ([o c] & Ho & [= _ <-]). case_decide; [|by injection Ho as _ ->].
    apply bind_Ok in Ho as ([o' c'] & Ho & [= _ <-]). by apply Hc in Ho.
Qed.

(** ** The backwards scan *)

(** A user message that is a query: its text does not wrap a tool result.  The
    scan renders without counting, so the counters it sees stay the same. *)
Definition is_query (avi : bool) (cnt : Z * Z) (m : Message) : Prop :=
  role m = User ∧ ∀ c cnt', trimmed_content (content m) false false avi cnt = Ok (c, cnt') →
    is_tool_response c = false.

Lemma scan_done msgs avi k : ∀ lqi cnt, scan_queries msgs avi k (false, lqi, cnt) = Ok (false, lqi, cnt).
Proof.
  induction k as [|k IH]; intros lqi cnt; cbn [scan_queries]; [done|].
  destruct (msgs !! k); [|done]. cbn [andb mbind result_bind]. apply IH.
Qed.

(** The scan finds the last query among the first [k] messages. *)
Lemma scan_queries_spec msgs avi k : ∀ lqi cnt multi lqi' cnt', (k ≤ length msgs)%nat →
  scan_queries msgs avi k (true, lqi, cnt) = Ok (multi, lqi', cnt') →
  cnt' = cnt ∧
  if multi : bool then ∀ i m, (i < k)%nat → msgs !! i = Some m → ¬ is_query avi cnt m
  else (lqi' < k)%nat ∧ (∃ m, msgs !! lqi' = Some m ∧ is_query avi cnt m)
       ∧ ∀ i m, (lqi' < i < k)%nat → msgs !! i = Some m → ¬ is_query avi cnt m.
Proof.
  induction k as [|k IH]; intros lqi cnt multi lqi' cnt' Hk; cbn [scan_queries].
  { intros [= <- <- <-]. split; [done|]. intros; lia. }
  destruct (msgs !! k) as [m|] eqn:Hm; [|apply lookup_ge_None in Hm; lia]. cbn [andb].
  assert (∀ i, (i < S k)%nat → (i < k)%nat ∨ i = k) as Hcase by lia.
  case_bool_decide as Hr.
  - intros Hok. apply bind_Ok in Hok as (st & Hst & Hok).
    apply bind_Ok in Hst as ([c [im vi]] & Hc & [= <-]). destruct cnt as [im0 vi0].
    destruct (trimmed_content_count _ _ _ _ _ _ _ _ _ Hc) as [-> ->]. rewrite !Z.add_0_r in *.
    destruct (is_tool_response c) eqn:Ht.
    + apply IH in Hok as [-> Hok]; [|lia]. split; [done|].
      assert (¬ is_query avi (im0, vi0) m) as Hnq.
      { intros [_ Hq]. specialize (Hq _ _ Hc). congruence. }
      destruct multi.
      * intros i m' [Hi| ->]%Hcase Hm'; [by eapply Hok|]. rewrite Hm in Hm'. by injection Hm' as <-.
      * destruct Hok as (H1 & H2 & H3). split; [lia|]. split; [done|]. intros i m' [Hi1 Hi2] Hm'.
        destruct (Hcase i Hi2) as [Hi| ->]; [by eapply H3|]. rewrite Hm in Hm'. by injection Hm' as <-.
    + rewrite scan_done in Hok. injection Hok as <- <- <-. split; [done|]. split; [lia|].
      split; [|intros; lia]. exists m. split; [done|]. split; [done|].
      intros c' cnt' Hc'. rewrite Hc in Hc'. by injection Hc' as <- <-.
  - cbn [mbind result_bind]. intros Hok. apply IH in Hok as [-> Hok]; [|lia]. split; [done|].
    assert (¬ is_query avi cnt m) as Hnq by (intros [? _]; done). destruct multi.
    + intros i m' [Hi| ->]%Hcase Hm'; [by eapply Hok|]. rewrite Hm in Hm'. by injection Hm' as <-.
    + destruct Hok as (H1 & H2 & H3). split; [lia|]. split; [done|]. intros i m' [Hi1 Hi2] Hm'.
      destruct (Hcase i Hi2) as [Hi| ->]; [by eapply H3|]. rewrite Hm in Hm'. by injection Hm' as <-.
Qed.

(** ** The main loop *)

Lemma main_loop_count msgs avi lqi rest : ∀ i out im vi out' im' vi',
  main_loop msgs avi lqi i rest out (im, vi) = Ok (out', (im', vi')) →
  im' = im + image_count rest ∧ vi' = vi + video_count rest.
Proof.
  unfold image_count, video_count.
  induction rest as [|m rest IH]; intros i out im vi out' im' vi'; cbn [main_loop].
  { intros [= _ <- <-]. cbn. lia. }
  intros Hok. apply bind_Ok in Hok as ([c [im1 vi1]] & Hc & Hok). apply bind_Ok in Hok as (b & _ & Hok).
  apply trimmed_content_count in Hc as [-> ->]. apply IH in Hok as [-> ->].
  cbn [fmap list_fmap]. rewrite !zsum_cons. lia.
Qed.

(** ** Turns *)

Definition turn (t : rstr * rstr) : rstr := IM_START ++ t.1 ++ NL ++ t.2 ++ IM_END ++ NL.

(** The speaker of each turn the loop writes: one per user or assistant message,
    one per run of tool results. *)
Fixpoint turn_roles (in_run : bool) (ms : list Message) : list rstr :=
  match ms with
  | [] => []
  | m :: ms =>
      match role m with
      | User => lit "user" :: turn_roles false ms
      | Assistant => lit "assistant" :: turn_roles false ms
      | Tool => if in_run then turn_roles true ms else lit "user" :: turn_roles true ms
      | _ => turn_roles false ms
      end
  end.

(** What the loop adds: turns, after the rest of a tool run that is open. *)
Definition adds_turns (in_run : bool) (ms : list Message) (added : rstr) : Prop :=
  ∃ body turns, added = (if in_run && match ms with m :: _ => bool_decide (role m = Tool) | [] => false end
                         then body ++ IM_END ++ NL else []) ++ concat (turn <$> turns)
    ∧ turns.*1 = turn_roles in_run ms.

#[local] Opaque lit NL.

Definition ends_in_tool (pre : list Message) : bool :=
  match last pre with Some m => bool_decide (role m = Tool) | None => false end.

Lemma ends_in_tool_snoc pre m : ends_in_tool (pre ++ [m]) = bool_decide (role m = Tool).
Proof. unfold ends_in_tool. by rewrite last_snoc. Qed.

Lemma assistant_block_turn m i lqi c : ∃ body, assistant_block m i lqi c = turn (lit "assistant", body).
Proof.
  unfold assistant_block, turn. destruct (split_reasoning m c) as [r c']. cbn zeta. cbn [fst snd].
  exists ((if decide (lqi < i)%nat then THINK_OPEN ++ NL ++ jinja_trim r ++ NL ++ THINK_CLOSE ++ NL ++ NL ++ c'
           else c') ++ concat (imap (render_call c') (tool_calls m))).
  case_decide; by rewrite <- !app_assoc.
Qed.

Lemma tool_open msgs pre m rest c : msgs = pre ++ m :: rest → pre ≠ [] →
  tool_block msgs (length pre) c =
  (if ends_in_tool pre then [] else IM_START ++ lit "user") ++ NL ++ lit "<tool_response>" ++ NL ++ c
  ++ NL ++ lit "</tool_response>"
  ++ (if match rest with m :: _ => bool_decide (role m = Tool) | [] => false end then [] else IM_END ++ NL).
Proof.
  intros -> Hne. unfold tool_block.
  rewrite lookup_app_r by lia. replace (S (length pre) - length pre)%nat with 1%nat by lia.
  destruct (exists_last Hne) as (pre' & p & ->). unfold ends_in_tool. rewrite last_snoc.
  rewrite length_app. cbn [length]. rewrite Nat.add_1_r, <- app_assoc.
  cbn [app]. rewrite list_lookup_middle by done. f_equal.
  - repeat case_decide; rewrite ?bool_decide_eq_true_2, ?bool_decide_eq_false_2 by tauto; try done.
  - do 6 f_equal. destruct rest as [|m' rest]; [done|]. cbn [lookup list_lookup].
    case_decide as Hd; [by rewrite bool_decide_eq_false_2|].
    rewrite bool_decide_eq_true_2; [done|]. first [done | by apply dec_stable].
Qed.

Lemma main_loop_turns msgs avi lqi rest : ∀ pre out cnt out' cnt', msgs = pre ++ rest →
  match pre, rest with [], m :: _ => role m ≠ Tool | _, _ => True end →
  main_loop msgs avi lqi (length pre) rest out cnt = Ok (out', cnt') →
  ∃ added, out' = out ++ added ∧ adds_turns (ends_in_tool pre) rest added.
Proof.
  induction rest as [|m rest IH]; intros pre out cnt out' cnt' Hmsgs Hfirst; cbn [main_loop].
  { intros [= <- _]. exists []. split; [by rewrite app_nil_r|]. exists [], []. by rewrite andb_false_r. }
  intros Hok. apply bind_Ok in Hok as ([c cnt1] & _ & Hok). apply bind_Ok in Hok as (b & Hb & Hok).
  replace (S (length pre)) with (length (pre ++ [m])) in Hok by (rewrite length_app; cbn; lia).
  destruct (IH (pre ++ [m]) _ _ _ _ ltac:(by rewrite <- app_assoc) ltac:(by destruct pre) Hok)
    as (added & -> & body & turns & -> & Hroles). clear IH Hok.
  rewrite ends_in_tool_snoc in *. rewrite <- app_assoc. eexists. split; [reflexivity|].
  unfold message_block in Hb. unfold adds_turns. cbn [turn_roles].
  destruct (role m) eqn:Hr.
  - case_decide; [done|]. injection Hb as <-. exists [], turns.
    rewrite !(bool_decide_eq_false_2 (System = Tool)), andb_false_r in * by done. done.
  - injection Hb as <-. exists [], ((lit "user", c) :: turns).
    rewrite !(bool_decide_eq_false_2 (User = Tool)), andb_false_r in * by done.
    cbn [fmap list_fmap concat andb app fst]. split; [done|]. by f_equal.
  - injection Hb as <-. destruct (assistant_block_turn m (length pre) lqi c) as [ab ->].
    exists [], ((lit "assistant", ab) :: turns).
    rewrite !(bool_decide_eq_false_2 (Assistant = Tool)), andb_false_r in * by done.
    cbn [fmap list_fmap concat andb app fst]. split; [done|]. by f_equal.
  - injection Hb as <-. rewrite (tool_open msgs pre m rest c Hmsgs) by (intros ->; done).
    rewrite !(bool_decide_eq_true_2 (Tool = Tool)) in * by done. cbn [andb] in *. rewrite andb_true_r.
    set (nxt := match rest with m0 :: _ => bool_decide (role m0 = Tool) | [] => false end) in *.
    set (inner := lit "<tool_response>" ++ NL ++ c ++ NL ++ lit "</tool_response>" ++ (if nxt then body else [])).
    destruct (ends_in_tool pre).
    + exists (NL ++ inner), turns. split; [|done]. subst inner.
      destruct nxt; rewrite ?app_nil_l, ?app_nil_r, <- ?app_assoc; done.
    + exists [], ((lit "user", inner) :: turns). cbn [fmap list_fmap concat fst]. split; [|by f_equal].
      subst inner. unfold turn. cbn [fst snd].
      destruct nxt; rewrite ?app_nil_l, ?app_nil_r, <- ?app_assoc; done.
  - done.
Qed.

Lemma system_block_turn req first cnt out cnt' : system_block req first cnt = Ok (out, cnt') →
  ∃ turns, out = concat (turn <$> turns) ∧
    turns.*1 = if bool_decide (tools req ≠ [] ∨ role first = System) then [lit "system"] else [].
Proof.
  unfold system_block. cbn zeta. destruct (tools req) as [|t ts].
  - case_decide as Hr.
    + intros Hok. apply bind_Ok in Hok as ([o c] & _ & [= <- _]). rewrite bool_decide_eq_true_2 by by right.
      exists [(lit "system", o)]. split; [|done]. unfold turn. cbn [fmap list_fmap concat fst snd]. by rewrite app_nil_r.
    + intros [= <- _]. rewrite bool_decide_eq_false_2 by (intros [?|?]; done). by exists [].
  - intros Hok. apply bind_Ok in Hok as ([o c] & _ & [= <- _]). rewrite bool_decide_eq_true_2 by by left.
    exists [(lit "system", TOOLS_PREFIX ++ concat ((λ t, NL ++ dumps t) <$> (t :: ts)) ++ NL
             ++ lit "</tools>" ++ TOOLS_INSTRUCTIONS ++ o)].
    split; [|done]. unfold turn. cbn [fmap list_fmap concat fst snd].
    rewrite app_nil_r, <- !app_assoc. reflexivity.
Qed.

Lemma render_parts_of req r : render req = Ok r →
  ∃ first ms sys cnt1 lqi cnt2 out, messages req = first :: ms
    ∧ system_block req first (0, 0) = Ok (sys, cnt1)
    ∧ scan_queries (messages req) (add_vision_id (opts req)) (length (messages req))
        (true, (length (messages req) - 1)%nat, cnt1) = Ok (false, lqi, cnt2)
    ∧ main_loop (messages req) (add_vision_id (opts req)) lqi 0 (messages req) sys cnt2
        = Ok (out, (images r, videos r))
    ∧ text r = out ++ generation_prompt (opts req).
Proof.
  unfold render. destruct (messages req) as [|first ms] eqn:Hm; [done|]. cbn zeta. intros Hok.
  apply bind_Ok in Hok as ([sys cnt1] & Hs & Hok). apply bind_Ok in Hok as ([[multi lqi] cnt2] & Hq & Hok).
  destruct multi; [done|]. apply bind_Ok in Hok as ([out [im vi]] & Hl & [= <-]).
  by exists first, ms, sys, cnt1, lqi, cnt2, out.
Qed.

(** ** Text-only conversations *)

Definition textual (m : Message) : Prop :=
  match content m with CText _ | CNone => True | _ => False end.
Definition content_text (c : Content) : rstr := match c with CText s => s | _ => [] end.

(** A user message that is not a wrapped tool result. *)
Definition query (m : Message) : Prop :=
  role m = User ∧ is_tool_response (jinja_trim (content_text (content m))) = false.

(** A role that cannot stand at position [i]. *)
Definition bad_role (i : nat) (m : Message) : option rstr :=
  match role m with
  | System => if decide (i = O) then None else Some ERR_SYSTEM_NOT_FIRST
  | OtherRole _ => Some ERR_UNEXPECTED_ROLE
  | _ => None
  end.

Lemma textual_content m do_count is_system avi cnt : textual m →
  trimmed_content (content m) do_count is_system avi cnt = Ok (jinja_trim (content_text (content m)), cnt).
Proof. unfold textual, trimmed_content. by destruct (content m). Qed.

Lemma query_is_query m avi cnt : textual m → is_query avi cnt m ↔ query m.
Proof.
  intros Ht. unfold is_query, query. rewrite textual_content by done. split; intros [Hr H]; split; try done.
  - by eapply H.
  - by intros c cnt' [= <- <-].
Qed.

Lemma scan_textual msgs avi k : Forall textual msgs → (k ≤ length msgs)%nat →
  ∀ st, ∃ st', scan_queries msgs avi k st = Ok st'.
Proof.
  intros Ht. induction k as [|k IH]; intros Hk [[multi lqi] cnt]; cbn [scan_queries]; [by eexists|].
  destruct (msgs !! k) as [m|] eqn:Hm; [|by eexists].
  rewrite Forall_lookup in Ht. rewrite textual_content by by eapply Ht.
  destruct (multi && _); cbn [mbind result_bind]; apply IH; lia.
Qed.

Lemma system_block_textual req first cnt : textual first → ∃ out, system_block req first cnt = Ok (out, cnt).
Proof.
  intros Ht. unfold system_block. cbn zeta. rewrite !textual_content by done.
  destruct (tools req), (decide (role first = System)); by eexists.
Qed.

(** The loop stops at the first message whose role cannot stand there. *)
Lemma main_loop_textual msgs avi lqi rest : Forall textual rest → ∀ i out cnt,
  match main_loop msgs avi lqi i rest out cnt with
  | Ok (_, cnt') => cnt' = cnt ∧ ∀ j m, rest !! j = Some m → bad_role (i + j) m = None
  | Err e => ∃ j m, rest !! j = Some m ∧ bad_role (i + j) m = Some e
             ∧ ∀ j' m', (j' < j)%nat → rest !! j' = Some m' → bad_role (i + j') m' = None
  end.
Proof.
  intros Ht. induction Ht as [|m rest Hm _ IH]; intros i out cnt; cbn [main_loop]; [done|].
  rewrite textual_content by done. cbn [mbind result_bind].
  destruct (message_block msgs lqi i m _) as [b|e] eqn:Hb; cbn [mbind result_bind].
  - assert (bad_role (i + 0) m = None) as H0.
    { rewrite Nat.add_0_r. unfold message_block, bad_role in *. destruct (role m); try done. by repeat case_decide. }
    specialize (IH (S i) (out ++ b) cnt).
    destruct (main_loop msgs avi lqi (S i) rest (out ++ b) cnt) as [[out' cnt']|e].
    + destruct IH as [-> IH]. split; [done|]. intros [|j] m'; cbn [lookup list_lookup]; [by intros [= <-]|].
      rewrite Nat.add_succ_r. apply IH.
    + destruct IH as (j & m' & Hj & He & Hmin). exists (S j), m'. rewrite Nat.add_succ_r.
      split; [done|]. split; [done|]. intros [|j'] m'' Hj'; cbn [lookup list_lookup]; [by intros [= <-]|].
      rewrite Nat.add_succ_r. apply Hmin. lia.
  - exists O, m. rewrite Nat.add_0_r. split; [done|]. split; [|lia].
    unfold message_block, bad_role in *. destruct (role m); try discriminate Hb.
    + case_decide; [|done]. rewrite decide_False by done. congruence.
    + congruence.
Qed.

(** ** Properties *)

(** C38. A rendered conversation is a sequence of closed turns followed by the
    generation prompt: one system turn when there are tools or a leading system
    message, one turn per user or assistant message, and one user turn per run
    of consecutive tool results.  The first message must not be a tool result:
    the template opens no turn for it ([ChatWitness.tool_first_unopened]). *)
Theorem render_turns (req : Request) (r : Rendered)
    (Hfirst : match messages req with m :: _ => role m ≠ Tool | [] => True end)
    (Hok : render req = Ok r) :
  ∃ turns, text r = concat (turn <$> turns) ++ generation_prompt (opts req)
    ∧ turns.*1 =
      (if bool_decide (tools req ≠ [] ∨ (role <$> head (messages req)) = Some System)
       then [lit "system"] else []) ++ turn_roles false (messages req).
Proof.
  destruct (render_parts_of req r Hok) as (first & ms & sys & cnt1 & lqi & cnt2 & out & Hm & Hs & _ & Hl & ->).
  destruct (system_block_turn _ _ _ _ _ Hs) as (t1 & -> & Ht1).
  assert (∃ added, out = concat (turn <$> t1) ++ added ∧ adds_turns (ends_in_tool []) (messages req) added)
    as (added & -> & body & t2 & -> & Ht2).
  { apply (main_loop_turns (messages req) (add_vision_id (opts req)) lqi (messages req) [] _ cnt2 out
      (images r, videos r) eq_refl); [|exact Hl]. by destruct (messages req). }
  exists (t1 ++ t2). rewrite fmap_app, concat_app, fmap_app. cbn [ends_in_tool last andb app] in *. split; [done|].
  rewrite Ht1, Ht2, Hm. cbn [head fmap option_fmap option_map]. f_equal.
  apply (f_equal (λ b : bool, if b then _ else _)). apply bool_decide_ext.
  split; (intros [?|H]; [by left|right]); congruence.
Qed.

(** The counters a render returns are exactly the image and the video parts
    of the conversation, each counted once, although a content is rendered up
    to three times. *)
Theorem render_counts (req : Request) (r : Rendered) (Hok : render req = Ok r) :
  images r = image_count (messages req) ∧ videos r = video_count (messages req).
Proof.
  destruct (render_parts_of req r Hok) as (first & ms & sys & cnt1 & lqi & cnt2 & out & Hm & Hs & Hq & Hl & _).
  apply system_block_count in Hs as ->. apply scan_queries_spec in Hq as [-> _]; [|done].
  apply main_loop_count in Hl as [-> ->]. lia.
Qed.

Lemma render_textual (req : Request) (Ht : Forall textual (messages req)) :
  match render req with
  | Ok _ => messages req ≠ [] ∧ Exists query (messages req)
      ∧ ∀ i m, messages req !! i = Some m → bad_role i m = None
  | Err e =>
      (messages req = [] ∧ e = ERR_NO_MESSAGES)
      ∨ (messages req ≠ [] ∧ ¬ Exists query (messages req) ∧ e = ERR_NO_USER_QUERY)
      ∨ (messages req ≠ [] ∧ Exists query (messages req)
         ∧ ∃ i m, messages req !! i = Some m ∧ bad_role i m = Some e
           ∧ ∀ j m', (j < i)%nat → messages req !! j = Some m' → bad_role j m' = None)
  end.
Proof.
  unfold render. destruct (messages req) as [|first ms] eqn:Hm; [by left|]. rewrite <- Hm in *.
  assert (messages req ≠ []) as Hne by by rewrite Hm.
  assert (textual first) as Hf by (rewrite Hm in Ht; by inversion Ht). cbn zeta.
  destruct (system_block_textual req first (0, 0) Hf) as [sys ->]. cbn [mbind result_bind].
  destruct (scan_textual (messages req) (add_vision_id (opts req)) (length (messages req)) Ht ltac:(done)
    (true, (length (messages req) - 1)%nat, (0, 0))) as [[[multi lqi] cnt] Hq].
  rewrite Hq. cbn [mbind result_bind]. apply scan_queries_spec in Hq as [-> Hq]; [|done].
  rewrite Forall_lookup in Ht. destruct multi.
  - right. left. split; [done|]. split; [|done]. intros (m & [i Hi]%list_elem_of_lookup & Hqm)%Exists_exists.
    apply (Hq i m); [by eapply lookup_lt_Some|done|]. apply query_is_query; [by eapply Ht|done].
  - assert (Exists query (messages req)) as Hex.
    { destruct Hq as (_ & (m & Hi & Hqm) & _). apply Exists_exists. exists m.
      split; [by eapply list_elem_of_lookup_2|]. apply query_is_query in Hqm; [done|by eapply Ht]. }
    rewrite <- Forall_lookup in Ht.
    pose proof (main_loop_textual (messages req) (add_vision_id (opts req)) lqi (messages req) Ht 0 sys (0, 0)) as Hl.
    destruct (main_loop _ _ _ _ _ _ _) as [[out cnt]|e]; cbn [mbind result_bind].
    + destruct Hl as [_ Hl]. by split.
    + right. right. by split.
Qed.

(** C39. The outcome of rendering a text-only conversation, errors included: it
    fails without messages, without a genuine user query, or at the first
    message whose role cannot stand at its position (a system message that is
    not first, an unknown role wherever it stands), in that order; and otherwise
    it succeeds. *)
Theorem render_outcome (req : Request) (Ht : Forall textual (messages req)) :
  match render req with
  | Ok _ => messages req ≠ [] ∧ Exists query (messages req)
      ∧ ∀ i m, messages req !! i = Some m → bad_role i m = None
  | Err e =>
      (messages req = [] ∧ e = ERR_NO_MESSAGES)
      ∨ (messages req ≠ [] ∧ ¬ Exists query (messages req) ∧ e = ERR_NO_USER_QUERY)
      ∨ (messages req ≠ [] ∧ Exists query (messages req)
         ∧ ∃ i m, messages req !! i = Some m ∧ bad_role i m = Some e
           ∧ ∀ j m', (j < i)%nat → messages req !! j = Some m' → bad_role j m' = None)
  end.
Proof. by apply render_textual. Qed.
