(* ===== verification/ChatParseProps.v ===== *)
(** * Rendering and parsing an assistant turn are inverse

    The text the template writes for an assistant message is parsed back into
    its reasoning, content and calls, and rendering the reply again gives the
    same bytes; and when parsing returns at all. *)

From S2P Require Import Prelude Rstr Utf8 PyJson Pretokenize Chat ChatProps ChatParse.

(** ** The text of a turn *)

Definition call_inner (tc : FunctionCall) : rstr :=
  NL ++ lit "<function=" ++ fname tc ++ TAG_END ++ concat (render_argument <$> arguments tc)
  ++ lit "</function>" ++ NL.

(** What the template writes between the role and the end of the turn. *)
Definition assistant_body (r c : rstr) (calls : list FunctionCall) : rstr :=
  THINK_OPEN ++ NL ++ r ++ NL ++ THINK_CLOSE ++ NL ++ NL ++ c ++ concat (imap (render_call c) calls).

(** The calls as the parser returns them: every value as its text. *)
Definition stringify (tc : FunctionCall) : Parsed.FunctionCall :=
  Parsed.mkCall (fname tc) (prod_map id argument_text <$> arguments tc).

(** The delimiters do not appear inside what they delimit. *)
Definition argument_ok (a : rstr * Value) : Prop :=
  contains TAG_END a.1 = false ∧ contains PARAM_CLOSE (argument_text a.2) = false.
Definition call_ok (tc : FunctionCall) : Prop :=
  fname tc ≠ [] ∧ contains TAG_END (fname tc) = false ∧ Forall argument_ok (arguments tc)
  ∧ contains TOOL_CLOSE (call_inner tc) = false.

Lemma TAG_END_cons : TAG_END = 62 :: [10]. Proof. reflexivity. Qed.
Lemma PARAM_CLOSE_cons : PARAM_CLOSE = 10 :: lit "</parameter>". Proof. reflexivity. Qed.
Lemma PARAM_SEP_cons : PARAM_CLOSE ++ NL = 10 :: lit "</parameter>" ++ NL. Proof. reflexivity. Qed.
Lemma TOOL_OPEN_cons : TOOL_OPEN = 60 :: lit "tool_call>". Proof. reflexivity. Qed.
Lemma TOOL_CLOSE_cons : TOOL_CLOSE = 60 :: lit "/tool_call>". Proof. reflexivity. Qed.
Lemma THINK_CLOSE_cons : THINK_CLOSE = 60 :: lit "/think>". Proof. reflexivity. Qed.
Lemma THINK_OPEN_rev : reverse THINK_OPEN = 62 :: lit "kniht<". Proof. reflexivity. Qed.

(** A character is not in a closed string. *)
Ltac not_in := apply (bool_decide_unpack _); vm_compute; exact I.

Lemma tag_split a b : contains TAG_END a = false → split_once TAG_END (a ++ TAG_END ++ b) = Some (a, b).
Proof. rewrite TAG_END_cons. intros H. apply split_once_after; [done|not_in]. Qed.

(** A value followed by another block: the longer separator matches first. *)
Lemma param_split v b : contains PARAM_CLOSE v = false →
  split_once (PARAM_CLOSE ++ NL) (v ++ (PARAM_CLOSE ++ NL) ++ b) = Some (v, b).
Proof.
  intros Hv. apply split_once_first. intros i Hi [t Ht].
  assert (¬ occurs_at PARAM_CLOSE (v ++ (PARAM_CLOSE ++ NL) ++ b) i) as Hn.
  { rewrite PARAM_CLOSE_cons. apply no_straddle; [by rewrite <- PARAM_CLOSE_cons| |done]. not_in. }
  apply Hn. exists (NL ++ t). by rewrite Ht, <- app_assoc.
Qed.

(** The last value: only the shorter separator is left. *)
Lemma param_split_last v : contains PARAM_CLOSE v = false →
  split_once (PARAM_CLOSE ++ NL) (v ++ PARAM_CLOSE) = None
  ∧ split_once PARAM_CLOSE (v ++ PARAM_CLOSE) = Some (v, []).
Proof.
  intros Hv. assert (∀ i, (i < length v)%nat → ¬ occurs_at PARAM_CLOSE (v ++ PARAM_CLOSE ++ []) i) as Hn.
  { intros i Hi. rewrite PARAM_CLOSE_cons. apply no_straddle; [by rewrite <- PARAM_CLOSE_cons| |done]. not_in. }
  split.
  - apply split_once_None. intros i _ [t Ht]. destruct (decide (i < length v)%nat) as [Hi|Hi].
    + apply (Hn i Hi). rewrite app_nil_r. exists (NL ++ t). by rewrite Ht, <- app_assoc.
    + apply (f_equal length) in Ht. rewrite length_drop, !length_app in Ht. cbn [length NL] in Ht. lia.
  - rewrite <- (app_nil_r PARAM_CLOSE) at 2. by apply split_once_first.
Qed.

Lemma param_open_strip k : strip_prefix (lit "<parameter=") (lit "<parameter=" ++ k) = Some k.
Proof. apply strip_prefix_app. Qed.

Lemma render_argument_shape a :
  render_argument a = lit "<parameter=" ++ a.1 ++ TAG_END ++ argument_text a.2 ++ PARAM_CLOSE ++ NL.
Proof. unfold render_argument, TAG_END, PARAM_CLOSE. by rewrite <- !app_assoc. Qed.

(** The blocks of the parameters, without the newline after the last one. *)
Fixpoint params_text (l : list (rstr * Value)) : rstr :=
  match l with
  | [] => []
  | [a] => lit "<parameter=" ++ a.1 ++ TAG_END ++ argument_text a.2 ++ PARAM_CLOSE
  | a :: l => render_argument a ++ params_text l
  end.

Lemma params_text_snoc l : l ≠ [] → concat (render_argument <$> l) = params_text l ++ NL.
Proof.
  induction l as [|a [|b l] IH]; [done| |]; intros _.
  - cbn [fmap list_fmap concat params_text]. rewrite app_nil_r, render_argument_shape. by rewrite <- !app_assoc.
  - change (concat (render_argument <$> a :: b :: l)) with (render_argument a ++ concat (render_argument <$> b :: l)).
    rewrite IH by done. change (params_text (a :: b :: l)) with (render_argument a ++ params_text (b :: l)).
    by rewrite <- app_assoc.
Qed.

Lemma params_text_head l : match params_text l with [] => True | c :: _ => c = 60 end.
Proof. destruct l as [|a [|b l]]; done. Qed.

Lemma params_text_cons l : l ≠ [] → ∃ s, params_text l = 60 :: s.
Proof. destruct l as [|a [|b l]]; [done|by eexists..]. Qed.

Definition call_block (tc : FunctionCall) : rstr := TOOL_OPEN ++ call_inner tc ++ TOOL_CLOSE.

Lemma render_call_block c j tc :
  render_call c j tc = (match j with O => match jinja_trim c with [] => [] | _ => NL ++ NL end | S _ => NL end)
                       ++ call_block tc.
Proof.
  unfold render_call, call_block, call_inner, TOOL_OPEN, TOOL_CLOSE, TAG_END.
  by rewrite <- !app_assoc.
Qed.

#[local] Opaque lit TAG_END PARAM_CLOSE.

Lemma parse_parameters_text l : Forall argument_ok l → ∀ fuel, (length (params_text l) ≤ fuel)%nat →
  parse_parameters fuel (params_text l) = Ok (prod_map id argument_text <$> l).
Proof.
  induction 1 as [|a l [Hk Hv] Hl IH]; intros fuel Hf; [by destruct fuel|].
  destruct (params_text_cons (a :: l) ltac:(done)) as [s Hs]. rewrite Hs in Hf |- *.
  destruct fuel as [|fuel]; [cbn in Hf; lia|]. cbn [parse_parameters]. rewrite <- Hs in Hf |- *. clear s Hs.
  destruct l as [|b l].
  - cbn [params_text]. rewrite param_open_strip. cbn [ok_or mbind result_bind].
    rewrite tag_split by done. cbn [ok_or mbind result_bind].
    destruct (param_split_last (argument_text a.2) Hv) as [-> ->]. cbn [ok_or mbind result_bind trim_start].
    destruct fuel; cbn; by destruct a.
  - change (params_text (a :: b :: l)) with (render_argument a ++ params_text (b :: l)) in *.
    rewrite render_argument_shape in *. rewrite <- !app_assoc in *.
    rewrite param_open_strip. cbn [ok_or mbind result_bind].
    rewrite tag_split by done. cbn [ok_or mbind result_bind].
    rewrite (app_assoc PARAM_CLOSE), param_split by done. cbn [ok_or mbind result_bind].
    rewrite trim_start_id by by destruct l.
    rewrite IH; [by destruct a|]. rewrite !length_app in Hf.
    assert (length (lit "<parameter=") = 11%nat) by reflexivity. lia.
Qed.

Lemma strip_suffix_app s suf : strip_suffix suf (s ++ suf) = Some s.
Proof. unfold strip_suffix. rewrite reverse_app, strip_prefix_app. cbn. by rewrite reverse_involutive. Qed.

Lemma nl_forall : Forall (λ c, is_nl c = true) NL.
Proof. by apply Forall_singleton. Qed.

(** Ends that no newline trimming touches. *)
Lemma trimmed_ends p a b s : match a with [] => False | c :: _ => p c = false end →
  match reverse b with [] => False | c :: _ => p c = false end → trimmed p (a ++ s ++ b).
Proof.
  intros Ha Hb. split; [by destruct a|]. rewrite !reverse_app. by destruct (reverse b).
Qed.

Lemma params_trim l : trim is_nl (concat (render_argument <$> l)) = params_text l.
Proof.
  destruct (decide (l = [])) as [->|Hne]; [done|]. rewrite params_text_snoc by done.
  apply (trim_surround is_nl [] NL); [constructor|exact nl_forall|].
  split; [pose proof (params_text_head l) as H; destruct (params_text l); [done|by subst]|].
  clear Hne. induction l as [|a [|b l] IH]; [done| |].
  - cbn [params_text]. rewrite !reverse_app. done.
  - change (params_text (a :: b :: l)) with (render_argument a ++ params_text (b :: l)). rewrite reverse_app.
    destruct (params_text_cons (b :: l) ltac:(done)) as [s Hs]. rewrite Hs in *.
    destruct (reverse (60 :: s)) as [|c u] eqn:E; [|done].
    apply (f_equal length) in E. rewrite length_reverse in E. done.
Qed.

Lemma parse_one_inner tc : call_ok tc → parse_one (call_inner tc) = Ok (stringify tc).
Proof.
  intros (Hne & Hn & Hargs & _). unfold parse_one, call_inner.
  set (ps := concat (render_argument <$> arguments tc)).
  assert (trim is_nl (NL ++ lit "<function=" ++ fname tc ++ TAG_END ++ ps ++ lit "</function>" ++ NL)
          = lit "<function=" ++ (fname tc ++ TAG_END ++ ps) ++ lit "</function>") as ->.
  { rewrite <- (trim_surround is_nl NL NL (lit "<function=" ++ (fname tc ++ TAG_END ++ ps) ++ lit "</function>"));
      [by rewrite <- !app_assoc|exact nl_forall..|by apply trimmed_ends]. }
  rewrite strip_prefix_app. cbn [ok_or mbind result_bind]. rewrite <- !app_assoc, tag_split by done.
  cbn [ok_or mbind result_bind]. rewrite decide_False by done.
  assert (trim_end is_nl (ps ++ lit "</function>") = ps ++ lit "</function>") as ->.
  { unfold trim_end. rewrite trim_start_id; [apply reverse_involutive|]. by rewrite reverse_app. }
  rewrite strip_suffix_app. cbn [ok_or mbind result_bind]. subst ps. rewrite params_trim.
  by rewrite parse_parameters_text.
Qed.

Lemma parse_one_trim tc : call_ok tc → parse_one (trim is_nl (call_inner tc)) = Ok (stringify tc).
Proof.
  intros Hok. rewrite <- (parse_one_inner tc Hok). unfold parse_one.
  by rewrite (trim_id _ _ (trim_trimmed is_nl (call_inner tc))).
Qed.

Lemma parse_calls_step tc pre tail fuel : call_ok tc → contains TOOL_OPEN pre = false →
  parse_calls (S fuel) (pre ++ call_block tc ++ tail) =
  (cs ← parse_calls fuel tail; Ok (stringify tc :: cs)).
Proof.
  intros Htc Hpre. unfold call_block. rewrite <- !app_assoc. cbn [parse_calls].
  assert (split_once TOOL_OPEN (pre ++ TOOL_OPEN ++ call_inner tc ++ TOOL_CLOSE ++ tail)
      = Some (pre, call_inner tc ++ TOOL_CLOSE ++ tail)) as ->.
  { rewrite TOOL_OPEN_cons in *. apply split_once_after; [done|not_in]. }
  assert (split_once TOOL_CLOSE (call_inner tc ++ TOOL_CLOSE ++ tail) = Some (call_inner tc, tail)) as ->.
  { destruct Htc as (_ & _ & _ & Hc). rewrite TOOL_CLOSE_cons in *. apply split_once_after; [done|not_in]. }
  cbn [ok_or mbind result_bind]. by rewrite parse_one_trim.
Qed.

Lemma length_call_block tc : (11 ≤ length (call_block tc))%nat.
Proof. unfold call_block. rewrite !length_app. assert (length TOOL_OPEN = 11%nat) by reflexivity. lia. Qed.

Lemma parse_calls_blocks cs : Forall call_ok cs → ∀ tc pre fuel, call_ok tc → contains TOOL_OPEN pre = false →
  (length (pre ++ call_block tc ++ concat ((λ c, NL ++ call_block c) <$> cs)) ≤ fuel)%nat →
  parse_calls fuel (pre ++ call_block tc ++ concat ((λ c, NL ++ call_block c) <$> cs))
  = Ok (stringify <$> tc :: cs).
Proof.
  induction 1 as [|tc' cs Htc' Hcs IH]; intros tc pre fuel Htc Hpre Hf;
    rewrite !length_app in Hf; pose proof (length_call_block tc) as Hl;
    (destruct fuel as [|fuel]; [lia|]); rewrite parse_calls_step by done.
  - by destruct fuel.
  - cbn [fmap list_fmap concat] in *. rewrite <- app_assoc.
    rewrite IH; [done|done|reflexivity|]. rewrite !length_app in *. lia.
Qed.

(** ** The whole turn *)

Lemma calls_text c tc cs :
  concat (imap (render_call c) (tc :: cs)) =
  (match jinja_trim c with [] => [] | _ => NL ++ NL end) ++ call_block tc
  ++ concat ((λ c, NL ++ call_block c) <$> cs).
Proof.
  cbn [imap concat]. rewrite render_call_block, <- app_assoc. do 3 f_equal.
  assert (∀ k, imap (render_call c ∘ S ∘ Nat.add k) cs = (λ c, NL ++ call_block c) <$> cs) as H; [|exact (H 0%nat)].
  induction cs as [|c' cs IH]; intros k; [done|]. cbn [imap fmap list_fmap]. f_equal.
  - apply render_call_block.
  - rewrite <- (IH (S k)). apply imap_ext. intros i x _. unfold compose. first [done | f_equal; lia].
Qed.

Lemma nl_space : is_python_space 10 = true. Proof. reflexivity. Qed.
Lemma nl_space_forall n : Forall (λ c, is_python_space c = true) (replicate n 10).
Proof. apply Forall_replicate. reflexivity. Qed.

(** What is left of the content when the newlines before it are dropped, with
    the calls after it. *)
Lemma trim_start_calls c calls :
  let body := c ++ concat (imap (render_call c) calls) in
  trim_start is_nl body = trim_start is_nl c ++ concat (imap (render_call c) calls).
Proof.
  cbn zeta. destruct (trim_start_suffix is_nl c) as (n & Hc & Hn). set (k := trim_start is_nl c) in *.
  pose proof (trim_start_head is_nl c) as Hk. fold k in Hk.
  rewrite Hc at 1. rewrite <- app_assoc, trim_start_app by done. apply trim_start_id.
  destruct k as [|x k]; [|done]. cbn [app]. destruct calls as [|tc cs]; [done|].
  rewrite calls_text, Hc, app_nil_r. unfold jinja_trim. rewrite <- (app_nil_r n), trim_app_l; [done|].
  eapply Forall_impl; [exact Hn|]. intros y Hy%Z.eqb_eq. by rewrite Hy.
Qed.

(** Parsing the part of the turn after the think block. *)
Lemma parse_tail c calls : contains TOOL_OPEN c = false → Forall call_ok calls →
  let body := trim_start is_nl c ++ concat (imap (render_call c) calls) in
  parse_tool_calls body = Ok (stringify <$> calls) ∧ jinja_trim (split_first TOOL_OPEN body) = jinja_trim c.
Proof.
  intros Hno Hcalls. cbn zeta. destruct (trim_start_suffix is_nl c) as (n & Hc & Hn).
  set (k := trim_start is_nl c) in *.
  assert (contains TOOL_OPEN k = false) as Hnok.
  { destruct (contains TOOL_OPEN k) eqn:E; [|done]. apply contains_true in E as (u & v & E).
    rewrite <- Hno. symmetry. apply contains_true. exists (n ++ u), v. by rewrite Hc, E, <- app_assoc. }
  assert (jinja_trim k = jinja_trim c) as Hk.
  { rewrite Hc. unfold jinja_trim. rewrite trim_app_l; [done|].
    eapply Forall_impl; [exact Hn|]. intros y Hy%Z.eqb_eq. by rewrite Hy. }
  destruct Hcalls as [|tc cs Htc' Hcs].
  - cbn [imap concat]. rewrite app_nil_r. split.
    + unfold parse_tool_calls. by destruct (length k); cbn [parse_calls]; rewrite split_once_absent.
    + unfold split_first. by rewrite split_once_absent.
  - rewrite calls_text. set (sep := match jinja_trim c with [] => [] | _ => NL ++ NL end).
    assert (Forall (λ c, is_python_space c = true) sep) as Hsep
      by (subst sep; destruct (jinja_trim c); [constructor|apply (nl_space_forall 2)]).
    set (pre := k ++ sep).
    assert (contains TOOL_OPEN pre = false) as Hpre.
    { subst pre. rewrite TOOL_OPEN_cons in *.
      apply contains_app_head; [done|subst sep; by destruct (jinja_trim c)|].
      subst sep. destruct (jinja_trim c); [done|]. not_in. }
    rewrite (app_assoc k). fold pre. split.
    + unfold parse_tool_calls. by apply parse_calls_blocks.
    + unfold split_first, call_block. rewrite <- !app_assoc.
      assert (∀ b, split_once TOOL_OPEN (pre ++ TOOL_OPEN ++ b) = Some (pre, b)) as ->.
      { intros b. rewrite TOOL_OPEN_cons in *. apply split_once_after; [done|not_in]. }
      rewrite <- Hk. subst pre. by apply trim_app_r.
Qed.

Lemma parse_assistant_body r c calls : trimmed is_python_space r →
  contains THINK_OPEN r = false → contains THINK_CLOSE r = false → contains TOOL_OPEN c = false →
  Forall call_ok calls →
  parse_assistant (assistant_body r c calls) = Some (mkReply (Some r) (jinja_trim c) (stringify <$> calls)).
Proof.
  intros Hr Ho Hcl Hno Hcalls. destruct (parse_tail c calls Hno Hcalls) as (H1 & H2).
  pose proof (trim_start_calls c calls) as H3. cbn zeta in H3.
  unfold parse_assistant, assistant_body. set (body := c ++ _) in *.
  assert (contains THINK_CLOSE ((THINK_OPEN ++ NL) ++ r ++ NL) = false) as Ha.
  { apply contains_app_last; [reflexivity| |not_in]. rewrite THINK_CLOSE_cons in *.
    apply contains_app_head; [done|reflexivity|not_in]. }
  assert (split_once THINK_CLOSE (THINK_OPEN ++ NL ++ r ++ NL ++ THINK_CLOSE ++ NL ++ NL ++ body)
    = Some ((THINK_OPEN ++ NL) ++ r ++ NL, NL ++ NL ++ body)) as ->.
  { replace (THINK_OPEN ++ NL ++ r ++ NL ++ THINK_CLOSE ++ NL ++ NL ++ body)
      with (((THINK_OPEN ++ NL) ++ r ++ NL) ++ THINK_CLOSE ++ NL ++ NL ++ body) by by rewrite <- !app_assoc.
    rewrite THINK_CLOSE_cons in *. apply split_once_after; [done|not_in]. }
  assert (jinja_trim (split_last THINK_OPEN ((THINK_OPEN ++ NL) ++ r ++ NL)) = r) as ->.
  { pose proof (split_last_after THINK_OPEN _ _ [] (NL ++ r ++ NL) THINK_OPEN_rev) as Hs.
    rewrite <- app_assoc. change (THINK_OPEN ++ NL ++ r ++ NL) with ([] ++ THINK_OPEN ++ NL ++ r ++ NL).
    rewrite Hs; [|not_in|].
    - apply trim_surround; [apply (nl_space_forall 1)..|done].
    - apply (contains_app_last THINK_OPEN [] 10); [reflexivity| |not_in].
      change THINK_OPEN with (60 :: lit "think>") in *. apply contains_app_head; [done|reflexivity|not_in]. }
  assert (trim_start is_nl (NL ++ NL ++ body) = trim_start is_nl c ++ concat (imap (render_call c) calls))
    as -> by exact H3.
  by rewrite H1, H2.
Qed.

(** ** Rendering the reply again *)

Lemma render_stringified c j tc :
  render_call c j (mkCall (Parsed.name (stringify tc)) (prod_map id Str <$> Parsed.arguments (stringify tc)))
  = render_call c j tc.
Proof.
  unfold render_call, stringify. cbn [Parsed.name Parsed.arguments fname arguments].
  assert (render_argument <$> (prod_map id Str <$> (prod_map id argument_text <$> arguments tc))
          = render_argument <$> arguments tc) as ->; [|done].
  induction (arguments tc) as [|a l IH]; [done|]. cbn [fmap list_fmap]. f_equal. exact IH.
Qed.

Lemma assistant_block_body m i lqi content : (lqi < i)%nat →
  assistant_block m i lqi content =
  turn (lit "assistant", assistant_body (jinja_trim (split_reasoning m content).1) (split_reasoning m content).2
                           (tool_calls m)).
Proof.
  intros Hi. unfold assistant_block, turn, assistant_body. destruct (split_reasoning m content) as [r c].
  cbn zeta. cbn [fst snd]. rewrite decide_True by done. by rewrite <- !app_assoc.
Qed.

(** ** Returning at all *)

Definition ascii (s : rstr) : Prop := Forall (λ c, 0 ≤ c < 128) s.

Lemma boundary_ascii s : ascii s → ∀ k, 0 ≤ k ≤ len s → is_char_boundary k s = true.
Proof.
  induction 1 as [|c s Hc _ IH]; intros k Hk; cbn [is_char_boundary]; case_decide as E; try done.
  - unfold len in Hk. cbn in Hk. lia.
  - assert (len_utf8 c = 1) as ->. { unfold len_utf8. by rewrite (proj2 (Z.ltb_lt c 0x80)) by lia. }
    rewrite decide_False by lia. apply IH. unfold len in *. cbn [length] in Hk. lia.
Qed.

Lemma first_24_ascii s e : ascii s → first_24 s e = e.
Proof.
  intros Hs. unfold first_24. rewrite boundary_ascii; [done|done|]. rewrite utf8_ascii by done.
  pose proof (len_nonneg s). lia.
Qed.

Lemma first_24_either s e : first_24 s e = e ∨ first_24 s e = Panic.
Proof. unfold first_24. case_match; by auto. Qed.

Lemma split_once_parts pat s a b : split_once pat s = Some (a, b) →
  (length a + length pat + length b = length s)%nat ∧ (ascii s → ascii a ∧ ascii b).
Proof.
  intros ->%split_once_Some. rewrite !length_app. split; [lia|].
  unfold ascii. rewrite !Forall_app. tauto.
Qed.

Lemma strip_prefix_parts pre s t : strip_prefix pre s = Some t →
  (length pre + length t = length s)%nat ∧ (ascii s → ascii t).
Proof.
  intros ->%strip_prefix_Some. rewrite length_app. split; [done|]. unfold ascii. rewrite Forall_app. tauto.
Qed.

Lemma trim_start_parts p s : (length (trim_start p s) ≤ length s)%nat ∧ (ascii s → ascii (trim_start p s)).
Proof.
  destruct (trim_start_suffix p s) as (a & Ha & _). split.
  - rewrite Ha at 2. rewrite length_app. lia.
  - intros H. rewrite Ha in H. unfold ascii in *. apply Forall_app in H. tauto.
Qed.

Lemma trim_end_ascii p s : ascii s → ascii (trim_end p s).
Proof. intros H. unfold trim_end. apply Forall_reverse, trim_start_parts. by apply Forall_reverse. Qed.

Lemma trim_ascii p s : ascii s → ascii (trim p s).
Proof. intros H. apply trim_end_ascii. by apply trim_start_parts. Qed.

(** An error that is neither a panic on ASCII input nor a lack of fuel. *)
Definition sound_error {A} (s : rstr) (r : result CallError A) : Prop :=
  match r with Ok _ => True | Err e => e ≠ OutOfFuel ∧ (ascii s → e ≠ Panic) end.

Lemma parse_parameters_sound fuel : ∀ rest, (length rest ≤ fuel)%nat →
  sound_error rest (parse_parameters fuel rest).
Proof.
  induction fuel as [|fuel IH]; intros [|c rest] Hf; [done|cbn in Hf; lia|done|].
  cbn [parse_parameters]. set (s := c :: rest) in *.
  destruct (strip_prefix (lit "<parameter=") s) as [r|] eqn:E1; cbn [ok_or mbind result_bind].
  2: { cbn. destruct (first_24_either s ExpectedParameter) as [H|H]; rewrite H; split; try done.
       intros Ha. by rewrite first_24_ascii in H. }
  destruct (strip_prefix_parts _ _ _ E1) as [L1 A1].
  destruct (split_once TAG_END r) as [[key r2]|] eqn:E2; cbn [ok_or mbind result_bind].
  2: { cbn. destruct (first_24_either r NoParameterEnd) as [H|H]; rewrite H; split; try done.
       intros Ha. rewrite first_24_ascii in H; by auto. }
  destruct (split_once_parts _ _ _ _ E2) as [L2 A2].
  set (v := match split_once (PARAM_CLOSE ++ NL) r2 with Some x => Some x | None => split_once PARAM_CLOSE r2 end).
  assert (match v with Some (value, r3) => (length r3 ≤ length r2)%nat ∧ (ascii r2 → ascii r3) | None => True end) as Hv.
  { subst v. destruct (split_once (PARAM_CLOSE ++ NL) r2) as [[v r3]|] eqn:E3.
    - apply split_once_parts in E3 as [L3 A3]. split; [lia|tauto].
    - destruct (split_once PARAM_CLOSE r2) as [[v r3]|] eqn:E4; [|done].
      apply split_once_parts in E4 as [L3 A3]. split; [lia|tauto]. }
  destruct v as [[value r3]|]; cbn [ok_or mbind result_bind]; [|done]. destruct Hv as [L3 A3].
  destruct (trim_start_parts is_nl r3) as [L4 A4].
  assert (length (lit "<parameter=") = 11%nat) as L5 by reflexivity.
  specialize (IH (trim_start is_nl r3) ltac:(lia)).
  destruct (parse_parameters fuel (trim_start is_nl r3)); cbn in *; [done|].
  destruct IH as [? IH]. split; [done|]. intros Ha. apply IH. tauto.
Qed.

Lemma strip_suffix_ascii suf s t : strip_suffix suf s = Some t → ascii s → ascii t.
Proof.
  unfold strip_suffix. intros (u & Hu & ->)%fmap_Some Hs. apply Forall_reverse.
  apply strip_prefix_parts in Hu as [_ H]. apply H. by apply Forall_reverse.
Qed.

Lemma parse_one_sound body : sound_error body (parse_one body).
Proof.
  unfold parse_one. assert (ascii body → ascii (trim is_nl body)) as A0 by apply trim_ascii.
  destruct (strip_prefix _ (trim is_nl body)) as [r|] eqn:E1; cbn [ok_or mbind result_bind]; [|done].
  apply strip_prefix_parts in E1 as [_ A1].
  destruct (split_once TAG_END r) as [[nm r2]|] eqn:E2; cbn [ok_or mbind result_bind]; [|done].
  apply split_once_parts in E2 as [_ A2]. case_decide; [done|].
  destruct (strip_suffix _ (trim_end is_nl r2)) as [r3|] eqn:E3; cbn [ok_or mbind result_bind]; [|done].

  pose proof (parse_parameters_sound (length (trim is_nl r3)) (trim is_nl r3) ltac:(done)) as Hp.
  destruct (parse_parameters _ _); cbn in *; [done|]. destruct Hp as [? Hp]. split; [done|].
  intros Ha. apply Hp, trim_ascii, (strip_suffix_ascii _ _ _ E3), trim_end_ascii. tauto.
Qed.

Lemma parse_calls_sound fuel : ∀ rest, (length rest ≤ fuel)%nat → sound_error rest (parse_calls fuel rest).
Proof.
  induction fuel as [|fuel IH]; intros rest Hf; cbn [parse_calls].
  all: destruct (split_once TOOL_OPEN rest) as [[pre after]|] eqn:E1; [|done].
  all: apply split_once_parts in E1 as [L1 A1]; assert (length TOOL_OPEN = 11%nat) as L by reflexivity.
  { lia. }
  destruct (split_once TOOL_CLOSE after) as [[body rest']|] eqn:E2; cbn [ok_or mbind result_bind]; [|done].
  apply split_once_parts in E2 as [L2 A2].
  pose proof (parse_one_sound (trim is_nl body)) as Ho.
  destruct (parse_one (trim is_nl body)) as [c|e]; cbn [mbind result_bind] in *; cbn in Ho |- *.
  - specialize (IH rest' ltac:(lia)). destruct (parse_calls fuel rest'); cbn in *; [done|].
    destruct IH as [? IH]. split; [done|]. tauto.
  - destruct Ho as [? Ho]. split; [done|]. intros Ha. apply Ho, trim_ascii. tauto.
Qed.

(** Calls are written alike after a content and after the content trimmed. *)
Lemma calls_trimmed c calls :
  imap (render_call (jinja_trim c)) calls = imap (render_call c) calls.
Proof.
  apply imap_ext. intros j tc _. unfold render_call, jinja_trim.
  by rewrite (trim_id is_python_space (trim is_python_space c)) by apply trim_trimmed.
Qed.

(** The reply as the last message of the conversation. *)
Definition as_message (r : Reply) : Message :=
  mkMessage Assistant (CText (reply_content r)) (reply_reasoning r) (as_chat_calls r).

(** The text of a turn, its parse, and the turn of the reply. *)
Lemma parse_render_both (m : Message) (content : rstr) (i lqi : nat) (r c : rstr) :
  (lqi < i)%nat → split_reasoning m content = (r, c) →
  contains THINK_OPEN (jinja_trim r) = false → contains THINK_CLOSE (jinja_trim r) = false →
  contains TOOL_OPEN c = false → Forall call_ok (tool_calls m) →
  let reply := mkReply (Some (jinja_trim r)) (jinja_trim c) (stringify <$> tool_calls m) in
  assistant_block m i lqi content = turn (lit "assistant", assistant_body (jinja_trim r) c (tool_calls m)) ∧
  parse_assistant (assistant_body (jinja_trim r) c (tool_calls m)) = Some reply ∧
  assistant_block (as_message reply) i lqi (jinja_trim c) =
    turn (lit "assistant", assistant_body (jinja_trim r) (jinja_trim c) (tool_calls m)).
Proof.
  intros Hi Hsplit Hopen Hclose Htool Hcalls reply.
  assert (jinja_trim (jinja_trim r) = jinja_trim r) as Hr by apply trim_id, trim_trimmed.
  split; [|split].
  - rewrite assistant_block_body by done. by rewrite Hsplit.
  - apply parse_assistant_body; [apply trim_trimmed|done..].
  - rewrite assistant_block_body by done. subst reply.
    unfold split_reasoning. cbn [reasoning as_message reply_reasoning tool_calls fst snd]. rewrite Hr.
    unfold assistant_body, as_chat_calls. cbn [reply_calls]. do 2 f_equal. do 8 f_equal.
    rewrite <- !list_fmap_compose. rewrite imap_fmap. f_equal. apply imap_ext. intros j tc _.
    apply render_stringified.
Qed.

(** Bodies differ exactly as their contents do. *)
Lemma body_trimmed r c calls : assistant_body r (jinja_trim c) calls = assistant_body r c calls ↔ jinja_trim c = c.
Proof.
  unfold assistant_body. rewrite calls_trimmed. split; [|by intros ->]. intros H.
  do 7 apply app_inv_head in H. by apply app_inv_tail in H.
Qed.

Lemma turn_inj b b' : turn (lit "assistant", b) = turn (lit "assistant", b') ↔ b = b'.
Proof.
  split; [|by intros ->]. unfold turn. cbn [fst snd]. intros H.
  do 3 apply app_inv_head in H. by apply app_inv_tail in H.
Qed.

(** ** Properties *)

(** C8. Rendering and then parsing an assistant message of the current turn:
    the turn's text is parsed back into its reasoning, its content and its
    calls (values as text, in order), reasoning and content without the space
    around them; and rendering that reply again gives the same bytes exactly
    when the content had no space around it.  The delimiters must not occur
    inside what they delimit: no think tag in the reasoning, no tool-call tag
    in the content, and in each call a name that is not empty and the names,
    values and whole text free of the tags that end them ([call_ok]). *)
Theorem parse_render (m : Message) (content : rstr) (i lqi : nat) (r c : rstr)
    (Hi : (lqi < i)%nat)
    (Hsplit : split_reasoning m content = (r, c))
    (Hopen : contains THINK_OPEN (jinja_trim r) = false)
    (Hclose : contains THINK_CLOSE (jinja_trim r) = false)
    (Htool : contains TOOL_OPEN c = false)
    (Hcalls : Forall call_ok (tool_calls m)) :
  ∃ body reply, assistant_block m i lqi content = turn (lit "assistant", body)
    ∧ parse_assistant body = Some reply
    ∧ reply = mkReply (Some (jinja_trim r)) (jinja_trim c) (stringify <$> tool_calls m)
    ∧ (assistant_block (as_message reply) i lqi (jinja_trim c) = assistant_block m i lqi content
       ↔ jinja_trim c = c).
Proof.
  destruct (parse_render_both m content i lqi r c) as (H1 & H2 & H3); [done..|].
  do 2 eexists. split; [exact H1|]. split; [exact H2|]. split; [reflexivity|].
  by rewrite H1, H3, turn_inj, body_trimmed.
Qed.

(** Rendering, parsing and rendering is not the identity: content written
    after a think tag with a space before it loses that space. *)
Theorem parse_render_space :
  let m := new_message Assistant (lit "r</think> answer") in
  let b := turn (lit "assistant", THINK_OPEN ++ NL ++ lit "r" ++ NL ++ THINK_CLOSE ++ NL ++ NL ++ lit " answer") in
  let b' := turn (lit "assistant", THINK_OPEN ++ NL ++ lit "r" ++ NL ++ THINK_CLOSE ++ NL ++ NL ++ lit "answer") in
  assistant_block m 1 0 (lit "r</think> answer") = b ∧
  assistant_block (as_message (mkReply (Some (lit "r")) (lit "answer") [])) 1 0 (lit "answer") = b' ∧
  parse_assistant (THINK_OPEN ++ NL ++ lit "r" ++ NL ++ THINK_CLOSE ++ NL ++ NL ++ lit " answer") =
    Some (mkReply (Some (lit "r")) (lit "answer") []).
Proof. vm_compute. done. Qed.

(** Parsing a reply always ends, and on ASCII text it returns: the only
    other outcome is the panic of slicing an error message inside a character. *)
Theorem parse_assistant_returns (text : rstr) :
  parse_tool_calls text ≠ Err OutOfFuel
  ∧ (ascii text → ∃ reply, parse_assistant text = Some reply).
Proof.
  assert (∀ s, sound_error s (parse_tool_calls s)) as Hs by (intros s; by apply parse_calls_sound).
  split.
  - intros H. pose proof (Hs text) as Ht. rewrite H in Ht. by destruct Ht.
  - intros Ha. unfold parse_assistant.
    assert (∀ reasoning body, ascii body → ∃ reply,
      match parse_tool_calls body with
      | Ok parsed => Some (mkReply reasoning (jinja_trim (split_first TOOL_OPEN body)) parsed)
      | Err Panic | Err OutOfFuel => None
      | Err _ => Some (mkReply reasoning (jinja_trim body) [])
      end = Some reply) as Hb.
    { intros rs body Hbody. specialize (Hs body). destruct (parse_tool_calls body) as [cs|e]; [by eexists|].
      destruct Hs as [H1 H2]. specialize (H2 Hbody). destruct e; first [done | by eexists]. }
    destruct (split_once THINK_CLOSE text) as [[head body]|] eqn:E; cbn zeta; apply Hb; [|done].
    apply (proj2 (trim_start_parts is_nl body)). apply split_once_parts in E. tauto.
Qed.

(** A reply whose malformed call has a two-byte character across byte 24 makes
    the parser panic instead of reporting the error. *)
Theorem parse_assistant_panics :
  parse_assistant (lit "<tool_call><function=f>" ++ NL ++ lit "01234567890123456789012" ++ [0xE9]
                   ++ lit "</function></tool_call>") = None.
Proof. vm_compute. reflexivity. Qed.
