(* ===== verification/Sample.v ===== *)
(** * gdn: sampling

    Models qwen35-forward/gdn/src/sample.rs: the generator, the logits filters
    in the reference's order, and the draw.  Floats are IEEE 754 ([Float.v]);
    the exponential and the logarithm, whose precision Rust leaves open, are
    arguments.  Sorting compares with [partial_cmp], so its result is Rust's
    when no logit is NaN. *)

From stdpp Require Import sorting.
From S2P Require Import Prelude Float.
#[local] Open Scope Z_scope.

(** [1.0f64] and [1.0f32]: significands are normalised, as comparisons expect. *)
Definition fone : f64 := S754_finite false 4503599627370496 (-52).
Definition fone32 : f32 := S754_finite false 8388608 (-23).
Example fone_is_one : fone = F64.of_Z 1 ∧ fone32 = F32.of_Z 1.
Proof. by vm_compute. Qed.

Definition is_positive (x : f32) : bool :=
  match SFcompare x fzero with Some Gt => true | _ => false end.

Definition FILTERED : f32 := neg_infinity.
Definition is_filtered (x : f32) : bool := SFeqb x FILTERED.

(** [a.partial_cmp(b).unwrap_or(Equal)] *)
Definition cmp_or_equal (a b : spec_float) : comparison := default Eq (SFcompare a b).

(** ** The generator *)

Definition xorshift (z k : Z) : Z := Z.lxor z (Z.shiftr z k).

(** [next_u64]: the number and the new state. *)
Definition next_u64 (state : Z) : Z * Z :=
  let state := wadd state 0x9E3779B97F4A7C15 in
  let z := wmul (xorshift state 30) 0xBF58476D1CE4E5B9 in
  let z := wmul (xorshift z 27) 0x94D049BB133111EB in
  (xorshift z 31, state).

(** [1.0 / 9007199254740992.0] *)
Definition two_pow_m53 : f64 := F64.div (F64.of_Z 1) (F64.of_Z 9007199254740992).

Definition next_f64 (state : Z) : f64 * Z :=
  let '(x, state) := next_u64 state in
  (F64.mul (F64.of_Z (Z.shiftr x 11)) two_pow_m53, state).

(** ** Configuration *)

Record SamplerConfig := mkConfig {
  cfg_temperature : f64;
  cfg_top_k : nat;
  cfg_top_p : f64;
  cfg_min_p : f64;
  cfg_typical_p : f64;
  cfg_repetition_penalty : f64;
  cfg_presence_penalty : f64;
  cfg_frequency_penalty : f64;
  cfg_no_repeat_ngram_size : nat;
  cfg_seed : Z;
}.

Definition default_config : SamplerConfig :=
  mkConfig fzero 0 fone fzero fone fone fzero fzero 0 0.

Definition is_greedy (c : SamplerConfig) : bool := SFleb (cfg_temperature c) fzero.

Inductive ConfigError :=
| NotFinite (name : string) | TopPRange | MinPRange | PenaltyNotPositive | NgramSizeOne.

Definition validate (c : SamplerConfig) : result ConfigError unit :=
  match list_find (λ e : f64 * string, is_finite e.1 = false)
    [(cfg_temperature c, "temperature"); (cfg_top_p c, "top_p"); (cfg_min_p c, "min_p");
     (cfg_typical_p c, "typical_p"); (cfg_repetition_penalty c, "repetition_penalty");
     (cfg_presence_penalty c, "presence_penalty");
     (cfg_frequency_penalty c, "frequency_penalty")]%string with
  | Some (_, (_, name)) => Err (NotFinite name)
  | None =>
      if SFltb (cfg_top_p c) fzero || SFltb fone (cfg_top_p c) then Err TopPRange
      else if SFltb (cfg_min_p c) fzero || SFltb fone (cfg_min_p c) then Err MinPRange
      else if SFleb (cfg_repetition_penalty c) fzero then Err PenaltyNotPositive
      else if decide (cfg_no_repeat_ngram_size c = 1%nat) then Err NgramSizeOne
      else Ok tt
  end.

(** ** Penalties *)

(** The first occurrences, in order, of the in-range tokens of [history]. *)
Definition distinct_tokens (history : list Z) (vocab : nat) : list nat :=
  foldl (λ seen t, let i := Z.to_nat t in
      if decide ((i < vocab)%nat ∧ i ∉ seen) then seen ++ [i] else seen) [] history.

(** [logits[i] = f(logits[i])] unless it is masked. *)
Definition update_unmasked (f : f32 → f32) (logits : list f32) (i : nat) : list f32 :=
  match logits !! i with
  | Some s => if is_filtered s then logits else <[i := f s]> logits
  | None => logits
  end.

Definition repetition_penalty (logits : list f32) (history : list Z) (penalty : f32) : list f32 :=
  if SFeqb penalty fone32 then logits else
  foldl (update_unmasked (λ s, if SFltb s fzero then F32.mul s penalty else F32.div s penalty))
    logits (distinct_tokens history (length logits)).

Definition presence_penalty (logits : list f32) (history : list Z) (penalty : f32) : list f32 :=
  foldl (update_unmasked (λ s, F32.sub s penalty)) logits
    (distinct_tokens history (length logits)).

(** One round of the counting loop: [counts] in order of first occurrence. *)
Fixpoint bump (counts : list (nat * Z)) (i : nat) : list (nat * Z) :=
  match counts with
  | [] => [(i, 1)]
  | (j, c) :: counts => if decide (j = i) then (j, c + 1) :: counts else (j, c) :: bump counts i
  end.

Definition count_tokens (history : list Z) (vocab : nat) : list (nat * Z) :=
  foldl (λ counts t, let i := Z.to_nat t in
      if decide (vocab ≤ i)%nat then counts else bump counts i) [] history.

Definition frequency_penalty (logits : list f32) (history : list Z) (penalty : f32) : list f32 :=
  foldl (λ logits '(i, c), update_unmasked (λ s, F32.sub s (F32.mul penalty (F32.of_Z c))) logits i)
    logits (count_tokens history (length logits)).

(** ** No repeated n-grams *)

(** The tokens that followed an earlier occurrence of the last [n - 1] tokens. *)
Definition banned_tokens (history : list Z) (n : nat) : list Z :=
  let prefix := drop (length history - (n - 1)) history in
  foldl (λ banned w,
      let t := nth (w + n - 1) history 0 in
      if decide (take (n - 1) (drop w history) = prefix ∧ t ∉ banned) then banned ++ [t] else banned)
    [] (seq 0 (length history - n + 1)).

Definition no_repeat_ngram (logits : list f32) (history : list Z) (n : nat) : list f32 :=
  if decide ((n < 2)%nat ∨ (length history < n)%nat) then logits else
  foldl (λ logits t, let i := Z.to_nat t in
      if decide (i < length logits)%nat then <[i := FILTERED]> logits else logits)
    logits (banned_tokens history n).

(** ** Temperature and top-k *)

Definition temperature (logits : list f32) (t : f32) : list f32 :=
  if SFeqb t fone32 then logits else (λ v, F32.div v t) <$> logits.

Definition descending (a b : f32) : Prop := cmp_or_equal b a ≠ Gt.
#[export] Instance descending_dec a b : Decision (descending a b).
Proof. unfold descending. apply _. Defined.

Definition top_k (logits : list f32) (k : nat) : list f32 :=
  if decide (k = O ∨ (length logits ≤ k)%nat) then logits else
  let kth := nth (k - 1) (sort_by descending logits) FILTERED in
  (λ v, if SFltb v kth then FILTERED else v) <$> logits.

(** ** Probabilities *)

Section exp_ln.
Context (fexp fln : f32 → f32).

Definition fsum (l : list f32) : f32 := foldl F32.add fzero l.

(** The largest finite logit, or minus infinity. *)
Definition best_value (logits : list f32) : f32 :=
  foldl fmax FILTERED (filter (λ v, is_finite v = true) logits).

Definition softmax (logits : list f32) : list f32 :=
  let max := best_value logits in
  if is_finite max then
    let out := (λ v, if is_filtered v then fzero else fexp (F32.sub v max)) <$> logits in
    let sum := fsum out in
    if SFltb fzero sum then (λ v, F32.div v sum) <$> out else out
  else replicate (length logits) fzero.

(** The walk of [select] from token [i] on. *)
Fixpoint select_from (probs : list f32) (u : f64) (i : nat) (acc : f64) (last : option nat) :
    option nat :=
  match probs with
  | [] => last
  | p :: probs =>
      if is_positive p then
        let acc := F64.add acc (to_f64 p) in
        if SFltb u acc then Some i else select_from probs u (S i) acc (Some i)
      else select_from probs u (S i) acc last
  end.

Definition select (probs : list f32) (u : f64) : option nat := select_from probs u 0 fzero None.

(** ** Top-p *)

Definition top_p_threshold (p : f64) : f32 := to_f32 (F64.sub fone p).

(** [v[i]] for an index known to be in range. *)
Definition at_ (l : list f32) (i : nat) : f32 := nth i l fzero.

Definition ascending_by (l : list f32) (a b : nat) : Prop := cmp_or_equal (at_ l a) (at_ l b) ≠ Gt.
#[export] Instance ascending_by_dec l a b : Decision (ascending_by l a b).
Proof. unfold ascending_by. apply _. Defined.

(** Mask while the cumulative mass stays under the threshold. *)
Fixpoint top_p_mask (probs : list f32) (threshold : f32) (order : list nat) (acc : f32)
    (logits : list f32) : list f32 :=
  match order with
  | [] => logits
  | i :: order =>
      let acc := F32.add acc (at_ probs i) in
      if SFleb acc threshold then top_p_mask probs threshold order acc (<[i := FILTERED]> logits)
      else logits
  end.

(** [if logits[i] == FILTERED { logits[i] = v }] *)
Definition restore (logits : list f32) (i : nat) (v : f32) : list f32 :=
  if is_filtered (at_ logits i) then <[i := v]> logits else logits.

Definition top_p (logits : list f32) (p : f64) : list f32 :=
  if SFleb fone p then logits else
  let probs := softmax logits in
  if negb (is_positive (fsum probs)) then logits else
  let order := sort_by (ascending_by logits) (seq 0 (length logits)) in
  let best := List.last order O in
  let best_val := at_ logits best in
  restore (top_p_mask probs (top_p_threshold p) order fzero logits) best best_val.

(** ** Min-p *)

(** The loop of [min_p]: [(best, best_p)] and the logits. *)
Fixpoint min_p_loop (floor : f32) (probs : list f32) (i best : nat) (best_p : f32)
    (logits : list f32) : nat * list f32 :=
  match probs with
  | [] => (best, logits)
  | q :: probs =>
      let '(best, best_p) := if SFltb best_p q then (i, q) else (best, best_p) in
      let logits := if SFltb q floor then <[i := FILTERED]> logits else logits in
      min_p_loop floor probs (S i) best best_p logits
  end.

Definition min_p (logits : list f32) (min_p : f64) : list f32 :=
  if SFleb min_p fzero then logits else
  let probs := softmax logits in
  if negb (is_positive (fsum probs)) then logits else
  let top := foldl fmax fzero probs in
  let floor := F32.mul (to_f32 min_p) top in
  let '(best, logits) := min_p_loop floor probs 0 0 FILTERED logits in
  restore logits best (best_value logits).

(** ** Typical-p *)

Definition entropy (p logits : list f32) : f32 :=
  foldl (λ ent '(q, l), if is_positive q && negb (is_filtered l)
                        then F32.sub ent (F32.mul (fln q) q) else ent)
    fzero (zip p logits).

Definition shifted_surprise (ent : f32) (p logits : list f32) : list f32 :=
  zip_with (λ q l, if is_filtered l || negb (is_positive q) then pos_infinity
                   else SFabs (F32.sub (SFopp (fln q)) ent)) p logits.

(** By surprise, then by id. *)
Definition typical_le (shifted : list f32) (a b : nat) : Prop :=
  match cmp_or_equal (at_ shifted a) (at_ shifted b) with
  | Lt => True | Eq => (a ≤ b)%nat | Gt => False
  end.
#[export] Instance typical_le_dec shifted a b : Decision (typical_le shifted a b).
Proof. unfold typical_le. destruct (cmp_or_equal _ _); apply _. Defined.

(** The last position whose running mass before it is under [mass]. *)
Fixpoint last_index (p : list f32) (mass : f32) (order : list nat) (k : nat) (acc : f32)
    (last_ind : nat) : nat :=
  match order with
  | [] => last_ind
  | i :: order =>
      let last_ind := if SFltb acc mass then k else last_ind in
      last_index p mass order (S k) (F32.add acc (at_ p i)) last_ind
  end.

Definition typical_p (logits : list f32) (mass : f64) : list f32 :=
  if SFleb mass fzero || SFleb fone mass then logits else
  let p := softmax logits in
  if negb (is_positive (fsum p)) then logits else
  let ent := entropy p logits in
  let shifted := shifted_surprise ent p logits in
  let order := sort_by (typical_le shifted) (seq 0 (length logits)) in
  let last_ind := (last_index p (to_f32 mass) order 0 fzero 0 `min` (length order - 1))%nat in
  let cutoff := at_ shifted (nth last_ind order O) in
  let first := nth 0 order O in
  let first_val := at_ logits first in
  let logits := foldl (λ logits i, if SFltb cutoff (at_ shifted i) then <[i := FILTERED]> logits
                                   else logits) logits order in
  restore logits first first_val.

Definition log_softmax_in_place (logits : list f32) : list f32 :=
  let m := best_value logits in
  if is_finite m then
    let sum := foldl (λ sum v, if is_filtered v then sum else F32.add sum (fexp (F32.sub v m)))
                 fzero logits in
    let lse := F32.add m (fln sum) in
    (λ v, if is_filtered v then v else F32.sub v lse) <$> logits
  else logits.

(** ** The sampler *)

Definition apply_filters (c : SamplerConfig) (history : list Z) (logits : list f32) : list f32 :=
  let logits := if SFeqb (cfg_repetition_penalty c) fone then logits
                else repetition_penalty logits history (to_f32 (cfg_repetition_penalty c)) in
  let logits := if SFeqb (cfg_presence_penalty c) fzero then logits
                else presence_penalty logits history (to_f32 (cfg_presence_penalty c)) in
  let logits := if SFeqb (cfg_frequency_penalty c) fzero then logits
                else frequency_penalty logits history (to_f32 (cfg_frequency_penalty c)) in
  let logits := if decide (2 ≤ cfg_no_repeat_ngram_size c)%nat
                then no_repeat_ngram logits history (cfg_no_repeat_ngram_size c) else logits in
  let logits := if SFltb fzero (cfg_temperature c) && negb (SFeqb (cfg_temperature c) fone)
                then temperature logits (to_f32 (cfg_temperature c)) else logits in
  let logits := if decide (1 ≤ cfg_top_k c)%nat then top_k logits (cfg_top_k c) else logits in
  let logits := if SFltb (cfg_top_p c) fone then top_p logits (cfg_top_p c) else logits in
  let logits := if SFltb fzero (cfg_min_p c) then min_p logits (cfg_min_p c) else logits in
  if SFltb fzero (cfg_typical_p c) && SFltb (cfg_typical_p c) fone
  then typical_p logits (cfg_typical_p c) else logits.

Record Sampler := mkSampler { cfg : SamplerConfig; rng : Z }.

Definition new_sampler (c : SamplerConfig) : result ConfigError Sampler :=
  _ ← validate c; Ok (mkSampler c (cfg_seed c)).

Inductive NextError := EverythingFiltered | NoToken.

(** [Sampler::next]: the token, the filtered logits and the new sampler. *)
Definition next (s : Sampler) (logits : list f32) (history : list Z) :
    result NextError Z * list f32 * Sampler :=
  let logits := apply_filters (cfg s) history logits in
  let probs := softmax logits in
  if negb (is_positive (fsum probs)) then (Err EverythingFiltered, logits, s) else
  let '(u, state) := next_f64 (rng s) in
  (i ← ok_or NoToken (select probs u); Ok (wrap32 (Z.of_nat i)), logits, mkSampler (cfg s) state).
End exp_ln.
