(* ===== verification/SampleProps.v ===== *)
(** * Sampling: what each filter does, and what can be drawn

    The penalties touch every token once, the n-gram ban excludes exactly the
    repeats, top-k keeps the ties of the k-th largest logit, the draw is the
    inverse of the cumulative mass, and nothing filtered is ever drawn. *)

From stdpp Require Import sorting.
From S2P Require Import Prelude Float FloatProps Sample.
#[local] Open Scope Z_scope.

(** ** The penalties *)

Lemma is_filtered_spec x : is_filtered x = true ↔ x = FILTERED.
Proof. destruct x as [[]|[]| |[] m e]; done. Qed.

Lemma length_update_unmasked f logits i : length (update_unmasked f logits i) = length logits.
Proof.
  unfold update_unmasked. destruct (logits !! i) as [s|]; [|done]. destruct (is_filtered s); [done|].
  apply length_insert.
Qed.

Lemma update_unmasked_ne f logits i j : i ≠ j → update_unmasked f logits i !! j = logits !! j.
Proof.
  intros Hij. unfold update_unmasked. destruct (logits !! i) as [s|]; [|done]. destruct (is_filtered s); [done|].
  by apply list_lookup_insert_ne.
Qed.

Definition unmasked (f : f32 → f32) (v : f32) : f32 := if is_filtered v then v else f v.

Lemma update_unmasked_eq f logits i : update_unmasked f logits i !! i = unmasked f <$> (logits !! i).
Proof.
  unfold update_unmasked, unmasked. destruct (logits !! i) as [s|] eqn:E; [|by rewrite E].
  destruct (is_filtered s) eqn:Ef; cbn [fmap option_fmap option_map]; rewrite Ef; [done|].
  rewrite list_lookup_insert_eq; [done|by eapply lookup_lt_Some].
Qed.

(** A pass over distinct indices updates each of them once. *)
Lemma update_pass {B} (idx : B → nat) (f : B → f32 → f32) (l : list B) : NoDup (idx <$> l) →
  ∀ logits i, foldl (λ logits b, update_unmasked (f b) logits (idx b)) logits l !! i =
    match list_find (λ b, idx b = i) l with
    | Some (_, b) => unmasked (f b) <$> (logits !! i)
    | None => logits !! i
    end.
Proof.
  induction l as [|b l IH]; intros Hnd logits i; [done|]. cbn [fmap list_fmap] in Hnd.
  apply NoDup_cons in Hnd as [Hb Hnd]. cbn [foldl list_find]. rewrite IH by done. case_decide as Hi.
  - subst i. rewrite update_unmasked_eq. destruct (list_find _ l) as [[j b']|] eqn:E; [|done].
    apply list_find_Some in E as (Hj & He & _). destruct Hb. rewrite <- He.
    apply list_elem_of_fmap. exists b'. split; [done|]. by eapply list_elem_of_lookup_2.
  - rewrite update_unmasked_ne by done. by destruct (list_find _ l) as [[j b']|].
Qed.

Lemma distinct_tokens_spec history vocab :
  NoDup (distinct_tokens history vocab)
  ∧ ∀ i, i ∈ distinct_tokens history vocab ↔ (i < vocab)%nat ∧ i ∈ Z.to_nat <$> history.
Proof.
  unfold distinct_tokens.
  induction history as [|t history [IH1 IH2]] using rev_ind; cbn [foldl]; [split; [constructor|set_solver]|].
  rewrite foldl_app. cbn [foldl]. set (seen := foldl _ [] history) in *. cbn zeta. case_decide as Hd.
  - split.
    + apply NoDup_app. split; [done|]. split; [|apply NoDup_singleton].
      intros x Hx ->%list_elem_of_singleton. by apply Hd.
    + intros i. rewrite elem_of_app, IH2, fmap_app, elem_of_app, list_elem_of_singleton.
      cbn [fmap list_fmap]. rewrite list_elem_of_singleton. destruct Hd as [Hd _]. split; [|tauto].
      intros [?| ->]; tauto.
  - split; [done|]. intros i. rewrite IH2, fmap_app, elem_of_app. cbn [fmap list_fmap].
    rewrite list_elem_of_singleton. split; [tauto|]. intros [Hi [?| ->]]; [tauto|].
    destruct (decide (Z.to_nat t ∈ seen)) as [Hs|Hs]; [by apply IH2|]. destruct Hd. by split.
Qed.

Lemma find_id (l : list nat) i :
  match list_find (λ b, b = i) l with Some (_, b) => b = i ∧ i ∈ l | None => i ∉ l end.
Proof.
  destruct (list_find (λ b, b = i) l) as [[j b]|] eqn:E.
  - apply list_find_Some in E as (Hj & -> & _). split; [done|]. by eapply list_elem_of_lookup_2.
  - apply list_find_None in E. intros Hi. rewrite Forall_forall in E. by apply (E i Hi).
Qed.

(** Occurrences of token [i]. *)
Definition occurrences (history : list Z) (i : nat) : Z :=
  len (filter (λ t, Z.to_nat t = i) history).

(** The counting loop: each in-range token once, with its count. *)
Definition counted (history : list Z) (vocab : nat) (counts : list (nat * Z)) : Prop :=
  NoDup counts.*1 ∧ ∀ i c, (i, c) ∈ counts ↔ (i < vocab)%nat ∧ c = occurrences history i ∧ 0 < c.

Lemma bump_spec counts i : NoDup counts.*1 →
  NoDup (bump counts i).*1
  ∧ (∀ j, j ∈ (bump counts i).*1 ↔ j ∈ counts.*1 ∨ j = i)
  ∧ ∀ j c, (j, c) ∈ bump counts i ↔
      (j ≠ i ∧ (j, c) ∈ counts)
      ∨ (j = i ∧ ((i, c - 1) ∈ counts ∨ ((i ∉ counts.*1) ∧ c = 1))).
Proof.
  induction counts as [|[k c0] counts IH]; intros Hnd; cbn [bump].
  { split; [apply NoDup_singleton|]. split; [set_solver|]. intros j c. set_solver. }
  cbn [fmap list_fmap fst] in Hnd. apply NoDup_cons in Hnd as [Hk Hnd].
  destruct (IH Hnd) as (IH1 & IH2 & IH3). case_decide as Hi.
  - subst k. split; [|split].
    + cbn [fmap list_fmap fst]. by constructor.
    + intros j. cbn [fmap list_fmap fst]. set_solver.
    + intros j c. rewrite !elem_of_cons. cbn [fmap list_fmap fst].
      assert (∀ c, (i, c) ∉ counts) as Hni.
      { intros c' Hc. apply Hk. apply list_elem_of_fmap. by exists (i, c'). }
      split.
      * intros [[= -> ->]|Hin]; [right; split; [done|]; left; left; f_equal; lia|].
        left. split; [|by right]. intros ->. by apply (Hni c).
      * intros [[Hne [[= -> ->]|Hin]]|[-> [[[= Hc]|Hin]|[Hn _]]]]; [done|by right|left; f_equal; lia| |].
        -- by apply Hni in Hin.
        -- destruct Hn. left.
  - split; [|split].
    + cbn [fmap list_fmap fst]. constructor; [|done]. rewrite IH2. intros [?|?]; done.
    + intros j. cbn [fmap list_fmap fst]. rewrite !elem_of_cons, IH2. tauto.
    + intros j c. rewrite !elem_of_cons, IH3. cbn [fmap list_fmap fst]. split.
      * intros [[= -> ->]|[[? ?]|[-> [?|[? ?]]]]]; [by left; split; [|left]|by left; split; [|right]|..].
        -- right. split; [done|]. left. by right.
        -- right. split; [done|]. right. split; [|done]. intros [?|?]%elem_of_cons; done.
      * intros [[Hne [?|?]]|[-> [[[= ? ?]|?]|[Hn ?]]]]; [by left|by right; left|done|..].
        -- right. right. split; [done|]. by left.
        -- right. right. split; [done|]. right. split; [|done]. intros ?. apply Hn. by right.
Qed.

Lemma occurrences_snoc history t i :
  occurrences (history ++ [t]) i = occurrences history i + if decide (Z.to_nat t = i) then 1 else 0.
Proof.
  unfold occurrences. rewrite filter_app, len_app, filter_cons. case_decide; cbn; unfold len; cbn; lia.
Qed.

Lemma count_tokens_spec history vocab : counted history vocab (count_tokens history vocab).
Proof.
  unfold count_tokens.
  induction history as [|t history [IH1 IH2]] using rev_ind.
  { split; [constructor|]. intros i c. unfold occurrences, len. cbn. split; [set_solver|]. lia. }
  rewrite foldl_app. cbn [foldl]. set (counts := foldl _ [] history) in *. cbn zeta.
  assert (∀ i, 0 ≤ occurrences history i) as Hpos by (intros; apply len_nonneg).
  case_decide as Hd.
  - split; [done|]. intros i c. rewrite IH2, occurrences_snoc. case_decide as Hi; [|by rewrite Z.add_0_r].
    subst i. split; intros (H & _); lia.
  - destruct (bump_spec counts (Z.to_nat t) IH1) as (H1 & _ & H3). split; [done|]. intros i c.
    rewrite H3, !IH2, occurrences_snoc. case_decide as Hi.
    + subst i. assert (Z.to_nat t ∈ counts.*1 ↔ 0 < occurrences history (Z.to_nat t)) as Hin.
      { rewrite list_elem_of_fmap. split.
        - intros ([i c'] & Ht & (_ & -> & ?)%IH2). cbn in Ht. by subst i.
        - intros Hp. exists (Z.to_nat t, occurrences history (Z.to_nat t)). split; [done|].
          apply IH2. split; [lia|done]. }
      rewrite Hin. specialize (Hpos (Z.to_nat t)). split.
      * intros [[? _]|[_ [(? & ? & ?)|[? ->]]]]; [done|lia|lia].
      * intros (? & ? & ?). right. split; [done|].
        destruct (decide (0 < occurrences history (Z.to_nat t))); [left; lia|right; lia].
    + rewrite Z.add_0_r. split; [|by left].
      intros [[_ ?]|[-> _]]; done.
Qed.

(** ** The n-gram ban *)

(** [g] occurs in [history]. *)
Definition occurs_in (g history : list Z) : Prop := ∃ w, take (length g) (drop w history) = g.

Definition suffix_of (n : nat) (history : list Z) : list Z := drop (length history - (n - 1)) history.

Lemma take_app_last {A} (l : list A) k x : l !! k = Some x → take (S k) l = take k l ++ [x].
Proof. intros H. by rewrite (take_S_r _ _ _ H). Qed.

Lemma banned_loop history n ws : (2 ≤ n)%nat → ∀ banned0,
  ∀ t, t ∈ foldl (λ banned w,
      let t := nth (w + n - 1) history 0 in
      if decide (take (n - 1) (drop w history) = suffix_of n history ∧ t ∉ banned)
      then banned ++ [t] else banned) banned0 ws ↔
    t ∈ banned0 ∨ ∃ w, w ∈ ws ∧ take (n - 1) (drop w history) = suffix_of n history
                       ∧ t = nth (w + n - 1) history 0.
Proof.
  intros Hn. induction ws as [|w ws IH]; intros banned0 t; cbn [foldl]; [set_solver|].
  rewrite IH. cbn zeta. case_decide as Hd.
  - rewrite elem_of_app, list_elem_of_singleton. split.
    + intros [[?| ->]|(w' & ? & ? & ?)]; [by left|right; exists w; split; [left|tauto]|].
      right. exists w'. split; [by right|done].
    + intros [?|(w' & [->|?]%elem_of_cons & ? & ->)]; [by left; left|by left; right|].
      right. by exists w'.
  - split.
    + intros [?|(w' & ? & ? & ?)]; [by left|]. right. exists w'. split; [by right|done].
    + intros [?|(w' & [->|?]%elem_of_cons & He & ->)]; [by left| |right; by exists w'].
      left. apply dec_stable. intros Hnot. by apply Hd.
Qed.

(** A token is banned exactly when it would repeat an n-gram. *)
Lemma banned_tokens_spec history n t : (2 ≤ n)%nat → (n ≤ length history)%nat →
  t ∈ banned_tokens history n ↔ occurs_in (suffix_of n history ++ [t]) history.
Proof.
  intros Hn Hl. unfold banned_tokens. fold (suffix_of n history). rewrite (banned_loop history n) by done.
  assert (length (suffix_of n history) = (n - 1)%nat) as Hs.
  { unfold suffix_of. rewrite length_drop. lia. }
  unfold occurs_in. rewrite length_app, Hs. cbn [length]. replace (n - 1 + 1)%nat with (S (n - 1)) by lia. split.
  - intros [Hnil|(w & Hw & He & ->)]; [by apply not_elem_of_nil in Hnil|].
    apply elem_of_seq in Hw. exists w. rewrite <- He.
    destruct (lookup_lt_is_Some_2 (drop w history) (n - 1)) as [x Hx]; [rewrite length_drop; lia|].
    rewrite (take_app_last _ _ _ Hx). do 2 f_equal. rewrite lookup_drop in Hx.
    replace (w + n - 1)%nat with (w + (n - 1))%nat by lia. symmetry. by apply nth_lookup_Some.
  - intros [w Hw]. right. exists w.
    assert (length (take (S (n - 1)) (drop w history)) = S (n - 1)) as Hlen.
    { rewrite Hw, length_app, Hs. cbn. lia. }
    rewrite length_take, length_drop in Hlen.
    destruct (lookup_lt_is_Some_2 (drop w history) (n - 1)) as [x Hx]; [rewrite length_drop; lia|].
    rewrite (take_app_last _ _ _ Hx) in Hw. apply app_inj_tail in Hw as [Hw ->].
    split; [apply elem_of_seq; lia|]. split; [done|]. rewrite lookup_drop in Hx.
    replace (w + n - 1)%nat with (w + (n - 1))%nat by lia. symmetry. by apply nth_lookup_Some.
Qed.

#[export] Instance occurs_in_dec_banned history n t : Decision (t ∈ banned_tokens history n).
Proof. apply _. Defined.

Lemma mask_pass (ts : list Z) : ∀ (logits : list f32) i, Forall (λ t, 0 ≤ t) ts →
  foldl (λ logits t, let i := Z.to_nat t in
      if decide (i < length logits)%nat then <[i := FILTERED]> logits else logits) logits ts !! i =
  if decide (Z.of_nat i ∈ ts) then (λ _, FILTERED) <$> (logits !! i) else logits !! i.
Proof.
  induction ts as [|t ts IH]; intros logits i Hts; cbn [foldl]; [by rewrite decide_False by set_solver|].
  apply Forall_cons in Hts as [Ht Hts]. rewrite IH by done. cbn zeta.
  destruct (decide (Z.to_nat t = i)) as [Hi|Hi].
  - rewrite (decide_True (P := Z.of_nat i ∈ t :: ts)).
    2: { apply elem_of_cons. left. lia. }
    rewrite Hi. destruct (decide (i < length logits)%nat) as [Hl|Hl].
    + rewrite list_lookup_insert_eq by done. destruct (lookup_lt_is_Some_2 logits i Hl) as [v ->].
      by case_decide.
    + rewrite lookup_ge_None_2 by lia. by case_decide.
  - assert ((if decide (Z.to_nat t < length logits)%nat then <[Z.to_nat t:=FILTERED]> logits else logits) !! i
            = logits !! i) as -> by (case_decide; [by apply list_lookup_insert_ne|done]).
    assert (Z.of_nat i ∈ ts ↔ Z.of_nat i ∈ t :: ts) as He.
    { rewrite elem_of_cons. split; [by right|]. intros [Hx|?]; [lia|done]. }
    by rewrite (decide_ext _ _ _ _ He).
Qed.

(** ** Floats in order *)

Definition number (x : f32) : Prop := is_nan x = false.

Lemma descending_lex x y : number x → number y → descending x y ↔ lex (fkey y) (fkey x) ≠ Gt.
Proof. intros Hx Hy. unfold descending, cmp_or_equal. by rewrite SFcompare_lex. Qed.

Lemma nan_cmp x y : is_nan x = true ∨ is_nan y = true → cmp_or_equal x y = Eq.
Proof. intros [H|H]; [destruct x|destruct y; destruct x]; done. Qed.

#[export] Instance descending_total : Total descending.
Proof.
  intros x y. unfold descending.
  destruct (is_nan x) eqn:Hx; [left; rewrite nan_cmp; [done|by right]|].
  destruct (is_nan y) eqn:Hy; [left; rewrite nan_cmp; [done|by left]|].
  unfold cmp_or_equal. rewrite !SFcompare_lex by done. cbn. destruct (lex (fkey y) (fkey x)) eqn:E; [by left|by left|].
  right. rewrite (proj2 (lex_lt_spec _ _) E). done.
Qed.

(** On numbers the sort is sorted pairwise. *)
Lemma sorted_numbers l : Forall number l → Sorted descending l → StronglySorted descending l.
Proof.
  intros Hn Hs. induction Hs as [|x l Hs IH Hx]; [constructor|]. apply Forall_cons in Hn as [Hx' Hn].
  specialize (IH Hn). constructor; [done|]. clear Hs. induction IH as [|y l IH' IHl Hy]; [constructor|].
  apply Forall_cons in Hn as [Hy' Hn]. inversion Hx as [|? ? Hxy]. subst. constructor; [done|].
  rewrite Forall_forall in Hy, Hn |- *. intros z Hz. specialize (Hy z Hz). specialize (Hn z Hz).
  rewrite descending_lex in Hxy, Hy |- * by done. rewrite lex_le_spec in *. lia.
Qed.

Lemma filter_take_drop {A} (P : A → Prop) `{!∀ x, Decision (P x)} l k :
  length (filter P l) = (length (filter P (take k l)) + length (filter P (drop k l)))%nat.
Proof. by rewrite <- length_app, <- filter_app, take_drop. Qed.

Lemma filter_all {A} (P : A → Prop) `{!∀ x, Decision (P x)} l : Forall P l → length (filter P l) = length l.
Proof. induction 1 as [|x l Hx _ IH]; [done|]. rewrite filter_cons, decide_True by done. cbn. by rewrite IH. Qed.

Lemma filter_none {A} (P : A → Prop) `{!∀ x, Decision (P x)} l : Forall (λ x, ¬ P x) l → filter P l = [].
Proof. induction 1 as [|x l Hx _ IH]; [done|]. by rewrite filter_cons, decide_False. Qed.

(** In a descending list, the first [k] are not below the [k]-th, and only the
    first [k - 1] can be above it. *)
Lemma kth_counts s k kth : Forall number s → StronglySorted descending s → s !! (k - 1)%nat = Some kth →
  (0 < k)%nat →
  (k ≤ length (filter (λ v, SFltb v kth = false) s))%nat
  ∧ (length (filter (λ v, SFltb kth v = true) s) < k)%nat.
Proof.
  intros Hn Hs Hk Hpos. pose proof (lookup_lt_Some _ _ _ Hk) as Hlen.
  assert (number kth) as Hkn by (eapply Forall_lookup_1; done).
  assert (∀ i j x y, s !! i = Some x → s !! j = Some y → (i < j)%nat → descending x y) as Hd.
  { clear Hk Hlen. induction Hs as [|z l _ IH Hz]; [done|]. apply Forall_cons in Hn as [_ Hn].
    intros [|i] [|j] x y; cbn; try lia.
    - intros [= ->] Hj _. rewrite Forall_forall in Hz. apply Hz. by eapply list_elem_of_lookup_2.
    - intros Hi Hj Hij. apply (IH Hn i j); [done..|lia]. }
  assert (∀ i x, s !! i = Some x → (i ≤ k - 1)%nat → SFltb x kth = false) as Hlow.
  { intros i x Hi Hik. assert (number x) by (eapply Forall_lookup_1; done).
    apply not_true_is_false. rewrite SFltb_lex, lex_lt_spec by done.
    destruct (decide (i = k - 1)%nat) as [->|].
    - rewrite Hk in Hi. injection Hi as <-. intros Hc. pose proof Hc as Hc'. apply lex_lt_spec in Hc. congruence.
    - apply descending_lex; [done..|]. apply (Hd i (k - 1)%nat); [done..|lia]. }
  assert (∀ i x, s !! i = Some x → (k - 1 ≤ i)%nat → SFltb kth x ≠ true) as Hhigh.
  { intros i x Hi Hik. assert (number x) by (eapply Forall_lookup_1; done).
    rewrite SFltb_lex, lex_lt_spec by done. destruct (decide (i = k - 1)%nat) as [->|].
    - rewrite Hk in Hi. injection Hi as <-. intros Hc. pose proof Hc as Hc'. apply lex_lt_spec in Hc. congruence.
    - apply descending_lex; [done..|]. apply (Hd (k - 1)%nat i); [done..|lia]. }
  split.
  - rewrite (filter_take_drop _ s k), filter_all; [rewrite length_take; lia|].
    apply Forall_lookup. intros i x [Hi Hik]%lookup_take_Some. apply (Hlow i); [done|lia].
  - rewrite (filter_take_drop _ s (k - 1)). rewrite (filter_none _ (drop _ _)).
    + pose proof (length_filter (λ v, SFltb kth v = true) (take (k - 1) s)) as Hf.
      rewrite length_take in Hf. cbn [length]. lia.
    + apply Forall_lookup. intros i x Hi. rewrite lookup_drop in Hi. apply (Hhigh (k - 1 + i)%nat); [done|lia].
Qed.

(** ** The draw *)

(** Cumulative mass of the first tokens, as the walk accumulates it. *)
Definition cumulative (acc : f64) (probs : list f32) : f64 :=
  foldl (λ acc p, if is_positive p then F64.add acc (to_f64 p) else acc) acc probs.

(** Token [i] has mass, and [u] is below the mass up to and including it. *)
Definition crosses (probs : list f32) (u acc : f64) (i : nat) : Prop :=
  (∃ p, probs !! i = Some p ∧ is_positive p = true) ∧ SFltb u (cumulative acc (take (S i) probs)) = true.

Lemma select_from_spec u probs : ∀ i acc last,
  match select_from probs u i acc last with
  | Some j =>
      (∃ k, j = (i + k)%nat ∧ crosses probs u acc k ∧ ∀ k', (k' < k)%nat → ¬ crosses probs u acc k')
      ∨ ((∀ k, ¬ crosses probs u acc k)
         ∧ ((∃ k p, j = (i + k)%nat ∧ probs !! k = Some p ∧ is_positive p = true
               ∧ ∀ k' p', (k < k')%nat → probs !! k' = Some p' → is_positive p' = false)
            ∨ (last = Some j ∧ Forall (λ p, is_positive p = false) probs)))
  | None => last = None ∧ Forall (λ p, is_positive p = false) probs
  end.
Proof.
  induction probs as [|p probs IH]; intros i acc last; cbn [select_from].
  { destruct last as [j|]; [|by split]. right. split; [|by right].
    intros k [(p & Hp & _) _]. by rewrite lookup_nil in Hp. }
  assert (∀ acc', acc' = (if is_positive p then F64.add acc (to_f64 p) else acc) →
    ∀ k, crosses (p :: probs) u acc (S k) ↔ crosses probs u acc' k) as Hsucc by (by intros acc' ->).
  destruct (is_positive p) eqn:Hp; cbn zeta.
  - set (acc' := F64.add acc (to_f64 p)) in *. specialize (Hsucc acc' eq_refl).
    assert (crosses (p :: probs) u acc 0 ↔ SFltb u acc' = true) as H0.
    { unfold crosses, cumulative. cbn [take foldl]. rewrite Hp. split; [by intros [_ ?]|].
      intros ?. split; [|done]. by exists p. }
    destruct (SFltb u acc') eqn:Hu.
    + left. exists O. split; [lia|]. split; [by apply H0|]. intros; lia.
    + specialize (IH (S i) acc' (Some i)). destruct (select_from probs u (S i) acc' (Some i)) as [j|].
      * destruct IH as [(k & -> & Hk & Hmin)|[Hnone IH]].
        -- left. exists (S k). split; [lia|]. split; [by apply Hsucc|]. intros [|k'] Hk' Hc.
           ++ apply H0 in Hc. done.
           ++ apply Hsucc in Hc. by apply (Hmin k'); [lia|].
        -- right. split; [intros [|k] Hc; [by apply H0 in Hc|by apply Hsucc, Hnone in Hc]|].
           left. destruct IH as [(k & q & -> & Hq & Hqp & Hafter)|[[= <-] Hall]].
           ++ exists (S k), q. split; [lia|]. split; [done|]. split; [done|].
              intros [|k'] p' Hlt; [lia|]. cbn. apply Hafter. lia.
           ++ exists O, p. split; [lia|]. split; [done|]. split; [done|].
              intros [|k'] p' Hlt; [lia|]. cbn. intros Hp'. by eapply Forall_lookup_1 in Hall.
      * by destruct IH.
  - specialize (Hsucc acc eq_refl). assert (¬ crosses (p :: probs) u acc 0) as H0.
    { intros [(q & [= <-] & Hq) _]. congruence. }
    specialize (IH (S i) acc last). destruct (select_from probs u (S i) acc last) as [j|].
    + destruct IH as [(k & -> & Hk & Hmin)|[Hnone IH]].
      * left. exists (S k). split; [lia|]. split; [by apply Hsucc|]. intros [|k'] Hk' Hc; [done|].
        apply Hsucc in Hc. by apply (Hmin k'); [lia|].
      * right. split; [intros [|k] Hc; [done|by apply Hsucc, Hnone in Hc]|].
        destruct IH as [(k & q & -> & Hq & Hqp & Hafter)|[-> Hall]]; [left|right].
        -- exists (S k), q. split; [lia|]. split; [done|]. split; [done|].
           intros [|k'] p' Hlt; [lia|]. cbn. apply Hafter. lia.
        -- split; [done|]. by constructor.
    + destruct IH as [-> Hall]. split; [done|]. by constructor.
Qed.

(** ** Probabilities of masked tokens *)

Lemma positive_not_zero x : is_positive x = true → SFltb fzero x = true.
Proof. by destruct x as [[]|[]| |[] m e]. Qed.

Lemma div_zero_positive s : SFltb fzero s = true → F32.div fzero s = fzero.
Proof. by destruct s as [[]|[]| |[] m e]. Qed.

Lemma softmax_masked fexp logits i v : logits !! i = Some v → is_filtered v = true →
  ∃ p, softmax fexp logits !! i = Some p ∧ is_positive p = false.
Proof.
  intros Hi Hv. unfold softmax. destruct (is_finite (best_value logits)).
  - set (out := _ <$> logits). cbn zeta. assert (out !! i = Some fzero) as Ho.
    { subst out. rewrite list_lookup_fmap, Hi. cbn. by rewrite Hv. }
    destruct (SFltb fzero (fsum out)) eqn:Hs.
    + rewrite list_lookup_fmap, Ho. cbn [fmap option_fmap option_map]. exists fzero. by rewrite div_zero_positive.
    + by exists fzero.
  - exists fzero. split; [|done]. apply lookup_replicate_2. by eapply lookup_lt_Some.
Qed.

Lemma length_softmax fexp logits : length (softmax fexp logits) = length logits.
Proof.
  unfold softmax. destruct (is_finite _); [|by rewrite length_replicate]. cbn zeta.
  destruct (SFltb _ _); by rewrite !length_fmap.
Qed.

(** ** Properties *)

(** The penalties: [repetition_penalty] and [presence_penalty] change each
    token of the history once, however often it occurred, and
    [frequency_penalty] subtracts the penalty times the number of occurrences;
    masked logits and tokens that did not occur are left alone. *)
Theorem penalties_spec (logits : list f32) (history : list Z) (penalty : f32) (i : nat) :
  let seen := bool_decide (i ∈ Z.to_nat <$> history) in
  (SFeqb penalty fone32 = false →
   repetition_penalty logits history penalty !! i =
     (if seen then unmasked (λ s, if SFltb s fzero then F32.mul s penalty else F32.div s penalty) else id)
     <$> (logits !! i))
  ∧ presence_penalty logits history penalty !! i =
     (if seen then unmasked (λ s, F32.sub s penalty) else id) <$> (logits !! i)
  ∧ frequency_penalty logits history penalty !! i =
     (if seen then unmasked (λ s, F32.sub s (F32.mul penalty (F32.of_Z (occurrences history i)))) else id)
     <$> (logits !! i).
Proof.
  cbn zeta.
  destruct (distinct_tokens_spec history (length logits)) as [Hnd Hin].
  assert (∀ f, foldl (update_unmasked f) logits (distinct_tokens history (length logits)) !! i =
    (if bool_decide (i ∈ Z.to_nat <$> history) then unmasked f else id) <$> (logits !! i)) as Hpass.
  { intros f. change (foldl (update_unmasked f) logits (distinct_tokens history (length logits)))
      with (foldl (λ l b, update_unmasked ((λ _, f) b) l (id b)) logits (distinct_tokens history (length logits))).
    rewrite update_pass by by rewrite list_fmap_id. unfold id.
    pose proof (find_id (distinct_tokens history (length logits)) i) as Hf.
    destruct (logits !! i) as [v|] eqn:Hv; [|by destruct (list_find _ _) as [[? ?]|]].
    apply lookup_lt_Some in Hv. destruct (list_find _ _) as [[j b]|].
    - destruct Hf as [_ Hf]. rewrite bool_decide_eq_true_2; [done|]. by apply Hin.
    - rewrite bool_decide_eq_false_2; [done|]. intros Hh. apply Hf, Hin. by split. }
  split; [|split].
  - intros Hp. unfold repetition_penalty. rewrite Hp. apply Hpass.
  - apply Hpass.
  - unfold frequency_penalty. destruct (count_tokens_spec history (length logits)) as [Hcd Hc].
    set (counts := count_tokens history (length logits)) in *.
    assert (foldl (λ logits '(i, c), update_unmasked (λ s, F32.sub s (F32.mul penalty (F32.of_Z c))) logits i)
              logits counts
            = foldl (λ l b, update_unmasked ((λ b s, F32.sub s (F32.mul penalty (F32.of_Z b.2))) b) l (fst b))
                logits counts) as ->.
    { clear. generalize logits. induction counts as [|[j c] counts IH]; intros l; [done|]. apply IH. }
    rewrite update_pass by done.
    assert (i ∈ Z.to_nat <$> history ↔ 0 < occurrences history i) as Hocc.
    { unfold occurrences, len. rewrite list_elem_of_fmap. split.
      - intros (t & -> & Ht). destruct (filter (λ x, Z.to_nat x = Z.to_nat t) history) eqn:E; [|cbn; lia].
        assert (t ∈ filter (λ x, Z.to_nat x = Z.to_nat t) history) as Hx by by apply list_elem_of_filter.
        rewrite E in Hx. by apply not_elem_of_nil in Hx.
      - intros Hl. destruct (filter (λ t, Z.to_nat t = i) history) as [|t l] eqn:E; [cbn in Hl; lia|].
        assert (t ∈ filter (λ t, Z.to_nat t = i) history) as Hx by (rewrite E; left).
        apply list_elem_of_filter in Hx as [<- Hx]. by exists t. }
    destruct (logits !! i) as [v|] eqn:Hv; [|by destruct (list_find _ _) as [[? [? ?]]|]].
    apply lookup_lt_Some in Hv. destruct (list_find _ _) as [[j [k c]]|] eqn:E.
    + apply list_find_Some in E as (Hj & Hk & _). cbn in Hk. subst k.
      apply list_elem_of_lookup_2, Hc in Hj as (_ & -> & Hpos).
      rewrite bool_decide_eq_true_2 by by apply Hocc. done.
    + rewrite bool_decide_eq_false_2; [done|]. intros Hpos%Hocc. apply list_find_None in E.
      rewrite Forall_forall in E. apply (E (i, occurrences history i)); [|done]. by apply Hc.
Qed.

(** The n-gram ban masks exactly the tokens that would complete an n-gram
    already present in the history, and leaves every other logit alone. *)
Theorem no_repeat_ngram_spec (logits : list f32) (history : list Z) (n i : nat)
    (Hn : (2 ≤ n)%nat) (Hl : (n ≤ length history)%nat) (Hpos : Forall (λ t, 0 ≤ t) history)
    (Hi : (i < length logits)%nat) :
  (occurs_in (suffix_of n history ++ [Z.of_nat i]) history →
   no_repeat_ngram logits history n !! i = Some FILTERED)
  ∧ (¬ occurs_in (suffix_of n history ++ [Z.of_nat i]) history →
   no_repeat_ngram logits history n !! i = logits !! i).
Proof.
  unfold no_repeat_ngram. rewrite decide_False by lia.
  assert (Forall (λ t, 0 ≤ t) (banned_tokens history n)) as Hb.
  { rewrite Forall_forall in *. intros t (w & Hw)%banned_tokens_spec; [|done..]. apply Hpos.
    assert (t ∈ take (length (suffix_of n history ++ [t])) (drop w history)) as Ht by (rewrite Hw; set_solver).
    apply elem_of_take in Ht as (j & Hj & _). rewrite lookup_drop in Hj. by eapply list_elem_of_lookup_2. }
  rewrite <- banned_tokens_spec by done. destruct (lookup_lt_is_Some_2 logits i Hi) as [v Hv].
  split; intros Hban; (etrans; [exact (mask_pass _ logits i Hb)|]); rewrite Hv; by case_decide.
Qed.

(** Top-k is a threshold, not a truncation: on numeric logits it masks
    exactly those strictly below some logit such that at least [k] logits are
    not below it and fewer than [k] are above it. *)
Theorem top_k_spec (logits : list f32) (k : nat) (Hnum : Forall number logits)
    (Hk : (0 < k < length logits)%nat) :
  ∃ kth, kth ∈ logits
    ∧ top_k logits k = (λ v, if SFltb v kth then FILTERED else v) <$> logits
    ∧ (k ≤ length (filter (λ v, SFltb v kth = false) logits))%nat
    ∧ (length (filter (λ v, SFltb kth v = true) logits) < k)%nat.
Proof.
  unfold top_k. rewrite decide_False by lia. cbn zeta. set (s := sort_by descending logits).
  assert (s ≡ₚ logits) as Hp by apply sort_by_Permutation.
  assert (length s = length logits) as Hlen by by rewrite Hp.
  destruct (lookup_lt_is_Some_2 s (k - 1)) as [kth Hkth]; [lia|].
  assert (nth (k - 1) s FILTERED = kth) as -> by by apply nth_lookup_Some.
  exists kth. split; [rewrite <- Hp; by eapply list_elem_of_lookup_2|]. split; [done|].
  rewrite <- Hp. apply kth_counts; [by rewrite Hp| |done|lia].
  apply sorted_numbers; [by rewrite Hp|]. apply Sorted_sort_by. apply _.
Qed.

(** The draw is the inverse of the cumulative mass: the first token with
    mass whose cumulative mass exceeds [u]; if rounding leaves none, the last
    token with mass; and nothing exactly when no token has mass. *)
Theorem select_spec (probs : list f32) (u : f64) :
  match select probs u with
  | Some j =>
      (crosses probs u fzero j ∧ ∀ k, (k < j)%nat → ¬ crosses probs u fzero k)
      ∨ ((∀ k, ¬ crosses probs u fzero k)
         ∧ (∃ p, probs !! j = Some p ∧ is_positive p = true)
         ∧ ∀ k p, (j < k)%nat → probs !! k = Some p → is_positive p = false)
  | None => Forall (λ p, is_positive p = false) probs
  end.
Proof.
  unfold select. pose proof (select_from_spec u probs 0 fzero None) as H.
  destruct (select_from probs u 0 fzero None) as [j|]; [|by destruct H].
  destruct H as [(k & -> & Hk & Hmin)|[Hnone [(k & p & -> & Hp & Hpos & Hafter)|[? _]]]]; [by left| |done].
  right. split; [done|]. split; [by exists p|done].
Qed.

(** *** The filters keep the vocabulary *)

Lemma length_foldl {A} (f : list f32 → A → list f32) (l : list A) logits :
  (∀ x logits, length (f logits x) = length logits) → length (foldl f logits l) = length logits.
Proof. intros Hf. revert logits. induction l as [|x l IH]; intros logits; [done|]. cbn. by rewrite IH, Hf. Qed.

Lemma length_restore logits i v : length (restore logits i v) = length logits.
Proof. unfold restore. destruct (is_filtered _); [apply length_insert|done]. Qed.

Lemma length_top_p_mask probs th order acc logits :
  length (top_p_mask probs th order acc logits) = length logits.
Proof.
  revert acc logits. induction order as [|i order IH]; intros acc logits; [done|]. cbn [top_p_mask].
  case_match; [|done]. rewrite IH. apply length_insert.
Qed.

Lemma length_min_p_loop floor probs i best bp logits :
  length (min_p_loop floor probs i best bp logits).2 = length logits.
Proof.
  revert i best bp logits. induction probs as [|q probs IH]; intros i best bp logits; [done|].
  cbn [min_p_loop]. destruct (if SFltb bp q then _ else _) as [best' bp']. rewrite IH.
  case_match; [apply length_insert|done].
Qed.

Lemma length_apply_filters fexp fln c history logits :
  length (apply_filters fexp fln c history logits) = length logits.
Proof.
  unfold apply_filters.
  assert (∀ (b : bool) (f : list f32 → list f32) l, (∀ l, length (f l) = length l) →
    length (if b then l else f l) = length l) as Hb by (by intros []).
  assert (∀ (b : bool) (f : list f32 → list f32) l, (∀ l, length (f l) = length l) →
    length (if b then f l else l) = length l) as Hb' by (by intros []).
  assert (∀ P `{Decision P} (f : list f32 → list f32) l, (∀ l, length (f l) = length l) →
    length (if decide P then f l else l) = length l) as Hd by (intros P HP f l Hf; by destruct (decide P)).
  rewrite (Hb' _ (λ l, typical_p fexp fln l (cfg_typical_p c))).
  2:{ intros l. unfold typical_p. do 2 (case_match; [done|]). rewrite length_restore.
      apply length_foldl. intros i l'. case_match; [apply length_insert|done]. }
  rewrite (Hb' _ (λ l, min_p fexp l (cfg_min_p c))).
  2:{ intros l. unfold min_p. do 2 (case_match; [done|]).
      pose proof (length_min_p_loop (F32.mul (to_f32 (cfg_min_p c)) (foldl fmax fzero (softmax fexp l)))
        (softmax fexp l) 0 0 FILTERED l) as Hl.
      destruct (min_p_loop _ _ _ _ _ _) as [best l']. by rewrite length_restore. }
  rewrite (Hb' _ (λ l, top_p fexp l (cfg_top_p c))).
  2:{ intros l. unfold top_p. do 2 (case_match; [done|]). by rewrite length_restore, length_top_p_mask. }
  rewrite (Hd _ _ (λ l, top_k l (cfg_top_k c))).
  2:{ intros l. unfold top_k. case_decide; [done|]. apply length_fmap. }
  rewrite (Hb' _ (λ l, temperature l (to_f32 (cfg_temperature c)))).
  2:{ intros l. unfold temperature. case_match; [done|]. apply length_fmap. }
  rewrite (Hd _ _ (λ l, no_repeat_ngram l history (cfg_no_repeat_ngram_size c))).
  2:{ intros l. unfold no_repeat_ngram. case_decide; [done|]. apply length_foldl. intros x l'.
      case_decide; [apply length_insert|done]. }
  rewrite (Hb _ (λ l, frequency_penalty l history (to_f32 (cfg_frequency_penalty c)))).
  2:{ intros l. apply length_foldl. intros [i n] l'. apply length_update_unmasked. }
  rewrite (Hb _ (λ l, presence_penalty l history (to_f32 (cfg_presence_penalty c)))).
  2:{ intros l. apply length_foldl. intros i l'. apply length_update_unmasked. }
  rewrite (Hb _ (λ l, repetition_penalty l history (to_f32 (cfg_repetition_penalty c)))); [done|].
  intros l. unfold repetition_penalty. case_match; [done|]. apply length_foldl. intros i l'. apply length_update_unmasked.
Qed.

(** What a draw that succeeded drew. *)
Lemma next_drawn (fexp fln : f32 → f32) (s : Sampler) (logits : list f32) (history : list Z)
    (t : Z) (out : list f32) (s' : Sampler) :
  next fexp fln s logits history = (Ok t, out, s') →
  out = apply_filters fexp fln (cfg s) history logits ∧
  ∃ i p, t = wrap32 (Z.of_nat i) ∧ (i < length logits)%nat ∧
    softmax fexp out !! i = Some p ∧ is_positive p = true.
Proof.
  unfold next. cbn zeta. set (filtered := apply_filters fexp fln (cfg s) history logits).
  intros Hok. destruct (negb (is_positive _)); [done|]. destruct (next_f64 (rng s)) as [u state].
  injection Hok as Ht <- _. split; [done|].
  apply bind_Ok in Ht as (i & Hi%ok_or_Ok & [= <-]).
  assert (∃ p, softmax fexp filtered !! i = Some p ∧ is_positive p = true) as (p & Hp & Hpos).
  { pose proof (select_from_spec u (softmax fexp filtered) 0 fzero None) as H. unfold select in Hi. rewrite Hi in H.
    destruct H as [(k & -> & [Hk _] & _)|[_ [(k & p & -> & Hp & Hpos & _)|[? _]]]]; [done|by exists p|done]. }
  exists i, p. split; [done|]. split; [|done].
  apply lookup_lt_Some in Hp. rewrite length_softmax in Hp. unfold filtered in Hp.
  by rewrite length_apply_filters in Hp.
Qed.

(** C36. A filtered token is never drawn: whatever the exponential and the
    logarithm are, a token the sampler returns is in range and its logit
    survived every filter. *)
Theorem next_not_filtered (fexp fln : f32 → f32) (s : Sampler) (logits : list f32) (history : list Z)
    (t : Z) (out : list f32) (s' : Sampler)
    (Hok : next fexp fln s logits history = (Ok t, out, s')) :
  out = apply_filters fexp fln (cfg s) history logits
  ∧ ∃ i v, t = wrap32 (Z.of_nat i) ∧ out !! i = Some v ∧ is_filtered v = false.
Proof.
  destruct (next_drawn fexp fln s logits history t out s' Hok) as (Hout & i & p & -> & Hi & Hp & Hpos).
  split; [done|]. rewrite <- (length_apply_filters fexp fln (cfg s) history), <- Hout in Hi.
  destruct (lookup_lt_is_Some_2 out i Hi) as [v Hv]. exists i, v. split; [done|]. split; [done|].
  apply not_true_is_false. intros Hf. destruct (softmax_masked fexp out i v Hv Hf) as (q & Hq & Hn).
  congruence.
Qed.

(** ** The uniform draw *)

Lemma xorshift_range z k : 0 ≤ z < 2 ^ 64 → 0 ≤ k → 0 ≤ xorshift z k < 2 ^ 64.
Proof.
  intros Hz Hk. unfold xorshift.
  assert (0 ≤ Z.shiftr z k ≤ z) as Hs.
  { rewrite Z.shiftr_div_pow2 by done. assert (0 < 2 ^ k) by (by apply Z.pow_pos_nonneg).
    split; [apply Z.div_pos; lia|]. apply Z.div_le_upper_bound; nia. }
  assert (0 ≤ Z.lxor z (Z.shiftr z k)) as H0 by (apply Z.lxor_nonneg; lia).
  split; [done|]. destruct (Z.eq_dec (Z.lxor z (Z.shiftr z k)) 0) as [->|Hne]; [done|].
  apply Z.log2_lt_pow2; [lia|]. pose proof (Z.log2_lxor z (Z.shiftr z k)) as Hl.
  pose proof (Z.log2_le_mono (Z.shiftr z k) z).
  assert (Z.log2 z < 64); [|lia].
  destruct (Z.eq_dec z 0) as [->|]; [done|]. apply Z.log2_lt_pow2; lia.
Qed.

(** The uniform draw is exactly the top 53 bits of the generator's word over
    [2^53]: it is never negative, never a NaN and never rounds up to one. *)
Theorem next_f64_unit state : 
  let '(u, state') := next_f64 state in
  let n := Z.shiftr (next_u64 state).1 11 in
  state' = wadd state 0x9E3779B97F4A7C15 ∧ 0 ≤ n < 2 ^ 53 ∧
  (n = 0 → u = fzero) ∧
  (0 < n → ∃ m e, u = S754_finite false m e ∧ -105 ≤ e ∧ Zpos m * 2 ^ (e + 105) = n * 2 ^ 52) ∧
  SFltb u fone = true ∧ SFltb u fzero = false.
Proof.
  unfold next_f64. destruct (next_u64 state) as [x state'] eqn:E. cbn [fst].
  unfold next_u64 in E. injection E as Hx <-.
  assert (0 ≤ x < 2 ^ 64) as Hr.
  { subst x. apply xorshift_range; [|lia]. apply Z.mod_pos_bound. lia. }
  clear Hx. set (n := Z.shiftr x 11).
  assert (0 ≤ n < 2 ^ 53) as Hn.
  { unfold n. rewrite Z.shiftr_div_pow2 by lia. split; [apply Z.div_pos; lia|apply Z.div_lt_upper_bound; lia]. }
  split; [done|]. split; [done|].
  assert (two_pow_m53 = S754_finite false 4503599627370496 (-105)) as Ht by (by vm_compute).
  destruct (Z.eq_dec n 0) as [Hz|Hz].
  { rewrite Hz, Ht. split; [done|]. split; [lia|]. by vm_compute. }
  destruct (of_Z_exact n) as (m & d & Hd & -> & Hb & Hm); [lia|].
  assert (F64.mul (S754_finite false m (d - 53)) two_pow_m53 = S754_finite false m (d - 106)) as ->.
  { rewrite Ht. unfold F64.mul, SFmul. cbn [xorb].
    replace (S754_finite false m (d - 106)) with (S754_finite false m (d - 53 + -105 + 52)) by (f_equal; lia).
    assert (Zpos (m * 4503599627370496) = Zpos m * 2 ^ 52) as Hp by (by rewrite Pos2Z.inj_mul).
    assert (Zpos (digits2_pos m) = 53) as D1 by (apply digits2_unique; [done|lia]).
    assert (Zpos (digits2_pos (m * 4503599627370496)) = 105) as D2.
    { apply digits2_unique; [|lia]. rewrite Hp. replace (105 - 1) with (52 + 52) by lia.
      change 105 with (53 + 52). rewrite !Z.pow_add_r by lia. lia. }
    apply round_exact; rewrite ?D1, ?D2; try done; try lia.
    all: unfold SpecFloat.fexp, SpecFloat.emin, F64.prec, F64.emax; lia. }
  split; [lia|]. split.
  - intros _. exists m, (d - 106). split; [done|]. split; [lia|].
    replace (d - 106 + 105) with (d - 1) by lia. rewrite Hm.
    rewrite <- Z.mul_assoc, <- Z.pow_add_r by lia. by replace (53 - d + (d - 1)) with 52 by lia.
  - split; [|done]. unfold SFltb, fone. cbn [SFcompare].
    by rewrite (proj2 (Z.compare_lt_iff _ _)) by lia.
Qed.
