(* ===== verification/Model.v ===== *)
(** * The model and its decoding loops

    Models qwen35-forward/gdn/src/model.rs: embedding, the decoder stack, the
    final norm and the head; the cache; greedy and sampled decoding.  A token
    id is a [u32], here a [Z]. *)

From stdpp Require Import list.
From S2P Require Import Prelude Float Sample Tensor Linear Delta Gdn Attention Layer.
#[local] Open Scope nat_scope.

Inductive LayerKind := KLinearAttention | KFullAttention.

#[export] Instance LayerKind_eq_dec : EqDecision LayerKind.
Proof. solve_decision. Defined.

Record ModelConfig := mkModelConfig {
  vocab : nat;
  hidden : nat;
  m_eps : f32;
  mc_gdn : GdnConfig;
  mc_attn : AttnConfig;
}.

Record LayerWeightsAll := mkLayerWeightsAll {
  kind : LayerKind;
  lw_layer : LayerWeights;
  lw_gdn : option GdnWeights;
  lw_attn : option AttnWeights;
}.

Record ModelWeights := mkModelWeights {
  embed_tokens : vec;
  final_norm : vec;
  lm_head : vec;
  layers : list LayerWeightsAll;
}.

Record ModelTrace := mkModelTrace {
  tr_embedding : vec;
  tr_layers : list LayerTrace;
  tr_final_norm : vec;
  tr_logits : vec;
  tr_t : nat;
  tr_vocab : nat;
}.

Inductive model_error :=
| EmptyInput
| EmptyChunk
| EmptyPrompt
| EmbedSize (got want : nat)
| TokenOutOfRange (id : Z) (vocab : nat)
| NoGdnWeights
| NoAttnWeights
| LayerError (e : layer_error)
| InLayer (i : nat) (e : model_error)
| WrongCache (states layers : nat)
| NonFiniteLogits (bad step : nat)
| SamplerError (e : NextError).

Abbreviation outcome := (result (err model_error)).

Definition mixer_of (mcfg : ModelConfig) (lw : LayerWeightsAll) : outcome Mixer :=
  match kind lw with
  | KLinearAttention =>
      w ← ok_or (Error NoGdnWeights) (lw_gdn lw); Ok (LinearAttention (mc_gdn mcfg) w)
  | KFullAttention =>
      w ← ok_or (Error NoAttnWeights) (lw_attn lw); Ok (FullAttention (mc_attn mcfg) w)
  end.

(** ** Reading a trace *)

Definition last_logits (tr : ModelTrace) : option vec :=
  slice_at (tr_logits tr) ((tr_t tr - 1) * tr_vocab tr) (length (tr_logits tr)).

(** The scan of [argmax_last]: [best] moves on a strictly larger value. *)
Definition argmax (l : vec) : option nat :=
  for_ (length l) (λ i best,
    v ← l !! i; m ← l !! best; Some (if SFltb m v then i else best)) 0.

Definition argmax_last (tr : ModelTrace) : option nat := l ← last_logits tr; argmax l.

(** ** One forward pass *)

Definition embed (w : vec) (input_ids : list Z) (vocab hidden : nat) : outcome vec :=
  rows ← try_map (λ id : Z,
    let i := Z.to_nat id in
    if decide (vocab ≤ i) then Err (Error (TokenOutOfRange id vocab))
    else run (slice_at w (i * hidden) (i * hidden + hidden))) input_ids;
  Ok (concat rows).

Section model.
Context `{Libm} (hw : Z) (mcfg : ModelConfig) (w : ModelWeights).

(** The final norm and the head. *)
Definition head (h : vec) (rows : nat) : option (vec * vec) :=
  fin ← rmsnorm_1plus (final_norm w) h rows (hidden mcfg) (m_eps mcfg);
  logits ← linear hw (lm_head w) None fin rows (hidden mcfg) (vocab mcfg);
  Some (fin, logits).

(** The loop over the layers, [i] the index of the first. *)
Fixpoint run_layers (i : nat) (lws : list LayerWeightsAll) (h : vec) (b t : nat)
    (rope : vec * vec) : outcome (list LayerTrace * vec) :=
  match lws with
  | [] => Ok ([], h)
  | lw :: lws =>
      mixer ← map_err (InLayer i) (mixer_of mcfg lw);
      tr ← map_err (λ e, InLayer i (LayerError e))
             (layer_forward hw mixer (lw_layer lw) h b t (m_eps mcfg) (Some rope));
      '(trs, h) ← run_layers (S i) lws (lt_out tr) b t rope;
      Ok (tr :: trs, h)
  end.

Definition forward (input_ids : list Z) : outcome ModelTrace :=
  let t := length input_ids in
  if decide (t = 0) then Err (Error EmptyInput) else
  let b := 1 in
  let rows := b * t in
  if decide (vocab mcfg * hidden mcfg ≠ length (embed_tokens w))
  then Err (Error (EmbedSize (length (embed_tokens w)) (vocab mcfg * hidden mcfg))) else
  embedding ← embed (embed_tokens w) input_ids (vocab mcfg) (hidden mcfg);
  rope ← run (build_rope (mc_attn mcfg) t 0);
  '(layer_traces, h) ← run_layers 0 (layers w) embedding b t rope;
  '(fin, logits) ← run (head h rows);
  Ok (mkModelTrace embedding layer_traces fin logits t (vocab mcfg)).

(** ** The cache *)

Record Cache := mkCache { states : list MixerState; cache_len : nat }.

Definition cache_new (b : nat) : Cache :=
  mkCache ((λ lw, match kind lw with
                  | KLinearAttention => LinearState (GdnState.new (mc_gdn mcfg) b)
                  | KFullAttention => FullState AttnState.new
                  end) <$> layers w) 0.

Definition cache_bytes (c : Cache) : nat := foldr (λ s n, state_bytes s + n) 0 (states c).
Definition bytes_by_kind (c : Cache) : nat * nat :=
  foldl (λ '(lin, full) s, match s with
                           | LinearState g => (lin + GdnState.bytes g, full)
                           | FullState a => (lin, full + AttnState.bytes a)
                           end) (0, 0) (states c).

(** The loop over the layers and their states.  A failing layer leaves the
    states before it advanced. *)
Fixpoint run_layers_cached (i : nat) (lws : list LayerWeightsAll) (sts : list MixerState)
    (h : vec) (b t : nat) (rope : vec * vec) :
    list MixerState * outcome (list LayerTrace * vec) :=
  match lws, sts with
  | [], _ => (sts, Ok ([], h))
  | _ :: _, [] => (sts, Err Panic)
  | lw :: lws, st :: sts =>
      match
        (mixer ← map_err (InLayer i) (mixer_of mcfg lw);
         map_err (λ e, InLayer i (LayerError e))
           (layer_forward_with_state hw mixer (lw_layer lw) h b t (m_eps mcfg) (Some rope) st))
      with
      | Err e => (st :: sts, Err e)
      | Ok (tr, st) =>
          let '(sts, r) := run_layers_cached (S i) lws sts (lt_out tr) b t rope in
          (st :: sts, '(trs, h) ← r; Ok (tr :: trs, h))
      end
  end.

(** Returns the cache as the call leaves it, and the outcome. *)
Definition forward_cached (cache : Cache) (tokens : list Z) : Cache * outcome ModelTrace :=
  let t := length tokens in
  if decide (t = 0) then (cache, Err (Error EmptyChunk)) else
  let b := 1 in
  let rows := b * t in
  let start := cache_len cache in
  if decide (length (states cache) ≠ length (layers w))
  then (cache, Err (Error (WrongCache (length (states cache)) (length (layers w))))) else
  match
    (embedding ← embed (embed_tokens w) tokens (vocab mcfg) (hidden mcfg);
     rope ← run (build_rope (mc_attn mcfg) t start);
     Ok (embedding, rope))
  with
  | Err e => (cache, Err e)
  | Ok (embedding, rope) =>
      match run_layers_cached 0 (layers w) (states cache) embedding b t rope with
      | (sts, Err e) => (mkCache sts start, Err e)
      | (sts, Ok (layer_traces, h)) =>
          (mkCache sts (start + t),
           '(fin, logits) ← run (head h rows);
           Ok (mkModelTrace embedding layer_traces fin logits t (vocab mcfg)))
      end
  end.

(** ** Decoding *)

Definition next_token (tr : ModelTrace) : outcome Z :=
  best ← run (argmax_last tr); Ok (wrap32 (Z.of_nat best)).

(** The steps after the prefill: [tr] is the trace of the last call. *)
Fixpoint greedy_steps (steps : nat) (stop : list Z) (cache : Cache) (tr : ModelTrace)
    (generated : list Z) (traces : list ModelTrace) : outcome (list Z * list ModelTrace * bool) :=
  match steps with
  | O => Ok (generated, traces, false)
  | S steps =>
      nxt ← next_token tr;
      if decide (nxt ∈ stop) then Ok (generated, traces, true) else
      let '(cache, r) := forward_cached cache [nxt] in
      tr' ← r;
      greedy_steps steps stop cache tr' (generated ++ [nxt]) (traces ++ [tr])
  end.

Definition greedy_cached_stopping (prompt : list Z) (steps : nat) (stop : list Z) :
    outcome (list Z * list ModelTrace * bool) :=
  if decide (prompt = []) then Err (Error EmptyPrompt) else
  let '(cache, r) := forward_cached (cache_new 1) prompt in
  tr ← r;
  greedy_steps steps stop cache tr [] [].

Definition greedy_cached (prompt : list Z) (steps : nat) : outcome (list Z * list ModelTrace) :=
  '(ids, traces, _) ← greedy_cached_stopping prompt steps []; Ok (ids, traces).

(** The logits are copied before the sampler filters them; the history it
    reads starts as the prompt. *)
Fixpoint sample_steps (steps : nat) (stop : list Z) (sampler : Sampler) (cache : Cache)
    (tr : ModelTrace) (history generated : list Z) (traces : list ModelTrace) :
    outcome (list Z * list ModelTrace * bool) :=
  match steps with
  | O => Ok (generated, traces, false)
  | S steps =>
      logits ← run (last_logits tr);
      if forallb is_finite logits then
        match next fexp fln sampler logits history with
        | (Err e, _, _) => Err (Error (SamplerError e))
        | (Ok nxt, _, sampler) =>
            if decide (nxt ∈ stop) then Ok (generated, traces, true) else
            let '(cache, r) := forward_cached cache [nxt] in
            tr' ← r;
            sample_steps steps stop sampler cache tr' (history ++ [nxt])
              (generated ++ [nxt]) (traces ++ [tr])
        end
      else Err (Error (NonFiniteLogits (length (filter (λ x, is_finite x = false) logits))
                         (length generated)))
  end.

Definition sample_stopping (prompt : list Z) (steps : nat) (sampler : Sampler) (stop : list Z) :
    outcome (list Z * list ModelTrace * bool) :=
  if decide (prompt = []) then Err (Error EmptyPrompt) else
  let '(cache, r) := forward_cached (cache_new 1) prompt in
  tr ← r;
  sample_steps steps stop sampler cache tr prompt [] [].

Fixpoint greedy_loop (steps : nat) (ids generated : list Z) (traces : list ModelTrace) :
    outcome (list Z * list ModelTrace) :=
  match steps with
  | O => Ok (generated, traces)
  | S steps =>
      tr ← forward ids;
      nxt ← next_token tr;
      greedy_loop steps (ids ++ [nxt]) (generated ++ [nxt]) (traces ++ [tr])
  end.

Definition greedy (prompt : list Z) (steps : nat) : outcome (list Z * list ModelTrace) :=
  greedy_loop steps prompt [] [].
End model.
