(* ===== verification/ModelProps.v ===== *)
(** * Cached decoding is recomputation

    The stack as a function of the token sequence; the whole pass computes
    it, the cached pass continues it from any position, and so feeding a
    sequence in pieces gives the logits of the whole and greedy decoding with
    the cache gives the tokens of greedy decoding without. *)

From stdpp Require Import list.
From S2P Require Import Prelude Float FloatProps Sample SampleProps Tensor Linear LinearProps Delta DeltaProps Gdn GdnProps.
From S2P Require Import Attention AttentionProps Layer LayerProps Model.
#[local] Open Scope nat_scope.
#[local] Opaque F32.add F32.sub F32.mul F32.div F32.sqrt to_f32 to_f64 f32_of_nat.

Abbreviation at_ := LinearProps.at_ (only parsing).

Section model.
Context `{Libm} (hw : Z) (mcfg : ModelConfig) (w : ModelWeights).
Let hid := hidden mcfg.
Let eps := m_eps mcfg.
Let acfg := mc_attn mcfg.
Let V := vocab mcfg.

(** ** Well-formed weights *)

(** The mixer a layer's kind selects is there and has its sizes. *)
Definition mixer_wf (lw : LayerWeightsAll) : Prop :=
  match kind lw with
  | KLinearAttention => ∃ gw, lw_gdn lw = Some gw ∧ gdn_wf (mc_gdn mcfg) gw
  | KFullAttention => ∃ aw, lw_attn lw = Some aw ∧ attn_wf acfg aw
  end.

Record model_wf : Prop := {
  wf_embed : length (embed_tokens w) = V * hid;
  wf_final : length (final_norm w) = hid;
  wf_head : length (lm_head w) = V * hid;
  wf_gdn_hidden : g_hidden (mc_gdn mcfg) = hid;
  wf_attn_hidden : at_hidden acfg = hid;
  wf_vocab : (0 < Z.of_nat V ≤ 2 ^ 32)%Z;
  wf_layers : Forall (λ lw, layer_wf (lw_layer lw) hid ∧ mixer_wf lw) (layers w);
}.

(** ** The stack over a sequence *)

Definition kind_seq (lw : LayerWeightsAll) : (nat → nat → f32) → nat → nat → f32 :=
  match kind lw, lw_gdn lw, lw_attn lw with
  | KLinearAttention, Some gw, _ => gdn_seq (mc_gdn mcfg) gw
  | KFullAttention, _, Some aw => attn_seq acfg aw
  | _, _, _ => λ X, X
  end.

Definition kind_state (lw : LayerWeightsAll) (b : nat) (X : batch) (n : nat) : MixerState :=
  match kind lw, lw_gdn lw, lw_attn lw with
  | KLinearAttention, Some gw, _ => LinearState (gdn_state_at (mc_gdn mcfg) gw b X n)
  | KFullAttention, _, Some aw => FullState (attn_state_at acfg aw b X n)
  | _, _, _ => FullState AttnState.new
  end.

Definition one_layer (lw : LayerWeightsAll) : (nat → nat → f32) → nat → nat → f32 :=
  layer_seq (lw_layer lw) hid eps (kind_seq lw).

Fixpoint stack_seq (lws : list LayerWeightsAll) (X : nat → nat → f32) : nat → nat → f32 :=
  match lws with
  | [] => X
  | lw :: lws => stack_seq lws (one_layer lw X)
  end.

(** The states of the stack before position [n]. *)
Fixpoint stack_states (lws : list LayerWeightsAll) (b : nat) (X : batch) (n : nat) : list MixerState :=
  match lws with
  | [] => []
  | lw :: lws =>
      kind_state lw b (λ bi, normed (lw_layer lw) hid eps (X bi)) n
      :: stack_states lws b (λ bi, one_layer lw (X bi)) n
  end.

Lemma mixer_instance lw : model_wf → mixer_wf lw →
  ∃ m (I : SequenceMixer hw acfg hid m), mixer_of mcfg lw = Ok m ∧
    (∀ X, @mix_seq _ hw acfg hid m I X = kind_seq lw X) ∧
    (∀ b X n, @mix_state _ hw acfg hid m I b X n = kind_state lw b X n).
Proof.
  intros Hm. unfold mixer_wf, mixer_of, kind_seq, kind_state.
  pose proof (wf_gdn_hidden Hm) as Hg. pose proof (wf_attn_hidden Hm) as Ha.
  clear Hm. revert Hg Ha. generalize hid as n. intros n Hg Ha. destruct (kind lw).
  - intros (gw & -> & Hw). subst n. by exists _, (gdn_mixer hw acfg _ gw Hw).
  - intros (aw & -> & Hw). clear Hg. subst n. exists _, (attn_mixer hw _ aw Hw).
    by destruct (lw_gdn lw).
Qed.

Abbreviation tables t start := (rope_table acfg fcos t start, rope_table acfg fsin t start).

Lemma run_layers_spec lws : model_wf →
  Forall (λ lw, layer_wf (lw_layer lw) hid ∧ mixer_wf lw) lws → ∀ i b t X, 0 < t →
  ∃ trs, run_layers hw mcfg i lws (chunk b t hid 0 X) b t (tables t 0)
    = Ok (trs, chunk b t hid 0 (λ bi, stack_seq lws (X bi))).
Proof.
  intros Hm. induction 1 as [|lw lws [Hl Hmix] _ IH]; intros i b t X Ht; [by eexists|].
  destruct (mixer_instance lw Hm Hmix) as (m & I & Hmo & Hseq & _).
  cbn [run_layers]. rewrite Hmo. cbn [map_err mbind result_bind].
  destruct (layer_forward_spec hw (lw_layer lw) hid eps acfg m b t X Hl Ht) as (lt & Hlt & Ho).
  fold eps. rewrite Hlt. cbn [map_err mbind result_bind]. rewrite Ho.
  edestruct (IH (S i) b t) as (trs & Htrs); [done|]. rewrite Htrs. cbn [mbind result_bind].
  eexists. do 2 f_equal. unfold chunk. apply flat2_ext. intros r c _ _.
  cbn [stack_seq]. do 2 f_equal. unfold one_layer, layer_seq. by rewrite Hseq.
Qed.

Lemma run_layers_cached_spec lws : model_wf →
  Forall (λ lw, layer_wf (lw_layer lw) hid ∧ mixer_wf lw) lws → ∀ i b t start X, 0 < t →
  ∃ trs, run_layers_cached hw mcfg i lws (stack_states lws b X start) (chunk b t hid start X) b t
      (tables t start)
    = (stack_states lws b X (start + t), Ok (trs, chunk b t hid start (λ bi, stack_seq lws (X bi)))).
Proof.
  intros Hm. induction 1 as [|lw lws [Hl Hmix] _ IH]; intros i b t start X Ht; [by eexists|].
  destruct (mixer_instance lw Hm Hmix) as (m & I & Hmo & Hseq & Hst).
  cbn [run_layers_cached stack_states]. rewrite Hmo. cbn [map_err mbind result_bind].
  destruct (layer_forward_with_state_spec hw (lw_layer lw) hid eps acfg m b t start X Hl Ht)
    as (lt & Hlt & Ho).
  unfold layer_state in Hlt. rewrite !Hst in Hlt.
  fold eps. rewrite Hlt. cbn [map_err]. rewrite Ho.
  edestruct (IH (S i) b t start (λ bi, one_layer lw (X bi))) as (trs & Htrs); [done|].
  match goal with |- context [run_layers_cached _ _ _ _ _ ?h] =>
    assert (h = chunk b t hid start (λ bi, one_layer lw (X bi))) as -> end.
  { unfold chunk. apply flat2_ext. intros r c _ _. unfold one_layer, layer_seq. by rewrite Hseq. }
  rewrite Htrs. by eexists.
Qed.

Lemma stack_states_new b X : model_wf →
  Forall (λ lw, layer_wf (lw_layer lw) hid ∧ mixer_wf lw) (layers w) →
  states (cache_new mcfg w b) = stack_states (layers w) b X 0.
Proof.
  intros Hm Hall. unfold cache_new. cbn [states]. revert X.
  induction Hall as [|lw lws [_ Hmix] _ IH]; intros X; [done|].
  cbn [fmap list_fmap stack_states]. rewrite <- IH. f_equal.
  unfold kind_state. unfold mixer_wf in Hmix. destruct (kind lw).
  - destruct Hmix as (gw & -> & _). f_equal. apply gdn_state_new.
  - destruct Hmix as (aw & -> & _). destruct (lw_gdn lw); f_equal; apply attn_state_new.
Qed.

(** ** Tokens *)

Definition valid (id : Z) : Prop := (0 ≤ id < Z.of_nat V)%Z.

(** The embedding of a token sequence. *)
Definition embedded (ids : list Z) (p i : nat) : f32 :=
  at_ (embed_tokens w) (Z.to_nat (nth p ids 0%Z) * hid + i).

Lemma embed_spec pre ids : model_wf → Forall valid ids →
  embed (embed_tokens w) ids V hid = Ok (chunk 1 (length ids) hid (length pre) (λ _, embedded (pre ++ ids))).
Proof.
  intros Hm Hv. unfold embed.
  set (row := λ id : Z, tab hid (λ i, at_ (embed_tokens w) (Z.to_nat id * hid + i))).
  match goal with |- (?m ≫= _) = _ => assert (m = Ok (row <$> ids)) as -> end.
  { apply try_map_Ok, Forall2_fmap_r, Forall_Forall2_diag. eapply Forall_impl; [exact Hv|].
    intros id Hid. unfold valid in Hid. cbn beta zeta. rewrite decide_False by lia.
    rewrite (slice_tab_intro _ _ hid (λ i, at_ (embed_tokens w) (Z.to_nat id * hid + i))).
    - done.
    - rewrite (wf_embed Hm). assert (Z.to_nat id < V) by lia. nia.
    - intros i Hi. apply at_lookup. rewrite (wf_embed Hm). apply coords_bound; lia. }
  cbn [mbind result_bind]. f_equal. unfold chunk. rewrite Nat.mul_1_l.
  assert (row <$> ids = tab (length ids) (λ r, row (nth r ids 0%Z))) as ->.
  { apply list_tab; [by rewrite length_fmap|]. intros r Hr. rewrite list_lookup_fmap.
    destruct (nth_lookup_or_length ids r 0%Z) as [->|]; [done|lia]. }
  unfold flat2. f_equal. apply tab_ext. intros r Hr. unfold row. apply tab_ext. intros i _.
  unfold embedded. rewrite Nat.mod_small by done. by rewrite app_nth2_plus.
Qed.

(** Row [p] of the output, and of the logits, of a token sequence. *)
Definition stack_row (ids : list Z) : nat → nat → f32 := stack_seq (layers w) (embedded ids).
Definition final_row (ids : list Z) (p : nat) : nat → f32 :=
  norm1 (final_norm w) hid eps (stack_row ids p).
Definition logit_row (ids : list Z) (p v : nat) : f32 :=
  lin (lm_head w) None hid (final_row ids p) v.

Definition logits_of (ids : list Z) (start t : nat) : vec :=
  chunk 1 t V start (λ _, logit_row ids).

Lemma head_spec ids start t : model_wf →
  ∃ fin, head hw mcfg w (chunk 1 t hid start (λ _, stack_seq (layers w) (embedded ids))) (1 * t)
    = Some (fin, logits_of ids start t).
Proof.
  intros Hm. unfold head. fold hid eps V.
  erewrite rmsnorm_1plus_spec; [|apply (wf_final Hm)|done]. cbn [mbind option_bind].
  erewrite linear_spec; [|apply (wf_head Hm)|done|done]. cbn [mbind option_bind]. by eexists.
Qed.

(** The whole pass. *)
Lemma forward_spec ids : model_wf → ids ≠ [] → Forall valid ids →
  ∃ tr, forward hw mcfg w ids = Ok tr ∧
    tr_logits tr = logits_of ids 0 (length ids) ∧ tr_t tr = length ids ∧ tr_vocab tr = V.
Proof.
  intros Hm Hne Hv. assert (0 < length ids) as Ht by (destruct ids; [done|cbn; lia]).
  unfold forward. rewrite decide_False by lia. fold V hid acfg.
  rewrite decide_False by (rewrite (wf_embed Hm); intros Hx; by apply Hx).
  rewrite (embed_spec [] ids Hm Hv). cbn [mbind result_bind app length].
  rewrite build_rope_spec. cbn [run ok_or mbind result_bind].
  destruct (run_layers_spec (layers w) Hm (wf_layers Hm) 0 1 (length ids) (λ _, embedded ids) Ht)
    as (trs & ->). cbn [mbind result_bind].
  destruct (head_spec ids 0 (length ids) Hm) as (fin & ->). cbn [run ok_or mbind result_bind].
  by eexists.
Qed.

(** The cache after the tokens [ids]. *)
Definition cache_of (ids : list Z) : Cache :=
  mkCache (stack_states (layers w) 1 (λ _, embedded ids) (length ids)) (length ids).

Lemma length_stack_states lws b X n : length (stack_states lws b X n) = length lws.
Proof. revert X; induction lws; intros; cbn; [done|]. by rewrite IHlws. Qed.

(** The cached pass, from the states of a prefix. *)
Lemma forward_cached_spec pre ids X : model_wf → ids ≠ [] → Forall valid ids →
  stack_states (layers w) 1 (λ _, embedded (pre ++ ids)) (length pre) = X →
  ∃ tr, forward_cached hw mcfg w (mkCache X (length pre)) ids = (cache_of (pre ++ ids), Ok tr) ∧
    tr_logits tr = logits_of (pre ++ ids) (length pre) (length ids) ∧
    tr_t tr = length ids ∧ tr_vocab tr = V.
Proof.
  intros Hm Hne Hv <-. assert (0 < length ids) as Ht by (destruct ids; [done|cbn; lia]).
  unfold forward_cached. rewrite decide_False by lia. fold V hid acfg. cbn [states cache_len].
  rewrite length_stack_states, decide_False by (intros Hx; by apply Hx).
  rewrite (embed_spec pre ids Hm Hv). cbn [mbind result_bind].
  rewrite build_rope_spec. cbn [run ok_or mbind result_bind].
  destruct (run_layers_cached_spec (layers w) Hm (wf_layers Hm) 0 1 (length ids) (length pre)
    (λ _, embedded (pre ++ ids)) Ht) as (trs & ->).
  destruct (head_spec (pre ++ ids) (length pre) (length ids) Hm) as (fin & ->).
  cbn [run ok_or mbind result_bind]. eexists.
  split; [unfold cache_of; by rewrite length_app|done].
Qed.

(** ** Continuing a sequence *)

(** The states before position [n] only depend on the tokens before it. *)
Lemma states_prefix pre ids : model_wf → Forall valid pre → Forall valid ids →
  stack_states (layers w) 1 (λ _, embedded (pre ++ ids)) (length pre)
  = stack_states (layers w) 1 (λ _, embedded pre) (length pre).
Proof.
  intros Hm Hp Hi. destruct pre as [|id0 pre'] eqn:Epre.
  { cbn [length]. rewrite <- !stack_states_new by (done || apply (wf_layers Hm)). done. }
  rewrite <- Epre in *. clear Epre id0 pre'.
  set (n := length pre). destruct (decide (n = 0)) as [Hz|Hz].
  { rewrite Hz. by rewrite <- !stack_states_new by (done || apply (wf_layers Hm)). }
  assert (chunk 1 n hid 0 (λ _, embedded (pre ++ ids)) = chunk 1 n hid 0 (λ _, embedded pre)) as Hc.
  { unfold chunk. apply flat2_ext. intros r i Hr _. unfold embedded. f_equal.
    rewrite Nat.mul_1_l in Hr. rewrite Nat.mod_small by done. cbn [Nat.add].
    by rewrite app_nth1. }
  destruct (run_layers_cached_spec (layers w) Hm (wf_layers Hm) 0 1 n 0
    (λ _, embedded (pre ++ ids))) as (t1 & H1); [lia|].
  destruct (run_layers_cached_spec (layers w) Hm (wf_layers Hm) 0 1 n 0
    (λ _, embedded pre)) as (t2 & H2); [lia|].
  rewrite Hc in H1.
  rewrite <- (stack_states_new 1 (λ _, embedded (pre ++ ids))) in H1 by (done || apply (wf_layers Hm)).
  rewrite <- (stack_states_new 1 (λ _, embedded pre)) in H2 by (done || apply (wf_layers Hm)).
  rewrite H1 in H2. cbn [Nat.add] in H2. by injection H2.
Qed.

Lemma cache_new_of : model_wf → cache_new mcfg w 1 = cache_of [].
Proof.
  intros Hm. unfold cache_of. rewrite <- stack_states_new by (done || apply (wf_layers Hm)). done.
Qed.

(** Feeding more tokens to the cache of [pre]. *)
Lemma forward_cached_of pre ids : model_wf → Forall valid pre → ids ≠ [] → Forall valid ids →
  ∃ tr, forward_cached hw mcfg w (cache_of pre) ids = (cache_of (pre ++ ids), Ok tr) ∧
    tr_logits tr = logits_of (pre ++ ids) (length pre) (length ids) ∧
    tr_t tr = length ids ∧ tr_vocab tr = V.
Proof.
  intros Hm Hp Hne Hi. apply forward_cached_spec; [done..|]. by apply states_prefix.
Qed.

(** The logits of a position do not depend on what follows. *)
Lemma logits_prefix pre ids n : model_wf → Forall valid pre → Forall valid ids →
  length pre = n → 0 < n → logits_of (pre ++ ids) 0 n = logits_of pre 0 n.
Proof.
  intros Hm Hp Hi <- Hn.
  assert (chunk 1 (length pre) hid 0 (λ _, embedded (pre ++ ids))
    = chunk 1 (length pre) hid 0 (λ _, embedded pre)) as Hc.
  { unfold chunk. apply flat2_ext. intros r i Hr _. unfold embedded. f_equal.
    rewrite Nat.mul_1_l in Hr. rewrite Nat.mod_small by done. cbn [Nat.add].
    by rewrite app_nth1. }
  destruct (run_layers_spec (layers w) Hm (wf_layers Hm) 0 1 (length pre)
    (λ _, embedded (pre ++ ids)) Hn) as (t1 & H1).
  destruct (run_layers_spec (layers w) Hm (wf_layers Hm) 0 1 (length pre)
    (λ _, embedded pre) Hn) as (t2 & H2).
  rewrite Hc, H2 in H1. injection H1 as _ H1.
  destruct (head_spec (pre ++ ids) 0 (length pre) Hm) as (f1 & E1).
  destruct (head_spec pre 0 (length pre) Hm) as (f2 & E2).
  rewrite <- H1, E2 in E1. by injection E1.
Qed.

Lemma logits_split ids a b : logits_of ids 0 (a + b) = logits_of ids 0 a ++ logits_of ids a b.
Proof.
  unfold logits_of, chunk. rewrite !Nat.mul_1_l, flat2_app. f_equal; apply flat2_ext.
  - intros r v Hr _. by rewrite !Nat.mod_small by lia.
  - intros r v Hr _. rewrite !Nat.mod_small by lia. done.
Qed.

(** ** Choosing the next token *)

Lemma argmax_total l : l ≠ [] → ∃ i, argmax l = Some i ∧ i < length l.
Proof.
  intros Hl. assert (0 < length l) as Hn by (destruct l; [done|cbn; lia]).
  apply (for_inv (λ _ best, best < length l)); [done|]. intros i best Hi Hb.
  rewrite !at_lookup by done. cbn [mbind option_bind]. eexists. split; [done|].
  by destruct (SFltb _ _).
Qed.

(** A trace that ends with the last row of [ids]. *)
Definition ends_with_row (tr : ModelTrace) (ids : list Z) : Prop :=
  last_logits tr = Some (tab V (logit_row ids (length ids - 1))).

Lemma trace_ends tr ids start t : 0 < t → start + t = length ids →
  tr_logits tr = logits_of ids start t → tr_t tr = t → tr_vocab tr = V → ends_with_row tr ids.
Proof.
  intros Ht Hlen Hl Htt Hv. unfold ends_with_row, last_logits. rewrite Hl, Htt, Hv.
  unfold logits_of, chunk. rewrite length_flat2, Nat.mul_1_l.
  replace (t * V) with ((t - 1) * V + V) by nia.
  rewrite slice_flat2 by lia. f_equal. apply tab_ext. intros v _.
  rewrite Nat.mod_small by lia. f_equal. lia.
Qed.

(** The greedy choice after [ids], and the greedy continuation. *)
Definition choose (ids : list Z) : Z :=
  Z.of_nat (default 0 (argmax (tab V (logit_row ids (length ids - 1))))).
Fixpoint continuation (steps : nat) (ids : list Z) : list Z :=
  match steps with
  | O => []
  | S steps => choose ids :: continuation steps (ids ++ [choose ids])
  end.

(** The logits each choice is made from. *)
Fixpoint choice_rows (steps : nat) (ids : list Z) : list (option vec) :=
  match steps with
  | O => []
  | S steps => Some (tab V (logit_row ids (length ids - 1))) :: choice_rows steps (ids ++ [choose ids])
  end.

Lemma choose_valid ids : model_wf → valid (choose ids).
Proof.
  intros Hm. pose proof (wf_vocab Hm). unfold valid, choose.
  destruct (argmax_total (tab V (logit_row ids (length ids - 1)))) as (i & -> & Hi).
  - intros Hn. apply (f_equal length) in Hn. rewrite length_tab in Hn. cbn in Hn. lia.
  - rewrite length_tab in Hi. cbn. lia.
Qed.

Lemma next_token_choose tr ids : model_wf → ends_with_row tr ids → next_token tr = Ok (choose ids).
Proof.
  intros Hm Hr. pose proof (wf_vocab Hm) as Hv. pose proof (choose_valid ids Hm) as Hc.
  unfold next_token, argmax_last. rewrite Hr. cbn [mbind option_bind].
  unfold choose, valid in *.
  destruct (argmax_total (tab V (logit_row ids (length ids - 1)))) as (i & E & Hi).
  - intros Hn. apply (f_equal length) in Hn. rewrite length_tab in Hn. cbn in Hn. lia.
  - rewrite E in *. cbn in *. rewrite wrap32_small by lia. done.
Qed.

Lemma greedy_loop_spec steps : model_wf → ∀ ids gen trs, ids ≠ [] → Forall valid ids →
  ∃ trs', greedy_loop hw mcfg w steps ids gen trs = Ok (gen ++ continuation steps ids, trs') ∧
    last_logits <$> trs' = (last_logits <$> trs) ++ choice_rows steps ids.
Proof.
  intros Hm. induction steps as [|steps IH]; intros ids gen trs Hne Hv.
  { exists trs. cbn. by rewrite !app_nil_r. }
  cbn [greedy_loop continuation choice_rows].
  destruct (forward_spec ids Hm Hne Hv) as (tr & -> & Hl & Ht & Hvo). cbn [mbind result_bind].
  assert (ends_with_row tr ids) as Hr.
  { apply (trace_ends tr ids 0 (length ids)); [|done..]. destruct ids; [done|cbn; lia]. }
  rewrite (next_token_choose tr ids) by done. cbn [mbind result_bind].
  destruct (IH (ids ++ [choose ids]) (gen ++ [choose ids]) (trs ++ [tr])) as (trs' & -> & Hrows).
  - by destruct ids.
  - apply Forall_app. split; [done|]. constructor; [by apply choose_valid|done].
  - exists trs'. rewrite <- app_assoc. split; [done|].
    rewrite Hrows, fmap_app, <- app_assoc. cbn. by rewrite Hr.
Qed.

(** What is kept of a continuation: all before the first stop token. *)
Definition until_stop (stop l : list Z) : list Z * bool :=
  match list_find (λ id, id ∈ stop) l with
  | Some (i, _) => (take i l, true)
  | None => (l, false)
  end.

Lemma until_stop_cons stop id l :
  until_stop stop (id :: l)
  = if decide (id ∈ stop) then ([], true)
    else (id :: (until_stop stop l).1, (until_stop stop l).2).
Proof.
  unfold until_stop. cbn [list_find]. case_decide; [done|].
  destruct (list_find _ l) as [[i x]|]; done.
Qed.

Lemma greedy_steps_spec steps stop : model_wf → ∀ ids tr gen trs, ids ≠ [] → Forall valid ids →
  ends_with_row tr ids →
  ∃ trs', greedy_steps hw mcfg w steps stop (cache_of ids) tr gen trs
    = Ok (gen ++ (until_stop stop (continuation steps ids)).1, trs',
          (until_stop stop (continuation steps ids)).2) ∧
    last_logits <$> trs'
    = (last_logits <$> trs)
      ++ take (length (until_stop stop (continuation steps ids)).1) (choice_rows steps ids).
Proof.
  intros Hm. induction steps as [|steps IH]; intros ids tr gen trs Hne Hv Hr.
  { exists trs. cbn. by rewrite !app_nil_r. }
  cbn [greedy_steps continuation choice_rows]. rewrite (next_token_choose tr ids) by done.
  cbn [mbind result_bind]. rewrite until_stop_cons. case_decide as Hs.
  { exists trs. cbn. by rewrite !app_nil_r. }
  pose proof (choose_valid ids Hm) as Hc.
  destruct (forward_cached_of ids [choose ids] Hm Hv) as (tr' & -> & Hl & Ht & Hvo);
    [done|by constructor|]. cbn [mbind result_bind].
  destruct (IH (ids ++ [choose ids]) tr' (gen ++ [choose ids]) (trs ++ [tr])) as (trs' & -> & Hrows).
  - by destruct ids.
  - apply Forall_app. split; [done|]. by constructor.
  - apply (trace_ends tr' _ (length ids) 1); try done; [lia|]. rewrite length_app. cbn. lia.
  - exists trs'. cbn [fst snd length take]. rewrite <- app_assoc. split; [done|].
    rewrite Hrows, fmap_app, <- app_assoc. cbn. by rewrite Hr.
Qed.
End model.

(** ** Properties *)

(** Feeding a sequence in pieces. *)
Fixpoint feed `{Libm} (hw : Z) (mcfg : ModelConfig) (w : ModelWeights) (cache : Cache)
    (pieces : list (list Z)) : Cache * outcome (list ModelTrace) :=
  match pieces with
  | [] => (cache, Ok [])
  | p :: pieces =>
      match forward_cached hw mcfg w cache p with
      | (cache, Err e) => (cache, Err e)
      | (cache, Ok tr) =>
          let '(cache, r) := feed hw mcfg w cache pieces in
          (cache, trs ← r; Ok (tr :: trs))
      end
  end.

Lemma feed_spec `{Libm} hw mcfg w pieces : model_wf mcfg w → ∀ pre,
  Forall (valid mcfg) pre → Forall (λ p, p ≠ [] ∧ Forall (valid mcfg) p) pieces →
  ∃ trs, feed hw mcfg w (cache_of mcfg w pre) pieces
      = (cache_of mcfg w (pre ++ concat pieces), Ok trs) ∧
    (0 < length pre + length (concat pieces) →
     logits_of mcfg w pre 0 (length pre) ++ concat (tr_logits <$> trs)
     = logits_of mcfg w (pre ++ concat pieces) 0 (length (pre ++ concat pieces))).
Proof.
  intros Hm. induction pieces as [|p pieces IH]; intros pre Hpre Hall.
  { exists []. cbn. rewrite !app_nil_r. done. }
  apply Forall_cons in Hall as [[Hne Hp] Hall]. cbn [feed concat].
  destruct (forward_cached_of hw mcfg w pre p Hm Hpre Hne Hp) as (tr & -> & Hl & _).
  assert (Forall (valid mcfg) (pre ++ p)) as Hpp by (by apply Forall_app).
  destruct (IH (pre ++ p) Hpp Hall) as (trs & -> & Hc).
  exists (tr :: trs). rewrite (app_assoc pre p). split; [done|]. intros _.
  rewrite <- Hc.
  2:{ destruct p; [done|]. rewrite length_app. cbn. lia. }
  cbn [fmap list_fmap concat]. rewrite Hl, app_assoc. f_equal.
  rewrite length_app, logits_split. f_equal.
  destruct (decide (length pre = 0)) as [Hz|Hz].
  - by rewrite Hz.
  - symmetry. apply (logits_prefix hw); [done..|lia].
Qed.

(** C1. However a token sequence is cut into non-empty pieces, feeding the
    pieces to [forward_cached] from a new cache succeeds and gives, piece by
    piece, bit for bit the logits [forward] computes on the whole sequence. *)
Theorem forward_cached_is_forward `{Libm} hw mcfg w pieces :
  model_wf mcfg w → pieces ≠ [] → Forall (λ p, p ≠ [] ∧ Forall (valid mcfg) p) pieces →
  ∃ cache trs tr, feed hw mcfg w (cache_new mcfg w 1) pieces = (cache, Ok trs) ∧
    forward hw mcfg w (concat pieces) = Ok tr ∧
    concat (tr_logits <$> trs) = tr_logits tr ∧ cache_len cache = length (concat pieces).
Proof.
  intros Hm Hne Hall.
  assert (concat pieces ≠ []) as Hc.
  { destruct pieces as [|p ps]; [done|]. apply Forall_cons in Hall as [[Hp _] _]. by destruct p. }
  assert (Forall (valid mcfg) (concat pieces)) as Hv.
  { apply Forall_concat. eapply Forall_impl; [exact Hall|]. by intros ? []. }
  rewrite cache_new_of by done.
  destruct (feed_spec hw mcfg w pieces Hm []) as (trs & Hf & Hl); [done..|].
  destruct (forward_spec hw mcfg w (concat pieces) Hm Hc Hv) as (tr & Htr & Hlt & _).
  eexists _, trs, tr. split; [exact Hf|]. split; [done|]. split; [|done].
  rewrite Hlt. cbn [app length] in Hl. rewrite <- Hl; [done|].
  destruct (concat pieces); [done|cbn; lia].
Qed.

Lemma length_continuation `{Libm} mcfg w steps : model_wf mcfg w → ∀ ids,
  length (continuation mcfg w steps ids) = steps ∧
  Forall (valid mcfg) (continuation mcfg w steps ids) ∧
  length (choice_rows mcfg w steps ids) = steps.
Proof.
  intros Hm. induction steps as [|n IH]; intros ids; [done|]. cbn [continuation choice_rows length].
  destruct (IH (ids ++ [choose mcfg w ids])) as (-> & Hf & ->). split; [done|]. split; [|done].
  constructor; [by apply choose_valid|done].
Qed.

(** Both ways of decoding greedily, with what they chose from. *)
Lemma greedy_both `{Libm} hw mcfg w prompt steps :
  model_wf mcfg w → prompt ≠ [] → Forall (valid mcfg) prompt →
  ∃ ids trs trs', greedy_cached hw mcfg w prompt steps = Ok (ids, trs) ∧
    greedy hw mcfg w prompt steps = Ok (ids, trs') ∧
    length ids = steps ∧ Forall (valid mcfg) ids ∧
    last_logits <$> trs = last_logits <$> trs' ∧ length trs = steps.
Proof.
  intros Hm Hne Hv.
  destruct (greedy_loop_spec hw mcfg w steps Hm prompt [] [] Hne Hv) as (trs' & Hg & Hr').
  destruct (forward_cached_of hw mcfg w [] prompt Hm) as (tr & Hf & Hl & Ht & Hvo); [done..|].
  destruct (greedy_steps_spec hw mcfg w steps [] Hm prompt tr [] [] Hne Hv) as (trs & Hs & Hr).
  { apply (trace_ends mcfg w tr prompt 0 (length prompt)); try done. destruct prompt; [done|cbn; lia]. }
  assert (∀ l, until_stop [] l = (l, false)) as Hu.
  { induction l as [|x l IH]; [done|]. rewrite until_stop_cons, IH. by rewrite decide_False by set_solver. }
  rewrite Hu in Hs, Hr. exists (continuation mcfg w steps prompt), trs, trs'.
  unfold greedy_cached, greedy_cached_stopping. rewrite decide_False by done.
  rewrite cache_new_of by done. rewrite Hf. cbn [mbind result_bind app fst] in *. rewrite Hs.
  cbn [mbind result_bind]. split; [done|]. split; [exact Hg|].
  destruct (length_continuation mcfg w steps Hm prompt) as (Hlen & Hall & Hrows).
  split; [done|]. split; [done|]. cbn [fmap list_fmap app] in Hr, Hr'.
  rewrite take_ge in Hr by lia. split; [congruence|].
  by rewrite <- (length_fmap last_logits), Hr.
Qed.

(** What a pass accepts: token ids are unsigned. *)
Lemma forward_valid `{Libm} hw cfg w ids tr : Forall (λ id, 0 ≤ id)%Z ids → forward hw cfg w ids = Ok tr →
  ids ≠ [] ∧ Forall (valid cfg) ids.
Proof.
  intros Hpos. unfold forward. case_decide as Hlen; [done|]. case_decide; [done|].
  intros (emb & He & _)%bind_Ok. split; [by intros ->|].
  unfold embed in He. apply bind_Ok in He as (rows & Hr & _). apply try_map_Ok in Hr.
  apply Forall_lookup. intros i id Hi. rewrite Forall_lookup in Hpos. specialize (Hpos i id Hi).
  destruct (Forall2_lookup_l _ _ _ _ _ Hr Hi) as (row & _ & Hrow). cbn beta zeta in Hrow.
  case_decide; [done|]. unfold valid. lia.
Qed.

(** C6. Greedy decoding with the cache generates the same tokens as greedy
    decoding that recomputes the whole sequence at every step, each chosen from
    bit for bit the same logits; neither fails. *)
Theorem greedy_cached_is_greedy `{Libm} hw mcfg w prompt steps :
  model_wf mcfg w → prompt ≠ [] → Forall (valid mcfg) prompt →
  ∃ ids trs trs', greedy_cached hw mcfg w prompt steps = Ok (ids, trs) ∧
    greedy hw mcfg w prompt steps = Ok (ids, trs') ∧
    length ids = steps ∧ Forall (valid mcfg) ids ∧
    last_logits <$> trs = last_logits <$> trs'.
Proof.
  intros Hm Hne Hv. destruct (greedy_both hw mcfg w prompt steps Hm Hne Hv)
    as (ids & trs & trs' & ? & ? & ? & ? & ? & _). by exists ids, trs, trs'.
Qed.

(** Decoding with a stop set returns the tokens of the unstopped run before
    its first stop token, which is not included, and says whether there was one. *)
Theorem greedy_stopping_prefix `{Libm} hw mcfg w prompt steps stop :
  model_wf mcfg w → prompt ≠ [] → Forall (valid mcfg) prompt →
  ∃ ids trs trs', greedy hw mcfg w prompt steps = Ok (ids, trs) ∧
    greedy_cached_stopping hw mcfg w prompt steps stop
    = Ok (match list_find (λ id, id ∈ stop) ids with Some (i, _) => take i ids | None => ids end,
          trs', bool_decide (Exists (λ id, id ∈ stop) ids)).
Proof.
  intros Hm Hne Hv.
  destruct (greedy_loop_spec hw mcfg w steps Hm prompt [] [] Hne Hv) as (trs & Hg & _).
  destruct (forward_cached_of hw mcfg w [] prompt Hm) as (tr & Hf & Hl & Ht & Hvo); [done..|].
  destruct (greedy_steps_spec hw mcfg w steps stop Hm prompt tr [] [] Hne Hv) as (trs' & Hs & _).
  { apply (trace_ends mcfg w tr prompt 0 (length prompt)); try done. destruct prompt; [done|cbn; lia]. }
  exists (continuation mcfg w steps prompt), trs, trs'. split; [exact Hg|].
  unfold greedy_cached_stopping. rewrite decide_False by done.
  rewrite cache_new_of by done. rewrite Hf. cbn [mbind result_bind app] in *. rewrite Hs.
  unfold until_stop. destruct (list_find _ _) as [[i x]|] eqn:E.
  - apply list_find_Some in E as (Hx & Hin & _).
    rewrite bool_decide_true; [done|]. apply Exists_exists. exists x. split; [|done].
    by eapply list_elem_of_lookup_2.
  - rewrite bool_decide_false; [done|]. intros (x & Hx & Hin)%Exists_exists.
    apply list_find_None in E. rewrite Forall_forall in E. by apply (E x).
Qed.

(** ** Sampling *)

(** What a run generated, without the traces. *)
Definition generated_of (r : outcome (list Z * list ModelTrace * bool)) : outcome (list Z * bool) :=
  '(ids, _, hit) ← r; Ok (ids, hit).

(** Sampled decoding that runs the whole sequence at every step. *)
Fixpoint sample_recompute `{Libm} (hw : Z) (mcfg : ModelConfig) (w : ModelWeights) (steps : nat)
    (stop : list Z) (sampler : Sampler) (ids generated : list Z) : outcome (list Z * bool) :=
  match steps with
  | O => Ok (generated, false)
  | S steps =>
      tr ← forward hw mcfg w ids;
      logits ← run (last_logits tr);
      if forallb is_finite logits then
        match next fexp fln sampler logits ids with
        | (Err e, _, _) => Err (Error (SamplerError e))
        | (Ok nxt, _, sampler) =>
            if decide (nxt ∈ stop) then Ok (generated, true) else
            sample_recompute hw mcfg w steps stop sampler (ids ++ [nxt]) (generated ++ [nxt])
        end
      else Err (Error (NonFiniteLogits (length (filter (λ x, is_finite x = false) logits))
                         (length generated)))
  end.

Lemma sampled_valid `{Libm} mcfg w sampler ids nxt out sampler' : model_wf mcfg w →
  next fexp fln sampler (tab (vocab mcfg) (logit_row mcfg w ids (length ids - 1))) ids
    = (Ok nxt, out, sampler') → valid mcfg nxt.
Proof.
  intros Hm (_ & i & p & -> & Hi & _)%next_drawn. rewrite length_tab in Hi.
  pose proof (wf_vocab _ _ Hm). unfold valid. rewrite wrap32_small by lia. lia.
Qed.

Lemma sample_steps_spec `{Libm} hw mcfg w stop steps : model_wf mcfg w →
  ∀ sampler ids tr gen trs, ids ≠ [] → Forall (valid mcfg) ids → ends_with_row mcfg w tr ids →
  generated_of (sample_steps hw mcfg w steps stop sampler (cache_of mcfg w ids) tr ids gen trs)
  = sample_recompute hw mcfg w steps stop sampler ids gen.
Proof.
  intros Hm. induction steps as [|steps IH]; intros sampler ids tr gen trs Hne Hv Hr; [done|].
  cbn [sample_steps sample_recompute].
  destruct (forward_spec hw mcfg w ids Hm Hne Hv) as (tr0 & -> & Hl0 & Ht0 & Hv0). cbn [mbind result_bind].
  assert (ends_with_row mcfg w tr0 ids) as Hr0.
  { apply (trace_ends mcfg w tr0 ids 0 (length ids)); try done. destruct ids; [done|cbn; lia]. }
  unfold ends_with_row in Hr, Hr0. rewrite Hr, Hr0. cbn [run ok_or mbind result_bind].
  destruct (forallb is_finite _); [|done].
  destruct (next fexp fln sampler _ ids) as [[[nxt|e] out] sampler'] eqn:En; [|done].
  apply sampled_valid in En; [|done]. case_decide; [done|].
  destruct (forward_cached_of hw mcfg w ids [nxt] Hm Hv) as (tr' & -> & Hl & Ht & Hvo);
    [done|by constructor|]. cbn [mbind result_bind].
  apply IH.
  - by destruct ids.
  - apply Forall_app. split; [done|]. by constructor.
  - apply (trace_ends mcfg w tr' _ (length ids) 1); try done; [lia|]. rewrite length_app. cbn. lia.
Qed.

(** C2. Sampled decoding with the cache is sampled decoding that recomputes the
    whole sequence at every step: the same tokens, drawn from the same logits
    with the same random numbers, the same stop, or the same error. *)
Theorem sample_stopping_is_recompute `{Libm} hw mcfg w prompt steps sampler stop :
  model_wf mcfg w → prompt ≠ [] → Forall (valid mcfg) prompt →
  generated_of (sample_stopping hw mcfg w prompt steps sampler stop)
  = sample_recompute hw mcfg w steps stop sampler prompt [].
Proof.
  intros Hm Hne Hv. unfold sample_stopping. rewrite decide_False by done.
  destruct (forward_cached_of hw mcfg w [] prompt Hm) as (tr & Hf & Hl & Ht & Hvo); [done..|].
  rewrite cache_new_of by done. rewrite Hf. cbn [mbind result_bind app].
  apply sample_steps_spec; try done.
  apply (trace_ends mcfg w tr prompt 0 (length prompt)); try done. destruct prompt; [done|cbn; lia].
Qed.

(** What the steps after [gen] can end in. *)
Definition sampled_ok (mcfg : ModelConfig) (steps : nat) (stop gen : list Z)
    (r : outcome (list Z * list ModelTrace * bool)) : Prop :=
  match r with
  | Ok (ids, _, hit) => ∃ new, ids = gen ++ new ∧ Forall (valid mcfg) new ∧
      Forall (λ id, id ∉ stop) new ∧ length new ≤ steps ∧ (hit = false → length new = steps)
  | Err (Error (NonFiniteLogits bad step)) => 0 < bad ∧ length gen ≤ step < length gen + steps
  | Err (Error (SamplerError _)) => True
  | Err _ => False
  end.

Lemma sample_steps_safe `{Libm} hw mcfg w stop steps : model_wf mcfg w →
  ∀ sampler ids tr gen trs, ids ≠ [] → Forall (valid mcfg) ids → ends_with_row mcfg w tr ids →
  sampled_ok mcfg steps stop gen
    (sample_steps hw mcfg w steps stop sampler (cache_of mcfg w ids) tr ids gen trs).
Proof.
  intros Hm. induction steps as [|steps IH]; intros sampler ids tr gen trs Hne Hv Hr.
  { exists []. cbn. rewrite app_nil_r. split_and!; try done; try constructor. }
  cbn [sample_steps]. pose proof Hr as Hr'. unfold ends_with_row in Hr'. rewrite Hr'.
  cbn [run ok_or mbind result_bind].
  destruct (forallb is_finite _) eqn:Ef.
  2:{ cbn. split; [|lia]. apply not_true_iff_false in Ef. rewrite forallb_Forall in Ef.
      apply not_Forall_Exists, Exists_exists in Ef as (x & Hx & Hn); [|intros ?; apply _].
      assert (x ∈ filter (λ x, is_finite x = false) (tab (vocab mcfg) (logit_row mcfg w ids (length ids - 1)))) as Hin.
      { apply list_elem_of_filter. split; [by apply not_true_is_false|done]. }
      destruct (filter _ _); [by apply not_elem_of_nil in Hin|cbn; lia]. }
  destruct (next fexp fln sampler _ ids) as [[[nxt|e] out] sampler'] eqn:En; [|done].
  apply sampled_valid in En; [|done]. case_decide as Hs.
  { exists []. rewrite app_nil_r. split_and!; try done; try constructor. cbn. lia. }
  destruct (forward_cached_of hw mcfg w ids [nxt] Hm Hv) as (tr' & -> & Hl & Ht & Hvo);
    [done|by constructor|]. cbn [mbind result_bind].
  assert (ends_with_row mcfg w tr' (ids ++ [nxt])) as Hr1.
  { apply (trace_ends mcfg w tr' _ (length ids) 1); try done; [lia|]. rewrite length_app. cbn. lia. }
  assert (Forall (valid mcfg) (ids ++ [nxt])) as Hv1 by (apply Forall_app; split; [done|by constructor]).
  assert (ids ++ [nxt] ≠ []) as Hne1 by (by destruct ids).
  specialize (IH sampler' (ids ++ [nxt]) tr' (gen ++ [nxt]) (trs ++ [tr]) Hne1 Hv1 Hr1).
  unfold sampled_ok in IH |- *.
  destruct (sample_steps _ _ _ _ _ _ _ _ _ _ _) as [[[ids' trs'] hit]|e].
  - destruct IH as (new & -> & Hnv & Hns & Hlen & Hhit).
    exists (nxt :: new). rewrite <- app_assoc. split; [done|]. split; [by constructor|].
    split; [by constructor|]. cbn. split; [lia|]. intros E. by rewrite Hhit.
  - destruct e as [|e]; [done|]. destruct e; try done. rewrite length_app in IH. cbn in IH. lia.
Qed.

Lemma sample_stopping_outcome `{Libm} hw mcfg w prompt steps sampler stop :
  model_wf mcfg w → prompt ≠ [] → Forall (valid mcfg) prompt →
  match sample_stopping hw mcfg w prompt steps sampler stop with
  | Ok (ids, _, hit) => Forall (valid mcfg) ids ∧ Forall (λ id, id ∉ stop) ids ∧
      length ids ≤ steps ∧ (hit = false → length ids = steps)
  | Err (Error (NonFiniteLogits bad step)) => 0 < bad ∧ step < steps
  | Err (Error (SamplerError _)) => True
  | Err _ => False
  end.
Proof.
  intros Hm Hne Hv. unfold sample_stopping. rewrite decide_False by done.
  destruct (forward_cached_of hw mcfg w [] prompt Hm) as (tr & Hf & Hl & Ht & Hvo); [done..|].
  rewrite cache_new_of by done. rewrite Hf. cbn [mbind result_bind app].
  assert (ends_with_row mcfg w tr prompt) as Hr.
  { apply (trace_ends mcfg w tr prompt 0 (length prompt)); try done. destruct prompt; [done|cbn; lia]. }
  pose proof (sample_steps_safe hw mcfg w stop steps Hm sampler prompt tr [] [] Hne Hv Hr) as Hs.
  unfold sampled_ok in Hs. destruct (sample_steps _ _ _ _ _ _ _ _ _ _ _) as [[[ids trs] hit]|e].
  - by destruct Hs as (new & -> & Hs).
  - destruct e as [|e]; [done|]. destruct e; try done. cbn in Hs. lia.
Qed.

(** C28. Sampled decoding fails only on logits that are not finite or a draw that
    finds no token; otherwise it returns at most [steps] valid tokens, none of
    them a stop token, and fewer only when it met one. *)
Theorem sample_stopping_safe `{Libm} hw mcfg w prompt steps sampler stop :
  model_wf mcfg w → prompt ≠ [] → Forall (valid mcfg) prompt →
  match sample_stopping hw mcfg w prompt steps sampler stop with
  | Ok (ids, _, hit) => Forall (valid mcfg) ids ∧ Forall (λ id, id ∉ stop) ids ∧
      length ids ≤ steps ∧ (hit = false → length ids = steps)
  | Err (Error (NonFiniteLogits bad step)) => 0 < bad ∧ step < steps
  | Err (Error (SamplerError _)) => True
  | Err _ => False
  end.
Proof. apply sample_stopping_outcome. Qed.

(** C29. A chunk with a token outside the vocabulary is refused by its first such
    token, and the cache is left as it was: the next chunk continues the same
    sequence. *)
Theorem forward_cached_rejects `{Libm} hw mcfg w pre ok bad rest :
  model_wf mcfg w → Forall (valid mcfg) pre → Forall (valid mcfg) ok →
  (Z.of_nat (vocab mcfg) ≤ bad)%Z →
  forward_cached hw mcfg w (cache_of mcfg w pre) (ok ++ bad :: rest)
  = (cache_of mcfg w pre, Err (Error (TokenOutOfRange bad (vocab mcfg)))).
Proof.
  intros Hm Hp Ho Hb. unfold forward_cached. rewrite decide_False by (destruct ok; done).
  rewrite decide_False by (intros Hc; apply Hc; apply length_stack_states).
  assert (embed (embed_tokens w) (ok ++ bad :: rest) (vocab mcfg) (hidden mcfg)
    = Err (Error (TokenOutOfRange bad (vocab mcfg)))) as ->; [|done].
  unfold embed.
  match goal with |- (?m ≫= _) = _ => assert (m = Err (Error (TokenOutOfRange bad (vocab mcfg)))) as ->; [|done] end.
  apply try_map_first_Err.
  - eapply Forall_impl; [exact Ho|]. intros id Hid. unfold valid in Hid. cbn beta zeta.
    rewrite decide_False by lia. unfold run.
    rewrite (slice_tab_intro _ _ (hidden mcfg)
      (λ i, at_ (embed_tokens w) (Z.to_nat id * hidden mcfg + i))); [by eexists|..].
    + rewrite (wf_embed _ _ Hm). assert (Z.to_nat id < vocab mcfg) by lia. nia.
    + intros i Hi. apply at_lookup. rewrite (wf_embed _ _ Hm). apply coords_bound; lia.
  - cbn beta zeta. by rewrite decide_True by lia.
Qed.

(** On logits without NaN, greedy decoding takes the first of the largest:
    no logit is above the chosen one, and every earlier one is below it. *)
Theorem argmax_first (l : vec) : l ≠ [] → Forall (λ x, is_nan x = false) l →
  ∃ i m, argmax l = Some i ∧ l !! i = Some m ∧
    ∀ j x, l !! j = Some x → SFltb m x = false ∧ (j < i → SFltb x m = true).
Proof.
  intros Hl Hn. rewrite Forall_lookup in Hn.
  assert (0 < length l) as Hpos by (destruct l; [done|cbn; lia]).
  destruct (for_inv (λ n best, best < length l ∧ (best = 0 ∨ best < n) ∧ ∀ j x m, j < n → l !! j = Some x →
      l !! best = Some m → SFltb m x = false ∧ (j < best → SFltb x m = true)) (length l)
    (λ i best, v ← l !! i; m ← l !! best; Some (if SFltb m v then i else best)) 0)
    as (best & Hb & Hlt & _ & Hall).
  - split; [done|]. split; [by left|]. intros j x m ?. lia.
  - intros i best Hi (Hb & H0 & Hall).
    destruct (lookup_lt_is_Some_2 l i Hi) as [v Hv]. destruct (lookup_lt_is_Some_2 l best Hb) as [m Hm].
    rewrite Hv, Hm. cbn [mbind option_bind]. eexists. split; [done|].
    destruct (SFltb m v) eqn:E.
    + split; [done|]. split; [lia|]. intros j x m' Hj Hx Hm'. rewrite Hv in Hm'. injection Hm' as <-.
      destruct (decide (j = i)) as [->|Hne].
      { rewrite Hv in Hx. injection Hx as <-. split; [apply SFltb_irrefl|lia]. }
      destruct (Hall j x m ltac:(lia) Hx Hm) as [H1 H2].
      assert (SFltb x v = true) as Hxv by (eapply SFltb_le_trans; [exact H1|done|by eapply Hn]).
      split; [|done]. apply not_true_is_false. intros Hc.
      pose proof (SFltb_trans _ _ _ Hxv Hc) as Hi'. by rewrite SFltb_irrefl in Hi'.
    + split; [done|]. split; [lia|]. intros j x m' Hj Hx Hm'. rewrite Hm in Hm'. injection Hm' as <-.
      destruct (decide (j = i)) as [->|Hne]; [|apply Hall; [lia|done..]].
      rewrite Hv in Hx. injection Hx as <-. split; [done|]. intros Hlt.
      lia.
  - destruct (lookup_lt_is_Some_2 l best Hlt) as [m Hm]. exists best, m. split; [exact Hb|].
    split; [done|]. intros j x Hx. apply (Hall j x m); [by eapply lookup_lt_Some|done..].
Qed.
