(* ===== verification/ModelWitness.v ===== *)
(** * A concrete model for the theorems of [ModelProps]

    One linear-attention and one full-attention layer over a vocabulary of
    three, with stand-ins for the mathematical library. *)

From stdpp Require Import list.
From S2P Require Import Prelude Float Sample Tensor Linear LinearProps Delta DeltaProps Gdn GdnProps.
From S2P Require Import Attention AttentionProps Layer LayerProps Model ModelProps.
#[local] Open Scope nat_scope.

(** Rational stand-ins of the right order: [e^x ~ 1 + x], and so on. *)
#[local] Instance demo_libm : Libm := {|
  fexp := λ x, F32.add f1 x;
  fln := λ x, F32.sub x f1;
  fcos := λ _, f1;
  fsin := λ x, x;
  fpowf := λ x _, x;
|}.

Definition demo_eps : f32 := F32.div f1 (F32.of_Z 1000).
(** [n] small weights, not all equal. *)
Definition demo_vec (n : nat) : vec :=
  tab n (λ i, F32.div (F32.of_Z (Z.of_nat (i * 7 mod 5) - 2)) (F32.of_Z 4)).

Definition demo_gdn : GdnConfig := mkGdnConfig 2 1 2 2 1 2 demo_eps.
Definition demo_attn : AttnConfig := mkAttnConfig 2 2 1 2 2 (F32.of_Z 100) demo_eps.
Definition demo_config : ModelConfig := mkModelConfig 3 2 demo_eps demo_gdn demo_attn.
Definition demo_layer : LayerWeights :=
  mkLayerWeights (demo_vec 2) (demo_vec 2) (mkMlpWeights (demo_vec 6) (demo_vec 6) (demo_vec 6)).
Definition demo_gdn_weights : GdnWeights :=
  mkGdnWeights (demo_vec 12) (demo_vec 4) (demo_vec 4) (demo_vec 4) (demo_vec 12)
    (demo_vec 2) (demo_vec 2) (demo_vec 1) (demo_vec 4).
Definition demo_attn_weights : AttnWeights :=
  mkAttnWeights (demo_vec 16) (demo_vec 4) (demo_vec 4) (demo_vec 8) (demo_vec 2) (demo_vec 2).
Definition demo_weights : ModelWeights :=
  mkModelWeights (demo_vec 6) (demo_vec 2) (demo_vec 6)
    [mkLayerWeightsAll KLinearAttention demo_layer (Some demo_gdn_weights) None;
     mkLayerWeightsAll KFullAttention demo_layer None (Some demo_attn_weights)].

Lemma demo_model_wf : model_wf demo_config demo_weights.
Proof.
  assert (layer_wf demo_layer 2) as Hl by (split; vm_compute; lia).
  split; try by vm_compute.
  constructor; [|constructor; [|done]]; (split; [exact Hl|]).
  - exists demo_gdn_weights. split; [done|]. split; by vm_compute; lia.
  - exists demo_attn_weights. split; [done|]. split; vm_compute; lia.
Qed.

Lemma demo_valid ids : forallb (λ id, (0 <=? id)%Z && (id <? 3)%Z) ids = true →
  Forall (valid demo_config) ids.
Proof.
  rewrite forallb_forall. intros H. apply Forall_forall. intros id Hid%list_elem_of_In%H.
  unfold valid. cbn. lia.
Qed.

Definition demo_ids (r : outcome (list Z * list ModelTrace)) : option (list Z) :=
  match r with Ok (ids, _) => Some ids | Err _ => None end.

Example demo_decodes : demo_ids (greedy_cached 4 demo_config demo_weights [1; 2]%Z 3) = Some [2; 2; 2]%Z.
Proof. by vm_compute. Qed.

(** A token outside the vocabulary, in the second piece. *)
Example demo_out_of_range :
  (feed 4 demo_config demo_weights (cache_new demo_config demo_weights 1) [[1]; [7]]%Z).2
  = Err (Error (TokenOutOfRange 7 3)).
Proof. by vm_compute. Qed.

Lemma forward_cached_is_forward_witness :
  ∃ cache trs tr,
    feed 4 demo_config demo_weights (cache_new demo_config demo_weights 1) [[1; 2]; [0]; [2; 2]]%Z
      = (cache, Ok trs) ∧
    forward 4 demo_config demo_weights [1; 2; 0; 2; 2]%Z = Ok tr ∧
    concat (tr_logits <$> trs) = tr_logits tr ∧ cache_len cache = 5.
Proof.
  apply (forward_cached_is_forward 4 demo_config demo_weights [[1; 2]; [0]; [2; 2]]%Z demo_model_wf);
    [done|].
  repeat constructor; try done; by apply demo_valid.
Defined.

Lemma greedy_cached_is_greedy_witness :
  ∃ ids trs trs', greedy_cached 4 demo_config demo_weights [1; 2]%Z 3 = Ok (ids, trs) ∧
    greedy 4 demo_config demo_weights [1; 2]%Z 3 = Ok (ids, trs') ∧
    length ids = 3 ∧ Forall (valid demo_config) ids ∧
    last_logits <$> trs = last_logits <$> trs'.
Proof.
  apply (greedy_cached_is_greedy 4 demo_config demo_weights [1; 2]%Z 3 demo_model_wf);
    [done|by apply demo_valid].
Defined.

Lemma greedy_stopping_prefix_witness :
  ∃ ids trs trs', greedy 4 demo_config demo_weights [1; 2]%Z 3 = Ok (ids, trs) ∧
    greedy_cached_stopping 4 demo_config demo_weights [1; 2]%Z 3 [2]%Z
    = Ok (match list_find (λ id, id ∈ [2]%Z) ids with Some (i, _) => take i ids | None => ids end,
          trs', bool_decide (Exists (λ id, id ∈ [2]%Z) ids)).
Proof.
  apply (greedy_stopping_prefix 4 demo_config demo_weights [1; 2]%Z 3 [2]%Z demo_model_wf);
    [done|by apply demo_valid].
Defined.

Definition demo_sampler : Sampler := mkSampler (mkConfig fone 2 fone fzero fone fone fzero fzero 0 7) 7.

(** A run the sampler finishes. *)
Example demo_samples :
  match sample_stopping 4 demo_config demo_weights [1; 2]%Z 3 demo_sampler [] with
  | Ok (ids, _, hit) => Some (ids, hit)
  | Err _ => None
  end = Some ([1; 1; 2]%Z, false).
Proof. by vm_compute. Qed.

Lemma sample_stopping_is_recompute_witness :
  generated_of (sample_stopping 4 demo_config demo_weights [1; 2]%Z 3 demo_sampler [0]%Z)
  = sample_recompute 4 demo_config demo_weights 3 [0]%Z demo_sampler [1; 2]%Z [].
Proof.
  apply (sample_stopping_is_recompute 4 demo_config demo_weights [1; 2]%Z 3 demo_sampler [0]%Z demo_model_wf);
    [done|by apply demo_valid].
Defined.

Lemma sample_stopping_safe_witness :
  match sample_stopping 4 demo_config demo_weights [1; 2]%Z 3 demo_sampler [0]%Z with
  | Ok (ids, _, hit) => Forall (valid demo_config) ids ∧ Forall (λ id, id ∉ [0]%Z) ids ∧
      length ids ≤ 3 ∧ (hit = false → length ids = 3)
  | Err (Error (NonFiniteLogits bad step)) => 0 < bad ∧ step < 3
  | Err (Error (SamplerError _)) => True
  | Err _ => False
  end.
Proof.
  apply (sample_stopping_safe 4 demo_config demo_weights [1; 2]%Z 3 demo_sampler [0]%Z demo_model_wf);
    [done|by apply demo_valid].
Defined.

Lemma forward_cached_rejects_witness :
  forward_cached 4 demo_config demo_weights (cache_of demo_config demo_weights [1]%Z) [2; 7; 0]%Z
  = (cache_of demo_config demo_weights [1]%Z, Err (Error (TokenOutOfRange 7 3))).
Proof.
  apply (forward_cached_rejects 4 demo_config demo_weights [1]%Z [2]%Z 7 [0]%Z demo_model_wf);
    [by apply demo_valid..|done].
Defined.

Lemma argmax_first_witness :
  ∃ i m, argmax [F32.of_Z 1; F32.of_Z 3; F32.of_Z 3] = Some i ∧
    [F32.of_Z 1; F32.of_Z 3; F32.of_Z 3] !! i = Some m ∧
    ∀ j x, [F32.of_Z 1; F32.of_Z 3; F32.of_Z 3] !! j = Some x →
      SFltb m x = false ∧ (j < i → SFltb x m = true).
Proof. apply (argmax_first [F32.of_Z 1; F32.of_Z 3; F32.of_Z 3]); [done|repeat constructor]. Defined.

Lemma delta_split_witness :
  ∃ o1 S1 o2 S2,
    forward_prepared_into (mkShape 1 2 2 2 1) (demo_vec 8) (demo_vec 8) (demo_vec 4) (demo_vec 4)
      (demo_vec 4) (demo_vec 4) = Some (o1, S1) ∧
    forward_prepared_into (mkShape 1 1 2 2 1) (demo_vec 4) (demo_vec 4) (demo_vec 2) (demo_vec 2)
      (demo_vec 2) S1 = Some (o2, S2) ∧
    forward_prepared_into (mkShape 1 3 2 2 1) (demo_vec 8 ++ demo_vec 4) (demo_vec 8 ++ demo_vec 4)
      (demo_vec 4 ++ demo_vec 2) (demo_vec 4 ++ demo_vec 2) (demo_vec 4 ++ demo_vec 2) (demo_vec 4)
      = Some (o1 ++ o2, S2).
Proof. by apply (delta_split 2 2 1 2 1). Defined.

(** One core, and many. *)
Lemma linear_any_threads_witness :
  linear 1 (demo_vec 6) None (demo_vec 4) 2 2 3 = linear 64 (demo_vec 6) None (demo_vec 4) 2 2 3.
Proof. by apply (linear_any_threads 1 64 (demo_vec 6) None (demo_vec 4) 2 2 3). Defined.
