(* ===== verification/Real.v ===== *)
(** * Assembling a checkpoint

    Models qwen35-forward/gdn/src/real.rs: the configuration and the tensors of
    a checkpoint directory become the structures of the forward pass, with the
    sizes read off the tensors and checked against the configuration.  Sizes
    are [usize], products wrap; indexing a shape out of range and a remainder
    by zero panic. *)

From stdpp Require Import gmap.
From S2P Require Import Prelude Float Serde Rstr Tensor Linear Gdn Attention Layer Model Safetensors.
#[local] Open Scope Z_scope.

Inductive problem :=
| Disagree (what : rstr) (config shapes : Z)
| KvHeadsMultiple (heads kv_heads : Z)
| KHeadsMultiple (v_heads k_heads : Z).

Inductive real_error :=
| NoConfig
| BadConfig
| WrongModelType (model_type : rstr)
| Checkpoint (e : st_error)
| NoEmbedding
| AmbiguousEmbedding (found : list rstr)
| NoLayerTypes
| NoSetting (key : rstr)
| LayerTypesShort (entries : nat) (num_layers : Z)
| UnknownLayerType (layer : nat) (kind : rstr)
| LayerTypesTooShort (layer : nat)
| MissingTensor (name : rstr)
| EmbeddingAxes (shape : list Z)
| OneKindOfLayer
| ConvWithoutAxes
| ConvBelowValue
| Disagreements (ps : list problem)
| RotaryDim (rotary_dim head_dim : Z)
| NoHead
| WrongLength (name : rstr) (got want : Z).

Abbreviation outcome := (result (err real_error)).
Abbreviation fail e := (Err (Error e)) (only parsing).
Abbreviation StModel := Safetensors.Model.

(** ** Names *)

Definition EMBED : rstr := lit "embed_tokens.weight".

Definition detect_prefix (m : StModel) : outcome rstr :=
  let found := sort_by str_le (filter (λ n, ends_with EMBED n = true) (names m)) in
  match found with
  | [] => fail NoEmbedding
  | [n] => Ok (take (length n - length EMBED) n)
  | _ => fail (AmbiguousEmbedding found)
  end.

Definition is_unused (name : rstr) : option rstr :=
  if starts_with (lit "model.visual.") name || starts_with (lit "visual.") name
  then Some (lit "vision tower")
  else if starts_with (lit "mtp.") name then Some (lit "multi-token-prediction head")
  else None.

Definition kind_of (layer_types : list rstr) (layer : nat) : outcome LayerKind :=
  match layer_types !! layer with
  | Some s =>
      if decide (s = lit "linear_attention") then Ok KLinearAttention
      else if decide (s = lit "full_attention") then Ok KFullAttention
      else fail (UnknownLayerType layer s)
  | None => fail (LayerTypesTooShort layer)
  end.

(** [kind_of(..).ok() == Some(k)] *)
Definition is_kind (layer_types : list rstr) (k : LayerKind) (layer : nat) : bool :=
  match kind_of layer_types layer with Ok k' => bool_decide (k' = k) | Err _ => false end.

(** ** Tensors *)

(** A tensor with an exact element count. *)
Definition want (m : StModel) (name : rstr) (expect : Z) : outcome vec :=
  match tensor m name with
  | Err SliceOutOfRange => Err Panic
  | Err e => fail (Checkpoint e)
  | Ok v => if decide (len v ≠ expect) then fail (WrongLength name (len v) expect) else Ok v
  end.

Definition shape_of (m : StModel) (name : rstr) : outcome (list Z) :=
  ok_or (Error (MissingTensor name)) (e_shape <$> entry m name).

(** [shape_of(m, name)?[i]] *)
Definition shape_at (m : StModel) (name : rstr) (i : nat) : outcome Z :=
  shape ← shape_of m name; run (shape !! i).

(** [a % b], which panics on zero. *)
Definition urem (a b : Z) : outcome Z := if decide (b = 0) then Err Panic else Ok (a mod b).

(** A comparison of the [check!] macro, as the problems it adds. *)
Definition check (what : string) (from_config from_shapes : Z) : list problem :=
  if decide (from_config ≠ from_shapes) then [Disagree (lit what) from_config from_shapes] else [].

(** [*m.entry(k).or_insert(0) += 1] *)
Definition count1 (m : gmap rstr nat) (k : rstr) : gmap rstr nat :=
  <[k := S (default 0%nat (m !! k))]> m.

(** [x as usize]: towards zero, saturating, NaN to zero. *)
Definition f32_to_usize (x : f32) : Z :=
  match x with
  | S754_finite false m e =>
      (if 0 <=? e then Z.shiftl (Zpos m) e else Z.shiftr (Zpos m) (- e)) `min` u64_max
  | S754_infinity false => u64_max
  | _ => 0
  end.

Section real.
Context {J : Type} `{SerdeJson J}.

Definition cfg_usize (cfg : J) (key : string) : option Z := get cfg (lit key) ≫= as_u64.
Definition need (cfg : J) (key : string) : outcome Z :=
  ok_or (Error (NoSetting (lit key))) (cfg_usize cfg key).

Definition text_config (root : J) : J * rstr :=
  match get root (lit "text_config") with
  | Some t => match as_object t with
              | Some _ => (t, lit "text_config")
              | None => (root, lit "top level")
              end
  | None => (root, lit "top level")
  end.

Record LoadInfo := mkLoadInfo {
  li_dir : rstr;
  li_prefix : rstr;
  li_config_source : rstr;
  li_shards : nat;
  li_tensors_total : nat;
  li_tensor_bytes : Z;
  li_dtype_counts : gmap rstr nat;
  li_skipped : list (rstr * nat);
  li_tied_embeddings : bool;
  li_derived : gmap rstr Z;
}.

Record RealModel := mkRealModel {
  rm_config : ModelConfig;
  rm_weights : ModelWeights;
  rm_info : LoadInfo;
}.

(** ** The steps of [load] *)

(** The sizes the rest of the load uses. *)
Record Sizes := mkSizes {
  s_vocab : Z; s_hidden : Z; s_intermediate : Z;
  s_conv_dim : Z; s_value_dim : Z; s_num_v_heads : Z; s_head_v_dim : Z; s_conv_kernel : Z;
  s_head_dim : Z; s_num_heads : Z; s_num_kv_heads : Z;
  s_q_out : Z; s_kv_out : Z; s_key_dim : Z;
  s_num_k_heads_cfg : Z; s_num_v_heads_cfg : Z; s_head_k_dim_cfg : Z; s_head_v_dim_cfg : Z;
}.

Definition layer_name (prefix : rstr) (layer : nat) : rstr :=
  prefix ++ lit "layers." ++ show_nat (Z.of_nat layer) ++ lit ".".

(** The types of the layers and their number; entries that are not strings
    are dropped. *)
Definition read_layer_types (tc : J) : outcome (list rstr * nat) :=
  let layer_types : list rstr :=
    match get tc (lit "layer_types") ≫= as_array with
    | Some a => omap as_str a
    | None => []
    end in
  if decide (layer_types = []) then fail NoLayerTypes else
  num_layers ← need tc "num_hidden_layers";
  if decide (len layer_types < num_layers)
  then fail (LayerTypesShort (length layer_types) num_layers)
  else Ok (layer_types, Z.to_nat num_layers).

(** The first linear and the first full layer. *)
Definition first_layers (layer_types : list rstr) (num_layers : nat) : outcome (nat * nat) :=
  let find k := fst <$> list_find (λ l, is_kind layer_types k l = true) (seq 0 num_layers) in
  match find KLinearAttention, find KFullAttention with
  | Some first_linear, Some first_full => Ok (first_linear, first_full)
  | _, _ => fail OneKindOfLayer
  end.

(** The "derived sizes" of the code. *)
Definition derive_sizes (tc : J) (m : StModel) (prefix : rstr) (layer_types : list rstr)
    (num_layers : nat) : outcome (Sizes * nat) :=
  let emb_name := prefix ++ EMBED in
  emb_shape ← shape_of m emb_name;
  match emb_shape with
  | [vocab; hidden] =>
      intermediate ← shape_at m (layer_name prefix 0 ++ lit "mlp.gate_proj.weight") 0;
      '(first_linear, first_full) ← first_layers layer_types num_layers;
      let lin s := layer_name prefix first_linear ++ lit "linear_attn." ++ lit s in
      let att s := layer_name prefix first_full ++ lit "self_attn." ++ lit s in
      conv_dim ← shape_at m (lin "in_proj_qkv.weight") 0;
      value_dim ← shape_at m (lin "in_proj_z.weight") 0;
      num_v_heads ← shape_at m (lin "in_proj_b.weight") 0;
      head_v_dim ← shape_at m (lin "norm.weight") 0;
      conv_shape ← shape_of m (lin "conv1d.weight");
      conv_kernel ← ok_or (Error ConvWithoutAxes) (last conv_shape);
      head_dim ← need tc "head_dim";
      num_heads ← need tc "num_attention_heads";
      num_kv_heads ← need tc "num_key_value_heads";
      q_out ← shape_at m (att "q_proj.weight") 0;
      kv_out ← shape_at m (att "k_proj.weight") 0;
      if decide (conv_dim < value_dim) then fail ConvBelowValue else
      let key_dim := (conv_dim - value_dim) / 2 in
      num_k_heads_cfg ← need tc "linear_num_key_heads";
      num_v_heads_cfg ← need tc "linear_num_value_heads";
      head_k_dim_cfg ← need tc "linear_key_head_dim";
      head_v_dim_cfg ← need tc "linear_value_head_dim";
      Ok (mkSizes vocab hidden intermediate conv_dim value_dim num_v_heads head_v_dim conv_kernel
            head_dim num_heads num_kv_heads q_out kv_out key_dim
            num_k_heads_cfg num_v_heads_cfg head_k_dim_cfg head_v_dim_cfg, first_full)
  | _ => fail (EmbeddingAxes emb_shape)
  end.

Definition derived (s : Sizes) (num_layers : nat) : gmap rstr Z :=
  list_to_map
    [(lit "vocab", s_vocab s); (lit "hidden", s_hidden s); (lit "intermediate", s_intermediate s);
     (lit "num_layers", Z.of_nat num_layers); (lit "conv_dim", s_conv_dim s);
     (lit "key_dim", s_key_dim s); (lit "value_dim", s_value_dim s);
     (lit "num_v_heads", s_num_v_heads s); (lit "head_v_dim", s_head_v_dim s);
     (lit "conv_kernel", s_conv_kernel s); (lit "head_dim", s_head_dim s);
     (lit "num_heads", s_num_heads s); (lit "num_kv_heads", s_num_kv_heads s);
     (lit "per_layer_tensors", 0)].

(** The problems of the "cross-checks". *)
Definition cross_check (m : StModel) (prefix : rstr) (first_full : nat) (s : Sizes) :
    outcome (list problem) :=
  let p1 :=
    check "num_v_heads" (s_num_v_heads_cfg s) (s_num_v_heads s)
    ++ check "head_v_dim" (s_head_v_dim_cfg s) (s_head_v_dim s)
    ++ check "key_dim = num_k_heads * head_k_dim"
         (wmul (s_num_k_heads_cfg s) (s_head_k_dim_cfg s)) (s_key_dim s)
    ++ check "value_dim = num_v_heads * head_v_dim"
         (wmul (s_num_v_heads_cfg s) (s_head_v_dim_cfg s)) (s_value_dim s)
    ++ check "conv_dim = 2*key_dim + value_dim"
         (wadd (wmul 2 (s_key_dim s)) (s_value_dim s)) (s_conv_dim s)
    ++ check "q_proj out = num_heads * head_dim * 2"
         (wmul (wmul (s_num_heads s) (s_head_dim s)) 2) (s_q_out s)
    ++ check "k_proj out = num_kv_heads * head_dim"
         (wmul (s_num_kv_heads s) (s_head_dim s)) (s_kv_out s) in
  r ← urem (s_num_heads s) (s_num_kv_heads s);
  let p2 := if decide (r ≠ 0) then [KvHeadsMultiple (s_num_heads s) (s_num_kv_heads s)] else [] in
  r ← urem (s_num_v_heads s) (s_num_k_heads_cfg s);
  let p3 := if decide (r ≠ 0) then [KHeadsMultiple (s_num_v_heads s) (s_num_k_heads_cfg s)] else [] in
  o_shape ← shape_of m (layer_name prefix first_full ++ lit "self_attn.o_proj.weight");
  o1 ← run (o_shape !! 1%nat);
  let p4 := check "o_proj in = num_heads * head_dim" o1 (wmul (s_num_heads s) (s_head_dim s)) in
  o0 ← run (o_shape !! 0%nat);
  let p5 := check "o_proj out = hidden" o0 (s_hidden s) in
  Ok (p1 ++ p2 ++ p3 ++ p4 ++ p5).

(** [10000.0], [1.0] *)
Definition default_theta : f64 := F64.of_Z 10000.
Definition default_partial : f64 := F64.of_Z 1.

(** The rotary base and dimension. *)
Definition read_rope (tc : J) (head_dim : Z) : outcome (f32 * Z) :=
  let rope := get tc (lit "rope_parameters") in
  let rope_theta :=
    to_f32 (default default_theta (r ← rope; v ← get r (lit "rope_theta"); as_f64 v)) in
  let partial :=
    to_f32 (default default_partial (r ← rope; v ← get r (lit "partial_rotary_factor"); as_f64 v)) in
  let rotary_dim := f32_to_usize (F32.mul (F32.of_Z head_dim) partial) in
  if decide (rotary_dim = 0 ∨ rotary_dim > head_dim ∨ rotary_dim mod 2 ≠ 0)
  then fail (RotaryDim rotary_dim head_dim)
  else Ok (rope_theta, rotary_dim).

(** The tensor the head is read from. *)
Definition head_name (tc : J) (m : StModel) (prefix : rstr) : outcome rstr :=
  let tied := default true (get tc (lit "tie_word_embeddings") ≫= as_bool) in
  if contains_name m (prefix ++ lit "lm_head.weight") then Ok (prefix ++ lit "lm_head.weight")
  else if contains_name m (lit "lm_head.weight") then Ok (lit "lm_head.weight")
  else if tied then Ok (prefix ++ EMBED)
  else fail NoHead.

(** The common tensors of a layer. *)
Definition load_common (m : StModel) (p : rstr) (s : Sizes) : outcome LayerWeights :=
  let hidden := s_hidden s in
  let intermediate := s_intermediate s in
  n1 ← want m (p ++ lit "input_layernorm.weight") hidden;
  n2 ← want m (p ++ lit "post_attention_layernorm.weight") hidden;
  g ← want m (p ++ lit "mlp.gate_proj.weight") (wmul intermediate hidden);
  u ← want m (p ++ lit "mlp.up_proj.weight") (wmul intermediate hidden);
  d ← want m (p ++ lit "mlp.down_proj.weight") (wmul hidden intermediate);
  Ok (mkLayerWeights n1 n2 (mkMlpWeights g u d)).

Definition load_gdn (m : StModel) (p : rstr) (s : Sizes) : outcome GdnWeights :=
  let lp := p ++ lit "linear_attn." in
  let hidden := s_hidden s in
  qkv ← want m (lp ++ lit "in_proj_qkv.weight") (wmul (s_conv_dim s) hidden);
  z ← want m (lp ++ lit "in_proj_z.weight") (wmul (s_value_dim s) hidden);
  b ← want m (lp ++ lit "in_proj_b.weight") (wmul (s_num_v_heads s) hidden);
  a ← want m (lp ++ lit "in_proj_a.weight") (wmul (s_num_v_heads s) hidden);
  conv ← want m (lp ++ lit "conv1d.weight") (wmul (s_conv_dim s) (s_conv_kernel s));
  al ← want m (lp ++ lit "A_log") (s_num_v_heads s);
  dt ← want m (lp ++ lit "dt_bias") (s_num_v_heads s);
  n ← want m (lp ++ lit "norm.weight") (s_head_v_dim s);
  o ← want m (lp ++ lit "out_proj.weight") (wmul hidden (s_value_dim s));
  Ok (mkGdnWeights qkv z b a conv al dt n o).

Definition load_attn (m : StModel) (p : rstr) (s : Sizes) : outcome AttnWeights :=
  let ap := p ++ lit "self_attn." in
  let hidden := s_hidden s in
  q ← want m (ap ++ lit "q_proj.weight") (wmul (s_q_out s) hidden);
  k ← want m (ap ++ lit "k_proj.weight") (wmul (s_kv_out s) hidden);
  v ← want m (ap ++ lit "v_proj.weight") (wmul (s_kv_out s) hidden);
  o ← want m (ap ++ lit "o_proj.weight") (wmul (wmul hidden (s_num_heads s)) (s_head_dim s));
  qn ← want m (ap ++ lit "q_norm.weight") (s_head_dim s);
  kn ← want m (ap ++ lit "k_norm.weight") (s_head_dim s);
  Ok (mkAttnWeights q k v o qn kn).

(** The loop body for one layer. *)
Definition load_layer (m : StModel) (prefix : rstr) (layer_types : list rstr) (s : Sizes)
    (layer : nat) : outcome LayerWeightsAll :=
  kind ← kind_of layer_types layer;
  let p := layer_name prefix layer in
  lw ← load_common m p s;
  match kind with
  | KLinearAttention => g ← load_gdn m p s; Ok (mkLayerWeightsAll kind lw (Some g) None)
  | KFullAttention => a ← load_attn m p s; Ok (mkLayerWeightsAll kind lw None (Some a))
  end.

(** [BTreeMap] of the skipped subtrees, in key order. *)
Definition load_info (dir prefix cfg_source : rstr) (m : StModel) (tied : bool)
    (derived : gmap rstr Z) : LoadInfo :=
  let skipped := foldl (λ c n, match is_unused n with Some why => count1 c why | None => c end)
                   ∅ (names m) in
  let dtype_counts := foldl (λ c n, match entry m n with
                                    | Some e => count1 c (StDtype.as_str (e_dtype e))
                                    | None => c
                                    end) ∅ (names m) in
  mkLoadInfo dir prefix cfg_source (length (shards m)) (length (names m)) (tensor_bytes m)
    dtype_counts (btree_entries skipped) tied derived.

Definition gdn_config (s : Sizes) (eps : f32) : GdnConfig :=
  mkGdnConfig (Z.to_nat (s_hidden s)) (Z.to_nat (s_num_k_heads_cfg s)) (Z.to_nat (s_num_v_heads s))
    (Z.to_nat (s_head_k_dim_cfg s)) (Z.to_nat (s_head_v_dim s)) (Z.to_nat (s_conv_kernel s)) eps.
Definition attn_config (s : Sizes) (rotary_dim : Z) (rope_theta eps : f32) : AttnConfig :=
  mkAttnConfig (Z.to_nat (s_hidden s)) (Z.to_nat (s_num_heads s)) (Z.to_nat (s_num_kv_heads s))
    (Z.to_nat (s_head_dim s)) (Z.to_nat rotary_dim) rope_theta eps.

(** [config]: the contents of [config.json], when there is one. *)
Definition load (dir : rstr) (config : option (list Z)) (files : list File) : outcome RealModel :=
  raw ← ok_or (Error NoConfig) config;
  root ← ok_or (Error BadConfig) (from_slice raw);
  let '(tc, cfg_source) := text_config root in
  let model_type :=
    default [] ((match get tc (lit "model_type") with
                 | Some v => Some v
                 | None => get root (lit "model_type")
                 end) ≫= as_str) in
  if starts_with (lit "qwen3_5") model_type then
    m ← match model_open files with Ok m => Ok m | Err e => fail (Checkpoint e) end;
    prefix ← detect_prefix m;
    '(layer_types, num_layers) ← read_layer_types tc;
    '(s, first_full) ← derive_sizes tc m prefix layer_types num_layers;
    problems ← cross_check m prefix first_full s;
    if decide (problems ≠ []) then fail (Disagreements problems) else
    '(rope_theta, rotary_dim) ← read_rope tc (s_head_dim s);
    eps ← ok_or (Error (NoSetting (lit "rms_norm_eps")))
            (to_f32 <$> (get tc (lit "rms_norm_eps") ≫= as_f64));
    lm_name ← head_name tc m prefix;
    let emb_name := prefix ++ EMBED in
    embed ← want m emb_name (wmul (s_vocab s) (s_hidden s));
    lm_head ← want m lm_name (wmul (s_vocab s) (s_hidden s));
    layers ← try_map (load_layer m prefix layer_types s) (seq 0 num_layers);
    final_norm ← want m (prefix ++ lit "norm.weight") (s_hidden s);
    Ok (mkRealModel
          (mkModelConfig (Z.to_nat (s_vocab s)) (Z.to_nat (s_hidden s)) eps (gdn_config s eps)
             (attn_config s rotary_dim rope_theta eps))
          (mkModelWeights embed final_norm lm_head layers)
          (load_info dir prefix cfg_source m (bool_decide (lm_name = emb_name))
             (derived s num_layers)))
  else fail (WrongModelType model_type).
End real.
