(* ===== verification/RealProps.v ===== *)
(** * A loaded checkpoint is well formed

    What the cross-checks establish, what each tensor read establishes, and so
    that a model [load] returns meets the invariant the forward pass needs. *)

From stdpp Require Import gmap.
From S2P Require Import Prelude Float Serde Rstr Utf8 PyJson JsonInstance Sample Tensor Linear Delta Gdn GdnProps.
From S2P Require Import Attention AttentionProps Layer LayerProps Model ModelProps.
From S2P Require Import Header Safetensors SafetensorsProps Real.
#[local] Open Scope Z_scope.

Abbreviation outcome := Real.outcome.

(** ** The cross-checks *)

Lemma check_nil what a b : check what a b = [] → a = b.
Proof. unfold check. case_decide as E; [done|]. intros _. lia. Qed.

Lemma urem_Ok a b r : urem a b = Ok r → b ≠ 0 ∧ r = a mod b.
Proof. unfold urem. case_decide; [done|]. by intros [= <-]. Qed.

(** The equations between the sizes of the tensors and the configuration, as
    the code computes them. *)
Record checked (s : Sizes) : Prop := {
  ck_v_heads : s_num_v_heads_cfg s = s_num_v_heads s;
  ck_v_dim : s_head_v_dim_cfg s = s_head_v_dim s;
  ck_key : wmul (s_num_k_heads_cfg s) (s_head_k_dim_cfg s) = s_key_dim s;
  ck_value : wmul (s_num_v_heads_cfg s) (s_head_v_dim_cfg s) = s_value_dim s;
  ck_conv : wadd (wmul 2 (s_key_dim s)) (s_value_dim s) = s_conv_dim s;
  ck_q : wmul (wmul (s_num_heads s) (s_head_dim s)) 2 = s_q_out s;
  ck_kv : wmul (s_num_kv_heads s) (s_head_dim s) = s_kv_out s;
  ck_kv_groups : s_num_kv_heads s ≠ 0 ∧ s_num_heads s mod s_num_kv_heads s = 0;
  ck_k_groups : s_num_k_heads_cfg s ≠ 0 ∧ s_num_v_heads s mod s_num_k_heads_cfg s = 0;
}.

Lemma cross_check_nil m prefix first_full s : cross_check m prefix first_full s = Ok [] → checked s.
Proof.
  unfold cross_check. intros Hr. inv_ok.
  repeat match goal with
  | Hc : [] = _ ++ _ |- _ => symmetry in Hc
  | Hc : _ ++ _ = [] |- _ => apply app_eq_nil in Hc as [? ?]
  | Hc : check _ _ _ = [] |- _ => apply check_nil in Hc
  | Hc : urem _ _ = Ok _ |- _ => apply urem_Ok in Hc as [? ->]
  | Hc : (if decide _ then [_] else []) = [] |- _ =>
      case_decide; [done|]; clear Hc
  | Hc : ¬ (_ ≠ _) |- _ => apply dec_stable in Hc
  end.
  by split.
Qed.

(** ** Tensors *)

Lemma want_len m name n v : want m name n = Ok v → len v = n.
Proof.
  unfold want. destruct (tensor m name) as [u|[]]; try done.
  case_decide; [done|]. intros [= <-]. lia.
Qed.

Lemma wmul_small x y : 0 ≤ x * y < 2 ^ 64 → wmul x y = x * y.
Proof. intros. apply wrap64_small. unfold u64, u64_max. lia. Qed.

(** ** Sizes that do not overflow *)

(** Every size is positive and below [2^20]; the intermediate size may be zero. *)
Record small (s : Sizes) : Prop := {
  sm_vocab : 1 ≤ s_vocab s < 2 ^ 20;
  sm_hidden : 1 ≤ s_hidden s < 2 ^ 20;
  sm_intermediate : 0 ≤ s_intermediate s < 2 ^ 20;
  sm_nk : 1 ≤ s_num_k_heads_cfg s < 2 ^ 20;
  sm_nv : 1 ≤ s_num_v_heads s < 2 ^ 20;
  sm_hk : 1 ≤ s_head_k_dim_cfg s < 2 ^ 20;
  sm_hv : 1 ≤ s_head_v_dim s < 2 ^ 20;
  sm_kernel : 1 ≤ s_conv_kernel s < 2 ^ 20;
  sm_heads : 1 ≤ s_num_heads s < 2 ^ 20;
  sm_kv_heads : 1 ≤ s_num_kv_heads s < 2 ^ 20;
  sm_head_dim : 1 ≤ s_head_dim s < 2 ^ 20;
}.

Lemma mul_bound x y a b : 0 ≤ x < a → 0 ≤ y < b → 0 ≤ x * y < a * b.
Proof. nia. Qed.

Lemma mul_fits x y : 0 ≤ x → 0 ≤ y → (x < 2 ^ 42 ∧ y < 2 ^ 20 ∨ x < 2 ^ 20 ∧ y < 2 ^ 42) →
  0 ≤ x * y < 2 ^ 64.
Proof. nia. Qed.

(** [len v] is a product that did not wrap, [n] in the units of the model. *)
Lemma length_wmul {A} (v : list A) x y n :
  len v = wmul x y → 0 ≤ x * y < 2 ^ 64 → x * y = Z.of_nat n → length v = n.
Proof. intros Hl Hb Hn. rewrite wmul_small in Hl by done. unfold len in Hl. lia. Qed.

Section sizes.
Context (s : Sizes) (Hc : checked s) (Hs : small s).

Lemma exact_sizes :
  s_key_dim s = s_num_k_heads_cfg s * s_head_k_dim_cfg s ∧
  s_value_dim s = s_num_v_heads s * s_head_v_dim s ∧
  s_conv_dim s = 2 * s_key_dim s + s_value_dim s ∧
  s_q_out s = s_num_heads s * s_head_dim s * 2 ∧
  s_kv_out s = s_num_kv_heads s * s_head_dim s ∧
  0 ≤ s_key_dim s < 2 ^ 40 ∧ 0 ≤ s_value_dim s < 2 ^ 40 ∧
  0 ≤ s_num_heads s * s_head_dim s < 2 ^ 40 ∧ 0 ≤ s_num_kv_heads s * s_head_dim s < 2 ^ 40.
Proof.
  destruct Hc as [C1 C2 C3 C4 C5 C6 C7 _ _], Hs as [_ _ _ S1 S2 S3 S4 _ S5 S6 S7].
  rewrite C1, C2 in C4.
  pose proof (mul_bound (s_num_k_heads_cfg s) (s_head_k_dim_cfg s) (2 ^ 20) (2 ^ 20)) as B1.
  pose proof (mul_bound (s_num_v_heads s) (s_head_v_dim s) (2 ^ 20) (2 ^ 20)) as B2.
  pose proof (mul_bound (s_num_heads s) (s_head_dim s) (2 ^ 20) (2 ^ 20)) as B3.
  pose proof (mul_bound (s_num_kv_heads s) (s_head_dim s) (2 ^ 20) (2 ^ 20)) as B4.
  rewrite wmul_small in C3, C4, C7 by lia.
  rewrite (wmul_small (s_num_heads s)), wmul_small in C6 by lia.
  rewrite wmul_small in C5 by lia. unfold wadd in C5.
  rewrite wrap64_small in C5 by (unfold u64, u64_max; lia). lia.
Qed.
End sizes.

(** The wrapping product of a tensor's axes is the model's size. *)
Ltac sized Hl :=
  refine (length_wmul _ _ _ _ Hl _ _);
    [apply mul_fits; lia
    |rewrite ?Nat2Z.inj_mul, ?Nat2Z.inj_add, ?Nat2Z.inj_mul, ?Z2Nat.id by lia; nia].

(** The tensors of a layer, by their lengths. *)
Lemma layer_weights_wf n1 n2 g u d h i : 1 ≤ h < 2 ^ 20 → 0 ≤ i < 2 ^ 20 →
  len n1 = h → len n2 = h → len g = wmul i h → len u = wmul i h → len d = wmul h i →
  layer_wf (mkLayerWeights n1 n2 (mkMlpWeights g u d)) (Z.to_nat h).
Proof.
  intros Hh Hi H1 H2 Hg Hu Hd.
  assert (length n1 = Z.to_nat h) as L1 by (unfold len in H1; lia).
  assert (length g = Z.to_nat i * Z.to_nat h)%nat as L2 by sized Hg.
  assert (inter (mkLayerWeights n1 n2 (mkMlpWeights g u d)) = Z.to_nat i) as E.
  { unfold inter. cbn. rewrite L2, L1. apply Nat.div_mul. lia. }
  split; rewrite ?E; cbn; try done; try lia.
  - unfold len in H2. lia.
  - sized Hu.
  - sized Hd.
Qed.

Section layers.
Context (m : StModel) (s : Sizes) (Hc : checked s) (Hs : small s).

Lemma load_common_wf p lw : load_common m p s = Ok lw → layer_wf lw (Z.to_nat (s_hidden s)).
Proof.
  unfold load_common. intros Hr. inv_ok.
  repeat match goal with H : want _ _ _ = Ok _ |- _ => apply want_len in H end.
  destruct Hs. by apply (layer_weights_wf _ _ _ _ _ (s_hidden s) (s_intermediate s)).
Qed.

(** A positive multiple of a positive number. *)
Lemma multiple a b : 1 ≤ a → 1 ≤ b → a mod b = 0 →
  (0 < Z.to_nat a / Z.to_nat b)%nat ∧ (Z.to_nat a = Z.to_nat b * (Z.to_nat a / Z.to_nat b))%nat.
Proof.
  intros Ha Hb Hm. rewrite <- Z2Nat.inj_div by lia.
  pose proof (Z.div_mod a b ltac:(lia)) as Hd. rewrite Hm in Hd.
  assert (0 < a / b) by nia. split; [lia|]. rewrite <- Z2Nat.inj_mul by lia. f_equal. lia.
Qed.

Lemma load_gdn_wf p gw eps : load_gdn m p s = Ok gw → gdn_wf (gdn_config s eps) gw.
Proof.
  unfold load_gdn. intros Hr. inv_ok.
  repeat match goal with H : want _ _ _ = Ok _ |- _ => apply want_len in H end.
  destruct (exact_sizes s Hc Hs) as (E1 & E2 & E3 & _ & _ & B1 & B2 & _ & _).
  destruct Hs, Hc as [_ _ _ _ _ _ _ _ [_ Hk]].
  destruct (multiple (s_num_v_heads s) (s_num_k_heads_cfg s)) as [M1 M2]; [lia..|].
  split; unfold GdnConfig.conv_dim, GdnConfig.key_dim, GdnConfig.value_dim; cbn; try done; try lia.
  - sized Ha.
  - sized Ha0.
  - sized Ha1.
  - sized Ha2.
  - sized Ha3.
  - unfold len in Ha4. lia.
  - unfold len in Ha5. lia.
  - unfold len in Ha6. lia.
  - sized Ha7.
Qed.

Lemma load_attn_wf p aw rotary theta eps : load_attn m p s = Ok aw →
  0 ≤ rotary ≤ s_head_dim s → attn_wf (attn_config s rotary theta eps) aw.
Proof.
  unfold load_attn. intros Hr Hrot. inv_ok.
  repeat match goal with H : want _ _ _ = Ok _ |- _ => apply want_len in H end.
  destruct (exact_sizes s Hc Hs) as (_ & _ & _ & E4 & E5 & _ & _ & B3 & B4).
  destruct Hs, Hc as [_ _ _ _ _ _ _ [_ Hk] _].
  destruct (multiple (s_num_heads s) (s_num_kv_heads s)) as [M1 M2]; [lia..|].
  pose proof (mul_bound (s_hidden s) (s_num_heads s) (2 ^ 20) (2 ^ 20)) as B5.
  rewrite (wmul_small (s_hidden s)) in Ha2 by lia.
  split; cbn; try done; try lia.
  - sized Ha.
  - sized Ha0.
  - sized Ha1.
  - sized Ha2.
  - unfold len in Ha3. lia.
  - unfold len in Ha4. lia.
Qed.
End layers.

Lemma f32_to_usize_nonneg x : 0 ≤ f32_to_usize x.
Proof.
  destruct x as [| [] | |[] p e]; cbn; try done; unfold u64_max; apply Z.min_glb; [|lia].
  case_match; [rewrite Z.shiftl_nonneg|rewrite Z.shiftr_nonneg]; lia.
Qed.

Section load.
Context `{SerdeJson J}.

Lemma read_rope_Ok (tc : J) head_dim theta rotary : read_rope tc head_dim = Ok (theta, rotary) →
  0 < rotary ≤ head_dim ∧ rotary mod 2 = 0.
Proof.
  unfold read_rope. case_decide as Hd; [done|]. intros [= _ <-].
  set (r := f32_to_usize _) in *. pose proof (f32_to_usize_nonneg _ : 0 ≤ r). lia.
Qed.

(** The sizes of a configuration. *)
Definition config_sizes (c : ModelConfig) : list nat :=
  [vocab c; hidden c; num_k_heads (mc_gdn c); num_v_heads (mc_gdn c); head_k_dim (mc_gdn c);
   head_v_dim (mc_gdn c); conv_kernel (mc_gdn c); num_heads (mc_attn c); num_kv_heads (mc_attn c);
   head_dim (mc_attn c)].

(** Every size is positive and below [2^20]. *)
Definition sizes_small (rm : RealModel) : Prop :=
  Forall (λ n, 1 ≤ Z.of_nat n < 2 ^ 20) (config_sizes (rm_config rm)) ∧
  ∀ i, li_derived (rm_info rm) !! lit "intermediate" = Some i → 0 ≤ i < 2 ^ 20.

(** The stages of a load that succeeded. *)
Lemma load_Ok dir config files rm : load (J:=J) dir config files = Ok rm →
  ∃ root tc m prefix layer_types num_layers s first_full rotary theta eps embed lm final lws src tied,
    from_slice (default [] config) = Some root ∧ model_open files = Ok m ∧
    derive_sizes tc m prefix layer_types num_layers = Ok (s, first_full) ∧ checked s ∧
    0 < rotary ≤ s_head_dim s ∧
    want m (prefix ++ EMBED) (wmul (s_vocab s) (s_hidden s)) = Ok embed ∧
    len lm = wmul (s_vocab s) (s_hidden s) ∧
    want m (prefix ++ lit "norm.weight") (s_hidden s) = Ok final ∧
    Forall2 (λ i lw, load_layer m prefix layer_types s i = Ok lw) (seq 0 num_layers) lws ∧
    rm = mkRealModel
          (mkModelConfig (Z.to_nat (s_vocab s)) (Z.to_nat (s_hidden s)) eps (gdn_config s eps)
             (attn_config s rotary theta eps))
          (mkModelWeights embed final lm lws)
          (load_info dir prefix src m tied (derived s num_layers)).
Proof.
  unfold load. intros Hr.
  repeat (inv_ok; match goal with
  | H : (let '(_, _) := ?x in _) = Ok _ |- _ => destruct x eqn:?
  | H : match ?x with Ok m => Ok m | Err e => _ end = Ok _ |- _ => destruct x eqn:?; try done
  end); inv_ok.
  apply dec_stable in Hd as ->. apply cross_check_nil in Ha5. apply read_rope_Ok in Ha6 as [? _].
  apply try_map_Ok in Ha11. apply want_len in Ha10.
  do 17 eexists. do 9 (split; [done|]). done.
Qed.

Lemma small_of_config s theta rotary eps emb fin lm lws info :
  (∃ n, li_derived info = derived s n) →
  sizes_small (mkRealModel
    (mkModelConfig (Z.to_nat (s_vocab s)) (Z.to_nat (s_hidden s)) eps (gdn_config s eps)
       (attn_config s rotary theta eps)) (mkModelWeights emb fin lm lws) info) → small s.
Proof.
  intros Hd [Hsz Hint]. unfold config_sizes in Hsz. cbn in Hsz.
  repeat match goal with
  | H : Forall _ (_ :: _) |- _ => apply Forall_cons in H as [? H]
  end.
  split; try lia. apply (Hint (s_intermediate s)). cbn [rm_info]. by destruct Hd as [n ->].
Qed.

Lemma load_layer_wf m prefix types s i lw eps rotary theta emb : checked s → small s →
  0 < rotary ≤ s_head_dim s → load_layer m prefix types s i = Ok lw →
  layer_wf (lw_layer lw) (Z.to_nat (s_hidden s)) ∧
  mixer_wf (mkModelConfig emb (Z.to_nat (s_hidden s)) eps (gdn_config s eps)
              (attn_config s rotary theta eps)) lw.
Proof.
  unfold load_layer, mixer_wf. intros Hc Hs Hrot Hr. inv_ok.
  all: match goal with H : load_common _ _ _ = Ok _ |- _ => apply load_common_wf in H; [|done..] end.
  all: cbn; split; [done|].
  - eexists. split; [done|]. by eapply load_gdn_wf.
  - eexists. split; [done|]. eapply load_attn_wf; [done..|lia].
Qed.

(** C13. A checkpoint that loads, with every size positive and below [2^20]
    ([sizes_small]: the products the loader compares then fit the machine word;
    the shipped models are well below), gives a model whose every weight has the
    size its configuration implies: the sizes of the tensors and of the
    configuration agree, and the forward pass indexes nothing out of range. *)
Theorem load_wf dir config files rm : load (J:=J) dir config files = Ok rm → sizes_small rm →
  model_wf (rm_config rm) (rm_weights rm).
Proof.
  intros (root & tc & m & prefix & types & n & s & ff & rotary & theta & eps & emb & lm & fin & lws
    & src & tied & _ & _ & _ & Hc & Hrot & Hemb & Hlm & Hfin & Hl & ->)%load_Ok Hsz.
  assert (small s) as Hs by (eapply small_of_config, Hsz; by eexists).
  apply want_len in Hemb, Hfin. pose proof (sm_vocab _ Hs). pose proof (sm_hidden _ Hs).
  split; cbn; try done.
  - sized Hemb.
  - unfold len in Hfin. lia.
  - sized Hlm.
  - lia.
  - apply Forall_forall. intros lw Hin. apply list_elem_of_lookup in Hin as [i Hi].
    eapply Forall2_lookup_r in Hi as (j & _ & Hj); [|exact Hl]. eapply load_layer_wf; [done|done|lia|exact Hj].
Qed.
End load.

(** ** A concrete checkpoint *)

(** The tensors of a two-layer model: vocabulary 3, hidden 2, intermediate 3. *)
Definition ck_tensors : list (string * list Z) :=
  [("model.embed_tokens.weight", [3; 2]); ("model.norm.weight", [2]);
   ("model.layers.0.input_layernorm.weight", [2]);
   ("model.layers.0.post_attention_layernorm.weight", [2]);
   ("model.layers.0.mlp.gate_proj.weight", [3; 2]); ("model.layers.0.mlp.up_proj.weight", [3; 2]);
   ("model.layers.0.mlp.down_proj.weight", [2; 3]);
   ("model.layers.0.linear_attn.in_proj_qkv.weight", [6; 2]);
   ("model.layers.0.linear_attn.in_proj_z.weight", [2; 2]);
   ("model.layers.0.linear_attn.in_proj_b.weight", [2; 2]);
   ("model.layers.0.linear_attn.in_proj_a.weight", [2; 2]);
   ("model.layers.0.linear_attn.conv1d.weight", [6; 1; 2]);
   ("model.layers.0.linear_attn.A_log", [2]); ("model.layers.0.linear_attn.dt_bias", [2]);
   ("model.layers.0.linear_attn.norm.weight", [1]);
   ("model.layers.0.linear_attn.out_proj.weight", [2; 2]);
   ("model.layers.1.input_layernorm.weight", [2]);
   ("model.layers.1.post_attention_layernorm.weight", [2]);
   ("model.layers.1.mlp.gate_proj.weight", [3; 2]); ("model.layers.1.mlp.up_proj.weight", [3; 2]);
   ("model.layers.1.mlp.down_proj.weight", [2; 3]);
   ("model.layers.1.self_attn.q_proj.weight", [8; 2]);
   ("model.layers.1.self_attn.k_proj.weight", [2; 2]);
   ("model.layers.1.self_attn.v_proj.weight", [2; 2]);
   ("model.layers.1.self_attn.o_proj.weight", [2; 4]);
   ("model.layers.1.self_attn.q_norm.weight", [2]); ("model.layers.1.self_attn.k_norm.weight", [2]);
   ("mtp.head", [1])]%string.

(** The header's entries, one after the other in the data, and its length. *)
Fixpoint ck_header (ts : list (string * list Z)) (at_ : Z) : list (rstr * Value) * Z :=
  match ts with
  | [] => ([], at_)
  | (name, shape) :: ts =>
      let n := 2 * foldr Z.mul 1 shape in
      let '(es, fin) := ck_header ts (at_ + n) in
      ((lit name, Object [(lit "dtype", Str (lit "BF16")); (lit "shape", Array (Int <$> shape));
                          (lit "data_offsets", Array [Int at_; Int (at_ + n)])]) :: es, fin)
  end.

Definition ck_file : File :=
  let '(es, n) := ck_header ck_tensors 0 in
  let hdr := utf8 (dumps (Object es)) in
  (* every value is 0.0078125 *)
  let data := concat (replicate (Z.to_nat (n / 2)) [0; 60]) in
  let f := to_le_bytes 8 (len hdr) ++ hdr ++ data in
  mkFile (lit "model.safetensors") f f.

Definition ck_config (kv_heads : Z) : list Z :=
  utf8 (dumps (Object
    [(lit "model_type", Str (lit "qwen3_5_text"));
     (lit "layer_types", Array [Str (lit "linear_attention"); Str (lit "full_attention")]);
     (lit "num_hidden_layers", Int 2); (lit "head_dim", Int 2); (lit "num_attention_heads", Int 2);
     (lit "num_key_value_heads", Int kv_heads); (lit "linear_num_key_heads", Int 1);
     (lit "linear_num_value_heads", Int 2); (lit "linear_key_head_dim", Int 2);
     (lit "linear_value_head_dim", Int 1); (lit "rms_norm_eps", Int 1)])).

Abbreviation ck_load kv_heads :=
  (load (J:=Value) (lit "dir") (Some (ck_config kv_heads)) [ck_file]).
Definition ck_small (rm : RealModel) : bool :=
  forallb (λ n, (1 <=? Z.of_nat n) && (Z.of_nat n <? 2 ^ 20)) (config_sizes (rm_config rm))
  && match li_derived (rm_info rm) !! lit "intermediate" with
     | Some i => (0 <=? i) && (i <? 2 ^ 20)
     | None => true
     end.

Lemma ck_small_spec rm : ck_small rm = true → sizes_small rm.
Proof.
  unfold ck_small. intros [Hc Hi]%andb_true_iff. split.
  - apply Forall_forall. intros n Hn%list_elem_of_In. rewrite forallb_forall in Hc.
    specialize (Hc n Hn). cbn beta in Hc. lia.
  - intros i E. rewrite E in Hi. lia.
Qed.

(** What the load reports, and the sizes it settles on. *)
Example ck_report :
  match ck_load 1 with
  | Ok rm => Some (config_sizes (rm_config rm), li_prefix (rm_info rm), li_skipped (rm_info rm),
                   li_tensor_bytes (rm_info rm), li_tied_embeddings (rm_info rm))
  | Err _ => None
  end = Some ([3; 2; 1; 2; 2; 1; 2; 2; 1; 2]%nat, lit "model.",
              [(lit "multi-token-prediction head", 1%nat)], 268, true).
Proof. vm_compute. reflexivity. Qed.

(** A configuration that disagrees with the tensors. *)
Example ck_disagrees : ck_load 2 = Err (Error (Disagreements
  [Disagree (lit "k_proj out = num_kv_heads * head_dim") 4 2])).
Proof. by vm_compute. Qed.

(** No key-value heads: the load panics on the remainder. *)
Example ck_zero_heads : ck_load 0 = Err Panic.
Proof. by vm_compute. Qed.

Lemma ck_loads : ∃ rm, ck_load 1 = Ok rm ∧ ck_small rm = true.
Proof.
  assert (match ck_load 1 with Ok rm => ck_small rm | Err _ => false end = true) as Hb by (by vm_compute).
  revert Hb. generalize (ck_load 1). intros [rm|]; [|done]. by exists rm.
Qed.

Lemma load_wf_witness : ∃ rm, ck_load 1 = Ok rm ∧ model_wf (rm_config rm) (rm_weights rm).
Proof.
  destruct ck_loads as (rm & Hl & Hs). exists rm. split; [exact Hl|].
  exact (load_wf (lit "dir") (Some (ck_config 1)) [ck_file] rm Hl (ck_small_spec rm Hs)).
Defined.
