(* ===== verification/Bundle.v ===== *)
(** * Golden bundles

    Models qwen35-forward/bundle/src/lib.rs: opening a bundle, reading and
    writing its tensors, and comparing a candidate with it.  The file system is
    a map from paths to contents; serde's derived reader of the manifest is a
    parameter, as is the JSON type of its [config]. *)

From stdpp Require Import gmap.
From S2P Require Import Prelude Float Rstr Tensor Header Safetensors.
#[local] Open Scope Z_scope.

(** ** Bits of a float *)

(** [f32::to_bits], inverse of [from_bits]; NaN is the quiet one. *)
Definition to_bits (x : f32) : Z :=
  match x with
  | S754_zero s => Z.shiftl (Z.b2z s) 31
  | S754_infinity s => Z.lor (Z.shiftl (Z.b2z s) 31) (Z.shiftl 0xff 23)
  | S754_nan => 0x7fc00000
  | S754_finite s m e =>
      if Zpos m <? 2 ^ 23 then Z.lor (Z.shiftl (Z.b2z s) 31) (Zpos m)
      else Z.lor (Z.lor (Z.shiftl (Z.b2z s) 31) (Z.shiftl (e + 150) 23)) (Zpos m - 2 ^ 23)
  end.

Definition f32_to_le_bytes (x : f32) : list Z := to_le_bytes 4 (to_bits x).

(** ** The manifest *)

Record TensorEntry := mkTensorEntry {
  te_group : rstr;
  te_name : rstr;
  te_file : rstr;
  te_shape : list Z;
  te_dtype : rstr;
  te_numel : Z;
  te_nbytes : Z;
}.

Record GreedyStep := mkGreedyStep {
  gs_step : Z;
  gs_input_len : Z;
  gs_argmax_token : Z;
  gs_topk_tokens : list Z;
  gs_topk_logits : list f32;
  gs_logit_sum : f32;
  gs_logit_max : f32;
}.

Record Greedy := mkGreedy { steps : list GreedyStep; final_ids : list Z }.

Record Source := mkSource {
  src_model : rstr;
  src_transformers : option rstr;
  src_torch : option rstr;
  src_seed : Z;
  src_params : Z;
  src_ssm_gain : f64;
}.

Definition one : f64 := F64.of_Z 1.

(** A file system: its files, by path. *)
Abbreviation FS := (gmap rstr (list Z)).

(** [Path::join]: an absolute path replaces the root. *)
Definition join (root rel : rstr) : rstr :=
  match rel with
  | 47 :: _ => rel
  | _ => match last root with
         | None => rel
         | Some 47 => root ++ rel
         | _ => root ++ 47 :: rel
         end
  end.

Inductive bundle_error :=
| IoNotFound (path : rstr)
| BadManifest
| BadSchema (schema : rstr)
| BadByteOrder (order : rstr)
| BadDtype (dtype : rstr)
| DuplicateTensor (name : rstr)
| NoSuchTensor (name : rstr)
| WrongSize (path : rstr) (on_disk manifest : Z).

Abbreviation outcome := (result bundle_error).

Section bundle.
Context {J : Type}.

Record Manifest := mkManifest {
  schema : rstr;
  byte_order : rstr;
  mf_dtype : rstr;
  source : Source;
  config : J;
  prompt_ids : list Z;
  tensors : list TensorEntry;
  greedy : Greedy;
}.

Record Bundle := mkBundle {
  b_root : rstr;
  b_manifest : Manifest;
  b_index : gmap rstr TensorEntry;
}.

(** The loop that fills the index. *)
Fixpoint index_tensors (ts : list TensorEntry) (idx : gmap rstr TensorEntry) :
    outcome (gmap rstr TensorEntry) :=
  match ts with
  | [] => Ok idx
  | t :: ts =>
      match idx !! te_name t with
      | Some _ => Err (DuplicateTensor (te_name t))
      | None => index_tensors ts (<[te_name t := t]> idx)
      end
  end.

Definition read_file (fs : FS) (path : rstr) : outcome (list Z) :=
  ok_or (IoNotFound path) (fs !! path).

Definition open (parse_manifest : list Z → option Manifest) (fs : FS) (root : rstr) :
    outcome Bundle :=
  raw ← read_file fs (join root (lit "manifest.json"));
  m ← ok_or BadManifest (parse_manifest raw);
  if decide (schema m ≠ lit "qwen35-golden-v1") then Err (BadSchema (schema m)) else
  if decide (byte_order m ≠ lit "little") then Err (BadByteOrder (byte_order m)) else
  if decide (mf_dtype m ≠ lit "f32") then Err (BadDtype (mf_dtype m)) else
  idx ← index_tensors (tensors m) ∅;
  Ok (mkBundle root m idx).

Definition bundle_entry (b : Bundle) (name : rstr) : option TensorEntry := b_index b !! name.
Definition bundle_names (b : Bundle) : list rstr := (btree_entries (b_index b)).*1.

(** [raw.as_chunks::<4>().0]: the whole chunks. *)
Definition chunks4 (raw : list Z) : list (list Z) :=
  (λ i, slice raw (Z.of_nat i * 4) (Z.of_nat i * 4 + 4)) <$> seq 0 (length raw / 4).

(** A release build: the [debug_assert] on the element count is not there. *)
Definition read_entry (fs : FS) (b : Bundle) (e : TensorEntry) : outcome vec :=
  let path := join (b_root b) (te_file e) in
  raw ← read_file fs path;
  if decide (len raw ≠ te_nbytes e) then Err (WrongSize path (len raw) (te_nbytes e)) else
  Ok ((λ c, from_bits (from_le_bytes c)) <$> chunks4 raw).

Definition read (fs : FS) (b : Bundle) (name : rstr) : outcome vec :=
  e ← ok_or (NoSuchTensor name) (b_index b !! name);
  read_entry fs b e.

Definition write (fs : FS) (b : Bundle) (group name : rstr) (data : vec) : FS :=
  let rel := group ++ lit "/" ++ name ++ lit ".f32" in
  <[join (b_root b) rel := concat (f32_to_le_bytes <$> data)]> fs.

(** ** Comparing *)

Record TensorDiff := mkTensorDiff {
  d_name : rstr;
  d_shape : list Z;
  max_abs : f32;
  max_abs_index : nat;
  golden_at_max : f32;
  candidate_at_max : f32;
  golden_scale : f32;
  max_rel : f32;
}.

(** The loop over the pairs: the first that is not finite, or the largest
    difference, its index and the golden scale. *)
Fixpoint diff_loop (i : nat) (pairs : list (f32 * f32)) (worst : f32) (worst_i : nat)
    (scale : f32) : (nat * f32 * f32) + (f32 * nat * f32) :=
  match pairs with
  | [] => inr (worst, worst_i, scale)
  | (g, c) :: pairs =>
      if negb (is_finite g) || negb (is_finite c) then inl (i, g, c) else
      let d := SFabs (F32.sub g c) in
      let '(worst, worst_i) := if SFltb worst d then (d, i) else (worst, worst_i) in
      diff_loop (S i) pairs worst worst_i (fmax scale (SFabs g))
  end.

Definition diff (name : rstr) (shape : list Z) (golden cand : vec) : option TensorDiff :=
  if decide (length golden ≠ length cand) then
    Some (mkTensorDiff name shape pos_infinity 0 S754_nan S754_nan fzero pos_infinity)
  else
    match diff_loop 0 (combine golden cand) fzero 0 fzero with
    | inl (i, g, c) => Some (mkTensorDiff name shape pos_infinity i g c fzero pos_infinity)
    | inr (worst, worst_i, scale) =>
        if SFeqb worst fzero then None else
        Some (mkTensorDiff name shape worst worst_i
                (default S754_nan (golden !! worst_i)) (default S754_nan (cand !! worst_i)) scale
                (if SFltb fzero scale then F32.div worst scale else pos_infinity))
    end.

(** [{:02}] *)
Definition show_pad2 (n : Z) : rstr := if n <? 10 then 48 :: show_nat n else show_nat n.

(** The scan of the logits: [None] is an index out of range. *)
Definition best_of (logits : vec) : option nat :=
  for_ (length logits) (λ j best,
    v ← logits !! j; m ← logits !! best; Some (if SFltb m v then j else best)) 0%nat.

Definition check_step (fs : FS) (b : Bundle) (i : nat) (s : GreedyStep) : list (nat * Z * Z) :=
  match read fs b (lit "greedy_step" ++ show_pad2 (gs_step s) ++ lit "__logits") with
  | Err _ | Ok [] => []
  | Ok logits =>
      let best := wrap32 (Z.of_nat (default 0%nat (best_of logits))) in
      if decide (best ≠ gs_argmax_token s) then [(i, gs_argmax_token s, best)] else []
  end.

Definition check_token_selfconsistency (fs : FS) (b : Bundle) : list (nat * Z * Z) :=
  concat (imap (check_step fs b) (steps (greedy (b_manifest b)))).

Record TokenDiff := mkTokenDiff {
  first_divergence : option nat;
  golden_ids : list Z;
  candidate_ids : list Z;
  max_logit_delta : f32;
}.

Definition diff_tokens (golden cand : Manifest) : TokenDiff :=
  let g := final_ids (greedy golden) in
  let c := final_ids (greedy cand) in
  let n := Nat.min (length g) (length c) in
  let first := fst <$> list_find (λ i, g !! i ≠ c !! i) (seq 0 n) in
  let first :=
    match first with
    | Some i => Some i
    | None => if decide (length g ≠ length c) then Some n else None
    end in
  let max_logit :=
    foldl (λ m '(gs, cs),
      foldl (λ m '(a, b), fmax m (SFabs (F32.sub a b))) m
        (combine (gs_topk_logits gs) (gs_topk_logits cs)))
      fzero (combine (steps (greedy golden)) (steps (greedy cand))) in
  mkTokenDiff first g c max_logit.
End bundle.
