(* ===== verification/BundleProps.v ===== *)
(** * What reading, writing and comparing bundles guarantees *)

From stdpp Require Import gmap.
From S2P Require Import Prelude Float FloatProps Rstr Tensor Header Safetensors SafetensorsProps Bundle.
#[local] Open Scope Z_scope.

(** ** Bits *)

(** A finite [f32] is subnormal, or has a full significand. *)
Lemma valid_f32_finite s m e : valid_binary F32.prec F32.emax (S754_finite s m e) = true →
  Zpos m < 2 ^ 23 ∧ e = -149 ∨ 2 ^ 23 ≤ Zpos m < 2 ^ 24 ∧ -149 ≤ e ≤ 104.
Proof.
  cbn. unfold bounded, canonical_mantissa, SpecFloat.fexp, SpecFloat.emin, F32.prec, F32.emax.
  intros [Hc He]%andb_true_iff. apply Z.eqb_eq in Hc. apply Z.leb_le in He.
  pose proof (digits2_bounds m) as [Hlo Hhi].
  set (d := Zpos (digits2_pos m)) in *.
  destruct (Z.lt_ge_cases d 24) as [Hd|Hd].
  - left. pose proof (Z.pow_le_mono_r 2 d 23). lia.
  - right. assert (d = 24) as Hd24 by lia. rewrite Hd24 in *. lia.
Qed.

Lemma to_bits_range x : valid_binary F32.prec F32.emax x = true → 0 ≤ to_bits x < 2 ^ 32.
Proof.
  destruct x as [s|s| |s m e]; [by destruct s..|done|]. intros Hv%valid_f32_finite.
  unfold to_bits. rewrite !Z.shiftl_mul_pow2 by lia. case_match eqn:E.
  - apply Z.ltb_lt in E. rewrite lor_add by lia. destruct s; cbn [Z.b2z]; lia.
  - apply Z.ltb_ge in E. rewrite (lor_add (Z.b2z s)) by lia.
    replace (Z.b2z s * 2 ^ 31 + (e + 150) * 2 ^ 23) with ((Z.b2z s * 2 ^ 8 + (e + 150)) * 2 ^ 23) by lia.
    rewrite lor_add by lia. destruct s; cbn [Z.b2z]; lia.
Qed.

Lemma from_to_bits x : valid_binary F32.prec F32.emax x = true → from_bits (to_bits x) = x.
Proof.
  destruct x as [s|s| |s m e]; [by destruct s..|done|]. intros Hv%valid_f32_finite.
  unfold to_bits. case_match eqn:E.
  - apply Z.ltb_lt in E. destruct Hv as [[_ ->]|]; [|lia].
    replace (Z.lor (Z.shiftl (Z.b2z s) 31) (Zpos m))
      with (Z.lor (Z.lor (Z.shiftl (Z.b2z s) 31) (Z.shiftl 0 23)) (Zpos m)) by (by rewrite Z.lor_0_r).
    by rewrite from_bits_fields by lia.
  - apply Z.ltb_ge in E. rewrite from_bits_fields by lia.
    rewrite (proj2 (Z.eqb_neq (e + 150) 255)), (proj2 (Z.eqb_neq (e + 150) 0)) by lia.
    f_equal; lia.
Qed.

(** ** Reading back what was written *)

Lemma chunks4_concat (bs : list (list Z)) : Forall (λ b, length b = 4%nat) bs →
  chunks4 (concat bs) = bs.
Proof.
  intros Hb. assert (length (concat bs) = length bs * 4)%nat as Hl.
  { induction Hb as [|b bs Hb _ IH]; [done|]. cbn. rewrite length_app, IH, Hb. lia. }
  unfold chunks4. rewrite Hl, Nat.div_mul by lia.
  clear Hl. induction Hb as [|b bs Hb _ IH]; [done|].
  cbn [length seq fmap list_fmap concat]. f_equal.
  - unfold slice. change (Z.of_nat 0 * 4) with 0. rewrite drop_0. by rewrite take_app_length' by (by rewrite Hb).
  - rewrite <- fmap_S_seq, <- list_fmap_compose. rewrite <- IH at 2.
    apply list_fmap_ext. intros i j _. cbn. unfold slice.
    replace (Z.to_nat (Z.of_nat (S j) * 4)) with (length b + Z.to_nat (Z.of_nat j * 4))%nat by lia.
    rewrite drop_app_add by done. do 2 f_equal; lia.
Qed.

Lemma write_bytes (data : vec) :
  Forall (λ x, valid_binary F32.prec F32.emax x = true) data →
  (λ c, from_bits (from_le_bytes c)) <$> chunks4 (concat (f32_to_le_bytes <$> data)) = data.
Proof.
  intros Hv. rewrite chunks4_concat.
  - rewrite <- list_fmap_compose. rewrite <- (list_fmap_id data) at 2. apply list_fmap_ext.
    intros i x Hx. unfold compose, f32_to_le_bytes.
    rewrite Forall_lookup in Hv. specialize (Hv _ _ Hx).
    rewrite from_to_le_bytes by (by apply to_bits_range). by apply from_to_bits.
  - apply Forall_fmap, Forall_true. intros x. apply length_to_le_bytes.
Qed.

Lemma len_le_bytes (data : vec) : len (concat (f32_to_le_bytes <$> data)) = 4 * len data.
Proof.
  unfold len. induction data as [|x l IH]; [done|].
  cbn [fmap list_fmap concat]. rewrite length_app. unfold f32_to_le_bytes at 1.
  rewrite length_to_le_bytes. cbn [length]. lia.
Qed.

(** A tensor written to a bundle reads back bit for bit, through any entry
    that names its file and its size; the other files are untouched. *)
Theorem read_entry_write {J : Type} (fs : FS) (b : Bundle (J:=J)) group name data e :
  Forall (λ x, valid_binary F32.prec F32.emax x = true) data →
  te_file e = group ++ lit "/" ++ name ++ lit ".f32" → te_nbytes e = 4 * len data →
  read_entry (write fs b group name data) b e = Ok data ∧
  ∀ path, path ≠ join (b_root b) (te_file e) → write fs b group name data !! path = fs !! path.
Proof.
  intros Hv Hf Hn. unfold read_entry, write, read_file. rewrite Hf. split.
  - rewrite lookup_insert_eq. cbn [ok_or mbind result_bind].
    rewrite decide_False.
    2:{ intros Hc. apply Hc. by rewrite Hn, len_le_bytes. }
    by rewrite write_bytes.
  - intros path Hp. by rewrite lookup_insert_ne.
Qed.

(** ** The index *)

Lemma index_tensors_spec ts idx idx' : index_tensors ts idx = Ok idx' →
  NoDup (te_name <$> ts) ∧ Forall (λ t, idx !! te_name t = None) ts ∧
  ∀ name e, idx' !! name = Some e ↔ idx !! name = Some e ∨ e ∈ ts ∧ te_name e = name.
Proof.
  revert idx. induction ts as [|t ts IH]; intros idx Hr; cbn [index_tensors] in Hr.
  { inv_ok. split; [constructor|]. split; [constructor|]. set_solver. }
  destruct (idx !! te_name t) eqn:Et; [done|]. destruct (IH _ Hr) as (Hn & Hf & Hi).
  rewrite Forall_forall in Hf. split; [|split].
  - cbn. constructor; [|done]. intros (e & He & Hin)%list_elem_of_fmap.
    specialize (Hf e Hin). by rewrite <- He, lookup_insert_eq in Hf.
  - constructor; [done|]. apply Forall_forall. intros e Hin. specialize (Hf e Hin).
    by apply lookup_insert_None in Hf as [? _].
  - intros name e. rewrite Hi, elem_of_cons, lookup_insert_Some. split.
    + intros [[[<- <-]|[_ He]]|[Hin Hn']]; [right; eauto|by left|right; eauto].
    + intros [He|[[->|Hin] Hn']]; [|left; by left|right; eauto].
      left. right. split; [|done]. intros Heq. congruence.
Qed.

(** A bundle that opens has the expected format and no two tensors of one
    name; its index finds exactly the manifest's tensors. *)
Theorem open_spec {J : Type} (parse : list Z → option (Manifest (J:=J))) fs root b :
  open parse fs root = Ok b →
  (∃ raw, fs !! join root (lit "manifest.json") = Some raw ∧ parse raw = Some (b_manifest b)) ∧
  schema (b_manifest b) = lit "qwen35-golden-v1" ∧ byte_order (b_manifest b) = lit "little" ∧
  mf_dtype (b_manifest b) = lit "f32" ∧ NoDup (te_name <$> tensors (b_manifest b)) ∧
  ∀ name e, bundle_entry b name = Some e ↔ e ∈ tensors (b_manifest b) ∧ te_name e = name.
Proof.
  unfold open, read_file. intros Hr. inv_ok.
  repeat match goal with H : ¬ (_ ≠ _) |- _ => apply dec_stable in H end.
  match goal with H : index_tensors _ _ = Ok _ |- _ => apply index_tensors_spec in H as (Hn & _ & Hi) end.
  cbn [b_manifest]. split; [by eexists|]. do 3 (split; [done|]). split; [done|].
  intros name e. unfold bundle_entry. cbn [b_index]. rewrite Hi, lookup_empty. split; [|by right].
  by intros [?|?].
Qed.

(** ** Comparing tensors *)

Definition dist (p : f32 * f32) : f32 := SFabs (F32.sub p.1 p.2).
Definition finite_pair (p : f32 * f32) : Prop := is_finite p.1 = true ∧ is_finite p.2 = true.

Lemma dist_number p : finite_pair p → is_nan (dist p) = false.
Proof. intros [H1 H2]. unfold dist. rewrite is_nan_abs. by apply sub_number. Qed.

(** [w] is the largest distance of [pairs], first reached at [k]. *)
Definition first_worst (pairs : list (f32 * f32)) (w : f32) (k : nat) : Prop :=
  (∃ p, pairs !! k = Some p ∧ w = dist p) ∧
  ∀ j q, pairs !! j = Some q → SFltb w (dist q) = false ∧ (j < k → SFltb (dist q) w = true)%nat.

Lemma diff_loop_spec pairs : Forall finite_pair pairs → ∀ i worst wi scale, is_nan worst = false →
  ∃ worst' wi' scale', diff_loop i pairs worst wi scale = inr (worst', wi', scale') ∧
    (worst' = worst ∧ wi' = wi ∧ Forall (λ p, SFltb worst (dist p) = false) pairs ∨
     SFltb worst worst' = true ∧ ∃ k, wi' = (i + k)%nat ∧ first_worst pairs worst' k).
Proof.
  induction 1 as [|[g c] pairs [Hg Hc] Hf IH]; intros i worst wi scale Hw; cbn [diff_loop].
  { do 3 eexists. split; [done|]. by left. }
  cbn in Hg, Hc. rewrite Hg, Hc. cbn [negb orb].
  pose proof (dist_number (g, c) ltac:(done)) as Hd. change (SFabs (F32.sub g c)) with (dist (g, c)).
  destruct (SFltb worst (dist (g, c))) eqn:E.
  - destruct (IH (S i) (dist (g, c)) i (fmax scale (SFabs g)) Hd) as (w' & wi' & sc & -> & Hcase).
    do 3 eexists. split; [done|]. right. destruct Hcase as [(-> & -> & Hall)|(Hlt & k & -> & Hk)].
    + split; [done|]. exists 0%nat. split; [lia|]. split; [by exists (g, c)|].
      intros [|j] q Hq; [injection Hq as <-; split; [apply SFltb_irrefl|lia]|].
      split; [|lia]. rewrite Forall_lookup in Hall. by eapply Hall.
    + split; [by eapply SFltb_trans|]. exists (S k). split; [lia|].
      destruct Hk as [(p & Hp & ->) Hk]. split; [by exists p|].
      intros [|j] q Hq; [injection Hq as <-|].
      * split; [|done]. apply not_true_is_false. intros Hc'.
        pose proof (SFltb_trans _ _ _ Hlt Hc') as Hi. by rewrite SFltb_irrefl in Hi.
      * destruct (Hk j q Hq) as [H1 H2]. split; [done|]. intros. apply H2. lia.
  - destruct (IH (S i) worst wi (fmax scale (SFabs g)) Hw) as (w' & wi' & sc & -> & Hcase).
    do 3 eexists. split; [done|]. destruct Hcase as [(-> & -> & Hall)|(Hlt & k & -> & Hk)].
    + left. split; [done|]. split; [done|]. by constructor.
    + right. split; [done|]. exists (S k). split; [lia|].
      destruct Hk as [(p & Hp & ->) Hk]. split; [by exists p|].
      assert (SFltb (dist (g, c)) (dist p) = true) as Hle by (by eapply SFltb_le_trans).
      intros [|j] q Hq; [injection Hq as <-|].
      * split; [|done]. apply not_true_is_false. intros Hc'.
        pose proof (SFltb_trans _ _ _ Hle Hc') as Hi. by rewrite SFltb_irrefl in Hi.
      * destruct (Hk j q Hq) as [H1 H2]. split; [done|]. intros. apply H2. lia.
Qed.

Lemma lookup_combine {A B} (l : list A) (k : list B) i x y :
  combine l k !! i = Some (x, y) ↔ l !! i = Some x ∧ k !! i = Some y.
Proof.
  revert k i. induction l as [|a l IH]; intros [|b k] [|i]; cbn; naive_solver.
Qed.

(** Two tensors of finite values and equal length compare equal when no
    difference is positive; otherwise the report names the first index where
    the absolute difference is largest, with both values there. *)
Theorem diff_spec name shape golden cand : length golden = length cand →
  Forall (λ x, is_finite x = true) golden → Forall (λ x, is_finite x = true) cand →
  match diff name shape golden cand with
  | None => Forall (λ p, SFltb fzero (dist p) = false) (combine golden cand)
  | Some d => golden !! max_abs_index d = Some (golden_at_max d) ∧
      cand !! max_abs_index d = Some (candidate_at_max d) ∧
      SFltb fzero (max_abs d) = true ∧
      first_worst (combine golden cand) (max_abs d) (max_abs_index d)
  end.
Proof.
  intros Hlen Hg Hc. unfold diff. rewrite decide_False by (intros Hn; by apply Hn).
  assert (Forall finite_pair (combine golden cand)) as Hf.
  { apply Forall_lookup. intros i [x y] [Hx Hy]%lookup_combine.
    rewrite Forall_lookup in Hg, Hc. split; [by eapply Hg|by eapply Hc]. }
  destruct (diff_loop_spec _ Hf 0 fzero 0 fzero) as (w & wi & sc & -> & Hcase); [done|].
  destruct Hcase as [(-> & -> & Hall)|(Hlt & k & -> & Hk)]; [done|].
  assert (SFeqb w fzero = false) as ->.
  { apply SFltb_key in Hlt as (_ & Hw & Hlt). unfold SFeqb. rewrite SFcompare_lex by done.
    by rewrite Hlt. }
  cbn [max_abs_index golden_at_max candidate_at_max max_abs Nat.add].
  destruct Hk as [([x y] & Hxy & Hw) Hk].
  pose proof Hxy as [Hx Hy]%lookup_combine. rewrite Hx, Hy. split_and!; try done.
  split; [by exists (x, y)|done].
Qed.

(** ** Comparing runs *)

(** [first_divergence] is the length of the longest common prefix of the
    generated tokens, when the runs differ at all. *)
Theorem diff_tokens_spec {J : Type} (g c : Manifest (J:=J)) :
  let l := final_ids (greedy g) in
  let k := final_ids (greedy c) in
  match first_divergence (diff_tokens g c) with
  | None => l = k
  | Some i => take i l = take i k ∧ l !! i ≠ k !! i
  end.
Proof.
  cbn. set (l := final_ids (greedy g)). set (k := final_ids (greedy c)).
  set (n := Nat.min (length l) (length k)).
  assert (∀ i, (i ≤ n)%nat → (∀ j, (j < i)%nat → l !! j = k !! j) → take i l = take i k) as Htake.
  { intros i Hi Hj. apply list_eq. intros j. destruct (decide (j < i)%nat).
    - rewrite !lookup_take_lt by done. by apply Hj.
    - by rewrite !lookup_take_ge by lia. }
  destruct (list_find _ (seq 0 n)) as [[i x]|] eqn:E; cbn [fmap option_fmap option_map fst].
  - apply list_find_Some in E as (Hx & Hne & Hbefore). apply lookup_seq in Hx as [-> Hi].
    split; [|done]. apply Htake; [lia|]. intros j Hj.
    assert (seq 0 n !! j = Some j) as Hsj by (apply lookup_seq; lia).
    apply dec_stable. by apply (Hbefore j j).
  - apply list_find_None in E.
    assert (∀ j, (j < n)%nat → l !! j = k !! j) as Heq.
    { intros j Hj. rewrite Forall_forall in E. apply dec_stable, (E j), elem_of_seq. lia. }
    case_decide as Hl.
    + split; [by apply Htake|]. subst n.
      destruct (Nat.lt_total (length l) (length k)) as [Hlt|[|Hlt]]; [|done|].
      * rewrite Nat.min_l by lia. rewrite (lookup_ge_None_2 l) by lia.
        destruct (lookup_lt_is_Some_2 k (length l) Hlt) as [y ->]. done.
      * rewrite Nat.min_r by lia. rewrite (lookup_ge_None_2 k) by lia.
        destruct (lookup_lt_is_Some_2 l (length k) Hlt) as [y ->]. done.
    + apply list_eq. intros j. destruct (decide (j < n)%nat); [by apply Heq|].
      by rewrite !lookup_ge_None_2 by (subst n; lia).
Qed.
