(* ===== verification/Loader.v ===== *)
(** * Loading a golden bundle

    Models qwen35-forward/gdn/src/loader.rs: the sizes of a bundled model, the
    names of its captured tensors, and its weights.  Sizes are [usize];
    products wrap, and a remainder by zero panics. *)

From stdpp Require Import gmap.
From S2P Require Import Prelude Float Serde Rstr Tensor Linear Delta Gdn Attention Layer Model.
From S2P Require Import Header Safetensors Real Bundle.
#[local] Open Scope Z_scope.

Inductive loader_error :=
| Missing (what : rstr)
| EmbedAxes (shape : list Z)
| NoLayerOutputs
| NoLinearLayers
| Inconsistent (conv_dim value_dim num_k_heads num_v_heads head_k_dim head_v_dim : Z)
| RotaryDim (rotary_dim head_dim : Z)
| KvMultiple (heads kv_heads : Z)
| ReadError (name : rstr) (e : bundle_error)
| WrongCount (name : rstr) (got want : Z)
| NoGatedDeltaNet (layer : nat) (kind : rstr).

Abbreviation outcome := (result (err loader_error)).
Abbreviation fail e := (Err (Error e)) (only parsing).
Abbreviation missing s := (Error (Missing (lit s))) (only parsing).

Definition LINEAR : rstr := lit "linear_attention".
Definition FULL : rstr := lit "full_attention".

Record ModelInfo := mkModelInfo {
  mi_b : Z;
  mi_t : Z;
  mi_hidden : Z;
  mi_intermediate : Z;
  num_layers : nat;
  layer_types : list rstr;
  mi_eps : f32;
  ssm_gain : f64;
  mi_vocab : Z;
  mi_gdn : GdnConfig;
  mi_attn : AttnConfig;
}.

Module ModelInfo.
Definition layer_type (m : ModelInfo) (layer : nat) : rstr :=
  default (lit "unknown") (layer_types m !! layer).
Definition is_linear (m : ModelInfo) (layer : nat) : bool := bool_decide (layer_type m layer = LINEAR).
(** The position of [layer] among the linear layers. *)
Definition ssm_ordinal (m : ModelInfo) (layer : nat) : option nat :=
  if is_linear m layer
  then Some (length (filter (λ l, is_linear m l = true) (seq 0 layer)))
  else None.
Definition input_name (layer : nat) : rstr :=
  match layer with
  | O => lit "model__embed_tokens"
  | S prev => lit "model__layers__" ++ show_nat (Z.of_nat prev)
  end.
Definition chain_layers (m : ModelInfo) : list nat := seq 0 (num_layers m).
Definition model_config (m : ModelInfo) : ModelConfig :=
  mkModelConfig (Z.to_nat (mi_vocab m)) (Z.to_nat (mi_hidden m)) (mi_eps m) (mi_gdn m) (mi_attn m).
Definition counts (m : ModelInfo) : nat * nat :=
  let lin := length (filter (λ l, is_linear m l = true) (seq 0 (num_layers m))) in
  (lin, (num_layers m - lin)%nat).
End ModelInfo.

(** [str::parse::<usize>]: an optional sign, then digits. *)
Definition parse_usize (s : rstr) : option Z :=
  let ds := match s with 43 :: ds => ds | _ => s end in
  match ds with
  | [] => None
  | _ => if forallb is_digit ds && (value_of ds <=? u64_max) then Some (value_of ds) else None
  end.

Section load_model.
Context {J : Type} `{SerdeJson J}.

(** An axis of a tensor: the first, zero when there is none, or the last. *)
Definition first_axis (b : Bundle (J:=J)) (name : rstr) : option Z :=
  (λ e, default 0 (te_shape e !! 0%nat)) <$> bundle_entry b name.
Definition last_axis (b : Bundle (J:=J)) (name : rstr) : option Z :=
  e ← bundle_entry b name; last (te_shape e).

(** One more than the largest captured layer. *)
Definition count_layers (b : Bundle (J:=J)) : Z :=
  foldl (λ n name,
    match strip_prefix (lit "model__layers__") name with
    | Some rest =>
        if contains (lit "__") rest then n
        else match parse_usize rest with Some k => n `max` wadd k 1 | None => n end
    | None => n
    end) 0 (bundle_names b).

(** From the config, else from the submodules that were captured. *)
Definition read_layer_types (b : Bundle (J:=J)) (cfg : J) (num_layers : nat) : list rstr :=
  let from_config : list rstr :=
    match get cfg (lit "layer_types") ≫= as_array with
    | Some a => omap as_str a
    | None => []
    end in
  if decide (num_layers ≤ length from_config)%nat then take num_layers from_config
  else (λ l : nat,
    match bundle_entry b (lit "model__layers__" ++ show_nat (Z.of_nat l) ++ lit "__linear_attn") with
    | Some _ => LINEAR
    | None => FULL
    end) <$> seq 0 num_layers.

(** The linear mixer's sizes. *)
Definition load_gdn_config (b : Bundle (J:=J)) (layer_types : list rstr) (num_layers : nat)
    (hidden : Z) (eps : f32) : outcome GdnConfig :=
  first ← ok_or (Error NoLinearLayers)
    (fst <$> list_find (λ l, layer_types !! l = Some LINEAR) (seq 0 num_layers));
  let p s := lit "model__layers__" ++ show_nat (Z.of_nat first) ++ lit "__linear_attn__" ++ lit s in
  conv_dim ← ok_or (missing "in_proj_qkv") (first_axis b (p "in_proj_qkv__weight"));
  value_dim ← ok_or (missing "in_proj_z") (first_axis b (p "in_proj_z__weight"));
  num_v_heads ← ok_or (missing "in_proj_b") (first_axis b (p "in_proj_b__weight"));
  head_v_dim ← ok_or (missing "linear_attn norm") (first_axis b (p "norm__weight"));
  conv_kernel ← ok_or (missing "conv1d") (last_axis b (p "conv1d__weight"));
  head_k_dim ← ok_or (missing "delta-rule operand")
    (last_axis b (lit "delta_torch_chunk_gated_delta_rule_0__q"));
  let key_dim := saturating_sub conv_dim value_dim / 2 in
  let num_k_heads := if decide (head_k_dim = 0) then 0 else key_dim / head_k_dim in
  if decide (head_k_dim = 0 ∨ num_k_heads = 0 ∨ key_dim ≠ wmul num_k_heads head_k_dim
    ∨ conv_dim ≠ wadd (wmul 2 key_dim) value_dim ∨ value_dim ≠ wmul num_v_heads head_v_dim
    ∨ num_v_heads mod num_k_heads ≠ 0)
  then fail (Inconsistent conv_dim value_dim num_k_heads num_v_heads head_k_dim head_v_dim)
  else Ok (mkGdnConfig (Z.to_nat hidden) (Z.to_nat num_k_heads) (Z.to_nat num_v_heads)
             (Z.to_nat head_k_dim) (Z.to_nat head_v_dim) (Z.to_nat conv_kernel) eps).

(** The attention's sizes. *)
Definition load_attn_config (b : Bundle (J:=J)) (cfg : J) (hidden : Z) (eps : f32) :
    outcome AttnConfig :=
  num_heads ← ok_or (missing "num_attention_heads") (cfg_usize cfg "num_attention_heads");
  num_kv_heads ← ok_or (missing "num_key_value_heads") (cfg_usize cfg "num_key_value_heads");
  head_dim ← ok_or (missing "head_dim") (cfg_usize cfg "head_dim");
  let rope := get cfg (lit "rope_parameters") in
  let rope_theta :=
    to_f32 (default default_theta (r ← rope; v ← get r (lit "rope_theta"); as_f64 v)) in
  let partial :=
    to_f32 (default default_partial (r ← rope; v ← get r (lit "partial_rotary_factor"); as_f64 v)) in
  let rotary_dim :=
    default (f32_to_usize (F32.mul (F32.of_Z head_dim) partial))
      (last_axis b (lit "model__rotary_emb__out0")) in
  if decide (rotary_dim = 0 ∨ rotary_dim > head_dim ∨ rotary_dim mod 2 ≠ 0)
  then fail (RotaryDim rotary_dim head_dim) else
  r ← (if decide (num_kv_heads = 0) then Err Panic else Ok (num_heads mod num_kv_heads));
  if decide (r ≠ 0) then fail (KvMultiple num_heads num_kv_heads) else
  Ok (mkAttnConfig (Z.to_nat hidden) (Z.to_nat num_heads) (Z.to_nat num_kv_heads)
        (Z.to_nat head_dim) (Z.to_nat rotary_dim) rope_theta eps).

Definition positive (n : Z) : option Z := if decide (0 < n) then Some n else None.

Definition load_model (b : Bundle (J:=J)) : outcome ModelInfo :=
  let cfg := config (b_manifest b) in
  emb ← ok_or (missing "model__embed_tokens") (bundle_entry b (lit "model__embed_tokens"));
  match te_shape emb with
  | [b_sz; t_sz; _] =>
      hidden ← ok_or (missing "hidden_size")
        (first_axis b (lit "model__layers__0__input_layernorm__weight") ≫= positive);
      intermediate ← ok_or (missing "intermediate_size")
        (first_axis b (lit "model__layers__0__mlp__gate_proj__weight") ≫= positive);
      let n := count_layers b in
      if decide (n = 0) then fail NoLayerOutputs else
      let num_layers := Z.to_nat n in
      let types := read_layer_types b cfg num_layers in
      let eps := default EPS (to_f32 <$> (get cfg (lit "rms_norm_eps") ≫= as_f64)) in
      gdn ← load_gdn_config b types num_layers hidden eps;
      vocab ← ok_or (missing "vocab_size")
        (match cfg_usize cfg "vocab_size" with
         | Some v => Some v
         | None => e ← bundle_entry b (lit "model__embed_tokens__weight"); te_shape e !! 0%nat
         end);
      attn ← load_attn_config b cfg hidden eps;
      Ok (mkModelInfo b_sz t_sz hidden intermediate num_layers types eps
            (src_ssm_gain (source (b_manifest b))) vocab gdn attn)
  | shape => fail (EmbedAxes shape)
  end.
End load_model.

(** ** Names *)

Record LayerCapture := mkLayerCapture {
  lc_layer : nat;
  lc_ssm : option nat;
  lc_prefix : rstr;
  lc_attn : rstr;
}.

Module LayerCapture.
Definition new (layer : nat) (ssm : option nat) : LayerCapture :=
  let prefix := lit "model__layers__" ++ show_nat (Z.of_nat layer) ++ lit "__" in
  mkLayerCapture layer ssm prefix (prefix ++ lit "linear_attn__").
Definition conv (c : LayerCapture) (part : string) : option rstr :=
  (λ k, lit "causal_conv1d_fn_call" ++ show_nat (Z.of_nat k) ++ lit "_" ++ lit part) <$> lc_ssm c.
Definition delta (c : LayerCapture) (part : rstr) : option rstr :=
  (λ k, lit "delta_torch_chunk_gated_delta_rule_" ++ show_nat (Z.of_nat k) ++ lit "__" ++ part)
    <$> lc_ssm c.
Definition layer_out (c : LayerCapture) : rstr :=
  lit "model__layers__" ++ show_nat (Z.of_nat (lc_layer c)).
Definition sa (c : LayerCapture) (part : string) : rstr :=
  lc_prefix c ++ lit "self_attn__" ++ lit part.
Definition input_layernorm (c : LayerCapture) : rstr := lc_prefix c ++ lit "input_layernorm".
Definition in_proj_qkv (c : LayerCapture) : rstr := lc_attn c ++ lit "in_proj_qkv".
Definition in_proj_z (c : LayerCapture) : rstr := lc_attn c ++ lit "in_proj_z".
Definition in_proj_b (c : LayerCapture) : rstr := lc_attn c ++ lit "in_proj_b".
Definition in_proj_a (c : LayerCapture) : rstr := lc_attn c ++ lit "in_proj_a".
Definition conv_in (c : LayerCapture) : option rstr := conv c "in".
Definition conv_out (c : LayerCapture) : option rstr := conv c "out".
Definition delta_operand (c : LayerCapture) (operand : rstr) : option rstr := delta c operand.
Definition delta_out (c : LayerCapture) : option rstr := delta c (lit "out").
Definition delta_state (c : LayerCapture) : option rstr := delta c (lit "state").
Definition mixer_norm (c : LayerCapture) : rstr := lc_attn c ++ lit "norm".
Definition out_proj (c : LayerCapture) : rstr := lc_attn c ++ lit "out_proj".
Definition linear_attn (c : LayerCapture) : rstr := lc_prefix c ++ lit "linear_attn".
Definition post_attention_layernorm (c : LayerCapture) : rstr := lc_prefix c ++ lit "post_attention_layernorm".
Definition mlp_gate_proj (c : LayerCapture) : rstr := lc_prefix c ++ lit "mlp__gate_proj".
Definition mlp_up_proj (c : LayerCapture) : rstr := lc_prefix c ++ lit "mlp__up_proj".
Definition mlp_swiglu (c : LayerCapture) : rstr := lc_prefix c ++ lit "mlp__swiglu_product".
Definition mlp_down_proj (c : LayerCapture) : rstr := lc_prefix c ++ lit "mlp__down_proj".
Definition mlp (c : LayerCapture) : rstr := lc_prefix c ++ lit "mlp".
Definition w_input_layernorm (c : LayerCapture) : rstr := lc_prefix c ++ lit "input_layernorm__weight".
Definition w_post_attention_layernorm (c : LayerCapture) : rstr := lc_prefix c ++ lit "post_attention_layernorm__weight".
Definition w_in_proj_qkv (c : LayerCapture) : rstr := lc_attn c ++ lit "in_proj_qkv__weight".
Definition w_in_proj_z (c : LayerCapture) : rstr := lc_attn c ++ lit "in_proj_z__weight".
Definition w_in_proj_b (c : LayerCapture) : rstr := lc_attn c ++ lit "in_proj_b__weight".
Definition w_in_proj_a (c : LayerCapture) : rstr := lc_attn c ++ lit "in_proj_a__weight".
Definition w_conv1d (c : LayerCapture) : rstr := lc_attn c ++ lit "conv1d__weight".
Definition w_a_log (c : LayerCapture) : rstr := lc_attn c ++ lit "A_log".
Definition w_dt_bias (c : LayerCapture) : rstr := lc_attn c ++ lit "dt_bias".
Definition w_norm (c : LayerCapture) : rstr := lc_attn c ++ lit "norm__weight".
Definition w_out_proj (c : LayerCapture) : rstr := lc_attn c ++ lit "out_proj__weight".
Definition w_gate_proj (c : LayerCapture) : rstr := lc_prefix c ++ lit "mlp__gate_proj__weight".
Definition w_up_proj (c : LayerCapture) : rstr := lc_prefix c ++ lit "mlp__up_proj__weight".
Definition w_down_proj (c : LayerCapture) : rstr := lc_prefix c ++ lit "mlp__down_proj__weight".
Definition w_q_proj (c : LayerCapture) : rstr := sa c "q_proj__weight".
Definition w_k_proj (c : LayerCapture) : rstr := sa c "k_proj__weight".
Definition w_v_proj (c : LayerCapture) : rstr := sa c "v_proj__weight".
Definition w_o_proj (c : LayerCapture) : rstr := sa c "o_proj__weight".
Definition w_q_norm (c : LayerCapture) : rstr := sa c "q_norm__weight".
Definition w_k_norm (c : LayerCapture) : rstr := sa c "k_norm__weight".
Definition self_attn_out0 (c : LayerCapture) : rstr := sa c "out0".
Definition o_proj_in (c : LayerCapture) : rstr := sa c "o_proj__in".
Definition q_proj (c : LayerCapture) : rstr := sa c "q_proj".
Definition q_norm (c : LayerCapture) : rstr := sa c "q_norm".
Definition k_proj (c : LayerCapture) : rstr := sa c "k_proj".
Definition k_norm (c : LayerCapture) : rstr := sa c "k_norm".
Definition v_proj (c : LayerCapture) : rstr := sa c "v_proj".
Definition o_proj (c : LayerCapture) : rstr := sa c "o_proj".
Definition self_attn (c : LayerCapture) : rstr := lc_prefix c ++ lit "self_attn".
End LayerCapture.

(** ** Weights *)

(** A [usize] product of sizes. *)
Definition usize (n : nat) : Z := wrap64 (Z.of_nat n).

Section weights.
Context {J : Type} `{SerdeJson J} (fs : FS) (b : Bundle (J:=J)) (m : ModelInfo).

Definition read_exact (name : rstr) (expect : Z) : outcome vec :=
  match read fs b name with
  | Err e => fail (ReadError name e)
  | Ok v => if decide (len v ≠ expect) then fail (WrongCount name (len v) expect) else Ok v
  end.

Definition capture (layer : nat) : LayerCapture :=
  LayerCapture.new layer (ModelInfo.ssm_ordinal m layer).

Definition load_gdn_weights (layer : nat) : outcome GdnWeights :=
  let c := capture layer in
  let g := mi_gdn m in
  match lc_ssm c with
  | None => fail (NoGatedDeltaNet layer (ModelInfo.layer_type m layer))
  | Some _ =>
      let h := g_hidden g in
      let vd := GdnConfig.value_dim g in
      let nh := num_v_heads g in
      qkv ← read_exact (LayerCapture.w_in_proj_qkv c) (usize (GdnConfig.conv_dim g * h));
      z ← read_exact (LayerCapture.w_in_proj_z c) (usize (vd * h));
      b ← read_exact (LayerCapture.w_in_proj_b c) (usize (nh * h));
      a ← read_exact (LayerCapture.w_in_proj_a c) (usize (nh * h));
      conv ← read_exact (LayerCapture.w_conv1d c) (usize (GdnConfig.conv_dim g * conv_kernel g));
      al ← read_exact (LayerCapture.w_a_log c) (usize nh);
      dt ← read_exact (LayerCapture.w_dt_bias c) (usize nh);
      n ← read_exact (LayerCapture.w_norm c) (usize (head_v_dim g));
      o ← read_exact (LayerCapture.w_out_proj c) (usize (h * vd));
      Ok (mkGdnWeights qkv z b a conv al dt n o)
  end.

Definition load_layer_weights (layer : nat) : outcome LayerWeights :=
  let c := capture layer in
  let h := mi_hidden m in
  let i := mi_intermediate m in
  n1 ← read_exact (LayerCapture.w_input_layernorm c) h;
  n2 ← read_exact (LayerCapture.w_post_attention_layernorm c) h;
  g ← read_exact (LayerCapture.w_gate_proj c) (wmul i h);
  u ← read_exact (LayerCapture.w_up_proj c) (wmul i h);
  d ← read_exact (LayerCapture.w_down_proj c) (wmul h i);
  Ok (mkLayerWeights n1 n2 (mkMlpWeights g u d)).

Definition layer_kind (layer : nat) : LayerKind :=
  if ModelInfo.is_linear m layer then KLinearAttention else KFullAttention.

Definition load_attn_weights (layer : nat) : outcome AttnWeights :=
  let c := capture layer in
  let a := mi_attn m in
  let h := at_hidden a in
  q ← read_exact (LayerCapture.w_q_proj c) (usize (AttnConfig.q_out_dim a * h));
  k ← read_exact (LayerCapture.w_k_proj c) (usize (AttnConfig.kv_out_dim a * h));
  v ← read_exact (LayerCapture.w_v_proj c) (usize (AttnConfig.kv_out_dim a * h));
  o ← read_exact (LayerCapture.w_o_proj c) (usize (h * num_heads a * head_dim a));
  qn ← read_exact (LayerCapture.w_q_norm c) (usize (head_dim a));
  kn ← read_exact (LayerCapture.w_k_norm c) (usize (head_dim a));
  Ok (mkAttnWeights q k v o qn kn).

Definition load_all_layers : outcome (list LayerWeightsAll) :=
  try_map (λ layer,
    lw ← load_layer_weights layer;
    match layer_kind layer with
    | KLinearAttention =>
        g ← load_gdn_weights layer; Ok (mkLayerWeightsAll KLinearAttention lw (Some g) None)
    | KFullAttention =>
        a ← load_attn_weights layer; Ok (mkLayerWeightsAll KFullAttention lw None (Some a))
    end) (seq 0 (num_layers m)).

(** The layers are attached by the caller. *)
Definition load_model_weights : outcome ModelWeights :=
  embed ← read_exact (lit "model__embed_tokens__weight") (wmul (mi_vocab m) (mi_hidden m));
  final ← read_exact (lit "model__norm__weight") (mi_hidden m);
  head ← read_exact (lit "lm_head__weight") (wmul (mi_vocab m) (mi_hidden m));
  Ok (mkModelWeights embed final head []).

Definition load_rope : outcome (vec * vec) :=
  let want := wmul (wmul (mi_b m) (mi_t m)) (Z.of_nat (rotary_dim (mi_attn m))) in
  cos ← read_exact (lit "model__rotary_emb__out0") want;
  sin ← read_exact (lit "model__rotary_emb__out1") want;
  Ok (cos, sin).
End weights.
