(* ===== verification/LoaderProps.v ===== *)
(** * What the bundle loader guarantees

    The capture index counts the linear layers; and a bundle whose weights
    load gives a well-formed model. *)

From stdpp Require Import gmap.
From S2P Require Import Prelude Float Serde Rstr Sample Tensor Linear Delta Gdn GdnProps.
From S2P Require Import Attention AttentionProps Layer LayerProps Model ModelProps.
From S2P Require Import Header Safetensors Real RealProps Bundle Loader.
#[local] Open Scope Z_scope.

Abbreviation outcome := Loader.outcome.

(** ** The capture index *)

Lemma filter_seq_lookup (P : nat → Prop) `{!∀ x, Decision (P x)} n l k :
  filter P (seq 0 n) !! k = Some l ↔ (l < n)%nat ∧ P l ∧ length (filter P (seq 0 l)) = k.
Proof.
  induction n as [|n IH]; [split; [done|lia]|].
  rewrite seq_S, filter_app. cbn [Nat.add]. rewrite filter_cons, filter_nil.
  destruct (Nat.lt_total l n) as [Hl|[->|Hl]].
  - assert (P l → length (filter P (seq 0 l)) < length (filter P (seq 0 n)))%nat as Hlt.
    { intros Hp. replace n with (l + S (n - S l))%nat by lia. rewrite seq_app, filter_app, length_app.
      cbn [seq]. rewrite filter_cons, decide_True by done. cbn. lia. }
    split.
    + intros [Hk|[Hge Hk]]%lookup_app_Some; [apply IH in Hk; naive_solver lia|].
      case_decide; [|done]. apply list_lookup_singleton_Some in Hk as [_ ->]. lia.
    + intros (_ & Hp & Hk). apply lookup_app_l_Some, IH. done.
  - split.
    + intros [Hk|[Hge Hk]]%lookup_app_Some; [apply IH in Hk; lia|].
      case_decide; [|done]. apply list_lookup_singleton_Some in Hk as [Hz _]. split_and!; [lia|done|lia].
    + intros (_ & Hp & <-). rewrite decide_True by done. by rewrite lookup_app_r, Nat.sub_diag.
  - split; [|lia]. intros [Hk|[Hge Hk]]%lookup_app_Some; [apply IH in Hk; lia|].
    case_decide; [|done]. apply list_lookup_singleton_Some in Hk as [_ ->]. lia.
Qed.

(** The capture index of a layer is its position among the linear layers:
    a bijection between the linear layers and [0..], so no two layers share a
    capture name and none is skipped. *)
Theorem ssm_ordinal_spec (m : ModelInfo) n layer k : (layer < n)%nat →
  ModelInfo.ssm_ordinal m layer = Some k ↔
  filter (λ l, ModelInfo.is_linear m l = true) (seq 0 n) !! k = Some layer.
Proof.
  intros Hn. rewrite filter_seq_lookup. unfold ModelInfo.ssm_ordinal.
  destruct (ModelInfo.is_linear m layer); naive_solver.
Qed.

(** ** Weights *)

Section load.
Context {J : Type} `{SerdeJson J} (fs : FS) (b : Bundle (J:=J)).

Lemma read_exact_len name n v : read_exact fs b name n = Ok v → len v = n.
Proof.
  unfold read_exact. destruct (read fs b name); [|done]. case_decide; [done|]. intros [= <-]. lia.
Qed.

Lemma length_usize {A} (v : list A) n : len v = usize n → Z.of_nat n < 2 ^ 64 → length v = n.
Proof.
  unfold usize. intros Hl Hn. rewrite wrap64_small in Hl by (unfold u64, u64_max; lia).
  unfold len in Hl. lia.
Qed.

(** What the configurations of a bundle satisfy. *)
Lemma load_gdn_config_Ok types n hidden eps g : load_gdn_config b types n hidden eps = Ok g →
  (1 ≤ num_k_heads g → 1 ≤ num_v_heads g →
   0 < num_v_heads g / num_k_heads g ∧
   num_v_heads g = num_k_heads g * (num_v_heads g / num_k_heads g))%nat ∧
  g_hidden g = Z.to_nat hidden.
Proof.
  unfold load_gdn_config. intros Hr. inv_ok. split; [|done]. cbn. intros Hk Hv.
  match goal with Hn : ¬ (_ ∨ _) |- _ => rename Hn into Hd end.
  match goal with |- context [Z.to_nat (if ?d then _ else _)] => destruct d; [tauto|] end.
  apply multiple; [lia..|]. apply dec_stable. tauto.
Qed.

Lemma load_attn_config_Ok cfg hidden eps a : load_attn_config b cfg hidden eps = Ok a →
  (1 ≤ num_heads a → 1 ≤ num_kv_heads a →
   0 < num_heads a / num_kv_heads a ∧
   num_heads a = num_kv_heads a * (num_heads a / num_kv_heads a))%nat ∧
  (rotary_dim a ≤ head_dim a)%nat ∧ at_hidden a = Z.to_nat hidden.
Proof.
  unfold load_attn_config. intros Hr. inv_ok.
  match goal with Hn : ¬ (_ ∨ _ ∨ _) |- _ => rename Hn into Hrot end.
  cbn [num_heads num_kv_heads rotary_dim head_dim at_hidden].
  split; [intros Hh Hk; apply multiple; [lia..|]|split; [lia|done]].
  by apply dec_stable.
Qed.

(** Every size of a bundled model is positive and below [2^20]. *)
Definition info_small (m : ModelInfo) : Prop :=
  Forall (λ n, 1 ≤ Z.of_nat n < 2 ^ 20) (config_sizes (ModelInfo.model_config m)) ∧
  mi_intermediate m < 2 ^ 20.

Lemma nat_mul_bound x y a c : 0 ≤ Z.of_nat x < a → 0 ≤ Z.of_nat y < c →
  0 ≤ Z.of_nat (x * y) < a * c.
Proof. rewrite Nat2Z.inj_mul. apply mul_bound. Qed.

Lemma nat_fits x y : (Z.of_nat x < 2 ^ 42 ∧ Z.of_nat y < 2 ^ 20 ∨ Z.of_nat x < 2 ^ 20 ∧ Z.of_nat y < 2 ^ 42) →
  Z.of_nat (x * y) < 2 ^ 64.
Proof. rewrite Nat2Z.inj_mul. intros. apply mul_fits; lia. Qed.

Section weights.
Context (m : ModelInfo).
Let g := mi_gdn m.
Let a := mi_attn m.
Hypothesis (Hsmall : info_small m).

Ltac sizes_of :=
  destruct Hsmall as [Hsz Hint]; unfold config_sizes, ModelInfo.model_config in Hsz;
  cbn [Model.vocab Model.hidden mc_gdn mc_attn] in Hsz; fold g a in Hsz;
  repeat match type of Hsz with Forall _ (_ :: _) =>
    let H := fresh "S" in apply Forall_cons in Hsz as [H Hsz] end.
Ltac usized H := apply (length_usize _ _ H); try (apply nat_fits); lia.

Lemma load_gdn_weights_wf layer gw :
  (1 ≤ num_k_heads g → 1 ≤ num_v_heads g →
   0 < num_v_heads g / num_k_heads g ∧
   num_v_heads g = num_k_heads g * (num_v_heads g / num_k_heads g))%nat →
  g_hidden g = Z.to_nat (mi_hidden m) →
  load_gdn_weights fs b m layer = Ok gw → gdn_wf g gw.
Proof.
  intros Hm Hh. unfold load_gdn_weights. fold g. destruct (lc_ssm _); [|done]. intros Hr. inv_ok.
  repeat match goal with H : read_exact _ _ _ _ = Ok _ |- _ => apply read_exact_len in H end.
  sizes_of. rewrite <- Hh in *.
  pose proof (nat_mul_bound (head_k_dim g) (num_k_heads g) (2 ^ 20) (2 ^ 20)) as B1.
  pose proof (nat_mul_bound (head_v_dim g) (num_v_heads g) (2 ^ 20) (2 ^ 20)) as B2.
  destruct Hm as [M1 M2]; [lia..|].
  assert (Z.of_nat (GdnConfig.value_dim g) < 2 ^ 40) as V1 by (unfold GdnConfig.value_dim; lia).
  assert (Z.of_nat (GdnConfig.conv_dim g) < 2 ^ 42) as V2
    by (unfold GdnConfig.conv_dim, GdnConfig.key_dim, GdnConfig.value_dim; lia).
  split; cbn; try done; try lia.
  - usized Ha.
  - usized Ha0.
  - usized Ha1.
  - usized Ha2.
  - usized Ha3.
  - usized Ha4.
  - usized Ha5.
  - usized Ha6.
  - usized Ha7.
Qed.

Lemma load_attn_weights_wf layer aw :
  (1 ≤ num_heads a → 1 ≤ num_kv_heads a →
   0 < num_heads a / num_kv_heads a ∧
   num_heads a = num_kv_heads a * (num_heads a / num_kv_heads a))%nat →
  (rotary_dim a ≤ head_dim a)%nat → at_hidden a = Z.to_nat (mi_hidden m) →
  load_attn_weights fs b m layer = Ok aw → attn_wf a aw.
Proof.
  intros Hm Hrot Hh. unfold load_attn_weights. fold a. intros Hr. inv_ok.
  repeat match goal with H : read_exact _ _ _ _ = Ok _ |- _ => apply read_exact_len in H end.
  sizes_of. rewrite <- Hh in *.
  pose proof (nat_mul_bound (num_heads a) (head_dim a) (2 ^ 20) (2 ^ 20)) as B1.
  pose proof (nat_mul_bound (num_kv_heads a) (head_dim a) (2 ^ 20) (2 ^ 20)) as B2.
  destruct Hm as [M1 M2]; [lia..|].
  unfold AttnConfig.q_out_dim, AttnConfig.kv_out_dim in *.
  split; cbn; try done; try lia.
  - usized Ha.
  - usized Ha0.
  - usized Ha1.
  - rewrite Nat.mul_assoc. rewrite <- Nat.mul_assoc in Ha2 |- *. usized Ha2.
  - usized Ha3.
  - usized Ha4.
Qed.

Lemma load_layer_weights_wf layer lw : 0 ≤ mi_intermediate m →
  load_layer_weights fs b m layer = Ok lw → layer_wf lw (Z.to_nat (mi_hidden m)).
Proof.
  intros Hi. unfold load_layer_weights. intros Hr. inv_ok.
  repeat match goal with H : read_exact _ _ _ _ = Ok _ |- _ => apply read_exact_len in H end.
  sizes_of. by apply (layer_weights_wf _ _ _ _ _ (mi_hidden m) (mi_intermediate m)); try lia.
Qed.
End weights.

(** What a loaded description of a bundle satisfies. *)
Lemma load_model_Ok m : load_model b = Ok m →
  ∃ types n cfg eps, load_gdn_config b types n (mi_hidden m) eps = Ok (mi_gdn m) ∧
    load_attn_config b cfg (mi_hidden m) eps = Ok (mi_attn m) ∧ 0 < mi_intermediate m.
Proof.
  unfold load_model. intros Hr. inv_ok.
  match goal with H : match ?l with _ => _ end = Ok _ |- _ =>
    destruct l as [|? [|? [|? [|]]]]; try done end.
  inv_ok. do 4 eexists. cbn. split; [done|]. split; [done|].
  match goal with H : _ ≫= positive = Some (?x) |- 0 < ?x =>
    apply bind_Some in H as (? & _ & H); unfold positive in H; by case_decide; simplify_eq end.
Qed.

Lemma bundle_wf m w lws : load_model b = Ok m → info_small m →
  load_model_weights fs b m = Ok w → load_all_layers fs b m = Ok lws →
  model_wf (ModelInfo.model_config m)
    (mkModelWeights (embed_tokens w) (final_norm w) (lm_head w) lws).
Proof.
  intros (types & n & cfg & eps & Hg & Ha & Hi)%load_model_Ok Hs Hw Hl.
  apply load_gdn_config_Ok in Hg as [Hg1 Hg2]. apply load_attn_config_Ok in Ha as (Ha1 & Ha2 & Ha3).
  unfold load_model_weights in Hw. inv_ok.
  repeat match goal with H : read_exact _ _ _ _ = Ok _ |- _ => apply read_exact_len in H end.
  pose proof Hs as [Hsz _]. unfold config_sizes, ModelInfo.model_config in Hsz.
  cbn [Model.vocab Model.hidden mc_gdn mc_attn] in Hsz.
  apply Forall_cons in Hsz as [S1 Hsz]. apply Forall_cons in Hsz as [S2 _].
  split; cbn; try done.
  - sized Ha.
  - unfold len in Ha0. lia.
  - sized Ha4.
  - lia.
  - unfold load_all_layers in Hl. apply try_map_Ok in Hl. apply Forall_forall. intros lw Hin.
    apply list_elem_of_lookup in Hin as [i Hin].
    eapply Forall2_lookup_r in Hin as (layer & _ & Hlw); [|exact Hl].
    cbn beta in Hlw. inv_ok.
    all: match goal with H : load_layer_weights _ _ _ _ = Ok _ |- _ =>
      apply load_layer_weights_wf in H; [|done|lia] end.
    all: split; [done|]; eexists; (split; [done|]).
    + by eapply load_gdn_weights_wf.
    + by eapply load_attn_weights_wf.
Qed.

(** A bundle whose description and weights load, with positive sizes whose
    products fit the machine word, is a well-formed model, as a checkpoint
    assembled by [real.rs] is. *)
Theorem bundle_model_wf m w lws : load_model b = Ok m → info_small m →
  load_model_weights fs b m = Ok w → load_all_layers fs b m = Ok lws →
  model_wf (ModelInfo.model_config m)
    (mkModelWeights (embed_tokens w) (final_norm w) (lm_head w) lws).
Proof. apply bundle_wf. Qed.
End load.
