(* ===== verification/Exit.v ===== *)
(** * How the programs end

    Exit codes, early returns and panics, shared by the models of the
    programs' [main]s. *)

From S2P Require Import Prelude Layer.

(** How a program ends: exit codes 0, 1 and 2, or a panic. *)
Inductive exit := Success | Failure | Usage | Panicked.

#[export] Instance exit_eq_dec : EqDecision exit.
Proof. solve_decision. Defined.

(** [if ok { ExitCode::SUCCESS } else { ExitCode::FAILURE }] *)
Definition verdict (ok : bool) : exit := if ok then Success else Failure.

(** The body of a [main] whose early returns are the [Err]s. *)
Definition run_main (r : result exit exit) : exit := match r with Ok e | Err e => e end.

(** A panic ends the program, an error with exit code 1. *)
Definition or_failure {E A} (r : result (err E) A) : result exit A :=
  match r with
  | Ok a => Ok a
  | Err Panic => Err Panicked
  | Err (Error _) => Err Failure
  end.

(** An operation that can only panic. *)
Definition or_panic {A} (o : option A) : result exit A := ok_or Panicked o.

(** An operation whose error ends the program with [e]. *)
Definition or_exit {E A} (e : exit) (r : result E A) : result exit A :=
  match r with Ok a => Ok a | Err _ => Err e end.

Lemma Ok_inj {E A} (x y : A) : Ok (E:=E) x = Ok y → x = y.
Proof. by intros [=]. Qed.

Lemma or_failure_Ok {E A} (r : result (err E) A) a : or_failure r = Ok a → r = Ok a.
Proof. by destruct r as [|[|]]; intros [=]; subst. Qed.

Lemma or_exit_Ok {E A} e (r : result E A) a : or_exit e r = Ok a → r = Ok a.
Proof. by destruct r; intros [=]; subst. Qed.

(** ** Early returns *)

(** No early return claims success. *)
Definition loud {A} (r : result exit A) : Prop := r ≠ Err Success.

Lemma loud_Ok {A} (a : A) : loud (Ok a).
Proof. done. Qed.
Lemma loud_bind {A B} (m : result exit A) (f : A → result exit B) :
  loud m → (∀ a, m = Ok a → loud (f a)) → loud (m ≫= f).
Proof. destruct m; cbn; [auto|]. intros Hm _ [= ->]. by apply Hm. Qed.
Lemma loud_ok_or {A} (e : exit) (o : option A) : e ≠ Success → loud (ok_or e o).
Proof. destruct o; [done|]. by intros He [= ->]. Qed.

Lemma run_main_Success r : loud r → run_main r = Success → r = Ok Success.
Proof. destruct r as [e|e]; cbn; [by intros _ ->|]. intros Hl ->. by destruct Hl. Qed.

Lemma loud_or_failure {E A} (r : result (err E) A) : loud (or_failure r).
Proof. by destruct r as [|[|]]. Qed.
Lemma loud_or_panic {A} (o : option A) : loud (or_panic o).
Proof. by apply loud_ok_or. Qed.
Lemma loud_or_exit {E A} e (r : result E A) : e ≠ Success → loud (or_exit e r).
Proof. destruct r; [done|]. by intros He [= ->]. Qed.

Create HintDb loud.
#[export] Hint Resolve loud_Ok loud_bind loud_ok_or loud_or_failure loud_or_panic loud_or_exit : loud.

(** ** Running checks *)

(** Checks that update counters, where [passed] says that none has failed so
    far: [f] lets a run pass exactly when [P] holds. *)
Section checks.
Context {T : Type} (passed : T → bool).

Definition checks (f : T → option T) (P : Prop) : Prop :=
  ∀ t, (∃ t', f t = Some t' ∧ passed t' = true) ↔ passed t = true ∧ P.

Lemma Some_passes (t : T) (P : Prop) : (passed t = true ↔ P) →
  (∃ t', Some t = Some t' ∧ passed t' = true) ↔ P.
Proof. intros <-. split; [by intros (t' & [= <-] & ?)|]. by exists t. Qed.

Lemma checks_id : checks Some True.
Proof. intros t. apply Some_passes. tauto. Qed.

Lemma checks_bind f g P Q : checks f P → checks g Q → checks (λ t, f t ≫= g) (P ∧ Q).
Proof.
  intros Hf Hg t. split.
  - intros (t' & (t1 & H1 & H2)%bind_Some & Ht').
    destruct (proj1 (Hg t1)) as [Ht1 HQ]; [by exists t'|].
    destruct (proj1 (Hf t)) as [Ht HP]; [by exists t1|]. done.
  - intros (Ht & HP & HQ). destruct (proj2 (Hf t)) as (t1 & H1 & Ht1); [done|]. rewrite H1. by apply Hg.
Qed.

Lemma checks_iff f P Q : (P ↔ Q) → checks f P → checks f Q.
Proof. intros H Hf t. by rewrite <- H. Qed.
End checks.
