(* ===== verification/Compare.v ===== *)
(** * Comparing vectors

    What the checking programs share: the largest difference of two vectors
    (the loops of delta/src/main.rs, gdn/src/main.rs and
    gdn/src/bin/qwenrun.rs), the scale it is read against, and the order of
    the logits. *)

From stdpp Require Import sorting.
From S2P Require Import Prelude Float FloatProps Tensor.

(** ** The largest difference *)

Definition pair_dist (p : f32 * f32) : f32 := SFabs (F32.sub p.1 p.2).

Fixpoint max_abs_diff_loop (i : nat) (pairs : list (f32 * f32)) (worst : f32) (at_ : nat) :
    f32 * nat :=
  match pairs with
  | [] => (worst, at_)
  | p :: pairs =>
      let d := pair_dist p in
      if SFltb worst d then max_abs_diff_loop (S i) pairs d i
      else max_abs_diff_loop (S i) pairs worst at_
  end.

(** Over the length of the shorter one. *)
Definition max_abs_diff (a b : vec) : f32 * nat := max_abs_diff_loop 0 (combine a b) fzero 0.

(** [a.iter().fold(0f32, |m, x| m.max(x.abs()))] *)
Definition max_abs (a : vec) : f32 := foldl (λ m x, fmax m (SFabs x)) fzero a.

(** The difference relative to the scale of the expected vector. *)
Definition relative (d : f32) (expect : vec) : f32 :=
  if SFltb fzero (max_abs expect) then F32.div d (max_abs expect) else d.

(** ** The order of the logits *)

(** Larger values first. *)
Definition descending_by (l : vec) (a b : nat) : Prop :=
  SFltb (nth a l fzero) (nth b l fzero) = false.
#[export] Instance descending_by_dec l a b : Decision (descending_by l a b).
Proof. unfold descending_by. apply _. Defined.

(** The indices, sorted by [partial_cmp(..).unwrap()]: every element of a
    vector of two or more is compared, so a NaN panics. *)
Definition order_desc (l : vec) : option (list nat) :=
  if decide (2 ≤ length l)%nat
  then if existsb is_nan l then None else Some (sort_by (descending_by l) (seq 0 (length l)))
  else Some (seq 0 (length l)).

(** ** What the comparison sees *)

Lemma SFleb_ltb x y : is_nan x = false → is_nan y = false → SFleb x y = negb (SFltb y x).
Proof.
  intros Hx Hy. unfold SFleb, SFltb. rewrite !SFcompare_lex by done.
  pose proof (lex_lt_spec (fkey y) (fkey x)) as H. destruct (lex (fkey x) (fkey y)) eqn:E.
  - destruct (lex (fkey y) (fkey x)); try done. by assert (Eq = Gt) by (apply H; done).
  - destruct (lex (fkey y) (fkey x)); try done. by assert (Lt = Gt) by (apply H; done).
  - by rewrite (proj2 H).
Qed.

(** A difference the loop can see: above the tolerance. *)
Definition exceeds (tol : f32) (p : f32 * f32) : Prop := SFltb tol (pair_dist p) = true.
#[export] Instance exceeds_dec tol p : Decision (exceeds tol p).
Proof. unfold exceeds. apply _. Defined.

Lemma max_abs_diff_loop_spec tol pairs : is_nan tol = false → ∀ i worst k, is_nan worst = false →
  let r := max_abs_diff_loop i pairs worst k in
  is_nan r.1 = false ∧
  (SFleb r.1 tol = true ↔ SFleb worst tol = true ∧ Forall (λ p, ¬ exceeds tol p) pairs).
Proof.
  intros Ht. induction pairs as [|p pairs IH]; intros i worst k Hw; cbn zeta; cbn [max_abs_diff_loop].
  { split; [done|]. split; [done|]. by intros [? _]. }
  rewrite Forall_cons. unfold exceeds at 1. destruct (SFltb worst (pair_dist p)) eqn:E.
  - destruct (SFltb_numbers _ _ E) as [_ Hd]. destruct (IH (S i) (pair_dist p) i Hd) as [Hn Hr].
    split; [done|]. rewrite Hr. rewrite !SFleb_ltb, !negb_true_iff, <- !not_true_iff_false by done.
    split; [intros [Hd' ?]|by intros (_ & ? & ?)]. split; [|done]. intros Hc. apply Hd'.
    by eapply SFltb_trans.
  - destruct (IH (S i) worst k Hw) as [Hn Hr]. split; [done|]. rewrite Hr.
    rewrite !SFleb_ltb, !negb_true_iff, <- !not_true_iff_false by done.
    split; [intros [Hw' ?]|by intros (? & _ & ?)]. split; [done|]. split; [|done].
    intros Hc. apply not_true_iff_false in E. apply E. eapply SFltb_le_trans; [|exact Hc|done].
    by apply not_true_is_false.
Qed.

(** The comparison passes exactly when no difference, over the common length, is
    above the tolerance.  A difference that is not a number is above nothing. *)
Theorem max_abs_diff_passes tol a b : is_nan tol = false → SFltb tol fzero = false →
  SFleb (max_abs_diff a b).1 tol = true ↔ Forall (λ p, ¬ exceeds tol p) (combine a b).
Proof.
  intros Ht H0. unfold max_abs_diff.
  destruct (max_abs_diff_loop_spec tol (combine a b) Ht 0%nat fzero 0%nat eq_refl) as [_ ->].
  rewrite SFleb_ltb, H0 by done. naive_solver.
Qed.

(** The index it reports is where the difference is. *)
Lemma max_abs_diff_loop_at pairs : ∀ i worst k d j,
  max_abs_diff_loop i pairs worst k = (d, j) →
  (d, j) = (worst, k) ∨ ∃ n p, j = (i + n)%nat ∧ pairs !! n = Some p ∧ pair_dist p = d.
Proof.
  induction pairs as [|p pairs IH]; intros i worst k d j; cbn [max_abs_diff_loop]; [by left|].
  assert (∀ w m, max_abs_diff_loop (S i) pairs w m = (d, j) →
    (d, j) = (w, m) ∨ ∃ n q, j = (i + n)%nat ∧ (p :: pairs) !! n = Some q ∧ pair_dist q = d) as Hstep.
  { intros w m Hr. destruct (IH _ _ _ _ _ Hr) as [?|(n & q & -> & Hq & Hd)]; [by left|].
    right. exists (S n), q. split; [lia|done]. }
  destruct (SFltb _ _); intros Hr; destruct (Hstep _ _ Hr) as [Heq|?]; try (by left); try (by right).
  injection Heq as -> ->. right. exists 0%nat, p. split; [lia|done].
Qed.

(** Vectors of NaNs agree with everything, and so does an empty one. *)
Lemma max_abs_diff_nan n b : max_abs_diff (replicate n S754_nan) b = (fzero, 0%nat).
Proof.
  unfold max_abs_diff. cut (∀ b i, max_abs_diff_loop i (combine (replicate n S754_nan) b) fzero 0
    = (fzero, 0%nat)); [done|].
  clear b. induction n as [|n IH]; [done|]. intros [|y b] i; [done|]. apply (IH b (S i)).
Qed.

Lemma max_abs_diff_nil a : max_abs_diff a [] = (fzero, 0%nat).
Proof. by destruct a. Qed.

