(* ===== verification/Deltacheck.v ===== *)
(** * deltacheck: the delta rule against recorded cases

    Models qwen35-forward/delta/src/main.rs: finding the cases of a bundle by
    their names, and comparing [forward_prepared] with the two recorded forms.
    [max_abs_diff] is in [Compare].

    What a passing run of deltacheck guarantees, and what it does not. *)

From S2P Require Import Prelude Rstr Utf8 Float FloatProps Tensor Delta Header Bundle Loader Args.
From S2P Require Import Exit Compare.

Definition TOL : f32 := F32.div (F32.of_Z 1) (F32.of_Z 100000).

(** ** The cases of a bundle *)

Record Case := mkCase { case_tag : rstr; case_shape : Shape }.

(** The dimensions read so far. *)
Record Dims := mkDims {
  dim_b : option Z; dim_h : option Z; dim_t : option Z; dim_k : option Z; dim_v : option Z
}.

Definition set_dim (d : Dims) (key : char) (n : Z) : Dims :=
  let '(mkDims b h t k v) := d in
  if decide (key = 66) then mkDims (Some n) h t k v
  else if decide (key = 72) then mkDims b (Some n) t k v
  else if decide (key = 84) then mkDims b h (Some n) k v
  else if decide (key = 75) then mkDims b h t (Some n) v
  else if decide (key = 86) then mkDims b h t k (Some n)
  else d.

(** The loop over the parts of a tag.  The outer [None] is the panic of
    [split_at(1)] inside a character, the inner one a part that is no number. *)
Fixpoint parse_parts (parts : list rstr) (d : Dims) : option (option Dims) :=
  match parts with
  | [] => Some (Some d)
  | part :: parts =>
      if decide (len (utf8 part) < 2) then parse_parts parts d else
      match part with
      | [] => None
      | key :: digits =>
          if decide (len_utf8 key ≠ 1) then None else
          match parse_usize digits with
          | None => Some None
          | Some n => parse_parts parts (set_dim d key n)
          end
      end
  end.

Definition parse_tag (tag : rstr) : option (option Shape) :=
  d ← parse_parts (split_on 95 tag) (mkDims None None None None None);
  Some (
    d ← d;
    b ← dim_b d; t ← dim_t d; h ← dim_h d; k ← dim_k d; v ← dim_v d;
    Some (mkShape (Z.to_nat b) (Z.to_nat t) (Z.to_nat h) (Z.to_nat k) (Z.to_nat v))).

(** The cases of a list of tags; [None] is a panic. *)
Fixpoint cases_of (tags : list rstr) : option (list Case) :=
  match tags with
  | [] => Some []
  | tag :: tags =>
      shape ← parse_tag tag;
      cases ← cases_of tags;
      Some (match shape with Some s => mkCase tag s :: cases | None => cases end)
  end.

Section bundle.
Context {J : Type} `{Libm} (fs : FS) (b : Bundle (J:=J)).

Definition tag_of (name : rstr) : option rstr :=
  rest ← strip_prefix (lit "delta_") name;
  '(tag, _) ← split_once (lit "__") rest;
  Some tag.

(** The tags are a [BTreeSet]. *)
Definition discover : option (list Case) :=
  cases_of (btree_set (omap tag_of (bundle_names b))).

(** ** Checking one case *)

Definition operand (c : Case) (nm : string) : Bundle.outcome vec :=
  read fs b (lit "delta_" ++ case_tag c ++ lit "__" ++ lit nm).

(** One expected tensor against what was computed: [false] when it is absent
    or further than the tolerance. *)
Definition check_expected (c : Case) (nm : string) (mine : vec) : bool :=
  match operand c nm with
  | Ok expect => SFleb (max_abs_diff mine expect).1 TOL
  | Err _ => false
  end.

(** [None] is a panic of [forward_prepared]. *)
Definition check_case (c : Case) : option bool :=
  let s := case_shape c in
  match operand c "q", operand c "k", operand c "v", operand c "g", operand c "beta" with
  | Ok q, Ok k, Ok v, Ok g, Ok beta =>
      let want_g := wmul (wmul (Z.of_nat (sh_b s)) (Z.of_nat (sh_t s))) (Z.of_nat (sh_h s)) in
      let want_q := wmul want_g (Z.of_nat (sh_k s)) in
      let want_v := wmul want_g (Z.of_nat (sh_v s)) in
      if decide (len q ≠ want_q ∨ len k ≠ want_q ∨ len v ≠ want_v ∨ len g ≠ want_g ∨ len beta ≠ want_g)
      then Some false
      else
        '(out, state) ← forward_prepared s q k v g beta;
        Some (forallb (λ form : string * string,
                check_expected c form.1 out && check_expected c form.2 state)
              [("recurrent_out", "recurrent_state"); ("chunked_out", "chunked_state")]%string)
  | _, _, _, _, _ => Some false
  end.

(** The number of cases that failed. *)
Fixpoint count_failures (cases : list Case) : option nat :=
  match cases with
  | [] => Some 0%nat
  | c :: cases =>
      ok ← check_case c; n ← count_failures cases; Some (if ok : bool then n else S n)
  end.

Definition deltacheck (list_only : bool) : exit :=
  match discover with
  | None => Panicked
  | Some [] => Failure
  | Some cases =>
      if list_only then Success else
      match count_failures cases with
      | None => Panicked
      | Some failures => verdict (bool_decide (failures = 0%nat))
      end
  end.
End bundle.

(** The arguments; [open] is [Bundle::open] of a directory. *)
Definition deltacheck_main {J : Type} `{Libm} (fs : FS) (open : rstr → Bundle.outcome (Bundle (J:=J)))
    (args : list rstr) : exit :=
  match first_positional args with
  | None => Usage
  | Some dir =>
      match open dir with
      | Err _ => Failure
      | Ok b => deltacheck fs b (has args (lit "--list"))
      end
  end.

(** * What deltacheck's verdict means *)

(** ** The cases *)

Lemma cases_of_spec tags cases : cases_of tags = Some cases → ∀ c, c ∈ cases ↔
  case_tag c ∈ tags ∧ parse_tag (case_tag c) = Some (Some (case_shape c)).
Proof.
  revert cases. induction tags as [|tag tags IH]; intros cases Hc c; cbn [cases_of] in Hc.
  { injection Hc as <-. rewrite !elem_of_nil. naive_solver. }
  destruct (parse_tag tag) as [shape|] eqn:Ep; [|done]. cbn [mbind option_bind] in Hc.
  destruct (cases_of tags) as [cases'|]; [|done]. cbn [mbind option_bind] in Hc.
  specialize (IH cases' eq_refl c). injection Hc as <-. rewrite elem_of_cons. destruct shape as [s|].
  - rewrite elem_of_cons, IH. split.
    + intros [->|[? ?]]; [split; [by left|done]|split; [by right|done]].
    + intros [[Ht|Ht] Hs]; [left|right; done]. rewrite Ht, Ep in Hs. injection Hs as ->.
      destruct c; cbn in *. by subst.
  - rewrite IH. split; [intros [? ?]; split; [by right|done]|].
    intros [[Ht|Ht] Hs]; [|done]. by rewrite Ht, Ep in Hs.
Qed.

(** A decimal number is one part of a tag and reads back. *)
Definition demo_tag : rstr := lit "B2_H3_T7_K16_V8".
Example demo_tag_parses : parse_tag demo_tag = Some (Some (mkShape 2 7 3 16 8)).
Proof. by vm_compute. Qed.
(** A capture of the model is not mistaken for a case. *)
Example capture_is_no_case : parse_tag (lit "torch_chunk_gated_delta_rule_0") = Some None.
Proof. by vm_compute. Qed.
(** The first character of a part is assumed to be one byte long. *)
Example tag_panics : parse_tag [0xE9; 49] = None.
Proof. by vm_compute. Qed.

(** ** The verdict *)

Section verdict.
Context {J : Type} `{Libm} (fs : FS) (b : Bundle (J:=J)).

(** What one recorded tensor guarantees about the computed one. *)
Definition agrees (c : Case) (nm : string) (mine : vec) : Prop :=
  ∃ expect, operand fs b c nm = Ok expect ∧ Forall (λ p, ¬ exceeds TOL p) (combine mine expect).

Lemma check_expected_agrees c nm mine : check_expected fs b c nm mine = true ↔ agrees c nm mine.
Proof.
  unfold check_expected, agrees. destruct (operand fs b c nm) as [e|err].
  - rewrite max_abs_diff_passes by by vm_compute. naive_solver.
  - naive_solver.
Qed.

(** A case passes exactly when its operands are there with the sizes its name
    announces, the delta rule runs on them, and both recorded forms agree
    with the output and with the final state. *)
Definition case_passes (c : Case) : Prop :=
  ∃ q k v g beta out state,
    operand fs b c "q" = Ok q ∧ operand fs b c "k" = Ok k ∧ operand fs b c "v" = Ok v ∧
    operand fs b c "g" = Ok g ∧ operand fs b c "beta" = Ok beta ∧
    forward_prepared (case_shape c) q k v g beta = Some (out, state) ∧
    agrees c "recurrent_out" out ∧ agrees c "recurrent_state" state ∧
    agrees c "chunked_out" out ∧ agrees c "chunked_state" state.

Lemma delta_case_passes c : check_case fs b c = Some true → case_passes c.
Proof.
  unfold check_case. cbn zeta. intros Hc.
  destruct (operand fs b c "q") as [q|] eqn:Eq; [|done].
  destruct (operand fs b c "k") as [k|] eqn:Ek; [|done].
  destruct (operand fs b c "v") as [v|] eqn:Ev; [|done].
  destruct (operand fs b c "g") as [g|] eqn:Eg; [|done].
  destruct (operand fs b c "beta") as [beta|] eqn:Eb; [|done].
  case_decide; [done|]. destruct (forward_prepared _ _ _ _ _ _) as [[out state]|] eqn:Ef; [|done].
  cbn [mbind option_bind forallb fst snd] in Hc. injection Hc as Hc.
  rewrite !andb_true_iff, !check_expected_agrees in Hc.
  destruct Hc as ((? & ?) & (? & ?) & _). by exists q, k, v, g, beta, out, state.
Qed.

Lemma count_failures_zero cases : count_failures fs b cases = Some 0%nat →
  Forall (λ c, check_case fs b c = Some true) cases.
Proof.
  induction cases as [|c cases IH]; cbn [count_failures]; [constructor|].
  destruct (check_case fs b c) as [[|]|] eqn:E; cbn [mbind option_bind]; [|by destruct (count_failures fs b cases)|done].
  destruct (count_failures fs b cases) as [[|n]|]; cbn [mbind option_bind]; try done.
  intros _. constructor; [done|by apply IH].
Qed.

(** When deltacheck reports a pass, there was a case, every name of the bundle
    that spells one was checked, and every one of them passed. *)
Theorem deltacheck_pass : deltacheck fs b false = Success →
  ∃ cases, discover b = Some cases ∧ cases ≠ [] ∧
    ∀ name tag s, name ∈ bundle_names b → tag_of name = Some tag →
      parse_tag tag = Some (Some s) → case_passes (mkCase tag s).
Proof.
  unfold deltacheck. intros Hd. destruct (discover b) as [cases|] eqn:E; [|done].
  destruct cases as [|c0 cases0] eqn:Ec; [done|]. rewrite <- Ec in *.
  exists cases. split; [done|]. split; [by subst|]. intros name tag s Hn Ht Hs.
  destruct (count_failures fs b cases) as [[|n]|] eqn:Ef; [|done|done].
  apply count_failures_zero in Ef. rewrite Forall_forall in Ef. apply delta_case_passes, Ef.
  apply (cases_of_spec _ _ E). split; [|done]. cbn [case_tag].
  apply elem_of_btree_set, list_elem_of_omap. eauto.
Qed.
End verdict.
