(* ===== verification/Gdncheck.v ===== *)
(** * gdncheck: the model against a golden bundle

    Models qwen35-forward/gdn/src/main.rs: the checks of one layer, and the
    isolated, chained, single-layer and whole-model modes with their exit
    codes.  What is printed is kept where a decision or a panic depends on it.

    A run of checks passes exactly when every recorded tensor is there, has
    the size of the computed one and no difference above the tolerance; the
    checks cannot panic on what they compare; and the cache does not change
    the verdict on a whole model. *)

From S2P Require Import Prelude Float FloatProps Serde Rstr Sample Tensor Delta Gdn Attention Layer.
From S2P Require Import Model ModelProps Header Safetensors Real RealProps Bundle Loader LoaderProps.
From S2P Require Import Args Exit Compare.
#[local] Open Scope Z_scope.

(** [1e-5f32] *)
Definition TOL : f32 := F32.div (F32.of_Z 1) (F32.of_Z 100000).

Definition tolerance_for (ssm_gain : f64) : f32 := F32.mul TOL (to_f32 (fmax ssm_gain one)).

(** ** One check *)

(** What stands behind the label of a check. *)
Inductive note :=
| Compared
| NotApplicable
| Absent (name : rstr) (e : bundle_error)
| ShapeOff (mine golden : nat).

Record Check := mkCheck {
  ck_n : nat;
  ck_label : rstr;
  ck_note : note;
  ck_abs : f32;
  ck_rel : f32;
  ck_ok : bool;
  ck_missing : bool;
}.

Record Checker := mkChecker { checks : list Check; ck_count : nat; ck_tol : f32 }.

(** A check that counts as a failure. *)
Definition fails (c : Check) : bool := negb (ck_ok c) && negb (ck_missing c).

Module Checker.
Definition new (tol : f32) : Checker := mkChecker [] 0 tol.
Definition push (ck : Checker) (c : Check) : Checker :=
  mkChecker (checks ck ++ [c]) (ck_count ck) (ck_tol ck).

Definition compare (ck : Checker) (label : rstr) (mine golden : vec) : Checker :=
  let n := ck_count ck in
  if decide (length mine ≠ length golden) then
    push ck (mkCheck n label (ShapeOff (length mine) (length golden)) pos_infinity pos_infinity
               false false)
  else
    let abs := (max_abs_diff mine golden).1 in
    push ck (mkCheck n label Compared abs (relative abs golden) (SFleb abs (ck_tol ck)) false).

Section step.
Context {J : Type} (fs : FS) (b : Bundle (J:=J)).

Definition step_opt (ck : Checker) (label : rstr) (mine : vec) (name : option rstr) : Checker :=
  let ck := mkChecker (checks ck) (S (ck_count ck)) (ck_tol ck) in
  let n := ck_count ck in
  match name with
  | None => push ck (mkCheck n label NotApplicable S754_nan S754_nan true true)
  | Some name =>
      match read fs b name with
      | Ok golden => compare ck label mine golden
      | Err e => push ck (mkCheck n label (Absent name e) pos_infinity pos_infinity false false)
      end
  end.

Definition step (ck : Checker) (label : rstr) (mine : vec) (name : rstr) : Checker :=
  step_opt ck label mine (Some name).
End step.

Definition failed (ck : Checker) : nat := length (filter (λ c, fails c = true) (checks ck)).
Definition first_failure (ck : Checker) : option Check :=
  snd <$> list_find (λ c, fails c = true) (checks ck).

(** [iter.max_by(|x, y| x.abs.partial_cmp(&y.abs).unwrap())]: the last of the
    largest; the outer [None] is the panic on a NaN. *)
Definition worst (ck : Checker) : option (option Check) :=
  match filter (λ c, ck_missing c = false) (checks ck) with
  | [] => Some None
  | c :: cs =>
      Some <$> foldl (λ m c,
        m ← m;
        _ ← assert_ (is_nan (ck_abs m) = false ∧ is_nan (ck_abs c) = false);
        Some (if SFltb (ck_abs c) (ck_abs m) then m else c)) (Some c) cs
  end.

Definition out_abs (ck : Checker) : f32 := default S754_nan (ck_abs <$> last (checks ck)).

Inductive description := DFail (c : Check) | DWorst (c : Check) | DNothing.

Definition describe (ck : Checker) : option (description * f32) :=
  match first_failure ck with
  | Some f => Some (DFail f, ck_abs f)
  | None =>
      w ← worst ck;
      Some (match w with Some w => (DWorst w, ck_abs w) | None => (DNothing, S754_nan) end)
  end.
End Checker.

(** ** One layer *)

(** A comparison: its label, the tensor of this implementation, and the name of
    the recorded one. *)
Definition check_step : Type := (rstr * vec * option rstr)%type.

(** The steps a mixer is checked with. *)
Definition mixer_steps (c : LayerCapture) (m : MixerTrace) : list check_step :=
  match m with
  | LinearTrace g =>
      [(lit "in_proj_qkv", gt_in_proj_qkv g, Some (LayerCapture.in_proj_qkv c));
       (lit "conv input (channels-first)", gt_conv_in g, LayerCapture.conv_in c);
       (lit "conv + silu", gt_conv_out g, LayerCapture.conv_out c);
       (lit "in_proj_z", gt_in_proj_z g, Some (LayerCapture.in_proj_z c));
       (lit "in_proj_b", gt_in_proj_b g, Some (LayerCapture.in_proj_b c));
       (lit "in_proj_a", gt_in_proj_a g, Some (LayerCapture.in_proj_a c));
       (lit "q (post-GQA)", gt_q g, LayerCapture.delta_operand c (lit "q"));
       (lit "k (post-GQA)", gt_k g, LayerCapture.delta_operand c (lit "k"));
       (lit "v", gt_v g, LayerCapture.delta_operand c (lit "v"));
       (lit "g (decay)", gt_g g, LayerCapture.delta_operand c (lit "g"));
       (lit "beta (gate)", gt_beta g, LayerCapture.delta_operand c (lit "beta"));
       (lit "delta rule out", gt_delta_out g, LayerCapture.delta_out c);
       (lit "delta rule state", gt_delta_state g, LayerCapture.delta_state c);
       (lit "gated norm", gt_norm g, Some (LayerCapture.mixer_norm c));
       (lit "out_proj", gt_out_proj g, Some (LayerCapture.out_proj c));
       (lit "linear_attn output", gt_out_proj g, Some (LayerCapture.linear_attn c))]
  | FullTrace a =>
      [(lit "q_proj", tr_q_proj a, Some (LayerCapture.q_proj c));
       (lit "q_norm (pre-rope)", tr_q_norm a, Some (LayerCapture.q_norm c));
       (lit "k_proj", tr_k_proj a, Some (LayerCapture.k_proj c));
       (lit "k_norm (pre-rope)", tr_k_norm a, Some (LayerCapture.k_norm c));
       (lit "v_proj", tr_v_proj a, Some (LayerCapture.v_proj c));
       (lit "attn out (post-gate, pre-o_proj)", tr_gated a, Some (LayerCapture.o_proj_in c));
       (lit "o_proj", tr_o_proj a, Some (LayerCapture.o_proj c));
       (lit "self_attn output", tr_o_proj a, Some (LayerCapture.self_attn_out0 c))]
  end.

Definition layer_steps (c : LayerCapture) (tr : LayerTrace) : list check_step :=
  let m := lt_mlp tr in
  (lit "input_layernorm", lt_input_layernorm tr, Some (LayerCapture.input_layernorm c))
  :: mixer_steps c (lt_mixer tr)
  ++ [(lit "post_attention_layernorm", lt_post_attention_layernorm tr,
        Some (LayerCapture.post_attention_layernorm c));
      (lit "mlp gate_proj", mt_gate_proj m, Some (LayerCapture.mlp_gate_proj c));
      (lit "mlp up_proj", mt_up_proj m, Some (LayerCapture.mlp_up_proj c));
      (lit "mlp swiglu product", mt_swiglu_product m, Some (LayerCapture.mlp_swiglu c));
      (lit "mlp down_proj", mt_down_proj m, Some (LayerCapture.mlp_down_proj c));
      (lit "mlp output", mt_down_proj m, Some (LayerCapture.mlp c));
      (lit "layer output (both residuals)", lt_out tr, Some (LayerCapture.layer_out c))].

Inductive verify_error := LoadError (e : loader_error) | ForwardError (e : layer_error).

Section gdncheck.
Context {J : Type} `{SerdeJson J} `{Libm} (hw : Z) (fs : FS) (b : Bundle (J:=J)).

Definition run_steps (ck : Checker) (steps : list check_step) : Checker :=
  foldl (λ ck '(label, mine, name), Checker.step_opt fs b ck label mine name) ck steps.

Definition layer_mixer (m : ModelInfo) (layer : nat) : Loader.outcome Mixer :=
  match layer_kind m layer with
  | KLinearAttention =>
      w ← load_gdn_weights fs b m layer; Ok (LinearAttention (mi_gdn m) w)
  | KFullAttention =>
      w ← load_attn_weights fs b m layer; Ok (FullAttention (mi_attn m) w)
  end.

Definition verify_layer (m : ModelInfo) (layer : nat) (input : vec) (rope : option (vec * vec))
    (tol : f32) : result (err verify_error) (Checker * LayerTrace) :=
  let c := LayerCapture.new layer (ModelInfo.ssm_ordinal m layer) in
  lw ← map_err LoadError (load_layer_weights fs b m layer);
  mixer ← map_err LoadError (layer_mixer m layer);
  tr ← map_err ForwardError
    (layer_forward hw mixer lw input (Z.to_nat (mi_b m)) (Z.to_nat (mi_t m)) (mi_eps m) rope);
  Ok (run_steps (Checker.new tol) (layer_steps c tr), tr).

(** ** The modes *)

(** The rotary tables: whether they are off. *)
Definition check_rope (m : ModelInfo) (tol : f32) : result exit bool :=
  match load_rope fs b m with
  | Ok (cos_ref, sin_ref) =>
      '(cos, sin) ← or_panic (build_rope (mi_attn m) (Z.to_nat (mi_t m)) 0);
      let dc := (max_abs_diff cos cos_ref).1 in
      let ds := (max_abs_diff sin sin_ref).1 in
      Ok (negb (SFleb dc tol && SFleb ds tol))
  | Err _ => Ok false
  end.

Definition single_layer (m : ModelInfo) (tol : f32) (layer : Z) : result exit unit :=
  if decide (Z.of_nat (num_layers m) ≤ layer) then Err Usage else
  let layer := Z.to_nat layer in
  input ← (match read fs b (ModelInfo.input_name layer) with Ok v => Ok v | Err _ => Err Failure end);
  rope ← or_failure (load_rope fs b m);
  '(ck, _) ← or_failure (verify_layer m layer input (Some rope) tol);
  if decide (Checker.failed ck = 0%nat) then Ok () else Err Failure.

Section every_layer.
Context (m : ModelInfo) (rope : vec * vec) (tol : f32).

(** A layer fed [input]: whether it failed, and its output when it ran. *)
Definition verified (layer : nat) (input : vec) : result exit (bool * option vec) :=
  match verify_layer m layer input (Some rope) tol with
  | Ok (ck, tr) =>
      _ ← or_panic (Checker.describe ck);
      Ok (bool_decide (0 < Checker.failed ck)%nat, Some (lt_out tr))
  | Err Panic => Err Panicked
  | Err (Error _) => Ok (true, None)
  end.

(** Each layer with its recorded input. *)
Fixpoint isolated (layers : list nat) : result exit bool :=
  match layers with
  | [] => Ok false
  | layer :: layers =>
      bad ← (match read fs b (ModelInfo.input_name layer) with
             | Err _ => Ok true
             | Ok input => '(bad, _) ← verified layer input; Ok bad
             end);
      rest ← isolated layers;
      Ok (bad || rest)
  end.

(** Each layer with the output of the one before. *)
Fixpoint chained_from (layers : list nat) (input : vec) : result exit bool :=
  match layers with
  | [] => Ok false
  | layer :: layers =>
      '(bad, out) ← verified layer input;
      match out with
      | None => Ok true
      | Some input => rest ← chained_from layers input; Ok (bad || rest)
      end
  end.

Definition chained : result exit bool :=
  let run := ModelInfo.chain_layers m in
  first ← or_panic (run !! 0%nat);
  match read fs b (ModelInfo.input_name first) with
  | Ok input => chained_from run input
  | Err _ => Ok true
  end.
End every_layer.

(** ** The whole model *)

Definition model_steps (tr : ModelTrace) : list check_step :=
  (lit "embedding", tr_embedding tr, Some (lit "model__embed_tokens"))
  :: imap (λ i lt, (lit "layer " ++ show_nat (Z.of_nat i) ++ lit " output", lt_out lt,
                    Some (lit "model__layers__" ++ show_nat (Z.of_nat i)))) (tr_layers tr)
  ++ [(lit "final norm", tr_final_norm tr, Some (lit "model__norm"));
      (lit "logits (all positions)", tr_logits tr, Some (lit "lm_head"))].

(** One recorded step: the index [k], the number of tokens that matched and the
    largest logit difference so far. *)
Definition greedy_check (gen : list Z) (traces : list ModelTrace) (k : nat) (st : GreedyStep)
    (acc : nat * f32) : result exit (nat * f32) :=
  let '(token_ok, worst_logit) := acc in
  worst_logit ←
    match read fs b (lit "greedy_step" ++ show_pad2 (Z.of_nat k) ++ lit "__logits") with
    | Ok golden =>
        tr ← or_panic (traces !! k);
        mine ← or_panic (last_logits tr);
        _ ← or_panic (order_desc mine);
        Ok (fmax worst_logit (max_abs_diff mine golden).1)
    | Err _ => Ok worst_logit
    end;
  got ← or_panic (gen !! k);
  _ ← or_panic (traces !! k);
  Ok (if decide (got = gs_argmax_token st) then S token_ok else token_ok, worst_logit).

Fixpoint greedy_checks (gen : list Z) (traces : list ModelTrace) (k : nat) (sts : list GreedyStep)
    (acc : nat * f32) : result exit (nat * f32) :=
  match sts with
  | [] => Ok acc
  | st :: sts => acc ← greedy_check gen traces k st acc; greedy_checks gen traces (S k) sts acc
  end.

Definition whole_model (m : ModelInfo) (tol : f32) (use_cache : bool) : result exit bool :=
  mw ← or_failure (load_model_weights fs b m);
  layers ← or_failure (load_all_layers fs b m);
  let mw := mkModelWeights (embed_tokens mw) (final_norm mw) (lm_head mw) layers in
  let prompt := prompt_ids (b_manifest b) in
  let mcfg := ModelInfo.model_config m in
  let recorded := greedy (b_manifest b) in
  tr ← or_failure (forward hw mcfg mw prompt);
  let ck := run_steps (Checker.new tol) (model_steps tr) in
  let n := length (steps recorded) in
  '(gen, traces) ← or_failure (if use_cache : bool then greedy_cached hw mcfg mw prompt n
                               else Model.greedy hw mcfg mw prompt n);
  '(token_ok, worst_logit) ← greedy_checks gen traces 0 (steps recorded) (0%nat, fzero);
  Ok (bool_decide (0 < Checker.failed ck)%nat
      || (bool_decide (token_ok ≠ n) || SFltb tol worst_logit)
      || bool_decide (prompt ++ gen ≠ final_ids recorded)).

(** [main] after the bundle is open and its sizes are known. *)
Definition gdncheck (args : list rstr) (m : ModelInfo) : exit :=
  let chain := has args (lit "--chain") in
  let do_model := has args (lit "--model") || has args (lit "--greedy") in
  let only := val args (lit "--layer") ≫= parse_usize in
  let tol := tolerance_for (ssm_gain m) in
  run_main (
    rope_off ← check_rope m tol;
    _ ← (match only with
         | Some layer =>
             _ ← single_layer m tol layer;
             if do_model then Ok () else Err Success
         | None => Ok ()
         end);
    rope ← or_failure (load_rope fs b m);
    layers_off ← (match only with
                  | Some _ => Ok false
                  | None =>
                      bad ← isolated m rope tol (seq 0 (num_layers m));
                      bad' ← (if chain then chained m rope tol else Ok false);
                      Ok (bad || bad')
                  end);
    model_off ← (if do_model then whole_model m tol (has args (lit "--cached")) else Ok false);
    Ok (verdict (negb (rope_off || layers_off || model_off)))).
End gdncheck.

(** The arguments; [open] is [Bundle::open] of a directory. *)
Definition gdncheck_main {J : Type} `{SerdeJson J} `{Libm} (hw : Z) (fs : FS)
    (open : rstr → Bundle.outcome (Bundle (J:=J))) (args : list rstr) : exit :=
  match first_positional args with
  | None => Usage
  | Some dir =>
      match open dir with
      | Err _ => Failure
      | Ok b =>
          match load_model b with
          | Ok m => gdncheck hw fs b args m
          | Err Panic => Panicked
          | Err (Error _) => Failure
          end
      end
  end.

(** * What gdncheck's verdict means *)

(** ** The tolerance *)

(** A bound a difference can be compared with: a number, not below zero. *)
Definition tolerance (tol : f32) : Prop := is_nan tol = false ∧ SFltb tol fzero = false.

Lemma binary_round_aux_positive prec emax m e l : 0 ≤ m →
  tolerance (binary_round_aux prec emax false m e l).
Proof.
  intros Hm. split; [by apply binary_round_aux_number|]. unfold binary_round_aux.
  destruct (shr_fexp prec emax m e l) as [r1 e1]. destruct (shr_fexp prec emax _ e1 loc_Exact) as [r2 e2].
  destruct (shr_m r2); [done| |done]. by destruct (_ <=? _).
Qed.

Lemma to_f32_positive x : tolerance x → tolerance (to_f32 x).
Proof.
  destruct x as [[]|[]| |[] m e]; try done; intros [Hx Hs]; unfold to_f32, convert, binary_round;
    try done. destruct (shl_align _ _ _). by apply binary_round_aux_positive.
Qed.

Lemma TOL_mul_positive x : tolerance x → tolerance (F32.mul TOL x).
Proof.
  assert (∃ m e, TOL = S754_finite false m e) as (m & e & ->)
    by (eexists _, _; vm_compute; reflexivity).
  destruct x as [[]|[]| |[] m' e']; try done; intros [_ Hs]; try done.
  unfold F32.mul, SFmul. cbn [xorb]. by apply binary_round_aux_positive.
Qed.

(** Whatever gain the manifest says. *)
Lemma tolerance_for_positive gain : tolerance (tolerance_for gain).
Proof.
  apply TOL_mul_positive, to_f32_positive. unfold fmax.
  destruct gain as [[]|[]| |s m e]; try done; cbn [is_nan].
  destruct (SFltb (S754_finite s m e) one) eqn:E; [done|]. by destruct s.
Qed.

(** ** Checks *)

(** Two vectors of one size without a difference above the tolerance. *)
Definition agree (tol : f32) (mine golden : vec) : Prop :=
  length mine = length golden ∧ Forall (λ p, ¬ exceeds tol p) (combine mine golden).

Section checks.
Context {J : Type} (fs : FS) (b : Bundle (J:=J)).

(** What a step demands. *)
Definition step_passes (tol : f32) (s : check_step) : Prop :=
  match s.2 with
  | None => True
  | Some name => ∃ golden, read fs b name = Ok golden ∧ agree tol s.1.2 golden
  end.

(** What a step adds: one check, which fails exactly when the demand is not met. *)
Lemma step_opt_spec ck label mine name : tolerance (ck_tol ck) →
  ∃ c, Checker.step_opt fs b ck label mine name
    = mkChecker (checks ck ++ [c]) (S (ck_count ck)) (ck_tol ck) ∧
  (fails c = false ↔ step_passes (ck_tol ck) (label, mine, name)) ∧
  (ck_missing c = false → is_nan (ck_abs c) = false).
Proof.
  intros [Hn Hz]. unfold Checker.step_opt, step_passes, Checker.push. cbn [snd fst checks ck_count ck_tol].
  destruct name as [name|]; [|eexists; split; [done|]; split; done].
  destruct (read fs b name) as [golden|e].
  - unfold Checker.compare, agree. cbn [ck_count]. case_decide as Hl; unfold Checker.push;
      cbn [checks ck_count ck_tol].
    { eexists. split; [done|]. split; [|done]. split; [done|]. intros (g & [= <-] & Hg & _). done. }
    eexists. split; [done|]. unfold fails. cbn [ck_ok ck_missing ck_abs negb]. rewrite andb_true_r, negb_false_iff.
    split; [|intros _; by apply (max_abs_diff_loop_spec (ck_tol ck))].
    rewrite max_abs_diff_passes by done. naive_solver.
  - eexists. split; [done|]. split; [|done]. split; [done|]. by intros (g & ? & _).
Qed.

(** Checks in order, one per step. *)
Lemma run_steps_spec steps : ∀ ck, tolerance (ck_tol ck) →
  ∃ cs, run_steps fs b ck steps
    = mkChecker (checks ck ++ cs) (ck_count ck + length steps) (ck_tol ck) ∧
  Forall2 (λ c s, fails c = false ↔ step_passes (ck_tol ck) s) cs steps ∧
  Forall (λ c, ck_missing c = false → is_nan (ck_abs c) = false) cs.
Proof.
  unfold run_steps. induction steps as [|[[label mine] name] steps IH]; intros ck Ht.
  { exists []. cbn. rewrite app_nil_r, Nat.add_0_r. by destruct ck. }
  cbn [foldl]. destruct (step_opt_spec ck label mine name Ht) as (c & -> & Hc & Hnan).
  destruct (IH (mkChecker (checks ck ++ [c]) (S (ck_count ck)) (ck_tol ck)) Ht) as (cs & -> & H1 & H2).
  cbn [checks ck_count ck_tol] in *. exists (c :: cs). rewrite <- app_assoc. cbn [app length].
  split; [f_equal; lia|]. split; by constructor.
Qed.

Lemma failed_zero cs n tol : Checker.failed (mkChecker cs n tol) = 0%nat ↔ Forall (λ c, fails c = false) cs.
Proof.
  unfold Checker.failed. cbn [checks]. rewrite length_zero_iff_nil. induction cs as [|c cs IH]; [done|].
  rewrite filter_cons, Forall_cons, <- IH. destruct (fails c); case_decide; naive_solver.
Qed.

(** A run of checks reports no failure exactly when every step's demand is met. *)
Theorem run_steps_passes tol steps : tolerance tol →
  Checker.failed (run_steps fs b (Checker.new tol) steps) = 0%nat ↔ Forall (step_passes tol) steps.
Proof.
  intros Ht. destruct (run_steps_spec steps (Checker.new tol) Ht) as (cs & -> & H2 & _).
  rewrite failed_zero. cbn [checks Checker.new app ck_tol] in *. clear Ht.
  induction H2 as [|c s cs steps Hcs _ IH]; [done|]. by rewrite !Forall_cons, Hcs, IH.
Qed.

(** [max_by] with its [unwrap] does not panic on numbers. *)
Lemma worst_total ck : Forall (λ c, ck_missing c = false → is_nan (ck_abs c) = false) (checks ck) →
  is_Some (Checker.worst ck).
Proof.
  unfold Checker.worst. intros Hall.
  assert (Forall (λ c, is_nan (ck_abs c) = false) (filter (λ c, ck_missing c = false) (checks ck))) as Hf.
  { apply Forall_forall. intros c [Hm Hin]%list_elem_of_filter. rewrite Forall_forall in Hall. by apply Hall. }
  destruct (filter _ _) as [|c cs]; [by eexists|]. apply Forall_cons in Hf as [Hc Hcs].
  revert c Hc. induction Hcs as [|c' cs Hc' _ IH]; intros c Hc; cbn [foldl]; [by eexists|].
  cbn [mbind option_bind]. unfold assert_. rewrite decide_True by done. cbn [mbind option_bind].
  destruct (SFltb _ _); by apply IH.
Qed.

(** Describing a layer's checks never panics, although it unwraps comparisons of
    floats and the checks hold NaNs where nothing was compared. *)
Theorem describe_total tol steps : tolerance tol →
  is_Some (Checker.describe (run_steps fs b (Checker.new tol) steps)).
Proof.
  intros Ht. unfold Checker.describe. destruct (Checker.first_failure _); [by eexists|].
  destruct (run_steps_spec steps (Checker.new tol) Ht) as (cs & -> & _ & Hn).
  destruct (worst_total (mkChecker (checks (Checker.new tol) ++ cs)
    (ck_count (Checker.new tol) + length steps) (ck_tol (Checker.new tol))) Hn) as [w ->].
  cbn [mbind option_bind]. by eexists.
Qed.
End checks.

(** ** One layer *)

Section modes.
Context {J : Type} `{SerdeJson J} `{Libm} (hw : Z) (fs : FS) (b : Bundle (J:=J)).

(** The layer runs on [input], giving [tr], and every intermediate agrees with
    what the bundle holds for the layer. *)
Definition layer_agrees (m : ModelInfo) (rope : vec * vec) (tol : f32) (layer : nat) (input : vec)
    (tr : LayerTrace) : Prop :=
  ∃ ck, verify_layer hw fs b m layer input (Some rope) tol = Ok (ck, tr) ∧
    Forall (step_passes fs b tol)
      (layer_steps (LayerCapture.new layer (ModelInfo.ssm_ordinal m layer)) tr).

Lemma verify_layer_checks m layer input rope tol ck tr :
  verify_layer hw fs b m layer input rope tol = Ok (ck, tr) →
  ck = run_steps fs b (Checker.new tol)
         (layer_steps (LayerCapture.new layer (ModelInfo.ssm_ordinal m layer)) tr).
Proof. unfold verify_layer. intros Hv. inv_ok. done. Qed.

Lemma verified_agrees m rope tol layer input out : tolerance tol →
  verified hw fs b m rope tol layer input = Ok (false, out) →
  ∃ tr, out = Some (lt_out tr) ∧ layer_agrees m rope tol layer input tr.
Proof.
  intros Ht. unfold verified. destruct (verify_layer _ _ _ _ _ _ _ _) as [[ck tr]|[|e]] eqn:E; [|done..].
  destruct (or_panic _); [|done]. cbn [mbind result_bind]. intros [= Hf <-].
  exists tr. split; [done|]. exists ck. split; [exact E|].
  apply run_steps_passes; [done|]. rewrite <- (verify_layer_checks _ _ _ _ _ _ _ E).
  apply bool_decide_eq_false in Hf. lia.
Qed.

Lemma isolated_agrees m rope tol layers : tolerance tol →
  isolated hw fs b m rope tol layers = Ok false →
  ∀ layer, layer ∈ layers → ∃ input tr, read fs b (ModelInfo.input_name layer) = Ok input ∧
    layer_agrees m rope tol layer input tr.
Proof.
  intros Ht. induction layers as [|l layers IH]; cbn [isolated]; [by intros _ ? ?%elem_of_nil|].
  intros (bad & Hl & (rest & Hr & [= [Hb Hrest]%orb_false_iff])%bind_Ok)%bind_Ok layer Hin. subst.
  apply elem_of_cons in Hin as [->|Hin]; [|by apply IH].
  destruct (read fs b (ModelInfo.input_name l)) as [input|]; [|done].
  apply bind_Ok in Hl as ([bad out] & Hv & [= ->]).
  apply verified_agrees in Hv as (tr & _ & Ha); [|done]. by exists input, tr.
Qed.

(** Each layer agrees, fed with the output of the one before. *)
Fixpoint chain_agrees (m : ModelInfo) (rope : vec * vec) (tol : f32) (layers : list nat)
    (input : vec) : Prop :=
  match layers with
  | [] => True
  | layer :: layers =>
      ∃ tr, layer_agrees m rope tol layer input tr ∧ chain_agrees m rope tol layers (lt_out tr)
  end.

Lemma chained_from_agrees m rope tol layers : tolerance tol → ∀ input,
  chained_from hw fs b m rope tol layers input = Ok false → chain_agrees m rope tol layers input.
Proof.
  intros Ht. induction layers as [|l layers IH]; intros input; cbn [chained_from chain_agrees]; [done|].
  intros ([bad out] & Hv & Hr)%bind_Ok. cbn beta iota in Hr. destruct out as [o|].
  - apply bind_Ok in Hr as (rest & Hr & [= [-> ->]%orb_false_iff]).
    apply verified_agrees in Hv as (tr & [= ->] & Ha); [|done]. exists tr. split; [done|]. by apply IH.
  - done.
Qed.

(** ** The whole model *)

Lemma max_abs_diff_number x y : is_nan (max_abs_diff x y).1 = false.
Proof. by apply (max_abs_diff_loop_spec fzero). Qed.

Lemma fmax_exceeds tol x y : is_nan tol = false → is_nan x = false → is_nan y = false →
  is_nan (fmax x y) = false ∧
  (SFltb tol (fmax x y) = false → SFltb tol x = false ∧ SFltb tol y = false).
Proof.
  intros Ht Hx Hy. unfold fmax. rewrite Hx, Hy. destruct (SFltb x y) eqn:E; (split; [done|]); intros Hl.
  - split; [|done]. destruct (SFltb tol x) eqn:E'; [|done]. by rewrite (SFltb_trans tol x y) in Hl.
  - split; [done|]. destruct (SFltb tol y) eqn:E'; [|done].
    by rewrite (SFltb_lt_le_trans tol y x) in Hl.
Qed.

(** A step's logits, when they are recorded, agree over the common length. *)
Definition step_logits (tol : f32) (traces : list ModelTrace) (k : nat) : Prop :=
  ∀ golden, read fs b (lit "greedy_step" ++ show_pad2 (Z.of_nat k) ++ lit "__logits") = Ok golden →
    ∃ tr mine, traces !! k = Some tr ∧ last_logits tr = Some mine ∧
      Forall (λ p, ¬ exceeds tol p) (combine mine golden).

Lemma greedy_check_spec tol gen traces k st ok wl ok' wl' : tolerance tol → is_nan wl = false →
  greedy_check fs b gen traces k st (ok, wl) = Ok (ok', wl') →
  is_nan wl' = false ∧ (ok' ≤ S ok)%nat ∧
  (ok' = S ok → gen !! k = Some (gs_argmax_token st)) ∧
  (SFltb tol wl' = false → SFltb tol wl = false ∧ step_logits tol traces k).
Proof.
  intros [Htn Htz] Hwl. unfold greedy_check, step_logits.
  intros (w & Hw & (got & Hg & (tr & Htr & [= <- <-])%bind_Ok)%bind_Ok)%bind_Ok.
  apply ok_or_Ok in Hg, Htr.
  assert (is_nan w = false ∧ (SFltb tol w = false → SFltb tol wl = false ∧ step_logits tol traces k))
    as [Hn Hl].
  { unfold step_logits. destruct (read fs b _) as [golden|e].
    - apply bind_Ok in Hw as (tr' & Htr' & (mine & Hm & (o & _ & [= <-])%bind_Ok)%bind_Ok).
      apply ok_or_Ok in Htr', Hm.
      destruct (fmax_exceeds tol wl (max_abs_diff mine golden).1) as [? Hf];
        [done|done|apply max_abs_diff_number|].
      split; [done|]. intros [? Hd]%Hf. split; [done|]. intros g [= <-]. exists tr', mine.
      split; [done|]. split; [done|]. apply max_abs_diff_passes; [done..|].
      by rewrite SFleb_ltb, Hd by (done || apply max_abs_diff_number).
    - injection Hw as <-. split; [done|]. intros ?. split; [done|]. done. }
  split; [done|]. split; [case_decide; lia|]. split; [|exact Hl].
  case_decide as Hd; [by subst|lia].
Qed.

Lemma greedy_checks_spec tol gen traces sts : tolerance tol → ∀ k ok wl ok' wl', is_nan wl = false →
  greedy_checks fs b gen traces k sts (ok, wl) = Ok (ok', wl') →
  (ok' ≤ ok + length sts)%nat ∧
  (ok' = ok + length sts → ∀ i st, sts !! i = Some st → gen !! (k + i) = Some (gs_argmax_token st))%nat ∧
  (SFltb tol wl' = false →
   SFltb tol wl = false ∧ ∀ i, (i < length sts)%nat → step_logits tol traces (k + i)).
Proof.
  intros Ht. induction sts as [|st sts IH]; intros k ok wl ok' wl' Hwl; cbn [greedy_checks].
  { intros [= <- <-]. cbn [length]. split; [lia|]. split; [done|]. intros ?. split; [done|]. lia. }
  intros ([ok1 wl1] & Hc & Hr)%bind_Ok.
  destruct (greedy_check_spec tol _ _ _ _ _ _ _ _ Ht Hwl Hc) as (Hn1 & Hle & Htok & Hlog).
  destruct (IH (S k) ok1 wl1 ok' wl' Hn1 Hr) as (Hle' & Htok' & Hlog'). cbn [length].
  split; [lia|]. split.
  - intros He i st' Hi. destruct i as [|i]; cbn in Hi.
    + rewrite Nat.add_0_r. injection Hi as <-. apply Htok. lia.
    + replace (k + S i)%nat with (S k + i)%nat by lia. apply Htok'; [lia|done].
  - intros [Hw1 Hrest]%Hlog'. destruct (Hlog Hw1) as [? Hk]. split; [done|]. intros [|i] Hi.
    + by rewrite Nat.add_0_r.
    + replace (k + S i)%nat with (S k + i)%nat by lia. apply Hrest. lia.
Qed.

(** The model the bundle holds, with its layers attached. *)
Definition bundle_weights (m : ModelInfo) (w : ModelWeights) : Prop :=
  ∃ mw ls, load_model_weights fs b m = Ok mw ∧ load_all_layers fs b m = Ok ls ∧
    w = mkModelWeights (embed_tokens mw) (final_norm mw) (lm_head mw) ls.

(** The whole pass agrees with the bundle, decoding generates exactly the
    recorded tokens, and each recorded step's logits agree. *)
Definition model_agrees (m : ModelInfo) (tol : f32) (use_cache : bool) : Prop :=
  let prompt := prompt_ids (b_manifest b) in
  let recorded := greedy (b_manifest b) in
  let cfg := ModelInfo.model_config m in
  let n := length (steps recorded) in
  ∃ w tr gen traces, bundle_weights m w ∧
    forward hw cfg w prompt = Ok tr ∧ Forall (step_passes fs b tol) (model_steps tr) ∧
    (if use_cache then greedy_cached hw cfg w prompt n else Model.greedy hw cfg w prompt n)
      = Ok (gen, traces) ∧
    prompt ++ gen = final_ids recorded ∧
    (∀ k st, steps recorded !! k = Some st → gen !! k = Some (gs_argmax_token st)) ∧
    (∀ k, (k < n)%nat → step_logits tol traces k).

Lemma whole_model_agrees m tol use_cache : tolerance tol →
  whole_model hw fs b m tol use_cache = Ok false → model_agrees m tol use_cache.
Proof.
  intros Ht. unfold whole_model. cbn zeta.
  intros (mw & Hmw & (ls & Hls & (tr & Htr & ([gen traces] & Hg & Hr)%bind_Ok)%bind_Ok)%bind_Ok)%bind_Ok.
  cbn beta match in Hr. apply bind_Ok in Hr as ([ok wl] & Hc & Hr).
  apply Ok_inj in Hr. rewrite !orb_false_iff in Hr. destruct Hr as ((Hf & Ht1 & Hw) & Hids).
  apply or_failure_Ok in Hmw, Hls, Htr, Hg. apply bool_decide_eq_false in Hf, Ht1, Hids.
  apply dec_stable in Ht1, Hids.
  destruct (greedy_checks_spec tol gen traces _ Ht 0 0 fzero ok wl eq_refl Hc) as (_ & Htok & Hlog).
  eexists _, tr, gen, traces. split; [by exists mw, ls|]. split; [exact Htr|].
  split; [apply run_steps_passes; [done|lia]|]. split; [by destruct use_cache|].
  split; [done|].
  split; [apply Htok; lia|]. by apply Hlog.
Qed.

(** What gdncheck reads of the traces is the logits of their last position. *)
Lemma greedy_checks_ext gen traces traces' sts : last_logits <$> traces = last_logits <$> traces' →
  ∀ k acc, greedy_checks fs b gen traces k sts acc = greedy_checks fs b gen traces' k sts acc.
Proof.
  intros Hl. assert (∀ k, last_logits <$> traces !! k = last_logits <$> traces' !! k) as Hk.
  { intros k. by rewrite <- !list_lookup_fmap, Hl. }
  induction sts as [|st sts IH]; intros k [ok wl]; [done|]. cbn [greedy_checks].
  assert (greedy_check fs b gen traces k st (ok, wl) = greedy_check fs b gen traces' k st (ok, wl)) as ->.
  { unfold greedy_check. specialize (Hk k). destruct (traces !! k), (traces' !! k); try done.
    cbn [or_panic ok_or mbind result_bind] in *. injection Hk as Hk.
    destruct (read _ _ _); cbn [or_panic ok_or mbind result_bind]; [by rewrite Hk|done]. }
  destruct (greedy_check _ _ _ _ _ _ _); [|done]. cbn [mbind result_bind]. apply IH.
Qed.

(** C15. The cache changes nothing: on a bundle that loads, checking the whole model
    with the cache and without gives the same outcome, be it a pass, a failure
    or an early exit. *)
Theorem whole_model_cached m tol : load_model b = Ok m → info_small m →
  Forall (λ id, 0 ≤ id) (prompt_ids (b_manifest b)) →
  whole_model hw fs b m tol true = whole_model hw fs b m tol false.
Proof.
  intros Hm Hs Hp. unfold whole_model. cbn zeta.
  destruct (load_model_weights fs b m) as [mw|[|]] eqn:Hmw; [|done..].
  destruct (load_all_layers fs b m) as [ls|[|]] eqn:Hls; [|done..].
  cbn [or_failure mbind result_bind].
  set (w := mkModelWeights _ _ _ _).
  destruct (forward hw (ModelInfo.model_config m) w (prompt_ids (b_manifest b))) as [tr|[|]] eqn:Hf; [|done..].
  destruct (forward_valid _ _ _ _ _ Hp Hf) as [Hne Hv].
  destruct (greedy_both hw (ModelInfo.model_config m) w (prompt_ids (b_manifest b))
    (length (steps (greedy (b_manifest b)))) (bundle_wf fs b m mw ls Hm Hs Hmw Hls) Hne Hv)
    as (gen & trs & trs' & -> & -> & _ & _ & Hl & _).
  cbn [or_failure mbind result_bind]. by rewrite (greedy_checks_ext gen trs trs' _ Hl).
Qed.

(** ** The verdict *)

Lemma check_rope_loud m tol : loud (check_rope fs b m tol).
Proof. unfold check_rope. destruct (load_rope _ _ _) as [[]|]; [|done]. apply loud_bind; [auto with loud|]. by intros []. Qed.

Lemma verified_loud m rope tol layer input : loud (verified hw fs b m rope tol layer input).
Proof.
  unfold verified. destruct (verify_layer _ _ _ _ _ _ _ _) as [[]|[|]]; [|done..].
  apply loud_bind; auto with loud.
Qed.

Lemma isolated_loud m rope tol layers : loud (isolated hw fs b m rope tol layers).
Proof.
  induction layers as [|l layers IH]; cbn [isolated]; [done|]. apply loud_bind; [|intros; apply loud_bind; auto with loud].
  destruct (read _ _ _); [|done]. apply loud_bind; [apply verified_loud|]. by intros [].
Qed.

Lemma chained_from_loud m rope tol layers : ∀ input, loud (chained_from hw fs b m rope tol layers input).
Proof.
  induction layers as [|l layers IH]; intros input; cbn [chained_from]; [done|].
  apply loud_bind; [apply verified_loud|]. intros [bad [o|]] _; [|done]. apply loud_bind; auto with loud.
Qed.

Lemma chained_loud m rope tol : loud (chained hw fs b m rope tol).
Proof.
  unfold chained. apply loud_bind; [auto with loud|]. intros first _.
  destruct (read _ _ _); [apply chained_from_loud|done].
Qed.

Lemma greedy_checks_loud gen traces sts : ∀ k acc, loud (greedy_checks fs b gen traces k sts acc).
Proof.
  induction sts as [|st sts IH]; intros k [ok wl]; cbn [greedy_checks]; [done|].
  apply loud_bind; [|auto]. unfold greedy_check. apply loud_bind.
  - destruct (read _ _ _); [|done]. do 3 (apply loud_bind; [auto with loud|intros ? _]). done.
  - intros ? _. do 2 (apply loud_bind; [auto with loud|intros ? _]). done.
Qed.

Lemma whole_model_loud m tol use_cache : loud (whole_model hw fs b m tol use_cache).
Proof.
  unfold whole_model. cbn zeta. do 3 (apply loud_bind; [auto with loud|intros ? _]).
  apply loud_bind; [auto with loud|intros [gen traces] _].
  apply loud_bind; [apply greedy_checks_loud|]. by intros [].
Qed.

Definition rope_agrees (m : ModelInfo) (tol : f32) (rope : vec * vec) : Prop :=
  ∃ cos sin, build_rope (mi_attn m) (Z.to_nat (mi_t m)) 0 = Some (cos, sin) ∧
    Forall (λ p, ¬ exceeds tol p) (combine cos rope.1) ∧
    Forall (λ p, ¬ exceeds tol p) (combine sin rope.2).

Lemma check_rope_agrees m tol rope : tolerance tol → load_rope fs b m = Ok rope →
  check_rope fs b m tol = Ok false → rope_agrees m tol rope.
Proof.
  intros [Hn Hz] Hl. unfold check_rope. rewrite Hl. destruct rope as [rc rs].
  intros ([cos sin] & Hb & Hr)%bind_Ok. apply ok_or_Ok in Hb. apply Ok_inj in Hr.
  cbn beta match in Hr. apply negb_false_iff, andb_true_iff in Hr. rewrite !max_abs_diff_passes in Hr by done.
  exists cos, sin. by split.
Qed.

(** C14. When gdncheck, run without a number after [--layer], reports a pass, no
    comparison exceeds its tolerance: not the rotary tables, not any recorded
    intermediate of any layer fed its recorded input, and with [--chain] and
    [--model] (or [--greedy]) not the layers fed with each other's outputs nor
    the whole model with its decoding.  Recordings agree ([agree]) when they
    have one length and no difference is above the tolerance: a difference that
    is not a number passes.  A run of a single layer passes without
    the rotary tables ([CheckWitness.layer_mode_ignores_rope]). *)
Theorem gdncheck_pass args m : val args (lit "--layer") ≫= parse_usize = None →
  gdncheck hw fs b args m = Success →
  let tol := tolerance_for (ssm_gain m) in
  ∃ rope, load_rope fs b m = Ok rope ∧ rope_agrees m tol rope ∧
    (∀ layer, (layer < num_layers m)%nat →
      ∃ input tr, read fs b (ModelInfo.input_name layer) = Ok input ∧
        layer_agrees m rope tol layer input tr) ∧
    (has args (lit "--chain") = true → (0 < num_layers m)%nat →
      ∃ input, read fs b (lit "model__embed_tokens") = Ok input ∧
        chain_agrees m rope tol (seq 0 (num_layers m)) input) ∧
    (has args (lit "--model") || has args (lit "--greedy") = true →
      model_agrees m tol (has args (lit "--cached"))).
Proof.
  intros Hl Hrun. pose proof (tolerance_for_positive (ssm_gain m)) as Ht. cbn zeta.
  unfold gdncheck in Hrun. rewrite Hl in Hrun. cbn zeta in Hrun.
  set (tol := tolerance_for _) in *. apply run_main_Success in Hrun.
  2:{ apply loud_bind; [apply check_rope_loud|intros ? _]. apply loud_bind; [done|intros ? _].
      apply loud_bind; [auto with loud|intros ? _]. apply loud_bind.
      - apply loud_bind; [apply isolated_loud|intros ? _]. apply loud_bind; [|done].
        destruct (has args (lit "--chain")); [apply chained_loud|done].
      - intros ? _. apply loud_bind; [|done]. destruct (has args (lit "--model") || _); [apply whole_model_loud|done]. }
  apply bind_Ok in Hrun as (off & Hoff & Hrun). cbn [mbind result_bind] in Hrun.
  apply bind_Ok in Hrun as (rope & Hrope & Hrun).
  apply bind_Ok in Hrun as (layers_off & (bad & Hiso & (bad' & Hch & Hlo)%bind_Ok)%bind_Ok & Hrun).
  apply bind_Ok in Hrun as (model_off & Hmodel & Hrun).
  apply Ok_inj in Hlo, Hrun. subst layers_off.
  destruct off, bad, bad', model_off; try done. clear Hrun. apply or_failure_Ok in Hrope.
  exists rope. split; [done|]. split; [by apply check_rope_agrees|].
  split; [intros layer Hlt; apply (isolated_agrees _ _ _ _ Ht Hiso), elem_of_seq; lia|]. split.
  - intros Hc Hpos. rewrite Hc in Hch. unfold chained, ModelInfo.chain_layers in Hch.
    destruct (num_layers m) as [|n]; [lia|]. cbn [seq lookup list_lookup or_panic ok_or mbind result_bind] in Hch.
    destruct (read fs b _) as [input|] eqn:Hi; [|done]. exists input. split; [done|].
    by apply chained_from_agrees.
  - intros Hm. rewrite Hm in Hmodel. by apply whole_model_agrees.
Qed.
End modes.
