(* ===== verification/Bundlecmp.v ===== *)
(** * bundlecmp: a candidate bundle against a golden one

    Models qwen35-forward/bundle/src/main.rs: the arguments, the comparison of
    two bundles with its verdict, the self-test, and the exit codes of the two
    commands that only report.

    The self-test passes exactly on readable, finite bundles.  A passing
    comparison bounds every tensor that both bundles could be read for; a
    tensor that cannot be read is passed over, so a copied manifest without
    any tensor passes. *)

From stdpp Require Import gmap sorting.
From S2P Require Import Prelude Float FloatProps Rstr Tensor Header Safetensors Bundle BundleProps.
From S2P Require Import Layer Args Exit Compare.
#[local] Open Scope Z_scope.

(** ** Arguments *)

(** The value after a flag. *)
Definition flag (args : list rstr) (name : rstr) : option rstr := val args name.

Definition value_flags : list rstr := lit <$> ["--group"; "--max-rel"; "--top"]%string.

Definition positional (args : list rstr) (n : nat) : option rstr :=
  positionals value_flags args !! n.

(** Larger relative differences first. *)
Definition rel_desc (a b : TensorDiff) : Prop := SFltb (max_rel a) (max_rel b) = false.
#[local] Instance rel_desc_dec a b : Decision (rel_desc a b).
Proof. unfold rel_desc. apply _. Defined.

Section commands.
Context {J : Type} (fs : FS) (open : rstr → Bundle.outcome (Bundle (J:=J))).

(** ** Reports *)

(** The tensors and bytes of each group. *)
Definition group_sizes (ts : list TensorEntry) : gmap rstr (Z * Z) :=
  foldl (λ groups t,
    let '(n, bytes) := default (0, 0) (groups !! te_group t) in
    <[te_group t := (wadd n 1, wadd bytes (te_nbytes t))]> groups) ∅ ts.

Definition cmd_summary (args : list rstr) : exit :=
  run_main (
    dir ← ok_or Usage (positional args 0);
    _ ← or_exit Failure (open dir);
    Ok Success).

Definition cmd_show (args : list rstr) : exit :=
  run_main (
    dir ← ok_or Usage (positional args 0);
    name ← ok_or Usage (positional args 1);
    b ← or_exit Failure (open dir);
    entry ← ok_or Failure (bundle_entry b name);
    _ ← or_exit Failure (read_entry fs b entry);
    Ok Success).

(** ** Comparing *)

(** [1e-5f32] *)
Definition default_max_rel : f32 := F32.div (F32.of_Z 1) (F32.of_Z 100000).

Record Tally := mkTally {
  ta_compared : nat;
  ta_identical : nat;
  ta_diffs : list TensorDiff;
  ta_missing : list rstr;
}.

(** With [--group], the tensors of the other groups are passed over. *)
Definition out_of_group (group : option rstr) (entry : TensorEntry) : bool :=
  match group with Some gr => bool_decide (te_group entry ≠ gr) | None => false end.

(** One tensor of the golden bundle [g]. *)
Definition compare_entry (g c : Bundle (J:=J)) (group : option rstr) (t : Tally)
    (entry : TensorEntry) : Tally :=
  let '(mkTally compared identical diffs missing) := t in
  if out_of_group group entry then t else
  match bundle_entry c (te_name entry) with
  | None => mkTally compared identical diffs (missing ++ [te_name entry])
  | Some centry =>
      match read_entry fs g entry with
      | Err _ => t
      | Ok gv =>
          match read_entry fs c centry with
          | Err _ => t
          | Ok cv =>
              match diff (te_name entry) (te_shape entry) gv cv with
              | None => mkTally (S compared) (S identical) diffs missing
              | Some d => mkTally (S compared) identical (diffs ++ [d]) missing
              end
          end
      end
  end.

Definition compare_entries (g c : Bundle (J:=J)) (group : option rstr) : Tally :=
  foldl (compare_entry g c group) (mkTally 0 0 [] []) (tensors (b_manifest g)).

Definition worst_rel (diffs : list TensorDiff) : f32 :=
  match sort_by rel_desc diffs with
  | d :: _ => max_rel d
  | [] => fzero
  end.

Definition compare_ok (g c : Bundle (J:=J)) (group : option rstr) (tol : f32) : bool :=
  let t := compare_entries g c group in
  let td := diff_tokens (b_manifest g) (b_manifest c) in
  let g_bad := check_token_selfconsistency fs g in
  let c_bad := check_token_selfconsistency fs c in
  SFleb (worst_rel (ta_diffs t)) tol
  && bool_decide (first_divergence td = None)
  && bool_decide (ta_missing t = [])
  && bool_decide (g_bad = [])
  && bool_decide (c_bad = []).

Definition cmd_compare (args : list rstr) : exit :=
  run_main (
    gdir ← ok_or Usage (positional args 0);
    cdir ← ok_or Usage (positional args 1);
    let group := flag args (lit "--group") in
    let tol := default default_max_rel (flag args (lit "--max-rel") ≫= parse_f32) in
    g ← or_exit Failure (open gdir);
    c ← or_exit Failure (open cdir);
    Ok (verdict (compare_ok g c group tol))).

(** ** The self-test *)

(** The tensors that are not equal to themselves. *)
Fixpoint selftest_from (g : Bundle (J:=J)) (ts : list TensorEntry) : result exit nat :=
  match ts with
  | [] => Ok 0%nat
  | entry :: ts =>
      v ← or_exit Failure (read_entry fs g entry);
      let bad := match diff (te_name entry) (te_shape entry) v v with Some _ => 1%nat | None => 0%nat end in
      nonzero ← selftest_from g ts;
      Ok (bad + nonzero)%nat
  end.

Definition cmd_selftest (args : list rstr) : exit :=
  run_main (
    dir ← ok_or Usage (positional args 0);
    g ← or_exit Failure (open dir);
    nonzero ← selftest_from g (tensors (b_manifest g));
    let td := diff_tokens (b_manifest g) (b_manifest g) in
    Ok (verdict (bool_decide (nonzero = 0%nat) && bool_decide (first_divergence td = None)))).

Definition bundlecmp (args : list rstr) : exit :=
  match args !! 1%nat with
  | None => Usage
  | Some cmd =>
      if decide (cmd = lit "summary") then cmd_summary args
      else if decide (cmd = lit "show") then cmd_show args
      else if decide (cmd = lit "compare") then cmd_compare args
      else if decide (cmd = lit "selftest") then cmd_selftest args
      else Usage
  end.
End commands.

(** * What bundlecmp's verdicts mean *)

(** ** A tensor against itself *)

Lemma diff_loop_self v : ∀ i wi scale,
  match diff_loop i (combine v v) fzero wi scale with
  | inr (worst, _, _) => worst = fzero ∧ Forall (λ x, is_finite x = true) v
  | inl _ => ¬ Forall (λ x, is_finite x = true) v
  end.
Proof.
  induction v as [|x v IH]; intros i wi scale; [done|]. cbn [combine diff_loop].
  destruct (is_finite x) eqn:Hx; cbn [negb orb]; [|rewrite Forall_cons, Hx; naive_solver].
  rewrite sub_self by done. change (SFltb fzero fzero) with false. cbn beta iota.
  specialize (IH (S i) wi (fmax scale (SFabs x))).
  destruct (diff_loop _ _ _ _ _) as [|[[]]]; rewrite Forall_cons; naive_solver.
Qed.

Lemma diff_self name shape v : diff name shape v v = None ↔ Forall (λ x, is_finite x = true) v.
Proof.
  unfold diff. rewrite decide_False by (intros Hn; by apply Hn).
  pose proof (diff_loop_self v 0 0 fzero) as Hl.
  destruct (diff_loop _ _ _ _ _) as [[[]]|[[]]]; [naive_solver|]. destruct Hl as [-> Hv]. done.
Qed.

Section commands.
Context {J : Type} (fs : FS).

(** The self-test passes exactly when every tensor can be read and is finite:
    the comparison is reflexive on finite tensors only. *)
Theorem selftest_exact open args dir g : positional args 0 = Some dir → open dir = Ok g →
  cmd_selftest (J:=J) fs open args = Success ↔
  ∀ e, e ∈ tensors (b_manifest g) →
    ∃ v, read_entry fs g e = Ok v ∧ Forall (λ x, is_finite x = true) v.
Proof.
  intros Hd Ho. unfold cmd_selftest. rewrite Hd. cbn [ok_or mbind result_bind]. rewrite Ho.
  cbn [or_exit mbind result_bind].
  pose proof (diff_tokens_spec (b_manifest g) (b_manifest g)) as Htd. cbn zeta in Htd.
  destruct (first_divergence _) as [i|]; [by destruct Htd|]. clear Htd.
  rewrite <- Forall_forall.
  assert (∀ ts, match selftest_from fs g ts with
    | Ok n => n = 0%nat ↔ Forall (λ e, ∃ v, read_entry fs g e = Ok v ∧ Forall (λ x, is_finite x = true) v) ts
    | Err e => e = Failure ∧
        ¬ Forall (λ e, ∃ v, read_entry fs g e = Ok v ∧ Forall (λ x, is_finite x = true) v) ts
    end) as Hts.
  { induction ts as [|t ts IH]; cbn [selftest_from]; [done|].
    destruct (read_entry fs g t) as [v|err] eqn:Hr; cbn [or_exit mbind result_bind];
      [|split; [done|]; intros [(v & Hv & _) _]%Forall_cons; by rewrite Hr in Hv].
    pose proof (diff_self (te_name t) (te_shape t) v) as Hv.
    destruct (selftest_from fs g ts) as [n|e]; cbn [mbind result_bind]; rewrite Forall_cons;
      [|split; [apply IH|]; intros [_ ?]; by apply IH].
    destruct (diff _ _ _ _) as [d|].
    2:{ cbn [Nat.add]. rewrite IH. split; [|by intros [_ ?]]. intros ?. split; [|done].
        exists v. split; [done|]. by apply Hv. }
    split; [lia|]. intros [(v' & Hv' & Hf) _]. rewrite Hr in Hv'. injection Hv' as <-. naive_solver. }
  specialize (Hts (tensors (b_manifest g))).
  destruct (selftest_from fs g _) as [n|e]; cbn [mbind result_bind run_main verdict].
  - rewrite <- Hts, (bool_decide_true (None = None)), andb_true_r by done.
    by case_bool_decide; cbn; split; intros.
  - destruct Hts as [-> Hn]. by split; [|intros ?%Hn].
Qed.

(** ** The verdict of a comparison *)

Lemma diff_loop_number pairs : ∀ i worst wi scale w k sc, is_nan worst = false →
  is_finite scale = true → diff_loop i pairs worst wi scale = inr (w, k, sc) →
  is_nan w = false ∧ is_finite sc = true.
Proof.
  induction pairs as [|[g c] pairs IH]; intros i worst wi scale w k sc Hw Hs; cbn [diff_loop].
  { by intros [= <- <- <-]. }
  destruct (is_finite g) eqn:Hg, (is_finite c) eqn:Hc; try done. cbn [negb orb].
  assert (is_finite (fmax scale (SFabs g)) = true) as Hs'.
  { unfold fmax. assert (is_finite (SFabs g) = true) by (by destruct g).
    by repeat case_match. }
  destruct (SFltb worst (SFabs (F32.sub g c))); apply IH; try done.
  rewrite is_nan_abs. by apply sub_number.
Qed.

Lemma div_number x y : is_nan x = false → is_finite y = true → SFltb fzero y = true →
  is_nan (F32.div x y) = false.
Proof.
  destruct x as [sx|sx| |sx mx ex], y as [sy| | |sy my ey]; try done; intros _ _ Hy.
  unfold F32.div, SFdiv. unfold SFdiv_core_binary. cbv zeta.
  match goal with |- context [Z.div_eucl ?m _] => assert (0 ≤ m) as Hm; [|revert Hm; generalize m] end.
  { destruct (_ - _ - _); [done| |done]. by apply Z.shiftl_nonneg. }
  intros n Hn. pose proof (Z.div_pos n (Zpos my) Hn eq_refl) as Hq. unfold Z.div in Hq.
  destruct (Z.div_eucl n (Zpos my)) as [q r]. by apply binary_round_aux_number.
Qed.

(** The relative difference of a report is a number: infinite for sizes or
    values that cannot be compared. *)
Lemma diff_rel_number name shape golden cand d : diff name shape golden cand = Some d →
  is_nan (max_rel d) = false.
Proof.
  unfold diff. case_decide; [by intros [= <-]|].
  destruct (diff_loop _ _ _ _ _) as [[[]]|[[w k] sc]] eqn:E; [by intros [= <-]|].
  destruct (diff_loop_number _ _ _ _ _ _ _ _ (eq_refl : is_nan fzero = false)
    (eq_refl : is_finite fzero = true) E) as [Hw Hs].
  destruct (SFeqb w fzero); [done|]. intros [= <-]. cbn [max_rel].
  destruct (SFltb fzero sc) eqn:Hlt; [by apply div_number|done].
Qed.

#[local] Instance rel_desc_total : Total rel_desc.
Proof.
  intros a b. unfold rel_desc. destruct (SFltb (max_rel a) (max_rel b)) eqn:E; [|by left].
  right. destruct (SFltb (max_rel b) (max_rel a)) eqn:E'; [|done].
  pose proof (SFltb_trans _ _ _ E E') as Hc. by rewrite SFltb_irrefl in Hc.
Qed.

Lemma sorted_bound tol ds : Sorted rel_desc ds → Forall (λ d, is_nan (max_rel d) = false) ds →
  SFleb (match ds with d :: _ => max_rel d | [] => fzero end) tol = true →
  Forall (λ d, SFleb (max_rel d) tol = true) ds.
Proof.
  induction 1 as [|d ds Hs IH Hd]; intros Hn Hb; [done|].
  apply Forall_cons in Hn as [Hnd Hn]. constructor; [done|].
  destruct Hd as [|d' ds Hd]; [done|]. apply IH; [done|].
  assert (is_nan tol = false) as Ht by (by destruct tol, (max_rel d)).
  pose proof Hn as [Hnd' _]%Forall_cons. rewrite SFleb_ltb, negb_true_iff in * by done.
  destruct (SFltb tol (max_rel d')) eqn:E; [|done].
  by rewrite (SFltb_lt_le_trans tol (max_rel d') (max_rel d)) in Hb.
Qed.

(** The first of the sorted differences bounds them all. *)
Lemma worst_rel_bounds tol ds : Forall (λ d, is_nan (max_rel d) = false) ds →
  SFleb (worst_rel ds) tol = true → Forall (λ d, SFleb (max_rel d) tol = true) ds.
Proof.
  intros Hn Hw. unfold worst_rel in Hw.
  assert (Permutation (sort_by rel_desc ds) ds) as Hp by apply sort_by_Permutation.
  rewrite <- Hp. apply sorted_bound; [apply Sorted_sort_by, _| |exact Hw]. by rewrite Hp.
Qed.

(** What a comparison demands of a pair of tensors that could both be read. *)
Definition pair_passes (tol : f32) (e : TensorEntry) (gv cv : vec) : Prop :=
  match diff (te_name e) (te_shape e) gv cv with
  | None => True
  | Some d => SFleb (max_rel d) tol = true
  end.

Lemma compare_entries_spec (g c : Bundle (J:=J)) group ts : ∀ t,
  let t' := foldl (compare_entry fs g c group) t ts in
  (Forall (λ d, is_nan (max_rel d) = false) (ta_diffs t) →
   Forall (λ d, is_nan (max_rel d) = false) (ta_diffs t')) ∧
  (∀ tol, Forall (λ d, SFleb (max_rel d) tol = true) (ta_diffs t') → ta_missing t' = [] →
    Forall (λ d, SFleb (max_rel d) tol = true) (ta_diffs t) ∧ ta_missing t = [] ∧
    ∀ e, e ∈ ts → out_of_group group e = false →
      ∃ ce, bundle_entry c (te_name e) = Some ce ∧
        ∀ gv cv, read_entry fs g e = Ok gv → read_entry fs c ce = Ok cv → pair_passes tol e gv cv).
Proof.
  induction ts as [|e ts IH]; intros t; cbn [foldl]; [split; [done|]; intros; split_and!; by try set_solver|].
  destruct (IH (compare_entry fs g c group t e)) as [H1 H2]. cbn zeta in *.
  set (t' := foldl _ _ ts) in *. clearbody t'. clear IH.
  assert (Hstep : (Forall (λ d, is_nan (max_rel d) = false) (ta_diffs t) →
     Forall (λ d, is_nan (max_rel d) = false) (ta_diffs (compare_entry fs g c group t e))) ∧
    ∀ tol, Forall (λ d, SFleb (max_rel d) tol = true) (ta_diffs (compare_entry fs g c group t e)) →
      ta_missing (compare_entry fs g c group t e) = [] →
      Forall (λ d, SFleb (max_rel d) tol = true) (ta_diffs t) ∧ ta_missing t = [] ∧
      (out_of_group group e = false → ∃ ce, bundle_entry c (te_name e) = Some ce ∧
        ∀ gv cv, read_entry fs g e = Ok gv → read_entry fs c ce = Ok cv → pair_passes tol e gv cv)).
  { clear H1 H2 t'. destruct t as [n k ds miss]. unfold compare_entry, pair_passes.
    destruct (out_of_group group e); [by split; [|intros]|].
    destruct (bundle_entry c (te_name e)) as [ce|].
    2:{ cbn. split; [done|]. intros tol _ Hm. by apply app_nil in Hm as [_ ?]. }
    destruct (read_entry fs g e) as [gv|]; [|split; [done|]; intros tol ??; split_and!; [done..|intros _; by exists ce]].
    destruct (read_entry fs c ce) as [cv|] eqn:Hc; [|split; [done|]; intros tol ??;
      split_and!; [done..|intros _; exists ce; split; [done|]; intros gv' cv' _; by rewrite Hc]].
    destruct (diff _ _ gv cv) as [d|] eqn:E; cbn [ta_diffs ta_missing].
    - split.
      + intros Hn. apply Forall_app. split; [done|]. constructor; [|done]. by eapply diff_rel_number.
      + intros tol [Hd [Hd1 _]%Forall_cons]%Forall_app Hm. split; [done|]. split; [done|]. intros _.
        exists ce. split; [done|]. intros gv' cv' [= <-]. rewrite Hc. intros [= <-]. by rewrite E.
    - split; [done|]. intros tol Hd Hm. split; [done|]. split; [done|]. intros _. exists ce.
      split; [done|]. intros gv' cv' [= <-]. rewrite Hc. intros [= <-]. by rewrite E. }
  destruct Hstep as [S1 S2]. split; [by auto|]. intros tol Hd Hm.
  destruct (H2 tol Hd Hm) as (Hd' & Hm' & Hts). destruct (S2 tol Hd' Hm') as (? & ? & He).
  split; [done|]. split; [done|]. intros e' [->|Hin]%elem_of_cons; [exact He|by apply Hts].
Qed.

(** When a comparison passes, every golden tensor of the group has an entry in
    the candidate and, when both could be read, their relative difference is
    within the bound; the lists of generated ids are equal; and at every step
    whose logits could be read, the recorded token is their argmax. *)
Theorem compare_pass (g c : Bundle (J:=J)) group tol : compare_ok fs g c group tol = true →
  final_ids (greedy (b_manifest g)) = final_ids (greedy (b_manifest c)) ∧
  check_token_selfconsistency fs g = [] ∧ check_token_selfconsistency fs c = [] ∧
  ∀ e, e ∈ tensors (b_manifest g) → out_of_group group e = false →
    ∃ ce, bundle_entry c (te_name e) = Some ce ∧
      ∀ gv cv, read_entry fs g e = Ok gv → read_entry fs c ce = Ok cv → pair_passes tol e gv cv.
Proof.
  unfold compare_ok. cbn zeta. rewrite !andb_true_iff, !bool_decide_eq_true.
  intros ((((Hw & Htd) & Hm) & Hg) & Hc).
  pose proof (diff_tokens_spec (b_manifest g) (b_manifest c)) as Hids. cbn zeta in Hids.
  rewrite Htd in Hids. split; [done|]. split; [done|]. split; [done|].
  destruct (compare_entries_spec g c group (tensors (b_manifest g)) (mkTally 0 0 [] [])) as [H1 H2].
  cbn zeta in H1, H2. apply (H2 tol); [|exact Hm]. apply worst_rel_bounds; [by apply H1|exact Hw].
Qed.

(** The check of the tokens against the logits looks at each step's recorded
    argmax and not at the list of generated ids: whatever that list holds, the
    check says the same. *)
Theorem final_ids_unchecked (b b' : Bundle (J:=J)) :
  b_root b = b_root b' → b_index b = b_index b' →
  steps (greedy (b_manifest b)) = steps (greedy (b_manifest b')) →
  check_token_selfconsistency fs b = check_token_selfconsistency fs b'.
Proof.
  intros Hr Hi Hs. unfold check_token_selfconsistency. rewrite Hs. f_equal. apply imap_ext.
  intros i s _. unfold check_step, read, read_entry. by rewrite Hi, Hr.
Qed.

(** A tensor that cannot be read is passed over without counting, so a
    directory that holds nothing but a copy of the golden manifest passes:
    nothing is compared, and the check that the recorded tokens follow from the
    candidate's own logits has no logits to look at. *)
Theorem copied_manifest_passes parse groot croot (g : Bundle (J:=J)) tol :
  open parse fs groot = Ok g → check_token_selfconsistency fs g = [] →
  fs !! join croot (lit "manifest.json") = fs !! join groot (lit "manifest.json") →
  (∀ e, e ∈ tensors (b_manifest g) → fs !! join croot (te_file e) = None) →
  SFleb fzero tol = true →
  ∃ c, open parse fs croot = Ok c ∧ ta_compared (compare_entries fs g c None) = 0%nat ∧
    compare_ok fs g c None tol = true.
Proof.
  intros Ho Hg Hman Hfiles Htol. exists (mkBundle croot (b_manifest g) (b_index g)).
  pose proof (open_spec parse fs groot g Ho) as (_ & _ & _ & _ & _ & Hidx).
  set (c := mkBundle _ _ _).
  assert (open parse fs croot = Ok c) as Hc.
  { revert Ho. subst c. unfold open, read_file. rewrite Hman. destruct (fs !! join groot _) as [raw|]; cbn [ok_or mbind result_bind]; [|done].
    destruct (parse raw) as [m|]; cbn [ok_or mbind result_bind]; [|done].
    do 3 (case_decide; [done|]). destruct (index_tensors _ _); [|done]. by intros [= <-]. }
  split; [exact Hc|].
  assert (∀ e, e ∈ tensors (b_manifest g) → is_Some (bundle_entry c (te_name e))) as Hent.
  { intros e Hin. exists e. apply Hidx. done. }
  assert (∀ name e, bundle_entry c name = Some e → ∃ err, read_entry fs c e = Err err) as Hread.
  { intros name e He. apply Hidx in He as [Hin _]. unfold read_entry, read_file. cbn [b_root c].
    rewrite (Hfiles e Hin). cbn. by eexists. }
  assert (compare_entries fs g c None = mkTally 0 0 [] []) as Hcmp.
  { unfold compare_entries. revert Hent. clear -Hread.
    induction (tensors (b_manifest g)) as [|e ts IH]; intros Hent; [done|]. cbn [foldl].
    assert (compare_entry fs g c None (mkTally 0 0 [] []) e = mkTally 0 0 [] []) as ->.
    { unfold compare_entry. cbn [out_of_group]. destruct (Hent e) as [ce Hce]; [by left|].
      rewrite Hce. destruct (Hread _ _ Hce) as [err ->]. by destruct (read_entry fs g e). }
    apply IH. intros e' Hin. apply Hent. by right. }
  assert (check_token_selfconsistency fs c = []) as Hcc.
  { unfold check_token_selfconsistency. cbn [b_manifest c].
    assert (∀ (f : nat → GreedyStep → list (nat * Z * Z)) l, (∀ i s, f i s = []) →
      concat (imap f l) = []) as Hcat.
    { intros f l. revert f. induction l as [|x l IH]; intros f Hf; [done|]. cbn. rewrite Hf. apply IH. intros. apply Hf. }
    apply Hcat. intros i s. unfold check_step, read. cbn [b_index c].
    destruct (b_index g !! _) as [e|] eqn:He; [|done]. cbn [ok_or mbind result_bind].
    by destruct (Hread _ _ He) as [err ->]. }
  rewrite Hcmp. split; [done|]. unfold compare_ok. cbn zeta. rewrite Hcmp, Hg, Hcc.
  pose proof (diff_tokens_spec (b_manifest g) (b_manifest c)) as Htd. cbn zeta in Htd.
  destruct (first_divergence _) as [i|]; [by destruct Htd as [_ []]|]. by cbn; rewrite Htol.
Qed.
End commands.
