(* ===== verification/Stbench.v ===== *)
(** * stbench: the command line of the loader

    Models rust-qwen-engine/crates/stbench/src/main.rs: the arguments, what
    each command asks of the loader and how it ends.  Directories, the outcome
    of each timed read and the kernel's [pread] are arguments; the clock and
    what is printed are left out.

    The verification finds every disagreement among the tensors it looks at,
    and raises no false alarm on a kernel that reads what the files hold. *)

From stdpp Require Import sorting.
From S2P Require Import Prelude Serde Rstr Float Header Plan Reader ReaderProps Fuzz FuzzProps.
From S2P Require Import Selftest Layer Bundle Loader Utf8 PyJson JsonInstance HeaderWitness Args Exit.
#[local] Open Scope Z_scope.

(** ** Arguments *)

Definition flag_val (args : list rstr) (name : string) : option rstr := val args (lit name).

(** [num] at [usize] or [u64]: a value that does not parse is the default. *)
Definition num (args : list rstr) (name : string) (d : Z) : Z :=
  default d (flag_val args name ≫= parse_usize).

Definition VALUE_FLAGS : list rstr :=
  lit <$> ["--iters"; "--seed"; "--tensors"; "--large"; "--depth"; "--chunk-mb"; "--repeat";
           "--block"; "--gap"]%string.

Definition model_dir (args : list rstr) : option rstr := positionals VALUE_FLAGS args !! 0%nat.

(** A directory: the names and contents of its files. *)
Abbreviation Dir := (list (rstr * list Z)) (only parsing).

Section commands.
Context {J : Type} `{SerdeJson J}.
(** The directories, and the outcome of the timed read number [i]. *)
Context (dirs : rstr → option Dir) (reads : nat → result io_error ReadStats).
(** The verification read of a shard, direct or buffered. *)
Context (small : nat → bool → Z → Z → Z → result io_error (list Z)).

Definition the_dir (args : list rstr) : result exit Dir :=
  name ← ok_or Usage (model_dir args);
  ok_or Failure (dirs name).

Definition cmd_list (args : list rstr) : exit :=
  run_main (
    dir ← the_dir args;
    headers ← or_exit Failure (read_model (J:=J) dir);
    _ ← or_exit Panicked (summarize headers (num args "--block" 4096) (num args "--gap" 0));
    Ok Success).

(** The timed reads: the first that fails ends the program. *)
Definition repeat_reads (repeat : nat) : result exit unit :=
  _ ← try_map (λ i, or_exit Failure (reads i)) (seq 0 repeat); Ok ().

(** The plan and the configuration of the [read] command. *)
Definition read_plan (args : list rstr) (headers : list (ShardHeader J)) : list (nat * Range) :=
  let block := num args "--block" 4096 in
  if has args (lit "--per-tensor") then plan_model_unmerged headers block
  else plan_model headers block (num args "--gap" 0).

Definition read_config (args : list rstr) : ReadConfig :=
  let buffered := has args (lit "--buffered") || has args (lit "--no-direct") || has args (lit "--no-mmap") in
  mkReadConfig (num args "--depth" 32) (wmul (wmul (num args "--chunk-mb" 1) 1024) 1024)
    (negb buffered) (num args "--block" 4096).

Definition cmd_read (args : list rstr) : exit :=
  run_main (
    dir ← the_dir args;
    _ ← or_exit Failure (discover_shards dir);
    headers ← or_exit Failure (read_model (J:=J) dir);
    let plan := read_plan args headers in
    _ ← or_exit Panicked (summarize_plan headers (num args "--block" 4096) plan);
    _ ← repeat_reads (Z.to_nat (num args "--repeat" 1));
    Ok Success).

(** ** verify *)

(** A tensor with its shard and the start of the shard's data. *)
Definition Candidate : Type := nat * TensorInfo * Z.

Definition all_tensors (headers : list (ShardHeader J)) : list Candidate :=
  concat (imap (λ i h, (λ t, (i, t, sh_data_start h)) <$> sh_tensors h) headers).

Definition cand_bytes (c : Candidate) : Z := TensorInfo.nbytes c.1.2.

Definition smaller (a b : Candidate) : Prop := cand_bytes a ≤ cand_bytes b.
Definition larger (a b : Candidate) : Prop := cand_bytes b ≤ cand_bytes a.
#[export] Instance smaller_dec a b : Decision (smaller a b).
Proof. unfold smaller. apply _. Defined.
#[export] Instance larger_dec a b : Decision (larger a b).
Proof. unfold larger. apply _. Defined.

Definition small_cands (headers : list (ShardHeader J)) : list Candidate :=
  sort_by smaller (filter (λ c, 0 < cand_bytes c ≤ 64 * 1024) (all_tensors headers)).
Definition big_cands (headers : list (ShardHeader J)) : list Candidate :=
  sort_by larger (filter (λ c, cand_bytes c > 64 * 1024) (all_tensors headers)).

(** Both reads of a candidate, at most [cap] bytes of it. *)
Definition both_reads (block cap : Z) (c : Candidate) :
    result io_error (list Z) * result io_error (list Z) :=
  let '(shard, t, data_start) := c in
  let '(off, fin) := TensorInfo.abs_range t data_start in
  let n := wsub fin off `min` cap in
  (small shard true off n block, small shard false off n block).

(** The tensors checked and the failures so far. *)
Abbreviation Count := (nat * nat)%type (only parsing).

(** A candidate whose reads fail counts as a failure. *)
Definition check_cand (block cap : Z) (n : Count) (c : Candidate) : Count :=
  let '(checked, failed) := n in
  match both_reads block cap c with
  | (Ok a, Ok b) => (S checked, if decide (a = b) then failed else S failed)
  | _ => (checked, S failed)
  end.

(** The F32 scalars: at most eight, and one whose reads fail is passed over. *)
Definition check_f32 (block : Z) (n : Count * nat) (c : Candidate) : Count * nat :=
  let '(checked, failed, f32_small) := n in
  if decide (ti_dtype c.1.2 = F32 ∧ cand_bytes c ≤ 8192 ∧ (f32_small < 8)%nat) then
    match both_reads block u64_max c with
    | (Ok a, Ok b) => (S checked, if decide (a = b) then failed else S failed, S f32_small)
    | _ => n
    end
  else n.

Definition verify (args : list rstr) (headers : list (ShardHeader J)) : Count :=
  let block := num args "--block" 4096 in
  let n := (0%nat, 0%nat) in
  let n := foldl (check_cand block u64_max) n
             (take (Z.to_nat (num args "--tensors" 32)) (small_cands headers)) in
  let '(n, _) := foldl (check_f32 block) (n, 0%nat) (all_tensors headers) in
  foldl (check_cand block (Z.shiftl 4 20)) n
    (take (Z.to_nat (num args "--large" 4)) (big_cands headers)).

Definition cmd_verify (args : list rstr) : exit :=
  run_main (
    dir ← the_dir args;
    headers ← or_exit Failure (read_model (J:=J) dir);
    Ok (verdict (bool_decide ((verify args headers).2 = 0%nat)))).

(** ** selftest and fuzz *)

Definition cmd_selftest : exit :=
  match Selftest.run (J:=J) with
  | None => Failure
  | Some checks => verdict (bool_decide (length (filter (λ c, ck_pass c = false) checks) = 0%nat))
  end.

(** [reader] is whether [read_files] succeeds on a generated file. *)
Definition cmd_fuzz (reader : list Z → list (nat * Range) → bool) (args : list rstr) : exit :=
  let iters := num args "--iters" 20000 in
  let seed := num args "--seed" 0x5EED1234 in
  let do_reads := has args (lit "--read") || has args (lit "--with-reads") in
  verdict (report_ok (Fuzz.run (J:=J) reader (Z.to_nat iters) seed do_reads)).

Definition stbench (reader : list Z → list (nat * Range) → bool) (args : list rstr) : exit :=
  match args !! 1%nat with
  | None => Usage
  | Some cmd =>
      if decide (cmd = lit "list") then cmd_list args
      else if decide (cmd = lit "read") then cmd_read args
      else if decide (cmd = lit "verify") then cmd_verify args
      else if decide (cmd = lit "selftest") then cmd_selftest
      else if decide (cmd = lit "fuzz") then cmd_fuzz reader args
      else Usage
  end.
End commands.

(** * What stbench's commands guarantee *)

Section props.
Context {J : Type} `{SerdeJsonLaws J}.
Context (small : nat → bool → Z → Z → Z → result io_error (list Z)).

(** Both reads of a candidate succeed with the same bytes. *)
Definition reads_agree (block cap : Z) (c : Candidate) : Prop :=
  ∃ bs, both_reads small block cap c = (Ok bs, Ok bs).

Lemma check_cand_failed block cap cs : ∀ n,
  (n.2 ≤ (foldl (check_cand small block cap) n cs).2)%nat ∧
  ((foldl (check_cand small block cap) n cs).2 = 0%nat ↔
    n.2 = 0%nat ∧ Forall (reads_agree block cap) cs).
Proof.
  induction cs as [|c cs IH]; intros n; cbn [foldl]; [split; [done|]; naive_solver|].
  destruct (IH (check_cand small block cap n c)) as [Hle Hz]. rewrite Hz, Forall_cons.
  assert ((check_cand small block cap n c).2 = n.2 ∧ reads_agree block cap c ∨
          (check_cand small block cap n c).2 = S n.2 ∧ ¬ reads_agree block cap c) as Hs.
  { destruct n as [checked failed]. unfold check_cand, reads_agree.
    destruct (both_reads small block cap c) as [[a|] [b|]]; cbn [snd];
      try (right; split; [done|]; by intros [? ?]).
    case_decide; [subst; left; eauto|]. right. split; [done|]. intros [bs Heq]. by injection Heq as -> ->. }
  destruct Hs as [[E Ha]|[E Ha]]; rewrite E in Hle |- *; (split; [lia|]).
  - tauto.
  - split; [intros [? _]; lia|by intros (_ & ? & _)].
Qed.

(** The scalars: those that are read and differ fail. *)
Definition reads_differ (block : Z) (c : Candidate) : Prop :=
  ∃ a b, both_reads small block u64_max c = (Ok a, Ok b) ∧ a ≠ b.

Lemma check_f32_failed block cs : ∀ n,
  (n.1.2 ≤ (foldl (check_f32 small block) n cs).1.2)%nat ∧
  (Forall (λ c, ¬ reads_differ block c) cs → (foldl (check_f32 small block) n cs).1.2 = n.1.2).
Proof.
  induction cs as [|c cs IH]; intros n; cbn [foldl]; [done|].
  destruct (IH (check_f32 small block n c)) as [Hle Heq].
  assert ((n.1.2 ≤ (check_f32 small block n c).1.2)%nat ∧
    (¬ reads_differ block c → (check_f32 small block n c).1.2 = n.1.2)) as [Hle' Heq'].
  { destruct n as [[checked failed] seen]. unfold check_f32, reads_differ. case_decide; [|done].
    destruct (both_reads small block u64_max c) as [[a|] [b|]] eqn:E; [|done..].
    case_decide; cbn; (split; [lia|]); [done|]. intros Hn. exfalso. apply Hn. by exists a, b. }
  split; [lia|]. intros [Hc Hcs]%Forall_cons. rewrite Heq, Heq'; done.
Qed.

Definition block_of (args : list rstr) : Z := num args "--block" 4096.
Definition smallest (args : list rstr) (headers : list (ShardHeader J)) : list Candidate :=
  take (Z.to_nat (num args "--tensors" 32)) (small_cands headers).
Definition largest (args : list rstr) (headers : list (ShardHeader J)) : list Candidate :=
  take (Z.to_nat (num args "--large" 4)) (big_cands headers).

(** The count of failures is zero when every tensor looked at reads the same
    both ways, and only if the smallest and the largest do. *)
Lemma verify_failed args headers :
  ((verify small args headers).2 = 0%nat →
    Forall (reads_agree (block_of args) u64_max) (smallest args headers) ∧
    Forall (reads_agree (block_of args) (Z.shiftl 4 20)) (largest args headers)) ∧
  (Forall (reads_agree (block_of args) u64_max) (smallest args headers) →
   Forall (λ c, ¬ reads_differ (block_of args) c) (all_tensors headers) →
   Forall (reads_agree (block_of args) (Z.shiftl 4 20)) (largest args headers) →
   (verify small args headers).2 = 0%nat).
Proof.
  unfold verify. cbn zeta. fold (block_of args). fold (smallest args headers). fold (largest args headers).
  destruct (check_cand_failed (block_of args) u64_max (smallest args headers) (0%nat, 0%nat)) as [_ H1].
  set (n1 := foldl _ _ (smallest args headers)) in *.
  destruct (check_f32_failed (block_of args) (all_tensors headers) (n1, 0%nat)) as [H2 H2'].
  destruct (foldl (check_f32 _ _) _ _) as [n2 k]. cbn [fst snd] in *.
  destruct (check_cand_failed (block_of args) (Z.shiftl 4 20) (largest args headers) n2) as [_ H3].
  rewrite H3. split.
  - intros [Hz Hl]. split; [|done]. apply H1. lia.
  - intros Hs Hf Hl. split; [|done]. rewrite H2' by done. by apply H1.
Qed.

(** When the verification reports no mismatch, each of the smallest tensors
    and the head of each of the largest was read by both paths with the same
    result. *)
Theorem verify_pass dirs args : cmd_verify (J:=J) dirs small args = Success →
  ∃ dir headers, the_dir dirs args = Ok dir ∧ read_model dir = Ok headers ∧
    Forall (reads_agree (block_of args) u64_max) (smallest args headers) ∧
    Forall (reads_agree (block_of args) (Z.shiftl 4 20)) (largest args headers).
Proof.
  unfold cmd_verify. intros Hv. apply run_main_Success in Hv.
  2:{ unfold the_dir. repeat (apply loud_bind; [auto with loud|intros ? _]); auto with loud. all: try done. }
  apply bind_Ok in Hv as (dir & Hd & (headers & Hh%or_exit_Ok & Hv%Ok_inj)%bind_Ok).
  exists dir, headers. split; [done|]. split; [done|]. apply verify_failed.
  by case_bool_decide.
Qed.

(** ** No false alarms *)

Lemma read_loop_Ok pread fuel : (∀ k n off, ∃ bs, pread k n off = Ok bs) → ∀ k a0 total buf e,
  read_loop pread fuel k a0 total buf ≠ Some (Err e).
Proof.
  intros Hp. induction fuel as [|fuel IH]; intros k a0 total buf e; cbn [read_loop]; [done|].
  case_decide; [|done]. destruct (Hp k (total - len buf) (a0 + len buf)) as [bs ->].
  destruct bs; [done|apply IH].
Qed.

(** A kernel that reads the file and never fails. *)
Definition reads_file (file : list Z) (block : Z) (read : Z → Z → result io_error (list Z)) : Prop :=
  ∃ pread, pread_of file pread ∧ (∀ k n off, ∃ bs, pread k n off = Ok bs) ∧
    ∀ off n, read_small_range pread off n block = Some (read off n).

Lemma reads_file_inside file block read off n : reads_file file block read →
  0 ≤ off → 0 < n → off + n ≤ len file → len file + 2 * (block `max` 1) ≤ u64_max →
  read off n = Ok (slice file off (off + n)).
Proof.
  intros (pread & Hp & Hok & Hr) Ho Hn Hin Hb.
  pose proof (read_small_range_spec file pread off n block Hp Ho Hn ltac:(lia)) as Hs. rewrite Hr in Hs.
  destruct (read off n) as [bs|e] eqn:E; [by destruct Hs as [_ ->]|]. exfalso.
  specialize (Hr off n). rewrite E in Hr. unfold read_small_range in Hr. cbn zeta in Hr.
  destruct (read_loop _ _ _ _ _ _) as [[buf|e']|] eqn:El; [|by apply read_loop_Ok in El|done].
  cbn [mbind option_bind result_bind] in Hr. case_decide; [|done]. injection Hr as <-. lia.
Qed.

Lemma reads_file_empty file block read off bs : reads_file file block read → read off 0 = Ok bs → bs = [].
Proof.
  intros (pread & _ & _ & Hr) E. specialize (Hr off 0). rewrite E in Hr.
  unfold read_small_range in Hr. cbn zeta in Hr.
  destruct (read_loop _ _ _ _ _ _) as [[buf|e']|]; [|done..].
  cbn [mbind option_bind result_bind] in Hr. case_decide; [done|]. injection Hr as <-.
  unfold slice. by rewrite Z.add_0_r, Z.sub_diag.
Qed.

(** A directory whose shards the reader accepts, and reads that give what its
    files hold, by both paths. *)
Record faithful (dir : list (rstr * list Z)) (block : Z) : Prop := {
  ff_files : ∀ shards i name file, discover_shards dir = Ok shards → shards !! i = Some (name, file) →
    Header.bytes file ∧ len file + 2 * (block `max` 1) ≤ u64_max ∧
    ∀ direct, reads_file file block (λ off n, small i direct off n block);
}.

(** Where a candidate of the directory lies. *)
Lemma all_tensors_inside dir block headers c : faithful dir block → read_model dir = Ok headers →
  c ∈ all_tensors headers →
  ∃ file, len file + 2 * (block `max` 1) ≤ u64_max ∧
    (∀ direct, reads_file file block (λ off n, small c.1.1 direct off n block)) ∧
    ∃ off n, TensorInfo.abs_range c.1.2 c.2 = (off, off + n) ∧ 0 ≤ off ∧ 0 ≤ n ∧
      off + n ≤ len file ∧ cand_bytes c = n.
Proof.
  intros [Hff] Hm Hc. unfold read_model in Hm. apply bind_Ok in Hm as (shards & Hd & Hm).
  apply try_map_Ok in Hm. unfold all_tensors in Hc.
  apply list_elem_of_In, in_concat in Hc as (l & Hl%list_elem_of_In & Hc%list_elem_of_In).
  apply list_elem_of_lookup in Hl as [i Hl]. rewrite list_lookup_imap in Hl.
  destruct (headers !! i) as [h|] eqn:Eh; [|done]. cbn in Hl. injection Hl as <-.
  apply list_elem_of_fmap in Hc as (t & -> & Ht).
  destruct (Forall2_lookup_r _ _ _ _ _ Hm Eh) as ([name file] & Hs & Hr).
  destruct (Hff shards i name file Hd Hs) as (Hb & Hlen & Hreads). cbn [snd fst] in *.
  assert (read_header file = Ok h) as Hrh by (by destruct (read_header file); [injection Hr as ->|]).
  pose proof (len_nonneg file).
  assert (u64 (len file)) as Hu by (unfold u64; lia).
  destruct (read_header_sound file h Hb Hu Hrh) as (Hwf & Hfs & _).
  pose proof (wf_tensors _ Hwf) as Hts. rewrite Forall_forall in Hts. specialize (Hts t Ht).
  pose proof (wf_start _ _ Hts). pose proof (wf_order _ _ Hts). pose proof (wf_bound _ _ Hts).
  pose proof (wf_data_start _ Hwf). pose proof (wf_header_len _ Hwf). pose proof (wf_in_file _ Hwf).
  exists file. split; [done|]. split; [exact Hreads|].
  exists (sh_data_start h + ti_start t), (ti_end t - ti_start t).
  unfold TensorInfo.abs_range, cand_bytes, TensorInfo.nbytes. cbn [fst snd].
  rewrite !wadd_small, wsub_small by (unfold u64, u64_max in *; lia).
  split; [f_equal; lia|]. lia.
Qed.

Lemma faithful_agree dir block cap headers c : faithful dir block → read_model dir = Ok headers →
  c ∈ all_tensors headers → 0 < cand_bytes c → 0 < cap → reads_agree block cap c.
Proof.
  intros Hf Hm Hc Hpos Hcap.
  destruct (all_tensors_inside dir block headers c Hf Hm Hc)
    as (file & Hb & Hreads & off & n & Ha & Ho & Hn & Hin & Hcb).
  destruct c as [[i t] ds]. unfold reads_agree, both_reads. cbn [fst snd] in *. rewrite Ha.
  rewrite wsub_small by (unfold u64, u64_max in *; lia). replace (off + n - off) with n by lia.
  exists (slice file off (off + n `min` cap)).
  assert (∀ direct, small i direct off (n `min` cap) block = Ok (slice file off (off + n `min` cap))) as Hs
    by (intros direct; apply (reads_file_inside file block (λ off n, small i direct off n block)); [done|lia..]).
  by rewrite !Hs.
Qed.

Lemma faithful_differ dir block headers c : faithful dir block → read_model dir = Ok headers →
  c ∈ all_tensors headers → ¬ reads_differ block c.
Proof.
  intros Hf Hm Hc (a & b & Hab & Hne). destruct (decide (0 < cand_bytes c)) as [Hpos|Hz].
  - destruct (faithful_agree dir block u64_max headers c Hf Hm Hc Hpos ltac:(done)) as [bs Hbs].
    rewrite Hab in Hbs. by injection Hbs as -> ->.
  - destruct (all_tensors_inside dir block headers c Hf Hm Hc)
      as (file & _ & Hreads & off & n & Ha & Ho & Hn & Hin & Hcb).
    assert (n = 0) as -> by lia. destruct c as [[i t] ds]. unfold both_reads in Hab. cbn [fst snd] in *.
    rewrite Ha, Z.add_0_r in Hab. unfold wsub in Hab. rewrite Z.sub_diag in Hab.
    change (wrap64 0 `min` u64_max) with 0 in Hab. injection Hab as H1 H2.
    apply Hne. rewrite (reads_file_empty _ _ _ _ _ (Hreads true) H1).
    by rewrite (reads_file_empty _ _ _ _ _ (Hreads false) H2).
Qed.

(** C17. On a directory the reader accepts and a kernel that reads what its files
    hold, the verification reports no mismatch: it raises no false alarm. *)
Theorem verify_faithful dirs args dir headers : the_dir dirs args = Ok dir →
  read_model dir = Ok headers → faithful dir (block_of args) →
  cmd_verify (J:=J) dirs small args = Success.
Proof.
  intros Hd Hm Hf. unfold cmd_verify. rewrite Hd. cbn [mbind result_bind]. rewrite Hm.
  cbn [or_exit mbind result_bind]. rewrite bool_decide_true; [done|].
  assert (∀ cap cs P `{!∀ c, Decision (P c)} R `{!RelDecision R} k,
    cs = take k (sort_by R (filter P (all_tensors headers))) → (∀ c, P c → 0 < cand_bytes c) → 0 < cap →
    Forall (reads_agree (block_of args) cap) cs) as Hall.
  { intros cap cs P HP R HR k -> Hpos Hcap. apply Forall_take. rewrite sort_by_Permutation.
    apply Forall_forall. intros c [Hc Hin]%list_elem_of_filter. eapply faithful_agree; eauto. }
  apply verify_failed.
  - by eapply Hall; [reflexivity|intros c ?; cbn beta in *; lia|].
  - apply Forall_forall. intros c Hc. eapply faithful_differ; eauto.
  - by eapply Hall; [reflexivity|intros c ?; cbn beta in *; lia|].
Qed.

(** ** The fuzz command *)

(** The fuzz command cannot end in failure. *)
Theorem cmd_fuzz_clean reader args : cmd_fuzz (J:=J) reader args = Success.
Proof.
  unfold cmd_fuzz. cbn zeta. set (n := Z.to_nat _). set (seed := num _ _ _). set (rd := _ || _).
  assert (consistent n (Fuzz.run (J:=J) reader n seed rd)) as (_ & _ & _ & Hp & Hi).
  { unfold Fuzz.run. apply (run_loop_consistent reader rd n 0 _ 0). repeat split; cbn; lia. }
  unfold report_ok. by rewrite Hp, Hi.
Qed.
End props.

(** ** A directory of one shard *)

Definition demo_dir : list (rstr * list Z) := [(lit "model.safetensors", HeaderWitness.demo_file)].
Definition demo_dirs (name : rstr) : option (list (rstr * list Z)) :=
  if decide (name = lit "m") then Some demo_dir else None.
Definition demo_small (i : nat) (direct : bool) (off n block : Z) : result io_error (list Z) :=
  default (Err (Os 5)) (read_small_range (demo_pread HeaderWitness.demo_file) off n block).
Definition demo_verify : list rstr := lit <$> ["stbench"; "verify"; "--tensors"; "5"; "m"]%string.

Lemma demo_faithful block : 0 ≤ block ≤ 4096 → faithful demo_small demo_dir block.
Proof.
  intros Hb. split. intros shards i name file Hd Hs.
  assert (shards = demo_dir) as -> by (vm_compute in Hd; by injection Hd as <-).
  destruct i as [|i]; [|discriminate Hs]. injection Hs as <- <-. split; [apply HeaderWitness.demo_bytes|].
  split; [assert (len HeaderWitness.demo_file < 1000) by (by vm_compute); unfold u64_max; lia|].
  intros direct. exists (demo_pread HeaderWitness.demo_file). split; [apply demo_pread_ok|].
  split; [intros; eexists; reflexivity|]. intros off n. unfold demo_small.
  by destruct (read_small_range_total (demo_pread HeaderWitness.demo_file) off n block) as [r ->].
Qed.

Lemma verify_faithful_witness : cmd_verify (J:=Value) demo_dirs demo_small demo_verify = Success.
Proof.
  apply (verify_faithful demo_small demo_dirs demo_verify demo_dir [HeaderWitness.demo_header]);
    [by vm_compute|by vm_compute|]. apply demo_faithful. by vm_compute.
Defined.

Lemma verify_pass_witness : ∃ dir headers, the_dir demo_dirs demo_verify = Ok dir ∧
  read_model (J:=Value) dir = Ok headers ∧ length (smallest demo_verify headers) = 2%nat.
Proof.
  destruct (verify_pass (J:=Value) demo_small demo_dirs demo_verify) as (dir & headers & Hd & Hm & _);
    [by vm_compute|]. exists dir, headers. split; [exact Hd|]. split; [exact Hm|].
  assert (dir = demo_dir) as -> by (vm_compute in Hd; by injection Hd as <-).
  assert (headers = [HeaderWitness.demo_header]) as -> by (vm_compute in Hm |- *; by injection Hm as <-).
  by vm_compute.
Defined.

(** A block size of zero is a remainder by zero in the summary. *)
Example list_block_zero :
  cmd_list (J:=Value) demo_dirs (lit <$> ["stbench"; "list"; "m"; "--block"; "0"]%string) = Panicked.
Proof. by vm_compute. Qed.

(** A scalar whose reads fail is passed over by the second loop; the first has
    already counted it when it is among the smallest. *)
Example f32_errors_pass : check_f32 (λ _ _ _ _ _, Err (Os 5)) 4096 (3%nat, 0%nat, 0%nat)
  (0%nat, mkTensorInfo (lit "s") F32 [] 0 4, 100) = (3%nat, 0%nat, 0%nat).
Proof. by vm_compute. Qed.
