(* ===== verification/BundleWitness.v ===== *)
(** * A concrete bundle for the theorems of [BundleProps] and [LoaderProps] *)

From stdpp Require Import gmap.
From S2P Require Import Prelude Float Serde Rstr Utf8 PyJson JsonInstance Tensor Delta Gdn Attention Layer Model ModelProps.
From S2P Require Import Header Safetensors Real RealProps Bundle BundleProps Loader LoaderProps.
#[local] Open Scope Z_scope.

(** The captured tensors and weights of a two-layer model. *)
Definition gb_tensors : list (string * list Z) :=
  [("model__embed_tokens", [1; 2; 2]); ("model__embed_tokens__weight", [3; 2]);
   ("model__norm__weight", [2]); ("lm_head__weight", [3; 2]);
   ("delta_torch_chunk_gated_delta_rule_0__q", [1; 2; 2; 2]);
   ("model__layers__0", [1; 2; 2]); ("model__layers__1", [1; 2; 2]);
   ("model__layers__0__input_layernorm__weight", [2]);
   ("model__layers__0__post_attention_layernorm__weight", [2]);
   ("model__layers__0__mlp__gate_proj__weight", [3; 2]);
   ("model__layers__0__mlp__up_proj__weight", [3; 2]);
   ("model__layers__0__mlp__down_proj__weight", [2; 3]);
   ("model__layers__0__linear_attn__in_proj_qkv__weight", [6; 2]);
   ("model__layers__0__linear_attn__in_proj_z__weight", [2; 2]);
   ("model__layers__0__linear_attn__in_proj_b__weight", [2; 2]);
   ("model__layers__0__linear_attn__in_proj_a__weight", [2; 2]);
   ("model__layers__0__linear_attn__conv1d__weight", [6; 1; 2]);
   ("model__layers__0__linear_attn__A_log", [2]); ("model__layers__0__linear_attn__dt_bias", [2]);
   ("model__layers__0__linear_attn__norm__weight", [1]);
   ("model__layers__0__linear_attn__out_proj__weight", [2; 2]);
   ("model__layers__1__input_layernorm__weight", [2]);
   ("model__layers__1__post_attention_layernorm__weight", [2]);
   ("model__layers__1__mlp__gate_proj__weight", [3; 2]);
   ("model__layers__1__mlp__up_proj__weight", [3; 2]);
   ("model__layers__1__mlp__down_proj__weight", [2; 3]);
   ("model__layers__1__self_attn__q_proj__weight", [8; 2]);
   ("model__layers__1__self_attn__k_proj__weight", [2; 2]);
   ("model__layers__1__self_attn__v_proj__weight", [2; 2]);
   ("model__layers__1__self_attn__o_proj__weight", [2; 4]);
   ("model__layers__1__self_attn__q_norm__weight", [2]);
   ("model__layers__1__self_attn__k_norm__weight", [2])]%string.

Definition gb_entry (nt : string * list Z) : TensorEntry :=
  let n := foldr Z.mul 1 nt.2 in
  mkTensorEntry (lit "weights") (lit nt.1) (lit "weights/" ++ lit nt.1 ++ lit ".f32") nt.2
    (lit "f32") n (4 * n).

Definition gb_config : Value :=
  Object [(lit "layer_types", Array [Str (lit "linear_attention"); Str (lit "full_attention")]);
          (lit "num_attention_heads", Int 2); (lit "num_key_value_heads", Int 1);
          (lit "head_dim", Int 2)].
Definition gb_manifest : Manifest (J:=Value) :=
  mkManifest (lit "qwen35-golden-v1") (lit "little") (lit "f32")
    (mkSource (lit "tiny") None None 0 0 one) gb_config [1; 2] (gb_entry <$> gb_tensors)
    (mkGreedy [] []).

(** The manifest's text stands for itself. *)
Definition gb_parse (raw : list Z) : option (Manifest (J:=Value)) :=
  if decide (raw = lit "manifest") then Some gb_manifest else None.
Definition gb_empty : Bundle (J:=Value) := mkBundle (lit "/gb") gb_manifest ∅.
Definition gb_fs : FS :=
  foldr (λ nt fs, write fs gb_empty (lit "weights") (lit nt.1)
                    (replicate (Z.to_nat (foldr Z.mul 1 nt.2)) f1))
    {[lit "/gb/manifest.json" := lit "manifest"]} gb_tensors.

(** The bundle opens, and what it holds loads. *)
Definition gb_loads (b : Bundle (J:=Value)) : bool :=
  match load_model b with
  | Ok m => forallb (λ n, (1 <=? Z.of_nat n) && (Z.of_nat n <? 2 ^ 20))
              (config_sizes (ModelInfo.model_config m))
            && (mi_intermediate m <? 2 ^ 20)
            && match load_model_weights gb_fs b m, load_all_layers gb_fs b m with
               | Ok _, Ok _ => true
               | _, _ => false
               end
  | Err _ => false
  end.

Lemma gb_opens : ∃ b, open gb_parse gb_fs (lit "/gb") = Ok b ∧ gb_loads b = true.
Proof.
  assert (match open gb_parse gb_fs (lit "/gb") with Ok b => gb_loads b | Err _ => false end = true)
    as Hb by (by vm_compute).
  revert Hb. generalize (open gb_parse gb_fs (lit "/gb")). intros [b|]; [|done]. by exists b.
Qed.

Lemma open_spec_witness : ∃ b, open gb_parse gb_fs (lit "/gb") = Ok b ∧
  NoDup (te_name <$> tensors (b_manifest b)).
Proof.
  destruct gb_opens as (b & Hb & _). exists b. split; [exact Hb|].
  apply (open_spec gb_parse gb_fs (lit "/gb") b Hb).
Defined.

Lemma bundle_model_wf_witness : ∃ b m w lws,
  load_model b = Ok m ∧ load_model_weights gb_fs b m = Ok w ∧ load_all_layers gb_fs b m = Ok lws ∧
  model_wf (ModelInfo.model_config m) (mkModelWeights (embed_tokens w) (final_norm w) (lm_head w) lws).
Proof.
  destruct gb_opens as (b & _ & Hb). unfold gb_loads in Hb.
  destruct (load_model b) as [m|] eqn:Hm; [|done].
  destruct (load_model_weights gb_fs b m) as [w|] eqn:Hw; [|by rewrite andb_false_r in Hb].
  destruct (load_all_layers gb_fs b m) as [lws|] eqn:Hl; [|by rewrite andb_false_r in Hb].
  exists b, m, w, lws. do 3 (split; [done|]). apply (bundle_model_wf gb_fs b m w lws Hm); [|done..].
  apply andb_true_iff in Hb as [[Hs Hi]%andb_true_iff _]. split; [|lia].
  apply Forall_forall. intros n Hn%list_elem_of_In. rewrite forallb_forall in Hs.
  specialize (Hs n Hn). cbn beta in Hs. lia.
Defined.

(** ** Small inputs *)

Definition two : f32 := F32.of_Z 2.

Lemma read_entry_write_witness :
  read_entry (write ∅ gb_empty (lit "units") (lit "x") [f1; S754_nan; two]) gb_empty
    (mkTensorEntry (lit "units") (lit "x") (lit "units/x.f32") [3] (lit "f32") 3 12)
  = Ok [f1; S754_nan; two].
Proof.
  refine (proj1 (read_entry_write ∅ gb_empty (lit "units") (lit "x") [f1; S754_nan; two] _ _ _ _));
    [repeat constructor|done|done].
Defined.

Lemma diff_spec_witness :
  match diff (lit "x") [3] [f1; two; f1] [f1; f1; two] with
  | Some d => max_abs_index d = 1%nat ∧
      first_worst [(f1, f1); (two, f1); (f1, two)] (max_abs d) 1
  | None => False
  end.
Proof.
  pose proof (diff_spec (lit "x") [3] [f1; two; f1] [f1; f1; two] eq_refl
    ltac:(repeat constructor) ltac:(repeat constructor)) as Hd.
  destruct (diff _ _ _ _) as [d|] eqn:E; [|by vm_compute in E].
  assert (max_abs_index d = 1%nat) as Hi by (vm_compute in E; by injection E as <-).
  rewrite Hi in Hd. split; [exact Hi|]. apply Hd.
Defined.

(** Zeros of different sign agree, although their bits differ; equal NaNs and
    infinities are reported. *)
Example diff_not_bitwise :
  diff (lit "x") [1] [S754_zero false] [S754_zero true] = None ∧
  (max_abs <$> diff (lit "x") [1] [S754_infinity false] [S754_infinity false]) = Some pos_infinity.
Proof. by vm_compute. Qed.

Definition gb_info : ModelInfo :=
  mkModelInfo 1 1 4 8 5 (lit <$> ["linear_attention"; "linear_attention"; "full_attention";
    "linear_attention"; "linear_attention"]%string) EPS one 16
    (mkGdnConfig 4 1 1 2 2 2 EPS) (mkAttnConfig 4 1 1 4 2 f1 EPS).

Lemma ssm_ordinal_spec_witness : ModelInfo.ssm_ordinal gb_info 4 = Some 3%nat.
Proof. apply (ssm_ordinal_spec gb_info 5 4 3); [lia|]. by vm_compute. Defined.
