(* ===== verification/CheckWitness.v ===== *)
(** * A recorded run for the theorems of the checking programs

    The bundle of [BundleWitness] extended with every intermediate of a run
    of the model it holds, so that the checking programs can pass on it. *)

From stdpp Require Import gmap.
From S2P Require Import Prelude Float Serde Rstr Utf8 PyJson JsonInstance Tensor Delta Gdn Attention Layer Model ModelProps ModelWitness.
From S2P Require Import Header Safetensors Real RealProps Bundle BundleProps Loader LoaderProps BundleWitness.
From S2P Require Import Args Exit Compare Deltacheck Gdncheck Bundlecmp.
#[local] Open Scope Z_scope.
#[local] Existing Instance demo_libm.

Definition gb_bundle : Bundle (J:=Value) :=
  match open gb_parse gb_fs (lit "/gb") with Ok b => b | Err _ => gb_empty end.

Definition ok_default {E A} (d : A) (r : result E A) : A := match r with Ok a => a | Err _ => d end.

Definition no_info : ModelInfo := mkModelInfo 0 0 0 0 0 [] EPS one 0 demo_gdn demo_attn.
Definition gc_info : ModelInfo := Eval vm_compute in ok_default no_info (load_model gb_bundle).

Definition gc_weights : ModelWeights :=
  let w := ok_default (mkModelWeights [] [] [] []) (load_model_weights gb_fs gb_bundle gc_info) in
  mkModelWeights (embed_tokens w) (final_norm w) (lm_head w)
    (ok_default [] (load_all_layers gb_fs gb_bundle gc_info)).

Definition gc_config : ModelConfig := ModelInfo.model_config gc_info.
Definition gc_trace : ModelTrace :=
  Eval vm_compute in ok_default (mkModelTrace [] [] [] [] 0 0) (forward 4 gc_config gc_weights [1; 2]).
Definition gc_greedy : list Z * list ModelTrace :=
  Eval vm_compute in ok_default ([], []) (Model.greedy 4 gc_config gc_weights [1; 2] 2).

(** One case of the delta rule. *)
Definition gc_case : list (rstr * vec) :=
  Eval vm_compute in
  let '(out, state) := default ([], []) (forward_prepared (mkShape 1 1 1 1 1) [f1] [f1] [two] [fzero] [f1]) in
  (λ nv : string * vec, (lit "delta_B1_H1_T1_K1_V1__" ++ lit nv.1, nv.2)) <$>
  [("q", [f1]); ("k", [f1]); ("v", [two]); ("g", [fzero]); ("beta", [f1]);
   ("recurrent_out", out); ("recurrent_state", state);
   ("chunked_out", out); ("chunked_state", state)]%string.

(** What is recorded: the case, the rotary tables, the steps of the two layers
    and of the model, and the logits of each decoding step. *)
Definition gc_recorded : list (rstr * vec) :=
  Eval vm_compute in
  let '(cos, sin) := default ([], []) (build_rope (mi_attn gc_info) 2 0) in
  map_to_list (list_to_map (M := gmap rstr vec) (
  gc_case ++
  [(lit "model__rotary_emb__out0", cos); (lit "model__rotary_emb__out1", sin)]
  ++ omap (λ s : check_step, (λ name, (name, s.1.2)) <$> s.2)
       (concat (imap (λ i tr, layer_steps (LayerCapture.new i (ModelInfo.ssm_ordinal gc_info i)) tr)
                  (tr_layers gc_trace))
        ++ model_steps gc_trace)
  ++ imap (λ k tr, (lit "greedy_step" ++ show_pad2 (Z.of_nat k) ++ lit "__logits",
                    default [] (last_logits tr))) (gc_greedy.2))).

Definition gc_new_entries : list TensorEntry :=
  (λ nv : rstr * vec, mkTensorEntry (lit "units") nv.1 (lit "units/" ++ nv.1 ++ lit ".f32")
     (if decide (nv.1 = lit "model__rotary_emb__out0") then [1; 2; 2] else [len nv.2])
     (lit "f32") (len nv.2) (4 * len nv.2))
  <$> filter (λ nv : rstr * vec, nv.1 ∉ (lit <$> gb_tensors.*1)) gc_recorded.

Definition gc_greedy_step (k : nat) (id : Z) : GreedyStep :=
  mkGreedyStep (Z.of_nat k) (Z.of_nat k + 2) id [id] [] fzero fzero.

Definition gc_manifest : Manifest (J:=Value) :=
  mkManifest (lit "qwen35-golden-v1") (lit "little") (lit "f32")
    (mkSource (lit "tiny") None None 0 0 one) gb_config [1; 2]
    ((gb_entry <$> gb_tensors) ++ gc_new_entries)
    (mkGreedy (imap gc_greedy_step (gc_greedy.1)) ([1; 2] ++ gc_greedy.1)).

Definition gc_parse (raw : list Z) : option (Manifest (J:=Value)) :=
  if decide (raw = lit "manifest") then Some gc_manifest else None.
Definition gc_fs : FS :=
  foldr (λ nv fs, write fs gb_empty
           (lit (if decide (nv.1 ∈ (lit <$> gb_tensors.*1)) then "weights" else "units")) nv.1 nv.2)
    gb_fs gc_recorded.
Definition gc_open : rstr → Bundle.outcome (Bundle (J:=Value)) := open gc_parse gc_fs.

Definition gc_args : list rstr :=
  lit <$> ["gdncheck"; "/gb"; "--chain"; "--model"; "--cached"]%string.

(** Both programs pass on the recorded bundle. *)
Definition gc_passes (b : Bundle (J:=Value)) : bool :=
  match load_model b with
  | Ok m =>
      bool_decide (gdncheck 4 gc_fs b gc_args m = Success) && bool_decide (deltacheck gc_fs b false = Success)
      && forallb (λ n, (1 <=? Z.of_nat n) && (Z.of_nat n <? 2 ^ 20))
           (config_sizes (ModelInfo.model_config m))
      && (mi_intermediate m <? 2 ^ 20) && forallb (λ id, 0 <=? id) (prompt_ids (b_manifest b))
  | Err _ => false
  end.

Lemma gc_opens : ∃ b, gc_open (lit "/gb") = Ok b ∧ gc_passes b = true.
Proof.
  assert (match gc_open (lit "/gb") with Ok b => gc_passes b | Err _ => false end = true)
    as Hb by (by vm_compute).
  revert Hb. generalize (gc_open (lit "/gb")). intros [b|]; [|done]. by exists b.
Qed.

Lemma gc_loads : ∃ b m, gc_open (lit "/gb") = Ok b ∧ load_model b = Ok m ∧
  gdncheck 4 gc_fs b gc_args m = Success ∧ deltacheck gc_fs b false = Success ∧
  info_small m ∧ Forall (λ id, 0 ≤ id) (prompt_ids (b_manifest b)).
Proof.
  destruct gc_opens as (b & Ho & Hp). unfold gc_passes in Hp.
  destruct (load_model b) as [m|] eqn:Hm; [|done]. exists b, m. split; [done|]. split; [done|].
  rewrite !andb_true_iff in Hp. destruct Hp as ((((Hg & Hd) & Hs) & Hi) & Hids).
  apply bool_decide_eq_true in Hg, Hd. rewrite forallb_forall in Hs, Hids.
  split; [done|]. split; [done|]. split; [split; [|lia]|].
  - apply Forall_forall. intros n Hn%list_elem_of_In. specialize (Hs n Hn). cbn beta in Hs. lia.
  - apply Forall_forall. intros id Hid%list_elem_of_In. specialize (Hids id Hid). cbn beta in Hids. lia.
Qed.

Lemma gdncheck_pass_witness : ∃ b m rope, gc_open (lit "/gb") = Ok b ∧ load_model b = Ok m ∧
  load_rope gc_fs b m = Ok rope ∧ model_agrees 4 gc_fs b m (tolerance_for (ssm_gain m)) true.
Proof.
  destruct gc_loads as (b & m & Ho & Hm & Hg & _). exists b, m.
  destruct (gdncheck_pass 4 gc_fs b gc_args m) as (rope & Hr & _ & _ & _ & Ha); [by vm_compute|exact Hg|].
  exists rope. split; [exact Ho|]. split; [exact Hm|]. split; [exact Hr|]. apply Ha. by vm_compute.
Defined.

Lemma whole_model_cached_witness : ∃ b m, gc_open (lit "/gb") = Ok b ∧ load_model b = Ok m ∧
  whole_model 4 gc_fs b m TOL true = whole_model 4 gc_fs b m TOL false.
Proof.
  destruct gc_loads as (b & m & Ho & Hm & _ & _ & Hs & Hp). exists b, m. split; [exact Ho|].
  split; [exact Hm|]. by apply (whole_model_cached 4 gc_fs b m TOL Hm Hs Hp).
Defined.

Lemma deltacheck_pass_witness : ∃ b, gc_open (lit "/gb") = Ok b ∧
  ∃ cases, discover b = Some cases ∧ cases ≠ [].
Proof.
  destruct gc_loads as (b & m & Ho & _ & _ & Hd & _). exists b. split; [exact Ho|].
  destruct (deltacheck_pass gc_fs b Hd) as (cases & Hc & Hne & _). exists cases. split; [exact Hc|exact Hne].
Defined.

Lemma run_steps_passes_witness :
  Checker.failed (run_steps ∅ gb_empty (Checker.new TOL) [(lit "conv + silu", [f1], None)]) = 0%nat.
Proof. apply (run_steps_passes ∅ gb_empty TOL); [by split; vm_compute|by constructor]. Defined.

Lemma describe_total_witness :
  is_Some (Checker.describe (run_steps ∅ gb_empty (Checker.new TOL) [(lit "conv + silu", [f1], None)])).
Proof. apply (describe_total ∅ gb_empty TOL). by split; vm_compute. Defined.

(** A layer whose outputs are all NaN passes its check: the tolerance is
    compared with the largest difference that is a number. *)
Example nan_passes :
  ck_ok <$> checks (Checker.compare (Checker.new TOL) [] [S754_nan; S754_nan] [f1; two]) = [true].
Proof. by vm_compute. Qed.

(** With [--layer] the program ends before the verdict of the rotary tables is
    looked at: tables that disagree still end in success. *)
Definition gc_rope_off : FS :=
  write gc_fs gb_empty (lit "units") (lit "model__rotary_emb__out0") (replicate 4 two).

Example layer_mode_ignores_rope :
  match gc_open (lit "/gb") with
  | Ok b => match load_model b with
            | Ok m => check_rope gc_rope_off b m TOL = Ok true ∧
                gdncheck 4 gc_rope_off b (lit <$> ["gdncheck"; "/gb"; "--layer"; "0"]%string) m = Success
            | Err _ => False
            end
  | Err _ => False
  end.
Proof. by vm_compute. Qed.

(** A decoding step whose logits are not recorded does not count. *)
Definition gc_no_logits : FS := delete (lit "/gb/units/greedy_step00__logits.f32") gc_fs.

Example missing_logits_pass :
  match gc_open (lit "/gb") with
  | Ok b => match load_model b with
            | Ok m => whole_model 4 gc_no_logits b m TOL false = Ok false
            | Err _ => False
            end
  | Err _ => False
  end.
Proof. by vm_compute. Qed.

(** ** bundlecmp *)

Definition gc_selftest : list rstr := lit <$> ["bundlecmp"; "selftest"; "/gb"]%string.

(** The bundle with a directory that holds a copy of its manifest only. *)
Definition gc_copy_fs : FS := <[lit "/copy/manifest.json" := lit "manifest"]> gc_fs.

Lemma gc_compares : ∃ b, gc_open (lit "/gb") = Ok b ∧
  cmd_selftest gc_fs gc_open gc_selftest = Success ∧ compare_ok gc_fs b b None default_max_rel = true.
Proof.
  assert (match gc_open (lit "/gb") with
    | Ok b => bool_decide (cmd_selftest gc_fs gc_open gc_selftest = Success)
              && compare_ok gc_fs b b None default_max_rel
    | Err _ => false
    end = true) as Hb by (by vm_compute).
  revert Hb. generalize (gc_open (lit "/gb")). intros [b|]; [|done].
  intros [Hs Hc]%andb_true_iff. exists b. split; [done|]. split; [by apply bool_decide_eq_true in Hs|done].
Qed.

Lemma selftest_exact_witness : ∃ g, gc_open (lit "/gb") = Ok g ∧
  ∀ e, e ∈ tensors (b_manifest g) →
    ∃ v, read_entry gc_fs g e = Ok v ∧ Forall (λ x, is_finite x = true) v.
Proof.
  destruct gc_compares as (g & Ho & Hs & _). exists g. split; [exact Ho|].
  refine (proj1 (selftest_exact gc_fs gc_open gc_selftest (lit "/gb") g _ Ho) Hs). by vm_compute.
Defined.

Lemma compare_pass_witness : ∃ g, gc_open (lit "/gb") = Ok g ∧ check_token_selfconsistency gc_fs g = [].
Proof.
  destruct gc_compares as (g & Ho & _ & Hc). exists g. split; [exact Ho|].
  destruct (compare_pass gc_fs g g None default_max_rel Hc) as (_ & Hg & _). exact Hg.
Defined.

(** What the copied manifest needs of the golden bundle. *)
Lemma gc_copies : ∃ g, open gc_parse gc_copy_fs (lit "/gb") = Ok g ∧
  check_token_selfconsistency gc_copy_fs g = [] ∧
  (∀ e, e ∈ tensors (b_manifest g) → gc_copy_fs !! join (lit "/copy") (te_file e) = None).
Proof.
  assert (match open gc_parse gc_copy_fs (lit "/gb") with
    | Ok g => bool_decide (check_token_selfconsistency gc_copy_fs g = [])
              && forallb (λ e, match gc_copy_fs !! join (lit "/copy") (te_file e) with None => true | _ => false end)
                   (tensors (b_manifest g))
    | Err _ => false
    end = true) as Hb by (by vm_compute).
  revert Hb. generalize (open gc_parse gc_copy_fs (lit "/gb")). intros [g|]; [|done].
  intros [Hs Hf]%andb_true_iff. exists g. split; [done|]. split; [by apply bool_decide_eq_true in Hs|].
  intros e Hin%list_elem_of_In. rewrite forallb_forall in Hf. specialize (Hf e Hin). cbn beta in Hf.
  by destruct (gc_copy_fs !! _).
Qed.

Lemma copied_manifest_passes_witness : ∃ g c, open gc_parse gc_copy_fs (lit "/gb") = Ok g ∧
  open gc_parse gc_copy_fs (lit "/copy") = Ok c ∧ compare_ok gc_copy_fs g c None default_max_rel = true.
Proof.
  destruct gc_copies as (g & Ho & Hs & Hf).
  destruct (copied_manifest_passes gc_copy_fs gc_parse (lit "/gb") (lit "/copy") g default_max_rel Ho Hs)
    as (c & Hc & _ & Hp); [by vm_compute|exact Hf|by vm_compute|].
  exists g, c. split; [exact Ho|]. split; [exact Hc|exact Hp].
Defined.
