(* ===== verification/TestKit.v ===== *)
(** * What the unit tests need: assertions, literals, a mathematical library

    The repository's own unit tests are run on the model.  A test is the
    conjunction of its assertions.  The class [Libm] gets an instance that
    computes in fixed point with 72 fractional bits and rounds once, which is
    what a platform's library returns but for the hardest cases. *)

From S2P Require Import Prelude Float Rstr Utf8 Args Tensor.
#[local] Open Scope Z_scope.

(** ** Assertions *)

#[global] Opaque Z.pow.
Definition all : list bool → bool := forallb id.

(** [assert_eq!] on values whose equality is decidable; on floats it is [==]. *)
Definition eq {A} `{EqDecision A} (x y : A) : bool := bool_decide (x = y).
Definition feq : spec_float → spec_float → bool := SFeqb.
Definition veq (v w : list spec_float) : bool :=
  bool_decide (length v = length w) && forallb (λ p, SFeqb p.1 p.2) (combine v w).

(** [(x - y).abs() < tol] in [f32]. *)
Definition near (tol x y : f32) : bool := SFltb (SFabs (F32.sub x y)) tol.
Definition vnear (tol : f32) (v w : list f32) : bool :=
  bool_decide (length v = length w) && forallb (λ p, near tol p.1 p.2) (combine v w).

Definition is_ok {E A} (r : result E A) : bool := match r with Ok _ => true | Err _ => false end.
Definition is_err {E A} (r : result E A) : bool := negb (is_ok r).
(** [r.unwrap_err()] satisfies [p]. *)
Definition err_is {E A} (p : E → bool) (r : result E A) : bool :=
  match r with Err e => p e | Ok _ => false end.
(** [r.unwrap()] satisfies [p]. *)
Definition ok_is {E A} (p : A → bool) (r : result E A) : bool :=
  match r with Ok a => p a | Err _ => false end.
Definition some_is {A} (p : A → bool) (o : option A) : bool :=
  match o with Some a => p a | None => false end.

Lemma all_app l k : all l = true → all k = true → all (l ++ k) = true.
Proof. unfold all. intros Hl Hk. by rewrite forallb_app, Hl, Hk. Qed.
Lemma all_true l : Forall (λ b, b = true) l → all l = true.
Proof. intros H. apply forallb_forall. intros b Hb%list_elem_of_In. by apply (proj1 (Forall_forall _ _) H). Qed.

Lemma all_true_inv l : all l = true → Forall (λ b, b = true) l.
Proof. intros H. apply Forall_forall. intros b Hb%list_elem_of_In. by apply (proj1 (forallb_forall id l) H). Qed.

(** One goal per list of tests, or per test of a list. *)
Ltac each_test :=
  repeat match goal with
         | |- all (_ ++ _) = true => apply all_app
         | |- Forall _ (_ :: _) => apply Forall_cons_2
         | |- Forall _ [] => apply Forall_nil_2
         end.

(** [v[i]]; the panic is a NaN, which no comparison accepts. *)
Definition ix (v : list spec_float) (i : nat) : spec_float := nth i v S754_nan.
(** [assert_eq!] on the bits. *)
Definition biteq (v w : list spec_float) : bool := bool_decide (v = w).

(** ** Literals *)

Definition f32l (s : string) : f32 := default S754_nan (parse_f32 (lit s)).
Definition f64l (s : string) : f64 := default S754_nan (parse_f64 (lit s)).
Definition f32_of (n : Z) : f32 := F32.of_Z n.
Definition f32s (l : list string) : list f32 := f32l <$> l.

(** A string literal of the source: UTF-8, with Rust's escapes; [\q] stands for
    an escaped double quote. *)
Inductive escape := Plain | Slash | Brace | Hex (n : Z).
Fixpoint unescape (st : escape) (s : list Z) : rstr :=
  match s with
  | [] => []
  | c :: s =>
      match st with
      | Plain => if c =? 92 then unescape Slash s else c :: unescape Plain s
      | Slash =>
          if c =? 117 then unescape Brace s else
          (match c with 110 => 10 | 114 => 13 | 116 => 9 | 113 => 34 | _ => c end) :: unescape Plain s
      | Brace => unescape (Hex 0) s
      | Hex n =>
          if c =? 125 then n :: unescape Plain s
          else unescape (Hex (16 * n + (if c <=? 57 then c - 48 else Z.lor c 32 - 87))) s
      end
  end.
Definition rust (s : string) : rstr := unescape Plain (from_utf8_lossy (lit s)).

Example rust_literal : rust "é\\n\n\q\u{1F600}" = [0xE9; 92; 110; 10; 34; 0x1F600].
Proof. vm_compute. reflexivity. Qed.

(** ** Fixed point *)

Definition FX : Z := 72.
Definition ONE : Z := 2 ^ 72.
Definition LN2 : Z := 3273295013171879848906.
Definition PIO2 : Z := 7417875925070973790602.
Definition INV_LN2 : Z := 6812934706096293115773.
Definition INV_PIO2 : Z := 3006351875360769255932.

Definition fxmul (x y : Z) : Z := Z.shiftr (x * y) FX.

(** [m * 2^e] in fixed point. *)
Definition fx_of (s : bool) (m : positive) (e : Z) : Z :=
  let n := Z.shiftl (Zpos m) (e + FX) in if s then - n else n.
Definition f32_of_fx (n e : Z) : f32 := binary_normalize F32.prec F32.emax n (e - FX) false.

(** [1 / n!] for [n] from 0. *)
Definition inv_factorials : list Z := Eval vm_compute in
  reverse (foldl (λ l n, match l with x :: _ => x / Z.of_nat n :: l | [] => [] end) [ONE] (seq 1 24)).

(** The sum of [c_n * x^n]. *)
Definition horner (x : Z) (cs : list Z) : Z := foldr (λ c acc, c + fxmul x acc) 0 cs.

(** [e^x] for a fixed-point [x]. *)
Definition exp_fx (x : Z) : f32 :=
  if 200 * ONE <? x then pos_infinity else if x <? - 200 * ONE then fzero else
  let k := Z.shiftr (fxmul x INV_LN2) FX in
  f32_of_fx (horner (x - k * LN2) inv_factorials) k.

(** [1 / (2n + 1)] for [n] from 0. *)
Definition inv_odds : list Z := Eval vm_compute in (λ n, ONE / (2 * Z.of_nat n + 1)) <$> seq 0 24.

(** [ln (m * 2^e)]: the significand is brought to [2/3, 4/3). *)
Definition ln_fx (m : positive) (e : Z) : Z :=
  let d := Z.log2 (Zpos m) in
  let y := Z.shiftl (Zpos m) (FX - d) in
  let '(y, k) := if 4 * ONE <? 3 * y then (Z.shiftr y 1, d + e + 1) else (y, d + e) in
  let z := Z.shiftl (y - ONE) FX / (y + ONE) in
  k * LN2 + 2 * fxmul z (horner (fxmul z z) inv_odds).

(** [sin] and [cos] of a fixed-point number, by quadrant. *)
Definition alternate (cs : list Z) : list Z := imap (λ i c, if Nat.even i then c else - c) cs.
Definition sin_coeffs : list Z := Eval vm_compute in
  alternate ((λ i, nth (2 * i + 1) inv_factorials 0) <$> seq 0 12).
Definition cos_coeffs : list Z := Eval vm_compute in
  alternate ((λ i, nth (2 * i) inv_factorials 0) <$> seq 0 12).

Definition sin_fx (x quadrants : Z) : Z :=
  let q := Z.shiftr (fxmul x INV_PIO2 + ONE / 2) FX in
  let r := x - q * PIO2 in
  let s := fxmul r (horner (fxmul r r) sin_coeffs) in
  let c := horner (fxmul r r) cos_coeffs in
  match (q + quadrants) mod 4 with 0 => s | 1 => c | 2 => - s | _ => - c end.

#[export] Instance RefLibm : Libm := {|
  fexp x := match x with
            | S754_zero _ => f1 | S754_infinity true => fzero | S754_infinity false => pos_infinity
            | S754_nan => S754_nan
            | S754_finite s m e => if e + FX <? -40 then f1 else exp_fx (fx_of s m e)
            end;
  fln x := match x with
           | S754_zero _ => neg_infinity | S754_infinity false => pos_infinity
           | S754_finite false m e => f32_of_fx (ln_fx m e) 0
           | _ => S754_nan
           end;
  fcos x := match x with
            | S754_zero _ => f1 | S754_finite s m e => f32_of_fx (sin_fx (fx_of s m e) 1) 0 | _ => S754_nan
            end;
  fsin x := match x with
            | S754_zero _ => x | S754_finite s m e => f32_of_fx (sin_fx (fx_of s m e) 0) 0 | _ => S754_nan
            end;
  fpowf x y := match x, y with
               | _, S754_zero _ => f1
               | S754_finite false m e, S754_finite s n k => exp_fx (fxmul (ln_fx m e) (fx_of s n k))
               | _, _ => S754_nan
               end;
|}.

Example exp_one : fexp f1 = f32l "2.7182818284590452354".
Proof. vm_compute. reflexivity. Qed.
Example exp_small : fexp (f32l "-87.25") = f32l "1.281759231314744205e-38".
Proof. vm_compute. reflexivity. Qed.
Example ln_ten : fln (f32l "10") = f32l "2.30258509299404568402".
Proof. vm_compute. reflexivity. Qed.
Example sin_ten : fsin (f32l "10") = f32l "-0.54402111088936981340".
Proof. vm_compute. reflexivity. Qed.
Example cos_three : fcos (f32l "3") = f32l "-0.98999249660044545727".
Proof. vm_compute. reflexivity. Qed.
Example pow_root : fpowf (f32l "10000") (f32l "-0.5") = f32l "0.01".
Proof. vm_compute. reflexivity. Qed.
