(* ===== verification/SampleWitness.v ===== *)
(** * Sampling on concrete logits

    Witnesses of the theorems of [SampleProps], the unit tests of sample.rs,
    and behaviours of the filters and of the draw worth recording. *)

From S2P Require Import Prelude Float Rstr Args Tensor Bundle Sample SampleProps TestKit.
#[local] Open Scope Z_scope.

Definition demo_logits : list f32 := [F32.of_Z 1; F32.of_Z 3; F32.of_Z 3; FILTERED; F32.of_Z 2].
Definition demo_config : SamplerConfig :=
  mkConfig fone 2 fone fzero fone (F64.of_Z 2) fzero fzero 2 7.

(** A stand-in for the exponential. *)
Definition demo_exp (x : f32) : f32 := F32.div fone32 (F32.sub fone32 x).

Definition demo_next := next demo_exp (λ x, x) (mkSampler demo_config 7) demo_logits [1; 0; 1].

Lemma demo_next_ok : match demo_next with (Ok _, _, _) => true | _ => false end = true.
Proof. vm_compute. reflexivity. Qed.

Lemma next_not_filtered_witness : ∃ t out s', demo_next = (Ok t, out, s')
  ∧ out = apply_filters demo_exp (λ x, x) demo_config [1; 0; 1] demo_logits
  ∧ ∃ i v, t = wrap32 (Z.of_nat i) ∧ out !! i = Some v ∧ is_filtered v = false.
Proof.
  pose proof demo_next_ok as H. destruct demo_next as [[[t|e] out] s'] eqn:E; [|discriminate H].
  exists t, out, s'. split; [reflexivity|].
  exact (next_not_filtered demo_exp (λ x, x) (mkSampler demo_config 7) demo_logits [1; 0; 1] t out s' E).
Defined.

Lemma no_repeat_ngram_spec_witness :
  (occurs_in (suffix_of 2 [0; 2; 0] ++ [Z.of_nat 2]) [0; 2; 0] →
   no_repeat_ngram demo_logits [0; 2; 0] 2 !! 2%nat = Some FILTERED)
  ∧ (¬ occurs_in (suffix_of 2 [0; 2; 0] ++ [Z.of_nat 2]) [0; 2; 0] →
   no_repeat_ngram demo_logits [0; 2; 0] 2 !! 2%nat = demo_logits !! 2%nat).
Proof.
  apply (no_repeat_ngram_spec demo_logits [0; 2; 0] 2 2); [lia|cbn; lia| |cbn; lia].
  repeat constructor; lia.
Defined.

Lemma top_k_spec_witness : ∃ kth, kth ∈ demo_logits
  ∧ top_k demo_logits 1 = (λ v, if SFltb v kth then FILTERED else v) <$> demo_logits
  ∧ (1 ≤ length (filter (λ v, SFltb v kth = false) demo_logits))%nat
  ∧ (length (filter (λ v, SFltb kth v = true) demo_logits) < 1)%nat.
Proof.
  apply (top_k_spec demo_logits 1); [|cbn; lia]. apply (bool_decide_unpack _). vm_compute. exact I.
Defined.

Lemma penalties_spec_witness :
  repetition_penalty demo_logits [1; 1] (F32.of_Z 2) !! 1%nat = Some (F32.div (F32.of_Z 3) (F32.of_Z 2)).
Proof.
  destruct (penalties_spec demo_logits [1; 1] (F32.of_Z 2) 1) as [H _]. rewrite H; vm_compute; reflexivity.
Defined.

(** [min_p] above 1, which [validate] rejects but the filter itself accepts,
    masks every token: the value it restores is recomputed after masking. *)
Theorem min_p_masks_everything :
  min_p (λ _, fone32) [fzero; fzero] (F64.of_Z 2) = [FILTERED; FILTERED].
Proof. vm_compute. reflexivity. Qed.

(** A negative [min_p] is documented as off and refused by [validate]. *)
Theorem validate_negative_min_p :
  validate (mkConfig fzero 0 fone (SFopp fone) fone fone fzero fzero 0 0) = Err MinPRange.
Proof. vm_compute. reflexivity. Qed.

(** The vectors of the source's own test, and a draw. *)
Example generator_vectors :
  next_u64 0 = (0xE220A8397B1DCDAF, 0x9E3779B97F4A7C15) ∧
  next_u64 0x9E3779B97F4A7C15 = (0x6E789E6AA1B965F4, 0x3C6EF372FE94F82A) ∧
  (next_f64 42).1 = S754_finite false 6679422623415661 (-53).
Proof. vm_compute. done. Qed.

(** ** The unit tests of sample.rs

    Each definition is the test of the same name.  The three tests that draw
    thousands of numbers are left out. *)

Module SampleTests.

(** The functions over this library's [exp] and [ln]. *)
Abbreviation softmax := (softmax fexp).
Abbreviation top_p := (top_p fexp).
Abbreviation min_p := (min_p fexp).
Abbreviation typical_p := (typical_p fexp fln).
Abbreviation log_softmax_in_place := (log_softmax_in_place fexp fln).
Abbreviation apply_filters := (apply_filters fexp fln).
Abbreviation next := (next fexp fln).

Definition with_temperature (t : f64) : SamplerConfig := mkConfig t 0 fone fzero fone fone fzero fzero 0 0.
Definition cfg : SamplerConfig := mkConfig fone 0 fone fzero fone fone fzero fzero 0 12345.

Definition measured_logits : list f32 := fln <$> f32s ["0.5"; "0.25"; "0.125"; "0.0625"; "0.0625"]%string.

Definition kept (logits : list f32) : list nat :=
  filter (λ i, is_filtered (at_ logits i) = false) (seq 0 (length logits)).

Definition top_k_thresholds_instead_of_sorting : bool :=
  let tied := f32s ["1.0"; "1.0"; "1.0"; "1.0"; "0.5"; "0.5"]%string in
  all [eq (kept (top_k tied 1)) [0; 1; 2; 3]%nat;
       eq (kept (top_k tied 5)) [0; 1; 2; 3; 4; 5]%nat;
       eq (kept (top_k (f32s ["3.0"; "2.0"; "1.0"; "0.0"]%string) 2)) [0; 1]%nat;
       eq (kept (top_k (f32s ["3.0"; "2.0"]%string) 9)) [0; 1]%nat].

Definition top_p_ascending_scan_reproduces_the_measured_kept_sets : bool :=
  forallb (λ '(p, want), eq (kept (top_p measured_logits (to_f64 (f32l p)))) want)
    [("1.0", [0; 1; 2; 3; 4]); ("0.99", [0; 1; 2; 3; 4]); ("0.95", [0; 1; 2; 3; 4]);
     ("0.9", [0; 1; 2; 4]); ("0.875", [0; 1; 2]); ("0.8", [0; 1; 2]); ("0.76", [0; 1; 2]);
     ("0.75", [0; 1]); ("0.6", [0; 1]); ("0.5", [0]); ("0.49", [0]); ("0.01", [0]);
     ("0.0", [0])]%nat%string.

Definition the_top_p_tie_winner_is_the_lower_id_not_the_higher_one : bool :=
  eq (kept (top_p measured_logits (f64l "0.9"))) [0; 1; 2; 4]%nat.

Definition top_p_on_a_flat_distribution_matches_the_measured_counts : bool :=
  let flat := replicate 96 fzero in
  forallb (λ '(p, mine, reference),
      let p := f64l p in
      let l := top_p flat p in
      let masked := length (filter (λ v, is_filtered v = true) l) in
      all [eq masked mine;
           eq mine reference || (feq p (f64l "0.75") && eq reference (mine + 1)%nat);
           eq (kept l !! 0%nat) (Some masked);
           eq (length (kept l)) (96 - masked)%nat])
    [("0.99", 0, 0); ("0.95", 4, 4); ("0.9", 9, 9); ("0.8", 19, 19); ("0.75", 23, 24);
     ("0.5", 48, 48)]%nat%string
  && eq (kept (top_p flat fzero)) [95]%nat.

Definition the_top_p_threshold_keeps_the_reference_rounding : bool :=
  let from_f32_config := to_f32 (F64.sub fone (to_f64 (f32l "0.8"))) in
  all [forallb (λ p, feq (top_p_threshold (f64l p)) (to_f32 (F64.sub fone (f64l p))))
         ["0.8"; "0.9"; "0.95"; "0.99"; "0.75"; "0.5"]%string;
       feq (top_p_threshold (f64l "0.8")) (f32l "0.2");
       eq (to_bits from_f32_config + 1) (to_bits (top_p_threshold (f64l "0.8")))].

Definition min_p_is_strict_and_computed_inside : bool :=
  all [forallb (λ '(mp, want), eq (kept (min_p measured_logits (to_f64 (f32l mp)))) want)
         [("0.0", [0; 1; 2; 3; 4]); ("0.01", [0; 1; 2; 3; 4]); ("0.1", [0; 1; 2; 3; 4]);
          ("0.25", [0; 1; 2]); ("0.5", [0; 1]); ("0.99", [0]); ("1.0", [0])]%nat%string;
       negb (is_filtered (at_ (min_p measured_logits (f64l "0.25")) 2))].

Definition min_p_sees_what_top_p_already_removed : bool :=
  let l := top_p measured_logits (f64l "0.5") in
  all [eq (kept l) [0%nat]; eq (kept (min_p l (f64l "0.1"))) [0%nat]].

Definition typical_p_reproduces_the_measured_kept_sets : bool :=
  forallb (λ '(tp, want), eq (kept (typical_p measured_logits (to_f64 (f32l tp)))) want)
    [("0.1", [1]); ("0.5", [0; 1]); ("0.9", [0; 1; 2; 3; 4]); ("0.99", [0; 1; 2; 3; 4])]%nat%string.

Definition typical_p_survives_a_masked_token : bool :=
  let l := <[1%nat := FILTERED]> measured_logits in
  let before := kept l in
  let l := typical_p l (f64l "0.5") in
  let after := kept l in
  all [eq before [0; 2; 3; 4]%nat; negb (eq after []); is_filtered (at_ l 1);
       bool_decide (length after < length before)%nat].

Definition typical_p_uses_a_strict_comparison_at_an_exact_hit : bool :=
  forallb (λ '(logits, mass),
      let l := typical_p (f32s logits) (f64l mass) in
      eq (kept l) [0; 1; 2]%nat && is_filtered (at_ l 3))
    [(["0.0"; "0.0"; "0.0"; "0.5"], "0.645338773727417");
     (["0.0"; "0.0"; "0.0"; "1.0"], "0.5246331095695496")]%string.

Definition repetition_penalty_is_asymmetric_and_once_per_token : bool :=
  let base := f32s ["2.0"; "-2.0"; "3.0"; "0.0"; "-1.0"]%string in
  let a := repetition_penalty base [1; 1; 2; 4] (f32l "1.5") in
  all [veq a (f32s ["2.0"; "-3.0"; "2.0"; "0.0"; "-1.5"]%string);
       feq (at_ a 1) (f32l "-3.0");
       veq (repetition_penalty base [1; 1; 2; 4] (f32l "2.0"))
         (f32s ["2.0"; "-4.0"; "1.5"; "0.0"; "-2.0"]%string);
       feq (at_ (repetition_penalty [f32l "1.0"; FILTERED] [1] (f32l "2.0")) 1) FILTERED;
       veq (repetition_penalty [f32l "1.0"] [99] (f32l "2.0")) [f32l "1.0"]].

Definition frequency_penalty_really_is_per_occurrence : bool :=
  let zeros := replicate 3 fzero in
  all [veq (frequency_penalty zeros [1; 1; 1; 2] (f32l "0.5")) (f32s ["0.0"; "-1.5"; "-0.5"]%string);
       veq (presence_penalty zeros [1; 1; 1; 2] (f32l "0.5")) (f32s ["0.0"; "-0.5"; "-0.5"]%string)].

Definition no_repeat_ngram_bans_what_followed_the_suffix : bool :=
  let ban (ids : list Z) (n : nat) : list nat :=
    let l := no_repeat_ngram (replicate 16 fzero) ids n in
    filter (λ i, is_filtered (at_ l i) = true) (seq 0 (length l)) in
  all [eq (ban [1; 2; 1; 2] 2%nat) [1%nat]; eq (ban [3; 3; 3] 2%nat) [3%nat];
       eq (ban [1; 2; 3; 1; 2] 2%nat) [3%nat]; eq (ban [1; 2; 1; 2] 3%nat) [1%nat];
       eq (ban [1; 2; 3; 1; 2] 3%nat) [3%nat]; eq (ban [5; 6; 7; 8; 6; 7] 3%nat) [8%nat];
       eq (ban [5; 6; 7; 8; 6; 7] 2%nat) [8%nat]; eq (ban [1] 3%nat) [];
       eq (ban [1; 2; 1; 2] 0%nat) []; eq (ban [1; 2; 1; 2] 1%nat) []].

(** "filtered out" *)
Definition everything_filtered (e : NextError) : bool :=
  match e with EverythingFiltered => true | NoToken => false end.

(** [Sampler::new(c).unwrap().next(l, history)], the result alone. *)
Definition first_draw (c : SamplerConfig) (l : list f32) (history : list Z) : result NextError Z :=
  match new_sampler c with
  | Ok s => (next s l history).1.1
  | Err _ => Err NoToken
  end.

Definition no_repeat_ngram_can_ban_everything_and_that_is_reported : bool :=
  err_is everything_filtered
    (first_draw (mkConfig fone 0 fone fzero fone fone fzero fzero 2 0) [f32l "1.0"] [0; 0]).

Definition probs_do_not_overflow_and_survive_masking : bool :=
  let p := softmax (f32s ["100.0"; "100.0"; "-100.0"]%string) in
  all [forallb is_finite p;
       near (f32l "1e-6") (at_ p 0) (f32l "0.5") && near (f32l "1e-6") (at_ p 1) (f32l "0.5");
       feq (at_ p 2) fzero;
       veq (softmax [FILTERED; FILTERED]) [fzero; fzero];
       veq (softmax []) []].

Definition select_walks_ascending_by_id : bool :=
  let p := f32s ["0.5"; "0.25"; "0.125"; "0.125"]%string in
  forallb (λ '(u, want), eq (select p (f64l u)) (Some want))
    [("0.0", 0); ("0.4999", 0); ("0.5", 1); ("0.7499", 1); ("0.75", 2); ("0.8749", 2); ("0.875", 3);
     ("0.999999999", 3); ("1.5", 3)]%nat%string
  && all [eq (select (f32s ["0.0"; "1.0"; "0.0"]%string) fzero) (Some 1%nat);
          eq (select (f32s ["0.0"; "0.0"]%string) fzero) None].

(** [n] draws from the same logits; [None] when one fails. *)
Fixpoint draws (n : nat) (s : Sampler) (l : list f32) : option (list Z) :=
  match n with
  | O => Some []
  | S n =>
      match next s l [] with
      | (Ok t, _, s) => cons t <$> draws n s l
      | _ => None
      end
  end.

Definition a_seed_is_reproducible_and_a_different_seed_is_not : bool :=
  let mk (seed : Z) : option (list Z) :=
    match new_sampler (mkConfig fone 0 fone fzero fone fone fzero fzero 0 seed) with
    | Ok s => draws 32 s (replicate 4 (f32l "1.0"))
    | Err _ => None
    end in
  all [bool_decide (is_Some (mk 7)); eq (mk 7) (mk 7); negb (eq (mk 7) (mk 8))].

(** The first outputs with the states after them, and the first floats. *)
Fixpoint outputs (n : nat) (state : Z) : list (Z * Z) :=
  match n with
  | O => []
  | S n => let '(out, state) := next_u64 state in (state, out) :: outputs n state
  end.
Fixpoint floats (n : nat) (state : Z) : list f64 :=
  match n with
  | O => []
  | S n => let '(u, state) := next_f64 state in u :: floats n state
  end.

Definition the_rng_matches_its_definition_exactly : bool :=
  forallb (λ '(seed, pairs, f64s),
      eq (outputs (length pairs) seed) pairs && veq (floats (length f64s) seed) (f64l <$> f64s))
    [(0x0,
      [(0x9E3779B97F4A7C15, 0xE220A8397B1DCDAF); (0x3C6EF372FE94F82A, 0x6E789E6AA1B965F4);
       (0xDAA66D2C7DDF743F, 0x06C45D188009454F); (0x78DDE6E5FD29F054, 0xF88BB8A8724C81EC)],
      ["0.8833108082136426"; "0.43152799704850997"; "0.026433771592597743"]);
     (0x1,
      [(0x9E3779B97F4A7C16, 0x910A2DEC89025CC1); (0x3C6EF372FE94F82B, 0xBEEB8DA1658EEC67);
       (0xDAA66D2C7DDF7440, 0xF893A2EEFB32555E); (0x78DDE6E5FD29F055, 0x71C18690EE42C90B)],
      ["0.5665615751722809"; "0.7457817572627011"; "0.9710027535867962"]);
     (0xDEADBEEF,
      [(0x9E3779BA5DF83B04, 0x4ADFB90F68C9EB9B); (0x3C6EF373DD42B719, 0xDE586A3141A10922);
       (0xDAA66D2D5C8D332E, 0x021FBC2F8E1CFC1D); (0x78DDE6E6DBD7AF43, 0x7466CE737BE16790)],
      ["0.29247624040798537"; "0.868536602998237"; "0.00829673920644669"])]%string.

Definition temperature_zero_is_greedy_and_not_a_division_by_zero : bool :=
  all [match new_sampler (with_temperature fzero) with
       | Ok s => eq (draws 8 s (f32s ["0.1"; "5.0"; "0.2"]%string)) (Some (replicate 8 1))
       | Err _ => false
       end;
       is_greedy (with_temperature fzero); negb (is_greedy cfg)].

Definition an_all_filtered_pipeline_is_an_error_not_a_nan_token : bool :=
  err_is everything_filtered (first_draw (with_temperature fone) [FILTERED; FILTERED] []).

Definition config_validation_catches_the_shapes_that_cannot_work : bool :=
  all [is_err (validate (mkConfig fzero 0 (f64l "1.5") fzero fone fone fzero fzero 0 0));
       is_err (validate (mkConfig fzero 0 fone (f64l "-0.1") fone fone fzero fzero 0 0));
       is_err (validate (mkConfig fzero 0 fone fzero fone fzero fzero fzero 0 0));
       is_err (validate (with_temperature S754_nan));
       is_err (validate (mkConfig fzero 0 fone fzero fone fone fzero fzero 1 0));
       is_ok (validate (mkConfig fzero 0 fone fzero fone fone fzero fzero 2 0))].

Definition log_softmax_cannot_change_the_distribution : bool :=
  let logits := f32s ["2.0"; "1.0"; "0.5"; "0.1"; "-1.0"]%string ++ [FILTERED] in
  let before := softmax logits in
  let after_l := log_softmax_in_place logits in
  let after := softmax after_l in
  let total (v : list f32) : f64 := foldl (λ acc x, F64.add acc (to_f64 x)) fzero v in
  all [forallb (λ '(a, b),
           SFltb (SFabs (F64.sub (F64.div (to_f64 a) (total before)) (F64.div (to_f64 b) (total after))))
             (f64l "1e-6")) (combine before after);
       feq (at_ after_l 5) FILTERED].

Definition the_penalty_runs_before_top_k_and_that_is_observable : bool :=
  let logits := f32s ["3.0"; "2.5"; "2.0"]%string in
  let a := top_k (repetition_penalty logits [0] (f32l "2.0")) 1 in
  let b := repetition_penalty (top_k logits 1) [0] (f32l "2.0") in
  all [eq (kept a) [1%nat]; eq (kept b) [0%nat]; negb (eq (kept a) (kept b))].

Definition temperature_and_a_repetition_penalty_commute : bool :=
  let logits := f32s ["-2.0"; "1.0"; "0.5"]%string in
  let a := temperature (repetition_penalty logits [0] (f32l "2.0")) (f32l "0.5") in
  let b := repetition_penalty (temperature logits (f32l "0.5")) [0] (f32l "2.0") in
  vnear (f32l "1e-6") a b.

Definition the_pipeline_is_the_union_of_its_stages : bool :=
  let l := f32s ["1.0"; "-2.0"; "3.5"; "0.0"]%string in
  let c := mkConfig (f64l "0.8") 3 (f64l "0.9") (f64l "0.05") (f64l "0.95") (f64l "1.3") (f64l "0.1")
             (f64l "0.2") 2 1 in
  let hist := [1; 2; 1; 2] in
  let start := f32s ["2.0"; "1.5"; "1.0"; "0.5"; "0.25"]%string in
  let want := repetition_penalty start hist (f32l "1.3") in
  let want := presence_penalty want hist (f32l "0.1") in
  let want := frequency_penalty want hist (f32l "0.2") in
  let want := no_repeat_ngram want hist 2 in
  let want := temperature want (f32l "0.8") in
  let want := top_k want 3 in
  let want := top_p want (f64l "0.9") in
  let want := min_p want (f64l "0.05") in
  let want := typical_p want (f64l "0.95") in
  all [is_ok (new_sampler (with_temperature fone));
       veq l (apply_filters (with_temperature fone) [0; 1; 2; 3] l);
       is_ok (new_sampler c);
       veq (apply_filters c hist start) want].

Definition tests : list bool :=
  [top_k_thresholds_instead_of_sorting; top_p_ascending_scan_reproduces_the_measured_kept_sets;
   the_top_p_tie_winner_is_the_lower_id_not_the_higher_one;
   top_p_on_a_flat_distribution_matches_the_measured_counts;
   the_top_p_threshold_keeps_the_reference_rounding; min_p_is_strict_and_computed_inside;
   min_p_sees_what_top_p_already_removed; typical_p_reproduces_the_measured_kept_sets;
   typical_p_survives_a_masked_token; typical_p_uses_a_strict_comparison_at_an_exact_hit;
   repetition_penalty_is_asymmetric_and_once_per_token; frequency_penalty_really_is_per_occurrence;
   no_repeat_ngram_bans_what_followed_the_suffix;
   no_repeat_ngram_can_ban_everything_and_that_is_reported;
   probs_do_not_overflow_and_survive_masking; select_walks_ascending_by_id;
   a_seed_is_reproducible_and_a_different_seed_is_not; the_rng_matches_its_definition_exactly;
   temperature_zero_is_greedy_and_not_a_division_by_zero;
   an_all_filtered_pipeline_is_an_error_not_a_nan_token;
   config_validation_catches_the_shapes_that_cannot_work;
   log_softmax_cannot_change_the_distribution;
   the_penalty_runs_before_top_k_and_that_is_observable;
   temperature_and_a_repetition_penalty_commute; the_pipeline_is_the_union_of_its_stages].

Lemma sample_tests_pass : all tests = true.
Proof. vm_compute. reflexivity. Qed.

(** At temperature zero [Sampler::next] is not greedy: no filter scales the
    logits and the draw is from their softmax.  The test above passes because
    the largest logit has nearly all the mass; here the other token is drawn. *)
Theorem temperature_zero_draws :
  (first_draw (with_temperature fzero) (f32s ["1.0"; "0.5"]%string) []) = Ok 1
  ∧ is_greedy (with_temperature fzero) = true.
Proof. vm_compute. done. Qed.
End SampleTests.
