(* ===== verification/ChatWitness.v ===== *)
(** * The chat template: witnesses on a conversation with a tool loop *)

From S2P Require Import Prelude Rstr Utf8 Float PyJson Pretokenize Chat ChatProps ChatParse ChatParseProps.

Definition demo_call : FunctionCall := mkCall (lit "add") [(lit "a", Int 1); (lit "b", Str (lit "x y"))].
Definition demo_answer : Message := mkMessage Assistant (CText (lit "ok")) (Some (lit "hm")) [demo_call].
Definition demo_conversation : list Message :=
  [new_message System (lit "be brief"); mkMessage User (Parts [PText (lit "see "); Image]) None [];
   demo_answer; new_message Tool (lit "2"); new_message Tool (lit "3");
   new_message Assistant (lit "done")].
Definition demo_request : Request := mkRequest demo_conversation [Object []] (mkOptions true false true).

Definition demo_rendered : Rendered :=
  match render demo_request with Ok r => r | Err _ => mkRendered [] 0 0 end.

Lemma demo_renders : render demo_request = Ok demo_rendered.
Proof.
  assert (match render demo_request with Ok _ => true | Err _ => false end = true) as H
    by (vm_compute; reflexivity).
  unfold demo_rendered. destruct (render demo_request); [reflexivity|discriminate H].
Qed.

Lemma render_turns_witness : ∃ turns,
  text demo_rendered = concat (turn <$> turns) ++ generation_prompt (opts demo_request)
  ∧ turns.*1 =
    (if bool_decide (tools demo_request ≠ [] ∨ (role <$> head (messages demo_request)) = Some System)
     then [lit "system"] else []) ++ turn_roles false (messages demo_request).
Proof. apply (render_turns demo_request demo_rendered); [discriminate|exact demo_renders]. Defined.

Lemma render_counts_witness :
  images demo_rendered = image_count (messages demo_request)
  ∧ videos demo_rendered = video_count (messages demo_request).
Proof. apply (render_counts demo_request demo_rendered). exact demo_renders. Defined.

Definition demo_text_request : Request :=
  mkRequest [new_message User (lit "hi"); demo_answer] [] (mkOptions false false false).

Lemma render_outcome_witness :
  match render demo_text_request with
  | Ok _ => messages demo_text_request ≠ [] ∧ Exists query (messages demo_text_request)
      ∧ ∀ i m, messages demo_text_request !! i = Some m → bad_role i m = None
  | Err e =>
      (messages demo_text_request = [] ∧ e = ERR_NO_MESSAGES)
      ∨ (messages demo_text_request ≠ [] ∧ ¬ Exists query (messages demo_text_request) ∧ e = ERR_NO_USER_QUERY)
      ∨ (messages demo_text_request ≠ [] ∧ Exists query (messages demo_text_request)
         ∧ ∃ i m, messages demo_text_request !! i = Some m ∧ bad_role i m = Some e
           ∧ ∀ j m', (j < i)%nat → messages demo_text_request !! j = Some m' → bad_role j m' = None)
  end.
Proof. apply (render_outcome demo_text_request). repeat constructor. Defined.

(** An unknown role before the only user query is not reported as a missing
    query: the query is found, and the role is refused. *)
Theorem unknown_role_before_query :
  render (mkRequest [new_message (OtherRole (lit "developer")) (lit "x"); new_message User (lit "hi")] []
            (mkOptions false false false)) = Err ERR_UNEXPECTED_ROLE.
Proof. vm_compute. done. Qed.

(** A tool result that comes first is written into no turn. *)
Theorem tool_first_unopened : ∃ r rest,
  render (mkRequest [new_message Tool (lit "42"); new_message User (lit "hi")] [] (mkOptions false false false)) = Ok r ∧
  text r = NL ++ lit "<tool_response>" ++ NL ++ lit "42" ++ rest.
Proof. eexists _, _. vm_compute. split; reflexivity. Qed.

Lemma parse_render_witness : ∃ body reply,
  assistant_block demo_answer 1 0 (lit "ok") = turn (lit "assistant", body)
  ∧ parse_assistant body = Some reply
  ∧ reply = mkReply (Some (jinja_trim (lit "hm"))) (jinja_trim (lit "ok")) (stringify <$> tool_calls demo_answer)
  ∧ (assistant_block (as_message reply) 1 0 (jinja_trim (lit "ok")) = assistant_block demo_answer 1 0 (lit "ok")
     ↔ jinja_trim (lit "ok") = lit "ok").
Proof.
  apply (parse_render demo_answer (lit "ok") 1 0 (lit "hm") (lit "ok")); [lia|reflexivity|..].
  - reflexivity.
  - reflexivity.
  - reflexivity.
  - constructor; [|constructor]. split; [discriminate|]. split; [reflexivity|]. split; [|reflexivity].
    repeat constructor.
Defined.

Lemma parse_assistant_returns_witness : ∃ reply, parse_assistant (lit "<tool_call>") = Some reply.
Proof.
  apply (parse_assistant_returns (lit "<tool_call>")). unfold ascii. apply (bool_decide_unpack _). vm_compute. exact I.
Defined.
