(* ===== verification/Qwenrun.v ===== *)
(** * gdn: the command line and the conversation loop of qwenrun

    Models the logic of qwen35-forward/gdn/src/bin/qwenrun.rs: the turns, the
    token list and the sampling flags read from the arguments, and the chat
    loop that renders, encodes, decodes, parses and remembers.  Printing and
    the clock are left out; standard input is the list of its lines.  The raw
    path of [main] is in Rawrun.v. *)

From S2P Require Import Prelude Rstr Utf8 Float Header Safetensors PyJson Pretokenize Tokenizer.
From S2P Require Import Chat ChatParse Sample Tensor Layer Model Bundle Loader Args.

(** ** Arguments *)

Inductive Turn :=
| TSystem (s : rstr)
| TUser (s : rstr)
| TAssistant (s : rstr)
| TTool (s : rstr).

Inductive args_error :=
| NeedsValue (name : rstr)
| BadTokenId (p : rstr)
| BadFloat (name value : rstr)
| BadInteger (name value : rstr)
| BadConfig (e : ConfigError)
| ToolsNotList
| ToolsBadJson (e : parse_error)
| Unreadable (path : rstr).

Definition turn_flag (a : rstr) : option (rstr → Turn) :=
  if decide (a = lit "--system") then Some TSystem
  else if decide (a = lit "--chat") then Some TUser
  else if decide (a = lit "--reply") then Some TAssistant
  else if decide (a = lit "--tool-result") then Some TTool
  else None.

(** The walk of [parse_turns] over the arguments left. *)
Fixpoint parse_turns_from (args : list rstr) : result args_error (list Turn) :=
  match args with
  | [] => Ok []
  | a :: rest =>
      match turn_flag a with
      | None => parse_turns_from rest
      | Some turn =>
          match rest with
          | [] => Err (NeedsValue a)
          | v :: rest => ts ← parse_turns_from rest; Ok (turn v :: ts)
          end
      end
  end.

(** The first argument is the program's name. *)
Definition parse_turns (args : list rstr) : result args_error (list Turn) :=
  parse_turns_from (drop 1 args).

Definition turn_message (t : Turn) : Message :=
  match t with
  | TSystem s => new_message System s
  | TUser s => new_message User s
  | TAssistant s => new_message Assistant s
  | TTool s => new_message Tool s
  end.

Definition turns_to_messages (turns : list Turn) : list Message := turn_message <$> turns.

Definition parse_list (s : rstr) : result args_error (list Z) :=
  try_map (λ p, ok_or (BadTokenId p) (parse_u32 (trim is_whitespace p)))
    (filter (λ p, trim is_whitespace p ≠ []) (split_on 44 s)).

Definition read_f32_blob (bytes : list Z) : vec :=
  (λ c, from_bits (from_le_bytes c)) <$> chunks4 bytes.

(** ** The sampling flags *)

Section flags.
Context (args : list rstr).

Definition float_flag (n : string) (d : f64) : result args_error f64 :=
  match val args (lit n) with
  | None => Ok d
  | Some v => ok_or (BadFloat (lit n) v) (parse_f64 v)
  end.

Definition usize_flag (n : string) (d : Z) : result args_error Z :=
  match val args (lit n) with
  | None => Ok d
  | Some v => ok_or (BadInteger (lit n) v) (parse_usize v)
  end.

Definition sampler_from_args : result args_error SamplerConfig :=
  temperature ← float_flag "--temperature" fzero;
  top_k ← usize_flag "--top-k" 0;
  top_p ← float_flag "--top-p" fone;
  min_p ← float_flag "--min-p" fzero;
  typical_p ← float_flag "--typical-p" fone;
  repetition ← float_flag "--repetition-penalty" fone;
  presence ← float_flag "--presence-penalty" fzero;
  frequency ← float_flag "--frequency-penalty" fzero;
  ngram ← usize_flag "--no-repeat-ngram-size" 0;
  seed ← usize_flag "--seed" 0;
  let cfg := mkConfig temperature (Z.to_nat top_k) top_p min_p typical_p repetition presence
               frequency (Z.to_nat ngram) seed in
  match validate cfg with
  | Ok _ => Ok cfg
  | Err e => Err (BadConfig e)
  end.

(** A text that should be a tool definition or a list of them. *)
Definition tools_of (src : rstr) : result args_error (list Value) :=
  match PyJson.parse src with
  | Ok (Array a) => Ok a
  | Ok (Object kv) => Ok [Object kv]
  | Ok _ => Err ToolsNotList
  | Err e => Err (ToolsBadJson e)
  end.

(** The tools, from a file (its bytes, when it can be read) or inline. *)
Definition tools_from_args (read_file : rstr → option (list Z)) : result args_error (list Value) :=
  match val args (lit "--tools-file") with
  | Some path => b ← ok_or (Unreadable path) (read_file path); tools_of (from_utf8_lossy b)
  | None =>
      match val args (lit "--tools") with
      | Some inline => tools_of inline
      | None => Ok []
      end
  end.

Definition chat_options : Options :=
  mkOptions true (has args (lit "--thinking")) (has args (lit "--vision-id")).

Definition chat_mode (turns : list Turn) : bool :=
  has args (lit "--repl") || bool_decide (turns ≠ []).
End flags.

(** ** The conversation *)

(** What one turn of the conversation produced. *)
Record turn_log := mkLog {
  log_prompt : list Z;
  log_generated : list Z;
  log_stopped : bool;
  log_reply : Reply;
}.

Inductive chat_exit :=
| ExitSuccess
| TemplateFailed (e : rstr)
| SamplerRefused (e : ConfigError)
| DecodeFailed (e : model_error)
| ChatPanicked
(** [encode] does not come back *)
| ChatHangs.

(** [<|im_end|>], the checkpoint's end-of-sequence token. *)
Definition chat_stop : list Z := [248046].

Section chat.
Context `{Libm} (hw : Z) (c : ModelConfig) (w : ModelWeights) (tk : Tokenizer).
Context (tools : list Value) (opts : Options) (steps : nat) (sampler_cfg : SamplerConfig).

(** Greedy or sampled decoding of one prompt. *)
Definition decode_reply (prompt : list Z) : result chat_exit (list Z * bool) :=
  let outcome_of (r : Model.outcome (list Z * list ModelTrace * bool)) :=
    match r with
    | Ok (generated, _, stopped) => Ok (generated, stopped)
    | Err (Error e) => Err (DecodeFailed e)
    | Err _ => Err ChatPanicked
    end in
  if is_greedy sampler_cfg
  then outcome_of (greedy_cached_stopping hw c w prompt steps chat_stop)
  else match new_sampler sampler_cfg with
       | Err e => Err (SamplerRefused e)
       | Ok s => outcome_of (sample_stopping hw c w prompt steps s chat_stop)
       end.

(** The body of the loop, from the rendering to the parsed reply. *)
Definition chat_turn (messages : list Message) : result chat_exit turn_log :=
  rendered ← match render (mkRequest messages tools opts) with
             | Ok r => Ok r
             | Err e => Err (TemplateFailed e)
             end;
  prompt ← ok_or ChatHangs (encode tk (Chat.text rendered));
  '(generated, stopped) ← decode_reply prompt;
  reply ← ok_or ChatPanicked (parse_assistant (Tokenizer.decode tk generated));
  Ok (mkLog prompt generated stopped reply).

(** The assistant's turn as the history keeps it. *)
Definition history_message (r : Reply) : Message :=
  mkMessage Assistant (CText (reply_content r)) (Some (default [] (reply_reasoning r)))
    (as_chat_calls r).

(** The read-eval-print loop over the lines of standard input; it ends at a
    blank line, at the end of the input or with a failure.  The result holds
    what each turn produced and the history when the loop ends. *)
Fixpoint repl_loop (lines : list rstr) (messages : list Message) :
    list turn_log * list Message * chat_exit :=
  match lines with
  | [] => ([], messages, ExitSuccess)
  | line :: lines =>
      if decide (trim is_whitespace line = []) then ([], messages, ExitSuccess) else
      let messages := messages ++ [new_message User line] in
      match chat_turn messages with
      | Err e => ([], messages, e)
      | Ok log =>
          let '(logs, messages, e) :=
            repl_loop lines (messages ++ [history_message (log_reply log)]) in
          (log :: logs, messages, e)
      end
  end.

Definition run_chat (repl : bool) (lines : list rstr) (messages : list Message) :
    list turn_log * list Message * chat_exit :=
  if repl then repl_loop lines messages else
  match chat_turn messages with
  | Err e => ([], messages, e)
  | Ok log => ([log], messages, ExitSuccess)
  end.
End chat.
