(* ===== verification/QwenrunProps.v ===== *)
(** * Correctness of the conversation loop

    The history a conversation keeps, the template errors it can and cannot
    meet, and the reading of the command line. *)

From S2P Require Import Prelude Serde Rstr Utf8 Float PyJson UnicodeGc UnicodeGcProps Pretokenize Tokenizer.
From S2P Require Import TokenizerProps TokenizerWitness Chat ChatParse ChatParseProps Sample Tensor Linear Delta Gdn Attention.
From S2P Require Import AttentionProps Layer LayerProps Model ModelProps ModelWitness Bundle Loader ChatProps.
From S2P Require Import Args Qwenrun.

(** ** The arguments *)

(** How a turn is written on the command line. *)
Definition turn_args (t : Turn) : list rstr :=
  match t with
  | TSystem s => [lit "--system"; s]
  | TUser s => [lit "--chat"; s]
  | TAssistant s => [lit "--reply"; s]
  | TTool s => [lit "--tool-result"; s]
  end.

(** An argument the walk passes over. *)
Definition other_arg (a : rstr) : Prop := turn_flag a = None.

Lemma parse_turns_from_app others rest : Forall other_arg others →
  parse_turns_from (others ++ rest) = parse_turns_from rest.
Proof. induction 1 as [|a others Ha _ IH]; [done|]. cbn [app parse_turns_from]. by rewrite Ha. Qed.

Lemma parse_turns_from_turn t rest :
  parse_turns_from (turn_args t ++ rest) = (ts ← parse_turns_from rest; Ok (t :: ts)).
Proof. by destruct t. Qed.

(** The turns come back in the order they were written, whatever their texts
    are and whatever other arguments stand between them. *)
Theorem parse_turns_order prog (segments : list (list rstr * Turn)) others :
  Forall (λ s, Forall other_arg s.1) segments → Forall other_arg others →
  parse_turns (prog :: concat ((λ s, s.1 ++ turn_args s.2) <$> segments) ++ others)
  = Ok (segments.*2).
Proof.
  intros Hs Ho. unfold parse_turns. cbn [drop]. rewrite drop_0.
  induction Hs as [|[o t] segments Hot _ IH]; cbn [fmap list_fmap concat app].
  - rewrite <- (app_nil_r others). by rewrite parse_turns_from_app.
  - cbn [fst snd] in *. rewrite <- !app_assoc, parse_turns_from_app by done.
    rewrite parse_turns_from_turn, IH. done.
Qed.

(** ** The sampling flags *)

(** Whatever the flags say, a configuration that comes out passed validation,
    so building the sampler from it cannot fail. *)
Theorem sampler_from_args_valid args cfg : sampler_from_args args = Ok cfg →
  new_sampler cfg = Ok (mkSampler cfg (cfg_seed cfg)).
Proof.
  unfold sampler_from_args. intros Hr. inv_ok. unfold new_sampler.
  destruct (validate _) as [u|e] eqn:E; [|done]. injection Hr as <-. by rewrite E.
Qed.

(** ** The history *)

(** A history the template accepts: text only, every role where it may stand,
    and a genuine user query somewhere. *)
Record renderable (msgs : list Message) : Prop := {
  rd_textual : Forall textual msgs;
  rd_roles : ∀ i m, msgs !! i = Some m → bad_role i m = None;
  rd_query : Exists query msgs;
}.

Lemma renderable_render req : renderable (messages req) → ∃ r, render req = Ok r.
Proof.
  intros [Ht Hr Hq]. pose proof (render_textual req Ht) as H.
  destruct (render req) as [r|e]; [by exists r|]. exfalso.
  destruct H as [(Hm & _)|[(_ & Hn & _)|(_ & _ & i & m & Hi & Hb & _)]].
  - rewrite Hm in Hq. by apply Exists_nil in Hq.
  - done.
  - by rewrite (Hr i m Hi) in Hb.
Qed.

(** The roles that may stand anywhere. *)
Lemma roles_snoc msgs m : (∀ i m', msgs !! i = Some m' → bad_role i m' = None) →
  role m = User ∨ role m = Assistant →
  ∀ i m', (msgs ++ [m]) !! i = Some m' → bad_role i m' = None.
Proof.
  intros Hr Hm i m' [Hi|[_ [Hi ->]%list_lookup_singleton_Some]]%lookup_app_Some; [by apply Hr|].
  unfold bad_role. by destruct Hm as [->| ->].
Qed.

(** What a user types before the history holds a query. *)
Definition genuine (line : rstr) : Prop := is_tool_response (jinja_trim line) = false.

(** The history after some lines and their replies. *)
Definition exchange (line : rstr) (log : turn_log) : list Message :=
  [new_message User line; history_message (log_reply log)].

Section repl.
Context `{Libm} (hw : Z) (c : ModelConfig) (w : ModelWeights) (tk : Tokenizer).
Context (tools : list Value) (opts : Options) (steps : nat) (cfg : SamplerConfig).

Abbreviation repl := (repl_loop hw c w tk tools opts steps cfg).
Abbreviation turn := (chat_turn hw c w tk tools opts steps cfg).

Lemma chat_turn_renders msgs e : renderable msgs → turn msgs ≠ Err (TemplateFailed e).
Proof.
  intros Hr. unfold chat_turn.
  destruct (renderable_render (mkRequest msgs tools opts) Hr) as [r ->]. cbn [mbind result_bind].
  destruct (encode tk _) as [prompt|]; cbn [ok_or mbind result_bind]; [|done].
  unfold decode_reply.
  repeat case_match; cbn [ok_or mbind result_bind]; simplify_eq; try done;
    destruct (parse_assistant _); done.
Qed.

(** *** One turn, from the messages to the reply *)

(** What decoding a valid prompt can give. *)
Lemma decode_reply_outcome prompt : model_wf c w → prompt ≠ [] → Forall (valid c) prompt →
  match decode_reply hw c w steps cfg prompt with
  | Ok (generated, stopped) =>
      Forall (valid c) generated ∧ Forall (λ id, id ∉ chat_stop) generated ∧
      (length generated ≤ steps)%nat ∧ (stopped = false → length generated = steps)
  | Err (DecodeFailed (NonFiniteLogits _ _)) | Err (DecodeFailed (SamplerError _)) => is_greedy cfg = false
  | Err (SamplerRefused e) => is_greedy cfg = false ∧ validate cfg = Err e
  | Err _ => False
  end.
Proof.
  intros Hm Hne Hv. unfold decode_reply. destruct (is_greedy cfg) eqn:Hg.
  - destruct (greedy_stopping_prefix hw c w prompt steps chat_stop Hm Hne Hv) as (ids & trs & trs' & Hgr & ->).
    destruct (greedy_both hw c w prompt steps Hm Hne Hv) as (ids' & ? & ? & _ & Hgr' & Hl & Hall & _).
    assert (ids' = ids) as -> by congruence.
    destruct (list_find _ ids) as [[i y]|] eqn:Ef.
    + pose proof Ef as (Hx & Hin & Hmin)%list_find_Some. split; [by apply Forall_take|].
      split; [|split; [rewrite length_take; lia|]].
      * apply Forall_lookup. intros j z [Hj Hlt]%lookup_take_Some. by eapply Hmin.
      * intros He%bool_decide_eq_false. destruct He. apply Exists_exists. exists y.
        split; [by eapply list_elem_of_lookup_2|done].
    + apply list_find_None in Ef. split; [done|]. split; [done|]. split; [lia|done].
  - unfold new_sampler. destruct (validate cfg) as [[]|e] eqn:Ev; cbn [mbind result_bind]; [|done].
    pose proof (sample_stopping_outcome hw c w prompt steps (mkSampler cfg (cfg_seed cfg)) chat_stop Hm Hne Hv) as Hs.
    destruct (sample_stopping _ _ _ _ _ _ _) as [[[ids s'] hit]|[|e]]; [done|done|].
    destruct e; done.
Qed.

(** What a turn did before its reply was parsed. *)
Definition decoded (msgs : list Message) (r : Rendered) (prompt generated : list Z) (stopped : bool) : Prop :=
  render (mkRequest msgs tools opts) = Ok r ∧ encode tk (text r) = Some prompt ∧
  decode_reply hw c w steps cfg prompt = Ok (generated, stopped) ∧
  Forall (valid c) generated ∧ Forall (λ id, id ∉ chat_stop) generated ∧
  (length generated ≤ steps)%nat ∧ (stopped = false → length generated = steps).

(** C10. A turn of the conversation from end to end: for a well-formed model, a
    tokenizer with the loader's invariant whose added tokens are not empty and
    decode as the characters they are ([literal_added]) and whose ids are all
    in the model's vocabulary ([produces (valid c)]), with a generation prompt,
    when the rendered text is one of scalar values.  Encoding always returns,
    the model never refuses or panics, greedy decoding never fails.  A turn that
    succeeds rendered, encoded and decoded to valid ids that are no stop, and
    parsed what its log says; a turn that panics did the same up to the
    parser, on a reply that is not ASCII. *)
Theorem chat_turn_outcome msgs : model_wf c w → wf tk → literal_added tk → produces (valid c) tk →
  add_generation_prompt opts = true →
  (∀ r, render (mkRequest msgs tools opts) = Ok r → Forall scalar (text r)) →
  match turn msgs with
  | Ok log =>
      ∃ r, decoded msgs r (log_prompt log) (log_generated log) (log_stopped log) ∧
        parse_assistant (Tokenizer.decode tk (log_generated log)) = Some (log_reply log)
  | Err (TemplateFailed e) => render (mkRequest msgs tools opts) = Err e
  | Err (SamplerRefused e) => is_greedy cfg = false ∧ validate cfg = Err e
  | Err (DecodeFailed (NonFiniteLogits _ _ as e)) | Err (DecodeFailed (SamplerError _ as e)) =>
      is_greedy cfg = false ∧ ∃ r prompt, render (mkRequest msgs tools opts) = Ok r ∧
        encode tk (text r) = Some prompt ∧ decode_reply hw c w steps cfg prompt = Err (DecodeFailed e)
  | Err ChatPanicked =>
      ∃ r prompt generated stopped, decoded msgs r prompt generated stopped ∧
        parse_assistant (Tokenizer.decode tk generated) = None ∧ ¬ ascii (Tokenizer.decode tk generated)
  | Err _ => False
  end.
Proof.
  intros Hm Hwf Hlit Hp Hgen Hsc. unfold chat_turn, decoded.
  destruct (render (mkRequest msgs tools opts)) as [r|e] eqn:Er; cbn [mbind result_bind]; [|done].
  assert (text r ≠ []) as Hne.
  { apply render_parts_of in Er as (? & ? & ? & ? & ? & ? & out & _ & _ & _ & _ & ->).
    unfold generation_prompt. cbn [Chat.opts]. rewrite Hgen. intros [_ [=]]%app_nil. }
  destruct (encode_nonempty tk (text r) Hwf Hlit (Hsc r eq_refl) Hne) as (prompt & He & Hpne).
  rewrite He. cbn [ok_or mbind result_bind].
  pose proof (decode_reply_outcome prompt Hm Hpne (encode_Forall _ _ _ _ Hp He)) as Hd.
  destruct (decode_reply _ _ _ _ _ _) as [[generated stopped]|e] eqn:Ed; cbn [mbind result_bind].
  - destruct (parse_assistant _) as [reply|] eqn:Epa; cbn [ok_or mbind result_bind].
    + by exists r.
    + exists r, prompt, generated, stopped. split; [done|]. split; [done|]. intros Ha.
      destruct (proj2 (parse_assistant_returns _) Ha) as [? ?]. congruence.
  - destruct e as [| | |e| |]; try done; destruct e; try done; eauto 10.
Qed.

(** The history the loop leaves: what it started from, one exchange per line
    answered, and after a failure the line that was not. *)
Lemma repl_history lines : ∀ msgs logs msgs' e, repl lines msgs = (logs, msgs', e) →
  (length logs ≤ length lines)%nat ∧
  ∃ pending, msgs' = msgs ++ concat (zip_with exchange lines logs) ++ pending ∧
    match e with
    | ExitSuccess => pending = []
    | _ => ∃ line, lines !! length logs = Some line ∧ pending = [new_message User line]
    end.
Proof.
  induction lines as [|line lines IH]; intros msgs logs msgs' e; cbn [repl_loop].
  { intros [= <- <- <-]. split; [done|]. exists []. by rewrite app_nil_r. }
  case_decide; [intros [= <- <- <-]; split; [cbn; lia|]; exists []; by rewrite app_nil_r|].
  destruct (turn _) as [log|e'] eqn:Et.
  - destruct (repl lines _) as [[logs1 msgs1] e1] eqn:Er. intros [= <- <- <-].
    apply IH in Er as (Hl & pending & -> & He). split; [cbn; lia|]. exists pending. split.
    + cbn [zip_with concat]. unfold exchange. cbn [app]. by rewrite <- !app_assoc.
    + by destruct e1.
  - intros [= <- <- <-]. split; [cbn; lia|]. exists [new_message User line]. split; [done|].
    destruct e'; try (by exists line). exfalso. clear -Et.
    unfold chat_turn, decode_reply in Et.
    repeat (case_match || apply bind_Err in Et as [Et|(? & ? & Et)]); simplify_eq.
    all: apply ok_or_Err in Et as [_ Et]; discriminate.
Qed.

(** C11. A conversation is never refused by the chat template, whatever the
    model answers: if the history it starts from can be rendered, or lacks
    only the query and the first line is not a wrapped tool result, then no
    later history is rejected.  And the history grows by one user message
    and one assistant message per line answered. *)
Theorem repl_never_refused lines msgs logs msgs' e :
  Forall textual msgs → (∀ i m, msgs !! i = Some m → bad_role i m = None) →
  (Exists query msgs ∨ (∀ line, lines !! 0%nat = Some line → genuine line)) →
  repl lines msgs = (logs, msgs', e) →
  (∀ err, e ≠ TemplateFailed err) ∧
  ∃ pending, msgs' = msgs ++ concat (zip_with exchange lines logs) ++ pending ∧
    (length pending ≤ 1)%nat.
Proof.
  intros Ht Hr Hq Hl. split.
  - clear -Ht Hr Hq Hl. revert msgs logs msgs' e Ht Hr Hq Hl.
    induction lines as [|line lines IH]; intros msgs logs msgs' e Ht Hr Hq; cbn [repl_loop].
    { by intros [= <- <- <-]. }
    case_decide; [by intros [= <- <- <-]|].
    assert (renderable (msgs ++ [new_message User line])) as Hren.
    { split.
      - apply Forall_app. by repeat constructor.
      - apply roles_snoc; [done|by left].
      - apply Exists_app. destruct Hq as [?|Hg]; [by left|]. right. apply Exists_cons_hd.
        split; [done|]. by apply Hg. }
    destruct (turn _) as [log|e'] eqn:Et.
    + destruct (repl lines _) as [[logs1 msgs1] e1] eqn:Er. intros [= <- <- <-].
      destruct Hren as [Ht' Hr' Hq']. eapply (IH _ logs1 msgs1); [| | |exact Er].
      * apply Forall_app. by repeat constructor.
      * apply roles_snoc; [done|by right].
      * left. apply Exists_app. by left.
    + intros [= <- <- <-] err ->. by apply chat_turn_renders in Et.
  - apply repl_history in Hl as (_ & pending & -> & He). exists pending. split; [done|].
    destruct e; [rewrite He; cbn; lia|..]; destruct He as (line & _ & ->); cbn; lia.
Qed.
End repl.

(** ** Concrete inputs *)

#[local] Existing Instance ModelWitness.demo_libm.

(** A tokenizer of three tokens, and a session of two lines with the model of
    [ModelWitness]. *)
Definition demo_tokenizer : Tokenizer :=
  mkTokenizer ((λ b, Z.of_nat b mod 3) <$> seq 0 256) [lit "a"; lit "b"; lit "c"] ∅ []
    {[97 := 97; 98 := 98; 99 := 99]} false.
Definition demo_cfg : SamplerConfig := mkConfig fzero 0 fone fzero fone fone fzero fzero 0 0.
Definition demo_session (lines : list rstr) (msgs : list Message) :
    list turn_log * list Message * chat_exit :=
  repl_loop 1 demo_config demo_weights demo_tokenizer [] (mkOptions true false false) 2 demo_cfg
    lines msgs.

(** The reply of the first turn is part of the history the second one sees. *)
Example demo_exchange : match demo_session [lit "hi"] [] with
  | ([log], msgs, ExitSuccess) => msgs = exchange (lit "hi") log ∧ log_generated log = [1; 1]
      ∧ reply_content (log_reply log) = lit "bb"
  | _ => False
  end.
Proof. by vm_compute. Qed.

(** The one way to be refused: a first line that only wraps a tool result. *)
Example demo_refused : (demo_session [lit "<tool_response>4</tool_response>"] []).2
  = TemplateFailed ERR_NO_USER_QUERY.
Proof. by vm_compute. Qed.

Lemma repl_never_refused_witness :
  match (demo_session [lit "hi"; lit "<tool_response>4</tool_response>"]
    [new_message System (lit "s")]).2 with TemplateFailed _ => False | _ => True end.
Proof.
  unfold demo_session. destruct (repl_loop _ _ _ _ _ _ _ _ _ _) as [[logs msgs'] e] eqn:E.
  eapply (repl_never_refused 1 demo_config demo_weights demo_tokenizer [] (mkOptions true false false) 2
    demo_cfg) in E as [Hne _].
  - cbn [snd]. destruct e as [|err| | | |]; try exact I. by apply (Hne err).
  - by repeat constructor.
  - intros i m Hi. apply list_lookup_singleton_Some in Hi as [-> <-]. done.
  - right. intros line [= <-]. by vm_compute.
Defined.

Lemma parse_turns_order_witness :
  parse_turns [lit "qwenrun"; lit "dir"; lit "--chat"; lit "--reply"; lit "--reply"; lit "x"; lit "--repl"]
  = Ok [TUser (lit "--reply"); TAssistant (lit "x")].
Proof.
  apply (parse_turns_order (lit "qwenrun")
    [([lit "dir"], TUser (lit "--reply")); ([], TAssistant (lit "x"))] [lit "--repl"]);
    by repeat constructor.
Defined.

Example demo_flags : sampler_from_args (lit <$> ["qwenrun"; "--temperature"; "0.7"; "--seed"; "3"]%string)
  = Ok (mkConfig (F64.div (F64.of_Z 7) (F64.of_Z 10)) 0 fone fzero fone fone fzero fzero 0 3).
Proof. by vm_compute. Qed.

Lemma sampler_from_args_valid_witness :
  new_sampler demo_cfg = Ok (mkSampler demo_cfg 0).
Proof. apply (sampler_from_args_valid (lit <$> ["qwenrun"]%string) demo_cfg). by vm_compute. Defined.

(** ** A conversation turn on a concrete model and tokenizer *)

Definition turn_config : ModelConfig := mkModelConfig 259 2 demo_eps demo_gdn demo_attn.
Definition turn_weights : ModelWeights :=
  mkModelWeights (demo_vec 518) (demo_vec 2) (demo_vec 518) (layers demo_weights).

Lemma turn_model_wf : model_wf turn_config turn_weights.
Proof. destruct demo_model_wf. split; first [assumption|by vm_compute]. Qed.

Definition in_vocab (id : Z) : bool := (0 <=? id) && (id <? 259).

Lemma in_vocab_valid id : in_vocab id = true → valid turn_config id.
Proof. unfold in_vocab, valid. cbn. lia. Qed.

Lemma turn_produces : produces (valid turn_config) (demo_tk special).
Proof.
  split.
  - apply (Forall_impl (λ id, in_vocab id = true)); [|exact in_vocab_valid].
    apply (bool_decide_unpack _). vm_compute. exact I.
  - assert (map_Forall (λ _ (v : Z * Z), in_vocab v.2 = true) (merge (demo_tk special))) as Hf
      by (apply (bool_decide_unpack _); vm_compute; exact I).
    intros pair rank m Hm. apply in_vocab_valid. exact (Hf _ _ Hm).
  - assert (Forall (λ ti : rstr * Z, in_vocab ti.2 = true) (added (demo_tk special))) as Hf
      by (apply (bool_decide_unpack _); vm_compute; exact I).
    intros tok id Hin. rewrite Forall_forall in Hf. apply in_vocab_valid. exact (Hf _ Hin).
Qed.

Definition turn_messages : list Message := [new_message User (lit "hi")].
Definition turn_opts : Options := mkOptions true false false.

Lemma turn_scalar r : render (mkRequest turn_messages [] turn_opts) = Ok r → Forall scalar (text r).
Proof.
  intros Hr.
  assert (match render (mkRequest turn_messages [] turn_opts) with
          | Ok r => bool_decide (Forall scalar (text r)) | Err _ => true end = true) as H
    by (vm_compute; reflexivity).
  rewrite Hr in H. exact (bool_decide_eq_true_1 _ H).
Qed.

Lemma chat_turn_outcome_witness :
  let did := decoded 1 turn_config turn_weights (demo_tk special) [] turn_opts 2 demo_cfg turn_messages in
  match chat_turn 1 turn_config turn_weights (demo_tk special) [] turn_opts 2 demo_cfg turn_messages with
  | Ok log =>
      ∃ r, did r (log_prompt log) (log_generated log) (log_stopped log) ∧
        parse_assistant (Tokenizer.decode (demo_tk special) (log_generated log)) = Some (log_reply log)
  | Err (TemplateFailed e) => render (mkRequest turn_messages [] turn_opts) = Err e
  | Err (SamplerRefused e) => is_greedy demo_cfg = false ∧ validate demo_cfg = Err e
  | Err (DecodeFailed (NonFiniteLogits _ _ as e)) | Err (DecodeFailed (SamplerError _ as e)) =>
      is_greedy demo_cfg = false ∧ ∃ r prompt, render (mkRequest turn_messages [] turn_opts) = Ok r ∧
        encode (demo_tk special) (text r) = Some prompt ∧
        decode_reply 1 turn_config turn_weights 2 demo_cfg prompt = Err (DecodeFailed e)
  | Err ChatPanicked =>
      ∃ r prompt generated stopped, did r prompt generated stopped ∧
        parse_assistant (Tokenizer.decode (demo_tk special) generated) = None ∧
        ¬ ascii (Tokenizer.decode (demo_tk special) generated)
  | Err _ => False
  end.
Proof.
  apply (chat_turn_outcome 1 turn_config turn_weights (demo_tk special) [] turn_opts 2 demo_cfg turn_messages).
  - exact turn_model_wf.
  - exact demo_tk_wf.
  - exact demo_literal.
  - exact turn_produces.
  - reflexivity.
  - exact turn_scalar.
Defined.
