(* ===== verification/Rawrun.v ===== *)
(** * qwenrun: the program

    Models [main] of qwen35-forward/gdn/src/bin/qwenrun.rs: the choice of the
    prompt, the conversation mode, and the raw mode with its comparisons, its
    three ways of decoding and its verdict.  The files, the checkpoint and the
    tokenizer the program reads are an environment.

    Without a sampler, or without the cache, the raw mode generates the tokens
    of greedy decoding; a run that confirms expected tokens confirms them for
    the model itself; and logits dumped by one run compare equal in the next. *)

From stdpp Require Import sorting.
From S2P Require Import Prelude Float FloatProps Serde Rstr Utf8 PyJson Pretokenize Tokenizer Chat.
From S2P Require Import Sample Tensor Delta Attention Layer Model ModelProps ModelWitness Header.
From S2P Require Import Safetensors Real Bundle BundleProps Loader Args Exit Compare Qwenrun.
#[local] Open Scope Z_scope.

Record Env := mkEnv {
  (** [real::load]: [Real.load] on the files of a directory *)
  env_load : rstr → Real.outcome RealModel;
  (** [Tokenizer::from_model_dir] *)
  env_tokenizer : rstr → result LoadError Tokenizer;
  env_read : rstr → option (list Z);
  (** whether a file can be written *)
  env_write : rstr → list Z → bool;
  (** serde_json's reader of the shapes *)
  env_shapes : list Z → option (list (list Z));
  env_stdin : list rstr;
}.

(** [3e-5f32] *)
Definition default_tol : f32 := F32.div (F32.of_Z 3) (F32.of_Z 100000).

(** ** Comparing with recorded values *)

Definition usize_product (l : list Z) : Z := foldl wmul 1 l.
Definition usize_sum (l : list Z) : Z := foldl wadd 0 l.

(** The loop over the shapes, [off] the offset in the blob: whether a layer is
    off, and [None] is the panic of a slice out of range.  It ends at the
    first shape without a layer. *)
Fixpoint compare_layers (layers : list LayerTrace) (refv : vec) (tol : f32)
    (shapes : list (list Z)) (off : Z) {struct shapes} : option bool :=
  match shapes with
  | [] => Some false
  | sh :: shapes =>
      let n := usize_product sh in
      let off' := wadd off n in
      if decide (off ≤ off' ≤ len refv) then
        let gold := slice refv off off' in
        match layers with
        | [] => Some false
        | l :: layers =>
            rest ← compare_layers layers refv tol shapes off';
            if decide (len (lt_out l) ≠ n) then Some true
            else Some (SFltb tol (max_abs_diff (lt_out l) gold).1 || rest)
        end
      else None
  end.

Definition layers_mode (env : Env) (dir : rstr) (layers : list LayerTrace) (tol : f32) :
    result exit bool :=
  shapes ← ok_or Failure (b ← env_read env (join dir (lit "layer_shapes.json")); env_shapes env b);
  blob ← ok_or Failure (env_read env (join dir (lit "layers.f32")));
  let refv := read_f32_blob blob in
  if decide (len refv ≠ usize_sum (usize_product <$> shapes)) then Err Failure else
  or_panic (compare_layers layers refv tol shapes 0).

Definition dump_logits (last : vec) : list Z := concat (f32_to_le_bytes <$> last).

(** [idx] orders the logits [last]: whether the recorded ones in [bytes] differ. *)
Definition compare_logits (last : vec) (idx : list nat) (topk : nat) (tol : f32) (bytes : list Z) :
    result exit bool :=
  if decide (len bytes mod 4 ≠ 0) then Err Failure else
  let refv := read_f32_blob bytes in
  if decide (length refv ≠ length last) then Err Failure else
  let worst := (max_abs_diff last refv).1 in
  ridx ← or_panic (order_desc refv);
  mine ← or_panic (idx !! 0%nat);
  ref ← or_panic (ridx !! 0%nat);
  let ok := bool_decide (mine = ref) && bool_decide (take topk idx = take topk ridx) in
  Ok (negb ok || SFltb tol worst).

(** ** Decoding *)

Section decode.
Context `{Libm} (hw : Z) (c : ModelConfig) (w : ModelWeights).

(** The loop with the cache: [tr] is the trace of the last call. *)
Fixpoint decode_cached (steps : nat) (cache : Cache) (tr : ModelTrace) : Model.outcome (list Z) :=
  match steps with
  | O => Ok []
  | S steps =>
      nxt ← next_token tr;
      let '(cache, r) := forward_cached hw c w cache [nxt] in
      tr ← r;
      produced ← decode_cached steps cache tr;
      Ok (nxt :: produced)
  end.

(** The loop without: the whole prefix is run at every step. *)
Fixpoint decode_uncached (steps : nat) (ids : list Z) : Model.outcome (list Z) :=
  match steps with
  | O => Ok []
  | S steps =>
      t ← forward hw c w ids;
      nxt ← next_token t;
      produced ← decode_uncached steps (ids ++ [nxt]);
      Ok (nxt :: produced)
  end.

(** The three ways: only with the cache is the sampler asked. *)
Definition raw_decode (prompt : list Z) (steps : nat) (use_cache : bool) (cfg : SamplerConfig)
    (sampler : Sampler) : Model.outcome (list Z) :=
  if negb (is_greedy cfg) && use_cache then
    '(ids, _, _) ← sample_stopping hw c w prompt steps sampler []; Ok ids
  else if use_cache then
    let '(cache, r) := forward_cached hw c w (cache_new c w 1) prompt in
    tr ← r;
    decode_cached steps cache tr
  else decode_uncached steps prompt.
End decode.

(** ** The program *)

Definition chat_code (e : chat_exit) : exit :=
  match e with
  | ExitSuccess => Success
  | TemplateFailed _ | SamplerRefused _ | DecodeFailed _ => Failure
  | ChatPanicked | ChatHangs => Panicked
  end.

Section qwenrun.
Context `{Libm} (hw : Z) (env : Env) (args : list rstr).

Definition usize_arg (name : string) (d : Z) : Z := default d (val args (lit name) ≫= parse_usize).
Definition tol_arg : f32 := default default_tol (val args (lit "--tol") ≫= parse_f32).

(** A text prompt, a list of ids, or the default. *)
Definition choose_prompt (dir : rstr) : result exit (list Z) :=
  match val args (lit "--text"), val args (lit "--prompt") with
  | Some t, _ => tk ← or_exit Failure (env_tokenizer env dir); or_panic (encode tk t)
  | None, Some s => or_exit Usage (parse_list s)
  | None, None => Ok [9419]
  end.

Definition chat_main (dir : rstr) (rm : RealModel) (turns : list Turn) : result exit exit :=
  tk ← or_exit Failure (env_tokenizer env dir);
  tools ← or_exit Failure (tools_from_args args (env_read env));
  cfg ← or_exit Usage (sampler_from_args args);
  let steps := usize_arg "--tokens" 0 in
  let steps := if decide (steps = 0) then 64 else steps in
  let '(_, _, e) := run_chat hw (rm_config rm) (rm_weights rm) tk tools (chat_options args)
                      (Z.to_nat steps) cfg (has args (lit "--repl")) (env_stdin env)
                      (turns_to_messages turns) in
  Ok (chat_code e).

(** The comparisons of the first pass: whether one failed. *)
Definition raw_compare (tr : ModelTrace) (last : vec) (idx : list nat) : result exit bool :=
  layers_off ←
    match val args (lit "--compare-layers") with
    | Some dir => layers_mode env dir (tr_layers tr) tol_arg
    | None => Ok false
    end;
  _ ← match val args (lit "--dump-logits") with
      | Some path => if env_write env path (dump_logits last) then Ok () else Err Failure
      | None => Ok ()
      end;
  logits_off ←
    match val args (lit "--compare") with
    | Some path =>
        bytes ← ok_or Failure (env_read env path);
        compare_logits last idx (Z.to_nat (usize_arg "--topk" 10)) tol_arg bytes
    | None => Ok false
    end;
  Ok (layers_off || logits_off).

(** Decoding and the expected tokens: whether they differ. *)
Definition raw_generate (rm : RealModel) (prompt : list Z) : result exit bool :=
  cfg ← or_exit Usage (sampler_from_args args);
  sampler ← or_exit Usage (new_sampler cfg);
  let steps := usize_arg "--tokens" 0 in
  if decide (steps = 0) then Ok false else
  produced ← or_failure (raw_decode hw (rm_config rm) (rm_weights rm) prompt (Z.to_nat steps)
                           (has args (lit "--cached")) cfg sampler);
  match val args (lit "--expect-tokens") with
  | Some exp =>
      want ← or_exit Usage (parse_list exp);
      Ok (bool_decide (want ≠ produced))
  | None => Ok false
  end.

Definition raw_main (rm : RealModel) (prompt : list Z) : result exit exit :=
  tr ← or_failure (forward hw (rm_config rm) (rm_weights rm) prompt);
  last ← or_panic (last_logits tr);
  if forallb is_finite last then
    idx ← or_panic (order_desc last);
    _ ← or_panic (idx !! 0%nat);
    compare_off ← raw_compare tr last idx;
    tokens_off ← raw_generate rm prompt;
    Ok (verdict (negb (compare_off || tokens_off)))
  else Err Failure.

Definition qwenrun : exit :=
  match first_positional args with
  | None => Usage
  | Some dir =>
      run_main (
        turns ← or_exit Usage (parse_turns args);
        prompt ← choose_prompt dir;
        if decide (prompt = []) then Err Usage else
        rm ← or_failure (env_load env dir);
        if chat_mode args turns then chat_main dir rm turns else raw_main rm prompt)
  end.
End qwenrun.

(** * What qwenrun's raw mode guarantees *)

(** ** Decoding *)

Section decode.
Context `{Libm} (hw : Z) (c : ModelConfig) (w : ModelWeights).

(** The loops of the program are those of the library, less the traces. *)
Lemma decode_uncached_spec steps : ∀ ids gen trs,
  fst <$> greedy_loop hw c w steps ids gen trs = (λ p, gen ++ p) <$> decode_uncached hw c w steps ids.
Proof.
  induction steps as [|steps IH]; intros ids gen trs; cbn [greedy_loop decode_uncached].
  { cbn. by rewrite app_nil_r. }
  destruct (forward hw c w ids) as [tr|]; cbn [mbind result_bind]; [|done].
  destruct (next_token tr) as [nxt|]; cbn [mbind result_bind]; [|done]. rewrite IH.
  destruct (decode_uncached _ _ _ _ _); cbn; [|done]. by rewrite <- app_assoc.
Qed.

Lemma decode_cached_spec steps : ∀ cache tr gen trs,
  (λ r : list Z * list ModelTrace * bool, r.1.1) <$> greedy_steps hw c w steps [] cache tr gen trs
  = (λ p, gen ++ p) <$> decode_cached hw c w steps cache tr.
Proof.
  induction steps as [|steps IH]; intros cache tr gen trs; cbn [greedy_steps decode_cached].
  { cbn. by rewrite app_nil_r. }
  destruct (next_token tr) as [nxt|]; cbn [mbind result_bind]; [|done].
  rewrite decide_False by apply not_elem_of_nil.
  destruct (forward_cached hw c w cache [nxt]) as [cache' [tr'|]]; cbn [mbind result_bind]; [|done].
  rewrite IH. destruct (decode_cached _ _ _ _ _ _); cbn; [|done]. by rewrite <- app_assoc.
Qed.

Lemma raw_decode_both prompt steps use_cache cfg sampler :
  model_wf c w → prompt ≠ [] → Forall (valid c) prompt →
  is_greedy cfg = true ∨ use_cache = false →
  ∃ ids trs, Model.greedy hw c w prompt steps = Ok (ids, trs) ∧ length ids = steps ∧
    raw_decode hw c w prompt steps use_cache cfg sampler = Ok ids.
Proof.
  intros Hm Hne Hv Hg. destruct (greedy_both hw c w prompt steps Hm Hne Hv)
    as (ids & trs & trs' & Hc & Hu & Hl & _). exists ids, trs'. split; [done|]. split; [done|].
  unfold raw_decode. replace (negb (is_greedy cfg) && use_cache) with false
    by (destruct Hg as [->| ->]; [done|by rewrite andb_false_r]).
  destruct use_cache.
  - unfold greedy_cached, greedy_cached_stopping in Hc. rewrite decide_False in Hc by done.
    destruct (forward_cached hw c w (cache_new c w 1) prompt) as [cache [tr|]]; [|done].
    cbn [mbind result_bind] in *. pose proof (decode_cached_spec steps cache tr [] []) as Hs.
    destruct (greedy_steps _ _ _ _ _ _ _ _ _) as [[[ids' ?] ?]|]; [|done]. injection Hc as -> _.
    destruct (decode_cached _ _ _ _ _ _); [|done]. cbn in Hs. by injection Hs as ->.
  - pose proof (decode_uncached_spec steps prompt [] []) as Hs. unfold Model.greedy in Hu.
    rewrite Hu in Hs. destruct (decode_uncached _ _ _ _ _); [|done]. cbn in Hs. by injection Hs as ->.
Qed.

(** C16. The raw mode generates the tokens of greedy decoding whenever the
    temperature is zero, with the cache and without, and also without the
    cache whatever the sampling flags say: then they are ignored. *)
Theorem raw_decode_greedy prompt steps use_cache cfg sampler :
  model_wf c w → prompt ≠ [] → Forall (valid c) prompt →
  is_greedy cfg = true ∨ use_cache = false →
  ∃ ids trs, Model.greedy hw c w prompt steps = Ok (ids, trs) ∧ length ids = steps ∧
    raw_decode hw c w prompt steps use_cache cfg sampler = Ok ids.
Proof. apply raw_decode_both. Qed.
End decode.

(** ** The verdict *)

(** A run that ends in success with expected tokens, decoding greedily or
    without the cache, has confirmed that they are the tokens greedy decoding
    generates from the prompt. *)
Theorem raw_main_expect `{Libm} hw env args rm prompt exp cfg :
  model_wf (rm_config rm) (rm_weights rm) → Forall (λ id, 0 ≤ id) prompt →
  val args (lit "--expect-tokens") = Some exp → usize_arg args "--tokens" 0 ≠ 0 →
  sampler_from_args args = Ok cfg → is_greedy cfg = true ∨ has args (lit "--cached") = false →
  raw_main hw env args rm prompt = Ok Success →
  ∃ ids trs, parse_list exp = Ok ids ∧
    Model.greedy hw (rm_config rm) (rm_weights rm) prompt (Z.to_nat (usize_arg args "--tokens" 0))
      = Ok (ids, trs).
Proof.
  intros Hm Hp He Hs Hcfg Hg. unfold raw_main.
  intros (tr & Hf%or_failure_Ok & (last & _ & Hr)%bind_Ok)%bind_Ok.
  destruct (forward_valid _ _ _ _ _ Hp Hf) as [Hne Hv].
  destruct (forallb is_finite last); [|done].
  apply bind_Ok in Hr as (idx & _ & (best & _ & (off & _ & (bad & Hb & Hr)%bind_Ok)%bind_Ok)%bind_Ok).
  destruct (off || bad) eqn:Hob; [done|]. apply orb_false_iff in Hob as [_ ->]. clear Hr.
  unfold raw_generate in Hb. rewrite Hcfg in Hb. cbn [or_exit mbind result_bind] in Hb.
  apply bind_Ok in Hb as (sampler & _ & Hb). rewrite decide_False in Hb by done.
  destruct (raw_decode_both hw _ _ prompt (Z.to_nat (usize_arg args "--tokens" 0))
    (has args (lit "--cached")) cfg sampler Hm Hne Hv Hg) as (ids & trs & Hgr & _ & Hd).
  cbn beta zeta in Hb. rewrite Hd in Hb. cbn [or_failure mbind result_bind] in Hb. rewrite He in Hb.
  apply bind_Ok in Hb as (want & Hw%or_exit_Ok & Hb%Ok_inj).
  apply bool_decide_eq_false, dec_stable in Hb. subst want. by exists ids, trs.
Qed.

(** ** Dumped logits *)

Lemma max_abs_diff_self v : Forall (λ x, is_finite x = true) v → max_abs_diff v v = (fzero, 0%nat).
Proof.
  intros Hv. unfold max_abs_diff.
  cut (∀ i, max_abs_diff_loop i (combine v v) fzero 0 = (fzero, 0%nat)); [done|].
  induction Hv as [|x v Hx _ IH]; intros i; [done|]. cbn [combine max_abs_diff_loop].
  unfold pair_dist. cbn [fst snd]. rewrite sub_self by done. apply IH.
Qed.

(** Logits dumped by one run compare equal in the next: the file reads back bit
    for bit, and every check of the comparison passes. *)
Theorem compare_dump last idx topk tol :
  Forall (λ x, valid_binary F32.prec F32.emax x = true ∧ is_finite x = true) last → last ≠ [] →
  order_desc last = Some idx → is_nan tol = false → SFltb tol fzero = false →
  compare_logits last idx topk tol (dump_logits last) = Ok false.
Proof.
  intros Hv Hne Hidx Hn Hz. apply Forall_and in Hv as [Hv Hfin].
  assert (read_f32_blob (dump_logits last) = last ∧ len (dump_logits last) mod 4 = 0) as [Hr Hlen].
  { unfold read_f32_blob, dump_logits. rewrite len_le_bytes. split; [by apply write_bytes|].
    rewrite Z.mul_comm. apply Z.mod_mul. lia. }
  unfold compare_logits. rewrite Hlen, Hr. rewrite !decide_False by (intros Hc; by apply Hc).
  rewrite Hidx, max_abs_diff_self by done. cbn [or_panic ok_or mbind result_bind].
  assert (is_Some (idx !! 0%nat)) as [best Hbest].
  { apply lookup_lt_is_Some_2. unfold order_desc in Hidx.
    assert (length idx = length last) as ->; [|by destruct last; [|cbn; lia]].
    repeat case_match; simplify_eq; by rewrite ?sort_by_Permutation, length_seq. }
  rewrite Hbest. cbn [or_panic ok_or mbind result_bind]. rewrite !bool_decide_true by done.
  cbn [fst andb negb orb]. by destruct tol as [[]|[]| |[] m e].
Qed.

(** ** Layers *)

(** When no layer is reported off, every layer of the model that the reference
    has a shape for agrees with its part of the blob.  Shapes beyond the
    model's layers, and layers beyond the shapes, are not looked at. *)
Theorem compare_layers_agree refv tol shapes : is_nan tol = false → SFltb tol fzero = false →
  ∀ layers off, compare_layers layers refv tol shapes off = Some false →
  ∀ k sh l, shapes !! k = Some sh → layers !! k = Some l →
    let off' := foldl wadd off (usize_product <$> take k shapes) in
    len (lt_out l) = usize_product sh ∧
    Forall (λ p, ¬ exceeds tol p)
      (combine (lt_out l) (slice refv off' (wadd off' (usize_product sh)))).
Proof.
  intros Hn Hz. induction shapes as [|s shapes IH]; intros layers off Hc k sh l Hsh Hl; [done|].
  cbn [compare_layers] in Hc. case_decide; [|done]. destruct layers as [|l0 layers]; [done|].
  destruct (compare_layers _ _ _ _ _) as [rest|] eqn:E; cbn [mbind option_bind] in Hc; [|done].
  case_decide as Hlen; [done|]. injection Hc as [Hd ->]%orb_false_iff.
  destruct k as [|k]; cbn [lookup list_lookup] in Hsh, Hl.
  - injection Hsh as ->. injection Hl as ->. cbn [take fmap list_fmap foldl]. split; [done|].
    apply max_abs_diff_passes; [done..|].
    rewrite SFleb_ltb, Hd; [done|by apply (max_abs_diff_loop_spec fzero)|done].
  - by apply (IH layers _ E k sh l).
Qed.

(** ** Concrete inputs *)

#[local] Existing Instance ModelWitness.demo_libm.

Definition demo_rm : RealModel :=
  mkRealModel ModelWitness.demo_config ModelWitness.demo_weights
    (mkLoadInfo [] [] [] 1 0 0 ∅ [] false ∅).
Definition TOL : f32 := default_tol.
Definition demo_layer_out (v : vec) : LayerTrace :=
  mkLayerTrace [] (FullTrace (mkAttnTrace [] [] [] [] [] [] [])) [] [] (mkMlpTrace [] [] [] []) v.
Definition demo_env (file : list Z) : Env :=
  mkEnv (λ _, Ok demo_rm) (λ _, Err Io) (λ _, Some file) (λ _ _, true) (λ _, None) [].
Definition demo_args (more : list string) : list rstr :=
  lit <$> ("qwenrun" :: "model" :: "--prompt" :: "1,2" :: "--tokens" :: "3" :: more)%string.

(** The first run dumps its logits, the second compares with them and confirms
    the tokens. *)
Definition demo_dump : list Z :=
  Eval vm_compute in
  match forward 1 ModelWitness.demo_config ModelWitness.demo_weights [1; 2] with
  | Ok tr => default [] (dump_logits <$> last_logits tr)
  | Err _ => []
  end.

Example demo_runs :
  qwenrun 1 (demo_env demo_dump) (demo_args ["--cached"; "--compare"; "x"; "--expect-tokens"; "2,2,2"]) = Success
  ∧ qwenrun 1 (demo_env demo_dump) (demo_args ["--expect-tokens"; "2,2,1"]) = Failure
  ∧ qwenrun 1 (demo_env [0]) (demo_args ["--compare"; "x"]) = Failure
  ∧ qwenrun 1 (demo_env []) (lit <$> ["qwenrun"; "model"; "--prompt"; ","]%string) = Usage.
Proof. by vm_compute. Qed.

(** Sampling at any temperature gives the same run when [--cached] is not
    given; with it the draw is made. *)
Example demo_sampling_ignored :
  qwenrun 1 (demo_env []) (demo_args ["--temperature"; "5"; "--seed"; "3"; "--expect-tokens"; "2,2,2"]) = Success
  ∧ qwenrun 1 (demo_env [])
      (demo_args ["--temperature"; "5"; "--seed"; "3"; "--cached"; "--expect-tokens"; "2,2,2"]) = Failure.
Proof. by vm_compute. Qed.

Lemma raw_decode_greedy_witness : ∃ ids trs,
  Model.greedy 1 demo_config demo_weights [1; 2] 3 = Ok (ids, trs) ∧ length ids = 3%nat ∧
  raw_decode 1 demo_config demo_weights [1; 2] 3 false (cfg demo_sampler) demo_sampler = Ok ids.
Proof.
  apply (raw_decode_greedy 1 demo_config demo_weights [1; 2] 3 false (cfg demo_sampler) demo_sampler
    demo_model_wf); [done|by apply demo_valid|by right].
Defined.

Lemma raw_main_expect_witness : ∃ ids trs, parse_list (lit "2,2,2") = Ok ids ∧
  Model.greedy 1 demo_config demo_weights [1; 2] 3 = Ok (ids, trs).
Proof.
  assert (∃ cfg, sampler_from_args (demo_args ["--cached"; "--expect-tokens"; "2,2,2"]) = Ok cfg ∧
    is_greedy cfg = true) as (cfg & Hcfg & Hg) by (eexists; split; vm_compute; reflexivity).
  apply (raw_main_expect 1 (demo_env []) (demo_args ["--cached"; "--expect-tokens"; "2,2,2"]) demo_rm
    [1; 2] (lit "2,2,2") cfg demo_model_wf); [by repeat constructor|by vm_compute|by vm_compute|exact Hcfg|by left|].
  by vm_compute.
Defined.

Lemma compare_dump_witness : compare_logits [f1; fzero] [0; 1]%nat 5 TOL (dump_logits [f1; fzero]) = Ok false.
Proof. apply compare_dump; [by repeat constructor|done|by vm_compute|by vm_compute..]. Defined.

Lemma compare_layers_agree_witness :
  len [f1; f1] = usize_product [1; 2] ∧ Forall (λ p, ¬ exceeds TOL p) (combine [f1; f1] [f1; f1]).
Proof.
  refine (compare_layers_agree [f1; f1; fzero] TOL [[1; 2]; [1]] eq_refl eq_refl
    [demo_layer_out [f1; f1]] 0 _ 0%nat [1; 2] (demo_layer_out [f1; f1]) eq_refl eq_refl).
  by vm_compute.
Defined.
