(* ===== verification/Samplecheck.v ===== *)
(** * gdn: checking the sampler against a corpus

    Models qwen35-forward/gdn/src/bin/samplecheck.rs: the corpus, the
    comparison of filtered logits, the cases the corpus cannot decide, the
    check of the drawn frequencies, and the exit status.  The tables that are
    only printed are left out.

    The total order it sorts with, what [compare] accepts, what a pass of the
    program says of every case, and that its check for draws of masked tokens
    cannot fire. *)

From stdpp Require Import sorting.
From S2P Require Import Prelude Rstr Utf8 Float FloatProps PyJson Sample SampleProps Args Exit Bundle.
From S2P Require Import Loader Selftest.
#[local] Open Scope Z_scope.

Definition OUR_ORDER : list rstr := lit <$>
  ["repetition_penalty"; "presence_penalty"; "frequency_penalty"; "no_repeat_ngram";
   "temperature"; "top_k"; "top_p"; "min_p"; "typical_p"]%string.

(** ** Comparing *)

(** [null] is minus infinity, and a NaN is spelled out. *)
Definition decode_lit (v : Value) : option f32 :=
  match v with
  | Null => Some FILTERED
  | Float f => Some (to_f32 f)
  | Int n => Some (F32.of_Z n)
  | Str s => if decide (s = lit "nan") then Some S754_nan else None
  | _ => None
  end.

Inductive wanted := WantCount (n : nat) | WantJson (v : Value) | WantValue (x : f32).
Inductive Verdict := Exact | WithinUlp | Differ (at_ : nat) (got : f32) (want : wanted).

(** [f32::EPSILON] *)
Definition EPSILON : f32 := F32.div (F32.of_Z 1) (F32.of_Z (2 ^ 23)).

(** The tolerance of the cases with a temperature. *)
Definition close (x y : f32) : bool :=
  is_finite x && is_finite y
  && SFleb (SFabs (F32.sub x y)) (F32.mul (F32.mul (SFabs y) EPSILON) (F32.of_Z 2)).

(** [f32::total_cmp]: as the numbers compare, the negative zero first and a
    NaN last. *)
Definition total_le (x y : f32) : Prop :=
  if is_nan y then True else if is_nan x then False else
  match SFcompare x y with
  | Some Lt => True
  | Some Eq => match x, y with S754_zero false, S754_zero true => False | _, _ => True end
  | _ => False
  end.
#[export] Instance total_le_dec x y : Decision (total_le x y).
Proof. unfold total_le. repeat case_match; apply _. Defined.

Definition sort_total : list f32 → list f32 := sort_by total_le.

(** Whether some value appears twice. *)
Definition has_duplicate_values (v : list f32) : bool :=
  existsb (λ w, w.1 =? w.2) (Selftest.windows2 (sort_by Z.le (to_bits <$> v))).

(** A loop of [compare] from index [k] on: the first difference, or whether
    all were equal so far. *)
Fixpoint scan (allow_ulp : bool) (k : nat) (pairs : list (f32 * f32)) (within : bool) :
    result (nat * f32 * f32) bool :=
  match pairs with
  | [] => Ok within
  | (x, y) :: pairs =>
      if SFeqb x y then scan allow_ulp (S k) pairs within
      else if allow_ulp && close x y then scan allow_ulp (S k) pairs false
      else Err (k, x, y)
  end.

(** The expected values, or the first that is none. *)
Fixpoint decode_expect (k : nat) (expect : list Value) : result (nat * Value) (list f32) :=
  match expect with
  | [] => Ok []
  | v :: expect =>
      match decode_lit v with
      | Some f => fs ← decode_expect (S k) expect; Ok (f :: fs)
      | None => Err (k, v)
      end
  end.

Definition compare (got : list f32) (expect : list Value) (input : list f32) (allow_ulp : bool) :
    Verdict :=
  if decide (length got ≠ length expect)
  then Differ (length got `min` length expect) S754_nan (WantCount (length expect)) else
  match decode_expect 0 expect with
  | Err (k, v) => Differ k (at_ got k) (WantJson v)
  | Ok want =>
      match within ← scan allow_ulp 0 (combine (sort_total got) (sort_total want)) true;
            if has_duplicate_values input then Ok within
            else scan allow_ulp 0 (combine got want) within with
      | Err (k, x, y) => Differ k x (WantValue y)
      | Ok true => Exact
      | Ok false => WithinUlp
      end
  end.

(** Whether an index differs. *)
Definition verdict_of (got : list f32) (expect : list Value) : bool :=
  existsb (λ '(k, w),
    match decode_lit w, got !! k with
    | Some x, Some g =>
        if SFeqb x FILTERED || SFeqb g FILTERED then negb (SFeqb g x)
        else if is_nan x then negb (is_nan g) else negb (SFeqb g x)
    | _, _ => true
    end) (imap pair expect).

(** ** The settings of a case *)

Definition config_from (settings : Value) : SamplerConfig :=
  let num k d := default d (v ← Value.get settings (lit k); Value.as_f64 v) in
  let count k := Z.to_nat (default 0 (v ← Value.get settings (lit k); Value.as_usize v)) in
  mkConfig (num "temperature"%string fone) (count "top_k"%string) (num "top_p"%string fone)
    (num "min_p"%string fzero) (num "typical_p"%string fone)
    (num "repetition_penalty"%string fone) (num "presence_penalty"%string fzero)
    (num "frequency_penalty"%string fzero) (count "no_repeat_ngram_size"%string) 1.

Definition stages : list rstr := lit <$>
  ["typical_p"; "min_p"; "top_p"; "top_k"; "temperature"; "no_repeat_ngram_size";
   "frequency_penalty"; "presence_penalty"; "repetition_penalty"]%string.

Definition last_stage (settings : Value) : rstr :=
  match list_find (λ k, is_Some (Value.get settings k)) stages with
  | Some (_, k) => k
  | None => lit "none"
  end.

(** [f64::from_bits(x.to_bits() + 1)]: the next float away from zero. *)
Definition next_bits (x : f64) : f64 :=
  match x with
  | S754_zero false | S754_finite false _ _ => SFsucc F64.prec F64.emax x
  | S754_zero true | S754_finite true _ _ => SFopp (SFsucc F64.prec F64.emax (SFopp x))
  | _ => S754_nan
  end.

Definition dsum (l : list f64) : f64 := foldl F64.add fzero l.

Definition is_null (v : Value) : bool := match v with Null => true | _ => false end.

Section boundary.
Context (fexp : f32 → f32).

(** The kept count of the reference is at the threshold of [top_p]: then its
    rounding decides, and not the rule. *)
Definition boundary_case (settings : Value) (logits : list f32) (expect : list Value) : bool :=
  match v ← Value.get settings (lit "top_p"); Value.as_f64 v with
  | None => false
  | Some p =>
      let kept := length (filter (λ v, is_null v = false) expect) in
      if decide (length logits < kept)%nat then false else
      let masked := (length logits - kept)%nat in
      if decide (masked = 0 ∨ length logits ≤ masked)%nat then false else
      let threshold := to_f64 (top_p_threshold p) in
      let probs := softmax fexp logits in
      let total := dsum (to_f64 <$> probs) in
      if SFleb total fzero || is_nan total then false else
      let idx := sort_by (ascending_by logits) (seq 0 (length logits)) in
      let mass := dsum ((λ i, F64.div (to_f64 (at_ probs i)) total) <$> take masked idx) in
      let ulp := F64.sub (next_bits threshold) threshold in
      let gap := SFabs (F64.sub mass threshold) in
      SFleb gap (F64.mul (F64.of_Z 2) ulp)
  end.
End boundary.

(** ** The cases *)

(** The counters of [main]: the cases listed at the boundary by index, and the
    failures by the stage that ran last. *)
Record Totals := mkTotals {
  t_ok : nat;
  t_bad : nat;
  t_exact : nat;
  t_ulp : nat;
  t_ties : nat;
  t_tie_index_mismatch : nat;
  t_boundary : list nat;
  t_by_stage : list (rstr * nat);
  t_failed : bool;
}.

Definition start_totals (failed : bool) : Totals := mkTotals 0 0 0 0 0 0 [] [] failed.

Fixpoint count_stage (stage : rstr) (l : list (rstr * nat)) : list (rstr * nat) :=
  match l with
  | [] => [(stage, 1%nat)]
  | (s, n) :: l => if decide (s = stage) then (s, S n) :: l else (s, n) :: count_stage stage l
  end.

Definition case_history (case : Value) : list Z :=
  let ids (a : list Value) : list Z := wrap32 <$> omap Value.as_usize a in
  default [] (v ← Value.get case (lit "history"); ids <$> Value.as_array v).

Definition has_temperature (settings : Value) : bool :=
  match v ← Value.get settings (lit "temperature"); Value.as_f64 v with
  | Some t => negb (SFeqb t fone)
  | None => false
  end.

(** The settings, the expected values and the logits, when the case has them. *)
Definition case_settings (case : Value) : Value := default Null (Value.get case (lit "settings")).
Definition case_data (case : Value) : option (list Value * list Value) :=
  expect ← (v ← Value.get case (lit "expect"); Value.as_array v);
  logits ← (v ← Value.get case (lit "logits"); Value.as_array v);
  Some (expect, logits).

Section cases.
Context (fexp fln : f32 → f32).

(** One case; a logit that is no number ends the program. *)
Definition check_case (i : nat) (case : Value) (t : Totals) : result exit Totals :=
  let '(mkTotals ok bad exact ulp ties mism boundary by_stage failed) := t in
  let settings := case_settings case in
  match case_data case with
  | None => Ok (mkTotals ok (S bad) exact ulp ties mism boundary by_stage failed)
  | Some (expect, logits_json) =>
      logits ← or_exit Failure (decode_expect 0 logits_json);
      let cfg := config_from settings in
      match new_sampler cfg with
      | Err _ => Ok (mkTotals ok (S bad) exact ulp ties mism boundary by_stage true)
      | Ok _ =>
          let dup := has_duplicate_values logits in
          let ties := if dup : bool then S ties else ties in
          let got := apply_filters fexp fln cfg (case_history case) logits in
          let mism := if dup && verdict_of got expect then S mism else mism in
          Ok match compare got expect logits (has_temperature settings) with
             | Exact => mkTotals (S ok) bad (S exact) ulp ties mism boundary by_stage failed
             | WithinUlp => mkTotals (S ok) bad exact (S ulp) ties mism boundary by_stage failed
             | Differ _ _ _ =>
                 if boundary_case fexp settings logits expect
                 then mkTotals ok bad exact ulp ties mism (boundary ++ [i]) by_stage failed
                 else mkTotals ok (S bad) exact ulp ties mism boundary
                        (count_stage (last_stage settings) by_stage) true
             end
      end
  end.

Fixpoint check_cases (i : nat) (cases : list Value) (t : Totals) : result exit Totals :=
  match cases with
  | [] => Ok t
  | case :: cases => t ← check_case i case t; check_cases (S i) cases t
  end.

(** ** The frequencies *)

(** The draws: the counts, and those of a token without mass. *)
Fixpoint draw_loop (draws : nat) (s : Sampler) (logits target : list f32) (counts : list nat)
    (impossible : nat) : result NextError (list nat * nat) :=
  match draws with
  | O => Ok (counts, impossible)
  | S draws =>
      match next fexp fln s logits [] with
      | (Ok t, _, s) =>
          let t := Z.to_nat t in
          draw_loop draws s logits target (alter S t counts)
            (if SFeqb (at_ target t) fzero then S impossible else impossible)
      | (Err e, _, _) => Err e
      end
  end.

(** The tokens without mass that were drawn, the largest deviation in sigmas,
    and that deviation. *)
Fixpoint deviations (draws : nat) (total : f64) (pairs : list (f32 * nat)) (zero : nat)
    (worst_z worst_dev : f64) : nat * f64 * f64 :=
  match pairs with
  | [] => (zero, worst_z, worst_dev)
  | (p, n) :: pairs =>
      let t := F64.div (to_f64 p) total in
      if SFeqb t fzero
      then deviations draws total pairs (if decide (0 < n)%nat then S zero else zero) worst_z worst_dev
      else
        let nd := F64.of_Z (Z.of_nat draws) in
        let got := F64.div (F64.of_Z (Z.of_nat n)) nd in
        let sigma := SFsqrt F64.prec F64.emax (F64.div (F64.mul t (F64.sub fone t)) nd) in
        let dev := SFabs (F64.sub got t) in
        let z := if SFltb fzero sigma then F64.div dev sigma else fzero in
        if SFltb worst_z z then deviations draws total pairs zero z dev
        else deviations draws total pairs zero worst_z worst_dev
  end.

Definition with_seed (c : SamplerConfig) (seed : Z) : SamplerConfig :=
  mkConfig (cfg_temperature c) (cfg_top_k c) (cfg_top_p c) (cfg_min_p c) (cfg_typical_p c)
    (cfg_repetition_penalty c) (cfg_presence_penalty c) (cfg_frequency_penalty c)
    (cfg_no_repeat_ngram_size c) seed.

(** One distribution. *)
Definition frequency_case (draws ci : nat) (logits : list f32) (c : SamplerConfig) : bool :=
  match new_sampler (with_seed c (wadd 0xC0FFEE (Z.of_nat ci))) with
  | Err _ => false
  | Ok s =>
      let target := softmax fexp (apply_filters fexp fln (cfg s) [] logits) in
      let total := dsum (to_f64 <$> target) in
      match draw_loop draws s logits target (replicate (length logits) 0%nat) 0 with
      | Err _ => false
      | Ok (counts, impossible) =>
          let '(zero, worst_z, worst_dev) :=
            deviations draws total (combine target counts) 0 fzero fzero in
          bool_decide (zero = 0%nat) && bool_decide (impossible = 0%nat)
          && (SFltb worst_z (F64.of_Z 5)
              || SFltb worst_dev (F64.div (F64.of_Z 1) (F64.of_Z 10000)))
      end
  end.

(** [d / n] as a literal *)
Definition dec32 (n d : Z) : f32 := F32.div (F32.of_Z n) (F32.of_Z d).

Definition with_temperature (t : f64) (k : nat) : SamplerConfig :=
  mkConfig t k fone fzero fone fone fzero fzero 0 0.

Definition distributions : list (list f32 * SamplerConfig) :=
  [(F32.of_Z 3 :: F32.of_Z 1 :: dec32 1 2 :: dec32 1 10 :: F32.of_Z (-1) :: [F32.of_Z (-5)],
    with_temperature fone 0);
   ((λ i, F32.mul (SFopp (F32.of_Z (Z.of_nat i))) (dec32 9 100)) <$> seq 0 64, with_temperature fone 0);
   (<[17%nat := FILTERED]> (<[3%nat := FILTERED]> (replicate 32 fzero)), with_temperature fone 0);
   (replicate 4 fone32, with_temperature fone 2);
   ([F32.of_Z 2; dec32 3 2; F32.of_Z 1; dec32 1 2; fzero; dec32 (-1) 2; F32.of_Z (-1)],
    with_temperature (F64.div (F64.of_Z 1) (F64.of_Z 2)) 0)].

Definition frequency_check (draws : nat) : bool :=
  forallb id (imap (λ ci d, frequency_case draws ci d.1 d.2) distributions).

(** ** The program *)

Definition stage_order (doc : Value) : list rstr :=
  let names (a : list Value) : list rstr := omap Value.as_str a in
  default [] (v ← Value.get doc (lit "stage_order"); names <$> Value.as_array v).

(** [--max] cuts the cases off. *)
Definition up_to {A} (max : option Z) (l : list A) : list A :=
  match max with Some m => take (Z.to_nat m) l | None => l end.

Definition load_cases (read_file : rstr → option (list Z)) (path : rstr) :
    result exit (Value * list Value) :=
  raw ← ok_or Failure (read_file path);
  doc ← or_exit Failure (PyJson.parse (from_utf8_lossy raw));
  cases ← ok_or Failure (v ← Value.get doc (lit "cases"); Value.as_array v);
  Ok (doc, cases).

Definition samplecheck (read_file : rstr → option (list Z)) (args : list rstr) : exit :=
  match non_flags args with
  | [] => Usage
  | path :: _ =>
      let max := val args (lit "--max") ≫= parse_usize in
      run_main (
        '(doc, cases) ← load_cases read_file path;
        t ← check_cases 0 (up_to max cases) (start_totals (bool_decide (stage_order doc ≠ OUR_ORDER)));
        let freq := default 0 (val args (lit "--frequency") ≫= parse_usize) in
        let drawn_off := if decide (0 < freq) then negb (frequency_check (Z.to_nat freq)) else false in
        Ok (verdict (negb (t_failed t || drawn_off))))
  end.
End cases.

(** * What samplecheck's verdict means *)

(** ** The total order *)

(** The negative zero before the positive one. *)
Definition zero_sign (x : f32) : Z := match x with S754_zero true => -1 | _ => 0 end.

Lemma total_le_key x y : total_le x y ↔
  lex (fkey x) (fkey y) ≠ Gt ∧ (fkey x = fkey y → zero_sign x ≤ zero_sign y).
Proof.
  unfold total_le. destruct (is_nan y) eqn:Hy.
  { destruct y; try done. split; [intros _|done]. rewrite lex_le_spec.
    destruct x as [[]|[]| |[]]; cbn; split; intros; lia || done. }
  destruct (is_nan x) eqn:Hx.
  { destruct x; try done. split; [done|]. rewrite lex_le_spec.
    destruct y as [[]|[]| |[]]; cbn; try done; intros [H _]; lia. }
  rewrite SFcompare_lex by done. destruct (lex (fkey x) (fkey y)) eqn:E; split; try done.
  - intros H. split; [done|]. intros _. destruct x as [[]|[]| |[]], y as [[]|[]| |[]]; cbn in *; done || lia.
  - intros [_ H]. destruct x as [[]|[]| |[]], y as [[]|[]| |[]]; try done. specialize (H eq_refl). cbn in H. lia.
  - intros _. split; [done|]. intros Hk. rewrite Hk in E. unfold lex in E. by rewrite !Z.compare_refl in E.
  - by intros [H _].
Qed.

Lemma fkey_total a b : lex a b ≠ Gt → lex b a ≠ Gt → a = b.
Proof.
  rewrite !lex_le_spec. destruct a as [[a1 a2] a3], b as [[b1 b2] b3]; cbn. intros. repeat f_equal; lia.
Qed.

#[export] Instance total_le_trans : Transitive total_le.
Proof.
  intros x y z [Hxy Sxy]%total_le_key [Hyz Syz]%total_le_key. apply total_le_key.
  assert (lex (fkey x) (fkey z) ≠ Gt) as Hxz by (rewrite lex_le_spec in *; lia).
  split; [done|]. intros E. rewrite E in *. rewrite (fkey_total _ _ Hxy Hyz) in *.
  specialize (Sxy eq_refl). specialize (Syz eq_refl). lia.
Qed.

#[export] Instance total_le_total : Total total_le.
Proof.
  intros x y. rewrite !total_le_key, !lex_le_spec.
  destruct (decide (fkey x = fkey y)) as [E|E].
  - rewrite E. destruct (Z.le_ge_cases (zero_sign x) (zero_sign y)); [left|right]; split; intros; lia.
  - assert (lex (fkey x) (fkey y) ≠ Gt ∨ lex (fkey y) (fkey x) ≠ Gt) as [H|H] by (rewrite !lex_le_spec; lia);
      rewrite lex_le_spec in H; [left|right]; (split; [done|]); congruence.
Qed.

(** Sorting lists the same numbers in the same way. *)
Lemma SFeqb_key x y : SFeqb x y = true ↔ is_nan x = false ∧ is_nan y = false ∧ fkey x = fkey y.
Proof.
  unfold SFeqb. destruct (is_nan x) eqn:Hx.
  { destruct x; try done. split; [done|]. by intros [? _]. }
  destruct (is_nan y) eqn:Hy.
  { destruct y; try done. split; [by destruct x as [[]|[]| |[]]|]. by intros (_ & ? & _). }
  rewrite SFcompare_lex by done. split.
  - intros H. split; [done|]. split; [done|].
    destruct (lex (fkey x) (fkey y)) eqn:E; [|done..].
    apply fkey_total; [by rewrite E|]. intros Hg. apply lex_lt_spec in Hg. congruence.
  - intros (_ & _ & ->). unfold lex. by rewrite !Z.compare_refl.
Qed.

Definition key_le (a b : Z * Z * Z) : Prop := lex a b ≠ Gt.
#[local] Instance key_le_antisymm : AntiSymm (=) key_le.
Proof. intros a b. apply fkey_total. Qed.

Lemma StronglySorted_fkey l : StronglySorted total_le l → StronglySorted key_le (fkey <$> l).
Proof.
  induction 1 as [|x l _ IH Hx]; cbn; constructor; [done|].
  apply Forall_fmap. eapply Forall_impl; [done|]. intros y Hy. by apply total_le_key in Hy as [? _].
Qed.

Lemma sort_total_eqb got want : Forall2 (λ x y, SFeqb x y = true) got want →
  Forall2 (λ x y, SFeqb x y = true) (sort_total got) (sort_total want).
Proof.
  intros H.
  assert (Forall (λ x, is_nan x = false) got) as Hg.
  { apply (Forall2_Forall_l _ _ _ _ H), Forall_true. by intros y x [? _]%SFeqb_key. }
  assert (Forall (λ x, is_nan x = false) want) as Hw.
  { apply (Forall2_Forall_r _ _ _ _ H), Forall_true. by intros y x (_ & ? & _)%SFeqb_key. }
  assert (fkey <$> got = fkey <$> want) as Hk.
  { clear Hg Hw. induction H as [|x y got want He _ IH]; [done|]. cbn.
    apply SFeqb_key in He as (_ & _ & ->). by f_equal. }
  assert (fkey <$> sort_total got = fkey <$> sort_total want) as Hs.
  { apply (StronglySorted_unique key_le); try (apply StronglySorted_fkey, StronglySorted_sort_by; apply _).
    unfold sort_total. rewrite !sort_by_Permutation. by rewrite Hk. }
  unfold sort_total in *.
  rewrite <- (sort_by_Permutation total_le) in Hg. rewrite <- (sort_by_Permutation total_le) in Hw.
  revert Hs Hg Hw. generalize (sort_by total_le got) (sort_by total_le want).
  induction l as [|x l IH]; intros [|y l']; cbn; try done. intros [= Hxy Hl] [? ?]%Forall_cons [? ?]%Forall_cons.
  constructor; [by apply SFeqb_key|]. by apply IH.
Qed.

(** ** What [compare] accepts *)

Definition near (allow : bool) (x y : f32) : Prop :=
  SFeqb x y = true ∨ allow = true ∧ close x y = true.
Definition same (x y : f32) : Prop := SFeqb x y = true.

Lemma scan_Ok allow pairs : ∀ k w w', scan allow k pairs w = Ok w' ↔
  Forall (λ p, near allow p.1 p.2) pairs ∧ w' = w && forallb (λ p, SFeqb p.1 p.2) pairs.
Proof.
  induction pairs as [|[x y] pairs IH]; intros k w w'; cbn [scan forallb fst snd].
  { rewrite andb_true_r. split; [by intros [= ->]|by intros [_ ->]]. }
  rewrite Forall_cons. unfold near at 1. cbn [fst snd]. destruct (SFeqb x y) eqn:E.
  - rewrite IH, andb_true_l. naive_solver.
  - destruct (allow && close x y) eqn:C.
    + apply andb_true_iff in C. rewrite IH, andb_false_l, andb_false_r.
      split; intros [? ->]; (split; [tauto|done]).
    + apply andb_false_iff in C. split; [done|]. intros [[[H|[-> H]] _] _]; [done|].
      destruct C; congruence.
Qed.

Lemma scan_combine allow l l' k w w' : length l = length l' →
  scan allow k (combine l l') w = Ok w' ↔
  Forall2 (near allow) l l' ∧ w' = w && forallb (λ p, SFeqb p.1 p.2) (combine l l').
Proof.
  intros Hl. rewrite scan_Ok. apply and_iff_compat_r. revert l' Hl.
  induction l as [|x l IH]; intros [|y l'] [=]; cbn; [by split|].
  rewrite Forall_cons, Forall2_cons, IH by done. done.
Qed.

Lemma scan_complete allow l l' k w : Forall2 (near allow) l l' →
  scan allow k (combine l l') w = Ok (w && forallb (λ p, SFeqb p.1 p.2) (combine l l')).
Proof. intros H. apply scan_combine; [by eapply Forall2_length|done]. Qed.

Lemma forallb_same l l' : length l = length l' →
  forallb (λ p, SFeqb p.1 p.2) (combine l l') = true ↔ Forall2 same l l'.
Proof.
  revert l'. induction l as [|x l IH]; intros [|y l'] [=]; cbn; [by split|].
  by rewrite andb_true_iff, Forall2_cons, IH.
Qed.

Lemma decode_expect_Ok expect : ∀ k fs, decode_expect k expect = Ok fs ↔
  Forall2 (λ v f, decode_lit v = Some f) expect fs.
Proof.
  induction expect as [|v expect IH]; intros k fs; cbn.
  { split; [by intros [= <-]|]. by intros ->%Forall2_nil_inv_l. }
  destruct (decode_lit v) as [f|] eqn:E; cbn.
  - destruct (decode_expect (S k) expect) as [gs|] eqn:Ed; cbn.
    + pose proof (proj1 (IH (S k) gs) Ed). split; [intros [= <-]; by constructor|].
      intros (f' & fs' & Hf & Hfs & ->)%Forall2_cons_inv_l. assert (f' = f) as -> by congruence.
      apply (IH (S k)) in Hfs. congruence.
    + split; [done|]. intros (f' & fs' & Hf & Hfs & ->)%Forall2_cons_inv_l.
      apply (IH (S k)) in Hfs. congruence.
  - split; [done|]. intros (f' & fs' & Hf & _)%Forall2_cons_inv_l. congruence.
Qed.

Lemma length_sort_total l : length (sort_total l) = length l.
Proof. unfold sort_total. by rewrite sort_by_Permutation. Qed.

(** What the two scans demand of the values. *)
Definition agrees (rel : f32 → f32 → Prop) (got : list f32) (expect : list Value)
    (input : list f32) : Prop :=
  ∃ want, Forall2 (λ v f, decode_lit v = Some f) expect want ∧
    Forall2 rel (sort_total got) (sort_total want) ∧
    (has_duplicate_values input = false → Forall2 rel got want).

Definition accepted (v : Verdict) : bool := match v with Differ _ _ _ => false | _ => true end.

Lemma compare_decoded got expect input allow want : length got = length want →
  Forall2 (λ v f, decode_lit v = Some f) expect want →
  compare got expect input allow =
    match within ← scan allow 0 (combine (sort_total got) (sort_total want)) true;
          if has_duplicate_values input then Ok within
          else scan allow 0 (combine got want) within with
    | Err (k, x, y) => Differ k x (WantValue y)
    | Ok true => Exact
    | Ok false => WithinUlp
    end.
Proof.
  intros Hl Hd. unfold compare. pose proof (Forall2_length _ _ _ Hd).
  rewrite decide_False by lia. apply (decode_expect_Ok expect 0) in Hd. by rewrite Hd.
Qed.

Lemma agrees_length rel got expect input want :
  Forall2 (λ v f, decode_lit v = Some f) expect want → agrees rel got expect input →
  length got = length want ∧ Forall2 rel (sort_total got) (sort_total want) ∧
  (has_duplicate_values input = false → Forall2 rel got want).
Proof.
  intros Hd (want' & Hd' & Hs & Hp). assert (want' = want) as ->.
  { clear Hs Hp. revert want' Hd'. induction Hd as [|v f expect want Hf _ IH]; intros want' Hd'.
    - by apply Forall2_nil_inv_l in Hd'.
    - apply Forall2_cons_inv_l in Hd' as (f' & fs' & Hf' & Hfs & ->).
      assert (f' = f) as -> by congruence. f_equal. by apply IH. }
  split; [|done]. apply Forall2_length in Hs. by rewrite !length_sort_total in Hs.
Qed.

Lemma compare_accepted got expect input allow :
  accepted (compare got expect input allow) = true ↔ agrees (near allow) got expect input.
Proof.
  split.
  - intros Ha. unfold compare in Ha. case_decide as Hl; [done|].
    destruct (decode_expect 0 expect) as [want|[]] eqn:Hd; [|done]. apply decode_expect_Ok in Hd.
    pose proof (Forall2_length _ _ _ Hd). exists want. split; [done|].
    destruct (scan allow 0 (combine (sort_total got) _) true) as [w|[[]]] eqn:E; cbn in Ha; [|done].
    apply scan_combine in E as [Hs _]; [|rewrite !length_sort_total; lia]. split; [done|].
    intros Hdup. rewrite Hdup in Ha.
    destruct (scan allow 0 (combine got want) w) as [w'|[[]]] eqn:E; [|done].
    apply scan_combine in E as [? _]; [done|lia].
  - intros Ha. destruct Ha as (want & Hd & Ha).
    destruct (agrees_length (near allow) got expect input want Hd) as (Hl & Hs & Hp); [by exists want|].
    rewrite (compare_decoded got expect input allow want) by done.
    rewrite (scan_complete _ _ _ _ _ Hs). cbn [mbind result_bind].
    destruct (has_duplicate_values input); [by destruct (_ && _)|].
    rewrite (scan_complete _ _ _ _ _ (Hp eq_refl)). by destruct (_ && _).
Qed.

(** ** Exactness *)

Lemma near_same allow x y : same x y → near allow x y.
Proof. by left. Qed.

Lemma compare_exact_agrees got expect input allow :
  compare got expect input allow = Exact ↔ agrees same got expect input.
Proof.
  split.
  - intros Hc. destruct (proj1 (compare_accepted got expect input allow) ltac:(by rewrite Hc))
      as (want & Hd & Hs & Hp). exists want. split; [done|].
    assert (length got = length want) as Hl.
    { apply Forall2_length in Hs. by rewrite !length_sort_total in Hs. }
    rewrite (compare_decoded got expect input allow want Hl Hd) in Hc.
    rewrite (scan_complete _ _ _ _ _ Hs) in Hc. cbn [mbind result_bind] in Hc.
    assert (forallb (λ p, SFeqb p.1 p.2) (combine (sort_total got) (sort_total want)) = true →
      Forall2 same (sort_total got) (sort_total want)) as Hf
      by (apply forallb_same; by rewrite !length_sort_total).
    destruct (has_duplicate_values input); rewrite ?(scan_complete _ _ _ _ _ (Hp eq_refl)) in Hc.
    + destruct (true && _) eqn:E in Hc; [|done]. split; [by apply Hf|done].
    + destruct (_ && _) eqn:E in Hc; [|done]. apply andb_true_iff in E as [E1 E2].
      split; [by apply Hf|]. intros _. by apply forallb_same.
  - intros (want & Hd & Hs & Hp). assert (length got = length want) as Hl.
    { apply Forall2_length in Hs. by rewrite !length_sort_total in Hs. }
    rewrite (compare_decoded got expect input allow want Hl Hd).
    rewrite (scan_complete allow); [|by eapply Forall2_impl; [done|]; apply near_same].
    cbn [mbind result_bind].
    rewrite (proj2 (forallb_same _ _ (Forall2_length _ _ _ Hs)) Hs). cbn [andb].
    destruct (has_duplicate_values input); [done|].
    rewrite (scan_complete allow); [|by eapply Forall2_impl; [by apply Hp|]; apply near_same].
    by rewrite (proj2 (forallb_same _ _ Hl) (Hp eq_refl)).
Qed.

(** Without duplicates in the input, [compare] reports an exact match precisely
    when every filtered logit equals the recorded one at its index: sorting
    both sides first neither hides a difference nor makes one up.  The
    tolerance does not weaken it. *)
Theorem compare_exact got expect input allow : has_duplicate_values input = false →
  compare got expect input allow = Exact ↔
  ∃ want, Forall2 (λ v f, decode_lit v = Some f) expect want ∧ Forall2 same got want.
Proof.
  intros Hdup. rewrite compare_exact_agrees. split.
  - intros (want & Hd & _ & Hp). exists want. split; [done|by apply Hp].
  - intros (want & Hd & Hs). exists want. split; [done|]. split; [by apply sort_total_eqb|done].
Qed.

(** A NaN among the filtered logits is never accepted, although the corpus can
    spell the NaN it expects. *)
Theorem compare_nan got expect input allow : S754_nan ∈ got →
  accepted (compare got expect input allow) = false.
Proof.
  intros Hn. apply not_true_iff_false. rewrite compare_accepted. intros (want & _ & Hs & _).
  assert (S754_nan ∈ sort_total got) as (i & Hi)%list_elem_of_lookup
    by (unfold sort_total; by rewrite sort_by_Permutation).
  destruct (Forall2_lookup_l _ _ _ _ _ Hs Hi) as (y & _ & [H|[_ H]]); [|done].
  by apply SFeqb_key in H as [? _].
Qed.

Lemma windows2_NoDup (l : list Z) : StronglySorted Z.le l →
  existsb (λ w, w.1 =? w.2) (Selftest.windows2 l) = false ↔ NoDup l.
Proof.
  induction 1 as [|x l Hl IH Hx]; [split; [constructor|done]|].
  rewrite NoDup_cons, <- IH. destruct l as [|y l]; [cbn; set_solver|].
  change (existsb (λ w, w.1 =? w.2) (Selftest.windows2 (x :: y :: l)))
    with ((x =? y) || existsb (λ w, w.1 =? w.2) (Selftest.windows2 (y :: l))).
  rewrite orb_false_iff, Z.eqb_neq. apply and_iff_compat_r. rewrite not_elem_of_cons.
  split; [|by intros [? _]]. intros Hne. split; [done|]. intros Hin.
  apply StronglySorted_inv in Hl as [_ Hy]. rewrite Forall_forall in Hy, Hx.
  specialize (Hy x Hin). specialize (Hx y ltac:(left)). lia.
Qed.

Lemma has_duplicate_values_spec v : has_duplicate_values v = false ↔ NoDup (to_bits <$> v).
Proof.
  unfold has_duplicate_values. rewrite windows2_NoDup by (apply StronglySorted_sort_by; apply _).
  by rewrite sort_by_Permutation.
Qed.

(** The tolerance is wider than the ulp it is described as: three of them pass
    just below two. *)
Theorem close_three_ulp :
  close (S754_finite false (2 ^ 24 - 4) (-23)) (S754_finite false (2 ^ 24 - 1) (-23)) = true ∧
  close (S754_finite false (2 ^ 24 - 5) (-23)) (S754_finite false (2 ^ 24 - 1) (-23)) = false.
Proof. vm_compute. done. Qed.

(** ** The deviations of the draws *)

Section deviation.
Context (draws : nat) (total : f64).

(** A token's expected share, how far its count is from it, and how many
    standard deviations of a binomial that is. *)
Definition share (pn : f32 * nat) : f64 := F64.div (to_f64 pn.1) total.
Definition massless (pn : f32 * nat) : Prop := SFeqb (share pn) fzero = true.
Definition off_by (pn : f32 * nat) : f64 :=
  SFabs (F64.sub (F64.div (F64.of_Z (Z.of_nat pn.2)) (F64.of_Z (Z.of_nat draws))) (share pn)).
Definition sigmas (pn : f32 * nat) : f64 :=
  let sigma := SFsqrt F64.prec F64.emax
    (F64.div (F64.mul (share pn) (F64.sub fone (share pn))) (F64.of_Z (Z.of_nat draws))) in
  if SFltb fzero sigma then F64.div (off_by pn) sigma else fzero.

(** The first token whose count is the most standard deviations off, above
    [z0]; [z0] and [d0] when there is none. *)
Definition worst_token (pairs : list (f32 * nat)) (z0 d0 wz wd : f64) : Prop :=
  (∃ i pn, pairs !! i = Some pn ∧ ¬ massless pn ∧ wz = sigmas pn ∧ wd = off_by pn ∧ SFltb z0 wz = true ∧
     (∀ j qn, pairs !! j = Some qn → ¬ massless qn → SFltb wz (sigmas qn) = false) ∧
     (∀ j qn, (j < i)%nat → pairs !! j = Some qn → ¬ massless qn →
        SFltb z0 (sigmas qn) = true → SFltb (sigmas qn) wz = true))
  ∨ (wz = z0 ∧ wd = d0 ∧ ∀ qn, qn ∈ pairs → ¬ massless qn → SFltb z0 (sigmas qn) = false).

Lemma worst_token_unique pairs z0 d0 wz wd wz' wd' :
  worst_token pairs z0 d0 wz wd → worst_token pairs z0 d0 wz' wd' → wz = wz' ∧ wd = wd'.
Proof.
  intros [(i & pn & Hi & Hm & -> & -> & Hz & Hmax & Hfst)|(-> & -> & Hn)]
    [(j & qn & Hj & Hm' & -> & -> & Hz' & Hmax' & Hfst')|(-> & -> & Hn')]; [| | |done].
  - destruct (Nat.lt_trichotomy i j) as [Hlt|[->|Hlt]]; [| |].
    + specialize (Hfst' i pn Hlt Hi Hm Hz). specialize (Hmax j qn Hj Hm'). congruence.
    + assert (pn = qn) as -> by congruence. done.
    + specialize (Hfst j qn Hlt Hj Hm' Hz'). specialize (Hmax' i pn Hi Hm). congruence.
  - rewrite (Hn' pn) in Hz; [done|by eapply list_elem_of_lookup_2|done].
  - rewrite (Hn qn) in Hz'; [done|by eapply list_elem_of_lookup_2|done].
Qed.

Lemma worst_token_skip pn pairs z0 d0 wz wd : (¬ massless pn → SFltb z0 (sigmas pn) = false) →
  worst_token pairs z0 d0 wz wd → worst_token (pn :: pairs) z0 d0 wz wd.
Proof.
  intros Hpn [(i & qn & Hi & Hm & -> & -> & Hz & Hmax & Hfst)|(-> & -> & Hn)]; [left|right].
  - exists (S i), qn. split_and!; try done.
    + intros [|j] rn; cbn; [|apply Hmax]. intros [= <-] Hr. specialize (Hpn Hr).
      apply not_true_is_false. intros Hlt. by rewrite (SFltb_trans _ _ _ Hz Hlt) in Hpn.
    + intros [|j] rn Hj; cbn; [|by apply Hfst; lia]. intros [= <-] Hr Hlt. by rewrite Hpn in Hlt.
  - split_and!; [done..|]. intros qn [->|Hin]%elem_of_cons; [done|by apply Hn].
Qed.

Lemma worst_token_new pn pairs z0 d0 wz wd : ¬ massless pn → SFltb z0 (sigmas pn) = true →
  worst_token pairs (sigmas pn) (off_by pn) wz wd → worst_token (pn :: pairs) z0 d0 wz wd.
Proof.
  intros Hm Hlt [(i & qn & Hi & Hqm & -> & -> & Hz & Hmax & Hfst)|(-> & -> & Hn)]; left.
  - exists (S i), qn. split_and!; try done; [by eapply SFltb_trans| |].
    + intros [|j] rn; cbn; [|apply Hmax]. intros [= <-] _.
      apply not_true_is_false. intros H. pose proof (SFltb_trans _ _ _ Hz H) as Hi'. by rewrite SFltb_irrefl in Hi'.
    + intros [|j] rn Hj; cbn; [by intros [= <-] _ _|]. intros Hl Hr Hs.
      destruct (SFltb (sigmas pn) (sigmas rn)) eqn:E; [by apply (Hfst j rn); [lia|..]|].
      apply (SFltb_le_trans _ (sigmas pn)); [done|done|by destruct (SFltb_numbers _ _ Hs)].
  - exists 0%nat, pn. split_and!; try done; [|by intros ??; lia].
    intros [|j] rn; cbn; [intros [= <-] _; apply SFltb_irrefl|].
    intros Hj Hr. apply Hn; [by eapply list_elem_of_lookup_2|done].
Qed.

Lemma deviations_cons pn pairs zero z0 d0 :
  deviations draws total (pn :: pairs) zero z0 d0 =
  if SFeqb (share pn) fzero
  then deviations draws total pairs (if decide (0 < pn.2)%nat then S zero else zero) z0 d0
  else if SFltb z0 (sigmas pn) then deviations draws total pairs zero (sigmas pn) (off_by pn)
  else deviations draws total pairs zero z0 d0.
Proof. by destruct pn. Qed.

Lemma deviations_spec pairs : ∀ zero z0 d0 zero' wz wd,
  deviations draws total pairs zero z0 d0 = (zero', wz, wd) →
  (zero' = zero ↔ Forall (λ pn, massless pn → pn.2 = 0%nat) pairs) ∧ (zero ≤ zero')%nat ∧
  worst_token pairs z0 d0 wz wd.
Proof.
  induction pairs as [|pn pairs IH]; intros zero z0 d0 zero' wz wd.
  { intros [= <- <- <-]. split; [by split|]. split; [done|]. right. split_and!; [done..|]. by intros ? ?%elem_of_nil. }
  rewrite deviations_cons, Forall_cons. destruct (SFeqb (share pn) fzero) eqn:Em.
  - intros Hd. apply IH in Hd as (Hz & Hle & Hw). split; [|split].
    + destruct (decide (0 < pn.2)%nat).
      * split; [lia|]. intros [H _]. specialize (H Em). lia.
      * rewrite Hz. split; [|by intros [_ ?]]. intros ?. split; [|done]. intros _. lia.
    + destruct (decide (0 < pn.2)%nat); lia.
    + by apply worst_token_skip.
  - assert (¬ massless pn) as Hm by (unfold massless; by rewrite Em).
    intros Hd. destruct (SFltb z0 _) eqn:El in Hd; apply IH in Hd as (Hz & Hle & Hw); split_and!; try done.
    + rewrite Hz. split; [|by intros [_ ?]]. intros ?. by split.
    + by apply worst_token_new.
    + rewrite Hz. split; [|by intros [_ ?]]. intros ?. by split.
    + by apply worst_token_skip.
Qed.
End deviation.

(** ** A pass *)

Section pass.
Context (fexp fln : f32 → f32).

(** What a case must satisfy for the program to pass.  One without expected
    values or logits is counted and then forgotten. *)
Definition case_passes (case : Value) : Prop :=
  match case_data case with
  | None => True
  | Some (expect, logits_json) =>
      ∃ logits, Forall2 (λ v f, decode_lit v = Some f) logits_json logits ∧
        let settings := case_settings case in
        let cfg := config_from settings in
        validate cfg = Ok tt ∧
        (agrees (near (has_temperature settings)) (apply_filters fexp fln cfg (case_history case) logits)
           expect logits
         ∨ boundary_case fexp settings logits expect = true)
  end.

Lemma check_case_passes i case t t' : check_case fexp fln i case t = Ok t' →
  t_failed t' = false ↔ t_failed t = false ∧ case_passes case.
Proof.
  unfold check_case, case_passes. destruct t as [ok bad exact ulp ties mism boundary by_stage failed].
  destruct (case_data case) as [[expect logits_json]|]; [|intros [= <-]; cbn; tauto].
  destruct (decode_expect 0 logits_json) as [logits|] eqn:Hd; cbn [or_exit mbind result_bind]; [|done].
  apply decode_expect_Ok in Hd.
  set (cfg := config_from _). unfold new_sampler.
  assert (∀ P : list f32 → Prop, (∃ l, Forall2 (λ v f, decode_lit v = Some f) logits_json l ∧ P l) ↔ P logits)
    as Hone.
  { intros P. split; [|by exists logits]. intros (l & Hl & HP).
    apply (decode_expect_Ok _ 0) in Hl, Hd. congruence. }
  rewrite Hone. destruct (validate cfg) as [[]|e]; cbn [mbind result_bind].
  - rewrite <- compare_accepted. intros [= <-].
    destruct (compare _ _ _ _); cbn; [tauto..|].
    destruct (boundary_case fexp _ _ _); cbn; [tauto|]. split; [done|]. by intros (_ & _ & [?|?]).
  - intros [= <-]. cbn. split; [done|]. by intros (_ & ? & _).
Qed.

Lemma check_case_returns i case t : case_passes case → ∃ t', check_case fexp fln i case t = Ok t'.
Proof.
  unfold check_case, case_passes. destruct t as [ok bad exact ulp ties mism boundary by_stage failed].
  destruct (case_data case) as [[expect logits_json]|]; [|by eexists].
  intros (logits & Hd & Hv & _). apply (decode_expect_Ok _ 0) in Hd. rewrite Hd.
  cbn [or_exit mbind result_bind]. unfold new_sampler. rewrite Hv. by eexists.
Qed.

Lemma check_cases_passes cases : ∀ i t,
  (∃ t', check_cases fexp fln i cases t = Ok t' ∧ t_failed t' = false) ↔
  t_failed t = false ∧ Forall case_passes cases.
Proof.
  induction cases as [|case cases IH]; intros i t; cbn [check_cases].
  { rewrite Forall_nil. split; [by intros (t' & [= <-] & ?)|]. intros [? _]. by eexists. }
  rewrite Forall_cons. split.
  - intros (t' & (t1 & H1 & H)%bind_Ok & Hf).
    destruct (proj1 (IH (S i) t1)) as [Hf1 Hc]; [by exists t'|].
    apply (check_case_passes i case t t1 H1) in Hf1 as [? ?]. done.
  - intros (Hf & Hp & Hc). destruct (check_case_returns i case t Hp) as [t1 H1].
    rewrite H1. apply IH. split; [|done]. by apply (check_case_passes i case t t1 H1).
Qed.

Lemma check_cases_loud cases : ∀ i t, loud (check_cases fexp fln i cases t).
Proof.
  induction cases as [|case cases IH]; intros i t; cbn; [done|].
  apply loud_bind; [|intros; apply IH]. unfold check_case. destruct t.
  destruct (case_data case) as [[]|]; [|done]. apply loud_bind; [by apply loud_or_exit|].
  intros logits _. by destruct (new_sampler _).
Qed.

Lemma load_cases_loud read_file path : loud (load_cases read_file path).
Proof.
  repeat (apply loud_bind; [by eauto with loud|intros ? _]). done.
Qed.

(** What the draws of one distribution must satisfy: none of them fails, no
    token that is masked or without a share of the mass is drawn, and the token
    whose count is the most standard deviations off its share is less than five
    off, or off by less than a ten-thousandth. *)
Definition frequencies_hold (draws ci : nat) (logits : list f32) (c : SamplerConfig) : Prop :=
  ∃ s counts wz wd,
    new_sampler (with_seed c (wadd 0xC0FFEE (Z.of_nat ci))) = Ok s ∧
    let target := softmax fexp (apply_filters fexp fln (cfg s) [] logits) in
    let total := dsum (to_f64 <$> target) in
    draw_loop fexp fln draws s logits target (replicate (length logits) 0%nat) 0 = Ok (counts, 0%nat) ∧
    Forall (λ pn, massless total pn → pn.2 = 0%nat) (combine target counts) ∧
    worst_token draws total (combine target counts) fzero fzero wz wd ∧
    (SFltb wz (F64.of_Z 5) = true ∨ SFltb wd (F64.div (F64.of_Z 1) (F64.of_Z 10000)) = true).

Lemma frequency_case_spec draws ci logits c :
  frequency_case fexp fln draws ci logits c = true ↔ frequencies_hold draws ci logits c.
Proof.
  unfold frequency_case, frequencies_hold. split.
  - destruct (new_sampler _) as [s|]; [|done]. cbn zeta.
    destruct (draw_loop _ _ _ _ _ _ _ _) as [[counts impossible]|] eqn:Ed; [|done].
    destruct (deviations _ _ _ _ _ _) as [[zero wz] wd] eqn:Ev.
    rewrite !andb_true_iff, orb_true_iff, !bool_decide_eq_true. intros [[-> ->] Hd].
    apply deviations_spec in Ev as (Hz & _ & Hw). exists s, counts, wz, wd. split_and!; try done. by apply Hz.
  - intros (s & counts & wz & wd & -> & H). cbn zeta in *. destruct H as (-> & Hz & Hw & Hd).
    destruct (deviations _ _ _ _ _ _) as [[zero wz'] wd'] eqn:Ev.
    apply deviations_spec in Ev as (Hz' & _ & Hw'). destruct (worst_token_unique _ _ _ _ _ _ _ _ _ Hw Hw') as [<- <-].
    by rewrite !andb_true_iff, orb_true_iff, !bool_decide_eq_true, Hz'.
Qed.

Lemma frequency_check_spec draws : frequency_check fexp fln draws = true ↔
  ∀ ci d, distributions !! ci = Some d → frequencies_hold draws ci d.1 d.2.
Proof.
  unfold frequency_check. rewrite forallb_forall. split.
  - intros H ci d Hd. apply frequency_case_spec.
    apply (H (frequency_case fexp fln draws ci d.1 d.2)). apply list_elem_of_In, list_elem_of_lookup.
    exists ci. by rewrite list_lookup_imap, Hd.
  - intros H b Hb. apply list_elem_of_In, list_elem_of_lookup in Hb as [ci Hb].
    rewrite list_lookup_imap in Hb. apply fmap_Some in Hb as (d & Hd & ->).
    by apply frequency_case_spec, H.
Qed.

(** C32. The program reports a pass exactly when the corpus can be read and names
    the pipeline's order, every case that has its fields has acceptable
    settings and filtered logits that agree with the recorded ones or sits on
    the boundary of top-p, and with [--frequency] the draws of each of the
    five distributions hold to their shares ([frequencies_hold]).  Logits agree
    when they are equal, as multisets when the input has duplicates and index by
    index otherwise; under a temperature other than one the difference may be
    [2 * f32::EPSILON] of the recorded value ([close]; up to three units in the
    last place, see [close_three_ulp]).  A case without its fields passes. *)
Theorem samplecheck_pass read_file args :
  samplecheck fexp fln read_file args = Success ↔
  ∃ path rest doc cases, non_flags args = path :: rest ∧
    load_cases read_file path = Ok (doc, cases) ∧ stage_order doc = OUR_ORDER ∧
    Forall case_passes (up_to (val args (lit "--max") ≫= parse_usize) cases) ∧
    let freq := default 0 (val args (lit "--frequency") ≫= parse_usize) in
    0 < freq → ∀ ci d, distributions !! ci = Some d → frequencies_hold (Z.to_nat freq) ci d.1 d.2.
Proof.
  set (cut := up_to (A:=Value) _). cbn zeta. split.
  - unfold samplecheck. destruct (non_flags args) as [|path rest]; [done|].
    intros H. apply run_main_Success in H; [|apply loud_bind; [apply load_cases_loud|]; intros [doc cases] _;
      apply loud_bind; [apply check_cases_loud|done]].
    apply bind_Ok in H as ([doc cases] & El & H). apply bind_Ok in H as (t & Hc & H).
    apply Ok_inj in H. destruct (t_failed t) eqn:Ht; [done|].
    destruct (proj1 (check_cases_passes (cut cases) 0 (start_totals (bool_decide (stage_order doc ≠ OUR_ORDER)))))
      as [Hb Hp]; [by exists t|].
    exists path, rest, doc, cases. do 2 (split; [done|]).
    split; [apply bool_decide_eq_false in Hb; by apply dec_stable|]. split; [done|].
    intros Hf. rewrite decide_True in H by done. apply frequency_check_spec.
    by destruct (frequency_check _ _ _).
  - intros (path & rest & doc & cases & Hn & El & Ho & Hp & Hf). unfold samplecheck. rewrite Hn, El.
    cbn [mbind result_bind].
    destruct (proj2 (check_cases_passes (cut cases) 0 (start_totals (bool_decide (stage_order doc ≠ OUR_ORDER)))))
      as (t & Ht & Hff).
    { split; [|done]. apply bool_decide_eq_false. by intros []. }
    fold cut. rewrite Ht. cbn [mbind result_bind run_main]. rewrite Hff.
    destruct (decide (0 < default 0 _)) as [Hd|]; [by rewrite (proj2 (frequency_check_spec _) (Hf Hd))|done].
Qed.
End pass.

(** ** The draws *)

Lemma positive_nonzero p : is_positive p = true → SFeqb p fzero = false.
Proof. by destruct p as [[]|[]| |[]]. Qed.

Lemma next_keeps_cfg fexp fln s logits history r out s' :
  next fexp fln s logits history = (r, out, s') → cfg s' = cfg s.
Proof.
  unfold next. cbn zeta. destruct (negb _); [by intros [= _ _ <-]|].
  destruct (next_f64 (rng s)) as [u state]. by intros [= _ _ <-].
Qed.

Lemma sum_list_alter_S (l : list nat) i : (i < length l)%nat → sum_list (alter S i l) = S (sum_list l).
Proof.
  revert i. induction l as [|x l IH]; intros [|i]; cbn; [lia..|]. intros Hi. rewrite IH by lia. lia.
Qed.

(** Every draw of the frequency check falls on a token the filtered softmax
    gives mass to: the check for draws of a masked token cannot fire, whatever
    the generator's state, and every draw is counted once. *)
Theorem draw_loop_sound fexp fln logits target draws : ∀ s counts impossible counts' impossible',
  Z.of_nat (length logits) ≤ 2 ^ 32 → length counts = length logits →
  target = softmax fexp (apply_filters fexp fln (cfg s) [] logits) →
  draw_loop fexp fln draws s logits target counts impossible = Ok (counts', impossible') →
  impossible' = impossible ∧ sum_list counts' = (sum_list counts + draws)%nat ∧
  ∀ i, counts' !! i = counts !! i ∨ is_positive (at_ target i) = true.
Proof.
  induction draws as [|draws IH]; intros s counts imp counts' imp' Hlen Hc Ht H; cbn [draw_loop] in H.
  { injection H as <- <-. split; [done|]. split; [lia|]. by left. }
  destruct (next fexp fln s logits []) as [[[t|e] out] s'] eqn:En; [|done].
  destruct (next_drawn fexp fln s logits [] t out s' En) as (Hout & i & p & -> & Hi & Hp & Hpos).
  rewrite Hout, <- Ht in Hp. unfold wrap32 in H. rewrite Z.mod_small, Nat2Z.id in H by lia.
  assert (at_ target i = p) as Hat by (unfold at_; by apply nth_lookup_Some with (d := fzero)).
  rewrite Hat, positive_nonzero in H by done.
  apply IH in H as (-> & Hs & Hm); [|done|by rewrite length_alter|].
  - split; [done|]. rewrite Hs, sum_list_alter_S by lia. split; [lia|].
    intros j. destruct (Hm j) as [Hj|]; [|by right]. destruct (decide (j = i)) as [->|Hne].
    + right. by rewrite Hat.
    + left. by rewrite Hj, list_lookup_alter_ne.
  - rewrite Ht. f_equal. f_equal. symmetry. by eapply next_keeps_cfg.
Qed.
