(* ===== verification/Tokcheck.v ===== *)
(** * gdn: checking the tokenizer against a corpus

    Models qwen35-forward/gdn/src/bin/tokcheck.rs: the corpus and its mode, the
    three checks of a case, the grouping of failures, and the exit status.
    Files are what reading them gives; printing is left out.

    A pass of the program as a statement about every case, and why its third
    check never adds anything for a tokenizer the loader builds. *)

From S2P Require Import Prelude Serde Rstr Utf8 PyJson UnicodeGc UnicodeGcProps Pretokenize Tokenizer.
From S2P Require Import TokenizerProps Args Exit Bundle Loader.

(** ** The grouping of failures *)

(** A rough label of what a text exercises. *)
Definition describe (t : rstr) : rstr :=
  let any (f : char → bool) := existsb f t in
  let tag (b : bool) (s : string) : list rstr := if b then [lit s] else [] in
  if decide (t = []) then lit "empty" else
  let tags :=
    tag (any (λ c, is_whitespace c && negb (c =? 32))) "non-space whitespace"
    ++ tag (contains (lit "  ") t) "doubled space"
    ++ tag (starts_with (lit " ") t || ends_with (lit " ") t) "leading/trailing space"
    ++ tag (any (in_range 48 57)) "digits"
    ++ tag (contains (lit "'") t) "apostrophe"
    ++ tag (any (λ c, 128 <=? c)) "non-ascii"
    ++ tag (any (λ c, 0x2000 <? c)) "high codepoint" in
  if decide (tags = []) then lit "plain ascii words" else PyJson.join (lit ", ") tags.

(** How many failures share each label. *)
Definition by_shape (texts : list rstr) : gmap rstr nat :=
  foldl (λ m t, partial_alter (λ n, Some (S (default 0%nat n))) (describe t) m) ∅ texts.

(** ** The corpus *)

Section corpus.
Context {J : Type} `{SerdeJson J}.

(** A bare list of cases, or an object that names its mode. *)
Definition corpus_of (doc : J) : option (rstr * list J) :=
  match as_array doc with
  | Some a => Some (lit "(unlabelled)", a)
  | None =>
      match as_object doc with
      | Some _ => Some (default (lit "?") (v ← get doc (lit "mode"); as_str v),
                        default [] (v ← get doc (lit "cases"); as_array v))
      | None => None
      end
  end.

Record Case := mkCase { case_text : rstr; case_ids : list Z; case_decoded : rstr }.

Definition case_of (c : J) : Case :=
  let ids (a : list J) : list Z := wrap32 <$> omap as_u64 a in
  mkCase (get_str c "text") (default [] (v ← get c (lit "ids"); ids <$> as_array v))
    (get_str c "decoded").

(** [--max] cuts the cases off. *)
Definition up_to {A} (max : option Z) (l : list A) : list A :=
  match max with Some m => take (Z.to_nat m) l | None => l end.

(** The failures, by the text of the case, and the totals. *)
Record Totals := mkTotals {
  id_fail : list rstr;
  decode_fail : list rstr;
  stable_fail : list rstr;
  total_ids : nat;
  checked : nat;
}.

Section cases.
Context (tk : Tokenizer).

(** One case.  [None]: [encode] does not come back. *)
Definition check_case (c : Case) (t : Totals) : option Totals :=
  let '(mkTotals idf decf stf ids n) := t in
  let ids := (ids + length (case_ids c))%nat in
  got ← encode tk (case_text c);
  if decide (got ≠ case_ids c) then Some (mkTotals (idf ++ [case_text c]) decf stf ids (S n)) else
  let back := decode tk got in
  if decide (back ≠ case_decoded c) then Some (mkTotals idf (decf ++ [case_text c]) stf ids (S n)) else
  again ← encode tk back;
  if decide (again ≠ got) then Some (mkTotals idf decf (stf ++ [case_text c]) ids (S n))
  else Some (mkTotals idf decf stf ids (S n)).

Fixpoint check_cases (cases : list Case) (t : Totals) : option Totals :=
  match cases with
  | [] => Some t
  | c :: cases => t ← check_case c t; check_cases cases t
  end.
End cases.

Definition all_passed (t : Totals) : bool :=
  bool_decide (id_fail t = []) && bool_decide (decode_fail t = []) && bool_decide (stable_fail t = []).

(** ** The program *)

(** [is_dir] and [file]: what the file system says about a path. *)
Context (to_string : J → rstr) (iter : gmap rstr Z → list (rstr * Z)).
Context (is_dir : rstr → bool) (file : rstr → File).

(** Loading ends the program, with an error or by a panic. *)
Definition or_load {A} (r : result LoadError A) : result exit A :=
  match r with
  | Ok a => Ok a
  | Err Panics => Err Panicked
  | Err _ => Err Failure
  end.

Definition load_dir (dir : rstr) : result LoadError (Tokenizer * TokenizerInfo) :=
  from_model_dir to_string iter (file (join dir (lit "tokenizer.json")))
    (file (join dir (lit "tokenizer_config.json"))).

Definition load_tokenizer (path : rstr) : result exit (Tokenizer * TokenizerInfo) :=
  or_load (if is_dir path then load_dir path else from_file to_string iter (file path)).

Definition contents (f : File) : option (list Z) :=
  match f with Contents raw => Some raw | _ => None end.

(** The mode and the cases of the corpus file, which is read twice. *)
Definition load_corpus (path : rstr) : result exit (rstr * list J) :=
  raw ← ok_or Failure (contents (file path));
  doc ← ok_or Failure (from_slice raw);
  corpus ← ok_or Failure (corpus_of doc);
  _ ← ok_or Failure (contents (file path));
  Ok corpus.

(** The corpus decides how the patterns treat marks. *)
Definition corpus_tokenizer (tk : Tokenizer) (mode : rstr) : Tokenizer :=
  set_marks_join_letters tk (negb (contains (lit "no-marks") mode)).

Definition tokcheck (args : list rstr) : exit :=
  match non_flags args with
  | tok :: corpus :: _ =>
      let max := val args (lit "--max") ≫= parse_usize in
      run_main (
        '(tk, _) ← load_tokenizer tok;
        '(mode, cases) ← load_corpus corpus;
        t ← or_panic (check_cases (corpus_tokenizer tk mode) (case_of <$> up_to max cases)
                        (mkTotals [] [] [] 0 0));
        Ok (verdict (all_passed t)))
  | _ => Usage
  end.
End corpus.

(** * What tokcheck's verdict means *)

(** The three demands on a case. *)
Definition case_passes (tk : Tokenizer) (c : Case) : Prop :=
  encode tk (case_text c) = Some (case_ids c) ∧ decode tk (case_ids c) = case_decoded c ∧
  encode tk (case_decoded c) = Some (case_ids c).

Lemma all_passed_spec t : all_passed t = true ↔ id_fail t = [] ∧ decode_fail t = [] ∧ stable_fail t = [].
Proof. unfold all_passed. rewrite !andb_true_iff, !bool_decide_eq_true. tauto. Qed.

Lemma app_singleton_nil {A} (l : list A) x : l ++ [x] ≠ [].
Proof. by destruct l. Qed.

Lemma check_case_spec tk c : checks all_passed (check_case tk c) (case_passes tk c).
Proof.
  intros [idf decf stf ids n]. unfold check_case, case_passes.
  destruct (encode tk (case_text c)) as [got|]; cbn [mbind option_bind].
  2: { split; [by intros (? & ? & _)|]. by intros (_ & ? & _). }
  case_decide as Hid.
  { apply Some_passes. rewrite !all_passed_spec. cbn.
    split; [by intros [[]%app_singleton_nil _]|]. intros (_ & [= ?] & _). done. }
  subst got. case_decide as Hde.
  { apply Some_passes. rewrite !all_passed_spec. cbn. split; [by intros (_ & []%app_singleton_nil & _)|].
    by intros (_ & _ & ? & _). }
  rewrite Hde. destruct (encode tk (case_decoded c)) as [again|]; cbn [mbind option_bind].
  2: { split; [by intros (? & ? & _)|]. by intros (_ & _ & _ & ?). }
  case_decide as Hst; apply Some_passes; rewrite !all_passed_spec; cbn.
  - split; [by intros (_ & _ & []%app_singleton_nil)|]. intros (_ & _ & _ & [= ?]). done.
  - subst again. tauto.
Qed.

Lemma check_cases_spec tk cases : checks all_passed (check_cases tk cases) (Forall (case_passes tk) cases).
Proof.
  induction cases as [|c cases IH]; [by eapply checks_iff, checks_id; rewrite Forall_nil|].
  eapply checks_iff; [symmetry; apply Forall_cons|].
  exact (checks_bind _ _ _ _ _ (check_case_spec tk c) IH).
Qed.

(** The third check never decides anything: for a tokenizer that satisfies the
    loader's invariant, a case passes as soon as its ids and its decoded text
    are right, which is when that text is the case's normal form. *)
Theorem case_passes_stable tk c : wf tk → literal_added tk → Forall scalar (case_text c) →
  case_passes tk c ↔
  encode tk (case_text c) = Some (case_ids c) ∧ nfc (case_text c) = Some (case_decoded c).
Proof.
  intros Hwf Hlit Hs. destruct (decode_encode_both tk (case_text c) Hwf Hlit Hs)
    as (ids & t & He & Hn & Hd & Ha).
  unfold case_passes. rewrite He, Hn. split.
  - intros ([= <-] & <- & _). by rewrite Hd.
  - intros ([= <-] & [= <-]). done.
Qed.

Section program.
Context {J : Type} `{SerdeJson J}.
Context (to_string : J → rstr) (iter : gmap rstr Z → list (rstr * Z)).
Context (is_dir : rstr → bool) (file : rstr → File).

Lemma or_load_loud {A} (r : result LoadError A) : loud (or_load r).
Proof. by destruct r as [|[]]. Qed.

Lemma load_corpus_loud path : loud (load_corpus file path).
Proof. unfold load_corpus. repeat (apply loud_bind; [by apply loud_ok_or|intros ? _]). done. Qed.

(** The program reports a pass exactly when the tokenizer and the corpus load
    and every case up to [--max] passes its three checks with the tokenizer
    the corpus asks for. *)
Theorem tokcheck_pass args :
  tokcheck to_string iter is_dir file args = Success ↔
  ∃ tok corpus rest tk info mode cases, non_flags args = tok :: corpus :: rest ∧
    load_tokenizer to_string iter is_dir file tok = Ok (tk, info) ∧
    load_corpus file corpus = Ok (mode, cases) ∧
    Forall (λ c, case_passes (corpus_tokenizer tk mode) (case_of c))
      (up_to (val args (lit "--max") ≫= parse_usize) cases).
Proof.
  unfold tokcheck. set (max := val _ _ ≫= _). split.
  - destruct (non_flags args) as [|tok [|corpus rest]]; [done..|].
    intros H0. apply run_main_Success in H0.
    2: { apply loud_bind; [apply or_load_loud|]. intros [tk info] _.
         apply loud_bind; [apply load_corpus_loud|]. intros [mode cases] _.
         apply loud_bind; [apply loud_or_panic|done]. }
    apply bind_Ok in H0 as ([tk info] & Ht & H0). apply bind_Ok in H0 as ([mode cases] & Hc & H0).
    apply bind_Ok in H0 as (t & Hp & H0). apply Ok_inj in H0. apply ok_or_Ok in Hp.
    exists tok, corpus, rest, tk, info, mode, cases. do 3 (split; [done|]).
    change (Forall (case_passes (corpus_tokenizer tk mode) ∘ case_of) (up_to max cases)).
    rewrite <- Forall_fmap. eapply check_cases_spec. exists t. split; [done|]. by destruct (all_passed t).
  - intros (tok & corpus & rest & tk & info & mode & cases & -> & Ht & Hc & Hp). rewrite Ht.
    cbn [mbind result_bind]. rewrite Hc. cbn [mbind result_bind].
    assert (Forall (case_passes (corpus_tokenizer tk mode)) (case_of <$> up_to max cases)) as Hf
      by (apply Forall_fmap; exact Hp).
    destruct (proj2 (check_cases_spec (corpus_tokenizer tk mode) (case_of <$> up_to max cases)
                       (mkTotals [] [] [] 0 0))) as (t & -> & Ha); [done|].
    cbn. by rewrite Ha.
Qed.
End program.
