(* ===== verification/Chatcheck.v ===== *)
(** * gdn: checking the chat template against a corpus

    Models qwen35-forward/gdn/src/bin/chatcheck.rs: the markers, the three
    checks of a case and the rendering of what was parsed back, to the exit
    status.  Printing is left out except where it can panic.

    A pass of the program as a statement about every case, and the check it
    adds to the corpus: rendering, parsing and rendering again cannot change
    the bytes while no delimiter occurs inside what it delimits. *)

From S2P Require Import Prelude Serde Rstr Utf8 PyJson Pretokenize Tokenizer Chat ChatProps ChatParse.
From S2P Require Import ChatParseProps Args Exit Loader Tokcheck.

Definition markers : list (rstr * Z) :=
  [(IM_START, 248045); (IM_END, 248046); (THINK_OPEN, 248068); (THINK_CLOSE, 248069)].

Definition ASSISTANT_OPEN : rstr := IM_START ++ lit "assistant" ++ NL.
Definition TURN_CLOSE : rstr := IM_END ++ NL.

(** [truncate]: [None] is the panic of slicing inside a character. *)
Definition truncate (s : rstr) : option rstr :=
  if decide (len (utf8 s) ≤ 200) then Some s
  else if is_char_boundary 200 s
  then Some (from_utf8_lossy (take 200 (utf8 s)) ++ lit "...")
  else None.

(** ** Parsing back *)

(** What follows the last opening of an assistant's turn, up to the turn's
    closing at the end. *)
Definition last_turn (text : rstr) : option rstr := snd <$> rsplit_once ASSISTANT_OPEN text.

Definition reply_message (r : Reply) : Message :=
  mkMessage Assistant (CText (reply_content r)) (reply_reasoning r) (as_chat_calls r).

(** The same conversation with its last message replaced. *)
Definition with_last (req : Request) (m : Message) : Request :=
  mkRequest (take (length (messages req) - 1) (messages req) ++ [m]) (tools req) (opts req).

(** Rendering again gives the text that was parsed. *)
Definition round_trips (req : Request) (continuation : rstr) (reply : Reply) : bool :=
  match render (with_last req (reply_message reply)) with
  | Ok r =>
      match last_turn (text r) with
      | Some tail => bool_decide (default [] (strip_suffix TURN_CLOSE tail) = continuation)
      | None => false
      end
  | Err _ => false
  end.

(** Whether the check fails; [None] is a panic of the parser. *)
Definition reparse_off (req : Request) (got : result rstr Rendered) : option bool :=
  match got, last (messages req) with
  | Ok rendered, Some m =>
      if decide (role m = Assistant) then
        match tail ← last_turn (text rendered); strip_suffix TURN_CLOSE tail with
        | Some continuation =>
            reply ← parse_assistant continuation;
            Some (negb (round_trips req continuation reply))
        | None => Some false
        end
      else Some false
  | _, _ => Some false
  end.

(** ** The cases *)

Record Totals := mkTotals {
  text_ok : nat;
  text_bad : nat;
  ids_ok : nat;
  ids_bad : nat;
  err_ok : nat;
  err_bad : nat;
  parse_bad : nat;
}.

Definition get_text (v : Value) (k : string) : option rstr :=
  s ← Value.get v (lit k); Value.as_str s.

(** The text, or the error; [None] is the panic of printing the two texts. *)
Definition check_text (verbose : bool) (case : Value) (got : result rstr Rendered) (t : Totals) :
    option Totals :=
  let '(mkTotals tok tbad iok ibad eok ebad pbad) := t in
  match get_text case "expect_text", got with
  | Some want, Ok rendered =>
      if decide (text rendered = want) then Some (mkTotals (S tok) tbad iok ibad eok ebad pbad)
      else
        _ ← (if verbose then _ ← truncate want; _ ← truncate (text rendered); Some () else Some ());
        Some (mkTotals tok (S tbad) iok ibad eok ebad pbad)
  | Some _, Err _ => Some (mkTotals tok (S tbad) iok ibad eok ebad pbad)
  | None, Err e =>
      if decide (e = default [] (get_text case "expect_error"))
      then Some (mkTotals tok tbad iok ibad (S eok) ebad pbad)
      else Some (mkTotals tok tbad iok ibad eok (S ebad) pbad)
  | None, Ok _ => Some (mkTotals tok tbad iok ibad eok (S ebad) pbad)
  end.

Section cases.
Context (tk : Tokenizer).

(** The ids, when the corpus has them; [None]: [encode] does not come back. *)
Definition check_ids (case : Value) (got : result rstr Rendered) (t : Totals) : option Totals :=
  let '(mkTotals tok tbad iok ibad eok ebad pbad) := t in
  match v ← Value.get case (lit "expect_ids"); Value.as_array v, got with
  | Some want, Ok rendered =>
      let want : list Z := wrap32 <$> omap Value.as_usize want in
      mine ← encode tk (text rendered);
      if decide (mine = want)
      then Some (mkTotals tok tbad (S iok) ibad eok ebad pbad)
      else Some (mkTotals tok tbad iok (S ibad) eok ebad pbad)
  | _, _ => Some t
  end.

Definition check_case (verbose : bool) (case : Value) (t : Totals) : option Totals :=
  let '(mkTotals tok tbad iok ibad eok ebad pbad) := t in
  match request_from_json case with
  | Err _ => Some (mkTotals tok (S tbad) iok ibad eok ebad pbad)
  | Ok req =>
      let got := render req in
      t ← check_text verbose case got t;
      t ← check_ids case got t;
      off ← reparse_off req got;
      let '(mkTotals tok tbad iok ibad eok ebad pbad) := t in
      Some (mkTotals tok tbad iok ibad eok ebad (if off : bool then S pbad else pbad))
  end.

Fixpoint check_cases (verbose : bool) (cases : list Value) (t : Totals) : option Totals :=
  match cases with
  | [] => Some t
  | case :: cases => t ← check_case verbose case t; check_cases verbose cases t
  end.

(** Every marker is one token, and the one the checkpoint ships. *)
Fixpoint marker_failures (ms : list (rstr * Z)) : option nat :=
  match ms with
  | [] => Some 0%nat
  | (m, want) :: ms =>
      got ← encode tk m;
      n ← marker_failures ms;
      Some (if decide (got = [want]) then n else S n)
  end.
End cases.

Definition all_passed (t : Totals) : bool :=
  bool_decide (text_bad t = 0%nat) && bool_decide (ids_bad t = 0%nat)
  && bool_decide (err_bad t = 0%nat) && bool_decide (parse_bad t = 0%nat).

(** ** The program *)

Section chatcheck.
Context {J : Type} `{SerdeJson J}.
Context (to_string : J → rstr) (iter : gmap rstr Z → list (rstr * Z)) (file : rstr → File).

Definition load_cases (path : rstr) : result exit (list Value) :=
  raw ← ok_or Failure (contents (file path));
  doc ← or_exit Failure (PyJson.parse (from_utf8_lossy raw));
  ok_or Failure (v ← Value.get doc (lit "cases"); Value.as_array v).

Definition chatcheck (args : list rstr) : exit :=
  match non_flags args with
  | dir :: corpus :: _ =>
      let max := val args (lit "--max") ≫= parse_usize in
      run_main (
        '(tk, _) ← or_load (load_dir to_string iter file dir);
        cases ← load_cases corpus;
        bad ← or_panic (marker_failures tk markers);
        if decide (0 < bad)%nat then Err Failure else
        t ← or_panic (check_cases tk (has args (lit "--verbose")) (up_to max cases)
                        (mkTotals 0 0 0 0 0 0 0));
        Ok (verdict (all_passed t)))
  | _ => Usage
  end.
End chatcheck.

(** * What chatcheck's verdict means *)

(** ** Replacing the last message *)

Lemma main_loop_app msgs avi lqi l2 l1 : ∀ i out cnt,
  main_loop msgs avi lqi i (l1 ++ l2) out cnt =
  '(out, cnt) ← main_loop msgs avi lqi i l1 out cnt;
  main_loop msgs avi lqi (i + length l1) l2 out cnt.
Proof.
  induction l1 as [|m l1 IH]; intros i out cnt; cbn [app main_loop length].
  { cbn. by rewrite Nat.add_0_r. }
  destruct (trimmed_content _ _ _ _ _) as [[c cnt']|]; cbn [mbind result_bind]; [|done].
  destruct (message_block _ _ _ _ _); cbn [mbind result_bind]; [|done].
  by rewrite IH, Nat.add_succ_r.
Qed.

(** A block looks at the other messages' roles only. *)
Lemma message_block_roles (msgs msgs' : list Message) lqi i m c : role <$> msgs = role <$> msgs' →
  message_block msgs lqi i m c = message_block msgs' lqi i m c.
Proof.
  intros Hr. unfold message_block. destruct (role m); try done. f_equal. unfold tool_block.
  assert (∀ p, role <$> (msgs !! p) = role <$> (msgs' !! p)) as Hp
    by (intros p; rewrite <- !list_lookup_fmap; by rewrite Hr).
  f_equal.
  - destruct i as [|p]; [done|]. specialize (Hp p).
    destruct (msgs !! p), (msgs' !! p); cbn in Hp; try done. by injection Hp as ->.
  - do 5 f_equal. specialize (Hp (S i)).
    destruct (msgs !! S i), (msgs' !! S i); cbn in Hp; try done. by injection Hp as ->.
Qed.

Lemma main_loop_roles (msgs msgs' : list Message) avi lqi rest : role <$> msgs = role <$> msgs' → ∀ i out cnt,
  main_loop msgs avi lqi i rest out cnt = main_loop msgs' avi lqi i rest out cnt.
Proof.
  intros Hr. induction rest as [|m rest IH]; intros i out cnt; cbn [main_loop]; [done|].
  destruct (trimmed_content _ _ _ _ _) as [[c cnt']|]; cbn [mbind result_bind]; [|done].
  rewrite (message_block_roles msgs msgs') by done.
  destruct (message_block _ _ _ _ _); cbn [mbind result_bind]; [|done]. apply IH.
Qed.

Lemma scan_queries_prefix (msgs msgs' : list Message) avi k : (∀ i, (i < k)%nat → msgs !! i = msgs' !! i) → ∀ st,
  scan_queries msgs avi k st = scan_queries msgs' avi k st.
Proof.
  induction k as [|k IH]; intros Hk st; cbn [scan_queries]; [done|]. rewrite (Hk k) by lia.
  destruct (msgs' !! k); [|done]. destruct st as [[multi lqi] cnt].
  match goal with |- mbind _ ?st' = _ => destruct st' end; cbn [mbind result_bind]; [|done]. apply IH. intros i Hi. apply Hk. lia.
Qed.

(** An assistant's message at the end is no query. *)
Lemma scan_queries_snoc pre m avi st : role m = Assistant →
  scan_queries (pre ++ [m]) avi (S (length pre)) st = scan_queries pre avi (length pre) st.
Proof.
  intros Hr. cbn [scan_queries]. rewrite list_lookup_middle by done. destruct st as [[multi lqi] cnt].
  rewrite bool_decide_eq_false_2 by (rewrite Hr; done). rewrite andb_false_r. cbn [mbind result_bind].
  apply scan_queries_prefix. intros i Hi. by rewrite lookup_app_l.
Qed.

(** A rendered conversation that ends in an assistant's message: what its text
    is, and what it is with another message in that place. *)
Lemma render_with_last req pre m r : messages req = pre ++ [m] → role m = Assistant → textual m →
  render req = Ok r →
  ∃ out lqi, (lqi < length pre)%nat ∧
    text r = out ++ assistant_block m (length pre) lqi (jinja_trim (content_text (content m)))
             ++ generation_prompt (opts req) ∧
    ∀ m', role m' = Assistant → textual m' →
      render (with_last req m') = Ok (mkRendered
        (out ++ assistant_block m' (length pre) lqi (jinja_trim (content_text (content m')))
             ++ generation_prompt (opts req)) (images r) (videos r)).
Proof.
  intros Hm Hr Ht Hok.
  destruct (render_parts_of req r Hok) as (first & ms & sys & cnt1 & lqi & cnt2 & out & Hf & Hsys & Hq & Hl & Htx).
  rewrite Hm in Hq, Hl, Hf. rewrite length_app, Nat.add_1_r in Hq. rewrite (scan_queries_snoc pre m) in Hq by done.
  destruct (scan_queries_spec _ _ _ _ _ _ _ _ (le_n _) Hq) as (_ & Hlqi & _).
  rewrite main_loop_app in Hl. apply bind_Ok in Hl as ([out1 cnt3] & Hl1 & Hl2).
  cbn [main_loop Nat.add] in Hl2. rewrite textual_content in Hl2 by done.
  unfold message_block in Hl2. rewrite Hr in Hl2. cbn [mbind result_bind] in Hl2. injection Hl2 as Hout Hcnt.
  exists out1, lqi. split; [done|]. split; [by rewrite Htx, <- Hout, <- app_assoc|].
  intros m' Hr' Ht'. destruct pre as [|first' pre]; [cbn in Hlqi; lia|].
  injection Hf as <- _. unfold render, with_last. cbn [messages tools opts].
  rewrite Hm, length_app, Nat.add_sub, take_app_length. cbn [app].
  assert (∀ q, opts q = opts req → tools q = tools req → system_block q first' (0, 0) = Ok (sys, cnt1)) as Hsys'.
  { intros q Ho Hto. rewrite <- Hsys. unfold system_block. by rewrite Ho, Hto. }
  rewrite Hsys' by done. cbn [mbind result_bind].
  change (first' :: pre ++ [m']) with ((first' :: pre) ++ [m']). rewrite length_app, Nat.add_1_r.
  rewrite (scan_queries_snoc (first' :: pre) m') by done. rewrite Hq. cbn [mbind result_bind].
  rewrite main_loop_app, (main_loop_roles _ ((first' :: pre) ++ [m])), Hl1
    by (rewrite !fmap_app; cbn; by rewrite Hr, Hr').
  cbn [mbind result_bind main_loop Nat.add]. rewrite textual_content by done.
  unfold message_block. rewrite Hr'. cbn [mbind result_bind]. by rewrite Hcnt, <- app_assoc.
Qed.

(** ** Parsing what was rendered *)

Lemma ASSISTANT_OPEN_cons : ASSISTANT_OPEN = 60 :: lit "|im_start|>assistant" ++ NL.
Proof. reflexivity. Qed.

Lemma last_turn_after out b : contains ASSISTANT_OPEN b = false →
  last_turn (out ++ ASSISTANT_OPEN ++ b) = Some b.
Proof.
  intros Hb. unfold last_turn.
  rewrite (rsplit_once_after ASSISTANT_OPEN 10 (reverse (IM_START ++ lit "assistant"))); [done|reflexivity|not_in|done].
Qed.

Lemma contains_turn body : contains IM_START body = false → contains ASSISTANT_OPEN (body ++ TURN_CLOSE) = false.
Proof.
  intros Hb. apply (contains_prefix IM_START (lit "assistant" ++ NL)) in Hb. fold ASSISTANT_OPEN in Hb.
  rewrite ASSISTANT_OPEN_cons in *. apply contains_app_head; [done|reflexivity|not_in].
Qed.

(** With a generation prompt the last opening is the prompt's, and nothing is
    parsed. *)
Lemma last_turn_prompt out o : add_generation_prompt o = true →
  (tail ← last_turn (out ++ generation_prompt o); strip_suffix TURN_CLOSE tail) = None.
Proof.
  intros Ho. unfold generation_prompt. rewrite Ho. rewrite !(app_assoc IM_START), !(app_assoc _ NL).
  change ((IM_START ++ lit "assistant") ++ NL) with ASSISTANT_OPEN.
  rewrite last_turn_after; by destruct (enable_thinking o).
Qed.

(** The last turn of a text that ends in one. *)
Lemma last_turn_turn out body : contains IM_START body = false →
  last_turn (out ++ turn (lit "assistant", body)) = Some (body ++ TURN_CLOSE).
Proof.
  intros Hb. unfold turn. cbn [fst snd]. rewrite !(app_assoc IM_START), !(app_assoc _ NL).
  by apply last_turn_after, contains_turn.
Qed.

(** C9. The check the program adds to the corpus, decided: for a conversation of
    text messages that ends in an assistant's message and renders, rendering,
    parsing the last turn and rendering the reply in its place is found to
    differ exactly when there is no generation prompt and the content, after
    its reasoning is split off, has space around it.  The delimiters must not
    occur inside what they delimit: no think tag in the reasoning, no tool-call
    tag in the content, [call_ok] calls, and no turn opening in the body. *)
Theorem reparse_exact req pre m r rs c : messages req = pre ++ [m] → role m = Assistant →
  textual m → render req = Ok r → split_reasoning m (jinja_trim (content_text (content m))) = (rs, c) →
  contains THINK_OPEN (jinja_trim rs) = false →
  contains THINK_CLOSE (jinja_trim rs) = false → contains TOOL_OPEN c = false →
  Forall call_ok (tool_calls m) →
  contains IM_START (assistant_body (jinja_trim rs) c (tool_calls m)) = false →
  contains IM_START (assistant_body (jinja_trim rs) (jinja_trim c) (tool_calls m)) = false →
  reparse_off req (render req) =
    Some (negb (add_generation_prompt (opts req)) && negb (bool_decide (jinja_trim c = c))).
Proof.
  intros Hm Hr Ht Hok Hsplit Hopen Hclose Htool Hcalls Hmark Hmark'.
  destruct (render_with_last req pre m r Hm Hr Ht Hok) as (out & lqi & Hlqi & Htx & Hagain).
  destruct (parse_render_both m _ (length pre) lqi rs c Hlqi Hsplit) as (Hb & Hp & Hre); [done..|].
  rewrite Hok. unfold reparse_off. rewrite Hm, last_snoc, decide_True by done.
  destruct (add_generation_prompt (opts req)) eqn:Hg.
  { rewrite Htx, app_assoc. by rewrite last_turn_prompt. }
  assert (generation_prompt (opts req) = []) as Hgp by (unfold generation_prompt; by rewrite Hg).
  rewrite Htx, Hb, Hgp, app_nil_r, last_turn_turn by done.
  cbn [mbind option_bind]. rewrite strip_suffix_app, Hp. cbn [mbind option_bind negb andb].
  unfold round_trips. rewrite Hagain by done.
  cbn [reply_message content content_text reply_content text].
  replace (jinja_trim (jinja_trim c)) with (jinja_trim c)
    by (symmetry; apply (trim_id is_python_space), trim_trimmed).
  change (reply_message ?x) with (as_message x). rewrite Hre, Hgp, app_nil_r, last_turn_turn by done.
  rewrite strip_suffix_app. cbn [default from_option id]. do 2 f_equal.
  apply bool_decide_ext, body_trimmed.
Qed.

(** ** The verdict *)

Definition text_right (case : Value) (got : result rstr Rendered) : Prop :=
  match get_text case "expect_text" with
  | Some want => ∃ r, got = Ok r ∧ text r = want
  | None => got = Err (default [] (get_text case "expect_error"))
  end.

Definition ids_right (tk : Tokenizer) (case : Value) (got : result rstr Rendered) : Prop :=
  ∀ want r, (v ← Value.get case (lit "expect_ids"); Value.as_array v) = Some want → got = Ok r →
    encode tk (text r) = Some (wrap32 <$> omap Value.as_usize want).

(** What a case must satisfy for the program to pass. *)
Definition case_passes (tk : Tokenizer) (case : Value) : Prop :=
  ∃ req, request_from_json case = Ok req ∧ text_right case (render req) ∧
    ids_right tk case (render req) ∧ reparse_off req (render req) = Some false.

Lemma chat_passed_spec t : all_passed t = true ↔
  text_bad t = 0%nat ∧ ids_bad t = 0%nat ∧ err_bad t = 0%nat ∧ parse_bad t = 0%nat.
Proof. unfold all_passed. rewrite !andb_true_iff, !bool_decide_eq_true. tauto. Qed.

Lemma check_text_spec verbose case got : checks all_passed (check_text verbose case got) (text_right case got).
Proof.
  intros [tok tbad iok ibad eok ebad pbad]. unfold check_text, text_right.
  destruct (get_text case "expect_text") as [want|], got as [r|e].
  - case_decide as Hd.
    + apply Some_passes. rewrite !chat_passed_spec. cbn. split; [|tauto]. intros H. split; [done|]. by exists r.
    + split; [|by intros [_ (r' & [= <-] & ?)]]. intros (t' & (u & _ & [= <-])%bind_Some & Ht).
      apply chat_passed_spec in Ht. cbn in Ht. lia.
  - apply Some_passes. rewrite !chat_passed_spec. cbn. split; [lia|]. by intros [_ (r' & [=] & _)].
  - apply Some_passes. rewrite !chat_passed_spec. cbn. split; [lia|]. by intros [_ [=]].
  - case_decide as Hd; apply Some_passes; rewrite !chat_passed_spec; cbn.
    + rewrite Hd. tauto.
    + split; [lia|]. by intros [_ [= ?]].
Qed.

Lemma check_ids_spec tk case got : checks all_passed (check_ids tk case got) (ids_right tk case got).
Proof.
  intros [tok tbad iok ibad eok ebad pbad]. unfold check_ids, ids_right.
  destruct (v ← Value.get case (lit "expect_ids"); Value.as_array v) as [want|].
  2: { apply Some_passes. by split; [intros ?; split|intros [? _]]. }
  destruct got as [r|e].
  2: { apply Some_passes. by split; [intros ?; split|intros [? _]]. }
  destruct (encode tk (text r)) as [mine|] eqn:He; cbn [mbind option_bind].
  2: { split; [by intros (? & ? & _)|]. intros [_ H]. specialize (H _ _ eq_refl eq_refl). congruence. }
  case_decide as Hd; apply Some_passes; rewrite !chat_passed_spec; cbn.
  - split; [|tauto]. intros ?. split; [done|]. intros want' r' [= <-] [= <-]. by rewrite He, Hd.
  - split; [lia|]. intros [_ H]. specialize (H _ _ eq_refl eq_refl). congruence.
Qed.

Lemma chat_case_spec tk verbose case : checks all_passed (check_case tk verbose case) (case_passes tk case).
Proof.
  intros t. unfold check_case, case_passes. destruct (request_from_json case) as [req|e].
  2: { destruct t. apply Some_passes. rewrite !chat_passed_spec. cbn. split; [lia|]. by intros [_ (? & ? & _)]. }
  set (got := render req).
  assert (checks all_passed
    (λ t, off ← reparse_off req got;
          let '(mkTotals tok tbad iok ibad eok ebad pbad) := t in
          Some (mkTotals tok tbad iok ibad eok ebad (if off : bool then S pbad else pbad)))
    (reparse_off req got = Some false)) as Hr.
  { intros [tok tbad iok ibad eok ebad pbad]. destruct (reparse_off req got) as [[]|]; cbn [mbind option_bind].
    - apply Some_passes. rewrite !chat_passed_spec. cbn. split; [lia|]. by intros [_ ?].
    - apply Some_passes. rewrite !chat_passed_spec. cbn. tauto.
    - split; [by intros (? & ? & _)|by intros [_ ?]]. }
  destruct t as [tok tbad iok ibad eok ebad pbad].
  etrans; [apply (checks_bind _ _ _ _ _ (check_text_spec verbose case got)
    (checks_bind _ _ _ _ _ (check_ids_spec tk case got) Hr))|].
  split; [intros (? & ? & ? & ?)|intros (? & req' & [= <-] & ? & ? & ?)]; (split; [done|]); [|done].
  by exists req.
Qed.

Lemma chat_cases_spec tk verbose cases :
  checks all_passed (check_cases tk verbose cases) (Forall (case_passes tk) cases).
Proof.
  induction cases as [|case cases IH]; [by eapply checks_iff, checks_id; rewrite Forall_nil|].
  eapply checks_iff; [symmetry; apply Forall_cons|].
  exact (checks_bind _ _ _ _ _ (chat_case_spec tk verbose case) IH).
Qed.

Lemma marker_failures_zero tk ms : marker_failures tk ms = Some 0%nat ↔
  Forall (λ m, encode tk m.1 = Some [m.2]) ms.
Proof.
  induction ms as [|[m want] ms IH]; cbn [marker_failures]; [by split|].
  rewrite Forall_cons, <- IH. cbn [fst snd].
  destruct (encode tk m) as [got|]; cbn [mbind option_bind]; [|by split; [|intros [? _]]].
  destruct (marker_failures tk ms) as [n|]; cbn [mbind option_bind]; [|by split; [|intros [_ ?]]].
  case_decide as Hd; [subst got; naive_solver|]. split; [by intros [=]|]. intros [[= ?] _]. done.
Qed.

Lemma or_load_Ok {A} (r : result LoadError A) a : or_load r = Ok a → r = Ok a.
Proof. destruct r as [|[]]; cbn; congruence. Qed.

Section program.
Context {J : Type} `{SerdeJson J}.
Context (to_string : J → rstr) (iter : gmap rstr Z → list (rstr * Z)) (file : rstr → File).

(** The program reports a pass exactly when the tokenizer and the corpus load,
    every marker is the single token the checkpoint ships, and every case up to
    [--max] has the reference's text or error, its ids, and survives parsing
    and rendering again. *)
Theorem chatcheck_pass args :
  chatcheck to_string iter file args = Success ↔
  ∃ dir corpus rest tk info cases, non_flags args = dir :: corpus :: rest ∧
    load_dir to_string iter file dir = Ok (tk, info) ∧
    Chatcheck.load_cases file corpus = Ok cases ∧
    Forall (λ m, encode tk m.1 = Some [m.2]) markers ∧
    Forall (case_passes tk) (up_to (val args (lit "--max") ≫= parse_usize) cases).
Proof.
  unfold chatcheck. set (max := val _ _ ≫= _). split.
  - destruct (non_flags args) as [|dir [|corpus rest]]; [done..|].
    intros H0. apply run_main_Success in H0.
    2: { apply loud_bind; [by destruct (load_dir _ _ _ _) as [|[]]|]. intros [tk info] _.
         apply loud_bind.
         { unfold load_cases. repeat (apply loud_bind; [by eauto with loud|intros ? _]). by apply loud_ok_or. }
         intros cases _. apply loud_bind; [apply loud_or_panic|]. intros bad _. case_decide; [done|].
         apply loud_bind; [apply loud_or_panic|done]. }
    apply bind_Ok in H0 as ([tk info] & Ht & H0). apply bind_Ok in H0 as (cases & Hc & H0).
    apply bind_Ok in H0 as (bad & Hb & H0). apply ok_or_Ok in Hb.
    destruct (decide (0 < bad)%nat) as [|Hz]; [done|]. assert (bad = 0%nat) as -> by lia.
    apply bind_Ok in H0 as (t & Hp & H0). apply Ok_inj in H0. apply ok_or_Ok in Hp.
    exists dir, corpus, rest, tk, info, cases. split; [done|].
    split; [by apply or_load_Ok|]. split; [done|].
    split; [by apply marker_failures_zero|]. eapply chat_cases_spec. exists t. split; [exact Hp|].
    by destruct (all_passed t).
  - intros (dir & corpus & rest & tk & info & cases & -> & -> & Hc & Hm & Hp).
    cbn [or_load mbind result_bind]. rewrite Hc. cbn [mbind result_bind].
    apply marker_failures_zero in Hm. rewrite Hm. cbn [or_panic ok_or mbind result_bind].
    destruct (proj2 (chat_cases_spec tk (has args (lit "--verbose")) (up_to max cases)
                       (mkTotals 0 0 0 0 0 0 0)) (conj eq_refl Hp)) as (t & Ht & Ha).
    rewrite Ht. cbn [or_panic ok_or mbind result_bind run_main]. by rewrite Ha.
Qed.
End program.
