(* ===== verification/CorpusWitness.v ===== *)
(** * The corpus checkers: small corpora

    Runs of samplecheck and tokcheck on corpora of a case or two, a
    conversation for chatcheck, the witnesses of their theorems, and what the
    checkers let through. *)

From S2P Require Import Prelude Serde Rstr Utf8 Float PyJson JsonInstance Fuzz UnicodeGc Tokenizer TokenizerProps.
From S2P Require Import Chat ChatProps ChatParse ChatParseProps Sample Args Exit Loader.
From S2P Require Import TokenizerWitness ChatWitness SampleWitness.
From S2P Require Samplecheck Samplecheck Tokcheck Tokcheck Chatcheck Chatcheck.

(** ** samplecheck *)

Module SampleCorpus.
Import Samplecheck.

Definition order_text : rstr :=
  jlit "['repetition_penalty','presence_penalty','frequency_penalty','no_repeat_ngram','temperature','top_k','top_p','min_p','typical_p']".

Definition corpus (cases : string) : rstr :=
  jlit "{'stage_order':" ++ order_text ++ jlit ",'cases':[" ++ jlit cases ++ lit "]}".

Definition run_on (cases : string) : exit :=
  samplecheck demo_exp (λ x, x) (λ _, Some (utf8 (corpus cases))) (lit <$> ["samplecheck"; "corpus.json"]%string).

(** A right case, a wrong one, and one that lost its expected values: it is
    counted as bad, and the run passes. *)
Example runs :
  run_on "{'settings':{'top_k':2},'logits':[1,3,2.5,0],'expect':[null,3,2.5,null]}" = Success ∧
  run_on "{'settings':{'top_k':2},'logits':[1,3,2.5,0],'expect':[1,3,2.5,null]}" = Failure ∧
  run_on "{'settings':{'top_k':2},'logits':[1,3,2.5,0]}" = Success.
Proof. vm_compute. repeat split. Qed.

Definition logits : list f32 := [F32.of_Z 1; F32.of_Z 3; F32.of_Z 2; F32.of_Z 0].
Definition filtered : list f32 := [FILTERED; F32.of_Z 3; F32.of_Z 2; FILTERED].

Lemma compare_exact_witness :
  compare filtered [Null; Int 3; Int 2; Null] logits false = Exact ↔
  ∃ want, Forall2 (λ v f, decode_lit v = Some f) [Null; Int 3; Int 2; Null] want ∧ Forall2 same filtered want.
Proof. apply (compare_exact filtered [Null; Int 3; Int 2; Null] logits false). vm_compute. reflexivity. Defined.

(** The filter kept the NaN the corpus expects, and the case fails. *)
Lemma compare_nan_witness :
  accepted (compare [S754_nan] [Str (lit "nan")] [S754_nan] false) = false.
Proof. apply (compare_nan [S754_nan] [Str (lit "nan")] [S754_nan] false). left. Defined.

Definition drawer : Sampler := mkSampler default_config 7.
Definition drawn : result NextError (list nat * nat) :=
  draw_loop demo_exp (λ x, x) 5 drawer filtered (softmax demo_exp filtered) (replicate 4 0%nat) 0.

Lemma draw_loop_sound_witness : match drawn with
  | Ok (counts, impossible) => impossible = 0%nat ∧ sum_list counts = 5%nat
      ∧ ∀ i, counts !! i = replicate 4 0%nat !! i ∨ is_positive (at_ (softmax demo_exp filtered) i) = true
  | Err _ => False
  end.
Proof.
  assert (match drawn with Ok _ => true | Err _ => false end = true) as H by (vm_compute; reflexivity).
  destruct drawn as [[counts impossible]|] eqn:E; [|discriminate H].
  apply (draw_loop_sound demo_exp (λ x, x) filtered (softmax demo_exp filtered) 5 drawer
           (replicate 4 0%nat) 0%nat counts impossible); [cbn; lia|reflexivity|vm_compute; reflexivity|exact E].
Defined.
End SampleCorpus.

(** ** tokcheck *)

Module TokCorpus.
Import Tokcheck.

Definition hello : Case := mkCase (lit "hello<|x|> hello") [256; 257; 111; 258; 32; 256; 257; 111]
  (lit "hello<|x|> hello").

Lemma case_passes_stable_witness : case_passes (demo_tk special) hello ↔
  encode (demo_tk special) (case_text hello) = Some (case_ids hello) ∧
  nfc (case_text hello) = Some (case_decoded hello).
Proof.
  apply (case_passes_stable (demo_tk special) hello); [exact demo_tk_wf|exact demo_literal|].
  apply (bool_decide_unpack _). vm_compute. exact I.
Defined.

(** A run on a tokenizer file and a corpus of one case. *)
Definition file (path : rstr) : File :=
  Contents (utf8 (if decide (path = lit "tok") then dumps (demo_doc special)
    else jlit "{'mode':'marks','cases':[{'text':'hello<|x|> hello','decoded':'hello<|x|> hello','ids':[256,257,111,258,32,256,257,111]}]}")).

Example tokcheck_runs :
  tokcheck (λ _, []) map_to_list (λ _, false) file (lit <$> ["tokcheck"; "tok"; "corpus"]%string) = Success ∧
  tokcheck (λ _, []) map_to_list (λ _, false) file (lit <$> ["tokcheck"; "tok"]%string) = Usage.
Proof. vm_compute. split; reflexivity. Qed.

(** The labels of two texts. *)
Example labels : describe (lit "it's  7") = lit "doubled space, digits, apostrophe"
  ∧ describe (lit "plain") = lit "plain ascii words".
Proof. vm_compute. split; reflexivity. Qed.
End TokCorpus.

(** ** chatcheck *)

Module ChatCorpus.
Import Chatcheck.

Definition question : Message := new_message User (lit "2+2?").
Definition answer : Message := mkMessage Assistant (CText (lit "four")) (Some (lit "easy")) [demo_call].
Definition talk : Request := mkRequest [question; answer] [] (mkOptions false false false).

Lemma reparse_exact_witness : ∃ r, render talk = Ok r ∧
  reparse_off talk (render talk) =
    Some (negb (add_generation_prompt (opts talk)) && negb (bool_decide (jinja_trim (lit "four") = lit "four"))).
Proof.
  destruct (render talk) as [r|e] eqn:E; [|vm_compute in E; discriminate E].
  exists r. split; [reflexivity|]. rewrite <- E.
  apply (reparse_exact talk [question] answer r (lit "easy") (lit "four"));
    [reflexivity|reflexivity|exact I|exact E|vm_compute; reflexivity
    |vm_compute; reflexivity..| |vm_compute; reflexivity|vm_compute; reflexivity].
  repeat constructor; try discriminate; vm_compute; reflexivity.
Defined.

(** It passes on that conversation, and fires on content written after a think
    tag with a space before it. *)
Example reparse_fires : reparse_off talk (render talk) = Some false ∧
  let spaced := mkRequest [question; new_message Assistant (lit "r</think> four")] [] (mkOptions false false false) in
  reparse_off spaced (render spaced) = Some true.
Proof. vm_compute. split; reflexivity. Qed.

(** The panic of printing a long text that differs. *)
Example truncate_panics : truncate (lit "x" ++ replicate 100 0xE9) = None
  ∧ truncate (replicate 101 0xE9) = Some (replicate 100 0xE9 ++ lit "...").
Proof. vm_compute. split; reflexivity. Qed.
End ChatCorpus.
