(* ===== verification/TextTests.v ===== *)
(** * The unit tests of the text side

    The tests of chat.rs, chatparse.rs, pyjson.rs, unicode_gc.rs and
    tokenizer.rs, each definition the test of the same name. *)

From S2P Require Import Prelude Float Rstr Utf8 PyJson UnicodeTables UnicodeGc UnicodeGcProps Pretokenize PretokenizeProps Tokenizer Chat ChatParse TestKit.
#[local] Open Scope Z_scope.

(** ** chat.rs *)

Module ChatTests.

Definition user (t : string) : Message := new_message User (rust t).
Definition system (t : string) : Message := new_message System (rust t).
Definition assistant (t : string) : Message := new_message Assistant (rust t).
Definition tool (t : string) : Message := new_message Tool (rust t).

Definition opts (gen : bool) : Options := mkOptions gen false false.
Definition ask (gen : bool) (msgs : list Message) : Request := mkRequest msgs [] (opts gen).

(** [assert_eq!(text(&req), want)] *)
Definition text_is (req : Request) (want : list string) : bool :=
  ok_is (λ r, eq (text r) (concat (rust <$> want))) (render req).
Definition fails_with (req : Request) (e : rstr) : bool := err_is (eq e) (render req).

Definition single_turn : bool :=
  text_is (ask true [user "Hi"])
    ["<|im_start|>user\nHi<|im_end|>\n<|im_start|>assistant\n<think>\n\n</think>\n\n"]%string.

Definition system_message_comes_first_and_in_its_own_block : bool :=
  text_is (ask true [system "You are terse."; user "Hi"])
    ["<|im_start|>system\nYou are terse.<|im_end|>\n<|im_start|>user\nHi<|im_end|>\n";
     "<|im_start|>assistant\n<think>\n\n</think>\n\n"]%string.

Definition think_block_is_position_dependent : bool :=
  text_is (ask false [user "a"; assistant "b"; user "c"; assistant "d"])
    ["<|im_start|>user\na<|im_end|>\n"; "<|im_start|>assistant\nb<|im_end|>\n";
     "<|im_start|>user\nc<|im_end|>\n";
     "<|im_start|>assistant\n<think>\n\n</think>\n\nd<|im_end|>\n"]%string.

Definition multi_step_tool_query_is_skipped : bool :=
  all [text_is (ask false [user "q"; assistant "a"; user "<tool_response>\nR\n</tool_response>"])
         ["<|im_start|>user\nq<|im_end|>\n";
          "<|im_start|>assistant\n<think>\n\n</think>\n\na<|im_end|>\n";
          "<|im_start|>user\n<tool_response>\nR\n</tool_response><|im_end|>\n"]%string;
       fails_with (ask true [user "<tool_response>\nR\n</tool_response>"]) ERR_NO_USER_QUERY].

Definition consecutive_tool_results_share_one_user_block : bool :=
  text_is (ask true [user "q"; tool "R1"; tool "R2"])
    ["<|im_start|>user\nq<|im_end|>\n";
     "<|im_start|>user\n<tool_response>\nR1\n</tool_response>\n";
     "<tool_response>\nR2\n</tool_response><|im_end|>\n";
     "<|im_start|>assistant\n<think>\n\n</think>\n\n"]%string.

Definition tool_calls_render_as_xml_and_keep_argument_types : bool :=
  let call := mkCall (rust "f")
    [(rust "s", Str (rust "str")); (rust "i", Int 42); (rust "f", Float (f64l "1.5"));
     (rust "b", Bool true); (rust "n", Null); (rust "lst", Array [Int 1; Int 2]);
     (rust "d", Object [(rust "x", Int 1)])] in
  text_is (ask false [user "q"; mkMessage Assistant (CText []) None [call]])
    ["<|im_start|>user\nq<|im_end|>\n<|im_start|>assistant\n<think>\n\n</think>\n\n";
     "<tool_call>\n<function=f>\n"; "<parameter=s>\nstr\n</parameter>\n";
     "<parameter=i>\n42\n</parameter>\n"; "<parameter=f>\n1.5\n</parameter>\n";
     "<parameter=b>\nTrue\n</parameter>\n"; "<parameter=n>\nNone\n</parameter>\n";
     "<parameter=lst>\n[1, 2]\n</parameter>\n"; "<parameter=d>\n{\qx\q: 1}\n</parameter>\n";
     "</function>\n</tool_call><|im_end|>\n"]%string.

Definition tool_call_separation_depends_on_content : bool :=
  let call (n : string) := mkCall (rust n) [] in
  let m := mkMessage Assistant (CText (rust "thinking about it")) None [call "a"%string; call "b"%string] in
  text_is (ask false [user "q"; m])
    ["<|im_start|>user\nq<|im_end|>\n<|im_start|>assistant\n<think>\n\n</think>\n\n";
     "thinking about it\n\n<tool_call>\n<function=a>\n</function>\n</tool_call>";
     "\n<tool_call>\n<function=b>\n</function>\n</tool_call><|im_end|>\n"]%string.

Definition reasoning_content_wins_over_inline_think : bool :=
  let m := mkMessage Assistant (CText (rust "inline\n</think>\n\ntail")) (Some (rust "explicit")) [] in
  text_is (ask false [user "q"; m])
    ["<|im_start|>user\nq<|im_end|>\n";
     "<|im_start|>assistant\n<think>\nexplicit\n</think>\n\ninline\n</think>\n\ntail<|im_end|>\n"]%string.

Definition inline_think_is_split_out : bool :=
  text_is (ask false [user "q"; assistant "<think>\nrz\n</think>\n\nans"])
    ["<|im_start|>user\nq<|im_end|>\n";
     "<|im_start|>assistant\n<think>\nrz\n</think>\n\nans<|im_end|>\n"]%string.

Definition thinking_toggle_changes_the_generation_prompt : bool :=
  let base := ask true [user "Hi"] in
  let on := mkRequest [user "Hi"] [] (mkOptions true true false) in
  all [ok_is (λ r, ends_with (rust "<|im_start|>assistant\n<think>\n") (text r)) (render on);
       ok_is (λ r, negb (contains (rust "</think>") (text r))) (render on);
       ok_is (λ r, ends_with (rust "<think>\n\n</think>\n\n") (text r)) (render base)].

Definition trim_is_pythons_strip_not_rusts : bool :=
  let hi := rust "Hi" in
  all [eq (jinja_trim (rust "  Hi  \n")) hi; eq (jinja_trim (rust "\u{1c}Hi\u{1c}")) hi;
       eq (jinja_trim (rust "\u{1f}Hi")) hi; eq (jinja_trim (rust "\u{85}Hi\u{a0}")) hi;
       eq (jinja_trim (rust "\u{3000}Hi\u{3000}")) hi;
       negb (eq (trim is_whitespace (rust "\u{1c}Hi\u{1c}")) hi);
       eq (jinja_trim (rust "\u{200b}Hi")) (rust "\u{200b}Hi")].

Definition vision_parts_render_and_count : bool :=
  let mk (parts : list Part) (avi : bool) :=
    mkRequest [mkMessage User (Parts parts) None []] [] (mkOptions true false avi) in
  let two := [Image; Image; PText (rust "t")] in
  all [ok_is (λ got, eq (images got) 2 && starts_with (concat (rust <$>
             ["<|im_start|>user\n<|vision_start|><|image_pad|><|vision_end|>";
              "<|vision_start|><|image_pad|><|vision_end|>t<|im_end|>\n"]%string)) (text got))
         (render (mk two false));
       ok_is (λ got, contains
             (rust "Picture 1: <|vision_start|><|image_pad|><|vision_end|>Picture 2: ") (text got))
         (render (mk two true));
       ok_is (λ got, eq (videos got) 1) (render (mk [Video] false))].

Definition content_shapes_that_fail : bool :=
  let with_ (role : Role) (c : Content) :=
    let bad := mkMessage role c None [] in
    ask true (if bool_decide (role = System) then [bad; user "q"] else [system "s"; bad; user "q"]) in
  all [fails_with (with_ User Unsupported) ERR_CONTENT_TYPE;
       fails_with (with_ System Unsupported) ERR_CONTENT_TYPE;
       fails_with (with_ System (Parts [Image])) ERR_SYSTEM_IMAGE;
       fails_with (with_ System (Parts [Video])) ERR_SYSTEM_VIDEO;
       fails_with (with_ User (Parts [OtherPart])) ERR_ITEM_TYPE;
       is_ok (render (with_ User (Parts [Image])))].

Definition position_and_role_errors : bool :=
  let wizard := new_message (OtherRole (rust "wizard")) (rust "x") in
  all [fails_with (ask true [user "q"; system "s"]) ERR_SYSTEM_NOT_FIRST;
       fails_with (ask true [user "q"; wizard]) ERR_UNEXPECTED_ROLE;
       fails_with (ask true [wizard]) ERR_NO_USER_QUERY;
       fails_with (ask false []) ERR_NO_MESSAGES].

Definition a_tool_block_still_needs_a_user_query : bool :=
  fails_with (mkRequest [system "s"] [Object []] (opts true)) ERR_NO_USER_QUERY.

Definition tools_block_shapes : bool :=
  let tool := Object [(rust "function", Object [(rust "name", Str (rust "f"))])] in
  let shown (p : rstr → bool) (msgs : list Message) (tools : list Value) : bool :=
    ok_is (λ r, p (text r)) (render (mkRequest msgs tools (opts true))) in
  let f := "{\qfunction\q: {\qname\q: \qf\q}}\n"%string in
  all [shown (λ a, all
           [starts_with (rust "<|im_start|>system\n# Tools\n\nYou have access") a;
            contains (rust "\n" ++ rust f ++ rust "</tools>") a;
            contains (rust "</IMPORTANT><|im_end|>\n<|im_start|>user\nq") a;
            negb (contains (rust "</IMPORTANT>\n\n") a)]) [user "q"] [tool];
       shown (contains (rust "</IMPORTANT>\n\nYou are helpful.<|im_end|>\n"))
         [system "You are helpful."; user "q"] [tool];
       shown (contains (rust "</IMPORTANT><|im_end|>\n")) [system "   "; user "q"] [tool];
       shown (contains (rust "\n" ++ rust f ++ rust f ++ rust "</tools>")) [user "q"] [tool; tool]].

Definition tests : list bool :=
  [single_turn; system_message_comes_first_and_in_its_own_block; think_block_is_position_dependent;
   multi_step_tool_query_is_skipped; consecutive_tool_results_share_one_user_block;
   tool_calls_render_as_xml_and_keep_argument_types; tool_call_separation_depends_on_content;
   reasoning_content_wins_over_inline_think; inline_think_is_split_out;
   thinking_toggle_changes_the_generation_prompt; trim_is_pythons_strip_not_rusts;
   vision_parts_render_and_count; content_shapes_that_fail; position_and_role_errors;
   a_tool_block_still_needs_a_user_query; tools_block_shapes].
End ChatTests.

(** ** chatparse.rs *)

Module ChatparseTests.
Import ChatTests.

(** The continuation of a rendering: the last assistant block's inside. *)
Definition continuation (msgs : list Message) : option rstr :=
  match render (mkRequest msgs [] (mkOptions false false false)) with
  | Ok r =>
      '(_, tail) ← split_once (rust "<|im_start|>assistant\n") (text r);
      strip_suffix (rust "<|im_end|>\n") tail
  | Err _ => None
  end.

(** The reply, when rendering it again reproduces the bytes. *)
Definition round_trip (m : Message) : option Reply :=
  c ← continuation [user "q"; m];
  reply ← parse_assistant c;
  let back := mkMessage Assistant (CText (reply_content reply)) (reply_reasoning reply)
    (as_chat_calls reply) in
  again ← continuation [user "q"; back];
  if decide (c = again) then Some reply else None.

Definition plain_text_with_an_empty_think_block : bool :=
  some_is (λ r, all [eq (reply_reasoning r) (Some []);
                     eq (reply_content r) (rust "The capital is Paris.");
                     bool_decide (length (reply_calls r) = 0%nat)])
    (round_trip (assistant "The capital is Paris.")).

Definition reasoning_is_recovered : bool :=
  some_is (λ r, all [eq (reply_reasoning r) (Some (rust "the user asks arithmetic"));
                     eq (reply_content r) (rust "two plus two is four")])
    (round_trip (mkMessage Assistant (CText (rust "two plus two is four"))
       (Some (rust "the user asks arithmetic")) [])).

(** The name and the arguments of a parsed call. *)
Definition call_of (c : Parsed.FunctionCall) : rstr * list (rstr * rstr) :=
  (Parsed.name c, Parsed.arguments c).

Definition a_tool_call_round_trips : bool :=
  let m := mkMessage Assistant (CText []) None
    [mkCall (rust "get_weather") [(rust "city", Str (rust "Paris")); (rust "units", Str (rust "metric"))]] in
  some_is (λ r, all [eq (reply_content r) [];
                     eq (call_of <$> reply_calls r)
                       [(rust "get_weather", [(rust "city", rust "Paris"); (rust "units", rust "metric")])]])
    (round_trip m).

Definition text_and_a_call_together_round_trip : bool :=
  let m := mkMessage Assistant (CText (rust "Let me check.")) (Some (rust "needs a lookup"))
    [mkCall (rust "f") [(rust "a", Int 1)]] in
  some_is (λ r, all [eq (reply_content r) (rust "Let me check.");
                     eq (reply_reasoning r) (Some (rust "needs a lookup"));
                     eq (Parsed.arguments <$> reply_calls r !! 0%nat) (Some [(rust "a", rust "1")])])
    (round_trip m).

Definition two_calls_round_trip : bool :=
  let m := mkMessage Assistant (CText []) None
    [mkCall (rust "a") [(rust "x", Str (rust "1"))]; mkCall (rust "b") []] in
  some_is (λ r, eq (Parsed.name <$> reply_calls r) [rust "a"; rust "b"]) (round_trip m).

(** The text of the [n]-th argument of the first call. *)
Definition argument (n : nat) (calls : list Parsed.FunctionCall) : option rstr :=
  c ← calls !! 0%nat; snd <$> Parsed.arguments c !! n.

Definition multi_line_values_survive : bool :=
  ok_is (λ calls, eq (argument 0 calls) (Some (rust "line one\nline two")))
    (parse_tool_calls (rust
       "<tool_call>\n<function=f>\n<parameter=a>\nline one\nline two\n</parameter>\n</function>\n</tool_call>")).

Definition values_are_not_reinterpreted : bool :=
  let three := concat (rust <$>
    ["<tool_call>\n<function=f>\n"; "<parameter=b>\nTrue\n</parameter>\n";
     "<parameter=n>\nNone\n</parameter>\n"; "<parameter=d>\n{\qx\q: 1}\n</parameter>\n"]%string) in
  all [is_err (parse_tool_calls (three ++ rust "<parameter>bad</tool_call>"));
       ok_is (λ calls, all [eq (argument 0 calls) (Some (rust "True"));
                            eq (argument 1 calls) (Some (rust "None"));
                            eq (argument 2 calls) (Some (rust "{\qx\q: 1}"))])
         (parse_tool_calls (three ++ rust "</function>\n</tool_call>"))].

Definition malformed_blocks_are_reported_not_dropped : bool :=
  all [is_err (parse_tool_calls (rust "<tool_call>\n<function=f>\n"));
       is_err (parse_tool_calls (rust "<tool_call>\nnot a function\n</tool_call>"));
       is_err (parse_tool_calls (rust "<tool_call>\n<function=>\n</function>\n</tool_call>"));
       is_err (parse_tool_calls (rust "<tool_call>\n<function=f>\n</functionx>\n</tool_call>"));
       ok_is (λ calls, bool_decide (length calls = 0%nat)) (parse_tool_calls (rust "just prose"))].

Definition an_angle_bracket_in_prose_is_not_a_call : bool :=
  some_is (λ r, all [eq (reply_content r) (rust "2 < 3 and 5 > 4");
                     bool_decide (length (reply_calls r) = 0%nat)])
    (parse_assistant (rust "<think>\n\n</think>\n\n2 < 3 and 5 > 4")).

Definition tests : list bool :=
  [plain_text_with_an_empty_think_block; reasoning_is_recovered; a_tool_call_round_trips;
   text_and_a_call_together_round_trip; two_calls_round_trip; multi_line_values_survive;
   values_are_not_reinterpreted; malformed_blocks_are_reported_not_dropped;
   an_angle_bracket_in_prose_is_not_a_call].
End ChatparseTests.

(** ** pyjson.rs *)

Module PyjsonTests.

Definition s (v : string) : Value := Str (rust v).
Definition obj (kv : list (string * Value)) : Value := Object ((λ p, (rust p.1, p.2)) <$> kv).

Definition dumps_is (v : Value) (want : string) : bool := eq (dumps v) (rust want).
Definition parses_to (src : string) (v : Value) : bool := ok_is (Value_eqb v) (parse (rust src)).

Definition dumps_matches_python : bool :=
  all [dumps_is (obj [("a", Int 1); ("b", Int 2)]) "{\qa\q: 1, \qb\q: 2}";
       dumps_is (obj [("a", obj [("b", Array [Int 1; Int 2; obj [("c", Null)]])]);
                      ("d", Bool true); ("e", Array [])])
         "{\qa\q: {\qb\q: [1, 2, {\qc\q: null}]}, \qd\q: true, \qe\q: []}";
       dumps_is (Object []) "{}"; dumps_is (Array []) "[]";
       dumps_is (obj [("k", s "中文 é")]) "{\qk\q: \q中文 é\q}";
       dumps_is (obj [("k", s "<a>&'</a>")]) "{\qk\q: \q<a>&'</a>\q}";
       dumps_is (s "a\qb") "\qa\\\qb\q"; dumps_is (s "a\\b") "\qa\\\\b\q";
       dumps_is (s "a\nb") "\qa\\nb\q"; dumps_is (s "a\tb") "\qa\\tb\q";
       dumps_is (s "\u{0}\u{1}\u{1f}") "\q\\u0000\\u0001\\u001f\q";
       dumps_is (s "\u{7f}") "\q\u{7f}\q";
       dumps_is (s "\u{2028}\u{2029}") "\q\u{2028}\u{2029}\q";
       dumps_is (s "\u{1F600}") "\q\u{1F600}\q"; dumps_is (s "a/b") "\qa/b\q"]%string.

Definition object_key_order_is_preserved : bool :=
  let v := obj [("name", s "f"); ("description", s "d"); ("parameters", obj [])]%string in
  all [dumps_is v "{\qname\q: \qf\q, \qdescription\q: \qd\q, \qparameters\q: {}}";
       ok_is (Value_eqb v) (parse (dumps v))].

Definition float_repr_matches_python : bool :=
  all ((λ c, eq (py_repr_f64 c.1) (lit c.2)) <$>
    [(f64l "1.5", "1.5"); (f64l "0.1", "0.1"); (f64l "1e-5", "1e-05"); (f64l "1e-4", "0.0001");
     (f64l "1e15", "1000000000000000.0"); (f64l "1e16", "1e+16"); (f64l "1e17", "1e+17");
     (f64l "-0.0", "-0.0"); (f64l "0.0", "0.0");
     (F64.div (f64l "1.0") (f64l "3.0"), "0.3333333333333333");
     (f64l "1e300", "1e+300"); (f64l "3.0", "3.0"); (f64l "100.0", "100.0");
     (f64l "123456789.12345679", "123456789.12345679"); (f64l "2.5e-323", "2.5e-323");
     (S754_finite false (2 ^ 53 - 1) 971, "1.7976931348623157e+308");
     (f64l "5e-324", "5e-324")]%string).

Definition py_str_is_pythons_str : bool :=
  all [eq (py_str (Int 42)) (rust "42"); eq (py_str (Float (f64l "1.5"))) (rust "1.5");
       eq (py_str (Bool true)) (rust "True"); eq (py_str (Bool false)) (rust "False");
       eq (py_str Null) (rust "None"); eq (py_str (s "s")) (rust "s");
       eq (py_str (Array [Int 1; Int 2])) (rust "[1, 2]");
       eq (py_str (obj [("x"%string, Int 1)])) (rust "{'x': 1}");
       eq (py_str (Array [])) (rust "[]");
       eq (py_str (Array [s "it's"])) (rust "[\qit's\q]");
       eq (py_str (Array [s "a\nb"])) (rust "['a\\nb']")].

Definition parses_every_shape : bool :=
  all [parses_to "null" Null; parses_to " true " (Bool true); parses_to "-17" (Int (-17));
       parses_to "1.5e3" (Float (f64l "1500.0"));
       parses_to "\qa\\u0041\\u4e2d\q" (s "aA中");
       parses_to "\q\\ud83d\\ude00\q" (s "\u{1F600}");
       parses_to "[]" (Array []); parses_to "{}" (Object []);
       parses_to "{\qa\q: [1, {\qb\q: null}]}" (obj [("a", Array [Int 1; obj [("b", Null)]])]%string);
       parses_to "17800000000000000000" (Int 17800000000000000000)].

Definition rejects_malformed_input : bool :=
  all (((λ bad, is_err (parse (rust bad))) <$>
         [""; "{"; "[1,"; "{\qa\q}"; "tru"; "01"; "-01"; "1."; "1e"; "\qunterminated"; "1 2";
          "[1]]"; "\q\\ud83d\q"]%string)
       ++ [parses_to "\q01\q" (s "01")]).

Definition dumps_parse_round_trip : bool :=
  let v := obj [("s", s "a\qb\\c\nd"); ("i", Int (-3)); ("f", Float (f64l "1e-5"));
                ("b", Bool false); ("n", Null); ("a", Array [Float (f64l "0.0"); s ""]);
                ("o", obj [("z", Int 1); ("a", Int 2)])]%string in
  ok_is (Value_eqb v) (parse (dumps v)).

Definition tests : list bool :=
  [dumps_matches_python; object_key_order_is_preserved; float_repr_matches_python;
   py_str_is_pythons_str; parses_every_shape; rejects_malformed_input; dumps_parse_round_trip].
End PyjsonTests.

(** ** unicode_gc.rs

    The assertion about [char::is_alphabetic] is about Rust's library and is
    left out. *)

Module UnicodeGcTests.

Definition nfc_is (src want : string) : bool := eq (nfc (rust src)) (Some (rust want)).
(** [assert_eq!(nfc(&nfc(s)), nfc(s))] *)
Definition idempotent (src : rstr) : bool := some_is (λ once, eq (nfc once) (Some once)) (nfc src).

Definition categories_are_not_the_alphabetic_property : bool :=
  all [is_letter 97; is_letter 0x4E2D; is_letter 0x3A9; negb (is_letter 0x216B); is_number 0x216B;
       is_mark 0x301; negb (is_letter 0x301); is_number 0xBD; negb (is_letter 0xBD);
       negb (is_letter 32) && negb (is_mark 32) && negb (is_number 32)].

Definition nfc_composes_simple_pairs : bool :=
  all [nfc_is "e\u{301}" "é"; nfc_is "a\u{300}" "à"; nfc_is "cafe\u{301}" "café"; nfc_is "é" "é";
       nfc_is "hello" "hello"; nfc_is "你好" "你好"].

Definition nfc_orders_combining_marks_by_class : bool :=
  all [nfc_is "a\u{323}\u{301}" "ạ\u{301}";
       eq (nfc (rust "a\u{301}\u{323}")) (nfc (rust "a\u{323}\u{301}"))].

Definition hangul_decomposes_and_recomposes : bool :=
  all [nfc_is "\u{1112}\u{1161}\u{11AB}" "한"; nfc_is "한" "한"; nfc_is "\u{1100}\u{1161}" "가"].

Definition every_decomposable_codepoint_is_idempotent_and_hangul_round_trips : bool :=
  let cps := DECOMPOSE_1.*1 ++ DECOMPOSE_2.*1 in
  all [forallb (λ cp, idempotent [cp]) cps;
       forallb (λ cp, eq (nfc [cp]) (Some [cp])) (seqZ S_BASE S_COUNT);
       13000 <? len cps + S_COUNT].

Definition composition_exclusions_stay_decomposed : bool :=
  forallb (λ cp, some_is (λ got, all [negb (eq got [cp]); 1 <? len got; eq (nfc got) (Some got)])
                   (nfc [cp])) [0x0958; 0x09DC; 0x2ADC; 0x0344].

Definition hangul_jamo_composes_algorithmically : bool :=
  all [nfc_is "\u{1112}\u{1161}\u{11AB}" "한"; nfc_is "\u{1100}\u{1161}" "가"; nfc_is "\u{B098}" "나";
       nfc_is "\u{11AB}" "\u{11AB}"].

Definition nfc_is_idempotent : bool :=
  all ((λ s, idempotent (rust s)) <$>
    ["e\u{301}"; "a\u{301}\u{323}"; "\u{1112}\u{1161}\u{11AB}"; "café"; "x"]%string).

Definition nfc_handles_a_leading_combining_mark : bool := nfc_is "\u{301}a" "\u{301}a".

Definition tests : list bool :=
  [categories_are_not_the_alphabetic_property; nfc_composes_simple_pairs;
   nfc_orders_combining_marks_by_class; hangul_decomposes_and_recomposes;
   every_decomposable_codepoint_is_idempotent_and_hangul_round_trips;
   composition_exclusions_stay_decomposed; hangul_jamo_composes_algorithmically; nfc_is_idempotent;
   nfc_handles_a_leading_combining_mark].
End UnicodeGcTests.

(** ** tokenizer.rs *)

Module TokenizerTests.

Definition byte_only : Tokenizer :=
  mkTokenizer (seqZ 0 256) ((λ c, [c]) <$> byte_to_char_table) ∅ [] char_to_byte_table true.

Definition AUDIO : rstr := lit "<|audio_start|>".
Definition encodes (tk : Tokenizer) (s : rstr) (want : list Z) : bool := eq (encode tk s) (Some want).

Definition absorbed_added_tokens_become_one_id : bool :=
  let '(tk, n) := absorb_added_tokens byte_only [(AUDIO, 248070)] in
  all [some_is (λ split, (1 <? len split) && eq (decode byte_only split) AUDIO)
         (encode byte_only AUDIO);
       n =? 1; encodes tk AUDIO [248070]; eq (token_str tk 248070) (Some AUDIO);
       eq (decode tk [248070]) AUDIO].

Definition absorbing_is_idempotent_and_keeps_longest_first : bool :=
  let tk := (absorb_added_tokens byte_only [(AUDIO, 248070)]).1 in
  let '(tk, n) := absorb_added_tokens tk [(AUDIO, 248070)] in
  let longer := AUDIO ++ lit "extra" in
  let tk' := (absorb_added_tokens tk [(longer, 248071)]).1 in
  all [n =? 0; encodes tk AUDIO [248070]; encodes tk' longer [248071];
       encodes tk' (AUDIO ++ lit "!") [248070; 33];
       len (added (absorb_added_tokens tk' [(AUDIO, 248070)]).1) =? len (added tk')].

(** [char::is_control] is the general category Cc. *)
Definition is_control (c : char) : bool := in_range 0 31 c || in_range 127 159 c.

Definition byte_table_is_a_bijection_over_256_values : bool :=
  let t := byte_to_char_table in
  all [bool_decide (NoDup t); forallb (λ c, negb (is_whitespace c) && negb (is_control c)) t;
       len t =? 256; eq (t !! 0x20%nat) (Some 0x120); eq (t !! 97%nat) (Some 97);
       eq (t !! 0x0A%nat) (Some 0x10A); eq (t !! 9%nat) (Some 0x109)].

(** The text of each byte range, after NFC. *)
Definition pieces (s : rstr) : list rstr :=
  match nfc s with
  | Some s => (λ '(a, b), from_utf8_lossy (take (Z.to_nat (b - a)) (drop (Z.to_nat a) (utf8 s))))
                <$> pretokenize s
  | None => []
  end.
Definition pieces_are (s : string) (want : list string) : bool := eq (pieces (rust s)) (rust <$> want).

Definition a_space_joins_the_following_word : bool :=
  all [pieces_are "Hello world" ["Hello"; " world"]; pieces_are "world" ["world"]]%string.

Definition the_optional_prefix_takes_exactly_one_character : bool :=
  all [pieces_are "a+b" ["a"; "+b"]; pieces_are "a++b" ["a"; "++"; "b"]]%string.

Definition whitespace_run_keeps_its_last_character : bool :=
  all [pieces_are "  leading" [" "; " leading"]; pieces_are "a  b" ["a"; " "; " b"];
       pieces_are "leading  " ["leading"; "  "]; pieces_are " " [" "]]%string.

Definition newline_runs_are_their_own_piece : bool :=
  all [pieces_are "\n\na" ["\n\n"; "a"]; pieces_are "a\r\n\r\nb" ["a"; "\r\n\r\n"; "b"];
       pieces_are " \n " [" \n"; " "]]%string.

Definition contractions_are_split_off_and_case_insensitive : bool :=
  all [pieces_are "don't" ["don"; "'t"]; pieces_are "DON'T" ["DON"; "'T"];
       pieces_are "x's" ["x"; "'s"]; pieces_are "they're" ["they"; "'re"];
       pieces_are "rock'n'roll" ["rock"; "'n"; "'roll"]]%string.

Definition digits_are_single_character_pieces : bool :=
  all [pieces_are "abc123" ["abc"; "1"; "2"; "3"]; pieces_are "123abc" ["1"; "2"; "3"; "abc"];
       pieces_are "3.14159" ["3"; "."; "1"; "4"; "1"; "5"; "9"]]%string.

Definition symbols_group_but_letters_and_digits_bound_them : bool :=
  all [pieces_are "((a))" ["(("; "a"; "))"]; pieces_are " - item" [" -"; " item"];
       pieces_are "  -  item" [" "; " -"; " "; " item"]]%string.

Definition non_latin_letters_stay_together : bool :=
  all [pieces_are "你好，世界" ["你好"; "，世界"]; pieces_are "Привет мир" ["Привет"; " мир"];
       pieces_are "a\u{300}b" ["àb"]]%string.

Definition every_character_matches_some_alternative : bool :=
  let s := seqZ 0 0x3000 in
  let p := pretokenize s in
  all [foldl (λ n r, n + (r.2 - r.1)) 0 p =? len (utf8 s); forallb (λ r, r.1 <? r.2) p].

Definition tests : list bool :=
  [absorbed_added_tokens_become_one_id; absorbing_is_idempotent_and_keeps_longest_first;
   byte_table_is_a_bijection_over_256_values; a_space_joins_the_following_word;
   the_optional_prefix_takes_exactly_one_character; whitespace_run_keeps_its_last_character;
   newline_runs_are_their_own_piece; contractions_are_split_off_and_case_insensitive;
   digits_are_single_character_pieces; symbols_group_but_letters_and_digits_bound_them;
   non_latin_letters_stay_together; every_character_matches_some_alternative].
End TokenizerTests.

(** ** They pass

    Two of them walk thousands of characters and follow from the theorems about
    normalisation and tiling; the rest are evaluated. *)

Lemma every_decomposable_passes :
  UnicodeGcTests.every_decomposable_codepoint_is_idempotent_and_hangul_round_trips = true.
Proof.
  unfold UnicodeGcTests.every_decomposable_codepoint_is_idempotent_and_hangul_round_trips. cbn zeta.
  assert (forallb (λ c, bool_decide (scalar c)) (DECOMPOSE_1.*1 ++ DECOMPOSE_2.*1) = true) as Hs
    by (vm_compute; reflexivity).
  apply all_true. each_test; [..|by vm_compute].
  - apply forallb_forall. intros c Hc. eapply forallb_forall in Hs; [|exact Hc].
    apply bool_decide_eq_true in Hs.
    destruct (nfc_total [c]) as (t & Ht & _); [by apply Forall_singleton|].
    unfold UnicodeGcTests.idempotent, some_is, eq. rewrite Ht. apply bool_decide_eq_true.
    apply (nfc_idem [c]); [by apply Forall_singleton|done].
  - apply forallb_forall. intros c Hc%list_elem_of_In%elem_of_seqZ. apply bool_decide_eq_true, nfc_hangul.
    exact Hc.
Qed.

Lemma byte_ranges_cover ps : ∀ start n, Forall (λ p, p ≠ []) ps →
  foldl (λ n r, n + (r.2 - r.1)) n (byte_ranges start ps) = n + len (utf8 (concat ps))
  ∧ forallb (λ r, r.1 <? r.2) (byte_ranges start ps) = true.
Proof.
  induction ps as [|p ps IH]; intros start n Hps; cbn [byte_ranges foldl concat forallb fst snd].
  { split; [|done]. replace (len (utf8 [])) with 0 by done. lia. }
  apply Forall_cons in Hps as [Hp Hps].
  destruct (IH (start + len (utf8 p)) (n + (start + len (utf8 p) - start)) Hps) as [-> ->].
  rewrite utf8_app, len_app, andb_true_r. split; [lia|].
  apply Z.ltb_lt. destruct p as [|c p]; [done|]. rewrite utf8_cons, len_app.
  rewrite len_encode_char. unfold len_utf8, len. repeat case_match; lia.
Qed.

Lemma every_character_passes : TokenizerTests.every_character_matches_some_alternative = true.
Proof.
  unfold TokenizerTests.every_character_matches_some_alternative. cbn zeta.
  generalize (seqZ 0 0x3000). intros s. unfold pretokenize, pretokenize_with.
  destruct (pieces_concat true (length s) s) as [Hc Hne]; [lia|].
  destruct (byte_ranges_cover _ 0 0 Hne) as [-> ->].
  rewrite Hc, Z.add_0_l, Z.eqb_refl. done.
Qed.

Definition tests : list bool :=
  ChatTests.tests ++ ChatparseTests.tests ++ PyjsonTests.tests ++ UnicodeGcTests.tests
  ++ TokenizerTests.tests.

Lemma text_tests_pass : all tests = true.
Proof.
  unfold tests. each_test.
  1-3: vm_compute; reflexivity.
  - apply all_true. unfold UnicodeGcTests.tests.
    each_test.
    5: exact every_decomposable_passes.
    all: vm_compute; reflexivity.
  - apply all_true. unfold TokenizerTests.tests.
    each_test.
    12: exact every_character_passes.
    all: vm_compute; reflexivity.
Qed.
