(* ===== verification/ModelTests.v ===== *)
(** * The unit tests of the numeric side

    The tests of delta/src/lib.rs, gdn/src/lib.rs, attention.rs, layer.rs and
    model.rs, each definition the test of the same name. *)

From stdpp Require Import list.
From S2P Require Import Prelude Float Tensor Linear LinearProps Delta Gdn Attention Layer Model TestKit.
#[local] Open Scope nat_scope.

(** The fixtures' generators.  The products wrap at 32 bits. *)
Definition det (n : nat) (seed : Z) : vec :=
  tab n (λ i, let x := wrap32 (wrap32 (Z.of_nat i * 2654435761) + seed) in
    F32.sub (F32.div (F32.of_Z (Z.shiftr x 8 mod 2000)) (F32.of_Z 1000)) f1).
Definition ramp (n : nat) (seed : f32) : vec :=
  tab n (λ i, fsin (F32.add (F32.mul (f32_of_nat i) (f32l "0.37")) seed)).

(** [worst.max((got - expect).abs())], from 0; a NaN, which [max] would drop,
    stays and fails the test. *)
Definition worst (l : list (f32 * f32)) : f32 :=
  foldl (λ w p, let d := SFabs (F32.sub p.1 p.2) in
           if is_nan w || is_nan d then S754_nan else fmax w d) fzero l.
(** The sum over [0..n], in order. *)
Definition sum (n : nat) (f : nat → f32) : f32 := foldl (λ acc i, F32.add acc (f i)) fzero (seq 0 n).

(** ** delta/src/lib.rs *)

Module DeltaTests.

Definition shape : Shape := mkShape 1 3 2 4 5.
Definition n_qk (s : Shape) : nat := sh_b s * sh_t s * sh_h s * sh_k s.
Definition n_v (s : Shape) : nat := sh_b s * sh_t s * sh_h s * sh_v s.
Definition n_g (s : Shape) : nat := sh_b s * sh_t s * sh_h s.
Definition n_state (s : Shape) : nat := sh_b s * sh_h s * sh_k s * sh_v s.

Definition splitting_the_sequence_carries_the_state_exactly : bool :=
  let full := mkShape 1 7 2 3 4 in
  let qf := det (n_qk full) 11 in
  let kf := det (n_qk full) 22 in
  let vf := det (n_v full) 33 in
  let gf := det (n_g full) 44 in
  let bf := det (n_g full) 55 in
  let chunk (part : nat * nat) (st : vec * vec) : option (vec * vec) :=
    let '(t0, len) := part in
    let '(split, state) := st in
    let sl (src : vec) (per_t : nat) := slice_at src (t0 * per_t) ((t0 + len) * per_t) in
    q ← sl qf (2 * 3); k ← sl kf (2 * 3); v ← sl vf (2 * 4); g ← sl gf 2; beta ← sl bf 2;
    '(out, state) ← forward_prepared_into (mkShape 1 len 2 3 4) q k v g beta state;
    Some (split ++ out, state) in
  some_is (λ '((whole, state_whole), (split, state)), biteq split whole && biteq state state_whole)
    (w ← forward_prepared full qf kf vf gf bf;
     s ← loop chunk [(0, 3); (3, 4)] ([], replicate (n_state full) fzero);
     Some (w, s)).

Definition a_non_zero_state_changes_the_first_token : bool :=
  let s := shape in
  let mk (n : nat) := tab n (λ i, F32.sub (F32.mul (f32_of_nat (i mod 7)) (f32l "0.1")) (f32l "0.3")) in
  let q := mk (n_qk s) in
  let v := mk (n_v s) in
  let g := replicate (n_g s) (f32l "-0.1") in
  let beta := replicate (n_g s) (f32l "0.5") in
  some_is (λ '((out_zero, _), (out_nonzero, _)),
      existsb (λ p, SFltb (f32l "1e-6") (SFabs (F32.sub p.1 p.2))) (combine out_zero out_nonzero))
    (a ← forward_prepared s q q v g beta;
     b ← forward_prepared_into s q q v g beta (replicate (n_state s) (f32l "0.7"));
     Some (a, b)).

Definition t1_matches_closed_form : bool :=
  let s := mkShape 2 1 3 6 4 in
  let q_in := ramp (n_qk s) (f32l "0.11") in
  let k_in := ramp (n_qk s) (f32l "1.7") in
  let v := ramp (n_v s) (f32l "2.3") in
  let g := replicate (n_g s) (f32l "-0.4") in
  let beta := SFabs <$> ramp (n_g s) (f32l "3.1") in
  some_is (λ '((out, state), (q, k)),
      let heads := list_prod (seq 0 2) (seq 0 3) in
      let outs := heads ≫= λ '(bi, hi),
        let kq := sum 6 (λ ki, F32.mul (ix k (idx4 s bi 0 hi ki 6)) (ix q (idx4 s bi 0 hi ki 6))) in
        (λ vi, (ix out (idx4 s bi 0 hi vi 4),
                F32.mul (F32.mul kq (ix beta (bi * 3 + hi))) (ix v (idx4 s bi 0 hi vi 4)))) <$> seq 0 4 in
      let states := heads ≫= λ '(bi, hi), seq 0 6 ≫= λ ki,
        (λ vi, (ix state (idx_state s bi hi ki vi),
                F32.mul (F32.mul (ix k (idx4 s bi 0 hi ki 6)) (ix v (idx4 s bi 0 hi vi 4)))
                  (ix beta (bi * 3 + hi)))) <$> seq 0 4 in
      SFltb (worst outs) (f32l "1e-6") && SFltb (worst states) (f32l "1e-6"))
    (a ← forward_prepared s q_in k_in v g beta;
     b ← prepare_qk q_in k_in 2 1 3 6;
     Some (a, b)).

Definition shapes_and_sizes : bool :=
  let s := shape in
  some_is (λ '(out, state),
      bool_decide (length out = n_v s) && bool_decide (length state = n_state s))
    (forward_prepared s (ramp (n_qk s) fzero) (ramp (n_qk s) (f32l "0.5")) (ramp (n_v s) f1)
       (replicate (n_g s) (f32l "-0.2")) (replicate (n_g s) (f32l "0.3"))).

Definition deterministic : bool :=
  let s := shape in
  let r := forward_prepared s (ramp (n_qk s) fzero) (ramp (n_qk s) (f32l "0.5")) (ramp (n_v s) f1)
             (replicate (n_g s) (f32l "-0.2")) (replicate (n_g s) (f32l "0.3")) in
  some_is (λ '((o1, s1), (o2, s2)), veq o1 o2 && veq s1 s2) (a ← r; b ← r; Some (a, b)).

Definition strong_decay_forgets_history : bool :=
  let s := mkShape 1 3 1 3 2 in
  let q := ramp (n_qk s) (f32l "0.9") in
  let k := ramp (n_qk s) (f32l "0.2") in
  let v := ramp (n_v s) (f32l "1.1") in
  some_is (λ '((out, _), (qq, kk)),
      SFltb (worst (seq 0 3 ≫= λ ti,
          let kq := sum 3 (λ ki, F32.mul (ix kk (idx4 s 0 ti 0 ki 3)) (ix qq (idx4 s 0 ti 0 ki 3))) in
          (λ vi, (ix out (idx4 s 0 ti 0 vi 2), F32.mul kq (ix v (idx4 s 0 ti 0 vi 2)))) <$> seq 0 2))
        (f32l "1e-4"))
    (a ← forward_prepared s q k v (replicate (n_g s) (f32l "-60")) (replicate (n_g s) f1);
     b ← prepare_qk q k 1 3 1 3;
     Some (a, b)).

Definition l2norm_is_per_head_vector : bool :=
  let rows := 2 * 3 * 2 in
  forallb (λ a, some_is (forallb (λ v,
        near (f32l "1e-6") v (F32.div f1 (F32.sqrt (f32_of_nat 8)))))
      (l2norm_last_dim (replicate (rows * 8) a) rows 8 (f32l "1e-6")))
    (f32s ["0.5"; "1.0"; "7.0"]%string).

Definition tests : list bool :=
  [splitting_the_sequence_carries_the_state_exactly; a_non_zero_state_changes_the_first_token;
   t1_matches_closed_form; shapes_and_sizes; deterministic; strong_decay_forgets_history;
   l2norm_is_per_head_vector].
End DeltaTests.

(** ** gdn/src/lib.rs *)

Module GdnTests.

(** What [available_parallelism] reports. *)
Definition hw : Z := 16.
Definition close : f32 → f32 → bool := near (f32l "1e-6").

Definition silu_and_sigmoid_at_zero : bool :=
  let tol := f32l "1e-7" in
  all [near tol (silu fzero) fzero; near tol (sigmoid fzero) (f32l "0.5");
       near tol (softplus fzero) (fln (f32l "2"));
       feq (softplus (f32l "30")) (f32l "30")].

Definition rmsnorm_1plus_is_identity_at_zero_weight : bool :=
  let inv := F32.div f1 (F32.sqrt (f32l "12.5")) in
  some_is (λ y, all [close (ix y 0) (F32.mul (f32l "3") inv); close (ix y 1) (F32.mul (f32l "4") inv)])
    (rmsnorm_1plus (f32s ["0"; "0"]%string) (f32s ["3"; "4"; "0"; "0"]%string) 2 2 (f32l "1e-6")).

Definition rmsnorm_gated_uses_plain_w_not_1_plus_w : bool :=
  let silu10 := F32.div (f32l "10") (F32.add f1 (fexp (f32l "-10"))) in
  some_is (λ y, all [near (f32l "1e-4") (ix y 0) (F32.mul f1 silu10);
                     SFltb f1 (SFabs (F32.sub (ix y 0) (F32.mul (f32l "2") silu10)))])
    (rmsnorm_gated [f1; f1] (f32s ["2"; "2"]%string) (f32s ["10"; "10"]%string) 1 2 (f32l "1e-6")).

Definition conv_is_causal_and_shapes_hold : bool :=
  let w := replicate 4 f1 in
  let x := f32s ["1"; "2"; "3"; "4"; "5"]%string in
  some_is (λ '((y, _), (y2, _)),
      all [bool_decide (length y = 5); close (ix y 0) (silu f1); close (ix y 1) (silu (f32l "3"));
           close (ix y 3) (silu (f32l "10")); forallb (λ i, close (ix y i) (ix y2 i)) (seq 0 4);
           SFltb (f32l "1e-3") (SFabs (F32.sub (ix y 4) (ix y2 4)))])
    (a ← conv_forward w None x 1 1 5 4 None;
     b ← conv_forward w None (<[4 := f32l "100"]> x) 1 1 5 4 None;
     Some (a, b)).

Definition conv_does_not_mix_batches : bool :=
  some_is (λ '(y, _), vnear (f32l "1e-6") y (silu <$> f32s ["0"; "1"; "2"; "0"; "10"; "20"]%string))
    (conv_forward [f1; fzero] None (f32s ["1"; "2"; "3"; "10"; "20"; "30"]%string) 2 1 3 2 None).

Definition repeat_interleave_duplicates_consecutively : bool :=
  let x := f32s ["10"; "20"]%string in
  all [some_is (λ y, veq y (f32s ["10"; "10"; "20"; "20"]%string)) (repeat_interleave_heads x 1 1 2 1 2);
       some_is (λ z, veq z x) (repeat_interleave_heads x 1 1 2 1 1)].

Definition transpose_round_trips_and_places_elements : bool :=
  let tag (bi ti ci : nat) := f32_of_nat (bi * 100 + ti * 10 + ci) in
  let x := flat3 2 4 3 tag in
  some_is (λ '(y, z),
      forallb (λ bi, forallb (λ ti, forallb (λ ci, feq (ix y ((bi * 3 + ci) * 4 + ti)) (tag bi ti ci))
        (seq 0 3)) (seq 0 4)) (seq 0 2)
      && veq x z)
    (y ← btc_to_bct x 2 4 3; z ← bct_to_btc y 2 3 4; Some (y, z)).

Definition serial_linear (w : vec) (bias : option vec) (x : vec) (rows in_dim out_dim : nat) : vec :=
  flat2 rows out_dim (λ r o,
    let acc := foldl (λ acc i, F64.add acc
      (F64.mul (to_f64 (ix w (o * in_dim + i))) (to_f64 (ix x (r * in_dim + i))))) fzero (seq 0 in_dim) in
    to_f32 (match bias with Some b => F64.add acc (to_f64 (ix b o)) | None => acc end)).

Definition the_split_is_over_output_elements_not_rows : bool :=
  forallb (λ '(rows, out_dim), forallb (λ nthreads,
      let items := (rows * out_dim)%Z in
      let chunk := (div_ceil items nthreads `max` 1)%Z in
      let chunks := div_ceil items chunk in
      all [1 <=? chunk; (chunks - 1) * chunk <? items; chunk <=? (div_ceil items nthreads `max` 1);
           implb ((rows <? nthreads) && (rows <? items)) (rows <? chunks)]%Z)
    [1; 2; 8; 32; 88]%Z)
  [(1, 3584); (1, 1024); (64, 3584); (1, 2); (128, 1024)]%Z.

(** The test's own copy of the rule. *)
Definition threads (rows in_dim out_dim : Z) : Z :=
  (((rows * in_dim * out_dim / WORK_PER_THREAD) `min` 16) `min` MAX_THREADS)%Z.

Definition the_thread_count_scales_with_the_work : bool :=
  all [threads 1 64 64 <=? 1; threads 1 512 256 <=? 1; threads 1 1024 512 =? 2;
       threads 1 1024 1024 =? 4; threads 1 1024 3584 =? 14; threads 1 3584 1024 =? 14;
       threads 1 1024 248320 =? 16; threads 64 1024 3584 =? 16;
       threads 4096 4096 4096 <=? MAX_THREADS; threads 1 100000 100000 <=? MAX_THREADS]%Z.

(** The tests' matrices. *)
Definition pseudo (n : nat) (mul m : Z) : vec := tab n (λ i,
  F32.sub (F32.div (F32.of_Z (Z.of_nat i * mul mod m)) (F32.of_Z 500)) f1).

(** The vectors are compared by their bits here, in the source by [==]. *)
Definition t1_decode_shape_is_bit_identical_and_does_parallelise : bool :=
  forallb (λ '(rows, in_dim, out_dim),
      let w := pseudo (out_dim * in_dim) 2654435761 1000 in
      let x := pseudo (rows * in_dim) 40503 997 in
      let bias := tab out_dim (λ i, F32.sub (F32.div (f32_of_nat (i mod 7)) (f32l "4")) (f32l "0.5")) in
      (WORK_PER_THREAD <=? Z.of_nat rows * Z.of_nat in_dim * Z.of_nat out_dim)%Z
      && some_is (λ par, biteq par (serial_linear w (Some bias) x rows in_dim out_dim))
           (linear hw w (Some bias) x rows in_dim out_dim))
    [(1, 1024, 3584); (1, 1024, 2048); (1, 2048, 1024)].

Definition parallel_linear_is_bit_identical_to_serial : bool :=
  forallb (λ '(rows, in_dim, out_dim),
      let w := pseudo (out_dim * in_dim) 2654435761 1000 in
      let x := pseudo (rows * in_dim) 40503 997 in
      (WORK_PER_THREAD <=? Z.of_nat rows * Z.of_nat in_dim * Z.of_nat out_dim)%Z
      && some_is (λ par, biteq par (serial_linear w None x rows in_dim out_dim))
           (linear hw w None x rows in_dim out_dim))
    [(200, 64, 40)].

Definition linear_matches_explicit_matmul : bool :=
  some_is (λ y, veq y (f32s ["6"; "15"]%string))
    (linear hw (f32s ["1"; "2"; "3"; "4"; "5"; "6"]%string) None [f1; f1; f1] 1 3 2).

Definition cfg : GdnConfig := mkGdnConfig 8 2 2 3 4 4 (f32l "1e-6").
Definition weights : GdnWeights :=
  mkGdnWeights (det (GdnConfig.conv_dim cfg * g_hidden cfg) 1)
    (det (GdnConfig.value_dim cfg * g_hidden cfg) 2) (det (num_v_heads cfg * g_hidden cfg) 3)
    (det (num_v_heads cfg * g_hidden cfg) 4) (det (GdnConfig.conv_dim cfg * conv_kernel cfg) 5)
    (replicate (num_v_heads cfg) (f32l "0.1")) (replicate (num_v_heads cfg) fzero)
    (replicate (head_v_dim cfg) (f32l "0.5")) (det (g_hidden cfg * GdnConfig.value_dim cfg) 6).

Definition conv_with_state_equals_the_whole_signal : bool :=
  let '(b, c, k, t) := (2, 3, 4, 9) in
  let w := tab (c * k) (λ i, F32.sub (F32.mul (f32_of_nat (i mod 5)) (f32l "0.25")) (f32l "0.5")) in
  let x := tab (b * c * t) (λ i, F32.sub (f32_of_nat (i * 37 mod 23)) (f32l "11")) in
  let step (n : nat) (st : vec * vec * nat) : option (vec * vec * nat) :=
    let '(got, state, done) := st in
    let rows := list_prod (seq 0 b) (seq 0 c) in
    chunk ← loop (λ '(bi, ci) chunk,
      row ← slice_at x ((bi * c + ci) * t + done) ((bi * c + ci) * t + done + n);
      copy_into chunk ((bi * c + ci) * n) row) rows (replicate (b * c * n) fzero);
    '(out, ns) ← conv_forward w None chunk b c n k (Some state);
    got ← loop (λ '(bi, ci) got,
      row ← slice_at out ((bi * c + ci) * n) ((bi * c + ci) * n + n);
      copy_into got ((bi * c + ci) * t + done) row) rows got;
    Some (got, ns, done + n) in
  some_is (λ '((whole, _), (got, _, done)), bool_decide (done = t) && biteq got whole)
    (a ← conv_forward w None x b c t k None;
     s ← loop step [1; 2; 3; 3] (replicate (b * c * t) fzero, replicate (b * c * (k - 1)) fzero, 0);
     Some (a, s)).

Definition incremental_mixer_equals_whole_sequence : bool :=
  let x := tab (1 * 6 * g_hidden cfg) (λ i,
    F32.sub (F32.mul (f32_of_nat (i * 17 mod 31)) (f32l "0.1")) (f32l "1.5")) in
  some_is (λ '(whole, (got, _)), biteq got (gt_out_proj whole))
    (whole ← gdn_forward hw cfg weights x 1 6;
     s ← for_ 6 (λ ti '(got, st),
       chunk ← slice_at x (ti * g_hidden cfg) ((ti + 1) * g_hidden cfg);
       '(tr, st) ← gdn_forward_with_state hw cfg weights chunk 1 1 st;
       got ← copy_into got (ti * g_hidden cfg) (gt_out_proj tr);
       Some (got, st)) (replicate (1 * 6 * g_hidden cfg) fzero, GdnState.new cfg 1);
     Some (whole, s)).

Definition the_state_is_used_and_advanced : bool :=
  let x := f32s ["0.3"; "-0.2"; "0.5"; "0.1"; "-0.4"; "0.2"; "0.0"; "0.7"]%string in
  let run (st : GdnState) (x : vec) := gdn_forward_with_state hw cfg weights x 1 1 st in
  let fresh := GdnState.new cfg 1 in
  some_is (λ '(a, b_out, st2),
      all [existsb (λ p, SFltb (f32l "1e-6") (SFabs (F32.sub p.1 p.2)))
             (combine (gt_out_proj a) (gt_out_proj b_out));
           negb (veq (gs_conv st2) (gs_conv fresh)); negb (veq (gs_ssm st2) (gs_ssm fresh))])
    ('(a, st2) ← run fresh x;
     '(_, used) ← run fresh (replicate (g_hidden cfg) (f32l "0.9"));
     '(b_out, _) ← run used x;
     Some (a, b_out, st2)).

Definition tests : list bool :=
  [silu_and_sigmoid_at_zero; rmsnorm_1plus_is_identity_at_zero_weight;
   rmsnorm_gated_uses_plain_w_not_1_plus_w; conv_is_causal_and_shapes_hold;
   conv_does_not_mix_batches; repeat_interleave_duplicates_consecutively;
   transpose_round_trips_and_places_elements; the_split_is_over_output_elements_not_rows;
   the_thread_count_scales_with_the_work; t1_decode_shape_is_bit_identical_and_does_parallelise;
   parallel_linear_is_bit_identical_to_serial; linear_matches_explicit_matmul;
   conv_with_state_equals_the_whole_signal; incremental_mixer_equals_whole_sequence;
   the_state_is_used_and_advanced].
End GdnTests.

(** ** attention.rs *)

Module AttentionTests.

Definition hw : Z := 16.
Definition theta : f32 := f32l "10000.0".
Definition eps : f32 := f32l "1e-6".
Definition cfg : AttnConfig := mkAttnConfig 8 2 1 4 2 theta eps.
Definition zs (n : nat) : vec := replicate n fzero.

Definition rope_at_position_zero_is_identity : bool :=
  some_is (λ '(cos, sin), forallb (λ i,
      near (f32l "1e-6") (ix cos i) f1 && SFltb (SFabs (ix sin i)) (f32l "1e-6"))
    (seq 0 (rotary_dim cfg))) (build_rope cfg 3 0).

Definition rope_duplicates_the_frequency_vector : bool :=
  let half := rotary_dim cfg / 2 in
  some_is (λ '(cos, sin), forallb (λ pos, forallb (λ i,
      let a := pos * rotary_dim cfg + i in
      let b := a + half in
      near (f32l "1e-6") (ix cos a) (ix cos b) && near (f32l "1e-6") (ix sin a) (ix sin b))
    (seq 0 half)) (seq 0 5)) (build_rope cfg 5 1).

Definition rope_preserves_norm : bool :=
  let x := tab (4 * head_dim cfg) (λ i, F32.sub (f32_of_nat (i * 37 mod 11)) (f32l "5")) in
  let norm (v : vec) (r : nat) := sum (rotary_dim cfg) (λ i,
    F32.mul (ix v (r * head_dim cfg + i)) (ix v (r * head_dim cfg + i))) in
  some_is (λ y, forallb (λ r, near (f32l "1e-4") (norm x r) (norm y r)
      && forallb (λ i, feq (ix x (r * head_dim cfg + i)) (ix y (r * head_dim cfg + i)))
           (seq (rotary_dim cfg) (head_dim cfg - rotary_dim cfg))) (seq 0 4))
    ('(cos, sin) ← build_rope cfg 4 0;
     apply_rope x 4 1 (head_dim cfg) cos sin 4 (rotary_dim cfg)).

Definition rope_uses_the_position_not_the_row : bool :=
  let c := mkAttnConfig 8 2 2 4 4 theta eps in
  let '(t, heads, d) := (3, 2, 4) in
  let x := flat3 t heads d (λ ti hh i,
    F32.add (f32_of_nat (ti * 10 + hh)) (F32.mul (f32_of_nat i) (f32l "0.1"))) in
  some_is (λ '(cos, sin, y), forallb (λ ti, forallb (λ hh,
      let src := (ti * heads + hh) * d in
      some_is (λ '(rot, rh), forallb (λ i,
          let ang := ti * rotary_dim c + i in
          let expect := F32.add (F32.mul (ix rot i) (ix cos ang)) (F32.mul (ix rh i) (ix sin ang)) in
          near (f32l "1e-5") (ix y (src + i)) expect) (seq 0 (rotary_dim c)))
        (row ← slice_at x src (src + d);
         _ ← apply_rope row 1 1 d cos sin t (rotary_dim c);
         rot ← slice_at row 0 (rotary_dim c);
         rh ← rotate_half rot (rotary_dim c); Some (rot, rh)))
    (seq 0 heads)) (seq 0 t))
    ('(cos, sin) ← build_rope c t 0;
     y ← apply_rope x (t * heads) heads d cos sin t (rotary_dim c); Some (cos, sin, y)).

Definition rotate_half_is_the_half_convention_not_interleaved : bool :=
  some_is (λ out, veq out (f32s ["-3"; "-4"; "1"; "2"]%string))
    (rotate_half (f32s ["1"; "2"; "3"; "4"]%string) 4).

(** [build_rope(&c, t, 0)], then [forward] on one sequence of [t] positions. *)
Definition run (c : AttnConfig) (w : AttnWeights) (x : vec) (t : nat) : option AttnTrace :=
  '(cos, sin) ← build_rope c t 0; attn_forward hw c w x 1 t cos sin.

Definition query_gate_split_is_per_head : bool :=
  let c := mkAttnConfig 1 2 2 2 2 theta eps in
  let q_proj := f32s ["10"; "11"; "20"; "21"; "30"; "31"; "40"; "41"]%string in
  let ratio (v : vec) (i : nat) := F32.div (ix v i) (ix v (i + 1)) in
  some_is (λ tr, all [veq (tr_q_proj tr) q_proj;
        near (f32l "1e-4") (ratio (tr_q_norm tr) 0) (F32.div (f32l "10") (f32l "11"));
        near (f32l "1e-4") (ratio (tr_q_norm tr) 2) (F32.div (f32l "30") (f32l "31"))])
    (run c (mkAttnWeights q_proj (zs 4) (zs 4) (zs 4) (zs 2) (zs 2)) [f1] 1).

Definition output_gate_is_sigmoid_not_swish : bool :=
  let c := mkAttnConfig 1 1 1 1 1 theta eps in
  let w (v : f32) := mkAttnWeights (f32s ["0"; "10"]%string) (zs 1) [v] [f1] (zs 1) (zs 1) in
  let den := F32.add f1 (fexp (f32l "-10")) in
  some_is (λ '(zero_v, tr),
      all [SFltb (SFabs (ix (tr_gated zero_v) 0)) (f32l "1e-7");
           near (f32l "1e-5") (ix (tr_gated tr) 0) (F32.div f1 den);
           SFltb f1 (SFabs (F32.sub (ix (tr_gated tr) 0) (F32.div (f32l "10") den)))])
    (a ← run c (w fzero) [f1] 1; b ← run c (w f1) [f1] 1; Some (a, b)).

Definition gqa_head_mapping_is_contiguous_per_kv_head : bool :=
  let c := mkAttnConfig 1 4 2 2 2 theta eps in
  some_is (λ tr, vnear (f32l "1e-5") (tr_gated tr) (f32s ["5"; "5"; "5"; "5"; "10"; "10"; "10"; "10"]%string))
    (run c (mkAttnWeights (zs 16) (zs 4) (f32s ["10"; "10"; "20"; "20"]%string) (replicate 8 f1)
              (zs 2) (zs 2)) [f1] 1).

Definition causal_mask_hides_the_future : bool :=
  let c := mkAttnConfig 2 1 1 2 2 theta eps in
  let id2 := [f1; fzero; fzero; f1] in
  let w := mkAttnWeights (id2 ++ zs 4) id2 id2 id2 (zs 2) (zs 2) in
  some_is (λ '(a, b),
      let d (i : nat) := SFabs (F32.sub (ix (tr_gated a) i) (ix (tr_gated b) i)) in
      forallb (λ i, SFltb (d i) (f32l "1e-6")) [0; 1]
      && existsb (λ i, SFltb (f32l "1e-6") (d (2 * 2 + i))) [0; 1])
    (a ← run c w (f32s ["1"; "0"; "1"; "0"; "1"; "0"]%string) 3;
     b ← run c w (f32s ["1"; "0"; "1"; "0"; "9"; "7"]%string) 3; Some (a, b)).

Definition tests : list bool :=
  [rope_at_position_zero_is_identity; rope_duplicates_the_frequency_vector; rope_preserves_norm;
   rope_uses_the_position_not_the_row; rotate_half_is_the_half_convention_not_interleaved;
   query_gate_split_is_per_head; output_gate_is_sigmoid_not_swish;
   gqa_head_mapping_is_contiguous_per_kv_head; causal_mask_hides_the_future].
End AttentionTests.

(** ** layer.rs *)

Module LayerTests.

Definition hw : Z := 16.

(** [r.unwrap()] satisfies [p], or [r.unwrap_err()] satisfies [q]. *)
Definition fails {E A} (q : E → bool) (r : result (err E) A) : bool :=
  err_is (λ e, match e with Error e => q e | Panic => false end) r.

Definition stub_mixer_trace (out_proj : vec) : GdnTrace :=
  mkGdnTrace [] [] [] [] [] [] [] [] [] [] [] [] [] [] out_proj.

Definition silu_matches_definition : bool :=
  forallb (λ x, near (f32l "1e-6") (silu x) (F32.mul x (F32.div f1 (F32.add f1 (fexp (SFopp x))))))
    (f32s ["-8"; "-1"; "0"; "0.5"; "3"; "20"]%string)
  && SFltb (SFabs (silu fzero)) (f32l "1e-7").

Definition swiglu_applies_activation_to_the_gate_branch_only : bool :=
  let '(two, three) := (f32l "2", f32l "3") in
  let want := F32.mul (silu two) three in
  some_is (λ t, all [near (f32l "1e-6") (ix (mt_swiglu_product t) 0) want;
        near (f32l "1e-6") (ix (mt_down_proj t) 0) want;
        SFltb (f32l "0.1") (SFabs (F32.sub (ix (mt_swiglu_product t) 0) (F32.mul (silu three) two)))])
    (mlp_forward hw (mkMlpWeights [two] [three] [f1]) [f1] 1 1 1).

Definition zeros (n : nat) : vec := replicate n fzero.

Definition residuals_are_plain_adds_and_second_uses_updated_value : bool :=
  let lw := mkLayerWeights (zeros 2) (zeros 2) (mkMlpWeights (zeros 4) (zeros 4) (zeros 4)) in
  let want := f32s ["11"; "22"]%string in
  some_is (λ t, all [veq (lt_after_first_residual t) want; veq (lt_out t) want;
                     negb (veq (lt_out t) (f32s ["1"; "2"]%string))])
    (layer_forward_from_mixer hw lw (f32s ["1"; "2"]%string) (f32s ["0.5"; "0.5"]%string)
       (LinearTrace (stub_mixer_trace (f32s ["10"; "20"]%string))) 1 (f32l "1e-6")).

(** The layer of width one and its attention, which two tests spell out. *)
Definition lw1 : LayerWeights :=
  mkLayerWeights (zeros 1) (zeros 1) (mkMlpWeights (zeros 1) (zeros 1) (zeros 1)).
Definition attn1 : Mixer :=
  FullAttention (mkAttnConfig 1 1 1 1 1 (f32l "1e4") (f32l "1e-6"))
    (mkAttnWeights (zeros 2) (zeros 1) (zeros 1) (zeros 1) (zeros 1) (zeros 1)).
Definition gdn1 : Mixer :=
  LinearAttention (mkGdnConfig 1 1 1 1 1 2 (f32l "1e-6"))
    (mkGdnWeights (zeros 4) (zeros 1) (zeros 1) (zeros 1) (zeros 2) (zeros 1) (zeros 1) (zeros 1)
       (zeros 1)).

Definition mismatched_state_kind_is_reported : bool :=
  some_is (λ rope, all
    [fails (λ e, match e with LinearStateForFullAttention => true | _ => false end)
       (layer_forward_with_state hw attn1 lw1 [f1] 1 1 (f32l "1e-6") (Some rope)
          (LinearState (mkGdnState [] [])));
     fails (λ e, match e with FullStateForLinearAttention => true | _ => false end)
       (layer_forward_with_state hw gdn1 lw1 [f1] 1 1 (f32l "1e-6") None (FullState AttnState.new))])
    (build_rope (mkAttnConfig 1 1 1 1 1 (f32l "1e4") (f32l "1e-6")) 1 0).

Definition full_attention_without_rope_reports_rather_than_guesses : bool :=
  fails (λ e, match e with NeedsRope => true | _ => false end)
    (layer_forward hw attn1 lw1 [f1] 1 1 (f32l "1e-6") None).

Definition tests : list bool :=
  [silu_matches_definition; swiglu_applies_activation_to_the_gate_branch_only;
   residuals_are_plain_adds_and_second_uses_updated_value; mismatched_state_kind_is_reported;
   full_attention_without_rope_reports_rather_than_guesses].
End LayerTests.

(** ** model.rs *)

Module DecoderTests.

Definition hw : Z := 16.
Definition mcfg : ModelConfig :=
  mkModelConfig 6 4 (f32l "1e-6") (mkGdnConfig 4 1 1 2 2 2 (f32l "1e-6"))
    (mkAttnConfig 4 1 1 4 2 (f32l "10000.0") (f32l "1e-6")).
Definition conv_dim : nat := GdnConfig.conv_dim (mc_gdn mcfg).
Definition value_dim : nat := GdnConfig.value_dim (mc_gdn mcfg).
(** [vec![x; n]] *)
Definition vec_ (x : string) (n : nat) : vec := replicate n (f32l x).

Definition layer : LayerWeights :=
  mkLayerWeights (vec_ "1" 4) (vec_ "1" 4)
    (mkMlpWeights (vec_ "0.01" (8 * 4)) (vec_ "0.01" (8 * 4)) (vec_ "0.01" (4 * 8))).
Definition lin : LayerWeightsAll :=
  mkLayerWeightsAll KLinearAttention layer
    (Some (mkGdnWeights (vec_ "0.02" (conv_dim * 4)) (vec_ "0.02" (value_dim * 4)) (vec_ "0" 4)
             (vec_ "0" 4) (vec_ "0.5" (conv_dim * 2)) (vec_ "0.1" 1) (vec_ "0" 1) (vec_ "1" 2)
             (vec_ "0.02" (4 * value_dim)))) None.
Definition full : LayerWeightsAll :=
  mkLayerWeightsAll KFullAttention layer None
    (Some (mkAttnWeights (vec_ "0.02" (2 * 4 * 4)) (vec_ "0.02" (4 * 4)) (vec_ "0.02" (4 * 4))
             (vec_ "0.02" (4 * 4)) (vec_ "1" 4) (vec_ "1" 4))).
Definition w : ModelWeights :=
  mkModelWeights (tab (6 * 4) (λ i, F32.mul (f32_of_nat (i mod 7)) (f32l "0.1"))) (vec_ "1" 4)
    (vec_ "0.05" (6 * 4)) [lin; full].

Definition embedding_lookup_picks_the_right_rows : bool :=
  let e := f32s ["0"; "1"; "2"; "3"; "10"; "11"; "12"; "13"]%string in
  ok_is (λ got, veq got (f32s ["10"; "11"; "12"; "13"; "0"; "1"; "2"; "3"]%string))
    (embed e [1; 0]%Z 2 4).

Definition out_of_range_token_is_reported : bool :=
  LayerTests.fails (λ e, match e with TokenOutOfRange _ _ => true | _ => false end)
    (embed (vec_ "0" 8) [5]%Z 2 4).

Definition forward_shapes_and_finiteness : bool :=
  ok_is (λ tr, all [bool_decide (tr_t tr = 3); bool_decide (length (tr_logits tr) = 3 * vocab mcfg);
        bool_decide (length (tr_layers tr) = 2); forallb is_finite (tr_logits tr);
        bool_decide (length (tr_final_norm tr) = 3 * hidden mcfg);
        some_is (λ i, bool_decide (i < vocab mcfg)) (argmax_last tr)])
    (forward hw mcfg w [1; 2; 3]%Z).

Definition attention_layer_mixes_across_positions : bool :=
  ok_is (λ '(a, b), some_is (λ '(la, lb),
      let ps := combine (lt_after_first_residual la) (lt_after_first_residual lb) in
      SFltb (worst (take (hidden mcfg) ps)) (f32l "1e-6")
      && SFltb (f32l "1e-9") (worst (drop (2 * hidden mcfg) ps)))
      (la ← tr_layers a !! 1; lb ← tr_layers b !! 1; Some (la, lb)))
    (a ← forward hw mcfg w [1; 2; 3]%Z; b ← forward hw mcfg w [1; 2; 4]%Z; Ok (a, b)).

Definition prefill_equals_the_uncached_path : bool :=
  let '(cache, b) := forward_cached hw mcfg w (cache_new mcfg w 1) [1; 2; 3; 4]%Z in
  ok_is (λ '(a, b), biteq (tr_logits a) (tr_logits b))
    (a ← forward hw mcfg w [1; 2; 3; 4]%Z; b ← b; Ok (a, b))
  && bool_decide (cache_len cache = 4).

Definition token_at_a_time_equals_the_whole_sequence : bool :=
  let call (st : Cache * outcome ModelTrace) (tokens : list Z) := forward_cached hw mcfg w st.1 tokens in
  let first := forward_cached hw mcfg w (cache_new mcfg w 1) [1; 2; 3]%Z in
  let '(cache, step) := foldl call first [[4]; [5]; [0]]%Z in
  all [is_ok first.2; bool_decide (cache_len cache = 6);
       ok_is (λ '(whole, step), some_is (λ '(a, b), biteq a b)
           (a ← last_logits whole; b ← last_logits step; Some (a, b)))
         (whole ← forward hw mcfg w [1; 2; 3; 4; 5; 0]%Z; step ← step; Ok (whole, step))].

Definition cached_greedy_matches_uncached_greedy : bool :=
  ok_is (λ '((want, want_tr), (got, got_tr)),
      eq got want && bool_decide (length got_tr = length want_tr))
    (a ← greedy hw mcfg w [1; 2; 3]%Z 5; b ← greedy_cached hw mcfg w [1; 2; 3]%Z 5; Ok (a, b)).

Definition cache_is_allocated_per_layer_and_the_two_kinds_differ : bool :=
  let cache := cache_new mcfg w 1 in
  let '(lin, full) := bytes_by_kind cache in
  all [bool_decide (length (states cache) = length (layers w)); bool_decide (cache_len cache = 0);
       bool_decide (0 < lin); bool_decide (full = 0); bool_decide (cache_bytes cache = lin + full)].

Definition greedy_appends_the_argmax : bool :=
  ok_is (λ '(gen, traces),
      all [bool_decide (length gen = 3); bool_decide (length traces = 3);
           forallb (λ i, some_is (λ '(g, tr),
               eq (Some (Z.to_nat g)) (argmax_last tr) && bool_decide (tr_t tr = 2 + i))
             (g ← gen !! i; tr ← traces !! i; Some (g, tr))) (seq 0 3)])
    (greedy hw mcfg w [1; 2]%Z 3).

Definition tests : list bool :=
  [embedding_lookup_picks_the_right_rows; out_of_range_token_is_reported;
   forward_shapes_and_finiteness; attention_layer_mixes_across_positions;
   prefill_equals_the_uncached_path; token_at_a_time_equals_the_whole_sequence;
   cached_greedy_matches_uncached_greedy; cache_is_allocated_per_layer_and_the_two_kinds_differ;
   greedy_appends_the_argmax].
End DecoderTests.

(** The two large products are not computed: whatever the matrices, the threaded
    product is the serial one. *)
Lemma serial_linear_spec hw w bias x rows in_dim out_dim :
  length w = out_dim * in_dim → bias_ok bias out_dim → length x = rows * in_dim →
  linear hw w bias x rows in_dim out_dim
  = Some (GdnTests.serial_linear w bias x rows in_dim out_dim).
Proof.
  intros Hw Hb Hx.
  rewrite (linear_spec hw w bias x rows in_dim out_dim _ Hw Hb (to_flat2 x rows in_dim Hx)).
  f_equal. apply flat2_ext. intros r o Hr Ho. unfold lin. cbn zeta.
  assert (∀ l i, i < length l → ix l i = at_ l i) as Hix
    by (intros; by apply nth_indep).
  f_equal.
  replace (foldl _ fzero (seq 0 in_dim)) with
    (foldl (λ acc i, F64.add acc (F64.mul (to_f64 (ix w (o * in_dim + i)))
       (to_f64 (ix x (r * in_dim + i))))) fzero (seq 0 in_dim)).
  - destruct bias as [b|]; [|done]. cbn in Hb. by rewrite Hix by lia.
  - apply foldl_ext_elem. intros a i Hi%elem_of_seq.
    rewrite !Hix by nia. done.
Qed.

Lemma serial_linear_is hw w bias x rows in_dim out_dim :
  length w = out_dim * in_dim → bias_ok bias out_dim → length x = rows * in_dim →
  some_is (λ par, biteq par (GdnTests.serial_linear w bias x rows in_dim out_dim))
    (linear hw w bias x rows in_dim out_dim) = true.
Proof. intros. rewrite serial_linear_spec by done. by apply bool_decide_eq_true. Qed.

Lemma large_products_pass :
  GdnTests.t1_decode_shape_is_bit_identical_and_does_parallelise = true
  ∧ GdnTests.parallel_linear_is_bit_identical_to_serial = true.
Proof.
  split; apply forallb_forall; intros [[rows in_dim] out_dim] Hin; cbv zeta; apply andb_true_intro;
    (split; [|apply serial_linear_is; first [apply length_tab|done]]);
    repeat destruct Hin as [[= <- <- <-]|Hin]; done.
Qed.

Definition tests : list bool :=
  DeltaTests.tests ++ GdnTests.tests ++ AttentionTests.tests ++ LayerTests.tests ++ DecoderTests.tests.

Lemma model_tests_pass : all tests = true.
Proof.
  unfold tests. each_test.
  1, 3-5: vm_compute; reflexivity.
  apply all_true. unfold GdnTests.tests. each_test.
  10: exact (proj1 large_products_pass).
  10: exact (proj2 large_products_pass).
  all: vm_compute; reflexivity.
Qed.
