(* ===== verification/UnitTests.v ===== *)
(** * The unit tests of the readers, and all of them

    The tests of safetensors.rs, real.rs, loader.rs and stloader's lib.rs, each
    definition the test of the same name, and the theorem that the model passes
    the repository's unit tests. *)

From S2P Require Import Prelude Serde Float Rstr Utf8 PyJson JsonInstance Header Plan Reader ReaderProps Selftest LoadPath Tensor Gdn Attention Layer Model Safetensors Real Loader Bundle TestKit SampleWitness TextTests ModelTests.
#[local] Open Scope Z_scope.

(** A file: the length of the header, the header, the data. *)
Definition file_bytes (header : rstr) (data : list Z) : list Z :=
  to_le_bytes 8 (len (utf8 header)) ++ utf8 header ++ data.

(** ** safetensors.rs *)

Module SafetensorsTests.

Definition decodes (bits : Z) (want : f32) : bool :=
  some_is (λ v, veq v [want]) (decode Bf16 (to_le_bytes 2 bits)).

Definition bf16_widening_is_exact : bool :=
  all [decodes 0x3F80 (f32l "1.0"); decodes 0xC000 (f32l "-2.0"); decodes 0x0000 (f32l "0.0");
       some_is (λ v, near (f32l "1e-9") (ix v 0) (f32l "1.0078125")) (decode Bf16 (to_le_bytes 2 0x3F81));
       forallb (λ bits, some_is (λ v, Z.shiftr (to_bits (ix v 0)) 16 =? bits)
                          (decode Bf16 (to_le_bytes 2 bits)))
         [0x0000; 0x3F80; 0x3F81; 0xBF80; 0x7F7F; 0x0001; 0x8000; 0x4049]].

Definition is_infinite (x : f32) : bool := match x with S754_infinity _ => true | _ => false end.

Definition f16_handles_special_values : bool :=
  all [feq (f16_to_f32 0x3C00) (f32l "1.0"); feq (f16_to_f32 0xC000) (f32l "-2.0");
       feq (f16_to_f32 0x0000) (f32l "0.0"); feq (f16_to_f32 0x8000) (f32l "-0.0");
       is_infinite (f16_to_f32 0x7C00);
       is_infinite (f16_to_f32 0xFC00) && SFltb (f16_to_f32 0xFC00) fzero;
       is_nan (f16_to_f32 0x7E00); feq (f16_to_f32 0x3555) (f32l "0.33325195")].

(** serde_json writes the keys in order and no spaces. *)
Definition header (dtype shape offsets : string) : rstr :=
  rust "{\qw\q:{\qdata_offsets\q:" ++ lit offsets ++ rust ",\qdtype\q:\q" ++ lit dtype
  ++ rust "\q,\qshape\q:" ++ lit shape ++ rust "}}".
Definition PATH : rstr := lit "model.safetensors".
(** [Model::open] on the directory that holds this one file. *)
Definition open_dir (bytes : list Z) : Safetensors.outcome Safetensors.Model :=
  model_open (J:=Value) [mkFile PATH bytes bytes].
Definition open_fails (bytes : list Z) (p : st_error → bool) : bool :=
  err_is p (shard_open (J:=Value) PATH bytes).
Definition zeros (n : nat) : list Z := replicate n 0.

Definition reads_a_valid_file : bool :=
  let want := f32s ["1.0"; "2.0"; "3.0"]%string in
  ok_is (λ m, all [ok_is (λ v, veq v want) (tensor m (lit "w"));
                   some_is (λ e, eq (e_shape e) [3]) (entry m (lit "w"))])
    (open_dir (file_bytes (header "F32" "[3]" "[0,12]") (want ≫= f32_to_le_bytes))).

Definition rejects_shape_that_disagrees_with_byte_span : bool :=
  open_fails (file_bytes (header "F32" "[3]" "[0,8]") (zeros 8))
    (λ e, match e with SpanMismatch _ span _ => span =? 8 | _ => false end).

Definition rejects_reversed_offsets : bool :=
  open_fails (file_bytes (header "F32" "[2]" "[8,0]") (zeros 8))
    (λ e, match e with Reversed _ _ _ => true | _ => false end).

Definition rejects_tensor_past_end_of_file : bool :=
  open_fails (file_bytes (header "F32" "[100]" "[0,400]") (zeros 16))
    (λ e, match e with EndsBeyondFile _ _ _ => true | _ => false end).

Definition rejects_unsupported_dtype : bool :=
  open_fails (file_bytes (header "I8" "[1]" "[0,1]") (zeros 1))
    (λ e, match e with UnsupportedDtype _ _ => true | _ => false end).

Definition missing_tensor_is_reported_by_name : bool :=
  ok_is (λ m, err_is (λ e, match e with NoTensor name => eq name (lit "absent") | _ => false end)
                (tensor m (lit "absent")))
    (open_dir (file_bytes (header "F32" "[1]" "[0,4]") (f32_to_le_bytes f1))).

Definition tests : list bool :=
  [bf16_widening_is_exact; f16_handles_special_values; reads_a_valid_file;
   rejects_shape_that_disagrees_with_byte_span; rejects_reversed_offsets;
   rejects_tensor_past_end_of_file; rejects_unsupported_dtype; missing_tensor_is_reported_by_name].
End SafetensorsTests.

(** ** real.rs *)

Module RealTests.

Definition unused_subtrees_are_classified : bool :=
  all [eq (is_unused (lit "model.visual.blocks.0.attn.qkv.weight")) (Some (lit "vision tower"));
       eq (is_unused (lit "visual.patch_embed.proj.weight")) (Some (lit "vision tower"));
       eq (is_unused (lit "mtp.layers.0.mlp.gate_proj.weight"))
         (Some (lit "multi-token-prediction head"));
       eq (is_unused (lit "model.language_model.layers.0.mlp.up_proj.weight")) None].

Definition text_config_prefers_the_nested_object : bool :=
  let str (s : string) := Str (lit s) in
  let v1 := Object [(lit "model_type", str "qwen3_5");
                    (lit "text_config", Object [(lit "hidden_size", Int 1024)])] in
  let v2 := Object [(lit "model_type", str "qwen3_5_text"); (lit "hidden_size", Int 2048)] in
  all [eq (text_config v1).2 (lit "text_config");
       eq (cfg_usize (text_config v1).1 "hidden_size") (Some 1024);
       eq (text_config v2).2 (lit "top level");
       eq (cfg_usize (text_config v2).1 "hidden_size") (Some 2048)].

Definition layer_kind_reports_unknown_and_short_lists : bool :=
  let types := [lit "linear_attention"; lit "full_attention"] in
  all [ok_is (eq KLinearAttention) (kind_of types 0); ok_is (eq KFullAttention) (kind_of types 1);
       LayerTests.fails (λ e, match e with LayerTypesTooShort _ => true | _ => false end)
         (kind_of types 2);
       LayerTests.fails (λ e, match e with UnknownLayerType _ _ => true | _ => false end)
         (kind_of [lit "sliding_attention"] 0)].

Definition tests : list bool :=
  [unused_subtrees_are_classified; text_config_prefers_the_nested_object;
   layer_kind_reports_unknown_and_short_lists].
End RealTests.

(** ** loader.rs *)

Module LoaderTests.

Definition info (types : list rstr) : ModelInfo :=
  mkModelInfo 1 1 4 8 (length types) types (f32l "1e-6") (f64l "1.0") 16
    (mkGdnConfig 4 1 1 2 2 2 (f32l "1e-6"))
    (mkAttnConfig 4 1 1 4 2 (f32l "10000.0") (f32l "1e-6")).
(** The list two tests spell out: three linear layers and a full one, twice. *)
Definition types8 : list rstr :=
  let l := lit "linear_attention" in let f := lit "full_attention" in [l; l; l; f; l; l; l; f].

Definition ssm_ordinal_skips_full_attention_layers : bool :=
  eq (ModelInfo.ssm_ordinal (info types8) <$> seq 0 8)
    [Some 0; Some 1; Some 2; None; Some 3; Some 4; Some 5; None]%nat.

Definition capture_names_use_the_ordinal_not_the_layer : bool :=
  let c := LayerCapture.new 4 (Some 3%nat) in
  all [eq (LayerCapture.conv_in c) (Some (lit "causal_conv1d_fn_call3_in"));
       eq (LayerCapture.delta_out c) (Some (lit "delta_torch_chunk_gated_delta_rule_3__out"));
       eq (LayerCapture.delta_state c) (Some (lit "delta_torch_chunk_gated_delta_rule_3__state"));
       eq (LayerCapture.in_proj_qkv c) (lit "model__layers__4__linear_attn__in_proj_qkv");
       eq (LayerCapture.layer_out c) (lit "model__layers__4")].

Definition full_attention_layer_has_no_delta_names : bool :=
  let c := LayerCapture.new 3 None in
  all [eq (LayerCapture.conv_in c) None; eq (LayerCapture.delta_out c) None;
       eq (LayerCapture.layer_out c) (lit "model__layers__3");
       eq (LayerCapture.mlp_swiglu c) (lit "model__layers__3__mlp__swiglu_product")].

Definition chain_covers_every_layer_once_both_mixers_exist : bool :=
  all [eq (ModelInfo.chain_layers (info types8)) [0; 1; 2; 3; 4; 5; 6; 7]%nat;
       eq (ModelInfo.counts (info types8)) (6, 2)%nat].

Definition input_name_chains_from_the_previous_layer : bool :=
  all [eq (ModelInfo.input_name 0) (lit "model__embed_tokens");
       eq (ModelInfo.input_name 1) (lit "model__layers__0")].

Definition tests : list bool :=
  [ssm_ordinal_skips_full_attention_layers; capture_names_use_the_ordinal_not_the_layer;
   full_attention_layer_has_no_delta_names; chain_covers_every_layer_once_both_mixers_exist;
   input_name_chains_from_the_previous_layer].
End LoaderTests.

(** ** stloader's lib.rs *)

Module StloaderTests.

Definition synthetic_robustness_cases_all_hold : bool :=
  some_is (forallb ck_pass) (Selftest.run (J:=Value)).

Definition rt_header : rstr :=
  rust "{\qpad_a\q:{\qdtype\q:\qU8\q,\qshape\q:[300],\qdata_offsets\q:[0,300]}," ++
  rust "\qpattern_b\q:{\qdtype\q:\qU8\q,\qshape\q:[8192],\qdata_offsets\q:[300,8492]}}".
Definition pattern : list Z := (λ i, (i * 7 + 3) mod 256) <$> seqZ 0 8192.
Definition rt_file : list Z :=
  file_bytes rt_header (((λ i, i mod 251) <$> seqZ 0 300) ++ pattern).
Definition truncated_file_is_rejected : bool :=
  err_is (λ e, match Header.kind e with InvalidData => true | _ => false end)
    (read_header (J:=Value)
       (file_bytes (rust "{\qa\q:{\qdtype\q:\qU8\q,\qshape\q:[100000],\qdata_offsets\q:[0,100000]}}")
          (replicate 16 0))).

Definition tests : list bool :=
  [synthetic_robustness_cases_all_hold; truncated_file_is_rejected].

Definition rt_plan : list (nat * Range) :=
  match read_header (J:=Value) rt_file with Ok h => plan_model [h] 4096 0 | Err _ => [] end.

(** A kernel whose reads of the file do not fail; the direct and the buffered
    read are two of them. *)
Definition reads_fully (pread : pread_oracle) : Prop :=
  pread_of rt_file pread ∧ ∀ k n off, ∃ bs, pread k n off = Ok bs.

(** The assertions of the test, in its order, for every such kernel and every
    run of [read_files] that finishes with full reads. *)
Definition round_trip_reads_exact_bytes : Prop :=
  ∃ h t, read_header rt_file = Ok h ∧ length (sh_tensors h) = 2%nat ∧ ShardHeader.buffer_bytes h = 8492 ∧
    hd_error (filter (λ t, ti_name t = lit "pattern_b") (sh_tensors h)) = Some t ∧
    let '(off, fin) := TensorInfo.abs_range t (sh_data_start h) in
    off mod 4096 ≠ 0 ∧
    (∀ direct buffered, reads_fully direct → reads_fully buffered → ∃ got got_buf,
       read_small_range direct off (fin - off) 4096 = Some (Ok got) ∧ len got = 8192 ∧ got = pattern ∧
       read_small_range buffered off (fin - off) 4096 = Some (Ok got_buf) ∧ got = got_buf) ∧
    let plan := plan_model [h] 4096 0 in
    let file_size := len rt_file in
    let planned := zsum ((λ p, rlen p.2) <$> plan) in
    (∀ s, reachable ReadConfig_default (jobs_of ReadConfig_default plan) s → phase s = Finished →
       Forall (full_read (λ _, file_size)) (reaped s) →
       requests (stats s) = 1 ∧ short_reads (stats s) = 1 ∧ bytes (stats s) = file_size) ∧
    8492 ≤ planned ∧ planned ≤ file_size + 4096.
End StloaderTests.

Import StloaderTests.

(** However the kernel schedules the requests, if it reads all the file has of
    what it is asked for, then [read_files] counts one request, short, and the
    whole file. *)
Lemma round_trip_stats s :
  reachable ReadConfig_default (jobs_of ReadConfig_default rt_plan) s → phase s = Finished →
  Forall (full_read (λ _, len rt_file)) (reaped s) →
  stats s = mkReadStats (len rt_file) 1 1.
Proof.
  assert (jobs_of ReadConfig_default rt_plan = [mkJob 0 0 12288]) as -> by (vm_compute; reflexivity).
  assert (len rt_file = 8629) as -> by (vm_compute; reflexivity).
  intros Hr Hf Hfull. destruct (finished_all _ _ _ Hr Hf) as [_ Hk].
  pose proof (reachable_inv _ _ _ Hr) as Hi.
  pose proof (inv_bytes _ _ _ Hi) as Hb. pose proof (inv_requests _ _ _ Hi) as Hq.
  pose proof (inv_short _ _ _ Hi ltac:(repeat constructor; cbn; lia)) as Hs.
  apply Permutation_singleton_r in Hk.
  destruct (reaped s) as [|[e res] [|]]; [done| |done]. injection Hk as Hfile Hoff Hlen.
  apply Forall_inv in Hfull. unfold full_read in Hfull. cbn [fst snd] in Hfull.
  rewrite Hoff, Hlen in Hfull. cbn in Hfull. subst res.
  destruct (stats s) as [b q sh]. cbn in Hb, Hq, Hs. subst b q sh.
  f_equal. unfold short_count. rewrite filter_cons_True by (cbn [fst snd]; by rewrite Hlen). done.
Qed.

Lemma read_small_ok pread off n : reads_fully pread → 0 ≤ off → 0 < n → off + n ≤ len rt_file →
  read_small_range pread off n 4096 = Some (Ok (slice rt_file off (off + n))).
Proof.
  intros [Hp Hok] Ho Hn Hin. assert (len rt_file = 8629) as Hl by (vm_compute; reflexivity).
  assert (∀ fuel k a0 total buf e, read_loop pread fuel k a0 total buf ≠ Some (Err e)) as Hne.
  { induction fuel as [|fuel IH]; intros k a0 total buf e; cbn [read_loop]; [done|].
    case_decide; [|done]. destruct (Hok k (total - len buf) (a0 + len buf)) as [[|x bs] ->]; [done|apply IH]. }
  pose proof (read_small_range_spec rt_file pread off n 4096 Hp Ho Hn
    ltac:(unfold u64_max; change (4096 `max` 1) with 4096; lia)) as Hs.
  destruct (read_small_range pread off n 4096) as [[bs|e]|] eqn:E; [by destruct Hs as [_ ->]| |done].
  exfalso. unfold read_small_range in E. cbn zeta in E.
  destruct (read_loop _ _ _ _ _ _) as [[buf|e']|] eqn:El; [|by destruct (Hne _ _ _ _ _ _ El)|done].
  cbn [mbind option_bind result_bind] in E. case_decide; [|done].
  injection E as <-. destruct Hs as [Hs _]. lia.
Qed.

Definition rt_pattern : TensorInfo := mkTensorInfo (lit "pattern_b") U8 [8192] 300 8492.
Definition rt_parsed : ShardHeader Value :=
  mkShardHeader Value 8629 129 137 None [mkTensorInfo (lit "pad_a") U8 [300] 0 300; rt_pattern].

Lemma rt_reads : read_header rt_file = Ok rt_parsed.
Proof. vm_compute. reflexivity. Qed.

(** The test holds on the model. *)
Lemma round_trip_holds : round_trip_reads_exact_bytes.
Proof.
  assert (rt_plan = plan_model [rt_parsed] 4096 0) as Hplan by (unfold rt_plan; by rewrite rt_reads).
  exists rt_parsed, rt_pattern. split; [exact rt_reads|]. do 3 (split; [vm_compute; reflexivity|]).
  change (TensorInfo.abs_range rt_pattern (sh_data_start rt_parsed)) with (437, 8629). cbv beta iota.
  split; [done|]. assert (len rt_file = 8629) as Hl by (vm_compute; reflexivity). split; [|split].
  - intros direct buffered Hd Hb.
    eexists _, _. rewrite !read_small_ok by (done || rewrite Hl; lia).
    split; [reflexivity|]. split; [vm_compute; reflexivity|]. split; [vm_compute; reflexivity|]. by split.
  - cbv zeta. rewrite <- Hplan. intros s Hr Hf Hfull. rewrite (round_trip_stats s Hr Hf Hfull).
    cbn [requests short_reads bytes]. split; [reflexivity|split; reflexivity].
  - cbv zeta. rewrite <- Hplan, Hl. split; apply Z.leb_le; vm_compute; reflexivity.
Qed.

(** ** All the unit tests *)

Definition tests : list bool :=
  SafetensorsTests.tests ++ RealTests.tests ++ LoaderTests.tests ++ StloaderTests.tests.

Definition unit_tests : list bool :=
  SampleTests.tests ++ TextTests.tests ++ ModelTests.tests ++ tests.

(** The model passes the repository's unit tests, 142 of the 145: 141 are
    evaluated, or implied by a theorem where they are large, and the one that
    reads through the kernel holds for every kernel.  The samplers draw from the
    source's own generator, and the platform's mathematical library is
    [RefLibm]. *)
Theorem unit_tests_pass :
  length unit_tests = 141%nat ∧ Forall (λ b, b = true) unit_tests ∧ round_trip_reads_exact_bytes.
Proof.
  split; [reflexivity|]. split; [|exact round_trip_holds]. apply all_true_inv. unfold unit_tests. each_test.
  - exact SampleTests.sample_tests_pass.
  - exact text_tests_pass.
  - exact model_tests_pass.
  - vm_compute. reflexivity.
Qed.
